(* ===== verification/_CoqProject ===== *)
-Q . S2P
Prelude.v
Text.v
Binlog.v
Retry.v
Registry.v
LogFile.v
Vlog.v
VlogOpen.v
Sorter.v
Pipeline.v
Metadata.v
Storage.v
StorageProofs.v
StorageExamples.v
Heap.v
MergeStrategy.v
Merger.v
Causality.v
LoaderModel.v
LoaderMerge.v
LoaderBatch.v
LoaderExec.v
BinlogFile.v
BinlogNames.v
BinlogWalk.v
Schema.v
SchemaProofs.v
SchemaCatalog.v
Filter.v
Checkpoint.v
Mutation.v
Syncer.v
SyncerProofs.v
SyncerLive.v
SyncerExamples.v
DSync.v
KafkaSync.v
PumpServer.v
PumpOffline.v
PumpClient.v
Collector.v
Cluster.v
Datum.v
Translator.v
TranslatorProofs.v
TranslateTxn.v
TranslateTxnProofs.v
TranslateSecondary.v
TranslateSecondaryProofs.v
PbCodec.v
PbCodecProofs.v
TranslatePb.v
TranslatePbProofs.v
TranslateExamples.v
RelayFeed.v
Reparo.v
ReparoProofs.v
Arbiter.v
DrainerServer.v
DrainerConfig.v
LoaderRetry.v
LoaderRun.v
MysqlSync.v
Restart.v
Encrypt.v
PumpNode.v
Binlogctl.v
