(* ===== verification/Prelude.v ===== *)
(** * A verification of TiDB Binlog

    TiDB Binlog collects the changes of a TiDB cluster and applies them to a
    downstream.  Pumps ([src/pump]) receive the binlogs of TiDB (a prewrite and
    a commit or rollback for every transaction), store them in a log, sort them by
    commit timestamp and serve the committed ones.  Drainer ([src/drainer]) pulls
    from all pumps, merges the streams into one, follows the schema through the DDL
    jobs, filters, and hands every transaction to a downstream: the loader
    ([src/pkg/loader]) for MySQL and TiDB, Kafka, or local files
    ([src/pkg/binlogfile]).  A checkpoint records how far it has come, and a relay
    log ([src/drainer/relay]) holds what the loader has not reported yet.  The nodes
    find each other through a registry in etcd ([src/pkg/node], [src/pkg/etcd]).
    Around them are reparo ([src/reparo]), which replays the local files, the arbiter
    ([src/arbiter]), which applies what Kafka holds, and binlogctl
    ([src/binlogctl]), which lists and controls the nodes.

    The development translates this code into executable definitions and proves
    what makes each part correct.  It is laid out along the way of a binlog.

    ** Files

    Shared: [Prelude] (errors and results, machine integers, bytes, checksums,
    readers, decimal numbers, hints and tactics), [Text] (the functions of the
    packages strings and path), [Binlog] (the message with its codec as an
    interface), [Retry] (the retries of [pkg/util/util.go]).

    The storage of a pump ([pump/storage]): [LogFile] (a file of the value log:
    records with magic number and checksum, scanning past damage, footer, recovery,
    [log.go]); [Vlog], [VlogOpen] (the directory of files: appending with rotation,
    reading, scanning, collection, reopening, [vlog.go]); [Sorter] ([sorter.go]);
    [Pipeline] (the stages of writing and the slow chaser, [storage.go],
    [chaser.go]); [Metadata] (keys and the interface of the key-value store,
    [util.go]); [Storage], [StorageProofs], [StorageExamples] (the operations of
    [Append], [storage.go]).

    The pump: [Registry] (client of etcd and registry of nodes, [pkg/etcd],
    [pkg/node]); [PumpServer] (handlers, background work and node states,
    [pump/server.go], [pump/node.go]); [PumpOffline] (leaving the cluster,
    [waitSafeToOffline]); [PumpNode] (the id in the data directory and joining the
    cluster, [pump/node.go], with the drainers that are notified).

    The input of drainer: [PumpClient] ([drainer/pump.go]); [Heap],
    [MergeStrategy], [Merger] ([drainer/merge.go], [container/heap]); [Collector]
    ([drainer/collector.go]); [Cluster] puts pumps, connections, collector and
    merger together.

    The syncer: [Schema], [SchemaProofs], [SchemaCatalog] ([drainer/schema.go]);
    [Filter] ([pkg/filter]); [Mutation] (rows of a transaction and their filters,
    [drainer/syncer.go], [drainer/translator/sequence_iterator.go]); [Checkpoint]
    ([drainer/checkpoint]); [Syncer], [SyncerProofs], [SyncerLive],
    [SyncerExamples] (the loop and [handleSuccess], [drainer/syncer.go]); [DSync]
    (errors, closing and the flow control of the downstream syncers,
    [drainer/sync]); [KafkaSync] and [MysqlSync] (the syncers for Kafka, and for
    MySQL with its relay log, as step relations, [kafka.go], [mysql.go]); [DrainerServer] (the status of drainer in the registry,
    [drainer/server.go]); [DrainerConfig] (the configuration, [drainer/config.go],
    [drainer/util.go], [pkg/util/duration.go]); [Restart] (what a start after an exit
    of any kind does, [drainer/relay.go], [drainer/server.go]).

    Translation: [Datum] (values and rows of TiDB, with its library as an
    interface), [Translator] (decoding of rows, [translator.go]), [TranslateTxn] (to transactions of the loader, [mysql.go]),
    [TranslateSecondary] (to messages for Kafka and the relay log and back,
    [kafka.go], [pkg/loader/translate.go]), [TranslatePb] (to the messages of files and
    back, [pb.go], [reparo/syncer/translate.go]), [PbCodec] (the generated codec of
    these messages, [proto/binlog/binlog.pb.go]), each with its proofs in a file
    [...Proofs], and [TranslateExamples].

    The downstream: [LoaderModel] ([pkg/loader/model.go]), [Causality]
    ([causality.go]), [LoaderMerge] ([merge.go]), [LoaderBatch] ([load.go]),
    [LoaderExec] ([executor.go], [util.go]), [LoaderRetry] (the retries of
    [executor.go] and [load.go] against a database that loses answers), [LoaderRun]
    (the execution of a batch, [execDMLs], put together from these);
    [BinlogFile], [BinlogNames], [BinlogWalk] ([pkg/binlogfile], and the writer of the
    relay log); [RelayFeed] (recovery from the relay log, [drainer/relay],
    [drainer/relay.go]).

    Tools: [Reparo], [ReparoProofs] ([reparo], and the files that drainer writes,
    [drainer/sync/pb.go]); [Arbiter] ([arbiter]); [Encrypt] ([pkg/encrypt]);
    [Binlogctl] ([binlogctl]).

    ** How code is modelled

    A struct is a record and a method a function from state to state; an error
    result is [outcome] (a value, an error, a panic), or a sum where the callers
    look at the kind of error.  Integers are [Z] with the wrap-around of their
    width written out where it can matter.  A Go map is a [gmap]; where a [range]
    over it matters, its order is an argument.  Goroutines are program counters:
    a step relation (or a step function with the choices as arguments) interleaves
    them at the points where they touch shared state, with ghost fields for what
    was sent, pushed or saved.  Time, timers, the answers of system calls and of
    remote calls are arguments or non-deterministic steps.

    Code outside the repository is a parameter with the laws the code relies on,
    and has a concrete instance that examples compute with: the protobuf codec of
    binlogs ([Codec], [CodecOk]), the JSON of statuses ([StatusCodec]), TOML and
    JSON of checkpoints ([FileCodec], ...), goleveldb ([KV], [KVOk]), the decoding
    of rows ([Lib]), regular expressions and case mapping, the formatting of
    floats, the SQL parser, the MySQL driver, Kafka, AES, etcd and PD.  The interfaces between components are classes too:
    [MergeStrategy] with [MergeStrategyOk] (the merger is proved against it, heap
    and map implement it), [CheckPoint] with [CheckPointLaws] (the syncer is proved
    against it, file and database implement it), [PumpStorage].

    Functions are total.  Loops that are not structural recurse on fuel that
    covers their input (a scan on the length of the file, a drain on the number of
    items), and the theorems are stated for the functions with that fuel; the wait
    for a DDL job, which may never end, has its fuel as an argument and a lemma
    that enough of it finds the job.

    ** What is proved

    Storage: the log is an append-only sequence whose records are read back at
    their positions, across rotation, damage and reopening; the sorter reports a
    commit only when everything before it is settled, in increasing order; what
    reaches the metadata is the log without gaps, whatever the slow chaser does, and
    everything acknowledged gets there; pulling delivers every committed binlog once
    and in order; a restart loses nothing; collection removes only what is old.

    Pump: the registry implements a map of statuses although calls fail and clients
    interfere; a pump leaves the cluster only when the drainers have consumed what
    was written before its last fake binlog (and a counterexample shows what this
    does not cover); a pump that joins is followed by every online drainer when its
    start returns, and keeps its id and state across restarts.

    Drainer: connections that break lose and repeat nothing, and catch up; the
    collector follows the registry; end to end, the merged stream is strictly
    increasing and contains everything every pump holds up to its last timestamp.
    The schema history implements a catalog of databases and tables; filters keep
    exactly the rows they should; a saved checkpoint never covers an item that was
    not reported, catches up, survives a crash at every point of the file write, and
    is marked consistent only when everything was reported.  What a drainer registers
    never lets a pump collect binlogs above its checkpoint.  The relay log always holds
    what was accepted and not reported, and recovery from it executes a prefix in order;
    after a crash, replaying from the checkpoint in safe mode leaves the downstream as if
    every transaction had been executed once.

    Translation: rows that TiDB wrote decode to their values; a binlog gives one DML per
    row with the formatted values; the paths over the relay log and over files give the
    DMLs of the direct path, and the codec of the file format is exact.

    Downstream: the parallel execution with conflict detection, the merging of
    DMLs by primary key, and both together with retries in [execDMLs] give the result of
    the sequential execution; Kafka has what is reported, in order; transactions
    are executed and reported in order, atomically, within the bounds of the cache;
    retries after failures and lost answers change nothing of this in safe mode and for
    bulk statements, and a DDL takes effect once; local files are walked from any
    position, appended to and reopened, and reparo replays exactly what drainer wrote.
    The checkpoint of the arbiter covers only what was executed; encrypted texts are
    decrypted to themselves; the commands of binlogctl have the effect that they report,
    but for a refusal that they do not notice.

    ** Not modelled

    Metrics, logging, the parsing of flags and TOML, TLS files, the listeners and the
    wiring of gRPC and HTTP servers, the debug pages of a pump and the command mains
    do not carry the logic above.  The creation of connections and producers
    ([drainer/sync], [drainer/server.go], [pkg/sql], [pkg/zk]) is left out, because it
    consists of calls of drivers and clients.  The protobuf messages that TiDB
    and drainer exchange ([tipb]) are outside the repository and behind the codec
    interface.  Real time and the fairness of the scheduler are
    not modelled: liveness is stated as the existence of a continuation from every
    reachable state. *)
From Stdlib Require Import Init.Byte Strings.Byte Ascii SpecFloat.
From stdpp Require Import base option list sorting strings gmap numbers.

#[global] Open Scope Z_scope.

(** ** Errors and fallible results *)

(** A Go [error] value, up to [errors.Cause]: [errors.Trace] and
    [errors.Annotate] add a stack or a message and keep the cause, so they are
    the identity here.  [EOF] and [ErrUnexpectedEOF] are the sentinels of the
    [io] package; every other error is its message. *)
Inductive error :=
  | EOF
  | ErrUnexpectedEOF
  | Err (msg : string).

#[export] Instance error_eq_dec : EqDecision error.
Proof. solve_decision. Defined.

(** The result of a Go function with an [error] result: a value, a non-nil
    error, or a run-time panic. *)
Inductive outcome (A : Type) :=
  | Ret (a : A)
  | Fail (e : error)
  | Panic.
Arguments Ret {A} a.
Arguments Fail {A} e.
Arguments Panic {A}.

#[export] Instance outcome_eq_dec `{EqDecision A} : EqDecision (outcome A).
Proof. solve_decision. Defined.

Definition obind {A B} (c : outcome A) (k : A -> outcome B) : outcome B :=
  match c with
  | Ret a => k a
  | Fail e => Fail e
  | Panic => Panic
  end.

Declare Scope go_scope.
Delimit Scope go_scope with go.
Notation "'let!' x ':=' c 'in' k" := (obind c (fun x => k))
  (at level 10, x pattern, c at level 100, k at level 200) : go_scope.
#[global] Open Scope go_scope.

Lemma obind_Ret_inv {A B} (c : outcome A) (k : A -> outcome B) b :
  obind c k = Ret b -> exists a, c = Ret a /\ k a = Ret b.
Proof. destruct c; simpl; intros; [eauto | discriminate..]. Qed.

(** A loop that calls [f] on every element and stops at the first error. *)
Fixpoint each {A B} (f : A -> outcome B) (l : list A) : outcome (list B) :=
  match l with
  | [] => Ret []
  | x :: l => let! y := f x in let! ys := each f l in Ret (y :: ys)
  end.

Lemma each_Ret {A B} (f : A -> outcome B) l ys : each f l = Ret ys <-> Forall2 (fun x y => f x = Ret y) l ys.
Proof.
  revert ys. induction l as [|x l IH]; intros ys; cbn [each].
  - split; [intros [= <-]; constructor|]. intros H. by inversion H.
  - split.
    + intros (y & Hy & (ys' & Hys & [= <-])%obind_Ret_inv)%obind_Ret_inv. constructor; [done|]. by apply IH.
    + intros H. inversion H as [|? y ? ys' Hy Hys]; subst. rewrite Hy. cbn [obind]. by rewrite (proj2 (IH _) Hys).
Qed.

Lemma each_ext {A B} (f h : A -> outcome B) l : (forall x, f x = h x) -> each f l = each h l.
Proof. intros H. induction l as [|x l IH]; [done|]. cbn [each]. by rewrite H, IH. Qed.

(** ** Automation *)

(** The hints of the development: ranges of machine integers, lengths of encodings
    and the like, for [eauto] and [autorewrite]. *)
Create HintDb go.
Create Rewrite HintDb go.

(** A decidable proposition without variables, by evaluation. *)
Ltac by_decide := apply (bool_decide_unpack _); vm_compute; exact I.

(** ** Lengths *)

Abbreviation len l := (Z.of_nat (length l)).

Lemma len_app {A} (l1 l2 : list A) : len (l1 ++ l2) = len l1 + len l2.
Proof. rewrite length_app. lia. Qed.

Lemma len_nonneg {A} (l : list A) : 0 <= len l.
Proof. lia. Qed.

(** ** Filters *)

Lemma filter_ext_Forall {A} (P Q : A -> Prop) `{!forall x, Decision (P x), !forall x, Decision (Q x)} l :
  Forall (fun x => P x <-> Q x) l -> filter P l = filter Q l.
Proof.
  induction 1 as [|x l Hx _ IH]; [done|]. destruct (decide (P x)).
  - rewrite !filter_cons_True by tauto. by f_equal.
  - rewrite !filter_cons_False by tauto. done.
Qed.

Lemma filter_all_out {A} (P : A -> Prop) `{!forall x, Decision (P x)} l : Forall (fun x => ~ P x) l -> filter P l = [].
Proof. induction 1 as [|x l Hx _ IH]; [done|]. by rewrite filter_cons_False. Qed.

Lemma filter_all_in {A} (P : A -> Prop) `{!forall x, Decision (P x)} l : Forall P l -> filter P l = l.
Proof. induction 1 as [|x l Hx Hl IH]; [done|]. rewrite filter_cons, decide_True by done. by rewrite IH. Qed.

(** ** Machine integers *)

Definition wrap_u32 (z : Z) : Z := z mod 2 ^ 32.
Definition wrap_u64 (z : Z) : Z := z mod 2 ^ 64.
Definition wrap_i64 (z : Z) : Z := (z + 2 ^ 63) mod 2 ^ 64 - 2 ^ 63.

Definition in_u32 (z : Z) : Prop := 0 <= z < 2 ^ 32.
Definition in_u64 (z : Z) : Prop := 0 <= z < 2 ^ 64.
Definition in_i64 (z : Z) : Prop := - 2 ^ 63 <= z < 2 ^ 63.

(** A range of machine integers from bounds in the context. *)
Ltac in_range := unfold in_i64, in_u64, in_u32 in *; lia.
#[export] Hint Extern 1 (in_i64 _) => in_range : go.
#[export] Hint Extern 1 (in_u64 _) => in_range : go.
#[export] Hint Extern 1 (in_u32 _) => in_range : go.

Lemma wrap_i64_id z : in_i64 z -> wrap_i64 z = z.
Proof. unfold in_i64, wrap_i64. intros. rewrite Z.mod_small; lia. Qed.

Lemma wrap_i64_u64 z : in_i64 z -> wrap_i64 (wrap_u64 z) = z.
Proof.
  unfold wrap_i64, wrap_u64. intros H.
  rewrite Zplus_mod_idemp_l. by apply wrap_i64_id.
Qed.

Lemma wrap_u64_range z : in_u64 (wrap_u64 z).
Proof. apply Z.mod_pos_bound. lia. Qed.

Lemma wrap_i64_range z : in_i64 (wrap_i64 z).
Proof.
  unfold in_i64, wrap_i64.
  pose proof (Z.mod_pos_bound (z + 2 ^ 63) (2 ^ 64)). lia.
Qed.

(** ** Bytes *)

Definition byte_to_Z (b : byte) : Z := Z.of_N (Byte.to_N b).

Definition byte_of_Z (z : Z) : byte :=
  default x00 (Byte.of_N (Z.to_N (z mod 256))).

#[export] Instance byte_eq_dec : EqDecision byte := Byte.byte_eq_dec.

Lemma byte_to_Z_range b : 0 <= byte_to_Z b < 256.
Proof. unfold byte_to_Z. pose proof (Byte.to_N_bounded b). lia. Qed.

Lemma byte_to_of_Z z : byte_to_Z (byte_of_Z z) = z mod 256.
Proof.
  unfold byte_to_Z, byte_of_Z.
  pose proof (Z.mod_pos_bound z 256).
  destruct (Byte.of_N (Z.to_N (z mod 256))) eqn:E; simpl.
  - apply Byte.to_of_N in E. lia.
  - apply Byte.of_N_None_iff in E. lia.
Qed.

Lemma byte_to_Z_inj b1 b2 : byte_to_Z b1 = byte_to_Z b2 -> b1 = b2.
Proof.
  unfold byte_to_Z. intros H%N2Z.inj.
  pose proof (Byte.of_to_N b1). pose proof (Byte.of_to_N b2). congruence.
Qed.

Lemma byte_of_to_Z b : byte_of_Z (byte_to_Z b) = b.
Proof.
  apply byte_to_Z_inj. rewrite byte_to_of_Z.
  apply Z.mod_small, byte_to_Z_range.
Qed.

#[export] Program Instance byte_countable : Countable byte :=
  inj_countable Byte.to_N Byte.of_N _.
Next Obligation. apply Byte.of_to_N. Qed.

(** ** Little- and big-endian integers ([encoding/binary]) *)

(** [PutUint32]/[PutUint64] write the low bytes of their argument. *)
Fixpoint le_bytes (n : nat) (z : Z) : list byte :=
  match n with
  | O => []
  | S n => byte_of_Z z :: le_bytes n (z / 256)
  end.

Fixpoint le_value (l : list byte) : Z :=
  match l with
  | [] => 0
  | b :: l => byte_to_Z b + 256 * le_value l
  end.

Definition be_bytes (n : nat) (z : Z) : list byte := reverse (le_bytes n z).
Definition be_value (l : list byte) : Z := le_value (reverse l).

Lemma length_le_bytes n z : length (le_bytes n z) = n.
Proof. revert z. induction n; simpl; auto. Qed.

Lemma length_be_bytes n z : length (be_bytes n z) = n.
Proof. unfold be_bytes. by rewrite length_reverse, length_le_bytes. Qed.

Lemma le_value_bytes n z : le_value (le_bytes n z) = z mod 256 ^ (Z.of_nat n).
Proof.
  revert z. induction n as [|n IH]; intros z; simpl le_bytes; simpl le_value.
  - by rewrite Z.mod_1_r.
  - rewrite IH, byte_to_of_Z, Nat2Z.inj_succ, Z.pow_succ_r by lia.
    rewrite Z.rem_mul_r by lia. lia.
Qed.

Lemma be_value_bytes n z : be_value (be_bytes n z) = z mod 256 ^ (Z.of_nat n).
Proof. unfold be_value, be_bytes. by rewrite reverse_involutive, le_value_bytes. Qed.

Lemma le_value_range l : 0 <= le_value l < 256 ^ (len l).
Proof.
  induction l as [|b l IH]; simpl le_value; [done|].
  pose proof (byte_to_Z_range b).
  simpl length. rewrite Nat2Z.inj_succ, Z.pow_succ_r by lia. lia.
Qed.

Lemma le_bytes_value l : le_bytes (length l) (le_value l) = l.
Proof.
  induction l as [|b l IH]; simpl; [done|].
  pose proof (byte_to_Z_range b). f_equal.
  - apply byte_to_Z_inj. rewrite byte_to_of_Z.
    rewrite (Z.mul_comm 256), Z.mod_add, Z.mod_small; lia.
  - rewrite (Z.mul_comm 256), Z.div_add, Z.div_small, Z.add_0_l by lia. done.
Qed.

Lemma le_value_app l1 l2 : le_value (l1 ++ l2) = le_value l1 + 256 ^ (len l1) * le_value l2.
Proof.
  induction l1 as [|b l1 IH]; simpl app; simpl le_value; [change (256 ^ len []) with 1; lia|].
  simpl length. rewrite IH, Nat2Z.inj_succ, Z.pow_succ_r by lia. lia.
Qed.

Lemma le_value_u32 z : in_u32 z -> le_value (le_bytes 4 z) = z.
Proof. unfold in_u32. intros. rewrite le_value_bytes. by apply Z.mod_small. Qed.

Lemma le_value_u64 z : in_u64 z -> le_value (le_bytes 8 z) = z.
Proof. unfold in_u64. intros. rewrite le_value_bytes. by apply Z.mod_small. Qed.

Lemma le_value_wrap64 z : le_value (le_bytes 8 z) = wrap_u64 z.
Proof. by rewrite le_value_bytes. Qed.

(** ** CRC-32 ([hash/crc32])
    The reflected algorithm, one bit at a time; the tables of the Go package
    hold [crc_byte poly 0 b] for every byte [b]. *)

Definition crc_IEEE : Z := 0xedb88320.
Definition crc_Castagnoli : Z := 0x82f63b78.

Definition crc_bit (poly c : Z) : Z :=
  if Z.odd c then Z.lxor (Z.shiftr c 1) poly else Z.shiftr c 1.

Definition crc_byte (poly c : Z) (b : byte) : Z :=
  Nat.iter 8 (crc_bit poly) (Z.lxor c (byte_to_Z b)).

Definition crc32 (poly : Z) (data : list byte) : Z :=
  Z.lxor (fold_left (crc_byte poly) data 0xffffffff) 0xffffffff.

(** The check values of the two CRCs on the string [123456789]. *)
Example crc32_check_IEEE :
  crc32 crc_IEEE [x31; x32; x33; x34; x35; x36; x37; x38; x39] = 0xcbf43926.
Proof. reflexivity. Qed.

Example crc32_check_Castagnoli :
  crc32 crc_Castagnoli [x31; x32; x33; x34; x35; x36; x37; x38; x39] = 0xe3069283.
Proof. reflexivity. Qed.

Lemma lxor_u32 a b : in_u32 a -> in_u32 b -> in_u32 (Z.lxor a b).
Proof.
  unfold in_u32. intros Ha Hb. split; [by apply Z.lxor_nonneg; lia|].
  destruct (decide (Z.lxor a b = 0)) as [->|Hne]; [lia|].
  apply Z.log2_lt_pow2.
  - pose proof (proj2 (Z.lxor_nonneg a b)). lia.
  - assert (Hl : forall x, 0 <= x < 2 ^ 32 -> Z.log2 x < 32).
    { intros x [??]. destruct (decide (x = 0)) as [->|]; [done|].
      apply Z.log2_lt_pow2; lia. }
    pose proof (Z.log2_lxor a b). pose proof (Hl a). pose proof (Hl b). lia.
Qed.

Lemma crc_bit_u32 poly c : in_u32 poly -> in_u32 c -> in_u32 (crc_bit poly c).
Proof.
  intros Hp Hc. assert (Hs : in_u32 (Z.shiftr c 1)).
  { unfold in_u32 in *. rewrite Z.shiftr_div_pow2 by lia.
    change (2 ^ 1) with 2. split; [apply Z.div_pos; lia|].
    apply Z.div_lt_upper_bound; lia. }
  unfold crc_bit. destruct (Z.odd c); [by apply lxor_u32|done].
Qed.

Lemma crc_byte_u32 poly c b : in_u32 poly -> in_u32 c -> in_u32 (crc_byte poly c b).
Proof.
  intros Hp Hc. unfold crc_byte.
  apply Nat.iter_invariant.
  - intros. by apply crc_bit_u32.
  - apply lxor_u32; [done|]. pose proof (byte_to_Z_range b). unfold in_u32. lia.
Qed.

Lemma crc32_u32 poly data : in_u32 poly -> in_u32 (crc32 poly data).
Proof.
  intros Hp. unfold crc32. apply lxor_u32; [|in_range].
  assert (H : in_u32 0xffffffff) by in_range. revert H.
  generalize 0xffffffff as c. induction data as [|b data IH]; intros c Hc; simpl; [done|].
  apply IH. by apply crc_byte_u32.
Qed.

Lemma crc32_Castagnoli_u32 data : in_u32 (crc32 crc_Castagnoli data).
Proof. apply crc32_u32. unfold in_u32, crc_Castagnoli. lia. Qed.

#[export] Hint Resolve wrap_u64_range wrap_i64_range byte_to_Z_range lxor_u32 crc_bit_u32 crc_byte_u32 crc32_u32 crc32_Castagnoli_u32 : go.
#[export] Hint Rewrite @len_app @length_app length_le_bytes length_be_bytes : go.

(** ** Readers ([io.ReadFull], [os.File.ReadAt])
    A reader is the list of the bytes it has still to deliver. *)

Definition read_full (n : Z) (r : list byte) : outcome (list byte * list byte) :=
  if n <=? 0 then Ret ([], r)
  else if bool_decide (r = []) then Fail EOF
  else if len r <? n then Fail ErrUnexpectedEOF
  else Ret (take (Z.to_nat n) r, drop (Z.to_nat n) r).

Definition read_at (file : list byte) (n off : Z) : outcome (list byte) :=
  if off <? 0 then Fail (Err "negative offset")
  else if n <=? 0 then Ret []
  else if len file <? off + n then Fail EOF
  else Ret (take (Z.to_nat n) (drop (Z.to_nat off) file)).

Lemma read_full_app d r : read_full (len d) (d ++ r) = Ret (d, r).
Proof.
  unfold read_full. destruct (Z.leb_spec (len d) 0) as [Hz|Hz].
  - destruct d; simpl in *; [done|lia].
  - rewrite bool_decide_eq_false_2 by (destruct d; simpl in *; [lia|done]).
    rewrite len_app. destruct (Z.ltb_spec (len d + len r) (len d)); [lia|].
    by rewrite Nat2Z.id, take_app_length, drop_app_length.
Qed.

Lemma read_full_app' n d r : n = len d -> read_full n (d ++ r) = Ret (d, r).
Proof. intros ->. apply read_full_app. Qed.

Lemma read_full_Ret n r d r' : 0 <= n -> read_full n r = Ret (d, r') -> r = d ++ r' /\ len d = n.
Proof.
  unfold read_full. intros Hn.
  destruct (Z.leb_spec n 0); [intros [= <- <-]; simpl; split; [done|lia]|].
  case_bool_decide; [done|].
  destruct (Z.ltb_spec (len r) n); [done|].
  intros [= <- <-]. rewrite take_drop, length_take. split; [done|lia].
Qed.

Lemma read_at_app pre d post :
  read_at (pre ++ d ++ post) (len d) (len pre) = Ret d.
Proof.
  unfold read_at. destruct (Z.ltb_spec (len pre) 0); [lia|].
  destruct (Z.leb_spec (len d) 0) as [Hz|Hz].
  - destruct d; simpl in *; [done|lia].
  - rewrite !len_app. destruct (Z.ltb_spec (len pre + (len d + len post)) (len pre + len d)); [lia|].
    by rewrite !Nat2Z.id, drop_app_length, take_app_length.
Qed.

#[global] Arguments le_bytes : simpl never.
#[global] Arguments le_value : simpl never.
#[global] Arguments crc32 : simpl never.
#[global] Arguments read_full : simpl never.
#[global] Arguments read_at : simpl never.
#[global] Arguments Z.pow : simpl never.

(** Reduce the binds whose computation is known. *)
Ltac step_bind := cbn [obind].

(** ** Decimal numbers ([fmt.Sprintf] with [%d] and [%0wd], [strconv]) *)

Definition digit (d : Z) : ascii := Ascii.ascii_of_nat (48 + Z.to_nat d).

Definition digit_value (c : ascii) : option Z :=
  let n := Z.of_nat (Ascii.nat_of_ascii c) in
  if (48 <=? n) && (n <=? 57) then Some (n - 48) else None.

(** The digits of [n], most significant first, in front of [acc]. *)
Fixpoint dec_acc (fuel : nat) (n : Z) (acc : string) : string :=
  match fuel with
  | O => acc
  | S fuel =>
    if n <? 10 then String (digit n) acc
    else dec_acc fuel (n / 10) (String (digit (n mod 10)) acc)
  end.

(** The decimal digits of a number below [10 ^ 20], which covers every 64-bit
    unsigned integer. *)
Definition dec (n : Z) : string := dec_acc 20 n "".

Definition itoa (n : Z) : string := if n <? 0 then "-" +:+ dec (- n) else dec n.

Fixpoint zeros (n : nat) : string :=
  match n with O => ""%string | S n => String "0" (zeros n) end.

(** [%0wd] for a non-negative number. *)
Definition pad0 (w : nat) (s : string) : string := zeros (w - String.length s) +:+ s.

Fixpoint parse_dec_acc (a : Z) (s : string) : option Z :=
  match s with
  | EmptyString => Some a
  | String c s =>
    match digit_value c with
    | Some d => parse_dec_acc (a * 10 + d) s
    | None => None
    end
  end.

(** [strconv.ParseUint(s, 10, bits)]. *)
Definition parse_uint (bits : Z) (s : string) : outcome Z :=
  if bool_decide (s = ""%string) then Fail (Err "invalid syntax")
  else match parse_dec_acc 0 s with
  | None => Fail (Err "invalid syntax")
  | Some n => if n <? 2 ^ bits then Ret n else Fail (Err "value out of range")
  end.

Lemma digit_value_digit d : 0 <= d < 10 -> digit_value (digit d) = Some d.
Proof.
  intros H. unfold digit_value, digit.
  rewrite Ascii.nat_ascii_embedding by lia.
  rewrite Nat2Z.inj_add, Z2Nat.id by lia.
  destruct (Z.leb_spec 48 (Z.of_nat 48 + d)); [|lia].
  destruct (Z.leb_spec (Z.of_nat 48 + d) 57); [|lia].
  simpl. f_equal. lia.
Qed.

Lemma parse_dec_acc_dec fuel n s :
  0 <= n < 10 ^ (Z.of_nat (S fuel)) ->
  parse_dec_acc 0 (dec_acc (S fuel) n s) = parse_dec_acc n s.
Proof.
  revert n s. induction fuel as [|fuel IH]; intros n s Hn.
  - change (10 ^ Z.of_nat 1) with 10 in Hn. simpl.
    destruct (Z.ltb_spec n 10); [|lia].
    cbn [parse_dec_acc]. by rewrite digit_value_digit by lia.
  - cbn [dec_acc]. destruct (Z.ltb_spec n 10) as [Hlt|Hge].
    + cbn [parse_dec_acc]. by rewrite digit_value_digit by lia.
    + change (if n / 10 <? 10 then _ else _) with
        (dec_acc (S fuel) (n / 10) (String (digit (n mod 10)) s)).
      rewrite Nat2Z.inj_succ, Z.pow_succ_r in Hn by lia.
      rewrite IH.
      2: { split; [apply Z.div_pos; lia|]. apply Z.div_lt_upper_bound; lia. }
      cbn [parse_dec_acc]. pose proof (Z.mod_pos_bound n 10).
      rewrite digit_value_digit by lia. f_equal. rewrite (Z.div_mod n 10) at 3; lia.
Qed.

Lemma parse_dec_acc_zeros n s : parse_dec_acc 0 (zeros n +:+ s) = parse_dec_acc 0 s.
Proof. induction n; simpl; done. Qed.

Lemma dec_nonempty n : dec n <> ""%string.
Proof.
  unfold dec.
  assert (H : forall f m s, s <> ""%string -> dec_acc f m s <> ""%string).
  { clear. induction f as [|f IH]; intros m s Hs; simpl; [done|].
    destruct (m <? 10); [done|]. by apply IH. }
  change (dec_acc 20 n EmptyString) with
    (if n <? 10 then String (digit n) EmptyString
     else dec_acc 19 (n / 10) (String (digit (n mod 10)) EmptyString)).
  destruct (n <? 10); [done|]. by apply H.
Qed.

(** Printing a number, padded or not, and parsing it gives it back. *)
Lemma parse_uint_pad0 bits w n :
  0 <= n < 2 ^ bits -> bits <= 64 -> parse_uint bits (pad0 w (dec n)) = Ret n.
Proof.
  intros Hn Hb.
  assert (Hn' : 0 <= n < 10 ^ Z.of_nat 20).
  { assert (2 ^ bits <= 2 ^ 64) by (apply Z.pow_le_mono_r; lia).
    change (10 ^ Z.of_nat 20) with 100000000000000000000. lia. }
  unfold parse_uint, pad0. rewrite bool_decide_eq_false_2.
  - rewrite parse_dec_acc_zeros. unfold dec. rewrite parse_dec_acc_dec by done.
    simpl. by destruct (Z.ltb_spec n (2 ^ bits)); [|lia].
  - destruct (_ - _)%nat; [apply dec_nonempty|done].
Qed.

(** [strconv.ParseInt(s, 10, 64)]. *)
Definition parse_int64 (s : string) : outcome Z :=
  let '(neg, t) := match s with
    | String c t => if Ascii.eqb c "-" then (true, t) else if Ascii.eqb c "+" then (false, t) else (false, s)
    | EmptyString => (false, s)
    end in
  match t with
  | EmptyString => Fail (Err "invalid syntax")
  | _ =>
    match parse_dec_acc 0 t with
    | None => Fail (Err "invalid syntax")
    | Some n =>
      let v := if neg then - n else n in
      if (- 2 ^ 63 <=? v) && (v <? 2 ^ 63) then Ret v else Fail (Err "value out of range")
    end
  end.

Lemma parse_dec n : 0 <= n < 2 ^ 64 -> parse_dec_acc 0 (dec n) = Some n.
Proof.
  intros Hn. unfold dec. rewrite parse_dec_acc_dec; [done|].
  change (10 ^ Z.of_nat 20) with 100000000000000000000. lia.
Qed.

(** Printing a signed number and parsing it gives it back. *)
Lemma parse_int64_itoa z : in_i64 z -> parse_int64 (itoa z) = Ret z.
Proof.
  intros Hz. unfold itoa. destruct (Z.ltb_spec z 0) as [Hneg|Hpos].
  - unfold parse_int64. pose proof (parse_dec (- z)) as Hp.
    change ("-" +:+ dec (- z))%string with (String "-" (dec (- z))). cbn [Ascii.eqb Bool.eqb]. cbn iota.
    pose proof (dec_nonempty (- z)). destruct (dec (- z)) as [|c s]; [done|]. rewrite Hp by in_range.
    rewrite Z.opp_involutive. destruct (Z.leb_spec (- 2 ^ 63) z), (Z.ltb_spec z (2 ^ 63)); [done|in_range..].
  - pose proof (parse_dec z) as Hp. pose proof (dec_nonempty z). unfold parse_int64.
    destruct (dec z) as [|c s] eqn:E; [done|]. rewrite <- E in *.
    assert (Hsgn : c <> "-"%char /\ c <> "+"%char).
    { rewrite E in Hp. split; intros ->; specialize (Hp ltac:(in_range)); discriminate Hp. }
    rewrite E. destruct Hsgn as [H1%Ascii.eqb_neq H2%Ascii.eqb_neq]. rewrite H1, H2, <- E, Hp by in_range.
    destruct (Z.leb_spec (- 2 ^ 63) z), (Z.ltb_spec z (2 ^ 63)); [done|in_range..].
Qed.

(** ** Dynamic values *)

(** A value of [interface{}]: the dynamic types that a column's value has. *)
Inductive value :=
  | VNil
  | VInt64 (z : Z)
  | VUint64 (z : Z)
  | VFloat (f : spec_float)    (** [float32] *)
  | VDouble (f : spec_float)   (** [float64] *)
  | VBytes (b : list byte)
  | VString (s : string).

Definition is_nil (v : value) : bool := match v with VNil => true | _ => false end.

(** [v != w] on interface values: comparing two byte slices panics. *)
Definition value_neq (v w : value) : outcome bool :=
  match v, w with
  | VNil, VNil => Ret false
  | VInt64 a, VInt64 b | VUint64 a, VUint64 b => Ret (negb (a =? b))
  | VFloat a, VFloat b | VDouble a, VDouble b => Ret (negb (SFeqb a b))
  | VBytes _, VBytes _ => Panic
  | VString a, VString b => Ret (negb (bool_decide (a = b)))
  | _, _ => Ret true
  end.
