(* ===== verification/Text.v ===== *)
(** * Text
    The functions of Go's [strings] and [path] packages that the program uses
    on names and keys. *)
From Stdlib Require Import Ascii.
From stdpp Require Import base option list strings.
From S2P Require Import Prelude.

(** ** Prefixes *)

(** [strings.HasPrefix(s, p)]. *)
Definition has_prefix (p s : string) : bool := String.prefix p s.

Lemma has_prefix_spec p s : has_prefix p s = true <-> exists t, s = p +:+ t.
Proof.
  unfold has_prefix. revert s. induction p as [|c p IH]; intros s; simpl.
  { split; [intros _; by exists s|intros _; by destruct s]. }
  destruct s as [|c' s]; simpl; [split; [done|by intros [t ?]]|].
  destruct (ascii_dec c c') as [<-|Hc]; [rewrite IH|].
  - split; intros [t Ht]; exists t; [by rewrite Ht|by injection Ht].
  - split; [done|]. intros [t Ht]. by injection Ht.
Qed.

Lemma has_prefix_app p s : has_prefix p (p +:+ s) = true.
Proof. apply has_prefix_spec. by exists s. Qed.

Lemma str_app_assoc (a b c : string) : (a +:+ b) +:+ c = a +:+ b +:+ c.
Proof. induction a as [|x a IH]; [done|]. exact (f_equal (String x) IH). Qed.

Lemma str_app_nil_r (a : string) : a +:+ "" = a.
Proof. induction a as [|x a IH]; [done|]. exact (f_equal (String x) IH). Qed.

Lemma str_app_inj (a b c : string) : a +:+ b = a +:+ c -> b = c.
Proof. induction a as [|x a IH]; [done|]. intros H. injection H. exact IH. Qed.

(** [s[n:]]. *)
Fixpoint str_drop (n : nat) (s : string) : string :=
  match n, s with
  | S n, String _ s => str_drop n s
  | _, _ => s
  end.

Lemma str_drop_app a b : str_drop (String.length a) (a +:+ b) = b.
Proof. by induction a as [|x a IH]. Qed.

Lemma substring_full (s : string) : String.substring 0 (String.length s) s = s.
Proof. induction s as [|c s IH]; simpl; [done|]. by rewrite IH. Qed.

Lemma substring_app_r (a b : string) :
  String.substring (String.length a) (String.length b) (a +:+ b) = b.
Proof. induction a as [|c a IH]; [apply substring_full|done]. Qed.

Lemma substring_app_l (a b : string) :
  String.substring 0 (String.length a) (a +:+ b) = a.
Proof. induction a as [|c a IH]; simpl; [by destruct b|]. by rewrite IH. Qed.

Lemma string_length_app (a b : string) :
  String.length (a +:+ b) = (String.length a + String.length b)%nat.
Proof. induction a as [|c a IH]; simpl; [done|]. by rewrite IH. Qed.

(** ** Suffixes *)

(** [strings.HasSuffix(s, suf)] and [strings.TrimSuffix(s, suf)]. *)
Definition has_suffix (suf s : string) : bool :=
  let k := (String.length s - String.length suf)%nat in
  (String.length suf <=? String.length s)%nat && bool_decide (String.substring k (String.length suf) s = suf).

Definition trim_suffix (suf s : string) : string :=
  if has_suffix suf s then String.substring 0 (String.length s - String.length suf) s else s.

Lemma has_suffix_app (a b : string) : has_suffix b (a +:+ b) = true.
Proof.
  unfold has_suffix. rewrite string_length_app.
  replace (String.length a + String.length b - String.length b)%nat with (String.length a) by lia.
  rewrite substring_app_r, bool_decide_eq_true_2 by done.
  rewrite (proj2 (Nat.leb_le _ _)); [done|lia].
Qed.

Lemma trim_suffix_app (a b : string) : trim_suffix b (a +:+ b) = a.
Proof.
  unfold trim_suffix. rewrite has_suffix_app, string_length_app.
  replace (String.length a + String.length b - String.length b)%nat with (String.length a) by lia.
  apply substring_app_l.
Qed.

Lemma has_suffix_inv (suf s : string) : has_suffix suf s = true -> exists a, s = a +:+ suf.
Proof.
  unfold has_suffix. intros [Hl%Nat.leb_le Hs%bool_decide_eq_true]%andb_true_iff.
  exists (String.substring 0 (String.length s - String.length suf) s). rewrite <- Hs at 2.
  revert Hl. generalize (String.length suf) as n. clear. intros n.
  induction s as [|c s IH]; intros Hl; [by destruct n|]. cbn [String.length] in *.
  destruct (decide (n = S (String.length s))) as [->|Hn].
  - rewrite Nat.sub_diag. cbn [String.substring]. by rewrite substring_full.
  - replace (S (String.length s) - n)%nat with (S (String.length s - n))%nat by lia. cbn [String.substring].
    exact (f_equal (String c) (IH ltac:(lia))).
Qed.

(** ** Splitting *)

(** [strings.Split(s, sep)] for a separator of one byte. *)
Fixpoint split_on (sep : ascii) (s : string) : list string :=
  match s with
  | EmptyString => [""%string]
  | String c s =>
    match split_on sep s with
    | w :: ws => if bool_decide (c = sep) then ""%string :: w :: ws else String c w :: ws
    | [] => []
    end
  end.

Fixpoint absent (sep : ascii) (s : string) : Prop :=
  match s with EmptyString => True | String c s => c <> sep /\ absent sep s end.

#[export] Instance absent_dec sep s : Decision (absent sep s).
Proof. induction s as [|c s IH]; simpl; apply _. Defined.

Lemma split_on_cons sep s : exists w ws, split_on sep s = w :: ws.
Proof.
  induction s as [|c s (w & ws & IH)]; simpl; [by eauto|]. rewrite IH. case_bool_decide; by eauto.
Qed.

Lemma split_on_absent sep s : absent sep s -> split_on sep s = [s].
Proof.
  induction s as [|c s IH]; simpl; [done|]. intros [Hc Hs]. rewrite IH by done.
  by rewrite bool_decide_eq_false_2.
Qed.

Lemma split_on_app sep a s : absent sep a -> split_on sep (a +:+ String sep s) = a :: split_on sep s.
Proof.
  induction a as [|c a IH]; simpl.
  - intros _. destruct (split_on_cons sep s) as (w & ws & ->). by rewrite bool_decide_eq_true_2.
  - intros [Hc Ha]. rewrite IH by done. by rewrite bool_decide_eq_false_2.
Qed.

Lemma split_on_snoc sep a : split_on sep (a +:+ String sep "") = split_on sep a ++ [""%string].
Proof.
  induction a as [|c a IH]; [simpl; by rewrite bool_decide_eq_true_2|].
  change (String c a +:+ String sep "") with (String c (a +:+ String sep "")). cbn [split_on]. rewrite IH.
  destruct (split_on_cons sep a) as (w & ws & ->). simpl. by case_bool_decide.
Qed.

(** A word is found again behind a separator. *)
Lemma absent_app_inj sep a b s t : absent sep a -> absent sep b ->
  a +:+ String sep s = b +:+ String sep t -> a = b /\ s = t.
Proof.
  intros Ha Hb Heq. pose proof (split_on_app sep a s Ha) as H1.
  rewrite Heq, split_on_app in H1 by done. injection H1 as -> _. split; [done|].
  apply str_app_inj in Heq. by injection Heq.
Qed.

(** ** Trimming *)

(** [strings.TrimLeft(s, "/")]. *)
Fixpoint trim_slashes (s : string) : string :=
  match s with
  | String c s' => if bool_decide (c = "/"%char) then trim_slashes s' else s
  | EmptyString => s
  end.

(** White space of [strings.TrimSpace], on ASCII text. *)
Definition is_space (c : ascii) : bool :=
  let n := nat_of_ascii c in ((9 <=? n) && (n <=? 13) || (n =? 32))%nat.

Fixpoint trim_left (s : string) : string :=
  match s with
  | String c s' => if is_space c then trim_left s' else s
  | EmptyString => s
  end.

Fixpoint trim_right (s : string) : string :=
  match s with
  | EmptyString => EmptyString
  | String c s =>
    match trim_right s with
    | EmptyString => if is_space c then EmptyString else String c EmptyString
    | s => String c s
    end
  end.

Definition TrimSpace (s : string) : string := trim_right (trim_left s).

Lemma trim_right_idemp s : trim_right (trim_right s) = trim_right s.
Proof.
  induction s as [|c s IH]; simpl; [done|].
  destruct (trim_right s) as [|c' s'] eqn:E; [destruct (is_space c) eqn:Ec; simpl; [done|by rewrite Ec]|].
  simpl in *. by rewrite IH.
Qed.

Lemma trim_left_right s : trim_left (trim_right (trim_left s)) = trim_right (trim_left s).
Proof.
  induction s as [|c s IH]; simpl; [done|]. destruct (is_space c) eqn:Ec; [done|].
  simpl. destruct (trim_right s); rewrite ?Ec; simpl; by rewrite Ec.
Qed.

Lemma TrimSpace_idemp s : TrimSpace (TrimSpace s) = TrimSpace s.
Proof. unfold TrimSpace. by rewrite trim_left_right, trim_right_idemp. Qed.

(** ** Paths *)

(** The loop of [path.Clean] over the elements, the ones kept in reverse. *)
Fixpoint clean_parts (rooted : bool) (parts out : list string) : list string :=
  match parts with
  | [] => reverse out
  | p :: parts =>
    if bool_decide (p = ""%string \/ p = "."%string) then clean_parts rooted parts out
    else if bool_decide (p = ".."%string) then
      match out with
      | [] => clean_parts rooted parts (if rooted then [] else [".."%string])
      | q :: out' => clean_parts rooted parts (if bool_decide (q = ".."%string) then ".."%string :: out else out')
      end
    else clean_parts rooted parts (p :: out)
  end.

Definition join_slash (parts : list string) : string := String.concat "/" parts.

Definition Clean (path : string) : string :=
  let rooted := has_prefix "/" path in
  let body := join_slash (clean_parts rooted (split_on "/" path) []) in
  if rooted then "/" +:+ body else if bool_decide (body = ""%string) then "."%string else body.

(** [path.Join]. *)
Definition Join (elems : list string) : string :=
  match filter (fun e => e <> ""%string) elems with
  | [] => ""%string
  | es => Clean (join_slash es)
  end.

(** An element of a path that [Clean] keeps. *)
Definition element (s : string) : Prop := absent "/" s /\ s <> ""%string /\ s <> "."%string /\ s <> ".."%string.
#[export] Instance element_dec s : Decision (element s).
Proof. unfold element. apply _. Defined.

Lemma clean_parts_elements rooted parts : forall out, Forall element parts ->
  clean_parts rooted parts out = reverse out ++ parts.
Proof.
  induction parts as [|p parts IH]; intros out Hp; simpl; [by rewrite app_nil_r|].
  apply Forall_cons_iff in Hp as [(_ & H1 & H2 & H3) Hp].
  rewrite bool_decide_eq_false_2 by tauto. rewrite bool_decide_eq_false_2 by done.
  rewrite IH by done. by rewrite reverse_cons, <- app_assoc.
Qed.

Lemma split_join parts : parts <> [] -> Forall element parts -> split_on "/" (join_slash parts) = parts.
Proof.
  unfold join_slash. induction parts as [|p parts IH]; [done|]. intros _ Hp.
  apply Forall_cons_iff in Hp as [(Ha & _) Hp]. destruct parts as [|q parts]; [by apply split_on_absent|].
  change (String.concat "/" (p :: q :: parts)) with (p +:+ String "/" (String.concat "/" (q :: parts))).
  rewrite split_on_app by done. by rewrite IH.
Qed.

Lemma concat_nonempty q parts : q <> ""%string -> String.concat "/" (q :: parts) <> ""%string.
Proof. destruct q; [done|]. by destruct parts. Qed.

Lemma element_not_rooted q rest : element q -> has_prefix "/" (q +:+ rest) = false.
Proof.
  intros (Ha & Hn & _). destruct q as [|c q]; [done|]. destruct Ha as [Hc _].
  apply not_true_is_false. intros [t Ht]%has_prefix_spec. by injection Ht.
Qed.

Lemma Clean_rel parts : parts <> [] -> Forall element parts -> Clean (join_slash parts) = join_slash parts.
Proof.
  intros Hne Hp. unfold Clean. rewrite split_join, clean_parts_elements by done. cbn [reverse rev_append app].
  destruct parts as [|q parts]; [done|]. apply Forall_cons_iff in Hp as [Hq Hp].
  replace (has_prefix "/" (join_slash (q :: parts))) with false.
  - rewrite bool_decide_eq_false_2; [done|]. apply concat_nonempty, Hq.
  - symmetry. unfold join_slash. destruct parts as [|q' parts].
    + change (String.concat "/" [q]) with q. rewrite <- (str_app_nil_r q). by apply element_not_rooted.
    + by apply (element_not_rooted q ("/" +:+ String.concat "/" (q' :: parts))).
Qed.

Lemma Clean_abs parts : parts <> [] -> Forall element parts -> Clean ("/" +:+ join_slash parts) = "/" +:+ join_slash parts.
Proof.
  intros Hne Hp. unfold Clean. rewrite has_prefix_app.
  replace (split_on "/" ("/" +:+ join_slash parts)) with (""%string :: parts)
    by (symmetry; rewrite <- (split_join parts) at 2 by done; by apply (split_on_app "/" "")).
  cbn [clean_parts]. rewrite bool_decide_eq_true_2 by (by left). by rewrite clean_parts_elements.
Qed.

Lemma join_slash_app xs ys : xs <> [] -> ys <> [] -> join_slash (xs ++ ys) = join_slash xs +:+ "/" +:+ join_slash ys.
Proof.
  unfold join_slash. intros Hx Hy. induction xs as [|x xs IH]; [done|]. cbn [app].
  destruct xs as [|x' xs]; [by destruct ys|].
  cbn [app] in *. change (String.concat "/" (x :: x' :: xs ++ ys)) with (x +:+ "/" +:+ String.concat "/" (x' :: xs ++ ys)).
  change (String.concat "/" (x :: x' :: xs)) with (x +:+ "/" +:+ String.concat "/" (x' :: xs)).
  rewrite IH by done. by rewrite !str_app_assoc.
Qed.
