(* ===== verification/Binlog.v ===== *)
(** * Binlog
    The binlog message of the TiDB protocol ([pb.Binlog] of
    [github.com/pingcap/tipb/go-binlog]), its codec as an interface, and a
    concrete codec that implements the interface.

    The message type and its protobuf codec are generated code outside this
    repository: the code here only reads and writes the fields below, and only
    relies on [Unmarshal] being a left inverse of [Marshal]. *)
From Stdlib Require Import Init.Byte Strings.Byte.
From stdpp Require Import base option list strings gmap numbers.
From S2P Require Import Prelude.

Inductive BinlogType :=
  | BinlogType_Prewrite
  | BinlogType_Commit
  | BinlogType_Rollback
  | BinlogType_PreDDL
  | BinlogType_PostDDL.

#[export] Instance BinlogType_eq_dec : EqDecision BinlogType.
Proof. solve_decision. Defined.

Record Binlog := mkBinlog {
  Tp : BinlogType;
  StartTs : Z;
  CommitTs : Z;
  PrewriteKey : list byte;
  PrewriteValue : list byte;
  DdlQuery : list byte;
  DdlJobId : Z;
  DdlSchemaState : Z;
}.

#[export] Instance Binlog_eq_dec : EqDecision Binlog.
Proof. solve_decision. Defined.

(** [util.GenFakeBinlog]. *)
Definition GenFakeBinlog (ts : Z) : Binlog := mkBinlog BinlogType_Rollback ts ts [] [] [] 0 0.

(** [Binlog.Marshal] and [Binlog.Unmarshal]. *)
Class Codec := {
  marshal : Binlog -> outcome (list byte);
  unmarshal : list byte -> outcome Binlog;
}.

(** What the storage relies on: decoding what was encoded gives the message
    back, and neither direction panics. *)
Class CodecOk (C : Codec) : Prop := {
  unmarshal_marshal b p : marshal b = Ret p -> unmarshal p = Ret b;
  marshal_no_panic b : marshal b <> Panic;
  unmarshal_no_panic p : unmarshal p <> Panic;
}.

(** ** A concrete codec
    Fixed-width integers and length-prefixed byte strings; it shows that the
    interface can be implemented and lets examples compute. *)
Module SimpleCodec.

Definition tp_byte (t : BinlogType) : byte :=
  match t with
  | BinlogType_Prewrite => x00
  | BinlogType_Commit => x01
  | BinlogType_Rollback => x02
  | BinlogType_PreDDL => x03
  | BinlogType_PostDDL => x04
  end.

Definition byte_tp (b : byte) : outcome BinlogType :=
  match b with
  | x00 => Ret BinlogType_Prewrite
  | x01 => Ret BinlogType_Commit
  | x02 => Ret BinlogType_Rollback
  | x03 => Ret BinlogType_PreDDL
  | x04 => Ret BinlogType_PostDDL
  | _ => Fail (Err "bad type")
  end.

Definition put_blob (l : list byte) : list byte := le_bytes 8 (len l) ++ l.

Definition get_int (r : list byte) : outcome (Z * list byte) :=
  let! (b, r) := read_full 8 r in Ret (wrap_i64 (le_value b), r).

Definition get_blob (r : list byte) : outcome (list byte * list byte) :=
  let! (b, r) := read_full 8 r in read_full (le_value b) r.

Definition encodable (b : Binlog) : Prop :=
  in_i64 (StartTs b) /\ in_i64 (CommitTs b) /\ in_i64 (DdlJobId b) /\
  in_i64 (DdlSchemaState b) /\ len (PrewriteKey b) < 2 ^ 63 /\
  len (PrewriteValue b) < 2 ^ 63 /\ len (DdlQuery b) < 2 ^ 63.

#[export] Instance in_i64_dec z : Decision (in_i64 z).
Proof. unfold in_i64. apply _. Defined.

#[export] Instance encodable_dec b : Decision (encodable b).
Proof. unfold encodable. apply _. Defined.

Definition enc (b : Binlog) : list byte :=
  tp_byte (Tp b) :: le_bytes 8 (StartTs b) ++ le_bytes 8 (CommitTs b) ++
  le_bytes 8 (DdlJobId b) ++ le_bytes 8 (DdlSchemaState b) ++
  put_blob (PrewriteKey b) ++ put_blob (PrewriteValue b) ++ put_blob (DdlQuery b).

Definition dec (p : list byte) : outcome Binlog :=
  match p with
  | [] => Fail EOF
  | t :: r =>
    let! tp := byte_tp t in
    let! (s, r) := get_int r in
    let! (c, r) := get_int r in
    let! (j, r) := get_int r in
    let! (st, r) := get_int r in
    let! (k, r) := get_blob r in
    let! (v, r) := get_blob r in
    let! (q, r) := get_blob r in
    Ret (mkBinlog tp s c k v q j st)
  end.

#[export] Instance codec : Codec := {|
  marshal b := if decide (encodable b) then Ret (enc b) else Fail (Err "integer overflow");
  unmarshal := dec;
|}.

Lemma byte_tp_byte t : byte_tp (tp_byte t) = Ret t.
Proof. by destruct t. Qed.

Lemma get_int_put z r : in_i64 z -> get_int (le_bytes 8 z ++ r) = Ret (z, r).
Proof.
  intros H. unfold get_int.
  rewrite read_full_app' by (by rewrite length_le_bytes). step_bind.
  by rewrite le_value_wrap64, wrap_i64_u64.
Qed.

Lemma get_blob_put l r : len l < 2 ^ 63 -> get_blob (put_blob l ++ r) = Ret (l, r).
Proof.
  intros H. unfold get_blob, put_blob. rewrite <- app_assoc.
  rewrite read_full_app' by (by rewrite length_le_bytes). step_bind.
  apply read_full_app'. apply le_value_u64. unfold in_u64. lia.
Qed.

Lemma dec_enc b : encodable b -> dec (enc b) = Ret b.
Proof.
  intros (? & ? & ? & ? & ? & ? & ?). unfold dec, enc.
  rewrite byte_tp_byte. step_bind.
  do 4 (rewrite get_int_put by done; step_bind).
  do 2 (rewrite get_blob_put by done; step_bind).
  rewrite <- (app_nil_r (put_blob (DdlQuery b))), get_blob_put by done.
  by destruct b.
Qed.

Lemma read_full_no_panic n r : read_full n r <> Panic.
Proof. unfold read_full. repeat case_match; done. Qed.

Lemma obind_no_panic {A B} (c : outcome A) (k : A -> outcome B) :
  c <> Panic -> (forall a, k a <> Panic) -> obind c k <> Panic.
Proof. by destruct c; simpl. Qed.

Lemma dec_no_panic p : dec p <> Panic.
Proof.
  destruct p as [|t r]; [done|]. unfold dec, get_int, get_blob.
  repeat first
    [ apply obind_no_panic; [|intros ?]
    | apply read_full_no_panic
    | progress destruct_and?
    | case_match
    | done ].
  by destruct t.
Qed.

#[export] Instance codec_ok : CodecOk codec.
Proof.
  split; simpl.
  - intros b p. case_decide; [|done]. intros [= <-]. by apply dec_enc.
  - intros b. by case_decide.
  - apply dec_no_panic.
Qed.

End SimpleCodec.
