(* ===== verification/Retry.v ===== *)
(** * Retry
    The retries of [pkg/util/util.go] that the checkpoint, the loader, the
    collector and pump's node use. *)
From stdpp Require Import base option list.
From S2P Require Import Prelude.

Section Retry.
Context {S : Type}.
(** Whether the context is done while the call waits before its next attempt. *)
Variable done : S -> bool.
Variable fn : S -> S * outcome unit.

Fixpoint retry_loop (n : nat) (err : outcome unit) (s : S) : S * outcome unit :=
  match n with
  | O => (s, err)
  | Datatypes.S n =>
    match fn s with
    | (s, Ret _) => (s, Ret tt)
    | (s, Panic) => (s, Panic)
    | (s, Fail e) => if done s then (s, Fail e) else retry_loop n (Fail e) s
    end
  end.

Definition RetryContext (retryCount : nat) (s : S) : S * outcome unit := retry_loop retryCount (Ret tt) s.

(** The states after failed attempts. *)
Fixpoint attempts (k : nat) (s : S) : S :=
  match k with O => s | Datatypes.S k => attempts k (fst (fn s)) end.

Lemma retry_loop_spec n err s s' : (forall s, snd (fn s) <> Panic) -> (n <> 0)%nat -> retry_loop n err s = (s', Ret tt) ->
  exists k, (k < n)%nat /\ (forall i, (i < k)%nat -> exists e, snd (fn (attempts i s)) = Fail e) /\ fn (attempts k s) = (s', Ret tt).
Proof.
  intros Hp. revert err s. induction n as [|n IH]; intros err s Hn; cbn [retry_loop]; [done|].
  destruct (fn s) as [s1 [[]|e|]] eqn:E; [| |done].
  - intros [= <-]. exists 0%nat. split_and!; [lia|lia|exact E].
  - destruct (done s1); [done|]. destruct n as [|n]; [done|].
    intros H. apply IH in H as (k & Hk & Hf & Hr); [|done]. exists (Datatypes.S k). cbn [attempts]. rewrite E. cbn [fst].
    split_and!; [lia| |done]. intros [|i] Hi; cbn [attempts]; rewrite E; cbn [fst snd]; [by eexists|apply Hf; lia].
Qed.

(** What every attempt keeps holds in the end, and what every attempt establishes about
    its result holds of the result. *)
Lemma retry_loop_inv (P : S -> Prop) (Q : outcome unit -> S -> Prop) n err s s' r :
  (forall s s' r, P s -> fn s = (s', r) -> P s' /\ Q r s') ->
  P s -> (n <> 0)%nat \/ Q err s -> retry_loop n err s = (s', r) -> P s' /\ Q r s'.
Proof.
  intros Hstep. revert err s. induction n as [|n IH]; intros err s HP Hn; cbn [retry_loop].
  { intros [= <- <-]. split; [done|]. by destruct Hn. }
  destruct (fn s) as [s1 r1] eqn:E. destruct (Hstep _ _ _ HP E) as [HP1 HQ].
  destruct r1 as [[]|e|]; [by intros [= <- <-]| |by intros [= <- <-]].
  destruct (done s1); [by intros [= <- <-]|]. intros H. by apply (IH (Fail e) s1); [|right|].
Qed.

End Retry.

(** [util.RetryOnError]. *)
Definition RetryOnError {S} (retryCount : nat) (fn : S -> S * outcome unit) (s : S) : S * outcome unit :=
  retry_loop (fun _ => false) fn retryCount (Ret tt) s.
