(* ===== verification/Registry.v ===== *)
(** * Registry
    Where the pumps and drainers of a cluster keep their status: the client of
    etcd ([pkg/etcd/etcd.go]) and the registry of nodes on it
    ([pkg/node/registry.go, node.go]).  etcd is a map from keys to values whose
    calls may fail; a write may be applied although its call fails.  The
    registry implements a map from node ids to statuses under every prefix. *)
From Stdlib Require Import Init.Byte Ascii.
From stdpp Require Import base option list gmap strings.
From S2P Require Import Prelude Text.

(** ** Statuses of nodes *)

Definition Online : string := "online".
Definition Pausing : string := "pausing".
Definition Paused : string := "paused".
Definition Closing : string := "closing".
Definition Offline : string := "offline".

Definition DefaultRootPath : string := "/tidb-binlog/v1".

(** [node.Status]; the label, which only the client of a pump looks at, is left out. *)
Record Status := mkStatus {
  NodeID : string;
  Addr : string;
  State : string;
  IsAlive : bool;
  Score : Z;
  MaxCommitTS : Z;
  UpdateTS : Z;
}.

Definition NewStatus (nodeID addr state : string) (score maxCommitTS updateTS : Z) : Status :=
  mkStatus nodeID addr state false score maxCommitTS updateTS.

(** The JSON codec; decoding the text "null" leaves a nil pointer. *)
Class StatusCodec := {
  status_Marshal : Status -> error + list byte;
  status_Unmarshal : list byte -> error + option Status;
}.
Class StatusCodecLaws `{!StatusCodec} : Prop :=
  status_roundtrip : forall st v, status_Marshal st = inr v -> status_Unmarshal v = inr (Some st).

(** ** The client of etcd *)

(** How a call ends; a lost one was carried out. *)
Inductive rpc := RpcOk | RpcErr (e : error) | RpcLost (e : error).

Record etcd := mkEtcd { kvs : gmap string (list byte); rpcs : list rpc }.

Definition next_rpc (s : etcd) : rpc * etcd :=
  match rpcs s with
  | [] => (RpcOk, s)
  | r :: rs => (r, mkEtcd (kvs s) rs)
  end.

Inductive etcd_error :=
  | NotFoundf (key : string)
  | AlreadyExistsf (key : string)
  | Other (e : error).

#[export] Instance etcd_error_eq_dec : EqDecision etcd_error.
Proof. solve_decision. Defined.

Definition IsNotFound (e : etcd_error) : bool := match e with NotFoundf _ => true | _ => false end.

(** A call that reads, and one that writes when [guard] holds. *)
Definition call_read {A} (f : gmap string (list byte) -> A) (s : etcd) : etcd * (etcd_error + A) :=
  let '(r, s) := next_rpc s in
  match r with
  | RpcOk => (s, inr (f (kvs s)))
  | RpcErr e | RpcLost e => (s, inl (Other e))
  end.

Definition call_write (guard : gmap string (list byte) -> bool) (w : gmap string (list byte) -> gmap string (list byte))
    (s : etcd) : etcd * (etcd_error + bool) :=
  let '(r, s) := next_rpc s in
  let s' := if guard (kvs s) then mkEtcd (w (kvs s)) (rpcs s) else s in
  match r with
  | RpcOk => (s', inr (guard (kvs s)))
  | RpcErr e => (s, inl (Other e))
  | RpcLost e => (s', inl (Other e))
  end.

Section Client.
Variable rootPath : string.

Definition keyWithPrefix (prefix key : string) : string :=
  if has_prefix prefix key then key else Join [prefix; key].

Definition Create (key : string) (val : list byte) (s : etcd) : etcd * (etcd_error + unit) :=
  let key := keyWithPrefix rootPath key in
  let '(s, r) := call_write (fun m => bool_decide (m !! key = None)) <[key := val]> s in
  (s, match r with inl e => inl e | inr true => inr tt | inr false => inl (AlreadyExistsf key) end).

Definition Get (key : string) (s : etcd) : etcd * (etcd_error + list byte) :=
  let key := keyWithPrefix rootPath key in
  let '(s, r) := call_read (fun m => m !! key) s in
  (s, match r with inl e => inl e | inr (Some v) => inr v | inr None => inl (NotFoundf key) end).

(** [e.client.Lease.Grant], for a positive [ttl]. *)
Definition grant (ttl : Z) (s : etcd) : etcd * (etcd_error + unit) :=
  if 0 <? ttl then call_read (fun _ => tt) s else (s, inr tt).

Definition Update (key : string) (val : list byte) (ttl : Z) (s : etcd) : etcd * (etcd_error + unit) :=
  let key := keyWithPrefix rootPath key in
  match grant ttl s with
  | (s, inl e) => (s, inl e)
  | (s, inr _) =>
    let '(s, r) := call_write (fun m => bool_decide (m !! key <> None)) <[key := val]> s in
    (s, match r with inl e => inl e | inr true => inr tt | inr false => inl (NotFoundf key) end)
  end.

Definition UpdateOrCreate (key : string) (val : list byte) (ttl : Z) (s : etcd) : etcd * (etcd_error + unit) :=
  let key := keyWithPrefix rootPath key in
  match grant ttl s with
  | (s, inl e) => (s, inl e)
  | (s, inr _) =>
    let '(s, r) := call_write (fun _ => true) <[key := val]> s in
    (s, match r with inl e => inl e | inr _ => inr tt end)
  end.

Definition Delete (key : string) (withPrefix : bool) (s : etcd) : etcd * (etcd_error + unit) :=
  let key := keyWithPrefix rootPath key in
  let '(s, r) := call_write (fun _ => true)
    (if withPrefix then filter (fun kv => has_prefix key kv.1 = false) else delete key) s in
  (s, match r with inl e => inl e | inr _ => inr tt end).

(** [Node]: the keys below a directory as a tree. *)
#[warnings="-register-all"]
Inductive Node := mkNode { Value : list byte; Childs : gmap string Node }.

Definition new_node : Node := mkNode [] ∅.

(** [parseToDirTree], and the assignment to the value of the node it returns. *)
Fixpoint parseToDirTree (path : list string) (val : list byte) (root : Node) : Node :=
  match path with
  | [] => mkNode val (Childs root)
  | dir :: path =>
    mkNode (Value root) (<[dir := parseToDirTree path val (default new_node (Childs root !! dir))]> (Childs root))
  end.

(** The loop of [List] over the pairs etcd answers with. *)
Definition list_add (length : nat) (root : Node) (kv : string * list byte) : Node :=
  if (String.length kv.1 <=? length)%nat then root
  else parseToDirTree (split_on "/" (str_drop length kv.1)) kv.2 root.

Definition List_ (key : string) (s : etcd) : etcd * (etcd_error + Node) :=
  let key := keyWithPrefix rootPath key in
  let key := if has_suffix "/" key then key else key +:+ "/" in
  let '(s, r) := call_read (fun m => filter (fun kv => has_prefix key kv.1 = true) (map_to_list m)) s in
  (s, match r with
      | inl e => inl e
      | inr pairs => inr (foldl (list_add (String.length key)) new_node pairs)
      end).
End Client.

(** ** The registry *)

Section Registry.
Context `{!StatusCodec}.
(** The order in which a [range] over the children visits them. *)
Variable order : gmap string Node -> list (string * Node).

Definition prefixed (p : list string) : string := Join p.

Definition decode_status (v : list byte) : etcd_error + option Status :=
  match status_Unmarshal v with
  | inr st => inr st
  | inl e => inl (Other e)
  end.

(** [r.Node(prefix, nodeID)]. *)
Definition registry_Node (prefix nodeID : string) (s : etcd) : etcd * (etcd_error + option Status) :=
  let '(s, r) := Get DefaultRootPath (prefixed [prefix; nodeID]) s in
  (s, match r with inl e => inl e | inr data => decode_status data end).

Fixpoint nodes_loop (childs : list (string * Node)) : etcd_error + list Status :=
  match childs with
  | [] => inr []
  | (_, n) :: childs =>
    match decode_status (Value n) with
    | inl e => inl e
    | inr st =>
      match nodes_loop childs with
      | inl e => inl e
      | inr sts => inr (match st with Some st => st :: sts | None => sts end)
      end
    end
  end.

Definition NodesStatusFromEtcdNode (root : Node) : etcd_error + list Status := nodes_loop (order (Childs root)).

(** [r.Nodes(prefix)]. *)
Definition registry_Nodes (prefix : string) (s : etcd) : etcd * (etcd_error + list Status) :=
  let '(s, r) := List_ DefaultRootPath (prefixed [prefix]) s in
  (s, match r with inl e => inl e | inr root => NodesStatusFromEtcdNode root end).

Definition checkNodeExists (prefix nodeID : string) (s : etcd) : etcd * (etcd_error + bool) :=
  let '(s, r) := Get DefaultRootPath (prefixed [prefix; nodeID]) s in
  (s, match r with
      | inl e => if IsNotFound e then inr false else inl e
      | inr _ => inr true
      end).

Definition with_text (st : Status) (k : list byte -> etcd * (etcd_error + unit)) (s : etcd) : etcd * (etcd_error + unit) :=
  match status_Marshal st with
  | inr v => k v
  | inl e => (s, inl (Other e))
  end.

Definition updateNode (prefix : string) (st : Status) (s : etcd) : etcd * (etcd_error + unit) :=
  with_text st (fun v => Update DefaultRootPath (prefixed [prefix; NodeID st]) v 0 s) s.

Definition createNode (prefix : string) (st : Status) (s : etcd) : etcd * (etcd_error + unit) :=
  with_text st (fun v => Create DefaultRootPath (prefixed [prefix; NodeID st]) v s) s.

(** [r.UpdateNode(prefix, status)]; [others] is what other clients do between its
    two calls. *)
Definition UpdateNode (others : gmap string (list byte) -> gmap string (list byte)) (prefix : string) (st : Status) (s : etcd)
    : etcd * (etcd_error + unit) :=
  match checkNodeExists prefix (NodeID st) s with
  | (s, inl e) => (s, inl e)
  | (s, inr exists_) =>
    let s := mkEtcd (others (kvs s)) (rpcs s) in
    if exists_ : bool then updateNode prefix st s else createNode prefix st s
  end.
End Registry.

(** [AnalyzeNodeID]: the id in a key, of this version or of the one before. *)
Definition AnalyzeNodeID (key : string) : string :=
  match split_on "/" (trim_slashes key) with
  | (_ :: version :: _) as paths =>
    default ""%string (paths !! (if has_prefix "v" version then 3 else 2)%nat)
  | _ => ""%string
  end.

(** ** The map it implements *)

Definition dirKey (prefix : string) : string := DefaultRootPath +:+ "/" +:+ prefix +:+ "/".
Definition nodeKey (prefix id : string) : string := dirKey prefix +:+ id.

Lemma root_parts parts : DefaultRootPath +:+ "/" +:+ join_slash parts =
  match parts with [] => DefaultRootPath +:+ "/" | _ => "/" +:+ join_slash ("tidb-binlog" :: "v1" :: parts) end.
Proof. by destruct parts. Qed.

Lemma key_of parts : parts <> [] -> Forall element parts ->
  keyWithPrefix DefaultRootPath (Join parts) = DefaultRootPath +:+ "/" +:+ join_slash parts.
Proof.
  intros Hne Hp.
  assert (HJ : Join parts = join_slash parts).
  { unfold Join. replace (filter _ parts) with parts; [destruct parts; [done|by apply Clean_rel]|].
    clear Hne. induction parts as [|p parts IH]; [done|]. apply Forall_cons_iff in Hp as [(_ & Hp & _) Hps].
    rewrite filter_cons_True by done. by rewrite <- IH. }
  rewrite HJ. unfold keyWithPrefix. replace (has_prefix DefaultRootPath (join_slash parts)) with false.
  - unfold Join. rewrite filter_cons_True by done. rewrite filter_cons_True; cycle 1.
    { destruct parts; [done|]. apply concat_nonempty. apply Forall_cons_iff in Hp as [Hp _]. apply Hp. }
    change (filter _ []) with (@nil string).
    change (join_slash [DefaultRootPath; join_slash parts]) with (DefaultRootPath +:+ "/" +:+ join_slash parts).
    rewrite root_parts. destruct parts as [|p parts]; [done|]. apply Clean_abs; [done|].
    repeat (constructor; [by_decide|]). done.
  - symmetry. apply not_true_is_false. intros [t Ht]%has_prefix_spec. destruct parts as [|p parts]; [done|].
    apply Forall_cons_iff in Hp as [(Ha & Hn & _) _]. destruct p as [|c p]; [done|].
    destruct Ha as [Hc _]. destruct parts; cbn in Ht; by injection Ht.
Qed.

Lemma key_node prefix id : element prefix -> element id ->
  keyWithPrefix DefaultRootPath (prefixed [prefix; id]) = nodeKey prefix id.
Proof.
  intros Hp Hi. unfold prefixed. rewrite key_of by eauto using Forall_cons_2, List.Forall_nil.
  unfold nodeKey, dirKey. by rewrite !str_app_assoc.
Qed.

Lemma key_dir prefix : element prefix -> let key := keyWithPrefix DefaultRootPath (prefixed [prefix]) in
  (if has_suffix "/" key then key else key +:+ "/") = dirKey prefix.
Proof.
  intros Hp. unfold prefixed. rewrite key_of by eauto using Forall_cons_2, List.Forall_nil. cbn zeta.
  change (join_slash [prefix]) with prefix. destruct (has_suffix "/" _) eqn:E.
  - exfalso. apply has_suffix_inv in E as [a Ha]. destruct Hp as (Hab & Hn & _).
    assert (Hl : split_on "/" (DefaultRootPath +:+ "/" +:+ prefix) = ["";"tidb-binlog";"v1"; prefix]%string).
    { change (DefaultRootPath +:+ "/" +:+ prefix) with ("" +:+ String "/" ("tidb-binlog" +:+ String "/" ("v1" +:+ String "/" prefix))).
      rewrite !split_on_app by (by_decide). by rewrite split_on_absent. }
    rewrite Ha, split_on_snoc in Hl. by apply (app_inj_tail _ [_; _; _]) in Hl as [_ <-].
  - unfold dirKey. by rewrite !str_app_assoc.
Qed.

Section Refinement.
Context `{!StatusCodec, !StatusCodecLaws}.
Variable order : gmap string Node -> list (string * Node).
Hypothesis order_all : forall m, order m ≡ₚ map_to_list m.

(** The keys under [prefix] are the nodes of [m], each with the text of its status. *)
Record Rep (prefix : string) (m : gmap string Status) (kv : gmap string (list byte)) : Prop := {
  rep_stored id st : m !! id = Some st ->
    element id /\ NodeID st = id /\ exists v, status_Marshal st = inr v /\ kv !! nodeKey prefix id = Some v;
  rep_only k v : kv !! k = Some v -> has_prefix (dirKey prefix) k = true ->
    exists id, k = nodeKey prefix id /\ is_Some (m !! id);
}.

Lemma rep_None prefix m kv id : Rep prefix m kv -> m !! id = None -> kv !! nodeKey prefix id = None.
Proof.
  intros [_ Ho] Hm. destruct (kv !! nodeKey prefix id) as [v|] eqn:E; [|done].
  destruct (Ho _ _ E) as (id' & Heq & [st Hst]); [apply has_prefix_app|].
  apply str_app_inj in Heq as <-. congruence.
Qed.

(** Writing the text of a status under its own key. *)
Lemma rep_insert prefix m kv st v : element (NodeID st) -> status_Marshal st = inr v -> Rep prefix m kv ->
  Rep prefix (<[NodeID st := st]> m) (<[nodeKey prefix (NodeID st) := v]> kv).
Proof.
  intros Hid Hv [Hs Ho]. split.
  - intros id st' Hst. destruct (decide (id = NodeID st)) as [->|Hne].
    + rewrite lookup_insert_eq in Hst. simplify_eq. split_and!; [done|done|].
      exists v. by rewrite lookup_insert_eq.
    + rewrite lookup_insert_ne in Hst by done. destruct (Hs _ _ Hst) as (? & ? & v' & ? & ?). split_and!; [done|done|].
      exists v'. split; [done|]. rewrite lookup_insert_ne; [done|]. by intros ?%str_app_inj.
  - intros k v' Hk Hp. destruct (decide (k = nodeKey prefix (NodeID st))) as [->|Hne].
    + eexists. split; [done|]. rewrite lookup_insert_eq. by eexists.
    + rewrite lookup_insert_ne in Hk by done. destruct (Ho _ _ Hk Hp) as (id & -> & Hid').
      exists id. split; [done|]. rewrite lookup_insert_ne; [done|]. intros <-. by apply Hne.
Qed.

Lemma decode_text st v : status_Marshal st = inr v -> decode_status v = inr (Some st).
Proof. intros Hv. unfold decode_status. by rewrite (status_roundtrip _ _ Hv). Qed.

(** The children of the tree that [List_] builds from keys right under the directory. *)
Lemma list_add_childs prefix pairs :
  Forall (fun kv : string * list byte => exists id, element id /\ kv.1 = nodeKey prefix id) pairs -> NoDup pairs.*1 ->
  forall id n, Childs (foldl (list_add (String.length (dirKey prefix))) new_node pairs) !! id = Some n <->
    exists v, (nodeKey prefix id, v) ∈ pairs /\ n = mkNode v ∅.
Proof.
  induction pairs as [|kv pairs IH] using rev_ind; intros Hp Hnd id n.
  { cbn. split; [by rewrite lookup_empty|]. by intros (v & ?%not_elem_of_nil & _). }
  apply Forall_app in Hp as [Hp Hkv]. apply Forall_singleton in Hkv as (id' & Hid' & Hkey).
  rewrite fmap_app, list.NoDup_app in Hnd. destruct Hnd as (Hnd & Hdis & _). specialize (IH Hp Hnd).
  rewrite foldl_app. cbn [foldl]. set (root := foldl _ _ pairs) in *. unfold list_add. destruct kv as [k v]. cbn [fst snd] in *. subst k.
  assert (Hnew : Childs root !! id' = None).
  { destruct (Childs root !! id') as [n'|] eqn:E; [|done]. apply IH in E as (v' & Hin & _). exfalso.
    eapply Hdis; [apply list_elem_of_fmap; exists (nodeKey prefix id', v'); by split|]. apply list_elem_of_singleton. done. }
  destruct Hid' as (Hab & Hne & _).
  rewrite (proj2 (Nat.leb_gt _ _)); cycle 1.
  { unfold nodeKey. rewrite string_length_app. destruct id'; [done|]. cbn [String.length]. lia. }
  unfold nodeKey at 1. rewrite str_drop_app, split_on_absent by done. cbn [parseToDirTree Childs Value]. rewrite Hnew.
  cbn [default Childs new_node]. destruct (decide (id = id')) as [->|Hid].
  - rewrite lookup_insert_eq. split.
    + intros [= <-]. exists v. split; [|done]. apply elem_of_app. right. by apply list_elem_of_singleton.
    + intros (v' & [Hin|Hin]%elem_of_app & ->).
      * exfalso. eapply Hdis; [apply list_elem_of_fmap; exists (nodeKey prefix id', v'); by split|]. by apply list_elem_of_singleton.
      * apply list_elem_of_singleton in Hin. by simplify_eq.
  - rewrite lookup_insert_ne by done. rewrite IH. split; intros (v' & Hin & ->); exists v'; (split; [|done]).
    + apply elem_of_app. by left.
    + apply elem_of_app in Hin as [?|Hin]; [done|]. apply list_elem_of_singleton in Hin. injection Hin as Hk _.
      by apply str_app_inj in Hk.
Qed.

Lemma nodes_loop_all (l : list (string * Status)) childs :
  Forall2 (fun p c => exists v, status_Marshal p.2 = inr v /\ c.2 = mkNode v ∅) l childs -> nodes_loop childs = inr l.*2.
Proof.
  induction 1 as [|[id st] [id' n] l childs (v & Hv & Hn) _ IH]; [done|]. cbn in *. subst n. cbn [Value].
  by rewrite (decode_text _ _ Hv), IH.
Qed.

Definition text_of (st : Status) : list byte := match status_Marshal st with inr v => v | inl _ => [] end.

Lemma list_childs prefix m kv : Rep prefix m kv ->
  Childs (foldl (list_add (String.length (dirKey prefix))) new_node
    (filter (fun kv => has_prefix (dirKey prefix) kv.1 = true) (map_to_list kv))) = (fun st => mkNode (text_of st) ∅) <$> m.
Proof.
  intros HR. set (pairs := filter _ _).
  assert (Hin : forall k v, (k, v) ∈ pairs <-> kv !! k = Some v /\ has_prefix (dirKey prefix) k = true).
  { intros k v. unfold pairs. rewrite list_elem_of_filter, elem_of_map_to_list. cbn. tauto. }
  assert (Hp : Forall (fun kv : string * list byte => exists id, element id /\ kv.1 = nodeKey prefix id) pairs).
  { apply list.Forall_forall. intros [k v] [Hk Hpre]%Hin. destruct (rep_only _ _ _ HR _ _ Hk Hpre) as (id & -> & [st Hst]).
    exists id. split; [|done]. by apply (rep_stored _ _ _ HR) in Hst as (? & _). }
  assert (Hnd : NoDup pairs.*1).
  { unfold pairs. apply (sublist_NoDup _ (map_to_list kv).*1); [apply NoDup_fst_map_to_list|]. apply fmap_sublist, sublist_filter. }
  apply map_eq. intros id. rewrite lookup_fmap. apply option_eq. intros n. rewrite list_add_childs by done.
  rewrite fmap_Some. split.
  - intros (v & [Hk Hpre]%Hin & ->). destruct (rep_only _ _ _ HR _ _ Hk Hpre) as (id' & <-%str_app_inj & [st Hst]).
    exists st. split; [done|]. destruct (rep_stored _ _ _ HR _ _ Hst) as (_ & _ & v' & Hv & Hk'). unfold text_of. rewrite Hv. congruence.
  - intros (st & Hst & ->). destruct (rep_stored _ _ _ HR _ _ Hst) as (_ & _ & v & Hv & Hk). exists v. split.
    + apply Hin. split; [done|]. apply has_prefix_app.
    + unfold text_of. by rewrite Hv.
Qed.

(** The next call fails with [e]. *)
Definition failing (s : etcd) (e : error) : Prop := head (rpcs s) = Some (RpcErr e) \/ head (rpcs s) = Some (RpcLost e).

Lemma call_read_cases {A} (f : gmap string (list byte) -> A) s s' r : call_read f s = (s', r) ->
  kvs s' = kvs s /\ (r = inr (f (kvs s)) \/ exists e, r = inl (Other e) /\ failing s e).
Proof.
  unfold call_read, next_rpc, failing. destruct (rpcs s) as [|[|e|e] rs]; intros [= <- <-]; (split; [done|]);
    [by left|by left|right; exists e; cbn; by auto..].
Qed.

Lemma registry_Nodes_rep prefix m s s' r : element prefix -> Rep prefix m (kvs s) -> registry_Nodes order prefix s = (s', r) ->
  kvs s' = kvs s /\ match r with inr sts => sts ≡ₚ (map_to_list m).*2 | inl e => exists e', e = Other e' /\ failing s e' end.
Proof.
  intros Hp HR. unfold registry_Nodes, List_. pose proof (key_dir prefix Hp) as Hk. cbn zeta in Hk. rewrite Hk.
  destruct (call_read _ s) as [s1 r1] eqn:E. apply call_read_cases in E as (Hs & [->|(e & -> & Hf)]); intros [= <- <-].
  - split; [done|]. unfold NodesStatusFromEtcdNode. rewrite (list_childs prefix m) by done.
    pose proof (order_all ((fun st => mkNode (text_of st) ∅) <$> m)) as Ho. rewrite map_to_list_fmap in Ho.
    apply Permutation_map_inv in Ho as (l & Hl & Hml). rewrite Hl.
    rewrite (nodes_loop_all l); [by rewrite Hml|].
    apply Forall2_fmap_r, Forall_Forall2_diag, list.Forall_forall. intros [id st] Hin. cbn.
    assert (Hst : m !! id = Some st) by (apply elem_of_map_to_list; by rewrite Hml).
    destruct (rep_stored _ _ _ HR _ _ Hst) as (_ & _ & v & Hv & _). exists v. unfold text_of. by rewrite Hv.
  - split; [done|]. by exists e.
Qed.

Lemma registry_Node_rep prefix id m s s' r : element prefix -> element id -> Rep prefix m (kvs s) ->
  registry_Node prefix id s = (s', r) ->
  kvs s' = kvs s /\ match r with
    | inr st => st = m !! id /\ is_Some st
    | inl (NotFoundf _) => m !! id = None
    | inl e => exists e', e = Other e' /\ failing s e'
    end.
Proof.
  intros Hp Hi HR. unfold registry_Node, Get. rewrite key_node by done.
  destruct (call_read _ s) as [s1 r1] eqn:E. apply call_read_cases in E as (Hs & [->|(e & -> & Hf)]); intros [= <- <-]; (split; [done|]).
  - destruct (m !! id) as [st|] eqn:Em.
    + destruct (rep_stored _ _ _ HR _ _ Em) as (_ & _ & v & Hv & ->). rewrite (decode_text _ _ Hv). by eauto.
    + by rewrite (rep_None _ _ _ _ HR Em).
  - by exists e.
Qed.
Lemma call_write_cases guard w s s' r : call_write guard w s = (s', r) ->
  (r = inr true /\ guard (kvs s) = true /\ kvs s' = w (kvs s)) \/
  (r = inr false /\ guard (kvs s) = false /\ kvs s' = kvs s) \/
  exists e, r = inl (Other e) /\ failing s e /\ (kvs s' = kvs s \/ guard (kvs s) = true /\ kvs s' = w (kvs s)).
Proof.
  unfold call_write, next_rpc, failing. destruct (rpcs s) as [|[|e|e] rs]; cbn [kvs rpcs]; intros [= <- <-];
    destruct (guard (kvs s)) eqn:E; cbn; eauto 10.
Qed.

(** The second call of [UpdateNode]. *)
Lemma write_node_rep prefix m1 st v create s s' r : element prefix -> element (NodeID st) -> status_Marshal st = inr v ->
  Rep prefix m1 (kvs s) ->
  (if create : bool then createNode prefix st s else updateNode prefix st s) = (s', r) ->
  match r with
  | inr _ => kvs s' = <[nodeKey prefix (NodeID st) := v]> (kvs s) /\ (m1 !! NodeID st = None <-> create = true)
  | inl (Other e) => failing s e /\ (kvs s' = kvs s \/ kvs s' = <[nodeKey prefix (NodeID st) := v]> (kvs s))
  | inl _ => kvs s' = kvs s /\ (m1 !! NodeID st = None <-> create = false)
  end.
Proof.
  intros Hp Hi Hv HR.
  assert (Hnone : m1 !! NodeID st = None <-> kvs s !! nodeKey prefix (NodeID st) = None).
  { split; [by eapply rep_None|]. intros Hk. destruct (m1 !! NodeID st) eqn:E; [|done].
    destruct (rep_stored _ _ _ HR _ _ E) as (_ & _ & ? & _ & ?). congruence. }
  unfold createNode, updateNode, with_text, Create, Update, grant. rewrite Hv, key_node by done.
  destruct create; cbn [Z.ltb Z.compare];
    (destruct (call_write _ _ s) as [s1 r1] eqn:E);
    (apply call_write_cases in E as [(-> & Hg & Hs)|[(-> & Hg & Hs)|(e & -> & Hf & Hs)]]; intros [= <- <-];
     rewrite ?Hnone, ?Hs; rewrite ?bool_decide_eq_true, ?bool_decide_eq_false in *);
    intuition (try congruence).
  destruct (kvs s !! nodeKey prefix (NodeID st)); [|done]. exfalso. by apply Hg.
Qed.

Lemma UpdateNode_rep others prefix m m1 st s s' r : element prefix -> element (NodeID st) ->
  Rep prefix m (kvs s) -> Rep prefix m1 (others (kvs s)) -> UpdateNode others prefix st s = (s', r) ->
  (r = inr tt -> Rep prefix (<[NodeID st := st]> m1) (kvs s')) /\
  (forall e, r = inl e -> kvs s' = kvs s \/ kvs s' = others (kvs s) \/ Rep prefix (<[NodeID st := st]> m1) (kvs s')) /\
  (forall k, k <> nodeKey prefix (NodeID st) -> kvs s' !! k = kvs s !! k \/ kvs s' !! k = others (kvs s) !! k) /\
  (rpcs s = [] -> (exists v, status_Marshal st = inr v) -> (m !! NodeID st = None <-> m1 !! NodeID st = None) -> r = inr tt).
Proof.
  intros Hp Hi HR HR1. unfold UpdateNode, checkNodeExists, Get. rewrite key_node by done.
  destruct (call_read _ s) as [s1 r1] eqn:E. pose proof E as Ecall. apply call_read_cases in E as (Hs & [->|(e & -> & Hf)]); cycle 1.
  { cbn. intros [= <- <-]. rewrite Hs. split_and!; [done|by auto|by auto|]. intros Hrs. unfold failing in Hf. rewrite Hrs in Hf. by destruct Hf. }
  assert (Hrs : rpcs s = [] -> rpcs s1 = []) by (intros Hn; unfold call_read, next_rpc in Ecall; rewrite Hn in Ecall; by simplify_eq).
  set (b := match m !! NodeID st with Some _ => true | None => false end).
  match goal with |- context [match ?x with inl e => if IsNotFound e then _ else _ | inr _ => inr true end] => 
    replace (match x with inl e => if IsNotFound e then inr false else inl e | inr _ => inr true end) with (inr b : etcd_error + bool) end; cycle 1.
  { unfold b. destruct (m !! NodeID st) eqn:Em; [destruct (rep_stored _ _ _ HR _ _ Em) as (_ & _ & v & _ & ->)|rewrite (rep_None _ _ _ _ HR Em)]; done. }
  cbv beta iota. set (s2 := mkEtcd (others (kvs s1)) (rpcs s1)).
  replace (if b then updateNode prefix st s2 else createNode prefix st s2)
    with (if negb b then createNode prefix st s2 else updateNode prefix st s2) by by destruct b.
  intros Heq. destruct (status_Marshal st) as [e|v] eqn:Hv.
  { unfold createNode, updateNode, with_text in Heq. rewrite Hv in Heq. destruct b; cbn in Heq; simplify_eq; cbn [kvs]; rewrite Hs;
      (split_and!; [done|by auto|by auto|by intros _ [? ?]]). }
  assert (HR2 : Rep prefix m1 (kvs s2)) by (cbn; by rewrite Hs).
  pose proof (write_node_rep _ _ _ _ _ _ _ _ Hp Hi Hv HR2 Heq) as Hw. cbn [kvs s2] in Hw. rewrite Hs in Hw.
  assert (Hins : kvs s' = <[nodeKey prefix (NodeID st) := v]> (others (kvs s)) -> Rep prefix (<[NodeID st := st]> m1) (kvs s')).
  { intros ->. by apply rep_insert. }
  assert (Hfr : kvs s' = others (kvs s) \/ kvs s' = <[nodeKey prefix (NodeID st) := v]> (others (kvs s)) ->
    forall k, k <> nodeKey prefix (NodeID st) -> kvs s' !! k = kvs s !! k \/ kvs s' !! k = others (kvs s) !! k).
  { intros [-> | ->] k Hk; [by right|]. right. by rewrite lookup_insert_ne. }
  assert (Hb : m !! NodeID st = None <-> negb b = true) by (unfold b; by destruct (m !! NodeID st)).
  destruct r as [[k|k|e]|[]].
  1, 2: destruct Hw as [Hk Hc]; split_and!; [done|by auto|by auto|]; intros _ _ Hm; exfalso; rewrite Hb, Hc in Hm; destruct (negb b); intuition done.
  - destruct Hw as [Hf Hk]. split_and!; [done|intros ? _; destruct Hk; auto|by auto|]. intros Hn _ _. exfalso.
    unfold failing in Hf. cbn [rpcs s2] in Hf. rewrite (Hrs Hn) in Hf. by destruct Hf.
  - destruct Hw as [Hk _]. split_and!; [by auto|done|by auto|done].
Qed.

(** C12: The registry implements a map from node ids to statuses. Under a prefix,
    [registry_Nodes] lists exactly the statuses of the map, [registry_Node]
    answers with the status of an id or that there is none, and both report an
    error only when their call failed. [UpdateNode] records the status when it
    succeeds, whatever other clients did between its two calls; after an error
    its own change was made completely or not at all, and no other key is
    touched. Without failures and interference it succeeds. *)
Theorem registry_refines prefix m s : element prefix -> Rep prefix m (kvs s) ->
  (let '(s', r) := registry_Nodes order prefix s in
   kvs s' = kvs s /\ match r with inr sts => sts ≡ₚ (map_to_list m).*2 | inl e => exists e', e = Other e' /\ failing s e' end) /\
  (forall id, element id -> let '(s', r) := registry_Node prefix id s in
   kvs s' = kvs s /\ match r with
     | inr st => st = m !! id /\ is_Some st
     | inl (NotFoundf _) => m !! id = None
     | inl e => exists e', e = Other e' /\ failing s e'
     end) /\
  (forall others m1 st, element (NodeID st) -> Rep prefix m1 (others (kvs s)) ->
   let '(s', r) := UpdateNode others prefix st s in
   (r = inr tt -> Rep prefix (<[NodeID st := st]> m1) (kvs s')) /\
   (forall e, r = inl e -> kvs s' = kvs s \/ kvs s' = others (kvs s) \/ Rep prefix (<[NodeID st := st]> m1) (kvs s')) /\
   (forall k, k <> nodeKey prefix (NodeID st) -> kvs s' !! k = kvs s !! k \/ kvs s' !! k = others (kvs s) !! k) /\
   (rpcs s = [] -> (exists v, status_Marshal st = inr v) -> (m !! NodeID st = None <-> m1 !! NodeID st = None) -> r = inr tt)).
Proof.
  intros Hp HR. split_and!.
  - destruct (registry_Nodes order prefix s) as [s' r] eqn:E. exact (registry_Nodes_rep _ _ _ _ _ Hp HR E).
  - intros id Hi. destruct (registry_Node prefix id s) as [s' r] eqn:E. exact (registry_Node_rep _ _ _ _ _ _ Hp Hi HR E).
  - intros others m1 st Hi HR1. destruct (UpdateNode others prefix st s) as [s' r] eqn:E. exact (UpdateNode_rep _ _ _ _ _ _ _ _ Hp Hi HR HR1 E).
Qed.
End Refinement.

(** The id of a node is found in its key. *)
Lemma AnalyzeNodeID_nodeKey prefix id : element prefix -> element id -> AnalyzeNodeID (nodeKey prefix id) = id.
Proof.
  intros [Hp _] [Hi _]. unfold AnalyzeNodeID, nodeKey, dirKey.
  change (trim_slashes _) with ("tidb-binlog" +:+ String "/" ("v1" +:+ String "/" ((prefix +:+ "/") +:+ id))).
  rewrite str_app_assoc. change ("/" +:+ id) with (String "/" id).
  rewrite !split_on_app by (try by_decide; done). by rewrite split_on_absent.
Qed.

(** ** Example *)

Module RegistryExamples.

(** A codec that writes the bits of a number that stands for the status. *)
Fixpoint bits (p : positive) : list byte :=
  match p with xH => [] | xO p => x00 :: bits p | xI p => x01 :: bits p end.
Fixpoint unbits (l : list byte) : positive :=
  match l with [] => xH | x00 :: l => xO (unbits l) | _ :: l => xI (unbits l) end.

Lemma unbits_bits p : unbits (bits p) = p.
Proof. induction p; simpl; congruence. Qed.

Definition to_tuple (st : Status) := (NodeID st, Addr st, State st, IsAlive st, (Score st, MaxCommitTS st, UpdateTS st)).
Definition of_tuple (t : string * string * string * bool * (Z * Z * Z)) : Status :=
  let '(a, b, c, d, (e, f, g)) := t in mkStatus a b c d e f g.

#[export] Instance demo_codec : StatusCodec := {
  status_Marshal st := inr (bits (encode (to_tuple st)));
  status_Unmarshal v := match decode (unbits v) with Some t => inr (Some (of_tuple t)) | None => inl (Err "unexpected end of JSON input") end;
}.
#[export] Instance demo_codec_laws : StatusCodecLaws.
Proof. intros st v [= <-]. unfold status_Unmarshal. cbn. rewrite unbits_bits, decode_encode. by destruct st. Qed.

Definition pump1 : Status := NewStatus "host:8250" "10.0.0.1:8250" Online 0 90 100.
Definition drainer1 : Status := NewStatus "host:8249" "10.0.0.2:8249" Online 0 80 100.

Definition store : etcd := mkEtcd {[nodeKey "drainers" "host:8249" := bits (encode (to_tuple drainer1))]} [].

Lemma store_rep : Rep "drainers" {["host:8249"%string := drainer1]} (kvs store).
Proof.
  split.
  - intros id st [<- <-]%lookup_singleton_Some. split_and!; [by_decide|done|]. eexists. split; [done|].
    apply lookup_singleton_eq.
  - cbn [kvs store]. intros k v [<- <-]%lookup_singleton_Some _. eexists. split; [done|]. rewrite lookup_singleton_eq. by eexists.
Qed.

Lemma registry_refines_witness :
  element "drainers" /\ Rep "drainers" {["host:8249"%string := drainer1]} (kvs store) /\
  (registry_Nodes map_to_list "drainers" store).2 = inr [drainer1] /\
  (UpdateNode id "drainers" drainer1 store).2 = inr tt.
Proof.
  assert (He : element "drainers") by by_decide.
  pose proof (registry_refines map_to_list (fun m => reflexivity (map_to_list m)) "drainers" _ store He store_rep) as (Hn & _ & Hu).
  split_and!; [exact He|exact store_rep| |].
  - destruct (registry_Nodes map_to_list "drainers" store) as [s' [e|sts]].
    + destruct Hn as (_ & e' & _ & [Hf|Hf]); discriminate Hf.
    + destruct Hn as [_ Hp]. rewrite map_to_list_singleton in Hp. cbn in Hp. symmetry in Hp.
      apply Permutation_singleton_l in Hp. by rewrite Hp.
  - specialize (Hu id _ drainer1 ltac:(by_decide) store_rep). destruct (UpdateNode id "drainers" drainer1 store) as [s' r].
    destruct Hu as (_ & _ & _ & Hok). apply Hok; [done|by eexists|done].
Defined.

(** One value that is no status makes the whole listing fail. *)
Example foreign_key_breaks_listing :
  (registry_Nodes map_to_list "drainers" (mkEtcd (<[nodeKey "drainers" "x" := [x00; x00]]> (kvs store)) [])).2 =
  inl (Other (Err "unexpected end of JSON input")).
Proof. vm_compute. reflexivity. Qed.

End RegistryExamples.
