(* ===== verification/LogFile.v ===== *)
(** * LogFile
    One file of the value log ([pump/storage/log.go]): the record format, the
    sequential and the random-access readers, the corruption-skipping scan, and
    the life of a file (open, write, finalize, recover). *)
From Stdlib Require Import Init.Byte Strings.Byte.
From stdpp Require Import base option list strings gmap numbers.
From S2P Require Import Prelude Binlog.

(** ** Constants *)

Definition recordMagic : Z := 0x823a56e8.
Definition fileEndMagic : Z := 0x123ab922.
Definition fileFooterLength : Z := 4 + 8.
Definition headerLength : Z := 16.

Definition ErrWrongMagic : error := Err "wrong magic".
Definition ErrChecksum : error := Err "checksum mismatch".

(** [make([]byte, n)] panics above the largest allocation of a 64-bit
    platform. *)
Definition maxAlloc : Z := 2 ^ 48.

(** ** Positions and records *)

Record valuePointer := mkVP { Fid : Z; Offset : Z }.

#[export] Instance valuePointer_eq_dec : EqDecision valuePointer.
Proof. solve_decision. Defined.

(** [Record]: the header fields and the payload. *)
Record LogRecord := mkRecord {
  r_magic : Z;
  r_length : Z;
  r_checksum : Z;
  r_payload : list byte;
}.

Definition recordLength (r : LogRecord) : Z := headerLength + len (r_payload r).

(** [encodeRecord] into a [bytes.Buffer], whose writes do not fail: the buffer
    after the two writes and the number of bytes written. *)
Definition encodeRecord (buf payload : list byte) : list byte * Z :=
  let header :=
    le_bytes 4 recordMagic ++ le_bytes 8 (len payload) ++
    le_bytes 4 (crc32 crc_Castagnoli payload) in
  (buf ++ header ++ payload, headerLength + len payload).

(** [(r *Record).readHeader]: three [binary.Read]s. *)
Definition readHeader (reader : list byte) : outcome (LogRecord * list byte) :=
  let! (m, reader) := read_full 4 reader in
  let! (l, reader) := read_full 8 reader in
  let! (c, reader) := read_full 4 reader in
  Ret (mkRecord (le_value m) (le_value l) (le_value c) [], reader).

Definition isValid (r : LogRecord) : bool :=
  crc32 crc_Castagnoli (r_payload r) =? r_checksum r.

Definition set_payload (p : list byte) (r : LogRecord) : LogRecord :=
  mkRecord (r_magic r) (r_length r) (r_checksum r) p.

(** [io.CopyN(buf, reader, n)]: a negative [n] copies nothing and succeeds; a
    short read is [io.EOF]. *)
Definition copyN (n : Z) (reader : list byte) : outcome (list byte * list byte) :=
  if n <=? 0 then Ret ([], reader)
  else if len reader <? n then Fail EOF
  else Ret (take (Z.to_nat n) reader, drop (Z.to_nat n) reader).

(** [readRecord(reader)]. *)
Definition readRecord (reader : list byte) : outcome (LogRecord * list byte) :=
  let! (record, reader) := readHeader reader in
  if negb (r_magic record =? recordMagic) then Fail ErrWrongMagic
  else
    let! (payload, reader) :=
      if r_length record <? 4 * 2 ^ 30 then read_full (r_length record) reader
      else copyN (wrap_i64 (r_length record)) reader in
    let record := set_payload payload record in
    if negb (isValid record) then Fail ErrChecksum
    else Ret (record, reader).

(** [seekToNextRecord]: the bytes skipped, the reader, and [io.EOF] when fewer
    than four bytes remain. *)
Fixpoint seekToNextRecord (reader : list byte) : Z * list byte * option error :=
  if len reader <? 4 then (len reader, reader, Some EOF)
  else if le_value (take 4 reader) =? recordMagic then (0, reader, None)
  else
    match reader with
    | [] => (0, reader, Some EOF)
    | _ :: reader' =>
      let '(bytes, r, e) := seekToNextRecord reader' in (bytes + 1, r, e)
    end.

(** ** The file *)

Record logFile := mkLogFile {
  fid : Z;
  path : string;
  writeOffset : Z;
  fd : list byte;       (* the contents of the open file *)
  maxTS : Z;
  end_ : bool;
}.

Definition set_fd (c : list byte) (lf : logFile) : logFile :=
  mkLogFile (fid lf) (path lf) (writeOffset lf) c (maxTS lf) (end_ lf).
Definition set_end (b : bool) (lf : logFile) : logFile :=
  mkLogFile (fid lf) (path lf) (writeOffset lf) (fd lf) (maxTS lf) b.
Definition set_maxTS (ts : Z) (lf : logFile) : logFile :=
  mkLogFile (fid lf) (path lf) (writeOffset lf) (fd lf) ts (end_ lf).

(** The result of one [write] system call on an append-mode descriptor:
    everything is written, or [n] bytes are and the call fails. *)
Inductive io_write :=
  | WOk
  | WErr (n : nat) (e : error).

Definition fd_write (w : io_write) (data c : list byte) : list byte * Z * option error :=
  match w with
  | WOk => (c ++ data, len data, None)
  | WErr n e => (c ++ take n data, len (take n data), Some e)
  end.

Definition updateMaxTS (ts : Z) (lf : logFile) : logFile :=
  if maxTS lf <? ts then set_maxTS ts lf else lf.

Definition IncWriteOffset (n : Z) (lf : logFile) : logFile :=
  mkLogFile (fid lf) (path lf) (writeOffset lf + n) (fd lf) (maxTS lf) (end_ lf).

Definition GetWriteOffset (lf : logFile) : Z := writeOffset lf.

(** [(lf *logFile).Write]; [w] and [sy] are the results of the [write] and the
    [fdatasync] system calls. *)
Definition Write (w : io_write) (sy : option error) (data : list byte) (sync : bool)
    (lf : logFile) : logFile * option error :=
  let '(c, n, err) := fd_write w data (fd lf) in
  let lf := IncWriteOffset n (set_fd c lf) in
  match err with
  | Some e => (lf, Some e)
  | None => (lf, if sync then sy else None)
  end.

Definition footer (ts : Z) : list byte := le_bytes 8 ts ++ le_bytes 4 fileEndMagic.

(** [finalize]: append the footer and close the file to further records. *)
Definition finalize (w : io_write) (sy : option error) (lf : logFile) : logFile * outcome unit :=
  if end_ lf then (lf, Panic)
  else
    let '(c, _, err) := fd_write w (footer (maxTS lf)) (fd lf) in
    let lf := set_fd c lf in
    match err with
    | Some e => (lf, Fail e)
    | None =>
      let lf := set_end true lf in
      (lf, match sy with Some e => Fail e | None => Ret tt end)
    end.

(** [(lf *logFile).readRecord(offset)]: the random-access reader. *)
Definition readRecordAt (lf : logFile) (offset : Z) : outcome LogRecord :=
  let! header := read_at (fd lf) headerLength offset in
  let offset := offset + headerLength in
  let! (record, _) := readHeader header in
  if negb (r_magic record =? recordMagic) then Fail ErrWrongMagic
  else if maxAlloc <? r_length record then Panic
  else
    let! payload := read_at (fd lf) (r_length record) offset in
    let record := set_payload payload record in
    if negb (isValid record) then Fail ErrChecksum else Ret record.

(** ** Scan *)

(** [io.NewSectionReader(fd, offset, size - offset)]. *)
Definition section (file : list byte) (offset size : Z) : list byte :=
  take (Z.to_nat (size - offset)) (drop (Z.to_nat offset) file).

Section Scan.
Context {St : Type}.
Variable fn : valuePointer -> LogRecord -> St -> St * outcome unit.

(** The loop of [scan]: the reader delivers the bytes from [offset] on.  Every
    iteration moves [offset] forward, so [size - offset] iterations suffice;
    running out of fuel would show as [Panic]. *)
Fixpoint scan_loop (fuel : nat) (file_id : Z) (file : list byte) (size offset : Z)
    (reader : list byte) (s : St) : St * outcome unit :=
  if offset <? size then
    match fuel with
    | O => (s, Panic)
    | S fuel =>
      match readRecord reader with
      | Ret (r, reader) =>
        match fn (mkVP file_id offset) r s with
        | (s, Ret _) => scan_loop fuel file_id file size (offset + recordLength r) reader s
        | (s, err) => (s, err)
        end
      | _ =>
        let offset := offset + 1 in
        let reader := section file offset size in
        match seekToNextRecord reader with
        | (bytes, reader, None) => scan_loop fuel file_id file size (offset + bytes) reader s
        | (_, _, Some EOF) => (s, Ret tt)
        | (_, _, Some e) => (s, Fail e)
        end
      end
    end
  else (s, Ret tt).

(** [(lf *logFile).scan(startOffset, fn)]; [s] is the state [fn] works on. *)
Definition scan (lf : logFile) (startOffset : Z) (s : St) : St * outcome unit :=
  let size := len (fd lf) in
  let size := if end_ lf then size - fileFooterLength else size in
  scan_loop (Z.to_nat (size - startOffset)) (fid lf) (fd lf) size startOffset
    (section (fd lf) startOffset size) s.

End Scan.

(** ** Opening a file *)

Section Open.
Context `{C : Codec}.

(** The function [recover] passes to [scan]: it keeps the largest timestamp. *)
Definition recover_fn (_ : valuePointer) (r : LogRecord) (ts : Z) : Z * outcome unit :=
  match unmarshal (r_payload r) with
  | Ret b =>
    let ts := if ts <? CommitTs b then CommitTs b else ts in
    let ts := if ts <? StartTs b then StartTs b else ts in
    (ts, Ret tt)
  | Fail e => (ts, Fail e)
  | Panic => (ts, Panic)
  end.

Definition recover (lf : logFile) : outcome logFile :=
  match scan recover_fn lf 0 (maxTS lf) with
  | (ts, Ret _) => Ret (set_maxTS ts lf)
  | (_, Fail e) => Fail e
  | (_, Panic) => Panic
  end.

(** [newLogFile(fid, name)] on a file with contents [c] (empty when
    [O_CREATE] just created it). *)
Definition newLogFile (id : Z) (name : string) (c : list byte) : outcome logFile :=
  let lf := mkLogFile id name (len c) c 0 false in
  let! lf :=
    if fileFooterLength <=? len c then
      let! foot := read_at c fileFooterLength (len c - fileFooterLength) in
      let! (ts, buf) := read_full 8 foot in
      let! (m, buf) := read_full 4 buf in
      if le_value m =? fileEndMagic
      then Ret (set_end true (set_maxTS (wrap_i64 (le_value ts)) lf))
      else Ret lf
    else Ret lf in
  if end_ lf then Ret lf else recover lf.

End Open.

(** ** The record format *)

Definition recordBytes (p : list byte) : list byte :=
  le_bytes 4 recordMagic ++ le_bytes 8 (len p) ++ le_bytes 4 (crc32 crc_Castagnoli p) ++ p.

#[global] Arguments recordBytes : simpl never.

(** The record a payload is read back as. *)
Definition recordOf (p : list byte) : LogRecord :=
  mkRecord recordMagic (len p) (crc32 crc_Castagnoli p) p.

Lemma encodeRecord_bytes buf p :
  encodeRecord buf p = (buf ++ recordBytes p, headerLength + len p).
Proof. unfold encodeRecord, recordBytes. by rewrite <- !app_assoc. Qed.

Lemma len_recordBytes p : len (recordBytes p) = headerLength + len p.
Proof. unfold recordBytes, headerLength. rewrite !length_app, !length_le_bytes. lia. Qed.

Lemma recordLength_recordOf p : recordLength (recordOf p) = len (recordBytes p).
Proof. by rewrite len_recordBytes. Qed.

Lemma recordOf_valid p : isValid (recordOf p) = true.
Proof. apply Z.eqb_refl. Qed.

Lemma readHeader_app m l c rest :
  in_u32 m -> in_u64 l -> in_u32 c ->
  readHeader (le_bytes 4 m ++ le_bytes 8 l ++ le_bytes 4 c ++ rest) =
    Ret (mkRecord m l c [], rest).
Proof.
  intros. unfold readHeader.
  do 3 (rewrite read_full_app' by (by rewrite length_le_bytes); step_bind).
  by rewrite !le_value_u32, le_value_u64.
Qed.

Lemma readHeader_record p rest :
  len p < 2 ^ 63 ->
  readHeader (recordBytes p ++ rest) = Ret (set_payload [] (recordOf p), p ++ rest).
Proof.
  intros. unfold recordBytes. rewrite <- !app_assoc.
  apply readHeader_app; [unfold in_u32, recordMagic; lia|unfold in_u64; lia|].
  apply crc32_Castagnoli_u32.
Qed.

Lemma copyN_app p rest : copyN (len p) (p ++ rest) = Ret (p, rest).
Proof.
  unfold copyN. destruct (Z.leb_spec (len p) 0).
  - destruct p; simpl in *; [done|lia].
  - rewrite len_app. destruct (Z.ltb_spec (len p + len rest) (len p)); [lia|].
    by rewrite Nat2Z.id, take_app_length, drop_app_length.
Qed.

(** Reading what was encoded gives the payload back and leaves the rest of the
    stream. *)
Lemma readRecord_recordBytes p rest :
  len p < 2 ^ 63 -> readRecord (recordBytes p ++ rest) = Ret (recordOf p, rest).
Proof.
  intros Hp. unfold readRecord. rewrite readHeader_record by done. step_bind.
  simpl r_magic. rewrite Z.eqb_refl. simpl negb. cbv iota. simpl r_length.
  rewrite wrap_i64_id by eauto with go.
  assert (Hrd : (if len p <? 4 * 2 ^ 30 then read_full (len p) (p ++ rest)
                 else copyN (len p) (p ++ rest)) = Ret (p, rest)).
  { destruct (_ <? _); [apply read_full_app|apply copyN_app]. }
  rewrite Hrd. step_bind.
  change (set_payload p (set_payload [] (recordOf p))) with (recordOf p).
  by rewrite recordOf_valid.
Qed.

(** A record that is read moves the reader past at least its header. *)
Lemma recordLength_pos r : 0 < recordLength r.
Proof. unfold recordLength, headerLength. lia. Qed.

(** Random access at a record boundary. *)
Lemma readRecordAt_record lf pre p post :
  fd lf = pre ++ recordBytes p ++ post -> len p <= maxAlloc ->
  readRecordAt lf (len pre) = Ret (recordOf p).
Proof.
  intros Hfd Hp. unfold readRecordAt. rewrite Hfd.
  set (h := le_bytes 4 recordMagic ++ le_bytes 8 (len p) ++
            le_bytes 4 (crc32 crc_Castagnoli p)).
  assert (Hb : recordBytes p = h ++ p).
  { unfold recordBytes, h. by rewrite <- !app_assoc. }
  assert (Hh : len h = headerLength).
  { unfold h, headerLength. rewrite !length_app, !length_le_bytes. done. }
  rewrite Hb. rewrite <- Hh at 1. rewrite <- app_assoc, read_at_app. step_bind.
  assert (Hrh : readHeader h = Ret (set_payload [] (recordOf p), [])).
  { unfold h. rewrite <- (app_nil_r (le_bytes 4 (crc32 _ _))).
    apply readHeader_app; [unfold in_u32, recordMagic; lia| |apply crc32_Castagnoli_u32].
    unfold in_u64, maxAlloc in *. lia. }
  rewrite Hrh. step_bind. simpl r_magic. rewrite Z.eqb_refl. simpl negb. cbv iota.
  simpl r_length. destruct (Z.ltb_spec maxAlloc (len p)); [lia|].
  rewrite <- Hh, <- len_app, app_assoc, read_at_app. step_bind.
  change (set_payload p (set_payload [] (recordOf p))) with (recordOf p).
  by rewrite recordOf_valid.
Qed.

(** ** What a scan visits *)

(** The contents of a file, as a sequence of intact records and of damaged
    stretches. *)
Inductive segment :=
  | Good (p : list byte)
  | Bad (g : list byte).

Definition seg_bytes (s : segment) : list byte :=
  match s with Good p => recordBytes p | Bad g => g end.

Definition layout_bytes (l : list segment) : list byte := concat (seg_bytes <$> l).

(** Four bytes at the head of the stream that are the record magic. *)
Definition at_magic (r : list byte) : Prop :=
  4 <= len r /\ le_value (take 4 r) = recordMagic.

(** The shapes of damage a scan recovers from: a damaged stretch does not parse
    as a record, holds no record magic after its first byte (nor across its end),
    and is followed by an intact record or by the end of the data. *)
Fixpoint layout_ok (l : list segment) : Prop :=
  match l with
  | [] => True
  | Good p :: l => len p < 2 ^ 63 /\ layout_ok l
  | Bad g :: l =>
    g <> [] /\ (forall x, readRecord (g ++ layout_bytes l) <> Ret x) /\
    (forall i, (1 <= i < length g)%nat -> ~ at_magic (drop i (g ++ layout_bytes l))) /\
    match l with Bad _ :: _ => False | _ => True end /\ layout_ok l
  end.

Lemma recordBytes_at_magic p r : at_magic (recordBytes p ++ r).
Proof.
  split.
  - rewrite len_app, len_recordBytes. unfold headerLength. lia.
  - unfold recordBytes. rewrite <- !app_assoc, take_app_length'.
    + by apply le_value_u32.
    + by rewrite length_le_bytes.
Qed.

Lemma at_magic_bool r :
  ~ at_magic r -> 4 <= len r -> (le_value (take 4 r) =? recordMagic) = false.
Proof. intros H Hl. apply Z.eqb_neq. intros E. by apply H. Qed.

Lemma seek_unfold_no b r :
  ~ at_magic (b :: r) -> 4 <= len (b :: r) ->
  seekToNextRecord (b :: r) =
    let '(n, r', e) := seekToNextRecord r in (n + 1, r', e).
Proof.
  intros Hm Hl. cbn [seekToNextRecord].
  destruct (Z.ltb_spec (len (b :: r)) 4); [lia|].
  by rewrite at_magic_bool.
Qed.

(** The seek stops at the first magic. *)
Lemma seek_found g r :
  (forall i, (i < length g)%nat -> ~ at_magic (drop i (g ++ r))) -> at_magic r ->
  seekToNextRecord (g ++ r) = (len g, r, None).
Proof.
  induction g as [|b g IH]; intros Hno Hr.
  - destruct Hr as [Hl Hm]. simpl app. destruct r; simpl in Hl; [lia|].
    cbn [seekToNextRecord]. destruct (Z.ltb_spec (len (b :: r)) 4); [simpl in *; lia|].
    by rewrite Hm, Z.eqb_refl.
  - simpl app. rewrite seek_unfold_no.
    + rewrite IH; [|intros i Hi; apply (Hno (S i)); simpl; lia|done].
      f_equal; [f_equal; simpl length; lia].
    + apply (Hno 0%nat). simpl. lia.
    + destruct Hr. simpl length. rewrite length_app. lia.
Qed.

Lemma seek_not_found g :
  (forall i, (i < length g)%nat -> ~ at_magic (drop i g)) ->
  exists n r, seekToNextRecord g = (n, r, Some EOF).
Proof.
  induction g as [|b g IH]; intros Hno; [eexists _, _; done|].
  destruct (Z.ltb_spec (len (b :: g)) 4) as [Hl|Hl].
  - cbn [seekToNextRecord]. destruct (Z.ltb_spec (len (b :: g)) 4); [eauto|lia].
  - rewrite seek_unfold_no; [|apply (Hno 0%nat); simpl; lia|done].
    destruct IH as (n & r & ->); [|eauto].
    intros i Hi. apply (Hno (S i)). simpl. lia.
Qed.

Lemma section_drop file off size k :
  0 <= off -> 0 <= k -> section file (off + k) size = drop (Z.to_nat k) (section file off size).
Proof.
  intros. unfold section. rewrite skipn_firstn_comm, drop_drop.
  f_equal; [lia|]. f_equal. lia.
Qed.

Lemma section_mid pre mid post :
  section (pre ++ mid ++ post) (len pre) (len pre + len mid) = mid.
Proof.
  unfold section.
  replace (Z.to_nat (len pre + len mid - len pre)) with (length mid) by lia.
  by rewrite Nat2Z.id, drop_app_length, take_app_length.
Qed.

Section ScanSpec.
Context {St : Type}.
Variable fn : valuePointer -> LogRecord -> St -> St * outcome unit.

(** The specification of a scan: [fn] is called on the intact records, in file
    order, with the position of each, until one call fails. *)
Fixpoint visit (id off : Z) (l : list segment) (s : St) : St * outcome unit :=
  match l with
  | [] => (s, Ret tt)
  | Bad g :: l => visit id (off + len g) l s
  | Good p :: l =>
    match fn (mkVP id off) (recordOf p) s with
    | (s, Ret _) => visit id (off + len (recordBytes p)) l s
    | (s, err) => (s, err)
    end
  end.

Lemma scan_loop_layout l : forall fuel id file size off s,
  layout_ok l -> 0 <= off -> size = off + len (layout_bytes l) ->
  section file off size = layout_bytes l -> size - off <= Z.of_nat fuel ->
  scan_loop fn fuel id file size off (layout_bytes l) s = visit id off l s.
Proof.
  induction l as [|[p|g] l IH]; intros fuel id file size off s Hok Hoff Hsz Hsec Hfuel.
  - simpl. destruct fuel; simpl;
      destruct (Z.ltb_spec off size); [simpl in *; lia|done|simpl in *; lia|done].
  - simpl in Hok. destruct Hok as [Hp Hok].
    assert (Hb : layout_bytes (Good p :: l) = recordBytes p ++ layout_bytes l) by done.
    rewrite Hb, len_app in Hsz. pose proof (len_recordBytes p) as Hl. unfold headerLength in Hl.
    destruct fuel as [|fuel]; [lia|]. cbn [scan_loop visit].
    destruct (Z.ltb_spec off size); [|lia].
    rewrite Hb, readRecord_recordBytes by done.
    destruct (fn _ _ s) as [s' [u| |]]; [|done..].
    rewrite recordLength_recordOf. apply IH; [done|lia|lia| |lia].
    rewrite section_drop, Hsec, Hb by lia. by rewrite Nat2Z.id, drop_app_length.
  - simpl in Hok. destruct Hok as (Hg & Hnr & Hnm & Hnext & Hok).
    assert (Hb : layout_bytes (Bad g :: l) = g ++ layout_bytes l) by done.
    rewrite Hb, len_app in Hsz. destruct g as [|b g]; [done|].
    simpl length in Hsz. destruct fuel as [|fuel]; [lia|]. cbn [scan_loop visit].
    destruct (Z.ltb_spec off size); [|lia].
    rewrite Hb. destruct (readRecord _) as [x|e|] eqn:Hr; [by destruct (Hnr x)| |].
    all: rewrite section_drop, Hsec, Hb by lia;
      change (drop (Z.to_nat 1) ((b :: g) ++ layout_bytes l)) with (g ++ layout_bytes l).
    all: assert (Hnm' : forall i, (i < length g)%nat -> ~ at_magic (drop i (g ++ layout_bytes l)))
        by (intros i Hi; apply (Hnm (S i)); simpl; lia).
    all: destruct l as [|[p|g'] l]; [| |done].
    1, 3: simpl in Hnm'; rewrite app_nil_r in Hnm'; simpl layout_bytes;
      rewrite app_nil_r; destruct (seek_not_found _ Hnm') as (n & r & ->); done.
    all: rewrite (seek_found g) by (done || apply recordBytes_at_magic).
    all: rewrite (IH fuel); [f_equal; simpl length; lia|done|lia|lia| |lia].
    all: replace (off + 1 + len g) with (off + len (b :: g)) by (simpl length; lia);
      rewrite section_drop, Hsec, Hb by lia; by rewrite Nat2Z.id, drop_app_length.
Qed.

End ScanSpec.

(** The bytes after the records of a file: the footer of a finalized file. *)
Definition tail_ok (lf : logFile) (tail : list byte) : Prop :=
  if end_ lf then len tail = fileFooterLength else tail = [].

Lemma scan_layout {St} (fn : valuePointer -> LogRecord -> St -> St * outcome unit)
    lf pre l tail s :
  fd lf = pre ++ layout_bytes l ++ tail -> tail_ok lf tail -> layout_ok l ->
  scan fn lf (len pre) s = visit fn (fid lf) (len pre) l s.
Proof.
  intros Hfd Htail Hok. unfold scan.
  assert (Hsz : (if end_ lf then len (fd lf) - fileFooterLength else len (fd lf)) =
                len pre + len (layout_bytes l)).
  { rewrite Hfd, !len_app. unfold tail_ok in Htail.
    destruct (end_ lf); [|subst; simpl length]; lia. }
  rewrite Hsz, Hfd, section_mid. apply scan_loop_layout; [done|lia|done| |lia].
  apply section_mid.
Qed.

(** Scanning a file from a record boundary calls the visitor on exactly the
    intact records that follow, in order and with their offsets, and skips every
    damaged stretch that does not itself look like a record; the footer of a
    finalized file is never taken for data. *)
Theorem scan_visits {St} (fn : valuePointer -> LogRecord -> St -> St * outcome unit)
    lf pre l tail s :
  fd lf = pre ++ layout_bytes l ++ tail -> tail_ok lf tail -> layout_ok l ->
  scan fn lf (len pre) s = visit fn (fid lf) (len pre) l s.
Proof. apply scan_layout. Qed.

Lemma readRecord_no_panic r : readRecord r <> Panic.
Proof.
  unfold readRecord, readHeader.
  repeat first
    [ apply SimpleCodec.obind_no_panic; [|intros [??]]
    | apply SimpleCodec.read_full_no_panic
    | progress unfold copyN
    | case_match
    | done ].
Qed.

Lemma seek_nonneg r n r' e : seekToNextRecord r = (n, r', e) -> 0 <= n.
Proof.
  revert n r' e. induction r as [|b r IH]; intros n r' e; cbn [seekToNextRecord].
  - intros [= <- <- <-]. lia.
  - destruct (_ <? 4); [intros [= <- <- <-]; lia|].
    destruct (_ =? _); [intros [= <- <- <-]; lia|].
    destruct (seekToNextRecord r) as [[n0 r0] e0] eqn:E.
    intros [= <- <- <-]. specialize (IH n0 r0 e0 eq_refl). lia.
Qed.

Lemma scan_loop_no_panic {St} (fn : valuePointer -> LogRecord -> St -> St * outcome unit) :
  (forall vp r s, (fn vp r s).2 <> Panic) ->
  forall fuel id file size off reader s,
  size - off <= Z.of_nat fuel -> (scan_loop fn fuel id file size off reader s).2 <> Panic.
Proof.
  intros Hfn. induction fuel as [|fuel IH]; intros id file size off reader s Hf;
    cbn [scan_loop]; destruct (Z.ltb_spec off size); try done; [lia|].
  destruct (readRecord reader) as [[r reader']|e|] eqn:Hr.
  - pose proof (Hfn (mkVP id off) r s) as Hp. pose proof (recordLength_pos r).
    destruct (fn _ _ s) as [s' [u|e|]]; [|done..]. apply IH. lia.
  - destruct (seekToNextRecord _) as [[n r'] [[]|]] eqn:E; try done.
    apply seek_nonneg in E. apply IH. lia.
  - by apply readRecord_no_panic in Hr.
Qed.

(** A scan terminates on every file, whatever its bytes: it never exhausts its
    [size - offset] iterations, and it panics only if the visitor does. *)
Theorem scan_terminates {St} (fn : valuePointer -> LogRecord -> St -> St * outcome unit)
    lf off s :
  (forall vp r s, (fn vp r s).2 <> Panic) -> (scan fn lf off s).2 <> Panic.
Proof. intros Hfn. unfold scan. apply scan_loop_no_panic; [done|]. lia. Qed.

Lemma read_footer c ts m :
  in_i64 ts -> in_u32 m ->
  let f := le_bytes 8 ts ++ le_bytes 4 m in
  read_at (c ++ f) fileFooterLength (len (c ++ f) - fileFooterLength) = Ret f.
Proof.
  intros Hts Hm f.
  assert (Hf : len f = fileFooterLength).
  { unfold f. rewrite len_app, !length_le_bytes. done. }
  replace (len (c ++ f) - fileFooterLength) with (len c) by (rewrite len_app; lia).
  rewrite <- Hf. pose proof (read_at_app c f []) as H. by rewrite app_nil_r in H.
Qed.

Lemma newLogFile_footer `{C : Codec} id name c ts :
  in_i64 ts ->
  newLogFile id name (c ++ footer ts) =
    Ret (mkLogFile id name (len (c ++ footer ts)) (c ++ footer ts) ts true).
Proof.
  intros Hts. unfold newLogFile.
  assert (Hl : (fileFooterLength <=? len (c ++ footer ts)) = true).
  { apply Z.leb_le. unfold footer. rewrite !len_app, !length_le_bytes. unfold fileFooterLength. lia. }
  rewrite Hl. unfold footer. rewrite read_footer by (done || (unfold in_u32, fileEndMagic; lia)).
  step_bind. rewrite read_full_app' by (by rewrite length_le_bytes). step_bind.
  rewrite <- (app_nil_r (le_bytes 4 fileEndMagic)) at 1.
  rewrite read_full_app' by (by rewrite length_le_bytes). step_bind.
  rewrite le_value_u32, Z.eqb_refl by (unfold in_u32, fileEndMagic; lia).
  by rewrite le_value_wrap64, wrap_i64_u64.
Qed.

(** A finalized file is reopened with its footer recognised: the saved maximal
    timestamp is restored and the file is closed to further records. *)
Theorem newLogFile_finalized `{C : Codec} id name lf lf' :
  end_ lf = false -> in_i64 (maxTS lf) -> finalize WOk None lf = (lf', Ret tt) ->
  newLogFile id name (fd lf') =
    Ret (mkLogFile id name (len (fd lf')) (fd lf') (maxTS lf) true).
Proof.
  intros Hend Hts. unfold finalize. rewrite Hend. cbn [fd_write]. intros [= <-].
  by apply newLogFile_footer.
Qed.

(** The payloads of the intact records. *)
Definition good_payloads (l : list segment) : list (list byte) :=
  omap (fun s => match s with Good p => Some p | Bad _ => None end) l.

(** The contents do not end like a footer. *)
Definition no_footer (c : list byte) : Prop :=
  len c < fileFooterLength \/ le_value (drop (length c - 4) c) <> fileEndMagic.

Section Recover.
Context `{C : Codec}.

Definition max_ts (ts : Z) (b : Binlog) : Z := Z.max (Z.max ts (CommitTs b)) (StartTs b).

Lemma visit_recover id l : forall off bs ts,
  Forall2 (fun p b => unmarshal p = Ret b) (good_payloads l) bs ->
  visit recover_fn id off l ts = (fold_left max_ts bs ts, Ret tt).
Proof.
  induction l as [|[p|g] l IH]; intros off bs ts Hbs.
  - by inversion Hbs.
  - change (good_payloads (Good p :: l)) with (p :: good_payloads l) in Hbs.
    inversion_clear Hbs as [|? b ? bs' Hp Hbs'].
    cbn [visit]. unfold recover_fn at 1. simpl r_payload. rewrite Hp.
    rewrite (IH _ bs') by done. simpl. do 2 f_equal. unfold max_ts.
    destruct (Z.ltb_spec ts (CommitTs b)); 
      match goal with |- context [?a <? StartTs b] => destruct (Z.ltb_spec a (StartTs b)) end; lia.
  - cbn [visit]. by apply IH.
Qed.

Lemma max_ts_bounds bs : forall ts,
  Forall (fun b => StartTs b <= fold_left max_ts bs ts /\ CommitTs b <= fold_left max_ts bs ts /\
                   ts <= fold_left max_ts bs ts) bs /\
  ts <= fold_left max_ts bs ts /\
  (ts < 2 ^ 63 -> Forall (fun b => StartTs b < 2 ^ 63 /\ CommitTs b < 2 ^ 63) bs ->
   fold_left max_ts bs ts < 2 ^ 63).
Proof.
  induction bs as [|b bs IH]; intros ts; simpl; [repeat split; auto; lia|].
  destruct (IH (max_ts ts b)) as (Hall & Hle & Hlt). unfold max_ts in Hle at 1.
  split; [|split; [lia|]].
  - constructor; [lia|]. eapply Forall_impl; [|exact Hall]. simpl.
    intros b' (? & ? & ?). lia.
  - intros Hts Hbs. inversion_clear Hbs. apply Hlt; [|done]. unfold max_ts. lia.
Qed.

Lemma newLogFile_not_footer id name c :
  no_footer c -> newLogFile id name c = recover (mkLogFile id name (len c) c 0 false).
Proof.
  intros Hno. unfold newLogFile.
  destruct (Z.leb_spec fileFooterLength (len c)) as [Hl|Hl]; [|done].
  destruct Hno as [?|Hno]; [lia|]. unfold fileFooterLength in *.
  set (n := (length c - 12)%nat).
  assert (Hc : c = take n c ++ drop n c) by (by rewrite take_drop).
  assert (Hd : length (drop n c) = 12%nat) by (rewrite length_drop; lia).
  assert (Hrd : read_at c (4 + 8) (len c - (4 + 8)) = Ret (drop n c)).
  { pose proof (read_at_app (take n c) (drop n c) []) as Hra.
    rewrite app_nil_r, <- Hc, Hd, length_take in Hra. rewrite <- Hra. f_equal. lia. }
  rewrite Hrd. step_bind.
  set (f := drop n c) in *.
  assert (Hf : f = take 8 f ++ drop 8 f) by (by rewrite take_drop).
  rewrite Hf, read_full_app' by (rewrite length_take; lia). step_bind.
  rewrite <- (app_nil_r (drop 8 f)), read_full_app' by (rewrite length_drop; lia). step_bind.
  assert (Hm : drop 8 f = drop (length c - 4) c).
  { unfold f, n. rewrite drop_drop. f_equal. lia. }
  by rewrite Hm, (proj2 (Z.eqb_neq _ _) Hno).
Qed.

Lemma newLogFile_layout id name l bs :
  layout_ok l -> Forall2 (fun p b => unmarshal p = Ret b) (good_payloads l) bs ->
  no_footer (layout_bytes l) ->
  newLogFile id name (layout_bytes l) =
    Ret (mkLogFile id name (len (layout_bytes l)) (layout_bytes l) (fold_left max_ts bs 0) false).
Proof.
  intros Hok Hbs Hno. rewrite newLogFile_not_footer by done. unfold recover.
  rewrite (scan_layout recover_fn _ [] l []); [|by rewrite app_nil_r|done..].
  by rewrite (visit_recover _ l _ bs).
Qed.

(** A file that was not finalized (the pump stopped or crashed, possibly in the
    middle of a write) is reopened for append at its end, and its maximal
    timestamp is recomputed from the start and commit timestamps of every intact
    binlog, so that it bounds both timestamps of each of them. *)
Theorem newLogFile_recovers id name l bs :
  layout_ok l -> Forall2 (fun p b => unmarshal p = Ret b) (good_payloads l) bs ->
  no_footer (layout_bytes l) ->
  newLogFile id name (layout_bytes l) =
    Ret (mkLogFile id name (len (layout_bytes l)) (layout_bytes l) (fold_left max_ts bs 0) false) /\
  Forall (fun b => StartTs b <= fold_left max_ts bs 0 /\ CommitTs b <= fold_left max_ts bs 0) bs.
Proof.
  intros Hok Hbs Hno. split; [by apply newLogFile_layout|].
  eapply Forall_impl; [|apply (max_ts_bounds bs 0)]. simpl. tauto.
Qed.

End Recover.

(** ** Examples *)

(** A visitor that collects the positions and the payloads it is given. *)
Definition collect (vp : valuePointer) (r : LogRecord) (s : list (valuePointer * list byte)) :
    list (valuePointer * list byte) * outcome unit :=
  (s ++ [(vp, r_payload r)], Ret tt).

Definition demo_layout : list segment := [Good [x01]; Bad [x02; x03; x04]; Good [x05; x06]].

Lemma demo_layout_ok : layout_ok demo_layout.
Proof.
  simpl. repeat split; try lia; try done.
  intros i Hi [_ Hm]. destruct i as [|[|[|i]]]; try lia; by vm_compute in Hm.
Defined.

Lemma scan_visits_witness :
  scan collect (mkLogFile 7 "000007.vlog" 0 (layout_bytes demo_layout ++ footer 9) 9 true) 0 [] =
    ([(mkVP 7 0, [x01]); (mkVP 7 20, [x05; x06])], Ret tt).
Proof.
  assert (H := scan_visits collect
    (mkLogFile 7 "000007.vlog" 0 (layout_bytes demo_layout ++ footer 9) 9 true)
    [] demo_layout (footer 9) [] eq_refl eq_refl demo_layout_ok).
  exact H.
Defined.

Lemma scan_terminates_witness :
  (scan collect (mkLogFile 0 "a" 0 [x01; x02; x03; x04; x05] 0 false) 0 []).2 <> Panic.
Proof. apply (scan_terminates collect). by intros. Defined.

Lemma newLogFile_finalized_witness :
  newLogFile (C := SimpleCodec.codec) 3 "000003.vlog" (recordBytes [x01] ++ footer 42) =
    Ret (mkLogFile 3 "000003.vlog" 29 (recordBytes [x01] ++ footer 42) 42 true).
Proof.
  apply (newLogFile_finalized 3 "000003.vlog"
    (mkLogFile 3 "000003.vlog" 17 (recordBytes [x01]) 42 false)
    (mkLogFile 3 "000003.vlog" 17 (recordBytes [x01] ++ footer 42) 42 true)).
  - reflexivity.
  - unfold in_i64. simpl. lia.
  - reflexivity.
Defined.

Definition demo_binlog (tp : BinlogType) (s c : Z) : Binlog := mkBinlog tp s c [] [] [] 0 0.

Lemma newLogFile_recovers_witness :
  let b1 := demo_binlog BinlogType_Prewrite 5 0 in
  let b2 := demo_binlog BinlogType_Commit 5 8 in
  let l := [Good (SimpleCodec.enc b1); Good (SimpleCodec.enc b2); Bad [x01; x02]] in
  newLogFile (C := SimpleCodec.codec) 1 "000001.vlog" (layout_bytes l) =
    Ret (mkLogFile 1 "000001.vlog" 148 (layout_bytes l) 8 false) /\
  Forall (fun b => StartTs b <= 8 /\ CommitTs b <= 8) [b1; b2].
Proof.
  intros b1 b2 l.
  apply (newLogFile_recovers 1 "000001.vlog" l [b1; b2]).
  - simpl. repeat split; try done.
    intros i Hi [Hl _]. destruct i as [|[|i]]; simpl in Hl; try lia.
  - constructor; [reflexivity|constructor; [reflexivity|constructor]].
  - right. by vm_compute.
Defined.

(** The footer test is ambiguous: the last record of an open file may end with
    the four bytes of the footer magic, and then reopening takes the file for a
    finalized one and its last record is no longer visited. *)
Theorem footer_ambiguous :
  let p := le_bytes 4 fileEndMagic in
  exists lf, newLogFile (C := SimpleCodec.codec) 0 "000000.vlog" (recordBytes p) = Ret lf /\
    end_ lf = true /\ scan collect lf 0 [] = ([], Ret tt).
Proof. eexists. split; [vm_compute; reflexivity|]. split; vm_compute; reflexivity. Qed.
