(* ===== verification/Vlog.v ===== *)
(** * Vlog
    The value log of a pump ([pump/storage/vlog.go]): a directory of log files,
    appended to by [write], rotated by size, read back by position, scanned in
    order and garbage-collected by timestamp. *)
From Stdlib Require Import Init.Byte Strings.Byte.
From stdpp Require Import base option list sorting strings gmap numbers.
From S2P Require Import Prelude Text Binlog LogFile.

(** ** Options *)

Definition finalizeFileSizeAtClose : Z := 50 * 1024.
Definition fileExt : string := ".vlog".
Definition chanCapacity : Z := 2 ^ 20.

(** The options that influence the storage's behaviour
    ([SlowWriteThreshold] only selects what is logged). *)
Record Options := mkOptions {
  ValueLogFileSize : Z;
  Sync : bool;
  KVChanCapacity : Z;
  StopWriteAtAvailableSpace : Z;
}.

Definition DefaultOptions : Options := mkOptions (500 * 2 ^ 20) true chanCapacity 0.

Definition WithStopWriteAtAvailableSpace (bytes : Z) (o : Options) : Options :=
  mkOptions (ValueLogFileSize o) (Sync o) (KVChanCapacity o) bytes.
Definition WithValueLogFileSize (size : Z) (o : Options) : Options :=
  mkOptions size (Sync o) (KVChanCapacity o) (StopWriteAtAvailableSpace o).
Definition WithKVChanCapacity (capacity : Z) (o : Options) : Options :=
  mkOptions (ValueLogFileSize o) (Sync o) capacity (StopWriteAtAvailableSpace o).
Definition WithSync (sync : bool) (o : Options) : Options :=
  mkOptions (ValueLogFileSize o) sync (KVChanCapacity o) (StopWriteAtAvailableSpace o).

(** ** Requests and value pointers *)

Record request := mkRequest {
  startTS : Z;
  commitTS : Z;
  tp : BinlogType;
  payload : list byte;
  vp : valuePointer;        (* valuePointer *)
  err : option error;
}.

Definition set_vp (p : valuePointer) (r : request) : request :=
  mkRequest (startTS r) (commitTS r) (tp r) (payload r) p (err r).

(** [(r *request).ts]. *)
Definition request_ts (r : request) : Z :=
  if bool_decide (tp r = BinlogType_Prewrite) then startTS r else commitTS r.

(** [(vp valuePointer).less]. *)
Definition vp_less (vp other : valuePointer) : bool :=
  if negb (Fid vp =? Fid other) then Fid vp <? Fid other
  else Offset vp <? Offset other.

Definition MarshalBinary (vp : valuePointer) : list byte :=
  le_bytes 4 (Fid vp) ++ le_bytes 8 (wrap_u64 (Offset vp)).

Definition UnmarshalBinary (data : list byte) : outcome valuePointer :=
  if len data <? 12 then Fail (Err "not enough data")
  else Ret (mkVP (le_value (take 4 data)) (wrap_i64 (le_value (take 8 (drop 4 data))))).

(** ** The value log *)

Record valueLog := mkValueLog {
  dirPath : string;
  maxFid : Z;
  filesMap : gmap Z logFile;
  opt : Options;
}.

Definition set_maxFid (n : Z) (v : valueLog) : valueLog :=
  mkValueLog (dirPath v) n (filesMap v) (opt v).
Definition set_filesMap (m : gmap Z logFile) (v : valueLog) : valueLog :=
  mkValueLog (dirPath v) (maxFid v) m (opt v).

(** Update the file a descriptor points to. *)
Definition put_file (id : Z) (lf : logFile) (v : valueLog) : valueLog :=
  set_filesMap (<[id := lf]> (filesMap v)) v.

Definition fileName (id : Z) : string := pad0 6 (dec id) +:+ fileExt.

Definition filePath (dir : string) (id : Z) : string := dir +:+ "/" +:+ fileName id.

Definition ErrFidNotFound : error := Err "not found fid".

Definition getFile (v : valueLog) (id : Z) : outcome logFile :=
  match filesMap v !! id with
  | Some lf => Ret lf
  | None => Fail ErrFidNotFound
  end.

Definition readValue (v : valueLog) (p : valuePointer) : outcome (list byte) :=
  let! lf := getFile v (Fid p) in
  let! record := readRecordAt lf (Offset p) in
  Ret (r_payload record).

(** ** Write *)

(** The results of the system calls of one step: a [write], the [fdatasync]
    after it, and an [open].  A schedule of them drives the disk; past its end
    every call succeeds. *)
Record io_res := mkIO { io_w : io_write; io_sync : option error; io_open : option error }.
Definition io_ok : io_res := mkIO WOk None None.

Definition next_io (ios : list io_res) : io_res * list io_res :=
  match ios with [] => (io_ok, []) | i :: ios => (i, ios) end.

Section WithCodec.
Context `{C : Codec}.

(** [createLogFile(fid)]: the file does not exist yet. *)
Definition createLogFile (id : Z) (i : io_res) (v : valueLog) : outcome valueLog :=
  match io_open i with
  | Some e => Fail e
  | None =>
    let! lf := newLogFile id (filePath (dirPath v) id) [] in
    Ret (put_file id lf v)
  end.

(** The variables of [write]: the log, the buffer, the current file, the
    requests whose records are in the buffer, and the pending system calls. *)
Record wstate := mkW {
  w_vlog : valueLog;
  w_buf : list byte;
  w_cur : Z;
  w_bufReqs : list request;
  w_io : list io_res;
}.

(** The closure [rotate]. *)
Definition rotate (st : wstate) : wstate * outcome unit :=
  let v := w_vlog st in
  match filesMap v !! w_cur st with
  | None => (st, Panic)
  | Some curFile =>
    let '(i, ios) := next_io (w_io st) in
    let '(curFile, r) := finalize (io_w i) (io_sync i) curFile in
    let v := put_file (w_cur st) curFile v in
    match r with
    | Ret _ =>
      let id := wrap_u32 (maxFid v + 1) in
      let v := set_maxFid id v in
      let '(i, ios) := next_io ios in
      match createLogFile id i v with
      | Ret v => (mkW v (w_buf st) id (w_bufReqs st) ios, Ret tt)
      | Fail e => (mkW v (w_buf st) (w_cur st) (w_bufReqs st) ios, Fail e)
      | Panic => (mkW v (w_buf st) (w_cur st) (w_bufReqs st) ios, Panic)
      end
    | Fail e => (mkW v (w_buf st) (w_cur st) (w_bufReqs st) ios, Fail e)
    | Panic => (mkW v (w_buf st) (w_cur st) (w_bufReqs st) ios, Panic)
    end
  end.

(** The closure [toDisk]. *)
Definition toDisk (st : wstate) : wstate * outcome unit :=
  let v := w_vlog st in
  match filesMap v !! w_cur st with
  | None => (st, Panic)
  | Some curFile =>
    let '(i, ios) := next_io (w_io st) in
    let '(curFile, e) := Write (io_w i) (io_sync i) (w_buf st) (Sync (opt v)) curFile in
    match e with
    | Some e =>
      (mkW (put_file (w_cur st) curFile v) (w_buf st) (w_cur st) (w_bufReqs st) ios, Fail e)
    | None =>
      let curFile :=
        fold_left (fun lf r => updateMaxTS (request_ts r) lf) (w_bufReqs st) curFile in
      let st := mkW (put_file (w_cur st) curFile v) [] (w_cur st) [] ios in
      if ValueLogFileSize (opt v) <? GetWriteOffset curFile then rotate st else (st, Ret tt)
    end
  end.

(** The loop of [write] over the requests: returns the requests with the
    pointers assigned so far. *)
Fixpoint write_loop (reqs : list request) (st : wstate) : wstate * list request * outcome unit :=
  match reqs with
  | [] => (st, [], Ret tt)
  | req :: reqs =>
    match filesMap (w_vlog st) !! w_cur st with
    | None => (st, req :: reqs, Panic)
    | Some curFile =>
      let req := set_vp (mkVP (fid curFile) (GetWriteOffset curFile + len (w_buf st))) req in
      let '(buf, _) := encodeRecord (w_buf st) (payload req) in
      let st := mkW (w_vlog st) buf (w_cur st) (w_bufReqs st ++ [req]) (w_io st) in
      let writeNow :=
        ValueLogFileSize (opt (w_vlog st)) <? GetWriteOffset curFile + len buf in
      let '(st, r) := if writeNow then toDisk st else (st, Ret tt) in
      match r with
      | Ret _ =>
        let '(st, reqs, r) := write_loop reqs st in (st, req :: reqs, r)
      | Fail e => (st, req :: reqs, Fail e)
      | Panic => (st, req :: reqs, Panic)
      end
    end
  end.

(** [(vlog *valueLog).write(reqs)] under the schedule [ios]: the log, the
    requests with their pointers, and the result. *)
Definition write (ios : list io_res) (reqs : list request) (v : valueLog) :
    valueLog * list request * outcome unit :=
  let '(st, reqs, r) := write_loop reqs (mkW v [] (maxFid v) [] ios) in
  match r with
  | Ret _ => let '(st, r) := toDisk st in (w_vlog st, reqs, r)
  | _ => (w_vlog st, reqs, r)
  end.

End WithCodec.

(** ** Scan *)

Definition sortedFids (v : valueLog) : list Z :=
  merge_sort Z.le (elements (dom (filesMap v))).

Section VlogScan.
Context {St : Type}.
Variable fn : valuePointer -> LogRecord -> St -> St * outcome unit.

Fixpoint scan_files (start : valuePointer) (lfs : list logFile) (s : St) : St * outcome unit :=
  match lfs with
  | [] => (s, Ret tt)
  | lf :: lfs =>
    let startOffset := if fid lf =? Fid start then Offset start else 0 in
    match scan fn lf startOffset s with
    | (s, Ret _) => scan_files start lfs s
    | (s, e) => (s, e)
    end
  end.

(** [(vlog *valueLog).scan(start, fn)]. *)
Definition vlog_scan (start : valuePointer) (v : valueLog) (s : St) : St * outcome unit :=
  let fids := filter (fun id => Fid start <= id) (sortedFids v) in
  scan_files start (omap (fun id => filesMap v !! id) fids) s.

End VlogScan.

Section ScanRequests.
Context `{C : Codec} {St : Type}.
Variable fn : request -> St -> St * outcome unit.

(** The function [scanRequests] passes to [scan]. *)
Definition scanRequests_fn (p : valuePointer) (record : LogRecord) (s : St) : St * outcome unit :=
  match unmarshal (r_payload record) with
  | Fail e => (s, Fail e)
  | Panic => (s, Panic)
  | Ret binlog =>
    if (StartTs binlog =? 0) && (CommitTs binlog =? 0) then (s, Ret tt)
    else fn (mkRequest (StartTs binlog) (CommitTs binlog) (Tp binlog) [] p None) s
  end.

Definition scanRequests (start : valuePointer) (v : valueLog) (s : St) : St * outcome unit :=
  vlog_scan scanRequests_fn start v s.

End ScanRequests.

(** ** Garbage collection *)

(** [(vlog *valueLog).gcTS]: the log, and the paths of the removed files. *)
Definition gcTS (ts : Z) (v : valueLog) : valueLog * list string :=
  let toDelete :=
    filter (fun kf => fid kf.2 <> maxFid v /\ maxTS kf.2 <= ts) (map_to_list (filesMap v)) in
  (set_filesMap (fold_right (fun kf m => delete (fid kf.2) m) (filesMap v) toDelete) v,
   (fun kf => path kf.2) <$> toDelete).

(** ** Open and close *)

Inductive dirent :=
  | File (c : list byte)
  | Dir.

Section OpenClose.
Context `{C : Codec}.

(** [os.OpenFile] with [O_CREATE] on a path of the directory. *)
Definition open_contents (dir : gmap string dirent) (name : string) : outcome (list byte) :=
  match dir !! name with
  | Some (File c) => Ret c
  | Some Dir => Fail (Err "is a directory")
  | None => Ret []
  end.

(** The loop of [openOrCreateFiles] over the directory entries. *)
Fixpoint open_files (dir : gmap string dirent) (names : list string) (v : valueLog) :
    outcome valueLog :=
  match names with
  | [] => Ret v
  | fName :: names =>
    match dir !! fName with
    | Some (File _) =>
      if negb (has_suffix fileExt fName) then open_files dir names v
      else
        let! id := parse_uint 32 (trim_suffix fileExt fName) in
        let! c := open_contents dir (fileName id) in
        let! lf := newLogFile id (filePath (dirPath v) id) c in
        let v := put_file id lf v in
        let v := if maxFid v <? id then set_maxFid id v else v in
        open_files dir names v
    | _ => open_files dir names v
    end
  end.

(** [newValueLog(valueDir, options)], that is [open] and [openOrCreateFiles]:
    [os.ReadDir] lists the names in order; [i] is the result of creating a
    file. *)
Definition newValueLog (dpath : string) (o : Options) (dir : gmap string dirent) (i : io_res) :
    outcome valueLog :=
  let! v :=
    open_files dir (merge_sort String.le (elements (dom dir))) (mkValueLog dpath 0 ∅ o) in
  if bool_decide (filesMap v = ∅) then createLogFile 0 i v
  else
    match filesMap v !! maxFid v with
    | None => Panic
    | Some curFile =>
      if end_ curFile then
        let v := set_maxFid (wrap_u32 (maxFid v + 1)) v in
        createLogFile (maxFid v) i v
      else Ret v
    end.

(** [(vlog *valueLog).close]; [closeErr] is the error of the first descriptor
    that fails to close. *)
Definition vlog_close (i : io_res) (closeErr : option error) (v : valueLog) :
    valueLog * outcome unit :=
  match filesMap v !! maxFid v with
  | None => (v, Panic)
  | Some curFile =>
    let '(curFile, r) :=
      if finalizeFileSizeAtClose <=? GetWriteOffset curFile
      then finalize (io_w i) (io_sync i) curFile else (curFile, Ret tt) in
    let v := put_file (maxFid v) curFile v in
    match r with
    | Ret _ => (v, match closeErr with Some e => Fail e | None => Ret tt end)
    | _ => (v, r)
    end
  end.

End OpenClose.

(** ** Value pointers: order and encoding *)

Definition vp_lt (p q : valuePointer) : Prop := vp_less p q = true.

Lemma vp_lt_spec p q :
  vp_lt p q <-> Fid p < Fid q \/ (Fid p = Fid q /\ Offset p < Offset q).
Proof.
  unfold vp_lt, vp_less. destruct (Z.eqb_spec (Fid p) (Fid q)); simpl;
    rewrite Z.ltb_lt; lia.
Qed.

#[export] Instance vp_lt_trans : Transitive vp_lt.
Proof. intros p q r. rewrite !vp_lt_spec. lia. Qed.

#[export] Instance vp_lt_irrefl : Irreflexive vp_lt.
Proof. intros p. unfold complement. rewrite vp_lt_spec. lia. Qed.

#[export] Instance vp_lt_dec p q : Decision (vp_lt p q).
Proof. unfold vp_lt. apply _. Defined.

Lemma vp_lt_trichotomy p q : vp_lt p q \/ p = q \/ vp_lt q p.
Proof.
  rewrite !vp_lt_spec. destruct p as [f o], q as [f' o']; simpl.
  destruct (Z.lt_trichotomy f f') as [?|[->|?]]; [tauto| |tauto].
  destruct (Z.lt_trichotomy o o') as [?|[->|?]]; tauto.
Qed.

Definition vp_ok (p : valuePointer) : Prop := in_u32 (Fid p) /\ in_i64 (Offset p).

Lemma UnmarshalBinary_app p rest :
  vp_ok p -> UnmarshalBinary (MarshalBinary p ++ rest) = Ret p.
Proof.
  intros [Hf Ho]. unfold UnmarshalBinary, MarshalBinary. rewrite <- app_assoc.
  destruct (Z.ltb_spec (len (le_bytes 4 (Fid p) ++ le_bytes 8 (wrap_u64 (Offset p)) ++ rest)) 12)
    as [Hl|_].
  { rewrite !len_app, !length_le_bytes in Hl. lia. }
  rewrite take_app_length', drop_app_length' by (by rewrite length_le_bytes).
  rewrite take_app_length' by (by rewrite length_le_bytes).
  rewrite le_value_u32, le_value_u64 by (done || apply wrap_u64_range).
  rewrite wrap_i64_u64 by done. by destruct p.
Qed.

Lemma UnmarshalBinary_Marshal p : vp_ok p -> UnmarshalBinary (MarshalBinary p) = Ret p.
Proof. intros Hp. rewrite <- (app_nil_r (MarshalBinary p)). by apply UnmarshalBinary_app. Qed.

(** A value pointer survives its binary encoding, with any bytes behind it. *)
Theorem valuePointer_roundtrip p rest :
  vp_ok p -> UnmarshalBinary (MarshalBinary p ++ rest) = Ret p.
Proof. apply UnmarshalBinary_app. Qed.

(** A buffer shorter than a value pointer is refused. *)
Theorem UnmarshalBinary_short data :
  len data < 12 -> UnmarshalBinary data = Fail (Err "not enough data").
Proof. intros H. unfold UnmarshalBinary. destruct (Z.ltb_spec (len data) 12); [done|lia]. Qed.

(** ** The abstract log
    A value log is, abstractly, a list of files in the order of their ids, each
    a list of payloads; its entries are the positions and the payloads. *)

Abbreviation alog := (list (Z * list (list byte))).

Definition data_bytes (l : list (list byte)) : list byte := concat (recordBytes <$> l).

#[global] Arguments data_bytes : simpl never.

Lemma len_data_cons p l : len (data_bytes (p :: l)) = len (recordBytes p) + len (data_bytes l).
Proof. apply (len_app (recordBytes p)). Qed.

Fixpoint file_entries (id off : Z) (l : list (list byte)) : list (valuePointer * list byte) :=
  match l with
  | [] => []
  | p :: l => (mkVP id off, p) :: file_entries id (off + len (recordBytes p)) l
  end.

Definition entries (A : alog) : list (valuePointer * list byte) :=
  concat ((fun f : Z * list (list byte) => file_entries f.1 0 f.2) <$> A).

Lemma data_bytes_app l1 l2 : data_bytes (l1 ++ l2) = data_bytes l1 ++ data_bytes l2.
Proof. unfold data_bytes. by rewrite fmap_app, concat_app. Qed.

Lemma data_bytes_singleton p : data_bytes [p] = recordBytes p.
Proof. apply app_nil_r. Qed.

Lemma data_bytes_layout l : data_bytes l = layout_bytes (Good <$> l).
Proof. unfold data_bytes, layout_bytes. by rewrite <- list_fmap_compose. Qed.

Lemma file_entries_app id off l1 l2 :
  file_entries id off (l1 ++ l2) =
    file_entries id off l1 ++ file_entries id (off + len (data_bytes l1)) l2.
Proof.
  revert off. induction l1 as [|p l1 IH]; intros off.
  - simpl. f_equal. change (len (data_bytes [])) with 0. lia.
  - cbn [file_entries app]. by rewrite IH, len_data_cons, Z.add_assoc.
Qed.

Lemma entries_snoc A id l : entries (A ++ [(id, l)]) = entries A ++ file_entries id 0 l.
Proof. unfold entries. rewrite fmap_app, concat_app. simpl. by rewrite app_nil_r. Qed.

Lemma file_entries_In id off l p payl :
  (p, payl) ∈ file_entries id off l ->
  Fid p = id /\ off <= Offset p < off + len (data_bytes l) /\
  exists l1 l2, l = l1 ++ payl :: l2 /\ Offset p = off + len (data_bytes l1).
Proof.
  revert off. induction l as [|q l IH]; intros off; cbn [file_entries]; [by intros ?%elem_of_nil|].
  rewrite len_data_cons. pose proof (len_recordBytes q) as Hq. unfold headerLength in Hq.
  intros [[= -> ->]|H]%elem_of_cons.
  - cbn [Fid Offset]. split; [done|]. split; [lia|].
    exists [], l. split; [done|]. change (len (data_bytes [])) with 0. lia.
  - apply IH in H as (? & ? & l1 & l2 & -> & Ho). split; [done|]. split; [lia|].
    exists (q :: l1), l2. split; [done|].
    rewrite len_data_cons. lia.
Qed.

Section Repr.
Context `{C : Codec}.

(** The timestamp a binlog is filed under. *)
Definition binlog_ts (b : Binlog) : Z :=
  if bool_decide (Tp b = BinlogType_Prewrite) then StartTs b else CommitTs b.

Definition payload_ok (m : Z) (p : list byte) : Prop :=
  len p <= maxAlloc /\
  exists b, unmarshal p = Ret b /\ binlog_ts b <= m /\ StartTs b < 2 ^ 63 /\ CommitTs b < 2 ^ 63.

(** A file on disk holds the payloads [l], its maximal timestamp bounds theirs,
    and while it is open it is appended to at its end. *)
Definition file_repr (id : Z) (l : list (list byte)) (lf : logFile) : Prop :=
  fid lf = id /\
  fd lf = data_bytes l ++ (if end_ lf then footer (maxTS lf) else []) /\
  (end_ lf = false -> writeOffset lf = len (fd lf)) /\
  Forall (payload_ok (maxTS lf)) l /\ 0 <= maxTS lf < 2 ^ 63.

(** The log [v] represents the files [A0] followed by the current file, which
    holds [l] and is open for append. *)
Record repr (v : valueLog) (A0 : alog) (l : list (list byte)) : Prop := {
  repr_files :
    map_Forall2 file_repr (<[maxFid v := l]> (list_to_map A0 : gmap Z (list (list byte)))) (filesMap v);
  repr_sorted : StronglySorted Z.lt (A0.*1 ++ [maxFid v]);
  repr_fids : Forall (fun id => 0 <= id < 2 ^ 32) (A0.*1 ++ [maxFid v]);
  repr_cur : exists lf, filesMap v !! maxFid v = Some lf /\ end_ lf = false;
}.

(** The whole abstract log of a state. *)
Abbreviation whole v A0 l := (A0 ++ [(maxFid v, l)]).

Lemma repr_map v A0 l :
  repr v A0 l ->
  map_Forall2 file_repr (list_to_map (whole v A0 l) : gmap Z (list (list byte))) (filesMap v).
Proof.
  intros [Hf Hs _ _]. rewrite list_to_map_snoc; [done|].
  intros Hin. assert (maxFid v < maxFid v); [|lia].
  eapply StronglySorted_app_1_elem_of; [exact Hs|done|by apply list_elem_of_singleton].
Qed.

Lemma repr_maxFid v A0 l : repr v A0 l -> 0 <= maxFid v < 2 ^ 32.
Proof.
  intros [_ _ Hb _]. apply (proj1 (Forall_forall _ _) Hb), in_or_app. right. by left.
Qed.

Lemma repr_cur_file v A0 l :
  repr v A0 l ->
  exists lf, filesMap v !! maxFid v = Some lf /\ end_ lf = false /\ file_repr (maxFid v) l lf.
Proof.
  intros [Hf _ _ (lf & Hlf & Hend)]. exists lf. split; [done|]. split; [done|].
  specialize (Hf (maxFid v)). rewrite Hlf, lookup_insert_eq in Hf. by inversion Hf.
Qed.

Lemma repr_update v A0 l l' lf :
  repr v A0 l -> file_repr (maxFid v) l' lf -> end_ lf = false ->
  repr (put_file (maxFid v) lf v) A0 l'.
Proof.
  intros [Hf Hs Hb _] Hlf Hend. constructor; simpl; [|done|done|].
  - rewrite <- (insert_insert_eq (list_to_map A0 : gmap _ _) (maxFid v) l' l).
    by apply map_Forall2_insert_2.
  - exists lf. by rewrite lookup_insert_eq.
Qed.

Lemma newLogFile_empty id name : newLogFile id name [] = Ret (mkLogFile id name 0 [] 0 false).
Proof. reflexivity. Qed.

Lemma StronglySorted_snoc_lt l x y :
  StronglySorted Z.lt (l ++ [x]) -> x < y -> StronglySorted Z.lt ((l ++ [x]) ++ [y]).
Proof.
  intros Hs Hxy. apply StronglySorted_app_2; [|done|apply SSorted_cons; constructor].
  intros a b Ha ->%list_elem_of_singleton.
  apply elem_of_app in Ha as [Ha| ->%list_elem_of_singleton]; [|done].
  trans x; [|done]. eapply StronglySorted_app_1_elem_of; [exact Hs|done|by apply list_elem_of_singleton].
Qed.

Lemma repr_rotate v A0 l lf n id :
  repr v A0 l -> file_repr (maxFid v) l lf -> id = maxFid v + 1 -> id < 2 ^ 32 ->
  repr (put_file id (mkLogFile id n 0 [] 0 false) (set_maxFid id (put_file (maxFid v) lf v)))
    (A0 ++ [(maxFid v, l)]) [].
Proof.
  intros Hr Hlf -> Hid. pose proof (repr_map _ _ _ Hr) as Hm. destruct Hr as [Hf Hs Hb _].
  assert (Hfid : 0 <= maxFid v < 2 ^ 32).
  { apply (proj1 (Forall_forall _ _) Hb), in_or_app. right. by left. }
  constructor; simpl.
  - apply map_Forall2_insert_2.
    + unfold file_repr. simpl. repeat split; try done; lia.
    + rewrite list_to_map_snoc.
      * rewrite <- (insert_insert_eq (list_to_map A0 : gmap _ _) (maxFid v) l l).
        by apply map_Forall2_insert_2.
      * intros Hin. assert (maxFid v < maxFid v); [|lia].
        eapply StronglySorted_app_1_elem_of; [exact Hs|done|by apply list_elem_of_singleton].
  - rewrite fmap_app. simpl. apply StronglySorted_snoc_lt; [done|lia].
  - rewrite fmap_app. simpl. apply Forall_app. split; [done|]. apply Forall_singleton. lia.
  - eexists. rewrite lookup_insert_eq. done.
Qed.

(** ** Writing *)

(** What a request carries: a payload that decodes, filed under its timestamp. *)
Definition req_ok (r : request) : Prop :=
  len (payload r) <= maxAlloc /\ request_ts r < 2 ^ 63 /\
  exists b, unmarshal (payload r) = Ret b /\ binlog_ts b = request_ts r /\
    StartTs b < 2 ^ 63 /\ CommitTs b < 2 ^ 63.

Lemma req_ok_set_vp p r : req_ok r -> req_ok (set_vp p r).
Proof. done. Qed.

Lemma updateMaxTS_fold reqs : forall lf,
  let lf' := fold_left (fun lf r => updateMaxTS (request_ts r) lf) reqs lf in
  fid lf' = fid lf /\ path lf' = path lf /\ fd lf' = fd lf /\
  writeOffset lf' = writeOffset lf /\ end_ lf' = end_ lf /\ maxTS lf <= maxTS lf' /\
  Forall (fun r => request_ts r <= maxTS lf') reqs /\
  (Forall (fun r => request_ts r < 2 ^ 63) reqs -> maxTS lf < 2 ^ 63 -> maxTS lf' < 2 ^ 63).
Proof.
  induction reqs as [|r reqs IH]; intros lf; simpl; [repeat split; auto; lia|].
  destruct (IH (updateMaxTS (request_ts r) lf)) as (-> & -> & -> & -> & -> & Hle & Hall & Hlt).
  assert (Hu : maxTS lf <= maxTS (updateMaxTS (request_ts r) lf) /\
  request_ts r <= maxTS (updateMaxTS (request_ts r) lf) /\
  (request_ts r < 2 ^ 63 -> maxTS lf < 2 ^ 63 ->
                maxTS (updateMaxTS (request_ts r) lf) < 2 ^ 63)).
  { unfold updateMaxTS. destruct (Z.ltb_spec (maxTS lf) (request_ts r)); simpl; lia. }
  assert (Hsame : fid (updateMaxTS (request_ts r) lf) = fid lf /\
  path (updateMaxTS (request_ts r) lf) = path lf /\
  fd (updateMaxTS (request_ts r) lf) = fd lf /\
  writeOffset (updateMaxTS (request_ts r) lf) = writeOffset lf /\
  end_ (updateMaxTS (request_ts r) lf) = end_ lf).
  { unfold updateMaxTS. by destruct (_ <? _). }
  destruct Hsame as (-> & -> & -> & -> & ->), Hu as (H1 & H2 & H3).
  repeat split; [lia|constructor; [lia|done]|].
  intros Hr ?. inversion_clear Hr. auto.
Qed.

(** Appending the buffered records to the current file keeps it well formed. *)
Lemma file_repr_append id l lf reqs :
  file_repr id l lf -> end_ lf = false -> Forall req_ok reqs ->
  let buf := data_bytes (payload <$> reqs) in
  let lf1 := IncWriteOffset (len buf) (set_fd (fd lf ++ buf) lf) in
  let lf2 := fold_left (fun lf r => updateMaxTS (request_ts r) lf) reqs lf1 in
  file_repr id (l ++ (payload <$> reqs)) lf2 /\ end_ lf2 = false.
Proof.
  intros (Hid & Hfd & Hoff & Hall & Hts) Hend Hreqs buf lf1 lf2.
  destruct (updateMaxTS_fold reqs lf1) as (H1 & _ & H3 & H4 & H5 & H6 & H7 & H8).
  fold lf2 in H1, H3, H4, H5, H6, H7, H8.
  rewrite Hend, app_nil_r in Hfd. simpl in H1, H3, H4, H5, H6, H8.
  split; [|by rewrite H5]. unfold file_repr.
  rewrite H1, H3, H4, H5, Hend, Hfd, app_nil_r, data_bytes_app.
  split; [done|]. split; [done|]. split.
  { intros _. rewrite Hoff, Hfd, len_app by done. done. }
  split.
  - apply Forall_app. split.
    + eapply Forall_impl; [|exact Hall]. intros p (? & b & ? & ? & ? & ?). split; [done|].
      exists b. split; [done|]. split; [lia|done].
    + apply Forall_fmap. revert Hreqs H7. rewrite !Forall_forall. intros Hq H7 r Hr.
      destruct (Hq r Hr) as (? & ? & b & ? & ? & ? & ?). split; [done|]. exists b. split; [done|].
      specialize (H7 r Hr). simpl in H7. split; [lia|done].
  - split; [lia|]. apply H8; [|lia].
    eapply Forall_impl; [|exact Hreqs]. intros r (? & ? & ?). done.
Qed.

Lemma file_repr_finalize id l lf :
  file_repr id l lf -> end_ lf = false ->
  exists lf', finalize WOk None lf = (lf', Ret tt) /\ file_repr id l lf'.
Proof.
  intros (Hid & Hfd & Hoff & Hall & Hts) Hend. unfold finalize. rewrite Hend.
  cbn [fd_write]. eexists. split; [done|]. rewrite Hend, app_nil_r in Hfd.
  repeat split; simpl; try done; [by rewrite Hfd|lia..].
Qed.

(** The state of [write] between two requests: the log represents [A0] and [l],
    and the buffer holds the records of the buffered requests. *)
Record winv (st : wstate) (A0 : alog) (l : list (list byte)) : Prop := {
  winv_repr : repr (w_vlog st) A0 l;
  winv_cur : w_cur st = maxFid (w_vlog st);
  winv_buf : w_buf st = data_bytes (payload <$> w_bufReqs st);
  winv_reqs : Forall req_ok (w_bufReqs st);
  winv_io : w_io st = [];
}.

(** The entries of the log once the buffer is flushed. *)
Definition wentries (st : wstate) (A0 : alog) (l : list (list byte)) :
    list (valuePointer * list byte) :=
  entries (A0 ++ [(maxFid (w_vlog st), l ++ (payload <$> w_bufReqs st))]).

(** What the closures leave alone. *)
Definition same_config (v v' : valueLog) : Prop :=
  opt v' = opt v /\ dirPath v' = dirPath v.

Lemma rotate_ok v cur l A0 :
  repr v A0 l -> cur = maxFid v -> maxFid v + 1 < 2 ^ 32 ->
  exists st', rotate (mkW v [] cur [] []) = (st', Ret tt) /\
    winv st' (A0 ++ [(maxFid v, l)]) [] /\ w_bufReqs st' = [] /\
    same_config v (w_vlog st') /\ maxFid (w_vlog st') = maxFid v + 1.
Proof.
  intros Hr -> Hfid. unfold rotate. simpl.
  destruct (repr_cur_file _ _ _ Hr) as (lf & Hlf & Hend & Hrep). rewrite Hlf.
  destruct (file_repr_finalize _ _ _ Hrep Hend) as (lf' & -> & Hrep').
  pose proof (repr_maxFid _ _ _ Hr).
  assert (Hw : wrap_u32 (maxFid v + 1) = maxFid v + 1)
    by (unfold wrap_u32; apply Z.mod_small; lia).
  simpl. rewrite Hw.
  eexists. split; [done|]. split; [|done].
  constructor; simpl; try done.
  apply repr_rotate; done.
Qed.

Lemma Write_ok data sync lf :
  Write WOk None data sync lf = (IncWriteOffset (len data) (set_fd (fd lf ++ data) lf), None).
Proof. by destruct sync. Qed.

Lemma entries_nil_file A id : entries (A ++ [(id, [])]) = entries A.
Proof. rewrite entries_snoc. apply app_nil_r. Qed.

Lemma toDisk_ok st A0 l :
  winv st A0 l -> maxFid (w_vlog st) + 1 < 2 ^ 32 ->
  exists st' A0' l', toDisk st = (st', Ret tt) /\ winv st' A0' l' /\ w_bufReqs st' = [] /\
    wentries st' A0' l' = wentries st A0 l /\ same_config (w_vlog st) (w_vlog st') /\
    maxFid (w_vlog st') <= maxFid (w_vlog st) + 1.
Proof.
  intros [Hr Hcur Hbuf Hreqs Hio] Hfid. unfold toDisk. rewrite Hcur, Hio.
  destruct (repr_cur_file _ _ _ Hr) as (lf & -> & Hend & Hrep).
  cbn [next_io io_ok io_w io_sync]. rewrite Write_ok, Hbuf.
  destruct (file_repr_append _ _ _ _ Hrep Hend Hreqs) as [Hrep2 Hend2].
  set (lf2 := fold_left _ _ _) in *.
  pose proof (repr_update _ _ _ _ _ Hr Hrep2 Hend2) as Hr2.
  destruct (_ <? _).
  - destruct (rotate_ok _ (maxFid (w_vlog st)) _ _ Hr2 eq_refl Hfid)
      as (st' & -> & Hinv & Hb & Hsame & Hm).
    eexists _, _, _. split; [done|]. split; [exact Hinv|]. split; [done|].
    split; [|split; [done|simpl in Hm; lia]].
    unfold wentries. rewrite Hb. apply entries_nil_file.
  - eexists _, A0, _. split; [done|]. split; [constructor; simpl; done|].
    split; [done|]. split; [|split; [done|simpl; lia]].
    unfold wentries. simpl. by rewrite app_nil_r.
Qed.

Lemma write_loop_ok reqs : forall st A0 l,
  winv st A0 l -> Forall req_ok reqs -> maxFid (w_vlog st) + len reqs + 1 < 2 ^ 32 ->
  exists st' reqs' A0' l', write_loop reqs st = (st', reqs', Ret tt) /\ winv st' A0' l' /\
    payload <$> reqs' = payload <$> reqs /\ request_ts <$> reqs' = request_ts <$> reqs /\
    wentries st' A0' l' = wentries st A0 l ++ zip (vp <$> reqs') (payload <$> reqs) /\
    same_config (w_vlog st) (w_vlog st') /\
    maxFid (w_vlog st') <= maxFid (w_vlog st) + len reqs.
Proof.
  induction reqs as [|req reqs IH]; intros st A0 l Hinv Hreqs Hfid.
  { eexists _, _, A0, l. split; [done|]. rewrite app_nil_r.
    do 4 (split; [done|]). split; [done|]. simpl. lia. }
  apply Forall_cons_iff in Hreqs as [Hreq Hreqs].
  pose proof Hinv as [Hr Hcur Hbuf Hbufreqs Hio].
  destruct (repr_cur_file _ _ _ Hr) as (lf & Hlf & Hend & Hid & Hfd & Hoff & _ & _).
  cbn [write_loop]. rewrite Hcur, Hlf, encodeRecord_bytes.
  set (req' := set_vp _ req). set (st1 := mkW _ _ _ _ _).
  assert (Hinv1 : winv st1 A0 l).
  { constructor; simpl; try done.
    - by rewrite fmap_app, data_bytes_app, Hbuf, <- data_bytes_singleton.
    - apply Forall_app. split; [done|]. by constructor. }
  assert (Hent1 : wentries st1 A0 l = wentries st A0 l ++ [(vp req', payload req')]).
  { unfold wentries. simpl. rewrite fmap_app, app_assoc, !entries_snoc, file_entries_app, app_assoc.
    do 2 f_equal. simpl. do 2 f_equal. rewrite Hid. f_equal.
    unfold GetWriteOffset. rewrite (Hoff Hend), Hfd, Hend, app_nil_r, data_bytes_app, len_app, Hbuf.
    lia. }
  assert (Hstep : exists st2 A2 l2,
    (if ValueLogFileSize (opt (w_vlog st1)) <?
        GetWriteOffset lf + len (w_buf st ++ recordBytes (payload req'))
     then toDisk st1 else (st1, Ret tt)) = (st2, Ret tt) /\ winv st2 A2 l2 /\
    wentries st2 A2 l2 = wentries st1 A0 l /\ same_config (w_vlog st) (w_vlog st2) /\
    maxFid (w_vlog st2) <= maxFid (w_vlog st) + 1).
  { destruct (_ <? _).
    - destruct (toDisk_ok st1 A0 l Hinv1) as (st2 & A2 & l2 & ? & ? & _ & ? & ? & ?);
        [simpl length in Hfid; simpl; lia|]. exists st2, A2, l2. done.
    - exists st1, A0, l. do 3 (split; [done|]). split; [done|]. simpl. lia. }
  destruct Hstep as (st2 & A2 & l2 & -> & Hinv2 & Hent2 & [Hopt Hdir] & Hmax2).
  destruct (IH st2 A2 l2 Hinv2 Hreqs) as (st3 & reqs' & A3 & l3 & -> & Hinv3 & Hpay & Hts & Hent3 & [? ?] & ?);
    [simpl length in Hfid; lia|].
  eexists _, (req' :: reqs'), A3, l3. split; [done|]. split; [done|].
  split; [simpl; by f_equal|]. split; [simpl; by f_equal|].
  split; [|split; [split; congruence|simpl length; lia]].
  rewrite Hent3, Hent2, Hent1, <- app_assoc. done.
Qed.

Lemma elem_of_entries (A : alog) p payl :
  (p, payl) ∈ entries A <-> exists l, (Fid p, l) ∈ A /\ (p, payl) ∈ file_entries (Fid p) 0 l.
Proof.
  unfold entries. rewrite list_elem_of_In, in_concat. setoid_rewrite in_map_iff. split.
  - intros (es & ([id l] & <- & Hin) & He). apply list_elem_of_In in Hin. apply list_elem_of_In in He.
    simpl in He. pose proof (file_entries_In _ _ _ _ _ He) as (<- & _). by exists l.
  - intros (l & Hin & He). exists (file_entries (Fid p) 0 l).
    rewrite <- !list_elem_of_In. split; [|done]. exists (Fid p, l).
    by rewrite <- list_elem_of_In.
Qed.

Lemma sorted_fids_NoDup v A0 l : repr v A0 l -> NoDup ((whole v A0 l).*1).
Proof.
  intros [_ Hs _ _]. rewrite fmap_app. simpl. revert Hs.
  generalize (A0.*1 ++ [maxFid v]). induction 1 as [|x xs _ IH Hx]; constructor; [|done].
  rewrite Forall_forall in Hx. intros Hin. apply list_elem_of_In, Hx in Hin. lia.
Qed.

Lemma repr_file v A0 l id li :
  repr v A0 l -> (id, li) ∈ whole v A0 l ->
  exists lf, filesMap v !! id = Some lf /\ file_repr id li lf.
Proof.
  intros Hr Hin. pose proof (repr_map _ _ _ Hr id) as Hf.
  rewrite (proj1 (elem_of_list_to_map _ _ _ (sorted_fids_NoDup _ _ _ Hr)) Hin) in Hf.
  inversion Hf as [? lf H1 H2|]; subst. eauto.
Qed.

Lemma data_bytes_split l1 p l2 :
  data_bytes (l1 ++ p :: l2) = data_bytes l1 ++ recordBytes p ++ data_bytes l2.
Proof. by rewrite data_bytes_app. Qed.

(** Every entry of the log can be read at its position. *)
Lemma readValue_entry v A0 l p payl :
  repr v A0 l -> (p, payl) ∈ entries (whole v A0 l) -> readValue v p = Ret payl.
Proof.
  intros Hr (li & Hin & He)%elem_of_entries.
  destruct (repr_file _ _ _ _ _ Hr Hin) as (lf & Hlf & _ & Hfd & _ & Hall & _).
  apply file_entries_In in He as (_ & _ & l1 & l2 & -> & Ho).
  unfold readValue, getFile. rewrite Hlf. step_bind.
  rewrite data_bytes_split, <- !app_assoc in Hfd.
  apply Forall_app in Hall as [_ Hall]. apply Forall_cons_iff in Hall as [[Hlen _] _].
  replace (Offset p) with (len (data_bytes l1)) by lia.
  by rewrite (readRecordAt_record _ _ _ _ Hfd Hlen).
Qed.

Lemma write_appends_ts v A0 l reqs :
  repr v A0 l -> Forall req_ok reqs -> maxFid v + len reqs + 1 < 2 ^ 32 ->
  exists v' reqs' A0' l',
    write [] reqs v = (v', reqs', Ret tt) /\ repr v' A0' l' /\
    payload <$> reqs' = payload <$> reqs /\
    entries (whole v' A0' l') =
      entries (whole v A0 l) ++ zip (vp <$> reqs') (payload <$> reqs) /\
    request_ts <$> reqs' = request_ts <$> reqs.
Proof.
  intros Hr Hreqs Hfid. unfold write.
  destruct (write_loop_ok reqs (mkW v [] (maxFid v) [] []) A0 l)
    as (st1 & reqs' & A1 & l1 & -> & Hinv1 & Hpay & Hts & Hent1 & _ & Hmax); [|done|done|].
  { by constructor. }
  destruct (toDisk_ok st1 A1 l1 Hinv1) as (st2 & A2 & l2 & -> & Hinv2 & Hb & Hent2 & _ & _);
    [simpl in Hmax; lia|].
  eexists _, _, A2, l2. split; [done|]. split; [apply Hinv2|]. split; [done|]. split; [|done].
  unfold wentries in Hent1, Hent2. rewrite Hb, app_nil_r in Hent2.
  rewrite Hent2, Hent1. simpl. by rewrite app_nil_r.
Qed.

Lemma write_appends v A0 l reqs :
  repr v A0 l -> Forall req_ok reqs -> maxFid v + len reqs + 1 < 2 ^ 32 ->
  exists v' reqs' A0' l',
    write [] reqs v = (v', reqs', Ret tt) /\ repr v' A0' l' /\
    payload <$> reqs' = payload <$> reqs /\
    entries (whole v' A0' l') =
      entries (whole v A0 l) ++ zip (vp <$> reqs') (payload <$> reqs).
Proof.
  intros Hr Hreqs Hfid.
  destruct (write_appends_ts v A0 l reqs Hr Hreqs Hfid) as (v' & reqs' & A' & l' & ? & ? & ? & ? & _).
  by exists v', reqs', A', l'.
Qed.

(** C34: a successful [write] appends its records, in order, to the log: every
    request receives the position at which its payload is read back, every
    earlier position still reads the same payload, and the log stays well formed
    (rotating files by size on the way). *)
Theorem write_readback v A0 l reqs :
  repr v A0 l -> Forall req_ok reqs -> maxFid v + len reqs + 1 < 2 ^ 32 ->
  exists v' reqs' A0' l',
    write [] reqs v = (v', reqs', Ret tt) /\ repr v' A0' l' /\
    payload <$> reqs' = payload <$> reqs /\
    entries (whole v' A0' l') =
      entries (whole v A0 l) ++ zip (vp <$> reqs') (payload <$> reqs) /\
    Forall (fun r => readValue v' (vp r) = Ret (payload r)) reqs' /\
    forall p payl, (p, payl) ∈ entries (whole v A0 l) -> readValue v' p = Ret payl.
Proof.
  intros Hr Hreqs Hfid.
  destruct (write_appends v A0 l reqs Hr Hreqs Hfid)
    as (v2 & reqs' & A2 & l2 & Hw & Hr2 & Hpay & Hent).
  exists v2, reqs', A2, l2. do 4 (split; [done|]). split.
  - apply Forall_forall. intros r Hin. eapply readValue_entry; [exact Hr2|].
    rewrite Hent, <- Hpay. apply elem_of_app. right.
    apply list_elem_of_In, list_elem_of_lookup in Hin as [i Hi].
    apply list_elem_of_lookup. exists i. rewrite lookup_zip_with, !list_lookup_fmap, Hi. done.
  - intros p payl Hin. eapply readValue_entry; [exact Hr2|].
    rewrite Hent. apply elem_of_app. by left.
Qed.

(** The entries of a log are in the order of their positions. *)
Lemma file_entries_sorted id off l : StronglySorted vp_lt ((file_entries id off l).*1).
Proof.
  revert off. induction l as [|p l IH]; intros off; cbn [file_entries fmap list_fmap]; constructor; [done|].
  apply Forall_forall. intros q Hq. apply list_elem_of_In, list_elem_of_fmap in Hq as ([q' payl] & -> & Hq).
  apply file_entries_In in Hq as (? & ? & _). pose proof (len_recordBytes p) as Hp.
  unfold headerLength in Hp. apply vp_lt_spec. simpl Fid. simpl Offset. simpl fst. lia.
Qed.

Lemma entries_sorted A : StronglySorted Z.lt A.*1 -> StronglySorted vp_lt ((entries A).*1).
Proof.
  induction A as [|[id l] A IH]; intros Hs; [constructor|].
  cbn [fmap list_fmap fst] in Hs. apply StronglySorted_inv in Hs as [Hs Hid].
  change (entries ((id, l) :: A)) with (file_entries id 0 l ++ entries A).
  rewrite fmap_app. apply StronglySorted_app_2; [|apply file_entries_sorted|by apply IH].
  intros p q Hp Hq.
  apply list_elem_of_fmap in Hp as ([p' ?] & -> & Hp), Hq as ([q' ?] & -> & Hq).
  apply file_entries_In in Hp as (Hpid & _). apply elem_of_entries in Hq as (lq & Hq & _).
  apply vp_lt_spec. left. simpl. rewrite Hpid. rewrite Forall_forall in Hid.
  apply Hid, list_elem_of_In, list_elem_of_fmap. by exists (Fid q', lq).
Qed.

(** The positions a [write] assigns increase strictly with the order of the
    requests and are all beyond every position already in the log, so scanning
    from a recorded position never misses a later request. *)
Theorem write_positions_increase v A0 l reqs v' reqs' r :
  repr v A0 l -> Forall req_ok reqs -> maxFid v + len reqs + 1 < 2 ^ 32 ->
  write [] reqs v = (v', reqs', r) ->
  StronglySorted vp_lt ((entries (whole v A0 l)).*1 ++ (vp <$> reqs')).
Proof.
  intros Hr Hreqs Hfid Hw.
  destruct (write_appends v A0 l reqs Hr Hreqs Hfid)
    as (v2 & reqs2 & A2 & l2 & Hw2 & Hr2 & Hpay & Hent).
  rewrite Hw in Hw2. simplify_eq.
  assert (Hz : vp <$> reqs2 = (zip (vp <$> reqs2) (payload <$> reqs)).*1).
  { rewrite fst_zip; [done|]. apply (f_equal length) in Hpay.
    rewrite !length_fmap in *. lia. }
  rewrite Hz, <- fmap_app, <- Hent. apply entries_sorted.
  rewrite fmap_app. apply Hr2.
Qed.

(** ** Scanning *)

Section ScanSpec.
Context {St : Type}.
Variable fn : valuePointer -> LogRecord -> St -> St * outcome unit.

(** The visitor is called on the entries in order, until one call fails. *)
Fixpoint visit_entries (es : list (valuePointer * list byte)) (s : St) : St * outcome unit :=
  match es with
  | [] => (s, Ret tt)
  | (p, payl) :: es =>
    match fn p (recordOf payl) s with
    | (s, Ret _) => visit_entries es s
    | (s, e) => (s, e)
    end
  end.

Lemma visit_entries_app es1 es2 s :
  visit_entries (es1 ++ es2) s =
    match visit_entries es1 s with
    | (s, Ret _) => visit_entries es2 s
    | (s, e) => (s, e)
    end.
Proof.
  revert s. induction es1 as [|[p payl] es1 IH]; intros s; [done|].
  cbn [app visit_entries]. by destruct (fn p _ s) as [s' []].
Qed.

Lemma visit_good id l : forall off s,
  visit fn id off (Good <$> l) s = visit_entries (file_entries id off l) s.
Proof.
  induction l as [|p l IH]; intros off s; [done|].
  cbn [fmap list_fmap visit file_entries visit_entries].
  destruct (fn _ _ s) as [s' []]; [apply IH|done..].
Qed.

Lemma layout_ok_good l : Forall (fun p => len p < 2 ^ 63) l -> layout_ok (Good <$> l).
Proof. induction 1; simpl; auto. Qed.

Lemma scan_file id l1 l2 lf s :
  file_repr id (l1 ++ l2) lf ->
  scan fn lf (len (data_bytes l1)) s =
    visit_entries (file_entries id (len (data_bytes l1)) l2) s.
Proof.
  intros (Hid & Hfd & _ & Hall & Hts). rewrite <- visit_good, <- Hid.
  apply (scan_layout fn lf _ _ (if end_ lf then footer (maxTS lf) else [])).
  - by rewrite <- data_bytes_layout, Hfd, data_bytes_app, app_assoc.
  - unfold tail_ok. destruct (end_ lf); [|done].
    unfold footer. rewrite len_app, !length_le_bytes. done.
  - apply layout_ok_good. apply Forall_app in Hall as [_ Hall].
    eapply Forall_impl; [|exact Hall]. intros p [Hp _]. unfold maxAlloc in Hp. lia.
Qed.

Lemma sortedFids_repr v A0 l : repr v A0 l -> sortedFids v = (whole v A0 l).*1.
Proof.
  intros Hr. unfold sortedFids. apply (Sorted_unique Z.le).
  - apply Sorted_merge_sort. apply _.
  - apply StronglySorted_Sorted. rewrite fmap_app.
    pose proof (repr_sorted _ _ _ Hr) as Hs. simpl. revert Hs.
    generalize (A0.*1 ++ [maxFid v]). induction 1; constructor; [done|].
    eapply Forall_impl; [|done]. simpl. lia.
  - rewrite merge_sort_Permutation. apply NoDup_Permutation.
    + apply NoDup_elements.
    + by apply (sorted_fids_NoDup v A0 l).
    + intros id. rewrite elem_of_elements, elem_of_dom. pose proof (repr_map _ _ _ Hr id) as Hf.
      rewrite list_elem_of_fmap. split.
      * intros [lf Hlf]. rewrite Hlf in Hf.
        destruct (list_to_map (whole v A0 l) !! id) as [li|] eqn:E; [|by inversion Hf].
        exists (id, li). split; [done|]. by apply elem_of_list_to_map_2 in E.
      * intros ([id' li] & -> & Hin). destruct (repr_file _ _ _ _ _ Hr Hin) as (lf & Hlf & _).
        by exists lf.
Qed.

(** [start] is a record boundary of its file, if the file exists. *)
Definition boundary (A : alog) (start : valuePointer) : Prop :=
  forall l, (Fid start, l) ∈ A ->
  exists l1 l2, l = l1 ++ l2 /\ Offset start = len (data_bytes l1).

(** The entries at [start] or after it. *)
Definition from (start : valuePointer) (es : list (valuePointer * list byte)) :
    list (valuePointer * list byte) :=
  filter (fun e => ~ vp_lt e.1 start) es.

Lemma from_all start (es : list (valuePointer * list byte)) : (forall e, e ∈ es -> ~ vp_lt e.1 start) -> from start es = es.
Proof.
  unfold from. induction es as [|e es IH]; intros H; [done|]. rewrite filter_cons_True.
  - f_equal. apply IH. intros. apply H. by right.
  - apply H. by left.
Qed.

Lemma from_none start (es : list (valuePointer * list byte)) : (forall e, e ∈ es -> vp_lt e.1 start) -> from start es = [].
Proof.
  unfold from. induction es as [|e es IH]; intros H; [done|]. rewrite filter_cons_False.
  - apply IH. intros. apply H. by right.
  - intros Hn. apply Hn, H. by left.
Qed.

Lemma from_lt start id l : id < Fid start -> from start (file_entries id 0 l) = [].
Proof.
  intros Hlt. apply from_none. intros [p payl] He. apply file_entries_In in He as (Hid & _).
  simpl. rewrite vp_lt_spec. lia.
Qed.

Lemma from_gt start id l :
  Fid start < id -> from start (file_entries id 0 l) = file_entries id 0 l.
Proof.
  intros Hlt. apply from_all. intros [p payl] He. apply file_entries_In in He as (Hid & _).
  simpl. rewrite vp_lt_spec. lia.
Qed.

Lemma from_eq start l1 l2 :
  Offset start = len (data_bytes l1) ->
  from start (file_entries (Fid start) 0 (l1 ++ l2)) = file_entries (Fid start) (Offset start) l2.
Proof.
  intros Ho. rewrite file_entries_app, Z.add_0_l, <- Ho. unfold from. rewrite list.filter_app.
  fold (from start (file_entries (Fid start) 0 l1)).
  fold (from start (file_entries (Fid start) (Offset start) l2)).
  rewrite from_none, from_all; [done| |];
    intros [p payl] He; apply file_entries_In in He as (Hid & Hr & _); simpl;
    rewrite vp_lt_spec; lia.
Qed.

Lemma scan_files_repr v start A : forall s,
  (forall id l, (id, l) ∈ A -> exists lf, filesMap v !! id = Some lf /\ file_repr id l lf) ->
  boundary A start ->
  scan_files fn start
    (omap (fun id => filesMap v !! id) (filter (fun id => Fid start <= id) A.*1)) s =
  visit_entries (from start (entries A)) s.
Proof.
  induction A as [|[id l] A IH]; intros s Hfiles Hb; [done|].
  assert (Hfiles' : forall id l, (id, l) ∈ A ->
            exists lf, filesMap v !! id = Some lf /\ file_repr id l lf)
    by (intros; apply Hfiles; by right).
  assert (Hb' : boundary A start) by (intros l' Hl'; apply Hb; by right).
  assert (He : from start (entries ((id, l) :: A)) =
               from start (file_entries id 0 l) ++ from start (entries A))
    by (unfold from; by rewrite <- list.filter_app).
  rewrite He, visit_entries_app. cbn [fmap list_fmap fst].
  destruct (decide (Fid start <= id)) as [Hle|Hgt].
  - rewrite filter_cons_True by done.
    destruct (Hfiles id l) as (lf & Hlf & Hrep); [by left|].
    cbn [omap list_omap]. rewrite Hlf. cbn [scan_files].
    assert (Hscan : scan fn lf (if fid lf =? Fid start then Offset start else 0) s =
                    visit_entries (from start (file_entries id 0 l)) s).
    { destruct Hrep as [Hid Hrep]. rewrite Hid.
      destruct (Z.eqb_spec id (Fid start)) as [->|Hne].
      - destruct (Hb l) as (l1 & l2 & -> & Ho); [by left|].
        rewrite from_eq, Ho by done. apply scan_file. by split.
      - rewrite from_gt by lia. apply (scan_file id [] l). by split. }
    rewrite Hscan. destruct (visit_entries _ s) as [s' []]; [by apply IH|done..].
  - rewrite filter_cons_False by done. rewrite from_lt by lia. by apply IH.
Qed.

Lemma vlog_scan_repr v A0 l start s :
  repr v A0 l -> boundary (whole v A0 l) start ->
  vlog_scan fn start v s = visit_entries (from start (entries (whole v A0 l))) s.
Proof.
  intros Hr Hb. unfold vlog_scan. rewrite (sortedFids_repr _ _ _ Hr).
  apply scan_files_repr; [|done]. intros id li Hin. by apply (repr_file v A0 l).
Qed.

(** Scanning the value log from a record boundary visits exactly the entries
    at that position or after it, across all files and in write order, until the
    visitor fails. *)
Theorem vlog_scan_visits v A0 l start s :
  repr v A0 l -> boundary (whole v A0 l) start ->
  vlog_scan fn start v s = visit_entries (from start (entries (whole v A0 l))) s.
Proof. apply vlog_scan_repr. Qed.

End ScanSpec.

(** ** Garbage collection *)

Lemma gc_delete_lookup (m : gmap Z logFile) (L : list (Z * logFile)) k :
  fold_right (fun kf m => delete (fid kf.2) m) m L !! k =
    if decide (k ∈ (fun kf => fid kf.2) <$> L) then None else m !! k.
Proof.
  induction L as [|kf L IH]; [done|]. cbn [fold_right fmap list_fmap].
  rewrite lookup_delete, IH.
  repeat match goal with |- context [decide ?P] => destruct (decide P) end; set_solver.
Qed.

Lemma gcTS_lookup ts v k :
  (forall id lf, filesMap v !! id = Some lf -> fid lf = id) ->
  filesMap (gcTS ts v).1 !! k =
    (lf ← filesMap v !! k;
     if decide (k <> maxFid v /\ maxTS lf <= ts) then None else Some lf).
Proof.
  intros Hid. unfold gcTS. simpl. rewrite gc_delete_lookup.
  destruct (filesMap v !! k) as [lf|] eqn:Hk; simpl.
  - case_decide as Hin; case_decide as Hc; try done.
    + apply list_elem_of_fmap in Hin as ([id lf'] & -> & Hin). simpl in *.
      apply list_elem_of_filter in Hin as [[H1 H2] Hin%elem_of_map_to_list].
      pose proof (Hid _ _ Hin) as <-. simpl in *. simplify_eq. tauto.
    + destruct Hin. apply list_elem_of_fmap. exists (k, lf). simpl. split; [by rewrite (Hid k lf)|].
      apply list_elem_of_filter. simpl. rewrite (Hid k lf Hk). split; [done|].
      by apply elem_of_map_to_list.
  - by case_decide.
Qed.

(** The files a garbage collection keeps, beside the current one. *)
Definition kept (ts : Z) (v : valueLog) (A0 : alog) : alog :=
  filter (fun f => match filesMap v !! f.1 with
                   | Some lf => bool_decide (ts < maxTS lf)
                   | None => false
                   end = true) A0.

Lemma StronglySorted_sublist (l1 l2 : list Z) :
  l1 `sublist_of` l2 -> StronglySorted Z.lt l2 -> StronglySorted Z.lt l1.
Proof.
  induction 1 as [|x l1 l2 Hsub IH|x l1 l2 Hsub IH]; intros Hs; [constructor|..].
  - apply StronglySorted_inv in Hs as [Hs Hx]. constructor; [by apply IH|].
    rewrite list.Forall_forall in Hx |- *. intros y Hy. apply Hx.
    eapply elem_of_sublist; [|done]. done.
  - apply StronglySorted_inv in Hs as [Hs Hx]. by apply IH.
Qed.

Lemma kept_sublist ts v A0 : kept ts v A0 `sublist_of` A0.
Proof. apply sublist_filter. Qed.

Lemma repr_NoDup0 v A0 l : repr v A0 l -> NoDup A0.*1 /\ maxFid v ∉ A0.*1.
Proof.
  intros Hr%sorted_fids_NoDup. rewrite fmap_app in Hr.
  apply list.NoDup_app in Hr as (Hn & Hd & _). split; [done|].
  intros Hin. apply (Hd _ Hin). by left.
Qed.

Lemma kept_lookup ts v A0 l k :
  repr v A0 l ->
  (list_to_map (kept ts v A0) : gmap Z (list (list byte))) !! k =
    (li ← (list_to_map A0 : gmap Z (list (list byte))) !! k; lf ← filesMap v !! k;
     if decide (ts < maxTS lf) then Some li else None).
Proof.
  intros Hr. destruct (repr_NoDup0 _ _ _ Hr) as [Hn _].
  assert (Hn' : NoDup (kept ts v A0).*1).
  { eapply sublist_NoDup; [exact Hn|]. apply fmap_sublist, kept_sublist. }
  apply option_eq. intros li. rewrite <- elem_of_list_to_map by done.
  unfold kept. rewrite list_elem_of_filter. simpl. split.
  - intros [Hb Hin]. apply elem_of_list_to_map in Hin; [|done]. rewrite Hin. simpl.
    destruct (filesMap v !! k) as [lf|]; [|done]. simpl.
    apply bool_decide_eq_true in Hb. by rewrite decide_True.
  - destruct (list_to_map A0 !! k) as [li'|] eqn:E; [|done]. simpl.
    destruct (filesMap v !! k) as [lf|]; [|done]. simpl.
    case_decide; [|done]. intros [= <-]. split; [by apply bool_decide_eq_true|].
    by apply elem_of_list_to_map_2 in E.
Qed.

Lemma repr_fid v A0 l id lf : repr v A0 l -> filesMap v !! id = Some lf -> fid lf = id.
Proof.
  intros Hr Hlf. pose proof (repr_map _ _ _ Hr id) as Hf. rewrite Hlf in Hf.
  by inversion Hf as [? ? [? ?]|].
Qed.

Lemma gcTS_repr ts v A0 l : repr v A0 l -> repr (gcTS ts v).1 (kept ts v A0) l.
Proof.
  intros Hr. pose proof (fun id lf => repr_fid v A0 l id lf Hr) as Hid.
  constructor.
  - intros k. rewrite gcTS_lookup by done.
    change (maxFid (gcTS ts v).1) with (maxFid v).
    pose proof (repr_files _ _ _ Hr k) as Hf. revert Hf. rewrite !lookup_insert.
    case_decide as Hk.
    + subst k. destruct (filesMap v !! maxFid v) as [lf|]; simpl; [|done].
      rewrite decide_False by tauto. done.
    + rewrite (kept_lookup _ _ _ _ _ Hr). intros Hf.
      destruct Hf as [li lf Hrep|]; simpl; [|constructor].
      destruct (decide (ts < maxTS lf)).
      * rewrite decide_False by lia. by constructor.
      * rewrite decide_True by (split; [done|lia]). constructor.
  - change (maxFid (gcTS ts v).1) with (maxFid v).
    eapply StronglySorted_sublist; [|apply (repr_sorted _ _ _ Hr)].
    apply sublist_app; [apply fmap_sublist, kept_sublist|done].
  - change (maxFid (gcTS ts v).1) with (maxFid v).
    pose proof (repr_fids _ _ _ Hr) as Hb. rewrite list.Forall_forall in Hb |- *.
    intros x Hx. apply Hb. eapply elem_of_sublist; [exact Hx|].
    apply sublist_app; [apply fmap_sublist, kept_sublist|done].
  - destruct (repr_cur _ _ _ Hr) as (lf & Hlf & Hend). exists lf. split; [|done].
    change (maxFid (gcTS ts v).1) with (maxFid v).
    rewrite gcTS_lookup by done. rewrite Hlf. simpl. by rewrite decide_False by tauto.
Qed.

(** Collecting the value log up to [ts] loses no binlog newer than [ts]: the
    current file and every file with a newer maximal timestamp are kept, every
    other file is removed, and each surviving position still reads its payload. *)
Theorem gcTS_safe ts v A0 l :
  repr v A0 l ->
  repr (gcTS ts v).1 (kept ts v A0) l /\
  (forall id lf, filesMap v !! id = Some lf ->
     (filesMap (gcTS ts v).1 !! id = None <-> id <> maxFid v /\ maxTS lf <= ts)) /\
  forall p payl b, (p, payl) ∈ entries (whole v A0 l) -> unmarshal payl = Ret b ->
    ts < binlog_ts b -> readValue (gcTS ts v).1 p = Ret payl.
Proof.
  intros Hr. pose proof (fun id lf => repr_fid v A0 l id lf Hr) as Hid.
  split; [by apply gcTS_repr|]. split.
  - intros id lf Hlf. rewrite gcTS_lookup, Hlf by done. simpl.
    case_decide; split; try done; tauto.
  - intros p payl b Hin Hb Hts. rewrite <- (readValue_entry v A0 l p payl Hr Hin).
    apply elem_of_entries in Hin as (li & Hli & He).
    destruct (repr_file _ _ _ _ _ Hr Hli) as (lf & Hlf & _ & _ & _ & Hall & _).
    assert (ts < maxTS lf).
    { apply file_entries_In in He as (_ & _ & l1 & l2 & -> & _).
      apply Forall_app in Hall as [_ Hall].
      apply Forall_cons_iff in Hall as [(_ & b' & Hb' & Hle & _) _].
      rewrite Hb in Hb'. simplify_eq. lia. }
    unfold readValue, getFile. rewrite gcTS_lookup, Hlf by done. simpl.
    by rewrite decide_False by lia.
Qed.

End Repr.
