(* ===== verification/VlogOpen.v ===== *)
(** * VlogOpen
    Restarting a pump: [newValueLog] on the directory a value log left behind
    ([pump/storage/vlog.go], [openOrCreateFiles] and [close]) gives a log with the
    same entries.  Also the examples of the value log. *)
From Stdlib Require Import Init.Byte Strings.Byte Ascii.
From stdpp Require Import base option list sorting strings gmap numbers.
From S2P Require Import Prelude Text Binlog LogFile Vlog.

(** ** File names *)

Lemma fileName_suffix id : has_suffix fileExt (fileName id) = true.
Proof. apply has_suffix_app. Qed.

Lemma fileName_parse id :
  in_u32 id -> parse_uint 32 (trim_suffix fileExt (fileName id)) = Ret id.
Proof. intros Hid. unfold fileName. rewrite trim_suffix_app. by apply parse_uint_pad0. Qed.

Lemma fileName_inj id1 id2 : in_u32 id1 -> in_u32 id2 -> fileName id1 = fileName id2 -> id1 = id2.
Proof.
  intros H1 H2 E. pose proof (fileName_parse _ H1) as P1. rewrite E in P1.
  rewrite fileName_parse in P1 by done. congruence.
Qed.

(** The id of a value-log file is recovered from its name, and distinct ids have
    distinct names. *)
Theorem fileName_roundtrip id :
  in_u32 id ->
  parse_uint 32 (trim_suffix fileExt (fileName id)) = Ret id /\
  forall id', in_u32 id' -> fileName id = fileName id' -> id = id'.
Proof. intros Hid. split; [by apply fileName_parse|]. intros id' H. by apply fileName_inj. Qed.

Section Reopen.
Context `{C : Codec}.

(** ** Reopening one file *)

(** A file that is still open does not end like a footer. *)
Definition not_mistaken (lf : logFile) : Prop := end_ lf = false -> no_footer (fd lf).

Lemma good_payloads_good l : good_payloads (Good <$> l) = l.
Proof. unfold good_payloads. induction l as [|p l IH]; [done|]. cbn. by f_equal. Qed.

Lemma payloads_decode m l :
  Forall (payload_ok m) l ->
  exists bs, Forall2 (fun p b => unmarshal p = Ret b) l bs /\
    Forall (fun b => StartTs b < 2 ^ 63 /\ CommitTs b < 2 ^ 63) bs.
Proof.
  induction 1 as [|p l (_ & b & Hb & _ & ? & ?) _ (bs & IH1 & IH2)]; [by exists []|].
  exists (b :: bs). by split; constructor.
Qed.

Lemma payload_ok_recovered l bs m :
  Forall (fun p => len p <= maxAlloc) l ->
  Forall2 (fun p b => unmarshal p = Ret b) l bs ->
  Forall (fun b => (StartTs b < 2 ^ 63 /\ CommitTs b < 2 ^ 63) /\ StartTs b <= m /\ CommitTs b <= m) bs ->
  Forall (payload_ok m) l.
Proof.
  intros Hl H2. revert Hl. induction H2 as [|p b l bs Hp _ IH]; intros Hl Hbs; [constructor|].
  inversion_clear Hl. inversion_clear Hbs as [|?? Hb ?]. constructor; [|by apply IH].
  split; [done|]. exists b. split; [done|]. unfold binlog_ts.
  case_bool_decide; destruct Hb as ([??] & ? & ?); lia.
Qed.

Lemma file_reopen id l lf name :
  file_repr id l lf -> not_mistaken lf ->
  exists lf', newLogFile id name (fd lf) = Ret lf' /\ file_repr id l lf' /\ end_ lf' = end_ lf.
Proof.
  intros (Hid & Hfd & Hoff & Hall & Hts) Hnm. destruct (end_ lf) eqn:Hend.
  - rewrite Hfd, newLogFile_footer by eauto with go.
    eexists. split; [done|]. split; [|done]. repeat split; simpl; try done; lia.
  - rewrite app_nil_r in Hfd.
    destruct (payloads_decode _ _ Hall) as (bs & Hbs & Hlt).
    assert (Hlen : Forall (fun p => len p <= maxAlloc) l).
    { eapply Forall_impl; [|exact Hall]. by intros p [? _]. }
    rewrite Hfd, data_bytes_layout.
    destruct (max_ts_bounds bs 0) as (Hb & H0 & Hmax).
    rewrite (newLogFile_layout _ _ _ bs).
    + eexists. split; [done|]. split; [|done].
      split; [done|]. split; [simpl; by rewrite app_nil_r, data_bytes_layout|].
      split; [done|]. cbn [maxTS]. split; [|split; [done|apply Hmax; [lia|done]]].
      apply (payload_ok_recovered l bs); [done|done|].
      rewrite list.Forall_forall in *. intros b Hin.
      destruct (Hb b Hin) as (? & ? & ?). by destruct (Hlt b Hin).
    + apply layout_ok_good. eapply Forall_impl; [|exact Hlen]. unfold maxAlloc. simpl. lia.
    + by rewrite good_payloads_good.
    + rewrite <- data_bytes_layout, <- Hfd. by apply Hnm.
Qed.

(** ** Reopening the directory *)

(** The directory a value log leaves on disk. *)
Definition dir_of (v : valueLog) : gmap string dirent :=
  list_to_map ((fun kf => (fileName kf.1, File (fd kf.2))) <$> map_to_list (filesMap v)).

Definition fids_ok (v : valueLog) : Prop := forall id, is_Some (filesMap v !! id) -> in_u32 id.

Lemma dir_names_NoDup (m : gmap Z logFile) :
  (forall id, is_Some (m !! id) -> in_u32 id) ->
  NoDup (((fun kf : Z * logFile => (fileName kf.1, File (fd kf.2))) <$> map_to_list m).*1).
Proof.
  intros Hin. rewrite <- list_fmap_compose.
  assert (He : ∀ kf, kf ∈ map_to_list m -> in_u32 kf.1).
  { intros [k lf] Hk%elem_of_map_to_list. apply Hin. by exists lf. }
  pose proof (NoDup_fst_map_to_list m) as Hn. revert Hn He.
  induction (map_to_list m) as [|[k lf] L IH]; intros Hn He; [constructor|].
  cbn [fmap list_fmap] in *. apply list.NoDup_cons in Hn as [Hk Hn]. apply list.NoDup_cons. split.
  - intros ([k' lf'] & Heq & Hin')%list_elem_of_fmap. cbn in Heq.
    apply fileName_inj in Heq; [|apply (He (k, lf)); by left|apply (He (k', lf')); by right].
    subst. apply Hk. apply list_elem_of_fmap. by exists (k', lf').
  - apply IH; [done|]. intros kf ?. apply He. by right.
Qed.

Lemma dir_lookup v id lf :
  fids_ok v -> filesMap v !! id = Some lf -> dir_of v !! fileName id = Some (File (fd lf)).
Proof.
  intros Hf Hlf. unfold dir_of. apply elem_of_list_to_map; [by apply dir_names_NoDup|].
  apply list_elem_of_fmap. exists (id, lf). split; [done|]. by apply elem_of_map_to_list.
Qed.

Lemma dir_names v :
  fids_ok v ->
  exists ids, merge_sort String.le (elements (dom (dir_of v))) = fileName <$> ids /\
    Permutation ids (elements (dom (filesMap v))).
Proof.
  intros Hf.
  assert (Hp : Permutation (merge_sort String.le (elements (dom (dir_of v))))
                 (fileName <$> (map_to_list (filesMap v)).*1)).
  { rewrite merge_sort_Permutation. unfold dir_of. rewrite dom_list_to_map_L.
    etrans; [apply elements_list_to_set, dir_names_NoDup, Hf|].
    by rewrite <- !list_fmap_compose. }
  apply Permutation_map_inv in Hp as (ids & -> & Hp). exists ids. split; [done|].
  rewrite <- Hp. apply NoDup_Permutation.
  - apply NoDup_fst_map_to_list.
  - apply NoDup_elements.
  - intros id. rewrite elem_of_elements, elem_of_dom. split.
    + intros ([k lf] & -> & Hk%elem_of_map_to_list)%list_elem_of_fmap. by exists lf.
    + intros [lf Hlf]. apply list_elem_of_fmap. exists (id, lf). split; [done|].
      by apply elem_of_map_to_list.
Qed.

Lemma open_files_ok dir (P : Z -> logFile -> Prop) ids : forall v,
  (forall id, id ∈ ids -> in_u32 id /\ exists c lf', dir !! fileName id = Some (File c) /\
     newLogFile id (filePath (dirPath v) id) c = Ret lf' /\ P id lf') ->
  exists v', open_files dir (fileName <$> ids) v = Ret v' /\
    (forall k, k ∈ ids -> exists lf', filesMap v' !! k = Some lf' /\ P k lf') /\
    (forall k, k ∉ ids -> filesMap v' !! k = filesMap v !! k) /\
    maxFid v <= maxFid v' /\ (forall k, k ∈ ids -> k <= maxFid v') /\
    (maxFid v' = maxFid v \/ maxFid v' ∈ ids) /\ dirPath v' = dirPath v /\ opt v' = opt v.
Proof.
  induction ids as [|id ids IH]; intros v Hids.
  { exists v. split; [done|]. split; [by intros k ?%elem_of_nil|].
    repeat split; try done; [by intros k ?%elem_of_nil|by left]. }
  destruct (Hids id) as (Hid & c & lf & Hdir & Hnew & HP); [by left|].
  cbn [fmap list_fmap open_files]. rewrite Hdir, fileName_suffix, fileName_parse by done. simpl negb.
  cbv iota. step_bind. unfold open_contents. rewrite Hdir. step_bind. rewrite Hnew. step_bind.
  set (v1 := if _ <? _ then _ else _).
  assert (Hv1 : filesMap v1 = <[id := lf]> (filesMap v) /\ maxFid v1 = Z.max (maxFid v) id /\
                dirPath v1 = dirPath v /\ opt v1 = opt v).
  { unfold v1. simpl. destruct (Z.ltb_spec (maxFid v) id); simpl; repeat split; lia. }
  destruct Hv1 as (Hf1 & Hm1 & Hd1 & Ho1).
  destruct (IH v1) as (v' & -> & H1 & H2 & H3 & H4 & H5 & H6 & H7).
  { intros k Hk. rewrite Hd1. apply Hids. by right. }
  exists v'. split; [done|]. rewrite H6, H7, Hd1, Ho1. repeat split; try done.
  - intros k Hk. destruct (decide (k ∈ ids)) as [?|Hn]; [by apply H1|].
    apply elem_of_cons in Hk as [->|?]; [|done]. exists lf. rewrite H2, Hf1, lookup_insert_eq by done.
    done.
  - intros k [Hne Hk]%not_elem_of_cons. by rewrite H2, Hf1, lookup_insert_ne.
  - lia.
  - intros k [->|Hk]%elem_of_cons; [lia|by apply H4].
  - destruct H5 as [H5|H5]; [|by right; right]. rewrite H5, Hm1.
    destruct (Z.max_spec (maxFid v) id) as [[_ ->]|[_ ->]]; [right; by left|by left].
Qed.

Lemma repr_lookup v A0 l id lf :
  repr v A0 l -> filesMap v !! id = Some lf ->
  exists li, (id, li) ∈ A0 ++ [(maxFid v, l)] /\ file_repr id li lf.
Proof.
  intros Hr Hlf. pose proof (repr_map _ _ _ Hr id) as Hf. rewrite Hlf in Hf.
  destruct (list_to_map (A0 ++ [(maxFid v, l)]) !! id) as [li|] eqn:E; [|by inversion Hf].
  exists li. split; [by apply elem_of_list_to_map_2 in E|]. by inversion Hf.
Qed.

Lemma repr_fids_ok v A0 l : repr v A0 l -> fids_ok v.
Proof.
  intros Hr id [lf Hlf]. pose proof (repr_fids _ _ _ Hr) as Hb. rewrite list.Forall_forall in Hb.
  apply Hb. destruct (repr_lookup _ _ _ _ _ Hr Hlf) as (li & Hin & _).
  change [maxFid v] with ([(maxFid v, l)].*1). rewrite <- fmap_app.
  apply list_elem_of_fmap. by exists (id, li).
Qed.

Lemma repr_le_maxFid v A0 l id : repr v A0 l -> is_Some (filesMap v !! id) -> id <= maxFid v.
Proof.
  intros Hr [lf Hlf]. destruct (repr_lookup _ _ _ _ _ Hr Hlf) as (li & Hin & _).
  apply elem_of_app in Hin as [Hin|Hin].
  - enough (id < maxFid v) by lia.
    eapply StronglySorted_app_1_elem_of; [apply (repr_sorted _ _ _ Hr)| |by left].
    apply list_elem_of_fmap. by exists (id, li).
  - apply list_elem_of_singleton in Hin. simplify_eq. lia.
Qed.

(** Reopening the directory of a value log, after a clean stop or a crash
    between two writes, succeeds and gives a log with the same files and the same
    entries, open for append at the same place. *)
Theorem newValueLog_reopens v A0 l :
  repr v A0 l -> (forall id lf, filesMap v !! id = Some lf -> not_mistaken lf) ->
  exists v', newValueLog (dirPath v) (opt v) (dir_of v) io_ok = Ret v' /\
    repr v' A0 l /\ maxFid v' = maxFid v.
Proof.
  intros Hr Hnm. pose proof (repr_fids_ok _ _ _ Hr) as Hfids.
  destruct (dir_names v Hfids) as (ids & Hnames & Hids).
  assert (Hmem : forall id, id ∈ ids <-> is_Some (filesMap v !! id)).
  { intros id. rewrite Hids, elem_of_elements. apply elem_of_dom. }
  unfold newValueLog. rewrite Hnames.
  destruct (open_files_ok (dir_of v)
    (fun id lf' => exists lf li, filesMap v !! id = Some lf /\ end_ lf' = end_ lf /\
       (id, li) ∈ A0 ++ [(maxFid v, l)] /\ file_repr id li lf') ids
    (mkValueLog (dirPath v) 0 ∅ (opt v)))
    as (v' & -> & H1 & H2 & H3 & H4 & H5 & H6 & H7).
  { intros id Hid. apply Hmem in Hid as [lf Hlf]. split; [by apply Hfids; exists lf|].
    destruct (repr_lookup _ _ _ _ _ Hr Hlf) as (li & Hli & Hrep).
    destruct (file_reopen id li lf (filePath (dirPath v) id) Hrep (Hnm _ _ Hlf))
      as (lf' & Hnew & Hrep' & Hend').
    exists (fd lf), lf'. split; [by apply dir_lookup|]. split; [done|]. by exists lf, li. }
  step_bind. destruct (repr_cur_file _ _ _ Hr) as (cur & Hcur & Hend & _).
  assert (Hmax : maxFid v' = maxFid v).
  { apply Z.le_antisymm.
    - destruct H5 as [H5|H5]; [simpl in H5; rewrite H5; apply (repr_maxFid _ _ _ Hr)|].
      apply (repr_le_maxFid _ _ _ _ Hr). by apply Hmem.
    - apply H4, Hmem. by exists cur. }
  destruct (H1 (maxFid v)) as (cur' & Hcur' & cur0 & li & Hc0 & Hend' & _); [apply Hmem; by exists cur|].
  simplify_eq. rewrite bool_decide_eq_false_2 by (intros E; rewrite E in Hcur'; done).
  rewrite Hmax, Hcur', Hend', Hend. exists v'. split; [done|]. split; [|done].
  constructor; rewrite ?Hmax; [|apply Hr|apply Hr|by exists cur'; rewrite Hend'].
  intros k. rewrite <- list_to_map_snoc by (apply (repr_NoDup0 _ _ _ Hr)).
  pose proof (repr_map _ _ _ Hr k) as Hf.
  destruct (decide (k ∈ ids)) as [Hk|Hk].
  - destruct (H1 k Hk) as (lf' & -> & lf & li' & Hlf & _ & Hin & Hrep).
    apply (elem_of_list_to_map (M := gmap Z)) in Hin; [|by apply sorted_fids_NoDup].
    rewrite Hin. by constructor.
  - rewrite H2 by done. simpl. rewrite lookup_empty. rewrite Hmem in Hk.
    apply eq_None_not_Some in Hk. rewrite Hk in Hf. exact Hf.
Qed.

End Reopen.

(** ** Examples *)
Module VlogExamples.

#[local] Existing Instance SimpleCodec.codec.

Definition demo_opts : Options := mkOptions 100 true 16 0.

Definition demo_vlog : valueLog :=
  mkValueLog "d" 0 {[ 0 := mkLogFile 0 "d/000000.vlog" 0 [] 0 false ]} demo_opts.

(** The directory is empty: the first file is created. *)
Example newValueLog_empty : newValueLog "d" demo_opts ∅ io_ok = Ret demo_vlog.
Proof. reflexivity. Qed.

Lemma demo_repr : repr demo_vlog [] [].
Proof.
  constructor.
  - change (filesMap demo_vlog) with
      (<[0 := mkLogFile 0 "d/000000.vlog" 0 [] 0 false]> (∅ : gmap Z logFile)).
    apply map_Forall2_insert_2; [|apply map_Forall2_empty].
    repeat split; simpl; try done; try constructor; lia.
  - repeat constructor.
  - repeat constructor; simpl; lia.
  - by eexists.
Defined.

Definition demo_req (tp : BinlogType) (s c : Z) : request :=
  mkRequest s c tp (SimpleCodec.enc (demo_binlog tp s c)) (mkVP 0 0) None.

Definition demo_reqs : list request :=
  [demo_req BinlogType_Prewrite 5 0; demo_req BinlogType_Prewrite 6 0;
   demo_req BinlogType_Commit 5 8].

Lemma demo_req_ok tp s c :
  0 <= s < 2 ^ 63 -> 0 <= c < 2 ^ 63 -> req_ok (demo_req tp s c).
Proof.
  intros Hs Hc. split; [|split].
  - simpl payload. unfold SimpleCodec.enc. cbn [length].
    rewrite !length_app, !length_le_bytes. vm_compute. discriminate.
  - unfold request_ts. simpl. case_bool_decide; lia.
  - exists (demo_binlog tp s c). split; [|split; [done|simpl; lia]].
    apply SimpleCodec.dec_enc. unfold SimpleCodec.encodable, in_i64. simpl. lia.
Defined.

Lemma demo_reqs_ok : Forall req_ok demo_reqs.
Proof. repeat constructor; apply demo_req_ok; lia. Defined.

(** The second record overflows the file limit of 100 bytes and the log
    rotates, so the third request lands in file 1. *)
Example demo_positions :
  vp <$> (write [] demo_reqs demo_vlog).1.2 = [mkVP 0 0; mkVP 0 73; mkVP 1 0].
Proof. vm_compute. reflexivity. Qed.

Lemma valuePointer_roundtrip_witness :
  UnmarshalBinary (MarshalBinary (mkVP 7 1234) ++ [x09]) = Ret (mkVP 7 1234).
Proof.
  apply (valuePointer_roundtrip (mkVP 7 1234) [x09]).
  split; unfold in_u32, in_i64; simpl; lia.
Defined.

Lemma UnmarshalBinary_short_witness : UnmarshalBinary [x01; x02] = Fail (Err "not enough data").
Proof. apply (UnmarshalBinary_short [x01; x02]). simpl. lia. Defined.

Lemma write_readback_witness :
  exists v' reqs', write [] demo_reqs demo_vlog = (v', reqs', Ret tt) /\
    Forall (fun r => readValue v' (vp r) = Ret (payload r)) reqs'.
Proof.
  destruct (write_readback demo_vlog [] [] demo_reqs demo_repr demo_reqs_ok)
    as (v' & reqs' & A0' & l' & Hw & _ & _ & _ & Hread & _); [simpl; lia|].
  exists v', reqs'. split; [exact Hw|exact Hread].
Defined.

Lemma write_positions_increase_witness :
  StronglySorted vp_lt [mkVP 0 0; mkVP 0 73; mkVP 1 0].
Proof.
  apply (write_positions_increase demo_vlog [] [] demo_reqs
    (write [] demo_reqs demo_vlog).1.1 (write [] demo_reqs demo_vlog).1.2
    (write [] demo_reqs demo_vlog).2 demo_repr demo_reqs_ok).
  - simpl. lia.
  - vm_compute. reflexivity.
Defined.

Lemma vlog_scan_visits_witness :
  vlog_scan collect (mkVP 0 0) demo_vlog [] = ([], Ret tt).
Proof.
  rewrite (vlog_scan_visits collect demo_vlog [] [] (mkVP 0 0) [] demo_repr); [reflexivity|].
  intros l Hl. apply list_elem_of_singleton in Hl. simplify_eq. by exists [], [].
Defined.

Lemma gcTS_safe_witness : repr (gcTS 3 demo_vlog).1 (kept 3 demo_vlog []) [].
Proof. apply (gcTS_safe 3 demo_vlog [] [] demo_repr). Defined.

Lemma fileName_roundtrip_witness : parse_uint 32 (trim_suffix fileExt (fileName 42)) = Ret 42.
Proof. apply (fileName_roundtrip 42). unfold in_u32. lia. Defined.

Lemma newValueLog_reopens_witness :
  exists v', newValueLog "d" demo_opts (dir_of demo_vlog) io_ok = Ret v' /\
    repr v' [] [] /\ maxFid v' = 0.
Proof.
  apply (newValueLog_reopens demo_vlog [] [] demo_repr).
  intros id lf Hlf. cbn [filesMap demo_vlog] in Hlf.
  apply lookup_singleton_Some in Hlf as [<- <-].
  intros _. left. unfold fileFooterLength. simpl. lia.
Defined.

(** A failed [fdatasync] while rotating leaves the log broken: [finalize] has
    already marked the file as ended but it is still the current file, so the next
    write appends a record behind the footer and then panics when it rotates. *)
Theorem rotate_sync_failure :
  let disk_error := Err "input/output error" in
  let '(v1, _, r1) := write [io_ok; mkIO WOk (Some disk_error) None]
    [demo_req BinlogType_Prewrite 5 0; demo_req BinlogType_Prewrite 6 0] demo_vlog in
  let '(v2, _, r2) := write [] [demo_req BinlogType_Prewrite 7 0] v1 in
  r1 = Fail disk_error /\ maxFid v1 = 0 /\ (end_ <$> filesMap v1 !! 0) = Some true /\ r2 = Panic.
Proof. vm_compute. done. Qed.

End VlogExamples.
