(* ===== verification/Sorter.v ===== *)
(** * Sorter
    The sorter of a pump ([pump/storage/sorter.go]).  Binlog items are pushed in
    the order they were written; the goroutine [run] takes them in that order,
    holds every prewrite item back until its commit (or rollback) item has been
    pushed or the resolver has settled the transaction, and reports the items
    whose commit timestamp exceeds all earlier ones. *)
From Stdlib Require Import Init.Byte Strings.Byte.
From stdpp Require Import base option list sorting gmap relations.
From S2P Require Import Prelude Binlog.

Record sortItem := mkItem { start : Z; commit : Z; item_tp : BinlogType }.

#[export] Instance sortItem_eq_dec : EqDecision sortItem.
Proof. solve_decision. Defined.

Definition is_prewrite (i : sortItem) : bool := bool_decide (item_tp i = BinlogType_Prewrite).

(** Where the goroutine [run] is: at the head of its loop, in the inner loop
    that waits for the commit item of a prewrite item, or returned. *)
Inductive run_pc :=
  | Loop
  | Waiting (item : sortItem)
  | Quit.

(** The sorter: the fields of the struct, the local variables of [run], and the
    calls made to [maxTSItemCB] so far. *)
Record sorter := mkSorter {
  waitStartTS : gset Z;
  items : list sortItem;
  closed : bool;
  pc : run_pc;
  maxTSItem : sortItem;
  emitted : list sortItem;
}.

Definition newSorter : sorter :=
  mkSorter ∅ [] false Loop (mkItem 0 0 BinlogType_Prewrite) [].

Definition allMatched (s : sorter) : bool := bool_decide (waitStartTS s = ∅).

(** [pushTSItem]. *)
Definition pushTSItem (item : sortItem) (s : sorter) : sorter :=
  let w :=
    if is_prewrite item then {[start item]} ∪ waitStartTS s
    else waitStartTS s ∖ {[start item]} in
  mkSorter w (items s ++ [item]) (closed s) (pc s) (maxTSItem s) (emitted s).

Definition set_pc (p : run_pc) (s : sorter) : sorter :=
  mkSorter (waitStartTS s) (items s) (closed s) p (maxTSItem s) (emitted s).

(** [isClosed], and the first statement of [close]. *)
Definition isClosed (s : sorter) : bool := closed s.
Definition close (s : sorter) : sorter :=
  mkSorter (waitStartTS s) (items s) true (pc s) (maxTSItem s) (emitted s).

(** What one stretch of [run] between two waits does. [resolves] is the answer
    of the resolver, when more than a second has passed and there is one
    ([None] otherwise); [None] is returned when [run] waits on its condition. *)
Definition run_step (resolves : option bool) (s : sorter) : option sorter :=
  match pc s with
  | Quit => None
  | Loop =>
    match items s with
    | [] => if isClosed s then Some (set_pc Quit s) else None
    | item :: rest =>
      let s := mkSorter (waitStartTS s) rest (closed s) Loop (maxTSItem s) (emitted s) in
      if is_prewrite item then Some (set_pc (Waiting item) s)
      else if commit (maxTSItem s) <? commit item
      then Some (mkSorter (waitStartTS s) rest (closed s) Loop item (emitted s ++ [item]))
      else Some s
    end
  | Waiting item =>
    if negb (bool_decide (start item ∈ waitStartTS s)) then Some (set_pc Loop s)
    else if bool_decide (resolves = Some true)
    then Some (mkSorter (waitStartTS s ∖ {[start item]}) (items s) (closed s) Loop
                 (maxTSItem s) (emitted s))
    else if isClosed s then Some (set_pc Quit s)
    else None
  end.

(** ** Runs
    The sorter interleaved with its clients; ghost state records what was
    pushed, what [run] has finished with, and which transactions the resolver
    settled. *)

Record history := mkHist {
  pushed : list sortItem;
  done_ : list sortItem;
  resolved : gset Z;
}.

Inductive step : sorter * history -> sorter * history -> Prop :=
  | StepPush item s h :
      step (s, h) (pushTSItem item s, mkHist (pushed h ++ [item]) (done_ h) (resolved h))
  | StepClose s h : step (s, h) (close s, h)
  | StepTake resolves s s' item rest h :
      pc s = Loop -> items s = item :: rest -> run_step resolves s = Some s' ->
      step (s, h) (s', if is_prewrite item then h
                       else mkHist (pushed h) (done_ h ++ [item]) (resolved h))
  | StepMatched resolves s s' item h :
      pc s = Waiting item -> start item ∉ waitStartTS s -> run_step resolves s = Some s' ->
      step (s, h) (s', mkHist (pushed h) (done_ h ++ [item]) (resolved h))
  | StepResolved s s' item h :
      pc s = Waiting item -> start item ∈ waitStartTS s -> run_step (Some true) s = Some s' ->
      step (s, h) (s', mkHist (pushed h) (done_ h ++ [item]) ({[start item]} ∪ resolved h))
  | StepQuit resolves s s' h :
      run_step resolves s = Some s' -> pc s' = Quit -> step (s, h) (s', h).

Definition initial : sorter * history := (newSorter, mkHist [] [] ∅).

Definition reachable (sh : sorter * history) : Prop := rtc step initial sh.

(** ** Specification *)

(** The items whose commit timestamp exceeds [m] and every earlier one. *)
Fixpoint maxima (m : Z) (l : list sortItem) : list sortItem :=
  match l with
  | [] => []
  | i :: l =>
    if is_prewrite i then maxima m l
    else if m <? commit i then i :: maxima (commit i) l
    else maxima m l
  end.

(** The largest commit timestamp of [l], or [m]. *)
Fixpoint max_commit (m : Z) (l : list sortItem) : Z :=
  match l with
  | [] => m
  | i :: l => max_commit (if is_prewrite i then m else Z.max m (commit i)) l
  end.

(** The transaction of a prewrite item is settled: its commit or rollback item
    was pushed behind it, or the resolver answered for it. *)
Definition settled (h : history) (after : list sortItem) (i : sortItem) : Prop :=
  (exists c, c ∈ after /\ is_prewrite c = false /\ start c = start i) \/ start i ∈ resolved h.

Lemma maxima_snoc m l i :
  maxima m (l ++ [i]) =
    maxima m l ++ (if is_prewrite i then [] else if max_commit m l <? commit i then [i] else []).
Proof.
  revert m. induction l as [|j l IH]; intros m; simpl.
  - by destruct (is_prewrite i), (m <? commit i).
  - destruct (is_prewrite j); [apply IH|].
    destruct (Z.ltb_spec m (commit j)); simpl; rewrite IH.
    + by rewrite Z.max_r by lia.
    + by rewrite Z.max_l by lia.
Qed.

Lemma max_commit_snoc m l i :
  max_commit m (l ++ [i]) =
    if is_prewrite i then max_commit m l else Z.max (max_commit m l) (commit i).
Proof. revert m. induction l as [|j l IH]; intros m; simpl; [done|]. apply IH. Qed.

Lemma maxima_sorted m l :
  Forall (fun i => m < commit i) (maxima m l) /\
  StronglySorted (fun i j => commit i < commit j) (maxima m l).
Proof.
  revert m. induction l as [|j l IH]; intros m; simpl; [split; constructor|].
  destruct (is_prewrite j); [apply IH|].
  destruct (Z.ltb_spec m (commit j)); [|apply IH].
  destruct (IH (commit j)) as [H1 H2]. split; constructor; try done.
  eapply list.Forall_impl; [exact H1|]. simpl. lia.
Qed.

Lemma max_commit_upper m l :
  m <= max_commit m l /\
  forall i, i ∈ l -> is_prewrite i = false -> commit i <= max_commit m l.
Proof.
  revert m. induction l as [|j l IH]; intros m; simpl.
  { split; [lia|]. by intros i ?%elem_of_nil. }
  destruct (IH (if is_prewrite j then m else Z.max m (commit j))) as [H1 H2]. split.
  - destruct (is_prewrite j); lia.
  - intros i [->|Hi]%elem_of_cons Hp; [rewrite Hp in H1 |- *; lia|by apply H2].
Qed.

(** ** The invariant *)

(** What the wait set knows: a prewrite item that is not waited for is
    settled. *)
Definition wait_ok (s : sorter) (h : history) : Prop :=
  forall before i after, pushed h = before ++ i :: after -> is_prewrite i = true ->
  start i ∉ waitStartTS s -> settled h after i.

Definition in_hand (s : sorter) : list sortItem :=
  match pc s with Waiting i => [i] | _ => [] end.

Record inv (s : sorter) (h : history) : Prop := {
  inv_order : pc s <> Quit -> pushed h = done_ h ++ in_hand s ++ items s;
  inv_prefix : done_ h `prefix_of` pushed h;
  inv_hand : forall i, pc s = Waiting i -> is_prewrite i = true;
  inv_wait : wait_ok s h;
  inv_done : forall before i after, pushed h = before ++ i :: after -> is_prewrite i = true ->
    (length before < length (done_ h))%nat -> settled h after i;
  inv_emitted : emitted s = maxima 0 (done_ h);
  inv_max : commit (maxTSItem s) = max_commit 0 (done_ h);
}.

Lemma inv_initial : inv newSorter (mkHist [] [] ∅).
Proof.
  constructor; simpl; try done.
  - intros before i after H. by destruct before.
  - intros before i after H. by destruct before.
Qed.

Lemma settled_mono h h' after extra i :
  settled h after i -> resolved h ⊆ resolved h' -> settled h' (after ++ extra) i.
Proof.
  intros [(c & Hc & Hp & Hs)|Hr] Hsub; [left|right; set_solver].
  exists c. split; [|done]. apply elem_of_app. by left.
Qed.

Lemma settled_resolved h h' after i :
  settled h after i -> resolved h ⊆ resolved h' -> settled h' after i.
Proof. intros H Hs. rewrite <- (app_nil_r after). by eapply settled_mono. Qed.

Lemma snoc_split {A} (l a b : list A) x i :
  l ++ [x] = a ++ i :: b ->
  (b = [] /\ i = x /\ a = l) \/ exists b', b = b' ++ [x] /\ l = a ++ i :: b'.
Proof.
  destruct b as [|y b _] using rev_ind; intros H.
  - apply app_inj_tail in H as [-> ->]. by left.
  - right. exists b. rewrite app_comm_cons, app_assoc in H.
    apply app_inj_tail in H as [-> ->]. done.
Qed.

Lemma inv_push s h item :
  inv s h -> inv (pushTSItem item s) (mkHist (pushed h ++ [item]) (done_ h) (resolved h)).
Proof.
  intros [Ho Hp Hh Hw Hd He Hm]. constructor; simpl; try done.
  - intros Hq. rewrite Ho by done. unfold in_hand. simpl. by rewrite !app_assoc.
  - by apply prefix_app_r.
  - intros before i after Heq Hi Hnot. simpl in *.
    apply snoc_split in Heq as [(-> & -> & ->)|(b' & -> & Heq)].
    { rewrite Hi in Hnot. set_solver. }
    destruct (decide (start i ∈ waitStartTS s)) as [Hin|Hnin].
    + left. exists item. split; [apply elem_of_app; right; by left|].
      destruct (is_prewrite item); [set_solver|]. split; [done|].
      destruct (decide (start i = start item)); [done|]. set_solver.
    + eapply settled_mono; [by eapply Hw|done].
  - intros before i after Heq Hi Hlt.
    apply snoc_split in Heq as [(-> & -> & ->)|(b' & -> & Heq)].
    { apply prefix_length in Hp. lia. }
    eapply settled_mono; [by eapply Hd|done].
Qed.

(** An item that leaves [run] is the next one of the push order. *)
Lemma done_snoc_prefix (d rest p : list sortItem) item :
  p = d ++ item :: rest -> d ++ [item] `prefix_of` p.
Proof. intros ->. exists rest. by rewrite <- app_assoc. Qed.

(** The clauses about finished items, when [item] is finished. *)
Lemma inv_done_snoc h h' item rest :
  pushed h = done_ h ++ item :: rest -> pushed h' = pushed h ->
  done_ h' = done_ h ++ [item] -> resolved h ⊆ resolved h' ->
  (forall before i after, pushed h = before ++ i :: after -> is_prewrite i = true ->
    (length before < length (done_ h))%nat -> settled h after i) ->
  (is_prewrite item = true -> settled h' rest item) ->
  forall before i after, pushed h' = before ++ i :: after -> is_prewrite i = true ->
    (length before < length (done_ h'))%nat -> settled h' after i.
Proof.
  intros Hp Hp' Hd Hr Hold Hitem before i after Heq Hi Hlt.
  rewrite Hp' in Heq. rewrite Hd, length_app in Hlt. simpl in Hlt.
  destruct (decide (length before < length (done_ h))%nat) as [Hb|Hb].
  { eapply settled_resolved; [by eapply Hold|done]. }
  rewrite Hp in Heq. apply app_inj_1 in Heq as [_ Heq]; [|lia].
  simplify_eq. by apply Hitem.
Qed.

(** What [run_step] does in each situation. *)
Lemma run_step_take resolves s item rest s' :
  pc s = Loop -> items s = item :: rest -> run_step resolves s = Some s' ->
  waitStartTS s' = waitStartTS s /\ items s' = rest /\
  pc s' = (if is_prewrite item then Waiting item else Loop) /\
  emitted s' = emitted s ++
    (if is_prewrite item then [] else
     if commit (maxTSItem s) <? commit item then [item] else []) /\
  commit (maxTSItem s') =
    (if is_prewrite item then commit (maxTSItem s) else Z.max (commit (maxTSItem s)) (commit item)).
Proof.
  intros Hpc Hit. unfold run_step. rewrite Hpc, Hit. simpl.
  destruct (is_prewrite item).
  { intros [= <-]. simpl. by rewrite app_nil_r. }
  destruct (Z.ltb_spec (commit (maxTSItem s)) (commit item)); intros [= <-]; simpl.
  - repeat split. lia.
  - rewrite app_nil_r. repeat split. lia.
Qed.

Lemma run_step_waiting resolves s item s' :
  pc s = Waiting item -> run_step resolves s = Some s' -> pc s' <> Quit ->
  items s' = items s /\ pc s' = Loop /\ emitted s' = emitted s /\ maxTSItem s' = maxTSItem s /\
  waitStartTS s' = waitStartTS s ∖ {[start item]}.
Proof.
  intros Hpc. unfold run_step. rewrite Hpc.
  case_bool_decide as Hin; simpl.
  - case_bool_decide; [by intros [= <-]|]. by destruct (isClosed s); intros [= <-].
  - intros [= <-] _. do 4 (split; [done|]). simpl. apply set_eq. intros x.
    rewrite elem_of_difference, elem_of_singleton. naive_solver.
Qed.

Lemma inv_finish_waiting s s' h item r :
  inv s h -> pc s = Waiting item -> items s' = items s -> pc s' = Loop ->
  emitted s' = emitted s -> maxTSItem s' = maxTSItem s ->
  waitStartTS s' = waitStartTS s ∖ {[start item]} ->
  resolved h ⊆ r ->
  (start item ∉ waitStartTS s \/ start item ∈ r) ->
  inv s' (mkHist (pushed h) (done_ h ++ [item]) r).
Proof.
  intros [Ho Hp Hh Hw Hd He Hm] Hpc Hit Hpc' Hem Hmax Hwait Hsub Hwhy.
  pose proof (Hh _ Hpc) as Hitem.
  assert (Hpush : pushed h = done_ h ++ item :: items s).
  { rewrite Ho by (by rewrite Hpc). unfold in_hand. by rewrite Hpc. }
  assert (Hset : settled (mkHist (pushed h) (done_ h ++ [item]) r) (items s) item).
  { destruct Hwhy as [Hn|Hr]; [|by right].
    eapply settled_resolved; [by eapply Hw|done]. }
  constructor; simpl.
  - intros _. unfold in_hand. by rewrite Hpc', Hit, Hpush, <- app_assoc.
  - by eapply done_snoc_prefix.
  - intros i. by rewrite Hpc'.
  - intros before i after Heq Hi Hnot. rewrite Hwait in Hnot.
    destruct (decide (start i ∈ waitStartTS s)) as [Hin|Hnin].
    + assert (Hst : start i = start item).
      { destruct (decide (start i = start item)); [done|]. destruct Hnot.
        by rewrite elem_of_difference, elem_of_singleton. }
      right. simpl. rewrite Hst. destruct Hwhy as [?|?]; [|done]. congruence.
    + eapply settled_resolved; [by eapply Hw|done].
  - by apply (inv_done_snoc h (mkHist (pushed h) (done_ h ++ [item]) r) item (items s)).
  - rewrite Hem, He, maxima_snoc, Hitem. by rewrite app_nil_r.
  - by rewrite Hmax, Hm, max_commit_snoc, Hitem.
Qed.

Lemma inv_step sh sh' : step sh sh' -> inv sh.1 sh.2 -> inv sh'.1 sh'.2.
Proof.
  destruct 1 as [item s h|s h|res s s' item rest h Hpc Hit Hrun|res s s' item h Hpc Hnin Hrun
                |s s' item h Hpc Hin Hrun|res s s' h Hrun Hq]; simpl; intros Hinv.
  - by apply inv_push.
  - by destruct Hinv; constructor.
  - destruct (run_step_take _ _ _ _ _ Hpc Hit Hrun) as (H1 & H2 & H3 & H4 & H5).
    destruct Hinv as [Ho Hp Hh Hw Hd He Hm].
    assert (Hpush : pushed h = done_ h ++ item :: rest).
    { rewrite Ho by (by rewrite Hpc). unfold in_hand. by rewrite Hpc, Hit. }
    destruct (is_prewrite item) eqn:Hi.
    + constructor; simpl; try done.
      * intros _. unfold in_hand. by rewrite H3, H2, Hpush.
      * intros i. rewrite H3. by intros [= <-].
      * intros before i after. rewrite H1. apply Hw.
      * by rewrite H4, app_nil_r.
      * by rewrite H5.
    + constructor; simpl.
      * intros _. unfold in_hand. by rewrite H3, H2, Hpush, <- app_assoc.
      * by eapply done_snoc_prefix.
      * intros i. by rewrite H3.
      * intros before i after. rewrite H1. apply Hw.
      * apply (inv_done_snoc h (mkHist (pushed h) (done_ h ++ [item]) (resolved h)) item rest);
          try done. by rewrite Hi.
      * by rewrite H4, He, maxima_snoc, Hi, Hm.
      * by rewrite H5, max_commit_snoc, Hi, Hm.
  - assert (Hnq : pc s' <> Quit).
    { unfold run_step in Hrun. rewrite Hpc, bool_decide_eq_false_2 in Hrun by done.
      simpl in Hrun. by simplify_eq. }
    destruct (run_step_waiting _ _ _ _ Hpc Hrun Hnq) as (? & ? & ? & ? & ?).
    eapply (inv_finish_waiting s); eauto.
  - assert (Hnq : pc s' <> Quit).
    { unfold run_step in Hrun. rewrite Hpc, !bool_decide_eq_true_2 in Hrun by done.
      simpl in Hrun. by simplify_eq. }
    destruct (run_step_waiting _ _ _ _ Hpc Hrun Hnq) as (? & ? & ? & ? & ?).
    eapply (inv_finish_waiting s); eauto; [apply union_subseteq_r|right].
    apply elem_of_union. left. by apply elem_of_singleton.
  - assert (Hs' : s' = set_pc Quit s).
    { unfold run_step in Hrun. destruct (pc s) eqn:Hpc.
      - destruct (items s); [destruct (isClosed s); by simplify_eq|].
        destruct (is_prewrite _); [by simplify_eq|]. simpl in Hrun.
        destruct (_ <? _); by simplify_eq.
      - repeat (case_bool_decide || simpl in Hrun); try by simplify_eq.
        destruct (isClosed s); by simplify_eq.
      - done. }
    subst s'. destruct Hinv. by constructor.
Qed.

Lemma reachable_inv sh : reachable sh -> inv sh.1 sh.2.
Proof.
  intros H. unfold reachable in H.
  apply (rtc_ind_r (fun sh => inv sh.1 sh.2) initial) in H; [done|apply inv_initial|].
  intros sh1 sh2 _ Hstep Hinv. by eapply inv_step.
Qed.


(** When the sorter has gone past an item, every prewrite item pushed before it
    is settled: its commit or rollback item has been pushed, or the resolver has
    answered that the transaction needs no further wait. *)
Theorem sorter_settles s h before i after :
  reachable (s, h) -> pushed h = before ++ i :: after -> is_prewrite i = true ->
  (length before < length (done_ h))%nat -> settled h after i.
Proof. intros Hr%reachable_inv. by apply (inv_done s h Hr). Qed.

(** [run] for at most [n] stretches, without the resolver. *)
Fixpoint run_n (n : nat) (s : sorter) : sorter :=
  match n with
  | O => s
  | S n => match run_step None s with Some s => run_n n s | None => s end
  end.

Lemma run_n_S n s s' : run_step None s = Some s' -> run_n (S n) s = run_n n s'.
Proof. intros H. cbn [run_n]. by rewrite H. Qed.

Lemma run_n_idle l : forall n s,
  waitStartTS s = ∅ -> pc s = Loop -> items s = l -> (2 * length l + 1 <= n)%nat ->
  let s' := run_n n s in
  items s' = [] /\ pc s' = (if closed s then Quit else Loop) /\ run_step None s' = None /\
  emitted s' = emitted s ++ maxima (commit (maxTSItem s)) l.
Proof.
  induction l as [|i l IH]; intros n s Hw Hpc Hit Hn s'; simpl in Hn.
  - destruct n as [|n]; [lia|]. unfold s'. cbn [run_n].
    assert (Hrun : run_step None s = if closed s then Some (set_pc Quit s) else None)
      by (unfold run_step, isClosed; by rewrite Hpc, Hit).
    rewrite Hrun. destruct (closed s); simpl; rewrite app_nil_r; [|done].
    by destruct n; simpl; rewrite ?Hit.
  - destruct n as [|[|n]]; [lia..|]. unfold s'.
    set (s1 := mkSorter (waitStartTS s) l (closed s) Loop (maxTSItem s) (emitted s)).
    destruct (is_prewrite i) eqn:Hi.
    + assert (H1 : run_step None s = Some (set_pc (Waiting i) s1))
        by (unfold run_step; by rewrite Hpc, Hit, Hi).
      assert (H2 : run_step None (set_pc (Waiting i) s1) = Some s1).
      { unfold run_step. simpl. rewrite Hw, bool_decide_eq_false_2 by set_solver. done. }
      rewrite (run_n_S _ _ _ H1), (run_n_S _ _ _ H2).
      destruct (IH n s1) as (? & ? & ? & Hem); [done..|lia|].
      do 3 (split; [done|]). rewrite Hem. simpl. by rewrite Hi.
    + destruct (Z.ltb_spec (commit (maxTSItem s)) (commit i)) as [Hlt|Hge].
      * set (s2 := mkSorter (waitStartTS s) l (closed s) Loop i (emitted s ++ [i])).
        assert (H1 : run_step None s = Some s2).
        { unfold run_step. rewrite Hpc, Hit, Hi. simpl. by rewrite (proj2 (Z.ltb_lt _ _) Hlt). }
        rewrite (run_n_S _ _ _ H1).
        destruct (IH (S n) s2) as (? & ? & ? & Hem); [done..|lia|].
        do 3 (split; [done|]). rewrite Hem. simpl. rewrite Hi, (proj2 (Z.ltb_lt _ _) Hlt).
        by rewrite <- app_assoc.
      * assert (H1 : run_step None s = Some s1).
        { unfold run_step. rewrite Hpc, Hit, Hi. simpl. by rewrite (proj2 (Z.ltb_ge _ _) Hge). }
        rewrite (run_n_S _ _ _ H1).
        destruct (IH (S n) s1) as (? & ? & ? & Hem); [done..|lia|].
        do 3 (split; [done|]). rewrite Hem. simpl. by rewrite Hi, (proj2 (Z.ltb_ge _ _) Hge).
Qed.

(** C37: once every prewrite item has its commit item, [run] drains its whole queue
    without the resolver, in at most two stretches per item, reports every new
    maximum, and stops only if the sorter is closed. *)
Theorem sorter_drains s :
  allMatched s = true -> pc s = Loop ->
  let s' := run_n (2 * length (items s) + 1) s in
  items s' = [] /\ pc s' = (if closed s then Quit else Loop) /\ run_step None s' = None /\
  emitted s' = emitted s ++ maxima (commit (maxTSItem s)) (items s).
Proof.
  unfold allMatched. intros Hw%bool_decide_eq_true Hpc. by apply run_n_idle.
Qed.

(** ** Examples *)

Definition P (s : Z) : sortItem := mkItem s 0 BinlogType_Prewrite.
Definition K (s c : Z) : sortItem := mkItem s c BinlogType_Commit.

(** Two transactions whose commits are pushed out of order. *)
Definition demo_sorter : sorter :=
  pushTSItem (K 1 5) (pushTSItem (K 2 4) (pushTSItem (P 2) (pushTSItem (P 1) newSorter))).

Example demo_run : emitted (run_n 9 demo_sorter) = [K 2 4; K 1 5].
Proof. reflexivity. Qed.

(** A prewrite item without its commit item blocks [run] until the resolver
    answers. *)
Example demo_blocked :
  let s := run_n 9 (pushTSItem (K 7 9) (pushTSItem (P 1) newSorter)) in
  emitted s = [] /\ run_step None s = None /\
  option_map (fun s => emitted (run_n 9 s)) (run_step (Some true) s) = Some [K 7 9].
Proof. vm_compute. done. Qed.

Definition demo_history : history := mkHist [P 1; K 1 3] [] ∅.

Lemma demo_reachable :
  reachable (pushTSItem (K 1 3) (pushTSItem (P 1) newSorter), demo_history).
Proof.
  eapply rtc_l; [apply (StepPush (P 1) newSorter (mkHist [] [] ∅))|].
  eapply rtc_l; [apply (StepPush (K 1 3) (pushTSItem (P 1) newSorter) (mkHist [P 1] [] ∅))|].
  apply rtc_refl.
Defined.


Lemma demo_reachable_done :
  reachable (set_pc Loop (mkSorter ∅ [K 1 3] false Loop (mkItem 0 0 BinlogType_Prewrite) []),
             mkHist [P 1; K 1 3] [P 1] ∅).
Proof.
  eapply rtc_r; [eapply rtc_r; [apply demo_reachable|]|].
  - apply (StepTake None _ (set_pc (Waiting (P 1))
      (mkSorter ∅ [K 1 3] false Loop (mkItem 0 0 BinlogType_Prewrite) [])) (P 1) [K 1 3]);
      vm_compute; reflexivity.
  - apply (StepMatched None _ _ (P 1)); [reflexivity|apply not_elem_of_empty|vm_compute; reflexivity].
Defined.

Lemma sorter_settles_witness : settled (mkHist [P 1; K 1 3] [P 1] ∅) [K 1 3] (P 1).
Proof.
  apply (sorter_settles _ _ [] (P 1) [K 1 3] demo_reachable_done); [reflexivity|reflexivity|].
  simpl. lia.
Defined.

Lemma sorter_drains_witness :
  let s := demo_sorter in
  let s' := run_n (2 * length (items s) + 1) s in
  items s' = [] /\ pc s' = (if closed s then Quit else Loop) /\ run_step None s' = None /\
  emitted s' = emitted s ++ maxima (commit (maxTSItem s)) (items s).
Proof. apply (sorter_drains demo_sorter); reflexivity. Defined.
