(* ===== verification/Pipeline.v ===== *)
(** * Pipeline
    The goroutines between [WriteBinlog] and the metadata store of a pump
    ([pump/storage/storage.go], [pump/storage/chaser.go]): the grouping of
    requests into batches, the writer of the value log with its channel [done],
    and the slow chaser, which feeds [done] from the log when the store is slow. *)
From Stdlib Require Import Init.Byte Strings.Byte.
From stdpp Require Import base option list sorting gmap strings.
From S2P Require Import Prelude Binlog LogFile Vlog Sorter.

(** ** Batches *)

(** What a receive of the loop sees: a request, an empty channel (the [default]
    of the select), or a closed one. *)
Inductive recv := Got (r : request) | NotReady | Closed.

Definition received (es : list recv) : list request :=
  omap (fun e => match e with Got r => Some r | _ => None end) es.

(** [batchRequest(reqs, maxBatchNum)]: the buffer, the batches sent and whether
    the goroutine has returned. *)
Record batcher := mkBatcher { bufReqs : list request; batches : list (list request); returned : bool }.

Definition flush (b : batcher) : batcher :=
  match bufReqs b with [] => b | _ => mkBatcher [] (batches b ++ [bufReqs b]) (returned b) end.

(** One turn of its loop; with an empty buffer the [default] case blocks for the
    next request, which is the next event. *)
Definition batchRequest_turn (maxBatchNum : nat) (b : batcher) (e : recv) : batcher :=
  if returned b then b else
  let b := if (maxBatchNum <=? length (bufReqs b))%nat
           then mkBatcher [] (batches b ++ [bufReqs b]) false else b in
  match e with
  | Got r => mkBatcher (bufReqs b ++ [r]) (batches b) false
  | NotReady => flush b
  | Closed => let b := flush b in mkBatcher (bufReqs b) (batches b) true
  end.

Definition batchRequest (maxBatchNum : nat) (es : list recv) : batcher :=
  foldl (batchRequest_turn maxBatchNum) (mkBatcher [] [] false) es.

(** The grouping loop of [writeToValueLog]: batches grow to a size that depends
    on their first request. *)
Definition maxSize (firstSize : Z) : Z :=
  if firstSize <=? 131072 then firstSize + 131072 else 1048576.

Record grouper := mkGrouper { g_buf : list request; g_size : Z; g_writes : list (list request); g_returned : bool }.

(** [write(bufReqs)], which ignores an empty batch, and the reset after it. *)
Definition write_group (g : grouper) : grouper :=
  mkGrouper [] 0 (g_writes g ++ match g_buf g with [] => [] | _ => [g_buf g] end) (g_returned g).

(** A request taken in the first select can complete the group; the first one of
    a group is taken in the [default] case and cannot. *)
Definition group_turn (g : grouper) (e : recv) : grouper :=
  if g_returned g then g else
  match e with
  | Got r =>
    let buf := g_buf g ++ [r] in
    let size := g_size g + len (payload r) in
    let g' := mkGrouper buf size (g_writes g) false in
    match buf with
    | first :: _ => if maxSize (len (payload first)) <=? size then write_group g' else g'
    | [] => g'
    end
  | NotReady => match g_buf g with [] => g | _ => write_group g end
  | Closed => let g := write_group g in mkGrouper (g_buf g) (g_size g) (g_writes g) true
  end.

(** The blocking receive of the [default] case, with an empty buffer. *)
Definition group_first (g : grouper) (e : recv) : grouper :=
  if g_returned g then g else
  match e with
  | Got r => mkGrouper (g_buf g ++ [r]) (g_size g + len (payload r)) (g_writes g) false
  | NotReady => g
  | Closed => mkGrouper (g_buf g) (g_size g) (g_writes g) true
  end.

(** The loop: [NotReady] with an empty buffer makes the next receive a blocking
    one ([true]). *)
Fixpoint group_loop (es : list recv) (blocking : bool) (g : grouper) : grouper :=
  match es with
  | [] => g
  | e :: es =>
    if blocking then
      group_loop es (match e with NotReady => true | _ => false end) (group_first g e)
    else
      group_loop es (match e with NotReady => match g_buf g with [] => true | _ => false end | _ => false end)
        (group_turn g e)
  end.

Definition groups (es : list recv) : grouper := group_loop es false (mkGrouper [] 0 [] false).

(** ** The writer and the slow chaser *)

(** The writer holds [WriteLock] while it sends a batch to [done]. The chaser is
    waiting, scanning (the next index of the log, the length of the log when the
    scan began, and whether it holds the lock to recover), or has caught up once. *)
Inductive writer_pc := WIdle | WSend (rest : list request).
Inductive chaser_pc := CWait | CScan (i limit : nat) (recovering : bool) | CCaughtUp.
Inductive holder := Nobody | Writer | Chaser.

(** [p_log] is the requests of the value log in position order, [acked] those
    whose write was reported as successful, [done] what was sent. *)
Record pipeline := mkPipeline {
  p_log : list request;
  acked : list request;
  done_ : list request;
  on : bool;
  lastUnreadPtr : option valuePointer;
  WriteLock : holder;
  writer : writer_pc;
  chaser : chaser_pc;
}.

Definition newPipeline : pipeline := mkPipeline [] [] [] false None Nobody WIdle CWait.

(** [TurnOn], at the end of a batch, and [turnOff], at the end of a recovery. *)
Definition TurnOn (ptr : valuePointer) (s : pipeline) : pipeline :=
  mkPipeline (p_log s) (acked s) (done_ s) true (Some ptr) (WriteLock s) (writer s) (chaser s).
Definition turnOff (s : pipeline) : pipeline :=
  mkPipeline (p_log s) (acked s) (done_ s) false None (WriteLock s) (writer s) (chaser s).

(** [sc.lastUnreadPtr = &req.valuePointer] during a scan. *)
Definition set_ptr (ptr : valuePointer) (s : pipeline) : pipeline :=
  mkPipeline (p_log s) (acked s) (done_ s) (on s) (Some ptr) (WriteLock s) (writer s) (chaser s).

Definition set_writer (w : writer_pc) (h : holder) (s : pipeline) : pipeline :=
  mkPipeline (p_log s) (acked s) (done_ s) (on s) (lastUnreadPtr s) h w (chaser s).
Definition set_chaser (c : chaser_pc) (h : holder) (s : pipeline) : pipeline :=
  mkPipeline (p_log s) (acked s) (done_ s) (on s) (lastUnreadPtr s) h (writer s) c.
Definition send (r : request) (s : pipeline) : pipeline :=
  mkPipeline (p_log s) (acked s) (done_ s ++ [r]) (on s) (lastUnreadPtr s) (WriteLock s) (writer s) (chaser s).

(** The index of the first entry that is not before a pointer, where
    [scanRequests] begins. *)
Definition scan_start (ptr : valuePointer) (log : list request) : nat :=
  length (filter (fun r => vp_lt (vp r) ptr) log).

(** [write(batch)] up to the sends: [vlog.write] appended [written] to the log;
    without an error that is the whole batch. *)
Definition writer_write (written : list request) (ok : bool) (s : pipeline) : pipeline :=
  let s' := mkPipeline (p_log s ++ written) (acked s ++ if ok then written else []) (done_ s) (on s)
              (lastUnreadPtr s) (WriteLock s) (writer s) (chaser s) in
  if negb ok || on s then s' else set_writer (WSend written) Writer s'.

(** The steps; an impossible one answers [None]. *)
Inductive pstep :=
  | DoWrite (written : list request) (ok : bool)
  | DoSend
  | DoTimeout
  | DoWake
  | DoVisit
  | DoCancel
  | DoScanEnd
  | DoScanFail
  | DoSkip
  | DoRecover.

Definition unlock (recovering : bool) (h : holder) : holder := if recovering then Nobody else h.

Definition pipeline_step (e : pstep) (s : pipeline) : option pipeline :=
  match e, writer s, chaser s with
  | DoWrite written ok, WIdle, _ =>
    match WriteLock s with Nobody => Some (writer_write written ok s) | _ => None end
  | DoSend, WSend (r :: rest), _ => Some (set_writer (WSend rest) Writer (send r s))
  | DoSend, WSend [], _ => Some (set_writer WIdle Nobody s)
  | DoTimeout, WSend (r :: rest), _ => Some (set_writer WIdle Nobody (TurnOn (vp r) s))
  | DoWake, _, CWait =>
    if on s then
      match lastUnreadPtr s with
      | Some ptr => Some (set_chaser (CScan (scan_start ptr (p_log s)) (length (p_log s)) false) (WriteLock s) s)
      | None => Some s
      end
    else None
  | DoVisit, _, CScan i limit recovering =>
    match p_log s !! i with
    | Some r => Some (set_chaser (CScan (S i) limit recovering) (WriteLock s) (send r (set_ptr (vp r) s)))
    | None => None
    end
  | DoCancel, _, CScan i limit recovering =>
    match p_log s !! i with
    | Some r => Some (set_chaser CWait (unlock recovering (WriteLock s)) (set_ptr (vp r) s))
    | None => None
    end
  | DoScanEnd, _, CScan i limit recovering =>
    if (limit <=? i)%nat then
      if recovering then Some (set_chaser CWait Nobody (turnOff s)) else Some (set_chaser CCaughtUp (WriteLock s) s)
    else None
  | DoScanFail, _, CScan i limit recovering => Some (set_chaser CWait (unlock recovering (WriteLock s)) s)
  | DoSkip, _, CCaughtUp => Some (set_chaser CWait (WriteLock s) s)
  | DoRecover, _, CCaughtUp =>
    match WriteLock s, lastUnreadPtr s with
    | Nobody, Some ptr =>
      Some (set_chaser (CScan (scan_start ptr (p_log s)) (length (p_log s)) true) Chaser s)
    | _, _ => None
    end
  | _, _, _ => None
  end.

(** The positions given by the value log grow ([write_positions_increase]). *)
Definition placed_after (written log : list request) : Prop :=
  StronglySorted vp_lt (vp <$> (log ++ written)).

Inductive pipeline_reachable : pipeline -> Prop :=
  | pr_start : pipeline_reachable newPipeline
  | pr_step e s s' : pipeline_reachable s ->
      (forall w ok, e = DoWrite w ok -> placed_after w (p_log s)) ->
      pipeline_step e s = Some s' -> pipeline_reachable s'.

(** ** Batching is lossless *)

Lemma received_snoc es e : received (es ++ [e]) = received es ++ received [e].
Proof. apply omap_app. Qed.

(** Before the channel is closed the batches and the buffer are what was received. *)
Definition batch_inv (max : nat) (es : list recv) (b : batcher) : Prop :=
  concat (batches b) ++ bufReqs b = received es /\ (length (bufReqs b) <= max)%nat /\
  Forall (fun l => l <> [] /\ (length l <= max)%nat) (batches b) /\ returned b = false.

Lemma flush_inv max es b : batch_inv max es b -> batch_inv max es (flush b) /\ bufReqs (flush b) = [].
Proof.
  intros (Hc & Hl & Hf & Hr). unfold flush. destruct (bufReqs b) as [|r buf] eqn:Hb.
  - split; [|done]. split_and!; rewrite ?Hb; done.
  - split; [|done]. split_and!; simpl; [|lia| |done].
    + by rewrite concat_app, app_nil_r; simpl; rewrite app_nil_r.
    + apply Forall_app. split; [done|]. apply Forall_singleton. split; [done|lia].
Qed.

Lemma batch_turn_inv max es b e : (0 < max)%nat -> e <> Closed ->
  batch_inv max es b -> batch_inv max (es ++ [e]) (batchRequest_turn max b e).
Proof.
  intros Hmax He (Hc & Hl & Hf & Hr). unfold batchRequest_turn. rewrite Hr.
  set (b1 := if (max <=? length (bufReqs b))%nat then _ else b).
  assert (Hb1 : batch_inv max es b1 /\ (length (bufReqs b1) < max)%nat).
  { unfold b1. destruct (Nat.leb_spec max (length (bufReqs b))) as [Hge|Hlt]; [|by split].
    split; [|simpl; lia]. split_and!; simpl; [|lia| |done].
    - by rewrite concat_app, app_nil_r; simpl; rewrite app_nil_r.
    - apply Forall_app. split; [done|]. apply Forall_singleton. split; [|lia].
      intros Hn. rewrite Hn in Hge. simpl in Hge. lia. }
  clearbody b1. destruct Hb1 as [Hi Hlt]. destruct e as [r| |]; [| |done].
  - destruct Hi as (Hc1 & _ & Hf1 & _). split_and!; simpl; [|rewrite length_app; simpl; lia|done|done].
    by rewrite received_snoc, app_assoc, Hc1.
  - apply flush_inv in Hi as [(? & ? & ? & ?) _].
    unfold batch_inv. rewrite received_snoc. simpl. by rewrite app_nil_r.
Qed.

Lemma batchRequest_inv max es : (0 < max)%nat -> Closed ∉ es -> batch_inv max es (batchRequest max es).
Proof.
  intros Hmax. induction es as [|e es IH] using rev_ind; intros Hni.
  { split_and!; simpl; [done|lia|constructor|done]. }
  apply not_elem_of_app in Hni as [Hni He]. unfold batchRequest. rewrite foldl_app. simpl.
  apply batch_turn_inv; [done| |by apply IH]. intros ->. apply He. by left.
Qed.

(** Batching loses, repeats and reorders nothing: when the request channel is
    closed the batches sent on are, one after the other, the requests received,
    and each has at least one and at most [maxBatchNum] of them. *)
Theorem batchRequest_lossless max es :
  (0 < max)%nat -> Closed ∉ es ->
  let b := batchRequest max (es ++ [Closed]) in
  returned b = true /\ concat (batches b) = received es /\
  Forall (fun l => l <> [] /\ (length l <= max)%nat) (batches b).
Proof.
  intros Hmax Hni. pose proof (batchRequest_inv max es Hmax Hni) as Hi. unfold batchRequest in *.
  rewrite foldl_app. simpl. set (b := foldl _ _ es) in *.
  pose proof (batch_turn_inv max es b NotReady Hmax ltac:(done) Hi) as Hn.
  unfold batch_inv in Hn. rewrite received_snoc in Hn. simpl in Hn. rewrite app_nil_r in Hn.
  unfold batchRequest_turn in *. destruct Hi as (_ & _ & _ & Hr). rewrite Hr in *. simpl.
  set (b1 := if (max <=? length (bufReqs b))%nat then _ else b) in *.
  destruct Hn as (Hc & _ & Hf & _). split_and!; [done| |done].
  assert (Hnil : bufReqs (flush b1) = []) by (unfold flush; by destruct (bufReqs b1) eqn:E).
  by rewrite Hnil, app_nil_r in Hc.
Qed.

(** ** Grouping is lossless and bounded *)

Definition group_size (l : list request) : Z := foldr (fun r n => len (payload r) + n) 0 l.

Lemma group_size_snoc l r : group_size (l ++ [r]) = group_size l + len (payload r).
Proof. induction l as [|x l IH]; simpl in *; lia. Qed.

(** Everything but the last request of a group fits its limit. *)
Definition group_ok (l : list request) : Prop := exists first init r,
  l = init ++ [r] /\ head l = Some first /\
  (init = [] \/ group_size init < maxSize (len (payload first)) \/ init = [first]).

Definition buf_ok (l : list request) : Prop := exists first, head l = Some first /\
  (group_size l < maxSize (len (payload first)) \/ l = [first]).

Definition group_inv (es : list recv) (g : grouper) : Prop :=
  concat (g_writes g) ++ g_buf g = received es /\ g_size g = group_size (g_buf g) /\
  (g_buf g = [] \/ buf_ok (g_buf g)) /\ Forall group_ok (g_writes g) /\ g_returned g = false.

Lemma buf_ok_snoc buf r : buf = [] \/ buf_ok buf -> group_ok (buf ++ [r]).
Proof.
  intros [->|(first & Hh & Hor)].
  - exists r, [], r. by split_and!; [| |left].
  - exists first, buf, r. split; [done|]. split; [by destruct buf|]. by right.
Qed.

Lemma buf_ok_group buf : buf_ok buf -> group_ok buf.
Proof.
  intros (first & Hh & Hor). destruct buf as [|r buf] using rev_ind; [done|].
  exists first, buf, r. split; [done|]. split; [done|]. clear IHbuf.
  destruct buf as [|x buf]; [by left|]. simpl in Hh. injection Hh as ->. right. left.
  destruct Hor as [Hlt|Heq].
  - change (first :: buf ++ [r]) with ((first :: buf) ++ [r]) in Hlt. rewrite group_size_snoc in Hlt. lia.
  - by destruct buf.
Qed.

Lemma write_group_inv es g : group_inv es g -> group_inv es (write_group g) /\ g_buf (write_group g) = [].
Proof.
  intros (Hc & Hs & Hb & Hf & Hr). split; [|done]. unfold write_group.
  split_and!; simpl; [|done|by left| |done].
  - rewrite app_nil_r, concat_app, <- Hc. f_equal. destruct (g_buf g); [done|]. simpl. by rewrite app_nil_r.
  - apply Forall_app. split; [done|]. destruct (g_buf g) as [|x buf] eqn:E; [constructor|].
    apply Forall_singleton. destruct Hb as [Hb|Hb]; [done|]. by apply buf_ok_group.
Qed.

Lemma group_turn_inv es g e : e <> Closed -> group_inv es g -> group_inv (es ++ [e]) (group_turn g e).
Proof.
  intros He (Hc & Hs & Hb & Hf & Hr). unfold group_turn. rewrite Hr.
  destruct e as [r| |]; [| |done].
  - set (buf := g_buf g ++ [r]). set (g' := mkGrouper buf _ _ _).
    assert (Hcat : concat (g_writes g) ++ buf = received (es ++ [Got r])).
    { unfold buf. by rewrite received_snoc, app_assoc, Hc. }
    assert (Hsz : g_size g + len (payload r) = group_size buf) by (unfold buf; rewrite group_size_snoc; lia).
    assert (Hok : group_ok buf) by by apply buf_ok_snoc.
    destruct buf as [|first rest] eqn:Ebuf; [by destruct (g_buf g)|].
    destruct (Z.leb_spec (maxSize (len (payload first))) (g_size g + len (payload r))) as [Hge|Hlt].
    + unfold write_group. split_and!; simpl; [|done|by left| |done].
      * rewrite app_nil_r, concat_app. simpl. by rewrite app_nil_r.
      * apply Forall_app. split; [done|]. by apply Forall_singleton.
    + split_and!; [done|done| |done|done]. right. exists first. split; [done|]. left.
      unfold g'. cbn [g_buf]. lia.
  - unfold group_inv. rewrite received_snoc. simpl. rewrite app_nil_r.
    destruct (g_buf g) as [|x buf] eqn:E.
    + rewrite E. by split_and!; [| |left| |].
    + apply write_group_inv. by rewrite <- E in *.
Qed.

Lemma group_first_inv es g e : e <> Closed -> g_buf g = [] -> group_inv es g -> group_inv (es ++ [e]) (group_first g e).
Proof.
  intros He Hnil (Hc & Hs & Hb & Hf & Hr). unfold group_first. rewrite Hr.
  destruct e as [r| |]; [| |done].
  - rewrite Hnil in *. split_and!; simpl; [|simpl in Hs; lia| |done|done].
    + rewrite received_snoc. simpl. by rewrite app_nil_r in Hc; rewrite Hc.
    + right. exists r. split; [done|]. by right.
  - unfold group_inv. rewrite received_snoc. simpl. by rewrite app_nil_r.
Qed.

Lemma group_loop_inv es : forall es0 blocking g,
  Closed ∉ es -> (blocking = true -> g_buf g = []) -> group_inv es0 g ->
  exists blocking', forall rest, group_loop (es ++ rest) blocking g = group_loop rest blocking' (group_loop es blocking g)
    /\ (blocking' = true -> g_buf (group_loop es blocking g) = []) /\ group_inv (es0 ++ es) (group_loop es blocking g).
Proof.
  induction es as [|e es IH]; intros es0 blocking g Hni Hblk Hi.
  { exists blocking. intros rest. rewrite app_nil_r. by split_and!. }
  apply not_elem_of_cons in Hni as [He Hni]. cbn [app group_loop].
  rewrite (cons_middle e es0 es), app_assoc. destruct blocking.
  - apply IH; [done| |by apply group_first_inv; [|apply Hblk|]].
    destruct e as [r| |]; [done| |done]. intros _. unfold group_first.
    destruct Hi as (_ & _ & _ & _ & ->). by apply Hblk.
  - apply IH; [done| |by apply group_turn_inv].
    destruct e as [r| |]; [done| |done]. destruct (g_buf g) as [|x buf] eqn:E; [|done].
    intros _. unfold group_turn. destruct Hi as (_ & _ & _ & _ & ->). by rewrite E.
Qed.

(** The writer of the value log groups requests without losing or reordering
    any: when its channel is closed the groups written are, one after the other,
    the requests received; none is empty, and without its last request each group
    is below the size limit that its first request sets. *)
Theorem groups_lossless es :
  Closed ∉ es ->
  let g := groups (es ++ [Closed]) in
  g_returned g = true /\ concat (g_writes g) = received es /\ Forall group_ok (g_writes g).
Proof.
  intros Hni. unfold groups.
  destruct (group_loop_inv es [] false (mkGrouper [] 0 [] false) Hni) as (blk & Hloop); [done| |].
  { split_and!; [done|done|by left|constructor|done]. }
  destruct (Hloop [Closed]) as (-> & Hblk & Hi). simpl in Hi.
  set (g := group_loop es false _) in *. simpl. destruct blk.
  - destruct Hi as (Hc & _ & _ & Hf & Hr). unfold group_first. rewrite Hr. simpl.
    rewrite (Hblk eq_refl), app_nil_r in Hc. done.
  - pose proof (write_group_inv _ _ Hi) as [(Hc & _ & _ & Hf & _) Hnil].
    destruct Hi as (_ & _ & _ & _ & Hr). unfold group_turn. rewrite Hr. cbn [g_returned g_writes].
    by rewrite Hnil, app_nil_r in Hc.
Qed.

(** ** The invariant of writer and chaser *)

Definition vp_le (p q : valuePointer) : Prop := ~ vp_lt q p.

Lemma vp_le_trans p q r : vp_le p q -> vp_le q r -> vp_le p r.
Proof. unfold vp_le. rewrite !vp_lt_spec. lia. Qed.

Lemma vp_lt_le p q : vp_lt p q -> vp_le p q.
Proof. unfold vp_le. rewrite !vp_lt_spec. lia. Qed.

Lemma vp_le_lt_trans p q r : vp_le p q -> vp_lt q r -> vp_lt p r.
Proof. unfold vp_le. rewrite !vp_lt_spec. lia. Qed.

Lemma placed_lt (l1 l2 : list request) r1 r2 :
  StronglySorted vp_lt (vp <$> (l1 ++ l2)) -> r1 ∈ l1 -> r2 ∈ l2 -> vp_lt (vp r1) (vp r2).
Proof.
  rewrite fmap_app. intros Hs H1 H2.
  eapply StronglySorted_app_1_elem_of; [exact Hs| |]; by apply list_elem_of_fmap_2.
Qed.

(** A scan begins where the pointer points. *)
Lemma scan_start_spec ptr log : StronglySorted vp_lt (vp <$> log) ->
  (scan_start ptr log <= length log)%nat /\
  (forall r, r ∈ take (scan_start ptr log) log -> vp_lt (vp r) ptr) /\
  (forall r, r ∈ drop (scan_start ptr log) log -> vp_le ptr (vp r)).
Proof.
  unfold scan_start. induction log as [|x log IH]; intros Hs.
  { split_and!; [done|intros r []%elem_of_nil..]. }
  simpl in Hs. apply StronglySorted_inv in Hs as [Hs Hx]. destruct (IH Hs) as (IH1 & IH2 & IH3).
  rewrite filter_cons. destruct (decide (vp_lt (vp x) ptr)) as [Hlt|Hge].
  - cbn [length take drop]. split_and!; [lia| |done]. intros r [->|Hr]%elem_of_cons; [done|by apply IH2].
  - assert (Hall : forall r, r ∈ log -> vp_le ptr (vp r)).
    { intros r Hr. apply (vp_le_trans _ (vp x)); [done|]. apply vp_lt_le.
      rewrite list.Forall_forall in Hx. by apply Hx, list_elem_of_fmap_2. }
    assert (Hnil : filter (fun r => vp_lt (vp r) ptr) log = []).
    { destruct (filter _ log) as [|r l] eqn:E; [done|]. exfalso.
      assert (Hr : r ∈ filter (fun r => vp_lt (vp r) ptr) log) by (rewrite E; by left).
      apply list_elem_of_filter in Hr as [Hr Hin]. by apply (Hall r Hin). }
    rewrite Hnil. cbn [length take drop]. split_and!; [lia|by intros r []%elem_of_nil|].
    intros r [->|Hr]%elem_of_cons; [done|by apply Hall].
Qed.

(** Where the requests are that were not sent yet: in the hands of the writer, or
    in the log from [lastUnreadPtr] on. *)
Definition writer_phase (s : pipeline) : Prop :=
  chaser s = CWait /\
  match writer s with
  | WIdle => WriteLock s = Nobody /\ forall r, r ∈ acked s -> r ∈ done_ s
  | WSend rest => WriteLock s = Writer /\ exists pre, p_log s = pre ++ rest /\
      (forall r, r ∈ acked s -> r ∈ done_ s \/ r ∈ rest) /\ (forall r, r ∈ done_ s -> r ∈ pre)
  end.

Definition chaser_phase (s : pipeline) : Prop :=
  writer s = WIdle /\ exists ptr, lastUnreadPtr s = Some ptr /\
  (exists q, q ∈ p_log s /\ vp q = ptr) /\
  (forall r, r ∈ acked s -> vp_lt (vp r) ptr -> r ∈ done_ s) /\
  (forall r, r ∈ done_ s -> vp_le (vp r) ptr) /\
  match chaser s with
  | CWait | CCaughtUp => WriteLock s = Nobody
  | CScan i limit recovering =>
    (i <= length (p_log s))%nat /\ (limit <= length (p_log s))%nat /\
    WriteLock s = (if recovering then Chaser else Nobody) /\
    (recovering = true -> limit = length (p_log s)) /\
    (forall r, r ∈ acked s -> r ∈ take i (p_log s) -> r ∈ done_ s) /\
    (forall r, r ∈ drop i (p_log s) -> vp_le ptr (vp r))
  end.

Record pipeline_inv (s : pipeline) : Prop := {
  pi_log : StronglySorted vp_lt (vp <$> p_log s);
  pi_acked : forall r, r ∈ acked s -> r ∈ p_log s;
  pi_done : forall r, r ∈ done_ s -> r ∈ p_log s;
  pi_sorted : StronglySorted vp_le (vp <$> done_ s);
  pi_phase : if on s then chaser_phase s else writer_phase s;
}.

Lemma done_snoc (l : list request) r :
  StronglySorted vp_le (vp <$> l) -> (forall x, x ∈ l -> vp_le (vp x) (vp r)) ->
  StronglySorted vp_le (vp <$> (l ++ [r])).
Proof.
  intros Hs Hle. rewrite fmap_app. apply StronglySorted_app_2; [|done|by repeat constructor].
  intros x y (x' & -> & Hx)%list_elem_of_fmap Hy%list_elem_of_singleton. subst y. by apply Hle.
Qed.

(** The writer. *)
Lemma writer_write_inv written ok s :
  pipeline_inv s -> placed_after written (p_log s) -> writer s = WIdle -> WriteLock s = Nobody ->
  pipeline_inv (writer_write written ok s).
Proof.
  intros [Hlog Hack Hdone Hsort Hph] Hpl Hw Hl. unfold writer_write.
  assert (Hnew : forall r, r ∈ (if ok then written else []) -> r ∈ written)
    by (destruct ok; [done|intros r []%elem_of_nil]).
  destruct (on s) eqn:Hon.
  - replace (negb ok || true) with true by by destruct ok.
    destruct Hph as (_ & ptr & Hptr & (q & Hq & <-) & Hbelow & Hle & Hch).
    assert (Hgt : forall r, r ∈ written -> vp_lt (vp q) (vp r)).
    { intros r Hr. exact (placed_lt _ _ _ _ Hpl Hq Hr). }
    split; simpl; [done| | |done|].
    + intros r [?%Hack|Hr%Hnew]%elem_of_app; apply elem_of_app; auto.
    + intros r ?%Hdone. apply elem_of_app. auto.
    + split; [done|]. exists (vp q). split; [done|]. split; [exists q; split; [apply elem_of_app; by left|done]|].
      split; [|split; [done|]]; simpl.
      * intros r [Hr|Hr%Hnew]%elem_of_app Hlt; [by apply Hbelow|].
        exfalso. by apply (vp_lt_le _ _ (Hgt r Hr)).
      * destruct (chaser s) as [|i limit rec|] eqn:Hc; [done| |done].
        destruct Hch as (Hi & Hlim & Hlk & Hrec & Hcov & Hrest). rewrite Hl in Hlk.
        destruct rec; [done|]. rewrite length_app. split_and!; [lia|lia|done|done| |].
        -- intros r Hr Hin. rewrite take_app_le in Hin by done.
           apply elem_of_app in Hr as [Hr|Hr%Hnew]; [by apply Hcov|]. exfalso.
           assert (Hlt : vp_lt (vp r) (vp r)); [|by apply vp_lt_irrefl in Hlt].
           apply (placed_lt _ _ r r Hpl); [|done]. apply list_elem_of_lookup in Hin as [j Hj].
           apply lookup_take_Some in Hj as [Hj _]. by eapply list_elem_of_lookup_2.
        -- intros r Hr. rewrite drop_app_le in Hr by done.
           apply elem_of_app in Hr as [Hr|Hr]; [by apply Hrest|]. by apply vp_lt_le, Hgt.
  - destruct Hph as [Hc Hph]. rewrite Hw in Hph. destruct Hph as [_ Hall]. rewrite orb_false_r.
    destruct ok; simpl.
    + split; simpl; [done| | |done|].
      * intros r [?%Hack|Hr]%elem_of_app; apply elem_of_app; auto.
      * intros r ?%Hdone. apply elem_of_app. auto.
      * split; [done|]. simpl. split; [done|]. exists (p_log s). split; [done|].
        split; [|done]. intros r [?%Hall|?]%elem_of_app; auto.
    + split; simpl; [done| | |done|].
      * intros r Hr. rewrite app_nil_r in Hr. apply elem_of_app. auto.
      * intros r ?%Hdone. apply elem_of_app. auto.
      * split; [done|]. simpl. rewrite Hw. split; [done|]. intros r Hr.
        rewrite app_nil_r in Hr. auto.
Qed.

Lemma writer_send_inv rest s s' :
  pipeline_inv s -> writer s = WSend rest ->
  pipeline_step DoSend s = Some s' \/ pipeline_step DoTimeout s = Some s' -> pipeline_inv s'.
Proof.
  intros [Hlog Hack Hdone Hsort Hph] Hw Hst. cbn [pipeline_step] in Hst. rewrite Hw in Hst.
  destruct (on s) eqn:Hon; [destruct Hph as [Hw' _]; congruence|].
  destruct Hph as [Hc Hph]. rewrite Hw in Hph. destruct Hph as [Hl (pre & Hpre & Hor & Hin)].
  rewrite Hpre in Hlog. destruct rest as [|r rest].
  { destruct Hst as [Hst|Hst]; [injection Hst as <-|done]. rewrite app_nil_r in *.
    split; simpl; [by rewrite Hpre|done|done|done|]. rewrite Hon. split; [done|]. simpl. split; [done|].
    intros r Hr. by destruct (Hor r Hr) as [?|[]%elem_of_nil]. }
  assert (Hr : r ∈ p_log s) by (rewrite Hpre; apply elem_of_app; right; by left).
  assert (Hbefore : forall x, x ∈ pre -> vp_lt (vp x) (vp r)).
  { intros x Hx. apply (placed_lt _ _ _ _ Hlog Hx). by left. }
  destruct Hst as [Hst|Hst]; injection Hst as <-.
  - split; simpl; [by rewrite Hpre|done| | |].
    + intros x [?%Hdone|Hx%list_elem_of_singleton]%elem_of_app; simplify_eq; done.
    + apply done_snoc; [done|]. intros x Hx. by apply vp_lt_le, Hbefore, Hin.
    + rewrite Hon. split; [done|]. simpl. split; [done|]. exists (pre ++ [r]).
      split; [by rewrite <- app_assoc|]. split.
      * intros x Hx. rewrite elem_of_app, list_elem_of_singleton.
        destruct (Hor x Hx) as [?|[?|?]%elem_of_cons]; auto.
      * intros x [Hx|Hx]%elem_of_app; apply elem_of_app; auto.
  - split; simpl; [by rewrite Hpre|done|done|done|]. split; [done|]. exists (vp r). simpl.
    split; [done|]. split; [by exists r|]. split_and!.
    + intros x Hx Hlt. destruct (Hor x Hx) as [?|Hx']; [done|]. exfalso.
      rewrite fmap_app in Hlog. apply StronglySorted_app_1_r in Hlog. simpl in Hlog.
      apply StronglySorted_inv in Hlog as [_ Hf]. rewrite list.Forall_forall in Hf.
      apply elem_of_cons in Hx' as [->|Hx']; [by apply vp_lt_irrefl in Hlt|].
      apply (vp_lt_le _ _ (Hf (vp x) (list_elem_of_fmap_2 _ _ _ Hx'))). exact Hlt.
    + intros x Hx. by apply vp_lt_le, Hbefore, Hin.
    + by rewrite Hc.
Qed.

(** The chaser: the parts of its phase that a step keeps are passed on. *)
Lemma chaser_idle_inv s c h :
  pipeline_inv s -> on s = true -> c = CWait \/ c = CCaughtUp -> h = Nobody -> pipeline_inv (set_chaser c h s).
Proof.
  intros [Hlog Hack Hdone Hsort Hph] Hon Hc ->. rewrite Hon in Hph.
  destruct Hph as (Hw & ptr & Hptr & Hq & Hbelow & Hle & _).
  split; simpl; [done..|]. rewrite Hon. split; [done|]. exists ptr. split_and!; [done..|].
  by destruct Hc as [-> | ->].
Qed.

Lemma chaser_scan_inv s ptr (recovering : bool) h :
  pipeline_inv s -> on s = true -> lastUnreadPtr s = Some ptr -> h = (if recovering then Chaser else Nobody) ->
  pipeline_inv (set_chaser (CScan (scan_start ptr (p_log s)) (length (p_log s)) recovering) h s).
Proof.
  intros [Hlog Hack Hdone Hsort Hph] Hon Hp ->. rewrite Hon in Hph.
  destruct Hph as (Hw & ptr' & Hptr & Hq & Hbelow & Hle & _).
  assert (ptr' = ptr) as -> by congruence.
  destruct (scan_start_spec ptr (p_log s) Hlog) as (H1 & H2 & H3).
  split; simpl; [done..|]. rewrite Hon. split; [done|]. exists ptr. split_and!; [done..|]. simpl.
  split_and!; [done|done|done|done| |done]. intros r Hr Hin. apply Hbelow; [done|]. by apply H2.
Qed.

Lemma chaser_visit_inv s i limit recovering r :
  pipeline_inv s -> on s = true -> chaser s = CScan i limit recovering -> p_log s !! i = Some r ->
  pipeline_inv (set_chaser (CScan (S i) limit recovering) (WriteLock s) (send r (set_ptr (vp r) s))) /\
  pipeline_inv (set_chaser CWait (unlock recovering (WriteLock s)) (set_ptr (vp r) s)).
Proof.
  intros [Hlog Hack Hdone Hsort Hph] Hon Hc Hi. rewrite Hon in Hph.
  destruct Hph as (Hw & ptr & Hptr & Hq & Hbelow & Hle & Hch). rewrite Hc in Hch.
  destruct Hch as (Hil & Hlim & Hlk & Hrec & Hcov & Hrest).
  assert (Hr : r ∈ p_log s) by by eapply list_elem_of_lookup_2.
  assert (Hsplit : p_log s = take i (p_log s) ++ r :: drop (S i) (p_log s)) by (symmetry; by apply take_drop_middle).
  assert (Hptr_r : vp_le ptr (vp r)).
  { apply Hrest. rewrite (drop_S _ r i Hi). by left. }
  assert (Hafter : forall x, x ∈ drop (S i) (p_log s) -> vp_lt (vp r) (vp x)).
  { intros x Hx. rewrite Hsplit, cons_middle, app_assoc in Hlog.
    apply (placed_lt _ _ _ _ Hlog); [|done]. apply elem_of_app. right. by left. }
  assert (Hlow : forall x, x ∈ acked s -> vp_lt (vp x) (vp r) -> x ∈ done_ s).
  { intros x Hx Hlt. apply Hcov; [done|]. pose proof (Hack x Hx) as Hxl. rewrite Hsplit in Hxl.
    apply elem_of_app in Hxl as [?|[->|Hin]%elem_of_cons]; [done| |]; exfalso.
    - by apply vp_lt_irrefl in Hlt.
    - apply (vp_lt_le _ _ (Hafter x Hin)). exact Hlt. }
  assert (Hdle : forall x, x ∈ done_ s -> vp_le (vp x) (vp r)).
  { intros x Hx. by apply (vp_le_trans _ ptr); [apply Hle|]. }
  split.
  - split; simpl; [done|done| | |].
    + intros x [Hx|Hx%list_elem_of_singleton]%elem_of_app; [by apply Hdone|by subst].
    + by apply done_snoc.
    + rewrite Hon. split; [done|]. exists (vp r). simpl. split; [done|]. split; [by exists r|]. split_and!.
      * intros x Hx Hlt. apply elem_of_app. left. by apply Hlow.
      * intros x [Hx|Hx%list_elem_of_singleton]%elem_of_app; [by apply Hdle|].
        subst. intros Hirr. by apply vp_lt_irrefl in Hirr.
      * apply lookup_lt_Some in Hi. lia.
      * done.
      * done.
      * done.
      * intros x Hx Hin. rewrite (take_S_r _ _ _ Hi) in Hin. apply elem_of_app.
        apply elem_of_app in Hin as [Hin|Hin]; [left; by apply Hcov|by right].
      * intros x Hx. by apply vp_lt_le, Hafter.
  - split; simpl; [done..|]. rewrite Hon. split; [done|]. exists (vp r). simpl.
    split; [done|]. split; [by exists r|]. split_and!; [done|done|]. rewrite Hlk. by destruct recovering.
Qed.

Lemma chaser_off_inv s i limit :
  pipeline_inv s -> on s = true -> chaser s = CScan i limit true -> (limit <= i)%nat ->
  pipeline_inv (set_chaser CWait Nobody (turnOff s)).
Proof.
  intros [Hlog Hack Hdone Hsort Hph] Hon Hc Hle. rewrite Hon in Hph.
  destruct Hph as (Hw & ptr & _ & _ & _ & _ & Hch). rewrite Hc in Hch.
  destruct Hch as (Hil & _ & _ & Hrec & Hcov & _). specialize (Hrec eq_refl).
  split; simpl; [done..|]. split; [done|]. simpl. rewrite Hw. split; [done|].
  intros r Hr. apply Hcov; [done|]. rewrite take_ge by lia. by apply Hack.
Qed.

Lemma chaser_on s : pipeline_inv s -> chaser s <> CWait -> on s = true.
Proof. intros [_ _ _ _ Hph] Hc. destruct (on s); [done|]. by destruct Hph. Qed.

Lemma chaser_lock s : pipeline_inv s -> on s = true ->
  match chaser s with CScan _ _ rec => unlock rec (WriteLock s) = Nobody | _ => WriteLock s = Nobody end.
Proof.
  intros [_ _ _ _ Hph] Hon. rewrite Hon in Hph. destruct Hph as (_ & ptr & _ & _ & _ & _ & Hch).
  destruct (chaser s) as [|i limit []|]; [done|done| |done]. by destruct Hch as (_ & _ & -> & _).
Qed.

Lemma pipeline_step_inv e s s' :
  pipeline_inv s -> (forall w ok, e = DoWrite w ok -> placed_after w (p_log s)) ->
  pipeline_step e s = Some s' -> pipeline_inv s'.
Proof.
  intros Hi Hpl Hst. pose proof (chaser_on s Hi) as Hon. pose proof (chaser_lock s Hi) as Hlk.
  destruct e as [w ok| | | | | | | | |].
  - cbn [pipeline_step] in Hst. destruct (writer s) eqn:Hw; [|done]. destruct (WriteLock s) eqn:Hl; try done.
    injection Hst as <-. apply writer_write_inv; [done| |done|done]. by eapply Hpl.
  - destruct (writer s) as [|rest] eqn:Hw; [by cbn [pipeline_step] in Hst; rewrite Hw in Hst|].
    apply (writer_send_inv rest s); auto.
  - destruct (writer s) as [|rest] eqn:Hw; [by cbn [pipeline_step] in Hst; rewrite Hw in Hst|].
    apply (writer_send_inv rest s); auto.
  - cbn [pipeline_step] in Hst. destruct (writer s), (chaser s) eqn:Hc; try done;
      (destruct (on s) eqn:Ho; [|done]; destruct (lastUnreadPtr s) eqn:Hp; injection Hst as <-; [|done];
       apply chaser_scan_inv; [done|done|done|by apply Hlk]).
  - cbn [pipeline_step] in Hst. destruct (writer s), (chaser s) as [|i limit rec|] eqn:Hc; try done;
      (destruct (p_log s !! i) as [r|] eqn:Hr; [|done]; injection Hst as <-;
       apply (chaser_visit_inv s i limit rec r); [done|by apply Hon|done|done]).
  - cbn [pipeline_step] in Hst. destruct (writer s), (chaser s) as [|i limit rec|] eqn:Hc; try done;
      (destruct (p_log s !! i) as [r|] eqn:Hr; [|done]; injection Hst as <-;
       apply (chaser_visit_inv s i limit rec r); [done|by apply Hon|done|done]).
  - cbn [pipeline_step] in Hst. destruct (writer s), (chaser s) as [|i limit rec|] eqn:Hc; try done;
      (destruct (Nat.leb_spec limit i) as [Hle|]; [|done]; destruct rec; injection Hst as <-;
       [apply (chaser_off_inv s i limit); [done|by apply Hon|done|done]
       |apply chaser_idle_inv; [done|by apply Hon|by right|by apply Hlk, Hon]]).
  - cbn [pipeline_step] in Hst. destruct (writer s), (chaser s) as [|i limit rec|] eqn:Hc; try done;
      (injection Hst as <-; apply chaser_idle_inv; [done|by apply Hon|by left|by apply Hlk, Hon]).
  - cbn [pipeline_step] in Hst. destruct (writer s), (chaser s) as [|i limit rec|] eqn:Hc; try done;
      (injection Hst as <-; apply chaser_idle_inv; [done|by apply Hon|by left|by apply Hlk, Hon]).
  - cbn [pipeline_step] in Hst. destruct (writer s), (chaser s) as [|i limit rec|] eqn:Hc; try done;
      (destruct (WriteLock s); try done; destruct (lastUnreadPtr s) eqn:Hp; [|done]; injection Hst as <-;
       apply chaser_scan_inv; [done|by apply Hon|done|done]).
Qed.

Lemma pipeline_reachable_inv s : pipeline_reachable s -> pipeline_inv s.
Proof.
  induction 1 as [|e s s' _ IH Hpl Hst]; [|by eapply pipeline_step_inv].
  split; simpl; [constructor|by intros r []%elem_of_nil..|constructor|].
  split; [done|]. simpl. split; [done|]. by intros r []%elem_of_nil.
Qed.

(** C32: What reaches the metadata writer follows the log: the requests sent on are
    in log order (a request may be repeated, never passed), and once a request has
    been sent, every request before it whose write was reported as successful has
    been sent too, however the store stalls, the chaser takes over, fails, is
    cancelled or hands back. So the head pointer, the position of the last request
    filed, never runs ahead of a binlog that is not filed. *)
Theorem pipeline_no_gap s :
  pipeline_reachable s ->
  StronglySorted vp_le (vp <$> done_ s) /\
  (forall d, d ∈ done_ s -> d ∈ p_log s) /\
  (forall r d, r ∈ acked s -> d ∈ done_ s -> vp_lt (vp r) (vp d) -> r ∈ done_ s).
Proof.
  intros Hr. destruct (pipeline_reachable_inv s Hr) as [Hlog Hack Hdone Hsort Hph].
  split_and!; [done|done|]. intros r d Ha Hd Hlt. destruct (on s).
  - destruct Hph as (_ & ptr & _ & _ & Hbelow & Hle & _). apply Hbelow; [done|].
    destruct (vp_lt_trichotomy (vp d) ptr) as [H|[<-|H]]; [by etrans|done|by destruct (Hle d Hd)].
  - destruct Hph as [_ Hph]. destruct (writer s) as [|rest]; [by apply Hph|].
    destruct Hph as [_ (pre & Hpre & Hor & Hin)]. destruct (Hor r Ha) as [?|Hrest]; [done|].
    exfalso. rewrite Hpre in Hlog.
    apply (vp_lt_le _ _ (placed_lt _ _ _ _ Hlog (Hin d Hd) Hrest)). exact Hlt.
Qed.

(** ** The chaser can always hand back *)

(** A step of the pipeline that is not a new write. *)
Definition internal (s s' : pipeline) : Prop :=
  exists e, (forall w ok, e <> DoWrite w ok) /\ pipeline_step e s = Some s'.

Lemma internal_keeps s s' : internal s s' -> pipeline_inv s ->
  pipeline_inv s' /\ p_log s' = p_log s /\ acked s' = acked s.
Proof.
  intros (e & He & Hst) Hi. split; [eapply pipeline_step_inv; [done| |done]; intros w ok ->; by destruct (He w ok)|].
  destruct e as [w ok| | | | | | | | |]; [by destruct (He w ok)|..];
    cbn [pipeline_step] in Hst; repeat case_match; simplify_eq; done.
Qed.

Lemma internal_rtc_keeps s s' : rtc internal s s' -> pipeline_inv s ->
  pipeline_inv s' /\ p_log s' = p_log s /\ acked s' = acked s.
Proof.
  induction 1 as [s|s s1 s' Hst _ IH]; intros Hi; [done|].
  destruct (internal_keeps _ _ Hst Hi) as (Hi1 & Hl & Ha). destruct (IH Hi1) as (? & ? & ?).
  split_and!; [done|congruence..].
Qed.

Lemma internal_step e s s' : (forall w ok, e <> DoWrite w ok) -> pipeline_step e s = Some s' -> internal s s'.
Proof. intros. by exists e. Qed.

Lemma drain_writer rest : forall s, writer s = WSend rest ->
  exists s', rtc internal s s' /\ writer s' = WIdle /\ on s' = on s.
Proof.
  induction rest as [|r rest IH]; intros s Hw.
  - exists (set_writer WIdle Nobody s). split; [|done]. apply rtc_once, (internal_step DoSend); [done|].
    cbn [pipeline_step]. by rewrite Hw.
  - destruct (IH (set_writer (WSend rest) Writer (send r s))) as (s' & Hs & ? & ?); [done|].
    exists s'. split; [|done]. eapply rtc_l; [|exact Hs]. apply (internal_step DoSend); [done|].
    cbn [pipeline_step]. by rewrite Hw.
Qed.

(** A scan reaches the end of the log. *)
Lemma scan_finishes n : forall s i limit recovering,
  chaser s = CScan i limit recovering -> (i + n = length (p_log s))%nat ->
  exists s', rtc internal s s' /\ chaser s' = CScan (length (p_log s)) limit recovering /\
    WriteLock s' = WriteLock s /\ on s' = on s.
Proof.
  induction n as [|n IH]; intros s i limit recovering Hc Hn.
  - exists s. split; [done|]. by replace (length (p_log s)) with i by lia.
  - destruct (lookup_lt_is_Some_2 (p_log s) i) as [r Hr]; [lia|].
    destruct (IH (set_chaser (CScan (S i) limit recovering) (WriteLock s) (send r (set_ptr (vp r) s)))
      (S i) limit recovering) as (s' & Hs & ? & ? & ?); [done|simpl; lia|].
    exists s'. split; [|done]. eapply rtc_l; [|exact Hs]. apply (internal_step DoVisit); [done|].
    cbn [pipeline_step]. rewrite Hc, Hr. by destruct (writer s).
Qed.

Lemma scan_bounds s i limit recovering : pipeline_inv s -> chaser s = CScan i limit recovering ->
  (i <= length (p_log s))%nat /\ (limit <= length (p_log s))%nat.
Proof.
  intros Hi Hc. assert (Hon : on s = true) by (apply chaser_on; [done|by rewrite Hc]).
  destruct Hi as [_ _ _ _ Hph]. rewrite Hon in Hph. destruct Hph as (_ & ptr & _ & _ & _ & _ & Hch).
  rewrite Hc in Hch. by destruct Hch as (? & ? & _).
Qed.

Lemma chaser_ptr s : pipeline_inv s -> on s = true -> exists ptr, lastUnreadPtr s = Some ptr.
Proof. intros [_ _ _ _ Hph] Hon. rewrite Hon in Hph. destruct Hph as (_ & ptr & ? & _). by exists ptr. Qed.

Lemma recovery_finishes s i limit : pipeline_inv s -> chaser s = CScan i limit true ->
  exists s', rtc internal s s' /\ on s' = false.
Proof.
  intros Hi Hc. destruct (scan_bounds _ _ _ _ Hi Hc) as [H1 H2].
  destruct (scan_finishes (length (p_log s) - i) s i limit true Hc) as (s1 & Hs1 & Hc1 & _ & _); [lia|].
  exists (set_chaser CWait Nobody (turnOff s1)). split; [|done]. eapply rtc_r; [exact Hs1|].
  apply (internal_step DoScanEnd); [done|]. cbn [pipeline_step]. rewrite Hc1.
  rewrite (proj2 (Nat.leb_le _ _)) by lia. by destruct (writer s1).
Qed.

Lemma caught_up_finishes s : pipeline_inv s -> chaser s = CCaughtUp -> exists s', rtc internal s s' /\ on s' = false.
Proof.
  intros Hi Hc. assert (Hon : on s = true) by (apply chaser_on; [done|by rewrite Hc]).
  pose proof (chaser_lock s Hi Hon) as Hl. rewrite Hc in Hl.
  destruct (chaser_ptr s Hi Hon) as [ptr Hp].
  assert (Hst : internal s (set_chaser (CScan (scan_start ptr (p_log s)) (length (p_log s)) true) Chaser s)).
  { apply (internal_step DoRecover); [done|]. cbn [pipeline_step]. rewrite Hc, Hl, Hp. by destruct (writer s). }
  destruct (internal_keeps _ _ Hst Hi) as (Hi' & _ & _).
  destruct (recovery_finishes _ _ _ Hi' eq_refl) as (s' & Hs & Hoff). exists s'. split; [|done].
  by eapply rtc_l.
Qed.

Lemma scan_then_finishes s i limit : pipeline_inv s -> chaser s = CScan i limit false ->
  exists s', rtc internal s s' /\ on s' = false.
Proof.
  intros Hi Hc. destruct (scan_bounds _ _ _ _ Hi Hc) as [H1 H2].
  destruct (scan_finishes (length (p_log s) - i) s i limit false Hc) as (s1 & Hs1 & Hc1 & _ & _); [lia|].
  destruct (internal_rtc_keeps _ _ Hs1 Hi) as (Hi1 & _ & _).
  assert (Hst : internal s1 (set_chaser CCaughtUp (WriteLock s1) s1)).
  { apply (internal_step DoScanEnd); [done|]. cbn [pipeline_step]. rewrite Hc1.
    rewrite (proj2 (Nat.leb_le _ _)) by lia. by destruct (writer s1). }
  destruct (internal_keeps _ _ Hst Hi1) as (Hi2 & _ & _).
  destruct (caught_up_finishes _ Hi2 eq_refl) as (s' & Hs & Hoff). exists s'. split; [|done].
  etrans; [exact Hs1|]. by eapply rtc_l.
Qed.

(** Every request whose write was reported as successful reaches the metadata
    writer: whenever the slow chaser is off and the writer is between batches, all
    of them have been sent; and from every reachable state, without a further
    write, the chaser can catch up and hand back so that this holds. *)
Theorem pipeline_delivers s :
  pipeline_reachable s ->
  (on s = false -> writer s = WIdle -> forall r, r ∈ acked s -> r ∈ done_ s) /\
  exists s', rtc internal s s' /\ on s' = false /\ writer s' = WIdle /\
    acked s' = acked s /\ forall r, r ∈ acked s -> r ∈ done_ s'.
Proof.
  intros Hr. pose proof (pipeline_reachable_inv s Hr) as Hi. clear Hr.
  assert (Hidle : forall s, pipeline_inv s -> on s = false -> writer s = WIdle ->
    forall r, r ∈ acked s -> r ∈ done_ s).
  { intros s1 [_ _ _ _ Hph] Hoff Hw. rewrite Hoff in Hph. destruct Hph as [_ Hph]. rewrite Hw in Hph. apply Hph. }
  split; [by apply Hidle|].
  assert (Hoff : exists s1, rtc internal s s1 /\ on s1 = false).
  { destruct (on s) eqn:Hon; [|by exists s]. destruct (chaser s) as [|i limit [|]|] eqn:Hc.
    - destruct (chaser_ptr s Hi Hon) as [ptr Hp].
      assert (Hst : internal s (set_chaser (CScan (scan_start ptr (p_log s)) (length (p_log s)) false) (WriteLock s) s)).
      { apply (internal_step DoWake); [done|]. cbn [pipeline_step]. rewrite Hc, Hon, Hp. by destruct (writer s). }
      destruct (internal_keeps _ _ Hst Hi) as (Hi' & _ & _).
      destruct (scan_then_finishes _ _ _ Hi' eq_refl) as (s' & Hs & ?). exists s'. split; [by eapply rtc_l|done].
    - by eapply recovery_finishes.
    - by eapply scan_then_finishes.
    - by eapply caught_up_finishes. }
  destruct Hoff as (s1 & Hs1 & Hoff).
  assert (Hw : exists s2, rtc internal s1 s2 /\ writer s2 = WIdle /\ on s2 = false).
  { destruct (writer s1) as [|rest] eqn:E; [by exists s1|].
    destruct (drain_writer rest s1 E) as (s2 & ? & ? & ?). exists s2. split_and!; [done|done|congruence]. }
  destruct Hw as (s2 & Hs2 & Hw & Hoff2). assert (Hs : rtc internal s s2) by by etrans.
  destruct (internal_rtc_keeps _ _ Hs Hi) as (Hi2 & _ & Ha). exists s2. split_and!; [done..|].
  intros r. rewrite <- Ha. by apply Hidle.
Qed.

(** ** Examples *)
Module PipelineExamples.

Definition req (ts off : Z) : request := mkRequest ts 0 BinlogType_Prewrite [] (mkVP 0 off) None.

Lemma batchRequest_lossless_witness :
  concat (batches (batchRequest 2 [Got (req 1 0); Got (req 2 10); Got (req 3 20); NotReady; Closed]))
  = [req 1 0; req 2 10; req 3 20].
Proof.
  apply (batchRequest_lossless 2 [Got (req 1 0); Got (req 2 10); Got (req 3 20); NotReady]).
  - lia.
  - by intros H; repeat apply elem_of_cons in H as [[=]|H]; apply elem_of_nil in H.
Defined.

Lemma groups_lossless_witness :
  concat (g_writes (groups [NotReady; Got (req 1 0); Got (req 2 10); NotReady; Got (req 3 20); Closed]))
  = [req 1 0; req 2 10; req 3 20].
Proof.
  apply (groups_lossless [NotReady; Got (req 1 0); Got (req 2 10); NotReady; Got (req 3 20)]).
  by intros H; repeat apply elem_of_cons in H as [[=]|H]; apply elem_of_nil in H.
Defined.

(** The store stalls on the second request of a batch; the chaser takes over,
    another batch is written meanwhile, and a second scan repeats the last
    request that was sent. *)
Definition stalled_run : list pstep :=
  [DoWrite [req 1 0; req 2 10] true; DoSend; DoTimeout; DoWake; DoWrite [req 3 20] true; DoVisit; DoScanFail;
   DoWake; DoVisit; DoVisit; DoScanEnd].

Fixpoint run_steps (es : list pstep) (s : pipeline) : option pipeline :=
  match es with [] => Some s | e :: es => pipeline_step e s ≫= run_steps es end.

Definition stalled : pipeline := Eval vm_compute in default newPipeline (run_steps stalled_run newPipeline).

Example stalled_done : startTS <$> done_ stalled = [1; 2; 2; 3].
Proof. reflexivity. Qed.

(** Every write of a run places its requests after the log it finds. *)
Fixpoint writes_placed (es : list pstep) (s : pipeline) : Prop :=
  match es with
  | [] => True
  | e :: es =>
    match e with DoWrite w _ => placed_after w (p_log s) | _ => True end /\
    match pipeline_step e s with Some s => writes_placed es s | None => True end
  end.

Lemma run_reachable es : forall s s',
  pipeline_reachable s -> writes_placed es s -> run_steps es s = Some s' -> pipeline_reachable s'.
Proof.
  induction es as [|e es IH]; intros s s' Hr Hpl Hrun; [by injection Hrun as <-|].
  simpl in Hrun, Hpl. destruct Hpl as [Hw Hpl]. destruct (pipeline_step e s) as [s1|] eqn:E; [|done].
  apply (IH s1); [|done|done]. eapply pr_step; [exact Hr| |exact E]. by intros w ok ->.
Qed.

Lemma stalled_reachable : pipeline_reachable stalled.
Proof.
  apply (run_reachable stalled_run newPipeline); [constructor| |reflexivity].
  unfold stalled_run. cbn. unfold placed_after. repeat split; repeat constructor.
Qed.

Lemma pipeline_no_gap_witness : StronglySorted vp_le (vp <$> done_ stalled).
Proof. apply (pipeline_no_gap stalled stalled_reachable). Defined.

Lemma pipeline_delivers_witness : exists s', rtc internal stalled s' /\ on s' = false /\ req 3 20 ∈ done_ s'.
Proof.
  destruct (pipeline_delivers stalled stalled_reachable) as [_ (s' & Hs & Hoff & _ & _ & Hall)].
  exists s'. split; [exact Hs|]. split; [exact Hoff|]. apply Hall. do 2 right. left.
Defined.

End PipelineExamples.
