(* ===== verification/Metadata.v ===== *)
(** * Metadata
    The metadata store of a pump: timestamp keys ([pump/storage/util.go]) and the
    key-value store that holds them.  The store is goleveldb, a third-party
    library: the class [KV] is what the pump calls and [KVOk] what leveldb
    documents (an ordered map, atomic batches, iteration in bytewise order). *)
From Stdlib Require Import Init.Byte Strings.Byte.
From stdpp Require Import base option list sorting gmap strings.
From S2P Require Import Prelude.

(** ** Bytewise order *)

Fixpoint bytes_ltb (a b : list byte) : bool :=
  match a, b with
  | [], [] => false
  | [], _ :: _ => true
  | _ :: _, [] => false
  | x :: a, y :: b =>
    if byte_to_Z x <? byte_to_Z y then true
    else if byte_to_Z y <? byte_to_Z x then false
    else bytes_ltb a b
  end.

Definition bytes_lt (a b : list byte) : Prop := bytes_ltb a b = true.

#[export] Instance bytes_lt_dec a b : Decision (bytes_lt a b) := decide (_ = true).

Lemma bytes_ltb_snoc a b x y : length a = length b ->
  bytes_ltb (a ++ [x]) (b ++ [y]) =
    bytes_ltb a b || (bool_decide (a = b) && (byte_to_Z x <? byte_to_Z y)).
Proof.
  revert b. induction a as [|c a IH]; intros [|d b] Hl; try done; simpl.
  - destruct (Z.ltb_spec (byte_to_Z x) (byte_to_Z y)), (Z.ltb_spec (byte_to_Z y) (byte_to_Z x)); done || lia.
  - destruct (Z.ltb_spec (byte_to_Z c) (byte_to_Z d)); [done|].
    destruct (Z.ltb_spec (byte_to_Z d) (byte_to_Z c)).
    + rewrite bool_decide_eq_false_2; [done|]. intros [= -> _]. lia.
    + assert (c = d) as -> by (apply byte_to_Z_inj; lia). rewrite IH by (simpl in Hl; lia).
      f_equal. f_equal. apply bool_decide_ext. split; congruence.
Qed.

Lemma be_bytes_S n z : be_bytes (S n) z = be_bytes n (z / 256) ++ [byte_of_Z z].
Proof. unfold be_bytes. cbn [le_bytes]. apply reverse_cons. Qed.

Lemma be_bytes_inj n z z' : 0 <= z < 256 ^ Z.of_nat n -> 0 <= z' < 256 ^ Z.of_nat n ->
  be_bytes n z = be_bytes n z' -> z = z'.
Proof.
  intros Hz Hz' Heq%(f_equal be_value). rewrite !be_value_bytes, !Z.mod_small in Heq by done. done.
Qed.

(** Big-endian integers compare as their bytes do. *)
Lemma be_bytes_order n : forall z z', 0 <= z < 256 ^ Z.of_nat n -> 0 <= z' < 256 ^ Z.of_nat n ->
  bytes_ltb (be_bytes n z) (be_bytes n z') = (z <? z').
Proof.
  induction n as [|n IH]; intros z z' Hz Hz'.
  { change (256 ^ Z.of_nat 0) with 1 in *. replace z with 0 by lia. replace z' with 0 by lia. done. }
  rewrite Nat2Z.inj_succ, Z.pow_succ_r in Hz, Hz' by lia.
  assert (Hd : forall w, 0 <= w < 256 * 256 ^ Z.of_nat n -> 0 <= w / 256 < 256 ^ Z.of_nat n).
  { intros w Hw. split; [apply Z.div_pos; lia|apply Z.div_lt_upper_bound; lia]. }
  rewrite !be_bytes_S, bytes_ltb_snoc by by rewrite !length_be_bytes.
  rewrite IH, !byte_to_of_Z by auto.
  pose proof (Z.div_mod z 256). pose proof (Z.div_mod z' 256).
  pose proof (Z.mod_pos_bound z 256). pose proof (Z.mod_pos_bound z' 256).
  destruct (Z.ltb_spec (z / 256) (z' / 256)); simpl.
  - symmetry. apply Z.ltb_lt. lia.
  - case_bool_decide as He; simpl.
    + apply be_bytes_inj in He; [|auto..].
      destruct (Z.ltb_spec (z mod 256) (z' mod 256)), (Z.ltb_spec z z'); done || lia.
    + symmetry. apply Z.ltb_ge.
      assert (z / 256 <> z' / 256) by (intros Heq; apply He; by rewrite Heq). lia.
Qed.

(** ** Timestamp keys *)

Definition tsKeyPrefix : list byte := [x74; x73; x3a].  (* ts: *)

Definition encodeTSKey (ts : Z) : list byte := tsKeyPrefix ++ be_bytes 8 (wrap_u64 ts).

(** [decodeTSKey]: the bound check panics on a short key. *)
Definition decodeTSKey (key : list byte) : outcome Z :=
  if (length key <? length tsKeyPrefix + 8)%nat then Panic
  else Ret (wrap_i64 (be_value (take 8 (drop (length tsKeyPrefix) key)))).

Lemma decode_encodeTSKey ts : in_i64 ts -> decodeTSKey (encodeTSKey ts) = Ret ts.
Proof.
  intros Hts. unfold decodeTSKey, encodeTSKey.
  rewrite (proj2 (Nat.ltb_ge _ _)) by (rewrite length_app, length_be_bytes; lia).
  rewrite drop_app_length, take_ge by by rewrite length_be_bytes.
  rewrite be_value_bytes, Z.mod_small by apply wrap_u64_range. by rewrite wrap_i64_u64.
Qed.

Lemma wrap_u64_id z : in_u64 z -> wrap_u64 z = z.
Proof. intros Hz. apply Z.mod_small, Hz. Qed.

Lemma encodeTSKey_ltb ts ts' : in_u64 ts -> in_u64 ts' ->
  bytes_ltb (encodeTSKey ts) (encodeTSKey ts') = (ts <? ts').
Proof.
  intros Hts Hts'. change (bytes_ltb (be_bytes 8 (wrap_u64 ts)) (be_bytes 8 (wrap_u64 ts')) = (ts <? ts')).
  rewrite be_bytes_order.
  - by rewrite !wrap_u64_id.
  - apply wrap_u64_range.
  - apply wrap_u64_range.
Qed.

Lemma encodeTSKey_inj ts ts' : in_i64 ts -> in_i64 ts' -> encodeTSKey ts = encodeTSKey ts' -> ts = ts'.
Proof.
  intros Hts Hts' Heq%(f_equal decodeTSKey). rewrite !decode_encodeTSKey in Heq by done. congruence.
Qed.

(** Timestamp keys keep timestamps: decoding an encoded key gives it back for
    every [int64], and for timestamps that are not negative the bytewise order of
    the keys, in which the store iterates, is the order of the timestamps. *)
Theorem tsKey_roundtrip_ordered ts ts' :
  in_i64 ts -> 0 <= ts' < 2 ^ 63 ->
  decodeTSKey (encodeTSKey ts) = Ret ts /\
  (0 <= ts -> (bytes_lt (encodeTSKey ts) (encodeTSKey ts') <-> ts < ts')).
Proof.
  intros Hts Hts'. split; [by apply decode_encodeTSKey|]. intros H0. unfold bytes_lt.
  rewrite encodeTSKey_ltb, Z.ltb_lt by (unfold in_i64, in_u64 in *; lia). done.
Qed.

(** The key order is not the timestamp order below zero: the key of every
    negative timestamp is above the keys of all others. *)
Lemma tsKey_negative_lt ts ts' :
  - 2 ^ 63 <= ts < 0 -> 0 <= ts' < 2 ^ 63 -> bytes_lt (encodeTSKey ts') (encodeTSKey ts).
Proof.
  intros Hts Hts'.
  change (bytes_ltb (be_bytes 8 (wrap_u64 ts')) (be_bytes 8 (wrap_u64 ts)) = true).
  rewrite be_bytes_order by apply wrap_u64_range. apply Z.ltb_lt.
  rewrite (wrap_u64_id ts') by eauto with go. unfold wrap_u64.
  replace (ts mod 2 ^ 64) with (ts + 2 ^ 64); [lia|].
  rewrite <- (Z.mod_add ts 1) by lia. rewrite Z.mod_small; lia.
Qed.

(** ** The store *)

Inductive kv_op := OpPut (k v : list byte) | OpDelete (k : list byte).

(** The calls the pump makes. [Get] answers [None] for [leveldb.ErrNotFound]. *)
Class KV (DB : Type) := {
  KGet : list byte -> DB -> outcome (option (list byte));
  KWrite : list kv_op -> DB -> outcome DB;
  KIter : list byte -> list byte -> DB -> list (list byte * list byte);
}.

Definition apply_op (m : gmap (list byte) (list byte)) (o : kv_op) : gmap (list byte) (list byte) :=
  match o with OpPut k v => <[k := v]> m | OpDelete k => delete k m end.

Definition apply_ops (ops : list kv_op) (m : gmap (list byte) (list byte)) : gmap (list byte) (list byte) :=
  foldl apply_op m ops.

Class KVOk (DB : Type) `{KV DB} := {
  kv_map : DB -> gmap (list byte) (list byte);
  kget_ok k db : KGet k db = Ret (kv_map db !! k) \/ exists e, KGet k db = Fail e;
  kwrite_ok ops db db' : KWrite ops db = Ret db' -> kv_map db' = apply_ops ops (kv_map db);
  kwrite_no_panic ops db : KWrite ops db <> Panic;
  kiter_sorted s l db : StronglySorted bytes_lt (KIter s l db).*1;
  kiter_elem s l db k v : (k, v) ∈ KIter s l db <->
    kv_map db !! k = Some v /\ bytes_lt k l /\ ~ bytes_lt k s;
}.

(** ** A concrete store
    A finite map on a disk that may be full, so that writes fail. *)
Record mapDB := mkMapDB { store : gmap (list byte) (list byte); disk_full : bool }.

Definition entry_le (p q : list byte * list byte) : Prop := ~ bytes_lt q.1 p.1.
#[export] Instance entry_le_dec p q : Decision (entry_le p q).
Proof. unfold entry_le. apply _. Defined.

#[export] Instance mapDB_KV : KV mapDB := {
  KGet k db := Ret (store db !! k);
  KWrite ops db := if disk_full db then Fail (Err "no space left on device")
                   else Ret (mkMapDB (apply_ops ops (store db)) (disk_full db));
  KIter s l db := merge_sort entry_le
    (filter (fun p => bytes_lt p.1 l /\ ~ bytes_lt p.1 s) (map_to_list (store db)));
}.

Lemma bytes_ltb_irrefl a : bytes_ltb a a = false.
Proof. induction a as [|x a IH]; [done|]. simpl. by rewrite Z.ltb_irrefl. Qed.

Lemma bytes_lt_total a b : bytes_lt a b \/ a = b \/ bytes_lt b a.
Proof.
  unfold bytes_lt. revert b. induction a as [|x a IH]; intros [|y b]; simpl; auto.
  destruct (Z.ltb_spec (byte_to_Z x) (byte_to_Z y)); [auto|].
  destruct (Z.ltb_spec (byte_to_Z y) (byte_to_Z x)); [auto|].
  assert (x = y) as -> by (apply byte_to_Z_inj; lia).
  destruct (IH b) as [?|[->|?]]; auto.
Qed.

Lemma bytes_lt_trans a b c : bytes_lt a b -> bytes_lt b c -> bytes_lt a c.
Proof.
  unfold bytes_lt. revert b c. induction a as [|x a IH]; intros [|y b] [|z c]; simpl; try done.
  destruct (Z.ltb_spec (byte_to_Z x) (byte_to_Z y)).
  - intros _. destruct (Z.ltb_spec (byte_to_Z y) (byte_to_Z z)).
    + intros _. by rewrite (proj2 (Z.ltb_lt (byte_to_Z x) (byte_to_Z z))) by lia.
    + destruct (Z.ltb_spec (byte_to_Z z) (byte_to_Z y)); [done|]. intros _.
      by rewrite (proj2 (Z.ltb_lt (byte_to_Z x) (byte_to_Z z))) by lia.
  - destruct (Z.ltb_spec (byte_to_Z y) (byte_to_Z x)); [done|]. intros Hab.
    assert (x = y) as <- by (apply byte_to_Z_inj; lia).
    destruct (byte_to_Z x <? byte_to_Z z); [done|]. destruct (byte_to_Z z <? byte_to_Z x); [done|].
    by apply IH.
Qed.

#[export] Instance entry_le_total : Total entry_le.
Proof.
  intros p q. unfold entry_le. destruct (bytes_lt_total p.1 q.1) as [H|[H|H]].
  - left. intros H'. pose proof (bytes_lt_trans _ _ _ H H') as Hx. unfold bytes_lt in Hx.
    by rewrite bytes_ltb_irrefl in Hx.
  - left. rewrite H. unfold bytes_lt. by rewrite bytes_ltb_irrefl.
  - right. intros H'. pose proof (bytes_lt_trans _ _ _ H H') as Hx. unfold bytes_lt in Hx.
    by rewrite bytes_ltb_irrefl in Hx.
Qed.

#[export] Instance entry_le_trans : Transitive entry_le.
Proof.
  intros p q r. unfold entry_le. intros Hpq Hqr Hrp.
  destruct (bytes_lt_total q.1 p.1) as [?|[Heq|?]]; [done|by rewrite Heq in *|].
  apply Hqr. by eapply bytes_lt_trans.
Qed.

Lemma sorted_strict (l : list (list byte * list byte)) :
  StronglySorted entry_le l -> NoDup l.*1 -> StronglySorted bytes_lt l.*1.
Proof.
  induction 1 as [|p l Hs IH Hf]; intros Hnd; simpl in *; [constructor|].
  apply list.NoDup_cons in Hnd as [Hni Hnd]. constructor; [by apply IH|].
  apply list.Forall_fmap, list.Forall_forall. intros q Hq. simpl.
  rewrite list.Forall_forall in Hf. specialize (Hf q Hq).
  destruct (bytes_lt_total p.1 q.1) as [?|[Heq|?]]; [done| |done].
  destruct Hni. rewrite Heq. apply list_elem_of_fmap. by exists q.
Qed.

Lemma NoDup_fst_filter {A B} (P : A * B -> Prop) `{!forall x, Decision (P x)} l :
  NoDup l.*1 -> NoDup (filter P l).*1.
Proof.
  induction l as [|p l IH]; intros Hnd; [constructor|]. simpl in Hnd.
  apply list.NoDup_cons in Hnd as [Hni Hnd]. rewrite filter_cons. case_decide; [|by apply IH].
  simpl. apply list.NoDup_cons. split; [|by apply IH].
  intros (q & Hq & Hin)%list_elem_of_fmap. apply Hni. rewrite Hq. apply list_elem_of_fmap.
  exists q. split; [done|]. by apply list_elem_of_filter in Hin as [_ ?].
Qed.

#[local] Obligation Tactic := idtac.
#[export] Program Instance mapDB_ok : KVOk mapDB := { kv_map := store }.
Next Obligation. intros k db. by left. Qed.
Next Obligation. intros ops db db'. simpl. destruct (disk_full db); [done|]. by intros [= <-]. Qed.
Next Obligation. intros ops db. simpl. by destruct (disk_full db). Qed.
Next Obligation.
  intros s l db. simpl. apply sorted_strict.
  - apply (StronglySorted_merge_sort entry_le).
  - rewrite merge_sort_Permutation. apply NoDup_fst_filter, NoDup_fst_map_to_list.
Qed.
Next Obligation.
  intros s l db k v. simpl. rewrite merge_sort_Permutation, list_elem_of_filter, elem_of_map_to_list.
  simpl. tauto.
Qed.
