(* ===== verification/Storage.v ===== *)
(** * Storage
    The storage of a pump ([pump/storage/storage.go]): binlogs are appended to
    the value log, their positions are filed in the metadata store under their
    timestamps, committed binlogs are pulled in timestamp order, old ones are
    collected, and after a restart the metadata is completed from the log. *)
From Stdlib Require Import Init.Byte Strings.Byte.
From stdpp Require Import base option list sorting gmap strings.
From S2P Require Import Prelude Binlog LogFile Vlog Sorter Metadata.

Definition maxTxnTimeoutSecond : Z := 600.
Definition physicalShiftBits : Z := 18.

Definition bytes_of (s : string) : list byte := String.list_byte_of_string s.
Definition gcTSKey : list byte := bytes_of "!binlog!gcts".
Definition maxCommitTSKey : list byte := bytes_of "!binlog!maxCommitTS".
Definition handlePointerKey : list byte := bytes_of "!binlog!handlePointer".
Definition headPointerKey : list byte := bytes_of "!binlog!headPointer".

(** [leveldb.ErrNotFound]. *)
Definition ErrNotFound : error := Err "leveldb: not found".

(** [EncodeTSO]: a shift in the width of a [uint64]. *)
Definition EncodeTSO (ts : Z) : Z := wrap_u64 (Z.shiftl (wrap_u64 ts) physicalShiftBits).

(** [oracle.ExtractPhysical] of the TiKV client: the milliseconds of a timestamp. *)
Definition ExtractPhysical (ts : Z) : Z := Z.shiftr (wrap_u64 ts) physicalShiftBits.

Definition isFakeBinlog (b : Binlog) : bool := (0 <? StartTs b) && (StartTs b =? CommitTs b).

Section Append.
Context `{C : Codec} {DB : Type} `{K : KV DB}.

(** The state of [Append] that its operations share; the write pipeline and the
    sorter are in [Pipeline] and [Sorter]. *)
Record Append := mkAppend {
  vlog : valueLog;
  metadata : DB;
  available : Z;
  ap_options : Options;
  ap_latestTS : Z;
  gcWorking : bool;
  ap_gcTS : Z;
  maxCommitTS : Z;
  headPointer : valuePointer;
  handlePointer : valuePointer;
}.

Definition set_vlog (v : valueLog) (a : Append) : Append :=
  mkAppend v (metadata a) (available a) (ap_options a) (ap_latestTS a) (gcWorking a) (ap_gcTS a)
    (maxCommitTS a) (headPointer a) (handlePointer a).
Definition set_metadata (db : DB) (a : Append) : Append :=
  mkAppend (vlog a) db (available a) (ap_options a) (ap_latestTS a) (gcWorking a) (ap_gcTS a)
    (maxCommitTS a) (headPointer a) (handlePointer a).
Definition set_gcTS (ts : Z) (a : Append) : Append :=
  mkAppend (vlog a) (metadata a) (available a) (ap_options a) (ap_latestTS a) (gcWorking a) ts
    (maxCommitTS a) (headPointer a) (handlePointer a).
Definition set_maxCommitTS (ts : Z) (a : Append) : Append :=
  mkAppend (vlog a) (metadata a) (available a) (ap_options a) (ap_latestTS a) (gcWorking a) (ap_gcTS a)
    ts (headPointer a) (handlePointer a).
Definition set_headPointer (p : valuePointer) (a : Append) : Append :=
  mkAppend (vlog a) (metadata a) (available a) (ap_options a) (ap_latestTS a) (gcWorking a) (ap_gcTS a)
    (maxCommitTS a) p (handlePointer a).
Definition set_handlePointer (p : valuePointer) (a : Append) : Append :=
  mkAppend (vlog a) (metadata a) (available a) (ap_options a) (ap_latestTS a) (gcWorking a) (ap_gcTS a)
    (maxCommitTS a) (headPointer a) p.

(** ** Reading and writing the metadata *)

(** [binary.LittleEndian.Uint64(value)] panics on fewer than 8 bytes. *)
Definition readInt64 (key : list byte) (db : DB) : outcome Z :=
  let! value := KGet key db in
  match value with
  | None => Ret 0
  | Some value =>
    if (length value <? 8)%nat then Panic else Ret (wrap_i64 (le_value (take 8 value)))
  end.

Definition readGCTSFromDB (db : DB) : outcome Z := readInt64 gcTSKey db.

Definition saveGCTSToDB (ts : Z) (db : DB) : outcome DB :=
  KWrite [OpPut gcTSKey (le_bytes 8 (wrap_u64 ts))] db.

Definition zero_pointer : valuePointer := mkVP 0 0.

Definition readPointer (key : list byte) (db : DB) : outcome valuePointer :=
  let! value := KGet key db in
  match value with
  | None => Ret zero_pointer
  | Some value => UnmarshalBinary value
  end.

Definition savePointer (key : list byte) (p : valuePointer) (db : DB) : outcome DB :=
  KWrite [OpPut key (MarshalBinary p)] db.

(** [metadata.Get]: a missing key is the error [ErrNotFound]. *)
Definition get_key (key : list byte) (db : DB) : outcome (list byte) :=
  let! value := KGet key db in
  match value with Some v => Ret v | None => Fail ErrNotFound end.

(** [readBinlogByTS], also [GetBinlog]. *)
Definition readBinlogByTS (ts : Z) (a : Append) : outcome Binlog :=
  let! vpData := get_key (encodeTSKey ts) (metadata a) in
  let! p := UnmarshalBinary vpData in
  let! pvalue := readValue (vlog a) p in
  unmarshal pvalue.

Definition GetBinlog (ts : Z) (a : Append) : outcome Binlog := readBinlogByTS ts a.

(** [persistHandlePointer]. *)
Definition persistHandlePointer (item : sortItem) (a : Append) : outcome Append :=
  let! pointerData := get_key (encodeTSKey (commit item)) (metadata a) in
  let! pointer := UnmarshalBinary pointerData in
  let! db := KWrite [OpPut maxCommitTSKey (le_bytes 8 (wrap_u64 (commit item)));
                     OpPut handlePointerKey pointerData] (metadata a) in
  Ret (set_handlePointer pointer (set_metadata db a)).

(** ** Sorted items *)

(** [handleSortItem]: [Some item] is [toSaveItem] while the timer [toSave] runs. *)
Inductive sort_event := Item (i : sortItem) | Timer | ItemsClosed.

(** Errors of [persistHandlePointer] are logged. *)
Definition persist_logged (item : sortItem) (a : Append) : Append :=
  match persistHandlePointer item a with Ret a => a | _ => a end.

Definition handle_event (e : sort_event) (st : Append * option sortItem) : Append * option sortItem :=
  let '(a, toSave) := st in
  match e with
  | Item item =>
    if commit item <? maxCommitTS a then st
    else (set_maxCommitTS (commit item) a, Some item)
  | Timer =>
    match toSave with
    | Some item => (persist_logged item a, None)
    | None => st
    end
  | ItemsClosed =>
    match toSave with
    | Some item => (persist_logged item a, toSave)
    | None => st
    end
  end.

Definition handleSortItem (es : list sort_event) (st : Append * option sortItem) : Append * option sortItem :=
  foldl (fun st e => handle_event e st) st es.

(** ** Writing *)

Definition writableOfSpace (a : Append) : bool := StopWriteAtAvailableSpace (ap_options a) <? available a.

(** [writeBinlog]: the request goes through the pipeline; here it is written in
    a batch of its own. *)
Definition writeBinlog (ios : list io_res) (b : Binlog) (a : Append) : Append * request :=
  match marshal b with
  | Ret payload =>
    let req := mkRequest (StartTs b) (CommitTs b) (Tp b) payload zero_pointer None in
    let '(v, reqs, r) := write ios [req] (vlog a) in
    let req := default req (head reqs) in
    let e := match r with Ret _ => None | Fail e => Some e | Panic => Some (Err "panic") end in
    (set_vlog v a, mkRequest (startTS req) (commitTS req) (tp req) (payload) (vp req) e)
  | Fail e => (a, mkRequest 0 0 BinlogType_Prewrite [] zero_pointer (Some e))
  | Panic => (a, mkRequest 0 0 BinlogType_Prewrite [] zero_pointer (Some (Err "panic")))
  end.

(** [WriteBinlog]; the error is its result. *)
Definition WriteBinlog (ios : list io_res) (b : Binlog) (a : Append) : Append * option error :=
  if negb (writableOfSpace a) && negb (isFakeBinlog b) then (a, Some (Err "no available space"))
  else if (StartTs b =? 0) && (CommitTs b =? 0) then (a, None)
  else let '(a, req) := writeBinlog ios b a in (a, err req).

(** One attempt of [writeBatchToKV]; it is repeated until it succeeds or the
    storage is closed. The batch is not empty. *)
Definition writeBatchToKV (bufReqs : list request) (a : Append) : outcome Append :=
  let ops := (fun req => OpPut (encodeTSKey (request_ts req)) (MarshalBinary (vp req))) <$> bufReqs in
  match last bufReqs with
  | None => Panic
  | Some lastReq =>
    let! db := KWrite (ops ++ [OpPut headPointerKey (MarshalBinary (vp lastReq))]) (metadata a) in
    Ret (set_headPointer (vp lastReq) (set_metadata db a))
  end.

(** [writeCBinlog]: [errors.Annotate(req.err, ...)] of a nil [req.err] is nil, so
    a failed [Put] is reported as success. *)
Definition writeCBinlog (ios : list io_res) (pbinlog : Binlog) (commitTs : Z) (a : Append)
    : Append * option error :=
  let cbinlog := mkBinlog BinlogType_Commit (StartTs pbinlog) commitTs [] [] [] 0 0 in
  let '(a, req) := writeBinlog ios cbinlog a in
  match err req with
  | Some e => (a, Some e)
  | None =>
    match KWrite [OpPut (encodeTSKey (request_ts req)) (MarshalBinary (vp req))] (metadata a) with
    | Ret db => (set_metadata db a, None)
    | _ => (a, err req)
    end
  end.

(** ** The resolver *)

(** The answer of [GetMvccByEncodedKey]: an error or the writes of the key. *)
Record mvcc_write := mkMvcc { w_StartTs : Z; w_CommitTs : Z; w_Rollback : bool }.

(** The answer of [GetTxnStatus]: [CommitTS] (0 if not committed) and [TTL]. *)
Record txn_status := mkStatus { st_CommitTS : Z; st_TTL : Z }.
Definition IsCommitted (s : txn_status) : bool := 0 <? st_CommitTS s.

(** The loop over [resp.Info.Writes]: [None] is leaving it without an answer. *)
Fixpoint resolve_writes (ios : list io_res) (startTs : Z) (pbinlog : Binlog) (ws : list mvcc_write)
    (a : Append) : Append * option bool :=
  match ws with
  | [] => (a, None)
  | w :: ws =>
    if negb (wrap_i64 (w_StartTs w) =? startTs) then resolve_writes ios startTs pbinlog ws a
    else if w_Rollback w then (a, Some true)
    else if wrap_i64 (w_CommitTs w) <=? startTs then (a, None)
    else
      match writeCBinlog ios pbinlog (wrap_i64 (w_CommitTs w)) a with
      | (a, Some _) => (a, Some false)
      | (a, None) => (a, Some true)
      end
  end.

(** [resolve(startTS)] with the answers of TiKV. *)
Definition resolve (ios : list io_res) (mvcc : list byte -> outcome (list mvcc_write))
    (status : Z -> list byte -> outcome txn_status) (startTs : Z) (a : Append) : Append * bool :=
  if ap_latestTS a <=? 0 then (a, false)
  else
    match readBinlogByTS startTs a with
    | Ret pbinlog =>
      let '(a, r) :=
        match mvcc (PrewriteKey pbinlog) with
        | Ret ws => resolve_writes ios startTs pbinlog ws a
        | _ => (a, None)
        end in
      match r with
      | Some answer => (a, answer)
      | None =>
        let startSecond := ExtractPhysical startTs / 1000 in
        let maxSecond := ExtractPhysical (ap_latestTS a) / 1000 in
        if maxSecond - startSecond <=? maxTxnTimeoutSecond then (a, false)
        else
          match status (wrap_u64 (StartTs pbinlog)) (PrewriteKey pbinlog) with
          | Ret s =>
            if 0 <? st_TTL s then (a, false)
            else if IsCommitted s then
              let cbinlog := mkBinlog BinlogType_Commit (StartTs pbinlog) (wrap_i64 (st_CommitTS s)) [] [] [] 0 0 in
              let '(a, req) := writeBinlog ios cbinlog a in
              match err req with
              | Some _ => (a, false)
              | None =>
                match KWrite [OpPut (encodeTSKey (request_ts req)) (MarshalBinary (vp req))] (metadata a) with
                | Ret db => (set_metadata db a, true)
                | _ => (a, false)
                end
              end
            else (a, true)
          | _ => (a, false)
          end
      end
    | _ => (a, false)
    end.

(** ** Garbage collection *)

(** The deletes of [doGCTS] are written in batches of 1024; a failed write is
    logged. *)
Fixpoint chunks {A} (fuel n : nat) (l : list A) : list (list A) :=
  match fuel, l with
  | O, _ | _, [] => []
  | S fuel, _ => take n l :: chunks fuel n (drop n l)
  end.

Definition delete_chunk (db : DB) (keys : list (list byte)) : DB :=
  match KWrite (OpDelete <$> keys) db with Ret db => db | _ => db end.

(** [doGCTS(ts)]. *)
Definition doGCTS (ts : Z) (a : Append) : Append :=
  let keys := (KIter (encodeTSKey 0) (encodeTSKey (wrap_i64 (ts + 1))) (metadata a)).*1 in
  let db := foldl delete_chunk (metadata a) (chunks (length keys) 1024 keys) in
  set_metadata db (set_vlog (gcTS ts (vlog a)).1 a).

(** [GC(ts)]; the collection itself runs unless another one does. *)
Definition GC (ts : Z) (a : Append) : Append :=
  if ts <=? ap_gcTS a then a
  else if maxCommitTS a <=? ts then a
  else
    let a := set_gcTS ts a in
    let a := match saveGCTSToDB ts (metadata a) with Ret db => set_metadata db a | _ => a end in
    if gcWorking a then a
    else doGCTS (wrap_i64 (ts - wrap_i64 (EncodeTSO (maxTxnTimeoutSecond * 1000)))) a.

(** ** Pulling *)

(** [feedPreWriteValue]. *)
Definition feedPreWriteValue (cbinlog : Binlog) (a : Append) : outcome Binlog :=
  let! vpData := get_key (encodeTSKey (StartTs cbinlog)) (metadata a) in
  let! p := UnmarshalBinary vpData in
  let! pvalue := readValue (vlog a) p in
  let! pbinlog := unmarshal pvalue in
  Ret (mkBinlog (Tp cbinlog) (StartTs pbinlog) (CommitTs cbinlog) (PrewriteKey cbinlog)
         (PrewriteValue pbinlog) (DdlQuery pbinlog) (DdlJobId pbinlog) (DdlSchemaState pbinlog)).

(** What an entry of the iteration contributes: [Ret None] is [continue], an
    error ends the goroutine. *)
Definition pull_entry (value : list byte) (a : Append) : outcome (option (list byte)) :=
  match UnmarshalBinary value with
  | Ret p =>
    let! value := readValue (vlog a) p in
    let! binlog := unmarshal value in
    if bool_decide (Tp binlog = BinlogType_Prewrite) then Ret None
    else if CommitTs binlog =? StartTs binlog then let! v := marshal binlog in Ret (Some v)
    else
      match feedPreWriteValue binlog a with
      | Ret binlog => let! v := marshal binlog in Ret (Some v)
      | Fail e => if bool_decide (e = ErrNotFound) then Ret None else Fail e
      | Panic => Panic
      end
  | _ => Panic
  end.

(** One pass of the loop of [PullCommitBinlog] over the iterator: the values
    sent, the new [last], and whether the goroutine goes on. *)
Fixpoint pull_loop (entries : list (list byte * list byte)) (a : Append) (last : Z)
    : list (list byte) * Z * outcome unit :=
  match entries with
  | [] => ([], last, Ret tt)
  | (key, value) :: entries =>
    match pull_entry value a with
    | Ret None => pull_loop entries a last
    | Ret (Some v) =>
      match decodeTSKey key with
      | Ret ts => let '(vs, last, r) := pull_loop entries a ts in (v :: vs, last, r)
      | _ => ([v], last, Panic)
      end
    | Fail e => ([], last, Fail e)
    | Panic => ([], last, Panic)
    end
  end.

(** A whole pass: the range of timestamps after [last] up to [maxCommitTS], which
    is skipped when it is inverted. *)
Definition pull_pass (last : Z) (a : Append) : list (list byte) * Z * outcome unit :=
  let startTS := wrap_i64 (last + 1) in
  let limitTS := wrap_i64 (maxCommitTS a + 1) in
  if limitTS <? startTS then ([], last, Ret tt)
  else pull_loop (KIter (encodeTSKey startTS) (encodeTSKey limitTS) (metadata a)) a last.

(** Where [PullCommitBinlog(ctx, last)] starts. *)
Definition pull_start (last : Z) (a : Append) : Z := if last <? ap_gcTS a then ap_gcTS a else last.

(** ** Restart *)

(** The fields that [NewAppendWithResolver] reads from the metadata. *)
Definition open_append (v : valueLog) (db : DB) (o : Options) : outcome Append :=
  let! gc := readGCTSFromDB db in
  let! maxTs := readInt64 maxCommitTSKey db in
  let! headP := readPointer headPointerKey db in
  let! handleP := readPointer handlePointerKey db in
  Ret (mkAppend v db 0 o 0 false gc maxTs headP handleP).

Definition minPointer (a : Append) : valuePointer :=
  if vp_less (handlePointer a) (headPointer a) then handlePointer a else headPointer a.

(** The requests [NewAppendWithResolver] feeds to the metadata writer. *)
Definition replay (a : Append) : list request * outcome unit :=
  scanRequests (fun req (reqs : list request) => (reqs ++ [req], Ret tt)) (minPointer a) (vlog a) [].

End Append.
Arguments Append : clear implicits.
