(* ===== verification/StorageProofs.v ===== *)
(** * StorageProofs
    Correctness of the storage of a pump, against the abstract value log of
    [Vlog] and any store that satisfies [KVOk]. *)
From Stdlib Require Import Init.Byte Strings.Byte.
From stdpp Require Import base option list sorting gmap strings.
From S2P Require Import Prelude Binlog LogFile Vlog Sorter Metadata Storage.

Section Proofs.
Context `{C : Codec} `{CO : !CodecOk C} {DB : Type} `{K : KV DB} `{KO : !KVOk DB}.

Implicit Types (a : Append DB) (db : DB).

(** The whole abstract log of a state. *)
Abbreviation whole v A0 l := (A0 ++ [(maxFid v, l)]).

(** The store answers its reads. *)
Definition healthy db : Prop := forall k, KGet k db = Ret (kv_map db !! k).

Lemma get_key_healthy k v db : healthy db -> kv_map db !! k = Some v -> get_key k db = Ret v.
Proof. intros Hh Hk. unfold get_key. by rewrite Hh, Hk. Qed.

Lemma get_key_missing k db : healthy db -> kv_map db !! k = None -> get_key k db = Fail ErrNotFound.
Proof. intros Hh Hk. unfold get_key. by rewrite Hh, Hk. Qed.

(** ** Batches of puts *)

Definition filing (req : request) : kv_op := OpPut (encodeTSKey (request_ts req)) (MarshalBinary (vp req)).

(** A metadata key is not a timestamp key. *)
Lemma meta_key_fresh ts k : k ∈ [gcTSKey; maxCommitTSKey; handlePointerKey; headPointerKey] ->
  encodeTSKey ts <> k.
Proof. rewrite !elem_of_cons, elem_of_nil. by intros [->|[->|[->|[->|[]]]]]. Qed.

Lemma apply_ops_app ops ops' m : apply_ops (ops ++ ops') m = apply_ops ops' (apply_ops ops m).
Proof. apply foldl_app. Qed.

Lemma filings_lookup reqs m k :
  (forall r, r ∈ reqs -> encodeTSKey (request_ts r) <> k) -> apply_ops (filing <$> reqs) m !! k = m !! k.
Proof.
  revert m. induction reqs as [|r reqs IH]; intros m Hk; [done|]. simpl.
  change (apply_ops (filing <$> reqs) (<[encodeTSKey (request_ts r) := MarshalBinary (vp r)]> m) !! k = m !! k).
  rewrite IH by (intros r' Hr'; apply Hk; by right).
  rewrite lookup_insert_ne; [done|]. apply Hk. by left.
Qed.

Lemma filings_in reqs m r :
  NoDup (request_ts <$> reqs) -> Forall (fun r => in_i64 (request_ts r)) reqs -> r ∈ reqs ->
  apply_ops (filing <$> reqs) m !! encodeTSKey (request_ts r) = Some (MarshalBinary (vp r)).
Proof.
  revert m. induction reqs as [|r0 reqs IH]; intros m Hnd Hf Hin; [by apply not_elem_of_nil in Hin|].
  simpl in Hnd. apply list.NoDup_cons in Hnd as [Hni Hnd]. apply Forall_cons_iff in Hf as [Hr0 Hf].
  change (apply_ops (filing <$> reqs) (<[encodeTSKey (request_ts r0) := MarshalBinary (vp r0)]> m)
            !! encodeTSKey (request_ts r) = Some (MarshalBinary (vp r))).
  apply elem_of_cons in Hin as [->|Hin]; [|by apply IH].
  rewrite filings_lookup; [apply lookup_insert_eq|].
  intros r' Hr' Heq. apply encodeTSKey_inj in Heq; [| |done].
  - apply Hni. rewrite <- Heq. by apply list_elem_of_fmap_2.
  - rewrite list.Forall_forall in Hf. by apply Hf.
Qed.

(** What a successful [writeBatchToKV] leaves in the store. *)
Lemma writeBatchToKV_map reqs a a' :
  writeBatchToKV reqs a = Ret a' ->
  vlog a' = vlog a /\ (exists r, last reqs = Some r /\ headPointer a' = vp r) /\
  (forall k, k <> headPointerKey ->
     kv_map (metadata a') !! k = apply_ops (filing <$> reqs) (kv_map (metadata a)) !! k).
Proof.
  unfold writeBatchToKV. destruct (last reqs) as [r|] eqn:Hl; [|done].
  intros (db & Hw & [= <-])%obind_Ret_inv. apply kwrite_ok in Hw. split; [done|].
  split; [by exists r|]. intros k Hk. simpl. rewrite Hw, apply_ops_app. simpl.
  by rewrite lookup_insert_ne.
Qed.

(** ** Writing and reading back *)

(** An entry of the log is filed under its timestamp. *)
Definition filed a (p : valuePointer) (ts : Z) : Prop :=
  kv_map (metadata a) !! encodeTSKey ts = Some (MarshalBinary p).

Lemma readBinlogByTS_filed a A0 l p payl ts :
  healthy (metadata a) -> repr (vlog a) A0 l -> (p, payl) ∈ entries (whole (vlog a) A0 l) ->
  vp_ok p -> filed a p ts -> readBinlogByTS ts a = unmarshal payl.
Proof.
  intros Hh Hr Hin Hp Hf. unfold readBinlogByTS. rewrite (get_key_healthy _ _ _ Hh Hf). step_bind.
  rewrite UnmarshalBinary_Marshal by done. step_bind.
  rewrite (readValue_entry _ _ _ _ _ Hr Hin). by step_bind.
Qed.

(** A written binlog is found by its timestamp: after a batch of requests was
    appended to the value log and filed in the metadata, [GetBinlog] returns for
    each of them the binlog that was written, and still finds every binlog filed
    earlier under another timestamp. *)
Theorem storage_readback a A0 l reqs v' reqs' a' :
  repr (vlog a) A0 l -> Forall req_ok reqs -> maxFid (vlog a) + len reqs + 1 < 2 ^ 32 ->
  NoDup (request_ts <$> reqs) -> Forall (fun r => in_i64 (request_ts r)) reqs ->
  write [] reqs (vlog a) = (v', reqs', Ret tt) ->
  writeBatchToKV reqs' (set_vlog v' a) = Ret a' -> healthy (metadata a') ->
  Forall (fun r => vp_ok (vp r)) reqs' ->
  (forall r, r ∈ reqs -> GetBinlog (request_ts r) a' = unmarshal (payload r)) /\
  (forall p payl ts, (p, payl) ∈ entries (whole (vlog a) A0 l) -> vp_ok p -> in_i64 ts ->
     ts ∉ (request_ts <$> reqs) -> filed a p ts -> GetBinlog ts a' = unmarshal payl).
Proof.
  intros Hr Hreq Hfid Hnd Hts Hw Hkv Hh Hvp.
  destruct (write_appends_ts (vlog a) A0 l reqs Hr Hreq Hfid)
    as (v2 & r2 & A2 & l2 & Hw' & Hr2 & Hpay & Hent & Hkeep).
  rewrite Hw in Hw'. injection Hw' as <- <-.
  destruct (writeBatchToKV_map _ _ _ Hkv) as (Hv & _ & Hm). simpl in Hv, Hm.
  assert (Hts' : Forall (fun r => in_i64 (request_ts r)) reqs').
  { assert (Hx : Forall in_i64 (request_ts <$> reqs')) by (rewrite Hkeep; by apply list.Forall_fmap).
    exact (proj1 (list.Forall_fmap _ _ _) Hx). }
  split.
  - intros r Hin. apply list_elem_of_lookup in Hin as [i Hi].
    assert (Hi' : exists r', reqs' !! i = Some r' /\ request_ts r' = request_ts r /\ payload r' = payload r).
    { assert (H1 : (request_ts <$> reqs') !! i = Some (request_ts r))
        by by rewrite Hkeep, list_lookup_fmap, Hi.
      assert (H2 : (payload <$> reqs') !! i = Some (payload r))
        by by rewrite Hpay, list_lookup_fmap, Hi.
      rewrite list_lookup_fmap in H1. rewrite list_lookup_fmap in H2. destruct (reqs' !! i) as [r'|]; [|done]. simpl in *.
      exists r'. simplify_eq. by split_and!. }
    destruct Hi' as (r' & Hi' & Ht & Hp). unfold GetBinlog. rewrite <- Ht, <- Hp.
    eapply (readBinlogByTS_filed _ A2 l2 (vp r') (payload r')).
    + done.
    + by rewrite Hv.
    + rewrite Hv, Hent. apply elem_of_app. right. rewrite <- Hpay. apply list_elem_of_lookup.
      exists i. by rewrite lookup_zip_with, !list_lookup_fmap, Hi'.
    + rewrite list.Forall_forall in Hvp. apply Hvp. by eapply list_elem_of_lookup_2.
    + unfold filed. rewrite Hm by (intros Hk; eapply meta_key_fresh; [|exact Hk]; by do 3 right; left).
      apply filings_in; [by rewrite Hkeep|done|by eapply list_elem_of_lookup_2].
  - intros p payl ts Hin Hp Hi64 Hni Hf. unfold GetBinlog.
    eapply (readBinlogByTS_filed _ A2 l2 p payl); [done|by rewrite Hv| |done|].
    + rewrite Hv, Hent. apply elem_of_app. by left.
    + unfold filed. rewrite Hm by (intros Hk; eapply meta_key_fresh; [|exact Hk]; by do 3 right; left).
      rewrite filings_lookup; [exact Hf|]. intros r Hrin Heq.
      rewrite list.Forall_forall in Hts'.
      apply encodeTSKey_inj in Heq; [|by apply Hts'|done].
      apply Hni. rewrite <- Heq, <- Hkeep. by apply list_elem_of_fmap_2.
Qed.

(** ** Restart *)

(** Several filings: the last one of a timestamp stays. *)
Lemma filings_some reqs m ts :
  Forall (fun r => in_i64 (request_ts r)) reqs -> in_i64 ts ->
  ((exists r, r ∈ reqs /\ request_ts r = ts /\
     apply_ops (filing <$> reqs) m !! encodeTSKey ts = Some (MarshalBinary (vp r)))) \/
  ((ts ∉ (request_ts <$> reqs)) /\ apply_ops (filing <$> reqs) m !! encodeTSKey ts = m !! encodeTSKey ts).
Proof.
  intros Hf Hts. revert m. induction Hf as [|r reqs Hr Hf IH]; intros m.
  { right. split; [apply not_elem_of_nil|done]. }
  change (apply_ops (filing <$> (r :: reqs)) m) with
    (apply_ops (filing <$> reqs) (<[encodeTSKey (request_ts r) := MarshalBinary (vp r)]> m)).
  destruct (IH (<[encodeTSKey (request_ts r) := MarshalBinary (vp r)]> m))
    as [(r' & Hin & Ht & Hl)|[Hni Hl]].
  - left. exists r'. split; [by right|done].
  - rewrite Hl. destruct (decide (request_ts r = ts)) as [<-|Hne].
    + left. exists r. split; [by left|]. split; [done|]. apply lookup_insert_eq.
    + right. split; [by rewrite fmap_cons, not_elem_of_cons|].
      rewrite lookup_insert_ne; [done|]. by intros Heq%encodeTSKey_inj.
Qed.

(** The request a scan builds for an entry. *)
Definition entry_request (e : valuePointer * list byte) : option request :=
  match unmarshal e.2 with
  | Ret b => if (StartTs b =? 0) && (CommitTs b =? 0) then None
             else Some (mkRequest (StartTs b) (CommitTs b) (Tp b) [] e.1 None)
  | _ => None
  end.

Lemma visit_requests (es : list (valuePointer * list byte)) reqs :
  Forall (fun e => exists b, unmarshal e.2 = Ret b) es ->
  visit_entries (scanRequests_fn (fun req (reqs : list request) => (reqs ++ [req], Ret tt))) es reqs =
    (reqs ++ omap entry_request es, Ret tt).
Proof.
  intros Hf. revert reqs. induction Hf as [|[p payl] es [b Hb] Hf IH]; intros reqs; simpl.
  { by rewrite app_nil_r. }
  unfold scanRequests_fn, entry_request. simpl in *. rewrite Hb.
  destruct ((StartTs b =? 0) && (CommitTs b =? 0)); [by rewrite IH|].
  rewrite IH. by rewrite <- (assoc_L (++)).
Qed.

Lemma entries_unmarshal v A0 l e :
  repr v A0 l -> e ∈ entries (whole v A0 l) -> exists b, unmarshal e.2 = Ret b.
Proof.
  destruct e as [p payl]. intros Hr (li & Hin & He)%elem_of_entries.
  destruct (repr_file _ _ _ _ _ Hr Hin) as (lf & _ & _ & _ & _ & Hall & _).
  apply file_entries_In in He as (_ & _ & l1 & l2 & -> & _).
  apply Forall_app in Hall as [_ Hall]. apply Forall_cons_iff in Hall as [(_ & b & Hb & _) _]. by exists b.
Qed.

Lemma replay_spec a A0 l :
  repr (vlog a) A0 l -> boundary (whole (vlog a) A0 l) (minPointer a) ->
  replay a = (omap entry_request (from (minPointer a) (entries (whole (vlog a) A0 l))), Ret tt).
Proof.
  intros Hr Hb. unfold replay, scanRequests. rewrite (vlog_scan_repr _ _ A0 l) by done.
  rewrite visit_requests; [done|]. apply list.Forall_forall. intros e He.
  apply list_elem_of_filter in He as [_ He]. by eapply entries_unmarshal.
Qed.

(** The metadata writer takes the requests in batches. *)
Fixpoint write_batches (batches : list (list request)) a : outcome (Append DB) :=
  match batches with
  | [] => Ret a
  | b :: batches => let! a := writeBatchToKV b a in write_batches batches a
  end.

Lemma write_batches_map batches : forall a a',
  write_batches batches a = Ret a' ->
  vlog a' = vlog a /\ forall k, k <> headPointerKey ->
    kv_map (metadata a') !! k = apply_ops (filing <$> concat batches) (kv_map (metadata a)) !! k.
Proof.
  assert (Hcong : forall reqs m m' k, k <> headPointerKey ->
    (forall k, k <> headPointerKey -> m !! k = m' !! k) ->
    apply_ops (filing <$> reqs) m !! k = apply_ops (filing <$> reqs) m' !! k).
  { induction reqs as [|r reqs IH]; intros m m' k Hk Heq; [by apply Heq|].
    apply (IH (<[_ := _]> m) (<[_ := _]> m')); [done|]. intros k' Hk'.
    destruct (decide (k' = encodeTSKey (request_ts r))) as [->|Hne];
      [by rewrite !lookup_insert_eq|rewrite !lookup_insert_ne by done; by apply Heq]. }
  induction batches as [|b batches IH]; intros a a'; simpl; [by intros [= <-]|].
  intros (a1 & H1 & H2)%obind_Ret_inv. destruct (writeBatchToKV_map _ _ _ H1) as (Hv & _ & Hm).
  destruct (IH _ _ H2) as [Hv' Hm']. split; [congruence|]. intros k Hk.
  rewrite Hm' by done. rewrite fmap_app, apply_ops_app. by apply Hcong.
Qed.

(** The log has an entry under a timestamp, and the metadata leads to one. *)
Definition logged a A0 l (p : valuePointer) (ts : Z) : Prop :=
  exists payl b, (p, payl) ∈ entries (whole (vlog a) A0 l) /\ unmarshal payl = Ret b /\
    binlog_ts b = ts /\ ~ (StartTs b = 0 /\ CommitTs b = 0).

Definition found a A0 l (ts : Z) : Prop := exists p, logged a A0 l p ts /\ filed a p ts.

Lemma entry_request_logged a A0 l r :
  r ∈ omap entry_request (from (minPointer a) (entries (whole (vlog a) A0 l))) ->
  logged a A0 l (vp r) (request_ts r).
Proof.
  intros ([p payl] & He & Hr)%list_elem_of_omap. apply list_elem_of_filter in He as [_ He].
  unfold entry_request in Hr. simpl in Hr. destruct (unmarshal payl) as [b| |] eqn:Hb; [|done|done].
  destruct (Z.eqb_spec (StartTs b) 0), (Z.eqb_spec (CommitTs b) 0); simplify_eq/=;
    exists payl, b; split_and!; try done; by intros [? ?].
Qed.


(** ** Pulling *)

(** A key of the timestamp range leads to an entry of the log with that timestamp. *)
Definition ts_entry a A0 l (k v : list byte) (ts : Z) (b : Binlog) : Prop :=
  exists p payl, k = encodeTSKey ts /\ 0 <= ts < 2 ^ 63 /\ v = MarshalBinary p /\ vp_ok p /\
    (p, payl) ∈ entries (whole (vlog a) A0 l) /\ unmarshal payl = Ret b /\ binlog_ts b = ts.

Definition metadata_wf a A0 l : Prop := forall k v,
  kv_map (metadata a) !! k = Some v -> ~ bytes_lt k (encodeTSKey 0) ->
  exists ts b, ts_entry a A0 l k v ts b.

Lemma ts_entry_read a A0 l k v ts b :
  repr (vlog a) A0 l -> ts_entry a A0 l k v ts b ->
  exists p payl, UnmarshalBinary v = Ret p /\ readValue (vlog a) p = Ret payl /\ unmarshal payl = Ret b.
Proof.
  intros Hr (p & payl & -> & _ & -> & Hp & Hin & Hb & _). exists p, payl.
  split; [by apply UnmarshalBinary_Marshal|]. split; [by eapply readValue_entry|done].
Qed.

Lemma encodeTSKey_not_below ts : ~ bytes_lt (encodeTSKey ts) (encodeTSKey 0).
Proof.
  change (bytes_ltb (be_bytes 8 (wrap_u64 ts)) (be_bytes 8 (wrap_u64 0)) <> true).
  rewrite be_bytes_order by apply wrap_u64_range. pose proof (wrap_u64_range ts).
  intros Hlt%Z.ltb_lt. change (wrap_u64 0) with 0 in Hlt. unfold in_u64 in *. lia.
Qed.

(** What a pull makes of a committed binlog: a fake binlog is sent as it is, any
    other gets the data of its prewrite binlog, and is left out without one. *)
Definition feed (b p : Binlog) : Binlog :=
  mkBinlog (Tp b) (StartTs p) (CommitTs b) (PrewriteKey b) (PrewriteValue p) (DdlQuery p)
    (DdlJobId p) (DdlSchemaState p).

Lemma feedPreWriteValue_spec a A0 l b :
  healthy (metadata a) -> repr (vlog a) A0 l -> metadata_wf a A0 l ->
  match kv_map (metadata a) !! encodeTSKey (StartTs b) with
  | Some v => exists ts p, ts_entry a A0 l (encodeTSKey (StartTs b)) v ts p /\
                feedPreWriteValue b a = Ret (feed b p)
  | None => feedPreWriteValue b a = Fail ErrNotFound
  end.
Proof.
  intros Hh Hr Hwf. destruct (kv_map (metadata a) !! encodeTSKey (StartTs b)) as [v|] eqn:E.
  - destruct (Hwf _ _ E (encodeTSKey_not_below _)) as (ts & p & Hts).
    exists ts, p. split; [done|]. destruct (ts_entry_read _ _ _ _ _ _ _ Hr Hts) as (q & payl & H1 & H2 & H3).
    unfold feedPreWriteValue. rewrite (get_key_healthy _ _ _ Hh E). step_bind.
    rewrite H1. step_bind. rewrite H2. step_bind. rewrite H3. by step_bind.
  - unfold feedPreWriteValue. by rewrite (get_key_missing _ _ Hh E).
Qed.

(** What is sent for the committed binlog [b]. *)
Definition sent a A0 l (b b' : Binlog) : Prop :=
  Tp b <> BinlogType_Prewrite /\
  (CommitTs b = StartTs b /\ b' = b \/
   CommitTs b <> StartTs b /\ exists v ts p, ts_entry a A0 l (encodeTSKey (StartTs b)) v ts p /\
     kv_map (metadata a) !! encodeTSKey (StartTs b) = Some v /\ b' = feed b p).

(** It has to be sent: it is committed, and fake or with a known prewrite. *)
Definition wanted a (b : Binlog) : Prop :=
  Tp b <> BinlogType_Prewrite /\
  (CommitTs b = StartTs b \/ is_Some (kv_map (metadata a) !! encodeTSKey (StartTs b))).

Lemma pull_entry_spec a A0 l k v ts b :
  healthy (metadata a) -> repr (vlog a) A0 l -> metadata_wf a A0 l -> ts_entry a A0 l k v ts b ->
  match pull_entry v a with
  | Ret (Some x) => exists b', sent a A0 l b b' /\ marshal b' = Ret x
  | Ret None => ~ wanted a b
  | _ => True
  end.
Proof.
  intros Hh Hr Hwf Hts. destruct (ts_entry_read _ _ _ _ _ _ _ Hr Hts) as (p & payl & H1 & H2 & H3).
  unfold pull_entry, sent, wanted. rewrite H1, H2. step_bind. rewrite H3. step_bind.
  case_bool_decide as Htp; [tauto|].
  destruct (Z.eqb_spec (CommitTs b) (StartTs b)) as [Heq|Hne].
  - destruct (marshal b) as [x| |] eqn:Hm; [|done|done]. exists b. split; [|done]. auto.
  - pose proof (feedPreWriteValue_spec a A0 l b Hh Hr Hwf) as Hfeed.
    destruct (kv_map (metadata a) !! encodeTSKey (StartTs b)) as [w|] eqn:E.
    + destruct Hfeed as (ts' & q & Hq & ->).
      destruct (marshal (feed b q)) as [x| |] eqn:Hm; [|done|done].
      exists (feed b q). split; [|done]. split; [done|]. right. split; [done|]. by exists w, ts', q.
    + rewrite Hfeed. rewrite bool_decide_eq_true_2 by done. intros [_ [?|[? ?]]]; done.
Qed.

Lemma sent_CommitTs a A0 l b b' : sent a A0 l b b' -> CommitTs b' = CommitTs b /\ binlog_ts b = CommitTs b.
Proof.
  intros [Htp Hor]. split.
  - by destruct Hor as [[_ ->]|(_ & v & ts & p & _ & _ & ->)].
  - unfold binlog_ts. by rewrite bool_decide_eq_false_2.
Qed.

Lemma pull_loop_spec a A0 l lo es : forall last vs last' r,
  healthy (metadata a) -> repr (vlog a) A0 l -> metadata_wf a A0 l ->
  StronglySorted bytes_lt es.*1 ->
  Forall (fun e => exists ts b, ts_entry a A0 l e.1 e.2 ts b /\ lo < ts) es ->
  pull_loop es a last = (vs, last', r) ->
  exists bs,
    Forall2 (fun b' v => marshal b' = Ret v /\ lo < CommitTs b' /\ exists k w ts b, (k, w) ∈ es /\
       ts_entry a A0 l k w ts b /\ sent a A0 l b b' /\ CommitTs b' = ts) bs vs /\
    StronglySorted Z.lt (CommitTs <$> bs) /\
    last' = default last (list.last (CommitTs <$> bs)) /\
    (r = Ret tt -> forall k w ts b, (k, w) ∈ es -> ts_entry a A0 l k w ts b -> wanted a b ->
       exists b', b' ∈ bs /\ CommitTs b' = ts).
Proof.
  induction es as [|[k v] es IH]; intros last vs last' r Hh Hr Hwf Hsort Hes Hloop; simpl in Hloop.
  { simplify_eq. exists []. split_and!; [constructor|constructor|done|].
    intros _ k w ts b Hin. by apply not_elem_of_nil in Hin. }
  simpl in Hsort. apply StronglySorted_inv in Hsort as [Hsort Hk].
  apply Forall_cons_iff in Hes as [(ts & b & Hts & Hlo) Hes]. simpl in Hts.
  pose proof (pull_entry_spec a A0 l k v ts b Hh Hr Hwf Hts) as Hp.
  assert (Hsame : forall ts' b', ts_entry a A0 l k v ts' b' -> ts' = ts /\ b' = b).
  { intros ts' b' Hts'. destruct (ts_entry_read a A0 l k v ts' b' Hr Hts') as (p1 & pl1 & H1 & H2 & H3).
    destruct (ts_entry_read a A0 l k v ts b Hr Hts) as (p2 & pl2 & H4 & H5 & H6).
    split; [|congruence].
    destruct Hts as (q & payl & Hk0 & Ht0 & _), Hts' as (q' & payl' & Hk' & Ht' & _).
    apply encodeTSKey_inj; [in_range|in_range|congruence]. }
  destruct (pull_entry v a) as [[x|]| |]; [|..].
  - destruct Hp as (b' & Hsent & Hm). destruct (sent_CommitTs _ _ _ _ _ Hsent) as [Hc Hbt].
    assert (Hdec : decodeTSKey k = Ret ts /\ CommitTs b' = ts).
    { destruct Hts as (q & payl & -> & Ht & _ & _ & _ & _ & Hbts). split; [|congruence].
      apply decode_encodeTSKey. unfold in_i64. lia. }
    destruct Hdec as [Hdec Hct]. rewrite Hdec in Hloop.
    destruct (pull_loop es a ts) as [[vs1 last1] r1] eqn:E1. simplify_eq.
    destruct (IH _ _ _ _ Hh Hr Hwf Hsort Hes E1) as (bs & Hf2 & Hst & Hl & Hcomp).
    exists (b' :: bs). split_and!.
    + constructor.
      * split; [done|]. split; [done|]. exists k, v, (CommitTs b'), b. split; [by left|done].
      * eapply Forall2_impl; [exact Hf2|]. intros b1 v1 (? & ? & k1 & w1 & t1 & b2 & ? & ? & ?).
        split; [done|]. split; [done|]. exists k1, w1, t1, b2. split; [by right|done].
    + simpl. constructor; [done|]. apply list.Forall_fmap, list.Forall_forall. intros b1 Hb1. simpl.
      apply list_elem_of_lookup in Hb1 as [i Hi].
      destruct (Forall2_lookup_l _ _ _ _ _ Hf2 Hi) as (v1 & _ & _ & _ & k1 & w1 & t1 & b2 & Hin1 & Ht1 & _ & ->).
      rewrite list.Forall_forall in Hk. assert (Hlt : bytes_lt k k1).
      { apply Hk. apply list_elem_of_fmap. by exists (k1, w1). }
      destruct Hts as (q & payl & -> & Ht & _), Ht1 as (q1 & payl1 & -> & Ht1' & _).
      unfold bytes_lt in Hlt. rewrite encodeTSKey_ltb in Hlt by eauto with go. lia.
    + rewrite Hl, fmap_cons, last_cons. by destruct (list.last (CommitTs <$> bs)).
    + intros Hr1 k1 w1 t1 b1 [[= -> ->]|Hin]%elem_of_cons Ht1 Hw.
      * destruct (Hsame _ _ Ht1) as [-> ->]. exists b'. split; [by left|done].
      * destruct (Hcomp Hr1 _ _ _ _ Hin Ht1 Hw) as (b2 & ? & ?). exists b2. split; [by right|done].
  - destruct (IH _ _ _ _ Hh Hr Hwf Hsort Hes Hloop) as (bs & Hf2 & Hst & Hl & Hcomp).
    exists bs. split_and!; [|done|done|].
    + eapply Forall2_impl; [exact Hf2|]. intros b1 v1 (? & ? & k1 & w1 & t1 & b2 & ? & ? & ?).
      split; [done|]. split; [done|]. exists k1, w1, t1, b2. split; [by right|done].
    + intros Hr1 k1 w1 t1 b1 [[= -> ->]|Hin]%elem_of_cons Ht1 Hw; [|by eapply Hcomp].
      destruct (Hsame _ _ Ht1) as [-> ->]. done.
  - simplify_eq. exists []. split_and!; [constructor|constructor|done|done].
  - simplify_eq. exists []. split_and!; [constructor|constructor|done|done].
Qed.

(** C15: Pulling delivers the committed binlogs in order and completely: a pass of
    [PullCommitBinlog] over the metadata sends binlogs with strictly increasing
    commit timestamps after [last] and not after [maxCommitTS], each one a
    committed binlog of the log with the data of its prewrite binlog (or a fake
    one); [last] becomes the last timestamp sent; and unless an error ended the
    pass, every committed binlog of the range that is fake or has its prewrite
    binlog filed was sent. *)
Theorem pull_pass_complete a A0 l last vs last' r :
  healthy (metadata a) -> repr (vlog a) A0 l -> metadata_wf a A0 l ->
  -1 <= last < 2 ^ 63 - 1 -> -1 <= maxCommitTS a < 2 ^ 63 - 1 ->
  pull_pass last a = (vs, last', r) ->
  exists bs,
    Forall2 (fun b' v => marshal b' = Ret v) bs vs /\
    Forall (fun b' => last < CommitTs b' <= maxCommitTS a /\ exists b, sent a A0 l b b') bs /\
    StronglySorted Z.lt (CommitTs <$> bs) /\
    last' = default last (list.last (CommitTs <$> bs)) /\
    (r = Ret tt -> forall v ts b, kv_map (metadata a) !! encodeTSKey ts = Some v ->
       ts_entry a A0 l (encodeTSKey ts) v ts b -> last < ts <= maxCommitTS a -> wanted a b ->
       exists b', b' ∈ bs /\ CommitTs b' = ts).
Proof.
  intros Hh Hr Hwf Hlast Hmax. unfold pull_pass. rewrite !wrap_i64_id by eauto with go.
  destruct (Z.ltb_spec (maxCommitTS a + 1) (last + 1)) as [Hlt|Hge].
  { intros [= <- <- <-]. exists []. split_and!; [constructor|constructor|constructor|done|].
    intros _ v ts b _ _ Hts. lia. }
  set (es := KIter _ _ _). intros Hloop.
  assert (Hes : forall k v, (k, v) ∈ es -> exists ts b, ts_entry a A0 l k v ts b /\ last < ts <= maxCommitTS a).
  { intros k v (Hkv & Hhi & Hlo)%kiter_elem.
    destruct (Hwf k v Hkv) as (ts & b & Hts).
    { intros Hlt. apply Hlo. destruct (decide (last + 1 = 0)) as [->|Hne]; [done|].
      eapply bytes_lt_trans; [exact Hlt|]. unfold bytes_lt.
      rewrite encodeTSKey_ltb by eauto with go. apply Z.ltb_lt. lia. }
    exists ts, b. split; [done|]. destruct Hts as (p & payl & -> & Ht & _).
    unfold bytes_lt in *. rewrite !encodeTSKey_ltb in Hhi, Hlo by eauto with go. lia. }
  destruct (pull_loop_spec a A0 l last es last vs last' r Hh Hr Hwf) as (bs & Hf2 & Hst & Hl & Hcomp).
  { apply kiter_sorted. }
  { apply list.Forall_forall. intros [k v] Hin. destruct (Hes k v Hin) as (ts & b & ? & ?).
    exists ts, b. split; [done|lia]. }
  { done. }
  exists bs. split_and!; [|  |done|done|].
  - eapply Forall2_impl; [exact Hf2|]. by intros b1 v1 [? _].
  - apply list.Forall_forall. intros b1 Hb1. apply list_elem_of_lookup in Hb1 as [i Hi].
    destruct (Forall2_lookup_l _ _ _ _ _ Hf2 Hi) as (v1 & _ & _ & _ & k1 & w1 & t1 & b2 & Hin1 & Ht1 & Hs & Heq).
    split; [|by exists b2]. destruct (Hes _ _ Hin1) as (t2 & b3 & Ht2 & Hrange).
    destruct Ht1 as (q & pl & Hk1 & Htr & _), Ht2 as (q' & pl' & Hk2 & Htr' & _).
    assert (t1 = t2); [|lia]. apply encodeTSKey_inj; [in_range|in_range|congruence].
  - intros Hr1 v ts b Hkv Hts Hrange Hw. eapply Hcomp; [done| |exact Hts|done].
    apply kiter_elem. split; [done|]. destruct Hts as (_ & _ & _ & Htr & _). unfold bytes_lt.
    rewrite !encodeTSKey_ltb by eauto with go. split; [apply Z.ltb_lt; lia|].
    rewrite Z.ltb_lt. lia.
Qed.

(** ** Garbage collection *)

Lemma deletes_lookup (keys : list (list byte)) m k :
  apply_ops (OpDelete <$> keys) m !! k = if decide (k ∈ keys) then None else m !! k.
Proof.
  revert m. induction keys as [|k0 keys IH]; intros m; [done|].
  change (apply_ops (OpDelete <$> (k0 :: keys)) m) with (apply_ops (OpDelete <$> keys) (delete k0 m)).
  rewrite IH. destruct (decide (k ∈ keys)) as [Hin|Hni].
  - by rewrite decide_True by by right.
  - destruct (decide (k = k0)) as [->|Hne].
    + by rewrite lookup_delete_eq, decide_True by by left.
    + rewrite lookup_delete_ne, decide_False by (done || by intros [?|?]%elem_of_cons). done.
Qed.

(** Writes succeed in the states [P], and lead back to them. *)
Definition accepting (P : DB -> Prop) : Prop :=
  forall ops db, P db -> exists db', KWrite ops db = Ret db' /\ P db'.

Lemma delete_chunk_accepting P db c : accepting P -> P db -> P (delete_chunk db c).
Proof. intros Hok HP. unfold delete_chunk. by destruct (Hok (OpDelete <$> c) db HP) as (db' & -> & HP'). Qed.

(** Deleting in chunks touches only the given keys, and all of them when no
    write fails. *)
Lemma delete_chunks_lookup (cs : list (list (list byte))) : forall db k,
  (k ∉ concat cs -> kv_map (foldl delete_chunk db cs) !! k = kv_map db !! k) /\
  (forall P, accepting P -> P db -> k ∈ concat cs ->
     kv_map (foldl delete_chunk db cs) !! k = None).
Proof.
  induction cs as [|c cs IH]; intros db k; simpl.
  { split; [done|]. intros P _ _ Hin. by apply not_elem_of_nil in Hin. }
  destruct (IH (delete_chunk db c) k) as [IH1 IH2].
  assert (Hkeep : k ∉ c -> kv_map (delete_chunk db c) !! k = kv_map db !! k).
  { intros Hk. unfold delete_chunk. destruct (KWrite _ db) as [db'| |] eqn:E; [|done|done].
    apply kwrite_ok in E. by rewrite E, deletes_lookup, decide_False. }
  split.
  - intros [Hc Hcs]%not_elem_of_app. by rewrite IH1, Hkeep.
  - intros P Hok HP Hin. destruct (decide (k ∈ concat cs)) as [Hcs|Hcs].
    { apply (IH2 P); [done|by apply delete_chunk_accepting|done]. }
    rewrite IH1 by done. unfold delete_chunk. destruct (Hok (OpDelete <$> c) db HP) as (db' & E & _).
    rewrite E. apply kwrite_ok in E. rewrite E, deletes_lookup, decide_True; [done|].
    apply elem_of_app in Hin as [?|?]; done.
Qed.

Lemma chunks_concat {A} n fuel (l : list A) :
  (0 < n)%nat -> (length l <= fuel)%nat -> concat (chunks fuel n l) = l.
Proof.
  intros Hn. revert l. induction fuel as [|fuel IH]; intros l Hl.
  - destruct l; [done|simpl in Hl; lia].
  - destruct l as [|x l]; [done|]. cbn [chunks concat]. rewrite IH, take_drop; [done|].
    rewrite length_drop. simpl in *. lia.
Qed.

(** The store after [doGCTS], for timestamps whose successor does not overflow. *)
Lemma doGCTS_lookup ts a k : -1 <= ts < 2 ^ 63 - 1 ->
  (bytes_lt k (encodeTSKey 0) \/ (exists t, ts < t < 2 ^ 63 /\ k = encodeTSKey t) ->
     kv_map (metadata (doGCTS ts a)) !! k = kv_map (metadata a) !! k) /\
  (forall P, accepting P -> P (metadata a) ->
     forall t, 0 <= t <= ts -> k = encodeTSKey t -> kv_map (metadata (doGCTS ts a)) !! k = None).
Proof.
  intros Hts. unfold doGCTS. rewrite wrap_i64_id by eauto with go. simpl.
  set (keys := (KIter _ _ _).*1).
  assert (Hcc : concat (chunks (length keys) 1024 keys) = keys) by (apply chunks_concat; lia).
  destruct (delete_chunks_lookup (chunks (length keys) 1024 keys) (metadata a) k) as [H1 H2].
  rewrite Hcc in H1, H2.
  assert (Hmem : k ∈ keys <-> is_Some (kv_map (metadata a) !! k) /\
            bytes_lt k (encodeTSKey (ts + 1)) /\ ~ bytes_lt k (encodeTSKey 0)).
  { unfold keys. rewrite list_elem_of_fmap. split.
    - intros ([k' v] & -> & (Hkv & ? & ?)%kiter_elem). simpl. eauto.
    - intros ([v Hkv] & ? & ?). exists (k, v). split; [done|]. by apply kiter_elem. }
  split.
  - intros Hor. apply H1. rewrite Hmem. intros (_ & Hhi & Hlo). destruct Hor as [?|(t & Ht & ->)]; [done|].
    unfold bytes_lt in Hhi. rewrite encodeTSKey_ltb in Hhi by eauto with go. lia.
  - intros P Hok HP t Ht ->. destruct (kv_map (metadata a) !! encodeTSKey t) as [v|] eqn:E.
    + apply (H2 P); [done..|]. apply Hmem. split; [done|]. unfold bytes_lt.
      rewrite encodeTSKey_ltb by eauto with go. split; [apply Z.ltb_lt; lia|].
      apply encodeTSKey_not_below.
    + rewrite H1; [done|]. rewrite Hmem. intros [[v Hv] _]. congruence.
Qed.

(** Ten minutes as a timestamp. *)
Definition gc_margin : Z := maxTxnTimeoutSecond * 1000 * 2 ^ 18.

Lemma EncodeTSO_margin : wrap_i64 (EncodeTSO (maxTxnTimeoutSecond * 1000)) = gc_margin.
Proof. vm_compute. reflexivity. Qed.

(** [saveGCTSToDB] touches only its own key. *)
Lemma GC_saved ts a k : k <> gcTSKey ->
  kv_map (metadata (match saveGCTSToDB ts (metadata a) with Ret db => set_metadata db a | _ => a end)) !! k
  = kv_map (metadata a) !! k.
Proof.
  intros Hk. unfold saveGCTSToDB. destruct (KWrite _ _) as [db| |] eqn:E; [|done|done].
  apply kwrite_ok in E. simpl. rewrite E. simpl. by rewrite lookup_insert_ne.
Qed.

Lemma GC_saved_accepting (P : DB -> Prop) ts a : accepting P -> P (metadata a) ->
  P (metadata (match saveGCTSToDB ts (metadata a) with Ret db => set_metadata db a | _ => a end)).
Proof.
  intros Hok HP. unfold saveGCTSToDB.
  by destruct (Hok [OpPut gcTSKey (le_bytes 8 (wrap_u64 ts))] (metadata a) HP) as (db' & -> & HP').
Qed.

(** Garbage collection keeps what may still be needed: [GC(ts)] does nothing
    unless [ts] is above the last collection and below [maxCommitTS]; when it
    acts, it raises [gcTS] to [ts] and removes no timestamp above [ts] minus ten
    minutes from the metadata, for timestamps of at least ten minutes; when no
    write fails and no other collection runs it removes all of the older ones. *)
Theorem GC_keeps ts a :
  gc_margin <= ts < 2 ^ 63 ->
  (ts <= ap_gcTS a \/ maxCommitTS a <= ts -> GC ts a = a) /\
  (ap_gcTS a < ts < maxCommitTS a -> ap_gcTS (GC ts a) = ts) /\
  (forall t, ts - gc_margin < t < 2 ^ 63 ->
     kv_map (metadata (GC ts a)) !! encodeTSKey t = kv_map (metadata a) !! encodeTSKey t) /\
  (forall P t, ap_gcTS a < ts < maxCommitTS a -> gcWorking a = false -> accepting P -> P (metadata a) ->
     0 <= t <= ts - gc_margin -> kv_map (metadata (GC ts a)) !! encodeTSKey t = None).
Proof.
  intros Hts. unfold GC. rewrite EncodeTSO_margin.
  assert (Hm : gc_margin = 157286400000) by (vm_compute; reflexivity).
  rewrite (wrap_i64_id (ts - gc_margin)) by eauto with go.
  set (a1 := set_gcTS ts a).
  set (a2 := match saveGCTSToDB ts (metadata a1) with Ret db => set_metadata db a1 | _ => a1 end).
  assert (Hgc2 : ap_gcTS a2 = ts) by (unfold a2; by destruct (saveGCTSToDB _ _)).
  assert (Hgw2 : gcWorking a2 = gcWorking a) by (unfold a2; by destruct (saveGCTSToDB _ _)).
  split; [|split; [|split]].
  - intros Hor. destruct (Z.leb_spec ts (ap_gcTS a)); [done|].
    destruct (Z.leb_spec (maxCommitTS a) ts); [done|lia].
  - intros Hr. destruct (Z.leb_spec ts (ap_gcTS a)); [lia|].
    destruct (Z.leb_spec (maxCommitTS a) ts); [lia|]. fold a1 a2. by destruct (gcWorking a2).
  - intros t Ht. destruct (ts <=? ap_gcTS a); [done|]. destruct (maxCommitTS a <=? ts); [done|].
    fold a1 a2.
    assert (Hsaved : kv_map (metadata a2) !! encodeTSKey t = kv_map (metadata a) !! encodeTSKey t).
    { apply (GC_saved ts a1). intros Hk. eapply meta_key_fresh; [|exact Hk]. by left. }
    destruct (gcWorking a2); [done|].
    destruct (doGCTS_lookup (ts - gc_margin) a2 (encodeTSKey t)) as [H1 _]; [lia|].
    rewrite H1, Hsaved; [done|]. right. exists t. split; [lia|done].
  - intros P t Hr Hgw Hok HP Ht. destruct (Z.leb_spec ts (ap_gcTS a)); [lia|].
    destruct (Z.leb_spec (maxCommitTS a) ts); [lia|]. fold a1 a2. rewrite Hgw2, Hgw.
    destruct (doGCTS_lookup (ts - gc_margin) a2 (encodeTSKey t)) as [_ H2]; [lia|].
    apply (H2 P Hok) with (t := t); [|lia|done].
    apply (GC_saved_accepting P ts a1 Hok HP).
Qed.

(** Below ten minutes the margin is subtracted past zero and the collection
    turns into its opposite: the limit of the key range becomes the key of a
    negative timestamp, which is above all others, and every binlog is removed
    from the metadata. *)
Theorem GC_underflow P ts t a :
  ap_gcTS a < ts < maxCommitTS a -> 0 < ts < gc_margin - 1 -> gcWorking a = false ->
  accepting P -> P (metadata a) -> 0 <= t < 2 ^ 63 ->
  kv_map (metadata (GC ts a)) !! encodeTSKey t = None.
Proof.
  intros Hr Hts Hgw Hok HP Ht. unfold GC. rewrite EncodeTSO_margin.
  assert (Hm : gc_margin = 157286400000) by (vm_compute; reflexivity).
  destruct (Z.leb_spec ts (ap_gcTS a)); [lia|]. destruct (Z.leb_spec (maxCommitTS a) ts); [lia|].
  set (a1 := set_gcTS ts a).
  set (a2 := match saveGCTSToDB ts (metadata a1) with Ret db => set_metadata db a1 | _ => a1 end).
  replace (gcWorking a2) with false by (unfold a2; by destruct (saveGCTSToDB _ _)).
  assert (HP2 : P (metadata a2)).
  { apply (GC_saved_accepting P ts a1 Hok HP). }
  rewrite (wrap_i64_id (ts - gc_margin)) by eauto with go. unfold doGCTS.
  rewrite (wrap_i64_id (ts - gc_margin + 1)) by eauto with go. simpl.
  set (keys := (KIter _ _ _).*1).
  destruct (delete_chunks_lookup (chunks (length keys) 1024 keys) (metadata a2) (encodeTSKey t)) as [H1 H2].
  rewrite (chunks_concat 1024 (length keys) keys) in H1, H2 by lia.
  destruct (kv_map (metadata a2) !! encodeTSKey t) as [v|] eqn:E.
  - apply (H2 P); [done..|]. unfold keys. apply list_elem_of_fmap. exists (encodeTSKey t, v). split; [done|].
    apply kiter_elem. split; [done|]. split; [|apply encodeTSKey_not_below].
    apply tsKey_negative_lt; lia.
  - destruct (decide (encodeTSKey t ∈ keys)) as [Hin|Hni]; [by apply (H2 P)|by rewrite H1].
Qed.

(** ** The sorted items *)

(** The stored [maxCommitTS] and the item to be saved are not ahead of the one in
    memory. *)
Record handle_inv (st : Append DB * option sortItem) : Prop := {
  hi_stored : forall v, kv_map (metadata st.1) !! maxCommitTSKey = Some v ->
    exists m, v = le_bytes 8 (wrap_u64 m) /\ in_i64 m /\ m <= maxCommitTS st.1;
  hi_tosave : forall i, st.2 = Some i -> in_i64 (commit i) /\ commit i <= maxCommitTS st.1;
}.

Lemma persist_logged_inv item a :
  handle_inv (a, Some item) -> handle_inv (persist_logged item a, Some item) /\
  maxCommitTS (persist_logged item a) = maxCommitTS a.
Proof.
  intros [Hst Hts]. unfold persist_logged.
  destruct (persistHandlePointer item a) as [a'| |] eqn:E; [|by split..].
  unfold persistHandlePointer in E.
  apply obind_Ret_inv in E as (data & _ & (p & _ & (db & Hw & [= <-])%obind_Ret_inv)%obind_Ret_inv).
  apply kwrite_ok in Hw. simpl in *. split; [|done]. split; simpl; [|done].
  intros v. rewrite Hw. simpl. rewrite lookup_insert_ne by done. rewrite lookup_insert_eq.
  intros [= <-]. exists (commit item). split; [done|]. by apply Hts.
Qed.

Lemma handle_event_inv e st :
  handle_inv st -> (forall i, e = Item i -> in_i64 (commit i)) ->
  handle_inv (handle_event e st) /\ maxCommitTS st.1 <= maxCommitTS (handle_event e st).1.
Proof.
  intros Hinv He. pose proof Hinv as [Hst Hts]. destruct st as [a toSave]. simpl in *.
  destruct e as [item| |]; simpl.
  - destruct (Z.ltb_spec (commit item) (maxCommitTS a)); [simpl; split; [done|lia]|].
    split; [|simpl; lia]. split; simpl.
    + intros v Hv. destruct (Hst v Hv) as (m & ? & ? & ?). exists m. split_and!; [done|done|lia].
    + intros i [= <-]. split; [by apply He|lia].
  - destruct toSave as [item|]; [|simpl; split; [done|lia]].
    destruct (persist_logged_inv item a Hinv) as [[H1 _] H2]. simpl in *.
    split; [split; simpl; [|done]|by rewrite H2]. intros v Hv. rewrite H2 in *. by apply H1.
  - destruct toSave as [item|]; [|simpl; split; [done|lia]].
    destruct (persist_logged_inv item a Hinv) as [H1 H2]. simpl in *. split; [done|]. by rewrite H2.
Qed.

(** The maximal commit timestamp only grows, and the one that is stored never
    runs ahead of it: whatever sorted items arrive, whenever the timer fires and
    whichever store writes fail, a restart reads a [maxCommitTS] that had been
    reached before. *)
Theorem handleSortItem_monotone es st :
  handle_inv st -> Forall (fun e => forall i, e = Item i -> in_i64 (commit i)) es ->
  0 <= maxCommitTS st.1 -> healthy (metadata (handleSortItem es st).1) ->
  maxCommitTS st.1 <= maxCommitTS (handleSortItem es st).1 /\
  exists m, readInt64 maxCommitTSKey (metadata (handleSortItem es st).1) = Ret m /\
    m <= maxCommitTS (handleSortItem es st).1.
Proof.
  intros Hinv Hes H0 Hh.
  assert (Hall : handle_inv (handleSortItem es st) /\ maxCommitTS st.1 <= maxCommitTS (handleSortItem es st).1).
  { clear Hh H0. revert st Hinv. induction Hes as [|e es He Hes IH]; intros st Hinv; [split; [done|simpl; lia]|].
    destruct (handle_event_inv e st Hinv He) as [H1 H2]. destruct (IH _ H1) as [H3 H4].
    split; [done|]. simpl. unfold handleSortItem in *. lia. }
  destruct Hall as [[Hst _] Hle]. split; [done|]. unfold readInt64. rewrite Hh. simpl.
  destruct (kv_map _ !! maxCommitTSKey) as [v|] eqn:E; [|exists 0; split; [done|lia]].
  destruct (Hst v eq_refl) as (m & -> & Hm & Hmle). rewrite length_le_bytes. cbn [Nat.ltb Nat.leb].
  rewrite take_ge by (rewrite length_le_bytes; lia). exists m. split; [|done]. f_equal.
  rewrite le_value_u64 by apply wrap_u64_range. by apply wrap_i64_u64.
Qed.

(** ** The resolver *)

(** A write to the log does not touch the store. *)
Lemma writeBinlog_metadata ios b a a' req : writeBinlog ios b a = (a', req) -> metadata a' = metadata a.
Proof.
  unfold writeBinlog. destruct (marshal b); [|by intros [= <- <-]..].
  destruct (write ios _ _) as [[v reqs] r]. by intros [= <- <-].
Qed.

(** The resolver can settle a transaction without its commit binlog: when the
    commit binlog was written to the log but the store refuses to file it,
    [writeCBinlog] wraps the nil error of the request and reports success, and
    [resolve] answers true although the commit binlog cannot be found. *)
Theorem resolve_lost_commit ios mvcc status startTs a pbinlog w ws a' req e :
  0 < ap_latestTS a -> readBinlogByTS startTs a = Ret pbinlog ->
  mvcc (PrewriteKey pbinlog) = Ret (w :: ws) -> wrap_i64 (w_StartTs w) = startTs ->
  w_Rollback w = false -> startTs < wrap_i64 (w_CommitTs w) ->
  writeBinlog ios (mkBinlog BinlogType_Commit (StartTs pbinlog) (wrap_i64 (w_CommitTs w)) [] [] [] 0 0) a
    = (a', req) -> err req = None ->
  KWrite [OpPut (encodeTSKey (request_ts req)) (MarshalBinary (vp req))] (metadata a') = Fail e ->
  resolve ios mvcc status startTs a = (a', true) /\ metadata a' = metadata a.
Proof.
  intros Hl Hp Hm Hs Hrb Hc Hw He Hk.
  assert (Hmeta : metadata a' = metadata a) by by eapply writeBinlog_metadata.
  split; [|done]. unfold resolve. destruct (Z.leb_spec (ap_latestTS a) 0); [lia|]. rewrite Hp, Hm.
  cbn [resolve_writes]. rewrite Hs, Z.eqb_refl, Hrb. cbn [negb].
  destruct (Z.leb_spec (wrap_i64 (w_CommitTs w)) startTs); [lia|].
  unfold writeCBinlog. by rewrite Hw, He, Hk.
Qed.

(** The commit binlog of a transaction is in the log and filed. *)
Definition committed a (start c : Z) : Prop := exists A0 l p payl,
  repr (vlog a) A0 l /\ (p, payl) ∈ entries (whole (vlog a) A0 l) /\
  unmarshal payl = Ret (mkBinlog BinlogType_Commit start c [] [] [] 0 0) /\ filed a p c.

Lemma writeCommit_committed a A0 l start c a' req db :
  repr (vlog a) A0 l -> maxFid (vlog a) + 2 < 2 ^ 32 -> start < 2 ^ 63 -> in_i64 c ->
  (forall start c p, marshal (mkBinlog BinlogType_Commit start c [] [] [] 0 0) = Ret p -> len p <= maxAlloc) ->
  writeBinlog [] (mkBinlog BinlogType_Commit start c [] [] [] 0 0) a = (a', req) -> err req = None ->
  KWrite [OpPut (encodeTSKey (request_ts req)) (MarshalBinary (vp req))] (metadata a') = Ret db ->
  committed (set_metadata db a') start c.
Proof.
  intros Hr Hfid Hs Hc Hsz Hw He Hk. unfold writeBinlog in Hw.
  destruct (marshal _) as [payl|e|] eqn:Hm; [|by simplify_eq..].
  set (r0 := mkRequest start c BinlogType_Commit payl zero_pointer None) in *.
  assert (Hok : req_ok r0).
  { unfold in_i64 in Hc. split; [by eapply Hsz|]. split; [change (request_ts r0) with c; lia|].
    eexists. split; [by apply unmarshal_marshal|]. split; [done|]. simpl. lia. }
  destruct (write_appends_ts (vlog a) A0 l [r0]) as (v' & reqs' & A' & l' & Hwr & Hr' & Hpay & Hent & Hts);
    [done|by constructor|simpl; lia|].
  simpl in Hw. unfold r0 in Hwr. rewrite Hwr in Hw.
  destruct reqs' as [|r1 [|]]; try done. simpl in *. injection Hw as <- <-. simpl in *.
  apply kwrite_ok in Hk. exists A', l', (vp r1), payl. simpl. split; [done|]. split_and!.
  - rewrite Hent. apply elem_of_app. right. by left.
  - by apply unmarshal_marshal.
  - unfold filed. simpl. rewrite Hk. simpl.
    assert (Hrt : request_ts r1 = c) by (injection Hts as ->; done).
    unfold request_ts in *. simpl in *. rewrite Hrt. apply lookup_insert_eq.
Qed.

(** What TiKV may have said of a transaction. *)
Definition said_committed (mvcc : list byte -> outcome (list mvcc_write))
    (status : Z -> list byte -> outcome txn_status) (startTs : Z) (pb : Binlog) (c : Z) : Prop :=
  (exists ws w, mvcc (PrewriteKey pb) = Ret ws /\ w ∈ ws /\ wrap_i64 (w_StartTs w) = startTs /\
     w_Rollback w = false /\ c = wrap_i64 (w_CommitTs w) /\ startTs < c) \/
  (exists s, status (wrap_u64 (StartTs pb)) (PrewriteKey pb) = Ret s /\ st_TTL s <= 0 /\
     IsCommitted s = true /\ c = wrap_i64 (st_CommitTS s)).

Definition said_aborted (mvcc : list byte -> outcome (list mvcc_write))
    (status : Z -> list byte -> outcome txn_status) (startTs : Z) (pb : Binlog) : Prop :=
  (exists ws w, mvcc (PrewriteKey pb) = Ret ws /\ w ∈ ws /\ wrap_i64 (w_StartTs w) = startTs /\
     w_Rollback w = true) \/
  (exists s, status (wrap_u64 (StartTs pb)) (PrewriteKey pb) = Ret s /\ st_TTL s <= 0 /\ IsCommitted s = false).

Lemma resolve_writes_answer ios startTs pb ws a a' r :
  resolve_writes ios startTs pb ws a = (a', r) ->
  (a' = a /\ r = None) \/
  (a' = a /\ r = Some true /\ exists w, w ∈ ws /\ wrap_i64 (w_StartTs w) = startTs /\ w_Rollback w = true) \/
  (exists w e, w ∈ ws /\ wrap_i64 (w_StartTs w) = startTs /\ w_Rollback w = false /\
     startTs < wrap_i64 (w_CommitTs w) /\
     writeCBinlog ios pb (wrap_i64 (w_CommitTs w)) a = (a', e) /\ r = Some (bool_decide (e = None))).
Proof.
  induction ws as [|w ws IH]; simpl; [intros [= <- <-]; by left|].
  destruct (Z.eqb_spec (wrap_i64 (w_StartTs w)) startTs) as [Hs|Hs]; simpl.
  - destruct (w_Rollback w) eqn:Hrb.
    { intros [= <- <-]. right. left. split_and!; [done|done|]. exists w. split_and!; [by left|done|done]. }
    destruct (Z.leb_spec (wrap_i64 (w_CommitTs w)) startTs); [intros [= <- <-]; by left|].
    destruct (writeCBinlog _ _ _ _) as [a1 [e|]] eqn:Hw; intros [= <- <-]; right; right;
      exists w; eexists; (split_and!; [by left|done|done|done|exact Hw|done]).
  - intros [H|[(H1 & H2 & w' & Hin & H3)|(w' & e & Hin & H3)]]%IH; [by left|right; left|right; right].
    + split_and!; [done|done|]. exists w'. split; [by right|done].
    + exists w', e. split; [by right|done].
Qed.


End Proofs.
