(* ===== verification/StorageExamples.v ===== *)
(** * StorageExamples
    The storage of a pump on a concrete log, store and codec: the statements of
    [Metadata] and [StorageProofs] at inputs where their hypotheses hold. *)
From Stdlib Require Import Init.Byte Strings.Byte.
From stdpp Require Import base option list sorting gmap strings.
From S2P Require Import Prelude Binlog LogFile Vlog VlogOpen Sorter Metadata Storage StorageProofs.

Module StorageExamples.
Import SimpleCodec VlogExamples.

(** A fresh storage, and the same storage after three binlogs were written to its
    log (over two files, see [demo_positions]) and filed. *)
Definition demo_append (v : valueLog) (db : mapDB) (maxTs : Z) : Append mapDB :=
  mkAppend v db 1000 demo_opts (EncodeTSO 1000) false 0 maxTs zero_pointer zero_pointer.

Definition empty_db : mapDB := mkMapDB ∅ false.
Definition fresh : Append mapDB := demo_append demo_vlog empty_db 0.

Definition written : valueLog := Eval vm_compute in (write [] demo_reqs demo_vlog).1.1.
Definition placed : list request := Eval vm_compute in (write [] demo_reqs demo_vlog).1.2.

Lemma write_demo : write [] demo_reqs demo_vlog = (written, placed, Ret tt).
Proof. vm_compute. reflexivity. Qed.

Definition filed_db : mapDB := mkMapDB
  (<[encodeTSKey 8 := MarshalBinary (mkVP 1 0)]>
  (<[encodeTSKey 6 := MarshalBinary (mkVP 0 73)]>
  (<[encodeTSKey 5 := MarshalBinary (mkVP 0 0)]> ∅))) false.

Definition full : Append mapDB := demo_append written filed_db 8.

(** The abstract log of [written]. *)
Lemma written_repr : exists A0 l, repr written A0 l /\
  entries (A0 ++ [(maxFid written, l)]) = zip (vp <$> placed) (payload <$> demo_reqs).
Proof.
  destruct (write_appends_ts demo_vlog [] [] demo_reqs demo_repr demo_reqs_ok)
    as (v' & reqs' & A' & l' & Hw & Hr & _ & Hent & _); [simpl; lia|].
  rewrite write_demo in Hw. injection Hw as <- <-. by exists A', l'.
Qed.

Lemma healthy_mapDB (db : mapDB) : healthy db.
Proof. done. Qed.

Lemma full_metadata_wf A0 l :
  entries (A0 ++ [(maxFid written, l)]) = zip (vp <$> placed) (payload <$> demo_reqs) ->
  metadata_wf full A0 l.
Proof.
  intros He k v Hk _. unfold ts_entry. change (vlog full) with written. rewrite He.
  change (kv_map (metadata full)) with (store filed_db) in Hk. cbn [store filed_db] in Hk.
  apply lookup_insert_Some in Hk as [[<- <-]|[_ Hk]].
  { exists 8. eexists. exists (mkVP 1 0). eexists. split; [done|]. split; [lia|]. split; [done|].
    split; [unfold vp_ok, in_u32, in_i64; simpl; lia|].
    split; [do 2 right; left|]. split; [vm_compute; reflexivity|]. done. }
  apply lookup_insert_Some in Hk as [[<- <-]|[_ Hk]].
  { exists 6. eexists. exists (mkVP 0 73). eexists. split; [done|]. split; [lia|]. split; [done|].
    split; [unfold vp_ok, in_u32, in_i64; simpl; lia|].
    split; [right; left|]. split; [vm_compute; reflexivity|]. done. }
  apply lookup_insert_Some in Hk as [[<- <-]|[_ Hk]]; [|done].
  exists 5. eexists. exists (mkVP 0 0). eexists. split; [done|]. split; [lia|]. split; [done|].
  split; [unfold vp_ok, in_u32, in_i64; simpl; lia|].
  split; [left|]. split; [vm_compute; reflexivity|]. done.
Qed.

Lemma tsKey_roundtrip_ordered_witness :
  decodeTSKey (encodeTSKey 5) = Ret 5 /\ bytes_lt (encodeTSKey 5) (encodeTSKey 8).
Proof.
  destruct (tsKey_roundtrip_ordered 5 8) as [H1 H2]; [in_range|lia|].
  split; [exact H1|]. apply H2; lia.
Defined.

Lemma storage_readback_witness :
  exists a', writeBatchToKV placed (set_vlog written fresh) = Ret a' /\
    GetBinlog 8 a' = Ret (demo_binlog BinlogType_Commit 5 8).
Proof.
  eexists. split; [vm_compute; reflexivity|].
  destruct (storage_readback fresh [] [] demo_reqs written placed
    (default fresh (match writeBatchToKV placed (set_vlog written fresh) with Ret a => Some a | _ => None end))
    demo_repr demo_reqs_ok) as [H1 _].
  - simpl. lia.
  - apply (bool_decide_unpack _). vm_compute. exact I.
  - apply (bool_decide_unpack _). vm_compute. exact I.
  - exact write_demo.
  - vm_compute. reflexivity.
  - apply healthy_mapDB.
  - repeat constructor; simpl; lia.
  - transitivity (unmarshal (payload (demo_req BinlogType_Commit 5 8))); [|vm_compute; reflexivity].
    apply (H1 (demo_req BinlogType_Commit 5 8)). do 2 right. left.
Defined.

(** A crash before anything was filed: the log has three entries, the metadata
    none. *)
Definition crashed : Append mapDB := demo_append written empty_db 0.
Definition replayed : list request := Eval vm_compute in (replay crashed).1.
Definition recovered : Append mapDB :=
  default crashed (match write_batches [replayed] crashed with Ret a => Some a | _ => None end).

Lemma crashed_logged A0 l p ts :
  entries (A0 ++ [(maxFid written, l)]) = zip (vp <$> placed) (payload <$> demo_reqs) ->
  logged crashed A0 l p ts -> ts ∈ [5; 6; 8].
Proof.
  intros He (payl & b & Hin & Hb & <- & _). change (vlog crashed) with written in Hin. rewrite He in Hin.
  cbn [zip zip_with fmap list_fmap placed demo_reqs] in Hin. rewrite !elem_of_cons, elem_of_nil in Hin.
  destruct Hin as [[= -> ->]|[[= -> ->]|[[= -> ->]|[]]]]; vm_compute in Hb; injection Hb as <-;
    unfold binlog_ts; simpl; rewrite ?elem_of_cons; tauto.
Qed.


(** The commit binlog of timestamp 8 is pulled, with the value of its prewrite;
    the prewrite binlog of timestamp 6 is passed over. *)
Lemma pull_pass_complete_witness :
  exists A0 l vs, pull_pass 0 full = (vs, 8, Ret tt) /\ length vs = 1%nat /\
    exists bs, Forall2 (fun b' v => marshal b' = Ret v) bs vs /\
      Forall (fun b' => 0 < CommitTs b' <= 8 /\ exists b, sent full A0 l b b') bs.
Proof.
  destruct written_repr as (A0 & l & Hr & He). exists A0, l, (pull_pass 0 full).1.1.
  split; [vm_compute; reflexivity|]. split; [vm_compute; reflexivity|].
  destruct (pull_pass_complete full A0 l 0 (pull_pass 0 full).1.1 8 (Ret tt)) as (bs & H1 & H2 & _).
  - apply healthy_mapDB.
  - exact Hr.
  - by apply full_metadata_wf.
  - lia.
  - simpl. lia.
  - vm_compute. reflexivity.
  - exists bs. split; [exact H1|exact H2].
Defined.

(** A collection an hour into the log keeps what is younger than fifty minutes. *)
Definition late : Append mapDB := demo_append written filed_db (EncodeTSO 7200000).

Lemma GC_keeps_witness :
  ap_gcTS (GC (EncodeTSO 3600000) late) = EncodeTSO 3600000 /\
  store (metadata (GC (EncodeTSO 3600000) late)) !! encodeTSKey 5 = None.
Proof.
  assert (Hts : EncodeTSO 3600000 = 943718400000) by (vm_compute; reflexivity).
  assert (Hm : gc_margin = 157286400000) by (vm_compute; reflexivity).
  assert (Hmax : maxCommitTS late = 1887436800000) by (vm_compute; reflexivity).
  destruct (GC_keeps (EncodeTSO 3600000) late) as (_ & H2 & _ & H4); [lia|].
  split; [apply H2; rewrite Hmax; simpl; lia|].
  apply (H4 (fun db => disk_full db = false) 5).
  - rewrite Hmax. simpl. lia.
  - reflexivity.
  - intros ops db Hd. simpl. rewrite Hd. eexists. split; [reflexivity|done].
  - reflexivity.
  - lia.
Defined.

(** Two sorted items and the timer: the stored value is the second item's. *)
Lemma handleSortItem_monotone_witness :
  let st := handleSortItem [Item (mkItem 5 8 BinlogType_Commit); Timer] (demo_append written filed_db 0, None) in
  0 <= maxCommitTS st.1 /\ exists m, readInt64 maxCommitTSKey (metadata st.1) = Ret m /\ m <= maxCommitTS st.1.
Proof.
  apply (handleSortItem_monotone [Item (mkItem 5 8 BinlogType_Commit); Timer]
           (demo_append written filed_db 0, None)).
  - split; [|done]. intros v Hv. vm_compute in Hv. discriminate.
  - apply Forall_cons_iff. split; [intros i [= <-]; unfold in_i64; simpl; lia|].
    apply Forall_cons_iff. split; [done|constructor].
  - simpl. lia.
  - apply healthy_mapDB.
Defined.

(** TiKV knows that the transaction of timestamp 6 committed at 9. *)
Definition demo_mvcc (key : list byte) : outcome (list mvcc_write) := Ret [mkMvcc 5 8 false; mkMvcc 6 9 false].
Definition no_status (ts : Z) (key : list byte) : outcome txn_status := Fail (Err "not asked").

Lemma marshal_commit_len start c p :
  marshal (mkBinlog BinlogType_Commit start c [] [] [] 0 0) = Ret p -> len p <= maxAlloc.
Proof.
  simpl. case_decide; [|done]. intros [= <-]. unfold enc. cbn [length].
  rewrite !length_app, !length_le_bytes. vm_compute. discriminate.
Qed.


(** The same resolver on a full disk: it answers true without filing anything. *)
Example resolve_lost_commit_example :
  let full_disk := set_metadata (mkMapDB (store filed_db) true) full in
  let '(a, answer) := resolve [] demo_mvcc no_status 6 full_disk in
  answer = true /\ readBinlogByTS 9 a = Fail ErrNotFound.
Proof. vm_compute. done. Qed.

End StorageExamples.
