(* ===== verification/Heap.v ===== *)
(** * Heap
    The binary heap of the Go standard library ([container/heap]) over a slice
    ordered by an integer key, as [drainer/merge.go] uses it through
    [MergeItems]. *)
From Stdlib Require Import Lia ZifyNat.
From stdpp Require Import base option list sorting numbers.
From S2P Require Import Prelude.

#[local] Open Scope nat_scope.
Ltac Zify.zify_post_hook ::= Z.div_mod_to_equations.

Section Heap.
Context {A : Type} (ts : A -> Z).

Implicit Types (l : list A) (i j n : nat).

(** [m.Less(i, j)] and [m.Swap(i, j)]; both panic out of range, which the heap
    operations never reach. *)
Definition Less l i j : bool :=
  match l !! i, l !! j with
  | Some a, Some b => (ts a <? ts b)%Z
  | _, _ => false
  end.

Definition Swap l i j : list A :=
  match l !! i, l !! j with
  | Some a, Some b => <[i := b]> (<[j := a]> l)
  | _, _ => l
  end.

(** [up(h, j)]: [j] halves in every iteration. *)
Fixpoint up (fuel : nat) l j : list A :=
  match fuel with
  | O => l
  | S fuel =>
    let i := (j - 1) / 2 in
    if (i =? j) || negb (Less l j i) then l else up fuel (Swap l i j) i
  end.

(** [down(h, i, n)]: [i] at least doubles in every iteration. *)
Fixpoint down (fuel : nat) l i n : list A :=
  match fuel with
  | O => l
  | S fuel =>
    let j1 := 2 * i + 1 in
    if n <=? j1 then l
    else
      let j := if (j1 + 1 <? n) && Less l (j1 + 1) j1 then j1 + 1 else j1 in
      if negb (Less l j i) then l else down fuel (Swap l i j) j n
  end.

(** [heap.Push(h, x)]. *)
Definition heap_push (x : A) l : list A := up (S (length l)) (l ++ [x]) (length l).

(** [heap.Pop(h)]: the slice has to be non-empty. *)
Definition heap_pop l : option (A * list A) :=
  let n := length l - 1 in
  let l := down n (Swap l 0 n) 0 n in
  x ← l !! n; Some (x, take n l).

(** ** Correctness *)

Definition key l i : Z := match l !! i with Some a => ts a | None => 0%Z end.

Definition child i j : Prop := j = 2 * i + 1 \/ j = 2 * i + 2.

(** The first [n] elements form a heap. *)
Definition heap_upto n l : Prop := forall i j, child i j -> j < n -> (key l i <= key l j)%Z.

Definition is_heap l : Prop := heap_upto (length l) l.

Lemma Less_key l i j : i < length l -> j < length l -> Less l i j = (key l i <? key l j)%Z.
Proof.
  intros Hi Hj. unfold Less, key.
  destruct (lookup_lt_is_Some_2 l i Hi) as [a ->], (lookup_lt_is_Some_2 l j Hj) as [b ->]. done.
Qed.

Lemma Swap_Permutation l i j : Swap l i j ≡ₚ l.
Proof.
  unfold Swap. destruct (l !! i) as [a|] eqn:Hi; [|done]. destruct (l !! j) as [b|] eqn:Hj; [|done].
  destruct (decide (i = j)) as [<-|Hne].
  { simplify_eq. rewrite list_insert_insert_eq. by rewrite list_insert_id. }
  apply Permutation_inj. split; [by rewrite !length_insert|].
  exists (fun k => if decide (k = i) then j else if decide (k = j) then i else k). split.
  - intros x y. repeat case_decide; congruence.
  - intros k. assert (i < length l) by (by eapply lookup_lt_Some).
    assert (j < length l) by (by eapply lookup_lt_Some).
    repeat case_decide; subst.
    + rewrite list_lookup_insert_eq by (by rewrite length_insert). done.
    + rewrite list_lookup_insert_ne, list_lookup_insert_eq by done. done.
    + by rewrite !list_lookup_insert_ne.
Qed.

Lemma length_Swap l i j : length (Swap l i j) = length l.
Proof. apply Permutation_length, Swap_Permutation. Qed.

Lemma key_Swap l i j k :
  i < length l -> j < length l ->
  key (Swap l i j) k = if decide (k = i) then key l j else if decide (k = j) then key l i else key l k.
Proof.
  intros Hi Hj. unfold key, Swap.
  destruct (lookup_lt_is_Some_2 l i Hi) as [a Ha], (lookup_lt_is_Some_2 l j Hj) as [b Hb].
  rewrite Ha, Hb. repeat case_decide; subst.
  - by rewrite list_lookup_insert_eq by (by rewrite length_insert).
  - by rewrite list_lookup_insert_ne, list_lookup_insert_eq.
  - by rewrite !list_lookup_insert_ne.
Qed.

Lemma lookup_Swap_out l i j k : k <> i -> k <> j -> Swap l i j !! k = l !! k.
Proof.
  intros Hi Hj. unfold Swap. destruct (l !! i), (l !! j); try done.
  by rewrite !list_lookup_insert_ne.
Qed.

Lemma up_Permutation fuel l j : up fuel l j ≡ₚ l.
Proof.
  revert l j. induction fuel as [|fuel IH]; intros l j; simpl; [done|].
  destruct (_ || _); [done|]. by rewrite IH, Swap_Permutation.
Qed.

Lemma down_Permutation fuel l i n : down fuel l i n ≡ₚ l.
Proof.
  revert l i. induction fuel as [|fuel IH]; intros l i; cbn [down]; [done|].
  destruct (n <=? 2 * i + 1); [done|]. destruct (negb _); [done|]. by rewrite IH, Swap_Permutation.
Qed.

(** A heap but for [j], which may be smaller than its parent. *)
Definition up_inv l j : Prop :=
  (forall i k, child i k -> k < length l -> k <> j -> (key l i <= key l k)%Z) /\
  (forall p k, child p j -> child j k -> k < length l -> (key l p <= key l k)%Z).

Lemma up_heap fuel : forall l j,
  j < fuel -> j < length l -> up_inv l j -> is_heap (up fuel l j).
Proof.
  induction fuel as [|fuel IH]; intros l j Hf Hj [H1 H2]; [lia|]. cbn [up].
  remember ((j - 1) / 2) as p eqn:Hp.
  destruct (Nat.eqb_spec p j) as [Hpj|Hpj]; simpl.
  { intros i k Hc Hk. apply H1; [done..|]. unfold child in Hc. lia. }
  assert (Hc : child p j) by (unfold child; lia).
  rewrite Less_key by lia.
  destruct (Z.ltb_spec (key l j) (key l p)) as [Hlt|Hge]; simpl.
  - apply IH; [lia|rewrite length_Swap; lia|]. split.
    + intros i k Hik Hk Hkp. rewrite length_Swap in Hk. rewrite !key_Swap by lia.
      rewrite (decide_False (P := k = p)) by done.
      destruct (decide (k = j)) as [->|Hkj].
      * assert (i = p) as -> by (unfold child in *; lia). rewrite decide_True by done. lia.
      * pose proof (H1 i k Hik Hk Hkj). destruct (decide (i = p)) as [->|]; [lia|].
        destruct (decide (i = j)) as [->|]; [by apply (H2 p k)|done].
    + intros q k Hqp Hpk Hk. rewrite length_Swap in Hk. rewrite !key_Swap by lia.
      assert (Hqpk : (key l q <= key l p)%Z) by (apply H1; [done|lia|done]).
      rewrite (decide_False (P := q = p)), (decide_False (P := q = j)),
        (decide_False (P := k = p)) by (unfold child in *; lia).
      destruct (decide (k = j)) as [->|Hkj]; [done|].
      pose proof (H1 p k Hpk Hk Hkj). lia.
  - intros i k Hik Hk. destruct (decide (k = j)) as [->|Hne]; [|by apply H1].
    assert (i = p) as -> by (unfold child in *; lia). done.
Qed.

Lemma heap_push_heap x l : is_heap l -> is_heap (heap_push x l).
Proof.
  intros Hh. unfold heap_push. apply up_heap; [lia|rewrite length_app; simpl; lia|].
  assert (Hk : forall i, i < length l -> key (l ++ [x]) i = key l i)
    by (intros i Hi; unfold key; by rewrite lookup_app_l).
  split.
  - intros i k Hc Hlt Hne. unfold child in Hc. rewrite length_app in Hlt. simpl in Hlt.
    rewrite !Hk by lia. apply Hh; [done|lia].
  - intros p k Hp Hc Hlt. rewrite length_app in Hlt. simpl in Hlt. unfold child in *. lia.
Qed.

Lemma heap_push_Permutation x l : heap_push x l ≡ₚ x :: l.
Proof. unfold heap_push. rewrite up_Permutation. apply Permutation_app_comm. Qed.

(** A heap on the first [n] elements but for [i], which may be larger than its
    children. *)
Definition down_inv n l i : Prop :=
  (forall k m, child k m -> m < n -> k <> i -> (key l k <= key l m)%Z) /\
  (forall p m, child p i -> child i m -> m < n -> (key l p <= key l m)%Z).

Lemma down_heap fuel : forall l i n,
  n <= fuel + i -> n <= length l -> i < n \/ n = 0 -> down_inv n l i -> heap_upto n (down fuel l i n).
Proof.
  induction fuel as [|fuel IH]; intros l i n Hf Hn Hi [H1 H2].
  { destruct Hi; [lia|]. intros k m _ Hm. lia. }
  cbn [down]. destruct (Nat.leb_spec n (2 * i + 1)) as [Hle|Hgt].
  { intros k m Hc Hm. apply H1; [done..|]. unfold child in Hc. lia. }
  set (j := if (2 * i + 1 + 1 <? n) && Less l (2 * i + 1 + 1) (2 * i + 1)
            then 2 * i + 1 + 1 else 2 * i + 1).
  assert (Hj : child i j /\ j < n /\ forall m, child i m -> m < n -> (key l j <= key l m)%Z).
  { unfold j. destruct (Nat.ltb_spec (2 * i + 1 + 1) n) as [Hlt|Hge]; cbn [andb].
    - rewrite Less_key by lia.
      destruct (Z.ltb_spec (key l (2 * i + 1 + 1)) (key l (2 * i + 1))) as [Hs|Hs].
      + split; [unfold child; lia|]. split; [lia|]. intros m [->| ->] Hm; [lia|].
        replace (2 * i + 2) with (2 * i + 1 + 1) by lia. done.
      + split; [unfold child; lia|]. split; [lia|]. intros m [->| ->] Hm; [done|].
        replace (2 * i + 2) with (2 * i + 1 + 1) by lia. done.
    - split; [unfold child; lia|]. split; [lia|]. intros m [->| ->] Hm; [done|lia]. }
  destruct Hj as (Hc & Hjn & Hmin). rewrite Less_key by lia.
  destruct (Z.ltb_spec (key l j) (key l i)) as [Hlt|Hge]; simpl.
  - apply IH; [unfold child in Hc; lia|by rewrite length_Swap|by left|]. split.
    + intros k m Hkm Hm Hkj. rewrite !key_Swap by lia.
      rewrite (decide_False (P := k = j)) by done.
      destruct (decide (k = i)) as [->|Hki].
      * pose proof (Hmin m Hkm Hm). rewrite (decide_False (P := m = i)) by (unfold child in *; lia).
        destruct (decide (m = j)) as [->|]; [lia|done].
      * destruct (decide (m = i)) as [->|]; [by apply (H2 k j)|].
        rewrite decide_False by (unfold child in *; lia). by apply H1.
    + intros p m Hpj Hjm Hm. rewrite !key_Swap by lia.
      assert (p = i) as -> by (unfold child in *; lia).
      rewrite decide_True by done. rewrite !decide_False by (unfold child in *; lia).
      apply H1; [done|done|]. unfold child in *. lia.
  - intros k m Hkm Hm. destruct (decide (k = i)) as [->|Hne]; [|by apply H1].
    pose proof (Hmin m Hkm Hm). lia.
Qed.

Lemma down_out fuel l i n k : n <= k -> n <= length l -> i < n \/ n = 0 -> down fuel l i n !! k = l !! k.
Proof.
  intros Hk. revert l i. induction fuel as [|fuel IH]; intros l i Hn Hi; cbn [down]; [done|].
  destruct (Nat.leb_spec n (2 * i + 1)); [done|].
  destruct ((2 * i + 1 + 1 <? n) && Less l (2 * i + 1 + 1) (2 * i + 1)) eqn:Hb;
    [apply andb_true_iff in Hb as [Hb%Nat.ltb_lt _]|]; (destruct (negb _); [done|]);
    (rewrite IH; [|by rewrite length_Swap|lia]); apply lookup_Swap_out; lia.
Qed.

(** The root of a heap is a minimum. *)
Lemma heap_root n l : heap_upto n l -> forall i, i < n -> (key l 0 <= key l i)%Z.
Proof.
  intros Hh i. induction i as [i IH] using lt_wf_ind. intros Hi.
  destruct i as [|i]; [done|]. trans (key l (i / 2)).
  - apply IH; lia.
  - apply Hh; [unfold child|done]. lia.
Qed.

Lemma heap_upto_ext n l l' :
  (forall k, k < n -> key l' k = key l k) -> heap_upto n l -> heap_upto n l'.
Proof.
  intros Hk Hh i j Hc Hj. unfold child in Hc. rewrite !Hk by lia. by apply Hh.
Qed.

Lemma key_elem l x : x ∈ l -> exists i, i < length l /\ key l i = ts x.
Proof.
  intros [i Hi]%list_elem_of_lookup. exists i. split; [by eapply lookup_lt_Some|].
  unfold key. by rewrite Hi.
Qed.

Lemma heap_pop_spec l :
  is_heap l -> l <> [] ->
  exists x l', heap_pop l = Some (x, l') /\ l ≡ₚ x :: l' /\ is_heap l' /\
    forall y, y ∈ l -> (ts x <= ts y)%Z.
Proof.
  intros Hh Hne. set (n := length l - 1).
  assert (Hlen : length l = S n) by (destruct l; [done|simpl in *; lia]).
  set (l1 := Swap l 0 n). assert (Hl1 : length l1 = S n) by (unfold l1; by rewrite length_Swap).
  assert (Hkey : forall k, key l1 k = if decide (k = 0) then key l n else
                   if decide (k = n) then key l 0 else key l k)
    by (intros k; apply key_Swap; lia).
  assert (Hinv : down_inv n l1 0).
  { split.
    - intros k m Hc Hm Hk. rewrite !Hkey. unfold child in Hc.
      repeat case_decide; try lia. apply Hh; [done|lia].
    - intros p m Hp. unfold child in Hp. lia. }
  assert (Hdown : heap_upto n (down n l1 0 n)) by (apply down_heap; [lia|lia|lia|done]).
  set (l2 := down n l1 0 n) in *.
  assert (Hl2 : length l2 = S n).
  { rewrite <- Hl1. apply Permutation_length, down_Permutation. }
  destruct (lookup_lt_is_Some_2 l2 n) as [x Hx]; [lia|].
  exists x, (take n l2). unfold heap_pop. fold n l1 l2. rewrite Hx. split; [done|].
  assert (Hp : l ≡ₚ x :: take n l2).
  { assert (Hl2' : l2 = take n l2 ++ [x]).
    { rewrite <- (take_drop n l2) at 1. f_equal.
      rewrite (drop_S _ x) by done. f_equal. apply drop_ge. lia. }
    rewrite <- (Swap_Permutation l 0 n). fold l1. rewrite <- (down_Permutation n l1 0 n). fold l2.
    rewrite Hl2' at 1. apply Permutation_app_comm. }
  split; [done|]. split.
  - unfold is_heap. rewrite length_take, Hl2, Nat.min_l by lia.
    eapply heap_upto_ext; [|exact Hdown]. intros k Hk. unfold key. by rewrite lookup_take_lt by lia.
  - intros y Hy. destruct (key_elem _ _ Hy) as (i & Hi & <-).
    assert (Hxk : ts x = key l 0).
    { assert (key l2 n = ts x) as <- by (unfold key; by rewrite Hx).
      unfold l2, key. rewrite down_out by lia. fold (key l1 n). rewrite Hkey.
      fold (key l 0). repeat case_decide; [by f_equal|done|done]. }
    rewrite Hxk. eapply heap_root; [exact Hh|done].
Qed.

Lemma heap_pop_nil : heap_pop [] = None.
Proof. done. Qed.

End Heap.
