(* ===== verification/MergeStrategy.v ===== *)
(** * MergeStrategy
    The two merge strategies of the drainer ([drainer/merge.go]): a binary heap
    and a map that is searched for its minimum.  [MergeStrategyOk] is the
    contract the merger relies on, stated on the map from source to held item;
    both strategies implement it. *)
From Stdlib Require Import Init.Byte.
From stdpp Require Import base option list sorting gmap strings.
From S2P Require Import Prelude Binlog Heap.

#[local] Obligation Tactic := idtac.

(** [MergeItem]. *)
Class MergeItem (I : Type) := {
  GetCommitTs : I -> Z;
  GetSourceID : I -> string;
}.

(** [binlogItem] of [drainer/binlog_item.go]; [Job] is [model.Job]. *)
Record binlogItem {Job : Type} := mkBinlogItem {
  binlog : Binlog;
  nodeID : string;
  job : option Job;
}.
Arguments binlogItem : clear implicits.

#[export] Instance binlogItem_MergeItem Job : MergeItem (binlogItem Job) := {
  GetCommitTs b := CommitTs (binlog b);
  GetSourceID b := nodeID b;
}.

Definition newBinlogItem {Job} (b : Binlog) (node : string) : binlogItem Job :=
  mkBinlogItem Job b node None.

Definition SetJob {Job} (j : Job) (b : binlogItem Job) : binlogItem Job :=
  mkBinlogItem Job (binlog b) (nodeID b) (Some j).

(** The interface [MergeStrategy].  [Pop] is given the order in which a [range]
    over the strategy's map visits the keys. *)
Class MergeStrategy (I S : Type) := {
  NewStrategy : S;
  Push : I -> S -> S;
  Pop : list string -> S -> option (I * S);
  Exist : string -> S -> bool;
}.

(** The contract: a strategy holds at most one item per source, and [Pop] takes
    out an item of least commit timestamp whatever the iteration order. *)
Class MergeStrategyOk (I S : Type) `{MergeItem I} `{MergeStrategy I S} := {
  strategy_wf : S -> Prop;
  held : S -> gmap string I;
  new_wf : strategy_wf NewStrategy;
  new_held : held NewStrategy = ∅;
  held_source s id i : strategy_wf s -> held s !! id = Some i -> GetSourceID i = id;
  exist_held s id : strategy_wf s -> Exist id s = bool_decide (is_Some (held s !! id));
  push_held s i : strategy_wf s -> held s !! GetSourceID i = None ->
    strategy_wf (Push i s) /\ held (Push i s) = <[GetSourceID i := i]> (held s);
  pop_none s order : strategy_wf s -> held s = ∅ -> Pop order s = None;
  pop_some s order : strategy_wf s -> order ≡ₚ (map_to_list (held s)).*1 -> held s <> ∅ ->
    exists i s', Pop order s = Some (i, s') /\ strategy_wf s' /\
      held s !! GetSourceID i = Some i /\ held s' = delete (GetSourceID i) (held s) /\
      forall id j, held s !! id = Some j -> GetCommitTs i <= GetCommitTs j;
}.

(** ** HeapStrategy *)
Section HeapStrategy.
Context {I : Type} `{MergeItem I}.

Record HeapStrategy := mkHeapStrategy {
  heap_items : list I;
  sourceIDs : gset string;
}.

Definition NewHeapStrategy : HeapStrategy := mkHeapStrategy [] ∅.

Definition HeapStrategy_Push (item : I) (h : HeapStrategy) : HeapStrategy :=
  mkHeapStrategy (heap_push GetCommitTs item (heap_items h))
    ({[GetSourceID item]} ∪ sourceIDs h).

Definition HeapStrategy_Pop (h : HeapStrategy) : option (I * HeapStrategy) :=
  match heap_items h with
  | [] => None
  | items =>
    '(item, items) ← heap_pop GetCommitTs items;
    Some (item, mkHeapStrategy items (sourceIDs h ∖ {[GetSourceID item]}))
  end.

Definition HeapStrategy_Exist (sourceID : string) (h : HeapStrategy) : bool :=
  bool_decide (sourceID ∈ sourceIDs h).

#[export] Instance HeapStrategy_strategy : MergeStrategy I HeapStrategy := {
  NewStrategy := NewHeapStrategy;
  Push := HeapStrategy_Push;
  Pop _ := HeapStrategy_Pop;
  Exist := HeapStrategy_Exist;
}.

Definition by_source (l : list I) : list (string * I) := (fun i => (GetSourceID i, i)) <$> l.

Definition heap_held (h : HeapStrategy) : gmap string I := list_to_map (by_source (heap_items h)).

Definition heap_wf (h : HeapStrategy) : Prop :=
  is_heap GetCommitTs (heap_items h) /\ NoDup (GetSourceID <$> heap_items h) /\
  sourceIDs h = list_to_set (GetSourceID <$> heap_items h).

Lemma by_source_fst l : (by_source l).*1 = GetSourceID <$> l.
Proof. unfold by_source. rewrite <- list_fmap_compose. by apply list_fmap_ext. Qed.

Lemma heap_held_lookup h id i : heap_wf h ->
  heap_held h !! id = Some i <-> i ∈ heap_items h /\ GetSourceID i = id.
Proof.
  intros (_ & Hnd & _). unfold heap_held.
  rewrite <- elem_of_list_to_map by by rewrite by_source_fst.
  unfold by_source. rewrite list_elem_of_fmap. split.
  - by intros (j & [= -> ->] & Hj).
  - intros [Hi <-]. by exists i.
Qed.

Lemma heap_held_none h id : heap_wf h ->
  heap_held h !! id = None <-> id ∉ GetSourceID <$> heap_items h.
Proof.
  intros Hwf. unfold heap_held.
  rewrite <- not_elem_of_list_to_map. by rewrite by_source_fst.
Qed.

Lemma heap_held_push h i : heap_wf h -> heap_held h !! GetSourceID i = None ->
  heap_wf (HeapStrategy_Push i h) /\
  heap_held (HeapStrategy_Push i h) = <[GetSourceID i := i]> (heap_held h).
Proof.
  intros Hwf Hnone. pose proof Hwf as (Hh & Hnd & Hids).
  apply heap_held_none in Hnone; [|done].
  assert (Hp : heap_push GetCommitTs i (heap_items h) ≡ₚ i :: heap_items h)
    by apply heap_push_Permutation.
  assert (Hnd' : NoDup (GetSourceID <$> heap_push GetCommitTs i (heap_items h))).
  { rewrite Hp. simpl. by apply list.NoDup_cons. }
  split.
  - split; [by apply heap_push_heap|]. split; [done|].
    simpl. rewrite Hp, Hids. done.
  - unfold heap_held. simpl. rewrite <- list_to_map_cons.
    apply list_to_map_proper; [by rewrite by_source_fst|].
    unfold by_source. by rewrite Hp.
Qed.

Lemma heap_pop_held h : heap_wf h -> heap_items h <> [] ->
  exists i h', HeapStrategy_Pop h = Some (i, h') /\ heap_wf h' /\
    heap_held h !! GetSourceID i = Some i /\
    heap_held h' = delete (GetSourceID i) (heap_held h) /\
    forall j, j ∈ heap_items h -> GetCommitTs i <= GetCommitTs j.
Proof.
  intros Hwf Hne. pose proof Hwf as (Hh & Hnd & Hids).
  destruct (heap_pop_spec GetCommitTs (heap_items h) Hh Hne) as (i & l' & Hpop & Hp & Hh' & Hmin).
  exists i, (mkHeapStrategy l' (sourceIDs h ∖ {[GetSourceID i]})).
  assert (Hnd' : NoDup (GetSourceID i :: (GetSourceID <$> l'))).
  { change (NoDup (GetSourceID <$> i :: l')). by rewrite <- Hp. }
  apply list.NoDup_cons in Hnd' as [Hni Hnd'].
  assert (Hwf' : heap_wf (mkHeapStrategy l' (sourceIDs h ∖ {[GetSourceID i]}))).
  { split; [done|]. split; [done|]. simpl. rewrite Hids, Hp. simpl.
    apply leibniz_equiv. intros x. clear Hids. set_unfold. split; [intros [[?|?] ?]; done|].
    intros Hx. split; [by right|]. by intros ->. }
  split; [|split; [done|split; [|split; [|done]]]].
  - unfold HeapStrategy_Pop. destruct (heap_items h) eqn:E; [done|]. by rewrite Hpop.
  - apply heap_held_lookup; [done|]. split; [|done]. rewrite Hp. by left.
  - unfold heap_held at 2. rewrite (list_to_map_proper _ (by_source (i :: l'))).
    + simpl. rewrite delete_insert_id; [done|].
      by apply (heap_held_none _ _ Hwf').
    + by rewrite by_source_fst.
    + unfold by_source. by rewrite Hp.
Qed.

#[export] Program Instance HeapStrategy_ok : MergeStrategyOk I HeapStrategy := {
  strategy_wf := heap_wf;
  held := heap_held;
}.
Next Obligation.
  split; [|split; [constructor|done]]. intros i j _ Hj. simpl in Hj. lia.
Qed.
Next Obligation. done. Qed.
Next Obligation. intros s id i Hwf Hl. by apply heap_held_lookup in Hl as [_ ?]. Qed.
Next Obligation.
  intros s id Hwf. simpl. unfold HeapStrategy_Exist. apply bool_decide_ext.
  destruct (heap_held s !! id) eqn:E.
  - apply heap_held_lookup in E as [Hi <-]; [|done]. destruct Hwf as (_ & _ & ->).
    rewrite elem_of_list_to_set. split; [by eauto|]. intros _. by apply list_elem_of_fmap_2.
  - apply heap_held_none in E; [|done]. destruct Hwf as (_ & _ & ->).
    rewrite elem_of_list_to_set. split; [done|]. by intros [? ?].
Qed.
Next Obligation. intros s i Hwf Hn. by apply heap_held_push. Qed.
Next Obligation.
  intros s order Hwf Hs. simpl. unfold HeapStrategy_Pop.
  destruct (heap_items s) as [|i l] eqn:E; [done|].
  assert (Hl : heap_held s !! GetSourceID i = Some i)
    by (apply heap_held_lookup; [done|]; rewrite E; split; [by left|done]).
  by rewrite Hs, lookup_empty in Hl.
Qed.
Next Obligation.
  intros s order Hwf _ Hs. destruct (heap_pop_held s Hwf) as (i & s' & Hpop & Hwf' & Hi & Hd & Hmin).
  { intros E. apply Hs. unfold heap_held. by rewrite E. }
  exists i, s'. do 4 (split; [done|]). intros id j Hj.
  apply heap_held_lookup in Hj as [Hj _]; [|done]. by apply Hmin.
Qed.

End HeapStrategy.
Arguments HeapStrategy : clear implicits.

(** ** NormalStrategy *)
Section NormalStrategy.
Context {I : Type} `{MergeItem I}.

Record NormalStrategy := mkNormalStrategy { normal_items : gmap string I }.

Definition NewNormalStrategy : NormalStrategy := mkNormalStrategy ∅.

Definition NormalStrategy_Push (item : I) (n : NormalStrategy) : NormalStrategy :=
  mkNormalStrategy (<[GetSourceID item := item]> (normal_items n)).

(** The loop of [Pop] over the map, in iteration order. *)
Fixpoint normal_min (items : gmap string I) (order : list string) (minItem : option I) : option I :=
  match order with
  | [] => minItem
  | id :: order =>
    match items !! id with
    | None => normal_min items order minItem
    | Some item =>
      let minItem :=
        match minItem with
        | None => Some item
        | Some m => if GetCommitTs item <? GetCommitTs m then Some item else Some m
        end in
      normal_min items order minItem
    end
  end.

Definition NormalStrategy_Pop (order : list string) (n : NormalStrategy) : option (I * NormalStrategy) :=
  match normal_min (normal_items n) order None with
  | None => None
  | Some minItem => Some (minItem, mkNormalStrategy (delete (GetSourceID minItem) (normal_items n)))
  end.

Definition NormalStrategy_Exist (sourceID : string) (n : NormalStrategy) : bool :=
  bool_decide (is_Some (normal_items n !! sourceID)).

#[export] Instance NormalStrategy_strategy : MergeStrategy I NormalStrategy := {
  NewStrategy := NewNormalStrategy;
  Push := NormalStrategy_Push;
  Pop := NormalStrategy_Pop;
  Exist := NormalStrategy_Exist;
}.

Definition normal_wf (n : NormalStrategy) : Prop :=
  map_Forall (fun id i => GetSourceID i = id) (normal_items n).

Lemma normal_min_some items order m :
  exists i, normal_min items order (Some m) = Some i /\
    (i = m \/ exists id, id ∈ order /\ items !! id = Some i) /\
    GetCommitTs i <= GetCommitTs m /\
    forall id j, id ∈ order -> items !! id = Some j -> GetCommitTs i <= GetCommitTs j.
Proof.
  revert m. induction order as [|id order IH]; intros m; simpl.
  - exists m. repeat split; [by left|lia|]. by intros ? ? ?%not_elem_of_nil.
  - destruct (items !! id) as [item|] eqn:E; simpl.
    + set (m' := if GetCommitTs item <? GetCommitTs m then item else m).
      replace (if GetCommitTs item <? GetCommitTs m then Some item else Some m) with (Some m')
        by (unfold m'; by destruct (_ <? _)).
      destruct (IH m') as (i & -> & Hor & Hle & Hall). exists i. split; [done|].
      assert (Hm' : GetCommitTs m' <= GetCommitTs m /\ GetCommitTs m' <= GetCommitTs item).
      { unfold m'. destruct (Z.ltb_spec (GetCommitTs item) (GetCommitTs m)); lia. }
      split; [|split; [lia|]].
      * destruct Hor as [->|(id' & ? & ?)]; [|right; exists id'; split; [by right|done]].
        unfold m'. destruct (_ <? _); [right; exists id; split; [by left|done]|by left].
      * intros id' j [->|Hin]%elem_of_cons Hj; [|by eapply Hall].
        simplify_eq. lia.
    + destruct (IH m) as (i & -> & Hor & Hle & Hall). exists i. split; [done|].
      split; [|split; [done|]].
      * destruct Hor as [->|(id' & ? & ?)]; [by left|right; exists id'; split; [by right|done]].
      * intros id' j [->|Hin]%elem_of_cons Hj; [congruence|by eapply Hall].
Qed.

Lemma normal_min_none items order :
  match normal_min items order None with
  | None => forall id, id ∈ order -> items !! id = None
  | Some i => (exists id, id ∈ order /\ items !! id = Some i) /\
      forall id j, id ∈ order -> items !! id = Some j -> GetCommitTs i <= GetCommitTs j
  end.
Proof.
  induction order as [|id order IH]; simpl; [by intros ? ?%not_elem_of_nil|].
  destruct (items !! id) as [item|] eqn:E.
  - destruct (normal_min_some items order item) as (i & -> & Hor & Hle & Hall). split.
    + destruct Hor as [->|(id' & ? & ?)]; [exists id; split; [by left|done]|].
      exists id'. split; [by right|done].
    + intros id' j [->|Hin]%elem_of_cons Hj; [by simplify_eq|by eapply Hall].
  - destruct (normal_min items order None) as [i|].
    + destruct IH as [(id' & ? & ?) Hall]. split; [exists id'; split; [by right|done]|].
      intros id'' j [->|Hin]%elem_of_cons Hj; [congruence|by eapply Hall].
    + intros id' [->|Hin]%elem_of_cons; [done|by apply IH].
Qed.

#[export] Program Instance NormalStrategy_ok : MergeStrategyOk I NormalStrategy := {
  strategy_wf := normal_wf;
  held := normal_items;
}.
Next Obligation. apply map_Forall_empty. Qed.
Next Obligation. done. Qed.
Next Obligation. intros s id i Hwf Hl. by apply Hwf in Hl. Qed.
Next Obligation. done. Qed.
Next Obligation.
  intros s i Hwf Hn. split; [|done]. apply map_Forall_insert_2; done.
Qed.
Next Obligation.
  intros [items] order Hwf Hs. simpl in *. unfold NormalStrategy_Pop. simpl.
  pose proof (normal_min_none items order) as Hm. destruct (normal_min items order None); [|done].
  destruct Hm as [(id & _ & Hid) _]. by rewrite Hs, lookup_empty in Hid.
Qed.
Next Obligation.
  intros [items] order Hwf Ho Hne. simpl in *. unfold NormalStrategy_Pop. simpl.
  pose proof (normal_min_none items order) as Hm.
  assert (Hin : forall id j, items !! id = Some j -> id ∈ order).
  { intros id j Hj. rewrite Ho. apply list_elem_of_fmap. exists (id, j).
    split; [done|]. by apply elem_of_map_to_list. }
  destruct (normal_min items order None) as [i|].
  - destruct Hm as [(id & _ & Hid) Hall].
    pose proof (Hwf id i Hid) as <-.
    exists i, (mkNormalStrategy (delete (GetSourceID i) items)). repeat split; try done.
    + by apply map_Forall_delete.
    + intros id j Hj. eapply Hall; [by eapply Hin|done].
  - destruct Hne. apply map_empty. intros id. destruct (items !! id) eqn:E; [|done].
    by rewrite Hm in E by by eapply Hin.
Qed.

End NormalStrategy.
Arguments NormalStrategy : clear implicits.
