(* ===== verification/Merger.v ===== *)
(** * Merger
    The merger of a drainer ([drainer/merge.go]): the goroutine [run] reads one
    item from every source, sends the smallest one on, and starts over.  Sources
    come and go while it works, so the merger is a transition system: the steps
    of [run] between two accesses to shared state, and the calls of its clients.
    The theorems hold for every strategy that satisfies [MergeStrategyOk]. *)
From Stdlib Require Import Init.Byte.
From stdpp Require Import base option list sorting gmap strings relations.
From S2P Require Import Prelude Binlog Heap MergeStrategy.

(** [MergeSource]; a channel is named by a number, [None] is the nil channel. *)
Record MergeSource := mkSource { ID : string; Source : option nat }.

(** A channel: what was sent on it and not yet received, whether it is closed,
    and a bound the sender has passed: it only sends larger timestamps. *)
Record chan {I : Type} := mkChan { queue : list I; chan_closed : bool; chan_last : Z }.
Arguments chan : clear implicits.
Arguments mkChan {I}.

(** Where [run] is. *)
Inductive merger_pc {I : Type} :=
  | Head                                              (** the top of the loop *)
  | Begin                                             (** [resetSourceChanged] done *)
  | Collect (todo : list (string * MergeSource)) (skip : bool)
  | PopMin                                            (** one item of every source is held *)
  | Popped (minBinlog : I)                            (** before [isSourceChanged] *)
  | Checked (minBinlog : I)                           (** after [isSourceChanged] *)
  | Store                                             (** before [m.latestTS = latestTS] *)
  | Stopped.                                          (** returned *)
Arguments merger_pc : clear implicits.

(** What a step of [run] does to the items. *)
Inductive event {I : Type} :=
  | Receive (i : I)      (** [binlog, ok := <-source.Source] *)
  | Output (i : I)       (** [m.output <- minBinlog] *)
  | Disorder (i : I)     (** dropped: below the last timestamp *)
  | Duplicate (i : I).   (** dropped: equal to the last timestamp *)
Arguments event : clear implicits.

Section Merger.
Context {I S : Type} `{MI : MergeItem I} `{MS : !MergeStrategy I S}.

(** The fields of [Merger] (the output channel is the list of [Output] events),
    the program counter and the local [latestTS] of [run], and the channels. *)
Record Merger := mkMerger {
  sources : gmap string MergeSource;
  strategy : S;
  latestTS : Z;
  closed : bool;
  pause : bool;
  sourceChanged : bool;
  pc : merger_pc I;
  latest : Z;
  chans : gmap nat (chan I);
}.

(** [NewMerger(ts, strategy, sources...)]. *)
Definition NewMerger (ts : Z) (srcs : list MergeSource) (cs : gmap nat (chan I)) : Merger :=
  mkMerger (foldl (fun acc s => <[ID s := s]> acc) ∅ srcs) NewStrategy ts false false false Head ts cs.

Definition set_pc (p : merger_pc I) (m : Merger) : Merger :=
  mkMerger (sources m) (strategy m) (latestTS m) (closed m) (pause m) (sourceChanged m) p
    (latest m) (chans m).

Definition set_strategy (s : S) (m : Merger) : Merger :=
  mkMerger (sources m) s (latestTS m) (closed m) (pause m) (sourceChanged m) (pc m)
    (latest m) (chans m).

Definition set_chan (c : nat) (ch : chan I) (m : Merger) : Merger :=
  mkMerger (sources m) (strategy m) (latestTS m) (closed m) (pause m) (sourceChanged m) (pc m)
    (latest m) (<[c := ch]> (chans m)).

(** [setSourceChanged] and [resetSourceChanged]. *)
Definition set_changed (b : bool) (m : Merger) : Merger :=
  mkMerger (sources m) (strategy m) (latestTS m) (closed m) (pause m) b (pc m)
    (latest m) (chans m).

Definition set_sources (ss : gmap string MergeSource) (m : Merger) : Merger :=
  mkMerger ss (strategy m) (latestTS m) (closed m) (pause m) (sourceChanged m) (pc m)
    (latest m) (chans m).

Definition Close (m : Merger) : Merger :=
  mkMerger (sources m) (strategy m) (latestTS m) true (pause m) (sourceChanged m) (pc m)
    (latest m) (chans m).

(** [Stop] and [Continue]. *)
Definition set_pause (b : bool) (m : Merger) : Merger :=
  mkMerger (sources m) (strategy m) (latestTS m) (closed m) b (sourceChanged m) (pc m)
    (latest m) (chans m).

Definition AddSource (source : MergeSource) (m : Merger) : Merger :=
  set_changed true (set_sources (<[ID source := source]> (sources m)) m).

Definition RemoveSource (sourceID : string) (m : Merger) : Merger :=
  set_changed true (set_sources (delete sourceID (sources m)) m).

Definition GetLatestTS (m : Merger) : Z := latestTS m.

(** One step of [run]. [order] is the iteration order of the map the step ranges
    over, if it does. [None]: [run] waits for a source, or has returned. *)
Definition run_step (order : list string) (m : Merger) : option (list (event I) * Merger) :=
  match pc m with
  | Head => Some ([], set_pc Begin (set_changed false m))
  | Begin =>
    if closed m then Some ([], set_pc Stopped m)
    else if pause m then Some ([], set_pc Head m)
    else if bool_decide (sources m = ∅) then Some ([], set_pc Head m)
    else Some ([], set_pc (Collect (omap (fun id => s ← sources m !! id; Some (id, s)) order) false) m)
  | Collect [] skip => Some ([], set_pc (if skip : bool then Head else PopMin) m)
  | Collect ((sourceID, source) :: todo) skip =>
    if Exist sourceID (strategy m) then Some ([], set_pc (Collect todo skip) m)
    else
      match Source source with
      | None => Some ([], set_pc (Collect todo true) m)
      | Some c =>
        ch ← chans m !! c;
        match queue ch with
        | i :: q =>
          Some ([Receive i],
            set_pc (Collect todo skip)
              (set_strategy (Push i (strategy m))
                (set_chan c (mkChan q (chan_closed ch) (chan_last ch)) m)))
        | [] => if chan_closed ch then Some ([], set_pc (Collect todo true) m) else None
        end
      end
  | PopMin =>
    match Pop order (strategy m) with
    | None => Some ([], set_pc Head m)
    | Some (minBinlog, s) => Some ([], set_pc (Popped minBinlog) (set_strategy s m))
    end
  | Popped minBinlog =>
    if sourceChanged m
    then Some ([], set_pc Head (set_strategy (Push minBinlog (strategy m)) m))
    else Some ([], set_pc (Checked minBinlog) m)
  | Checked minBinlog =>
    let ts := GetCommitTs minBinlog in
    if ts <? latest m then Some ([Disorder minBinlog], set_pc Store m)
    else if ts =? latest m then Some ([Duplicate minBinlog], set_pc Store m)
    else Some ([Output minBinlog],
           mkMerger (sources m) (strategy m) (latestTS m) (closed m) (pause m) (sourceChanged m)
             Store ts (chans m))
  | Store =>
    Some ([], mkMerger (sources m) (strategy m) (latest m) (closed m) (pause m) (sourceChanged m)
                Head (latest m) (chans m))
  | Stopped => None
  end.

(** What the clients and the senders do. *)
Inductive action :=
  | DoAdd (s : MergeSource)
  | DoRemove (id : string)
  | DoClose
  | DoPause (b : bool)
  | DoSend (c : nat) (i : I)
  | DoCloseChan (c : nat).

Definition act (a : action) (m : Merger) : Merger :=
  match a with
  | DoAdd s => AddSource s m
  | DoRemove id => RemoveSource id m
  | DoClose => Close m
  | DoPause b => set_pause b m
  | DoSend c i =>
    match chans m !! c with
    | Some ch => set_chan c (mkChan (queue ch ++ [i]) (chan_closed ch) (GetCommitTs i)) m
    | None => m
    end
  | DoCloseChan c =>
    match chans m !! c with
    | Some ch => set_chan c (mkChan (queue ch) true (chan_last ch)) m
    | None => m
    end
  end.

(** The events of a run, and the items they are about. *)
Definition outputs (tr : list (event I)) : list I :=
  omap (fun e => match e with Output i => Some i | _ => None end) tr.
Definition received (tr : list (event I)) : list I :=
  omap (fun e => match e with Receive i => Some i | _ => None end) tr.
Definition dropped (tr : list (event I)) : list I :=
  omap (fun e => match e with Disorder i | Duplicate i => Some i | _ => None end) tr.

(** The item [run] has popped and not yet disposed of. *)
Definition in_hand (m : Merger) : option I :=
  match pc m with Popped i | Checked i => Some i | _ => None end.

End Merger.
Arguments Merger : clear implicits.
Arguments action : clear implicits.

(** ** Executions *)
Section Executions.
Context {I S : Type} `{MI : MergeItem I} `{MS : !MergeStrategy I S} `{OK : !MergeStrategyOk I S}.

Implicit Types (m : Merger I S) (tr : list (event I)).

(** A [range] visits every key of the map once. *)
Definition valid_order (order : list string) m : Prop :=
  match pc m with
  | Begin => order ≡ₚ (map_to_list (sources m)).*1
  | PopMin => order ≡ₚ (map_to_list (held (strategy m))).*1
  | _ => True
  end.

(** Steps of [run] interleaved with actions of the environment that satisfy
    [ok]; the events are collected. *)
Inductive exec (ok : Merger I S -> action I -> Prop) m0 : list (event I) -> Merger I S -> Prop :=
  | exec_start : exec ok m0 [] m0
  | exec_run tr m order evs m' :
      exec ok m0 tr m -> valid_order order m -> run_step order m = Some (evs, m') ->
      exec ok m0 (tr ++ evs) m'
  | exec_act tr m a : exec ok m0 tr m -> ok m a -> exec ok m0 tr (act a m).

Lemma exec_mono ok ok' m0 tr m :
  (forall m a, ok m a -> ok' m a) -> exec ok m0 tr m -> exec ok' m0 tr m.
Proof.
  intros Hok. induction 1; [constructor|by eapply exec_run|].
  apply exec_act; [done|by apply Hok].
Qed.

(** Case analysis on a step of [run]. *)
Ltac run_cases H :=
  unfold run_step in H;
  repeat (case_match; simplify_option_eq); simplify_eq/=.

Lemma act_unchanged a m :
  pc (act a m) = pc m /\ strategy (act a m) = strategy m /\ latest (act a m) = latest m /\
  latestTS (act a m) = latestTS m.
Proof. destruct a; simpl; try case_match; done. Qed.

Lemma in_hand_act a m : in_hand (act a m) = in_hand m.
Proof. unfold in_hand. by destruct (act_unchanged a m) as (-> & _). Qed.

(** ** Order of the output *)

Definition out_ts tr : list Z := GetCommitTs <$> outputs tr.

Lemma outputs_app tr tr' : outputs (tr ++ tr') = outputs tr ++ outputs tr'.
Proof. apply omap_app. Qed.
Lemma received_app tr tr' : received (tr ++ tr') = received tr ++ received tr'.
Proof. apply omap_app. Qed.
Lemma dropped_app tr tr' : dropped (tr ++ tr') = dropped tr ++ dropped tr'.
Proof. apply omap_app. Qed.

Record increasing_inv (ts0 : Z) tr m : Prop := {
  inc_sorted : StronglySorted Z.lt (out_ts tr);
  inc_bounds : forall t, t ∈ out_ts tr -> ts0 < t <= latest m;
  inc_latest : latest m = default ts0 (last (out_ts tr));
  inc_stored : pc m <> Store -> latestTS m = latest m;
}.

Lemma StronglySorted_snoc (R : Z -> Z -> Prop) l x :
  StronglySorted R l -> (forall y, y ∈ l -> R y x) -> StronglySorted R (l ++ [x]).
Proof.
  induction 1 as [|y l Hs IH Hf]; intros Hx; simpl; [repeat constructor|].
  constructor; [apply IH; intros; apply Hx; by right|].
  apply Forall_app. split; [done|]. constructor; [apply Hx; by left|constructor].
Qed.

Lemma increasing_run ts0 tr m order evs m' :
  increasing_inv ts0 tr m -> ts0 <= latest m -> run_step order m = Some (evs, m') ->
  increasing_inv ts0 (tr ++ evs) m' /\ ts0 <= latest m'.
Proof.
  intros Hinv Hts H.
  assert (Hsame : out_ts (tr ++ evs) = out_ts tr -> latest m' = latest m ->
                  (pc m' <> Store -> latestTS m' = latest m') ->
                  increasing_inv ts0 (tr ++ evs) m' /\ ts0 <= latest m').
  { intros Ho Hl Hst. split; [|lia].
    split; rewrite ?Ho, ?Hl in *; [apply Hinv..|]. by rewrite <- Hl in *. }
  destruct (pc m) as [| | | |?|i| |] eqn:Hpc; unfold run_step in H; rewrite Hpc in H.
  6: { destruct (Z.ltb_spec (GetCommitTs i) (latest m)) as [?|?]; [|
       destruct (Z.eqb_spec (GetCommitTs i) (latest m)) as [?|?]]; simplify_eq/=.
    1,2: apply Hsame; [unfold out_ts; rewrite outputs_app; simpl; by rewrite app_nil_r|done|done].
    assert (Ho : out_ts (tr ++ [Output i]) = out_ts tr ++ [GetCommitTs i])
      by (unfold out_ts; by rewrite outputs_app, fmap_app).
    split; [|lia]. split; simpl; rewrite ?Ho.
    - apply StronglySorted_snoc; [apply Hinv|]. intros y Hy. apply Hinv in Hy. lia.
    - intros t [Ht|Ht]%elem_of_app; [apply Hinv in Ht|apply list_elem_of_singleton in Ht]; lia.
    - by rewrite last_snoc.
    - done. }
  all: repeat (case_match; simplify_option_eq); simplify_eq/=.
  all: apply Hsame; [unfold out_ts; rewrite outputs_app; simpl; by rewrite ?app_nil_r|done|].
  all: try done.
  all: intros _; apply Hinv; by rewrite Hpc.
Qed.

Lemma increasing_exec ok ts srcs cs tr m :
  exec ok (NewMerger ts srcs cs) tr m -> increasing_inv ts tr m /\ ts <= latest m.
Proof.
  induction 1 as [|tr m order evs m' Hex [IH IH'] Ho Hs|tr m a Hex [IH IH'] Ha].
  - split; [|simpl; lia]. split; [constructor|by intros t ?%not_elem_of_nil|done|done].
  - by eapply increasing_run.
  - destruct (act_unchanged a m) as (Hpc & Hst & Hl & Hlt). split; [|by rewrite Hl].
    split; rewrite ?Hl, ?Hlt, ?Hpc; apply IH.
Qed.

(** C2: Whatever the clients, the senders and the scheduler do, the merger sends
    items in strictly increasing order of commit timestamp, all above the
    timestamp it started from; [GetLatestTS] reports the timestamp of the last
    item sent, except between the send and the next store. *)
Theorem merger_increasing ok ts srcs cs tr m :
  exec ok (NewMerger ts srcs cs) tr m ->
  StronglySorted Z.lt (ts :: (GetCommitTs <$> outputs tr)) /\
  (pc m <> Store -> GetLatestTS m = default ts (last (GetCommitTs <$> outputs tr))).
Proof.
  intros [Hinv _]%increasing_exec. split.
  - constructor; [apply Hinv|]. apply list.Forall_forall. intros t Ht.
    apply Hinv in Ht. lia.
  - intros Hpc. unfold GetLatestTS. rewrite (inc_stored _ _ _ Hinv Hpc). apply Hinv.
Qed.

(** ** Conservation of items *)

(** The node a channel belongs to: [newPump] creates the channel, tags every
    item it sends with its node id and is added to the merger under that id. *)
Variable owner : nat -> string.

Definition source_ok (s : MergeSource) : Prop := forall c, Source s = Some c -> owner c = ID s.

Definition tagged m (a : action I) : Prop :=
  match a with
  | DoAdd s => source_ok s
  | DoSend c i => GetSourceID i = owner c
  | _ => True
  end.

Definition chans_tagged (cs : gmap nat (chan I)) : Prop :=
  forall c ch i, cs !! c = Some ch -> i ∈ queue ch -> GetSourceID i = owner c.

Definition holding m : list I := (map_to_list (held (strategy m))).*2.
Definition hand m : list I := option_list (in_hand m).

Record tagged_inv tr m : Prop := {
  tg_wf : strategy_wf (strategy m);
  tg_hand : forall i, in_hand m = Some i -> held (strategy m) !! GetSourceID i = None;
  tg_sources : forall id s, sources m !! id = Some s -> ID s = id /\ source_ok s;
  tg_todo : forall todo skip id s, pc m = Collect todo skip -> (id, s) ∈ todo ->
              ID s = id /\ source_ok s;
  tg_chans : chans_tagged (chans m);
  tg_items : received tr ≡ₚ outputs tr ++ dropped tr ++ holding m ++ hand m;
}.

Lemma holding_insert (h : gmap string I) id i : h !! id = None ->
  (map_to_list (<[id := i]> h)).*2 ≡ₚ i :: (map_to_list h).*2.
Proof. intros Hn. by rewrite map_to_list_insert. Qed.

Lemma holding_delete (h : gmap string I) id i : h !! id = Some i ->
  (map_to_list h).*2 ≡ₚ i :: (map_to_list (delete id h)).*2.
Proof.
  intros Hi. rewrite <- (insert_delete_id h id i Hi) at 1.
  by rewrite map_to_list_insert by apply lookup_delete_eq.
Qed.

Definition todo_ok m : Prop := forall todo skip id s,
  pc m = Collect todo skip -> (id, s) ∈ todo -> ID s = id /\ source_ok s.

Lemma todo_ok_tail m id s todo skip b m' :
  todo_ok m -> pc m = Collect ((id, s) :: todo) skip -> pc m' = Collect todo b -> todo_ok m'.
Proof.
  intros Ht Hpc Hpc' todo' skip' id' s' E Hin. rewrite Hpc' in E. simplify_eq.
  eapply Ht; [done|by right].
Qed.

(** A step that moves no item. *)
Lemma tagged_quiet tr m m' :
  tagged_inv tr m -> strategy m' = strategy m -> in_hand m' = in_hand m -> sources m' = sources m ->
  chans m' = chans m -> todo_ok m' -> tagged_inv (tr ++ []) m'.
Proof.
  intros [Hwf Hhand Hsrc Htodo Hch Hit] Hst Hh Hs Hc Ht.
  split; unfold holding, hand in *; rewrite ?app_nil_r, ?Hst, ?Hh, ?Hs, ?Hc; done.
Qed.

Lemma tagged_receive tr m id src todo skip c ch i q :
  tagged_inv tr m -> pc m = Collect ((id, src) :: todo) skip -> Exist id (strategy m) = false ->
  Source src = Some c -> chans m !! c = Some ch -> queue ch = i :: q ->
  tagged_inv (tr ++ [Receive i])
    (set_pc (Collect todo skip) (set_strategy (Push i (strategy m))
       (set_chan c (mkChan q (chan_closed ch) (chan_last ch)) m))).
Proof.
  intros [Hwf Hhand Hsrc Htodo Hch Hit] Hpc Hex Hc Hcc Hq.
  destruct (Htodo _ _ id src Hpc) as [Hid Hso]; [by left|].
  assert (Hown : GetSourceID i = owner c) by (eapply Hch; [done|rewrite Hq; by left]).
  assert (Hnone : held (strategy m) !! GetSourceID i = None).
  { rewrite exist_held in Hex by done. apply bool_decide_eq_false in Hex.
    rewrite Hown, (Hso c Hc), Hid. by apply eq_None_not_Some. }
  destruct (push_held (strategy m) i Hwf Hnone) as [Hwf' Hheld].
  split; simpl.
  - done.
  - done.
  - done.
  - intros ? ? ? ? [= <- <-] Hin. eapply Htodo; [done|by right].
  - intros c' ch' j Hl Hj. apply lookup_insert_Some in Hl as [[<- <-]|[_ Hl]]; [|by eapply Hch].
    simpl in Hj. eapply Hch; [done|]. rewrite Hq. by right.
  - rewrite received_app, outputs_app, dropped_app, Hit.
    unfold holding, hand, in_hand. rewrite Hpc. simpl. rewrite Hheld, holding_insert by done.
    rewrite !app_nil_r. solve_Permutation.
Qed.

Lemma tagged_pop tr m order i s' :
  tagged_inv tr m -> pc m = PopMin -> order ≡ₚ (map_to_list (held (strategy m))).*1 ->
  Pop order (strategy m) = Some (i, s') ->
  tagged_inv (tr ++ []) (set_pc (Popped i) (set_strategy s' m)).
Proof.
  intros [Hwf Hhand Hsrc Htodo Hch Hit] Hpc Hord Hp.
  destruct (decide (held (strategy m) = ∅)) as [He|Hne].
  { by rewrite pop_none in Hp by done. }
  destruct (pop_some (strategy m) order Hwf Hord Hne) as (i' & s'' & Hp' & Hwf' & Hi & Hd & _).
  simplify_eq. split; simpl; try done.
  - intros j [= <-]. rewrite Hd. apply lookup_delete_eq.
  - rewrite app_nil_r, Hit. unfold holding, hand, in_hand. rewrite Hpc. simpl.
    rewrite Hd, (holding_delete _ _ _ Hi). solve_Permutation.
Qed.

Lemma tagged_pushback tr m i :
  tagged_inv tr m -> pc m = Popped i ->
  tagged_inv (tr ++ []) (set_pc Head (set_strategy (Push i (strategy m)) m)).
Proof.
  intros [Hwf Hhand Hsrc Htodo Hch Hit] Hpc. unfold holding, hand, in_hand in *. rewrite Hpc in *.
  destruct (push_held (strategy m) i Hwf (Hhand i eq_refl)) as [Hwf' Hheld].
  split; simpl; try done. rewrite app_nil_r, Hit. unfold holding, hand. simpl.
  rewrite Hheld, holding_insert by auto. solve_Permutation.
Qed.

(** The item in hand is sent or dropped. *)
Lemma tagged_dispose tr m m' i e :
  tagged_inv tr m -> pc m = Checked i -> e = Output i \/ e = Disorder i \/ e = Duplicate i ->
  pc m' = Store -> strategy m' = strategy m -> sources m' = sources m -> chans m' = chans m ->
  tagged_inv (tr ++ [e]) m'.
Proof.
  intros [Hwf Hhand Hsrc Htodo Hch Hit] Hpc He Hpc' Hst Hs Hc.
  unfold holding, hand, in_hand in *. rewrite Hpc in *.
  split; unfold holding, hand, in_hand; rewrite ?Hpc', ?Hst, ?Hs, ?Hc; try done.
  rewrite received_app, outputs_app, dropped_app, Hit.
  destruct He as [->|[->| ->]]; simpl; rewrite !app_nil_r; solve_Permutation.
Qed.

Lemma tagged_run tr m order evs m' :
  tagged_inv tr m -> valid_order order m -> run_step order m = Some (evs, m') ->
  tagged_inv (tr ++ evs) m'.
Proof.
  intros Hinv Hord H. assert (Ht : todo_ok m) by exact (tg_todo _ _ Hinv).
  unfold run_step in H. unfold valid_order in Hord.
  destruct (pc m) as [| |[|[id src] todo] skip| |i|i| |] eqn:Hpc.
  - simplify_eq/=. apply (tagged_quiet _ m); unfold in_hand; rewrite ?Hpc; done.
  - repeat case_match; simplify_eq/=;
      apply (tagged_quiet _ m); unfold in_hand; rewrite ?Hpc; try done.
    intros todo skip id s [= <- <-] (id' & Hid' & Hs)%list_elem_of_omap.
    destruct (sources m !! id') eqn:E; simplify_eq/=. by eapply tg_sources.
  - destruct skip; simplify_eq/=; apply (tagged_quiet _ m); unfold in_hand; rewrite ?Hpc; done.
  - repeat (case_match || simplify_option_eq); simplify_eq/=.
    all: try (apply (tagged_quiet _ m); unfold in_hand; rewrite ?Hpc; try done;
              by eapply todo_ok_tail). all: by eapply tagged_receive.
  - repeat case_match; simplify_eq/=; [by eapply tagged_pop|].
    apply (tagged_quiet _ m); unfold in_hand; rewrite ?Hpc; done.
  - case_match; simplify_eq/=; [by apply tagged_pushback|].
    apply (tagged_quiet _ m); unfold in_hand; rewrite ?Hpc; done.
  - repeat case_match; simplify_eq/=; eapply tagged_dispose; eauto.
  - simplify_eq/=. apply (tagged_quiet _ m); unfold in_hand; rewrite ?Hpc; done.
  - done.
Qed.

Lemma tagged_act tr m a : tagged m a -> tagged_inv tr m -> tagged_inv tr (act a m).
Proof.
  intros Ha Hinv. pose proof Hinv as [Hwf Hhand Hsrc Htodo Hch Hit].
  destruct (act_unchanged a m) as (Hpc & Hst & _ & _).
  split; unfold holding, hand; rewrite ?in_hand_act, ?Hst, ?Hpc; try done.
  - intros id s. destruct a as [src|id'| | |c i|c]; simpl; try (repeat case_match; by apply Hsrc).
    + intros [[<- <-]|[_ Hl]]%lookup_insert_Some; [by split|by apply Hsrc].
    + intros [_ Hl]%lookup_delete_Some. by apply Hsrc.
  - intros c ch i. destruct a as [src|id'| | |c' j|c']; simpl; try (by apply Hch).
    + destruct (chans m !! c') as [ch'|] eqn:E; [|by apply Hch]. simpl.
      intros [[<- <-]|[_ Hl]]%lookup_insert_Some; [|by eapply Hch].
      simpl. intros [Hi|Hi]%elem_of_app; [by eapply Hch|].
      apply list_elem_of_singleton in Hi as ->. done.
    + destruct (chans m !! c') as [ch'|] eqn:E; [|by apply Hch]. simpl.
      intros [[<- <-]|[_ Hl]]%lookup_insert_Some Hi; by eapply Hch.
Qed.

Lemma new_sources_lookup ts srcs cs id s :
  sources (NewMerger (I:=I) (S:=S) ts srcs cs) !! id = Some s -> s ∈ srcs /\ ID s = id.
Proof.
  simpl. cut (forall m0 : gmap string MergeSource,
    foldl (fun acc s => <[ID s := s]> acc) m0 srcs !! id = Some s ->
    (s ∈ srcs /\ ID s = id) \/ m0 !! id = Some s).
  { intros Hc [?|Hl]%Hc; [done|]. by rewrite lookup_empty in Hl. }
  induction srcs as [|s' srcs IH]; intros m0; simpl; [by right|].
  intros [[Hin Hid]|Hl]%IH; [left; split; [by right|done]|].
  apply lookup_insert_Some in Hl as [[<- <-]|[_ ?]]; [left; split; [by left|done]|by right].
Qed.

Lemma tagged_start ts srcs cs :
  (forall s, s ∈ srcs -> source_ok s) -> chans_tagged cs ->
  tagged_inv [] (NewMerger (I:=I) (S:=S) ts srcs cs).
Proof.
  intros Hs Hc. split; try done.
  - apply new_wf.
  - intros id s [Hin Hid]%new_sources_lookup. split; [done|]. by apply Hs.
  - unfold holding, hand. simpl. by rewrite new_held, map_to_list_empty.
Qed.

Lemma tagged_exec ok ts srcs cs tr m :
  (forall m a, ok m a -> tagged m a) ->
  (forall s, s ∈ srcs -> source_ok s) -> chans_tagged cs ->
  exec ok (NewMerger ts srcs cs) tr m -> tagged_inv tr m.
Proof.
  intros Hok Hs Hc. induction 1; [by apply tagged_start|by eapply tagged_run|].
  apply tagged_act; [by apply Hok|done].
Qed.

(** ** Nothing is out of order *)

(** A lower bound of what a source may still deliver: its held item, or the
    last timestamp sent (or about to be sent). *)
Definition bound m (id : string) : Z :=
  match held (strategy m) !! id with
  | Some j => GetCommitTs j
  | None =>
    match pc m with
    | Popped i => if decide (GetSourceID i = id) then GetCommitTs i else latest m
    | Checked i => GetCommitTs i
    | _ => latest m
    end
  end.

Definition ts_le (i j : I) : Prop := GetCommitTs i <= GetCommitTs j.

(** A channel carries items in timestamp order, and the sender has passed them. *)
Definition chan_sorted (ch : chan I) : Prop :=
  StronglySorted ts_le (queue ch) /\ forall i, i ∈ queue ch -> GetCommitTs i <= chan_last ch.

(** All that a channel still delivers is at least [b]. *)
Definition chan_above (b : Z) (ch : chan I) : Prop :=
  b <= chan_last ch /\ forall i, i ∈ queue ch -> b <= GetCommitTs i.

(** What the clients and senders have to respect: a sender sends in timestamp
    order, a source is added only if it delivers nothing below its bound, and not
    with a new channel while [run] is about to read from the old one. *)
Definition orderly m (a : action I) : Prop :=
  tagged m a /\
  match a with
  | DoAdd s =>
    (forall c ch, Source s = Some c -> chans m !! c = Some ch -> chan_above (bound m (ID s)) ch) /\
    (forall todo skip s', pc m = Collect todo skip -> (ID s, s') ∈ todo -> s' = s)
  | DoSend c i => forall ch, chans m !! c = Some ch -> chan_last ch <= GetCommitTs i
  | _ => True
  end.

(** When no source came or went since [resetSourceChanged]: which sources have
    their item held. *)
Definition covered m : Prop :=
  match pc m with
  | Collect todo false => forall id, is_Some (sources m !! id) ->
      is_Some (held (strategy m) !! id) \/ id ∈ todo.*1
  | PopMin => forall id, is_Some (sources m !! id) -> is_Some (held (strategy m) !! id)
  | Popped i => forall id, is_Some (sources m !! id) ->
      is_Some (held (strategy m) !! id) \/ id = GetSourceID i
  | _ => True
  end.

Record orderly_inv m : Prop := {
  or_held : forall id j, held (strategy m) !! id = Some j -> latest m <= GetCommitTs j;
  or_hand : forall i, in_hand m = Some i -> latest m <= GetCommitTs i /\
              forall id j, held (strategy m) !! id = Some j -> GetCommitTs i <= GetCommitTs j;
  or_sources : forall id s c ch, sources m !! id = Some s -> Source s = Some c ->
              chans m !! c = Some ch -> chan_above (bound m id) ch;
  or_chans : map_Forall (fun _ => chan_sorted) (chans m);
  or_covered : sourceChanged m = false -> covered m;
  or_nodup : forall todo skip, pc m = Collect todo skip -> NoDup todo.*1;
  or_todo : forall todo skip id s, pc m = Collect todo skip -> (id, s) ∈ todo ->
              (forall s', sources m !! id = Some s' -> s' = s) /\
              forall c ch, Source s = Some c -> chans m !! c = Some ch -> chan_above (bound m id) ch;
}.

Lemma bound_held m id j : held (strategy m) !! id = Some j -> bound m id = GetCommitTs j.
Proof. intros Hj. unfold bound. by rewrite Hj. Qed.

Lemma bound_free m id : in_hand m = None -> held (strategy m) !! id = None -> bound m id = latest m.
Proof. unfold bound, in_hand. intros Hh ->. by destruct (pc m). Qed.

Lemma chan_above_le b b' ch : b' <= b -> chan_above b ch -> chan_above b' ch.
Proof.
  intros Hle [Hl Hq]. split; [lia|]. intros i Hi. apply Hq in Hi. lia.
Qed.

Lemma chan_above_pop b i q cl l : chan_sorted (mkChan (i :: q) cl l) ->
  chan_above b (mkChan (i :: q) cl l) ->
  b <= GetCommitTs i /\ chan_above (GetCommitTs i) (mkChan q cl l) /\ chan_sorted (mkChan q cl l).
Proof.
  intros [Hs Hl] [Hb Hq]. simpl in *. inversion Hs as [|? ? Hs' Hf]; subst.
  split; [apply Hq; by left|]. split.
  - split; simpl; [apply Hl; by left|]. intros j Hj. rewrite list.Forall_forall in Hf. by apply Hf.
  - split; simpl; [done|]. intros j Hj. apply Hl. by right.
Qed.

(** A step that moves no item, when the position of [run] keeps the bounds. *)
Lemma orderly_quiet m m' :
  orderly_inv m -> strategy m' = strategy m -> in_hand m' = in_hand m ->
  sources m' = sources m -> chans m' = chans m -> latest m' = latest m ->
  (forall id, is_Some (sources m !! id) -> bound m' id = bound m id) ->
  (sourceChanged m' = false -> covered m') ->
  (forall todo skip, pc m' = Collect todo skip -> NoDup todo.*1 /\
     forall id s, (id, s) ∈ todo ->
       sources m !! id = Some s \/ exists todo0 skip0, pc m = Collect todo0 skip0 /\ (id, s) ∈ todo0) ->
  orderly_inv m'.
Proof.
  intros [Hh Hhd Hs Hc Hcov Hnd Htd] Est Ehd Es Ec El Hb Hcov' Htd'.
  split; rewrite ?Est, ?Ehd, ?Es, ?Ec, ?El; try done.
  - intros id s c ch Hid. rewrite Hb by eauto. by apply Hs.
  - intros todo skip Hpc. by apply (Htd' todo skip).
  - intros todo skip id s Hpc Hin.
    assert (Hbid : bound m' id = bound m id \/ in_hand m = None /\ in_hand m' = None).
    { right. rewrite <- Ehd. unfold in_hand. by rewrite Hpc. }
    assert (Hbid' : bound m' id = bound m id).
    { destruct Hbid as [?|[H1 H2]]; [done|].
      destruct (held (strategy m) !! id) eqn:E.
      - by rewrite !(bound_held _ _ i) by by rewrite ?Est.
      - by rewrite !bound_free by by rewrite ?Est. }
    rewrite Hbid'. destruct (Htd' _ _ Hpc) as [_ Hor].
    destruct (Hor _ _ Hin) as [Hsid|(todo0 & skip0 & Hpc0 & Hin0)].
    + split; [congruence|]. intros c ch Hsc Hcc. by eapply Hs.
    + by eapply Htd.
Qed.

Lemma orderly_receive tr m id src todo skip c ch i q :
  tagged_inv tr m -> orderly_inv m ->
  pc m = Collect ((id, src) :: todo) skip -> Exist id (strategy m) = false ->
  Source src = Some c -> chans m !! c = Some ch -> queue ch = i :: q ->
  orderly_inv (set_pc (Collect todo skip) (set_strategy (Push i (strategy m))
       (set_chan c (mkChan q (chan_closed ch) (chan_last ch)) m))).
Proof.
  intros [Hwf _ Hsrc Htodo Hch _] [Hh Hhd Hs Hc Hcov Hnd Htd] Hpc Hex Hsc Hcc Hq.
  destruct (Htodo _ _ id src Hpc) as [Hid Hso]; [by left|].
  destruct (Htd _ _ id src Hpc) as [Hsame Habove]; [by left|].
  assert (Hgi : GetSourceID i = id).
  { rewrite <- Hid, <- (Hso c Hsc). eapply Hch; [done|]. rewrite Hq. by left. }
  assert (Hnone : held (strategy m) !! id = None).
  { rewrite exist_held in Hex by done. apply bool_decide_eq_false in Hex.
    by apply eq_None_not_Some. }
  destruct (push_held (strategy m) i Hwf) as [Hwf' Hheld]; [by rewrite Hgi|]. rewrite Hgi in Hheld.
  assert (Hhand : in_hand m = None) by (unfold in_hand; by rewrite Hpc).
  pose proof (Habove c ch Hsc Hcc) as Hab. pose proof (Hc _ _ Hcc) as Hcs.
  destruct ch as [qu cl la]. simpl in *. subst qu.
  destruct (chan_above_pop _ _ _ _ _ Hcs Hab) as (Hle & Hab' & Hcs').
  rewrite bound_free in Hle by done.
  set (m' := set_pc _ _).
  assert (Hb : forall id', id' <> id -> bound m' id' = bound m id').
  { intros id' Hne. unfold bound, m'. simpl. rewrite Hheld, lookup_insert_ne by done.
    by rewrite Hpc. }
  assert (Hb' : bound m' id = GetCommitTs i).
  { apply bound_held. simpl. rewrite Hheld. apply lookup_insert_eq. }
  (* the sources and the pending sources other than [id] use other channels *)
  assert (Hother : forall id' s' c' ch', ID s' = id' /\ source_ok s' -> Source s' = Some c' ->
            (id' = id -> s' = src) -> (forall ch0, chans m !! c' = Some ch0 -> chan_above (bound m id') ch0) ->
            <[c := mkChan q cl la]> (chans m) !! c' = Some ch' -> chan_above (bound m' id') ch').
  { intros id' s' c' ch' [Hid' Hso'] Hsc' Heq Hab0 Hl. destruct (decide (id' = id)) as [->|Hne].
    - rewrite Heq in Hsc' by done. simplify_eq. rewrite Hb'.
      rewrite lookup_insert_eq in Hl. by simplify_eq.
    - rewrite Hb by done. apply Hab0. rewrite lookup_insert_ne in Hl; [done|].
      intros <-. apply Hne. rewrite <- Hid', <- Hid, <- (Hso c Hsc). symmetry. by apply Hso'. }
  split; simpl.
  - rewrite Hheld. intros id' j [[<- <-]|[_ Hl]]%lookup_insert_Some; [done|by eapply Hh].
  - done.
  - intros id' s' c' ch' Hl Hsc'. eapply Hother; [by apply Hsrc|done|..].
    + intros ->. by apply Hsame.
    + intros ch0 Hch0. by eapply Hs.
  - by apply map_Forall_insert_2.
  - unfold covered. simpl. intros Hsch. specialize (Hcov Hsch). unfold covered in Hcov.
    rewrite Hpc in Hcov. destruct skip; [done|]. intros id' Hid'. rewrite Hheld.
    destruct (decide (id' = id)) as [->|Hne]; [left; rewrite lookup_insert_eq; eauto|].
    rewrite lookup_insert_ne by done.
    destruct (Hcov id' Hid') as [?|Hin]; [by left|right].
    simpl in Hin. apply elem_of_cons in Hin as [?|?]; done.
  - intros todo' skip' [= <- <-]. specialize (Hnd _ _ Hpc). simpl in Hnd.
    by apply list.NoDup_cons in Hnd as [_ ?].
  - intros todo' skip' id' s' [= <- <-] Hin.
    assert (Hin' : (id', s') ∈ (id, src) :: todo) by by right.
    split; [by apply (Htd _ _ id' s' Hpc)|]. intros c' ch' Hsc'.
    eapply Hother; [by eapply Htodo|done|..].
    + intros ->. specialize (Hnd _ _ Hpc). simpl in Hnd. apply list.NoDup_cons in Hnd as [Hni _].
      destruct Hni. apply list_elem_of_fmap. by exists (id, s').
    + intros ch0 Hch0. by eapply Htd.
Qed.

Lemma orderly_pop tr m order i s' :
  tagged_inv tr m -> orderly_inv m -> pc m = PopMin ->
  order ≡ₚ (map_to_list (held (strategy m))).*1 ->
  Pop order (strategy m) = Some (i, s') ->
  orderly_inv (set_pc (Popped i) (set_strategy s' m)).
Proof.
  intros Htg [Hh Hhd Hs Hc Hcov Hnd Htd] Hpc Hord Hp. pose proof (tg_wf _ _ Htg) as Hwf.
  destruct (decide (held (strategy m) = ∅)) as [He|Hne].
  { by rewrite pop_none in Hp by done. }
  destruct (pop_some (strategy m) order Hwf Hord Hne) as (i' & s'' & Hp' & Hwf' & Hi & Hd & Hmin).
  simplify_eq. split; simpl; try done.
  - rewrite Hd. intros id j [_ Hl]%lookup_delete_Some. by eapply Hh.
  - intros j [= <-]. split; [by eapply Hh|]. rewrite Hd.
    intros id j [_ Hl]%lookup_delete_Some. by eapply Hmin.
  - intros id s c ch Hl Hsc Hcc. pose proof (Hs id s c ch Hl Hsc Hcc) as Hab.
    unfold bound in *. simpl. rewrite Hpc, Hd in *. destruct (decide (GetSourceID i = id)) as [<-|Hn].
    + rewrite lookup_delete_eq. by rewrite Hi in Hab.
    + by rewrite lookup_delete_ne.
  - intros Hsch. specialize (Hcov Hsch). unfold covered in *. rewrite Hpc in Hcov. simpl.
    intros id Hid. rewrite Hd. destruct (decide (id = GetSourceID i)) as [->|Hn]; [by right|].
    left. rewrite lookup_delete_ne by done. by apply Hcov.
Qed.

Lemma orderly_pushback tr m i :
  tagged_inv tr m -> orderly_inv m -> pc m = Popped i ->
  orderly_inv (set_pc Head (set_strategy (Push i (strategy m)) m)).
Proof.
  intros Htg [Hh Hhd Hs Hc Hcov Hnd Htd] Hpc. pose proof (tg_hand _ _ Htg i) as Hnone.
  unfold in_hand in *. rewrite Hpc in *. specialize (Hnone eq_refl).
  destruct (push_held (strategy m) i (tg_wf _ _ Htg) Hnone) as [_ Hheld].
  destruct (Hhd i eq_refl) as [Hle Hmin].
  split; simpl; try done.
  - rewrite Hheld. intros id j [[<- <-]|[_ Hl]]%lookup_insert_Some; [done|by eapply Hh].
  - intros id s c ch Hl Hsc Hcc. pose proof (Hs id s c ch Hl Hsc Hcc) as Hab.
    unfold bound in *. simpl. rewrite Hpc, Hheld in *.
    destruct (decide (GetSourceID i = id)) as [<-|Hn].
    + rewrite lookup_insert_eq. by rewrite Hnone in Hab.
    + by rewrite lookup_insert_ne.
Qed.

(** The item in hand is sent, or dropped as a duplicate. *)
Lemma orderly_dispose m m' i :
  orderly_inv m -> pc m = Checked i -> pc m' = Store -> strategy m' = strategy m ->
  sources m' = sources m -> chans m' = chans m -> latest m' = GetCommitTs i ->
  orderly_inv m'.
Proof.
  intros [Hh Hhd Hs Hc Hcov Hnd Htd] Hpc Hpc' Est Es Ec El.
  unfold in_hand in *. rewrite Hpc in *. destruct (Hhd i eq_refl) as [Hle Hmin].
  split; unfold in_hand, covered; rewrite ?Hpc', ?Est, ?Es, ?Ec, ?El; try done.
  intros id s c ch Hl Hsc Hcc. pose proof (Hs id s c ch Hl Hsc Hcc) as Hab.
  unfold bound in *. by rewrite Hpc, Hpc', Est, El in *.
Qed.

(** No item in hand is below the last timestamp, so none is out of order. *)
Lemma orderly_checked m i : orderly_inv m -> pc m = Checked i -> latest m <= GetCommitTs i.
Proof. intros Hinv Hpc. apply (or_hand _ Hinv). unfold in_hand. by rewrite Hpc. Qed.

(** Every source has its item held or in hand when [run] passes the check. *)
Lemma orderly_check m i : orderly_inv m -> pc m = Popped i -> sourceChanged m = false ->
  orderly_inv (set_pc (Checked i) m).
Proof.
  intros Hinv Hpc Hsch. pose proof (or_covered _ Hinv Hsch) as Hcov. unfold covered in Hcov.
  rewrite Hpc in Hcov.
  apply (orderly_quiet m); unfold in_hand; rewrite ?Hpc; try done.
  intros id Hid. unfold bound. simpl. rewrite Hpc.
  destruct (Hcov id Hid) as [[j ->]| ->]; [done|]. by rewrite decide_True.
Qed.

Lemma orderly_skip m id src todo skip b :
  orderly_inv m -> pc m = Collect ((id, src) :: todo) skip ->
  (b = false -> skip = false /\ is_Some (held (strategy m) !! id)) ->
  orderly_inv (set_pc (Collect todo b) m).
Proof.
  intros Hinv Hpc Hb. apply (orderly_quiet m); unfold in_hand; rewrite ?Hpc; try done.
  - intros id' _. unfold bound. simpl. by rewrite Hpc.
  - intros Hsch. pose proof (or_covered _ Hinv Hsch) as Hcov. unfold covered in *. simpl.
    rewrite Hpc in Hcov. destruct b; [done|]. destruct (Hb eq_refl) as [-> Hsome].
    intros id' [?|Hin]%Hcov; [by left|]. simpl in Hin. apply elem_of_cons in Hin as [->|?]; auto.
  - intros todo' skip' [= <- <-]. split.
    + pose proof (or_nodup _ Hinv _ _ Hpc) as Hnd. simpl in Hnd. by apply list.NoDup_cons in Hnd as [_ ?].
    + intros id' s Hin. right. eexists _, _. split; [done|by right].
Qed.

Lemma NoDup_snapshot (ss : gmap string MergeSource) order :
  NoDup order -> NoDup (omap (fun id => s ← ss !! id; Some (id, s)) order).*1.
Proof.
  induction 1 as [|id order Hni Hnd IH]; simpl; [constructor|].
  destruct (ss !! id) as [s|]; simpl; [|done]. apply list.NoDup_cons. split; [|done].
  intros ([id' s'] & Heq & Hin)%list_elem_of_fmap. simpl in Heq. subst id'.
  apply list_elem_of_omap in Hin as (id'' & Hin & Heq).
  destruct (ss !! id''); simplify_eq/=; done.
Qed.

Lemma orderly_snapshot m order :
  orderly_inv m -> pc m = Begin -> order ≡ₚ (map_to_list (sources m)).*1 ->
  orderly_inv (set_pc (Collect (omap (fun id => s ← sources m !! id; Some (id, s)) order) false) m).
Proof.
  intros Hinv Hpc Hord. apply (orderly_quiet m); unfold in_hand; rewrite ?Hpc; try done.
  - intros id _. unfold bound. simpl. by rewrite Hpc.
  - intros _ id [s Hs]. right. apply list_elem_of_fmap. exists (id, s). split; [done|].
    apply list_elem_of_omap. exists id. simpl in Hs. rewrite Hs. split; [|done]. rewrite Hord.
    apply list_elem_of_fmap. exists (id, s). split; [done|]. by apply elem_of_map_to_list.
  - intros todo skip [= <- <-]. split.
    + apply NoDup_snapshot. rewrite Hord. apply NoDup_fst_map_to_list.
    + intros id s (id' & _ & Heq)%list_elem_of_omap. left.
      destruct (sources m !! id') eqn:E; by simplify_eq/=.
Qed.

Lemma orderly_run tr m order evs m' :
  tagged_inv tr m -> orderly_inv m -> valid_order order m -> run_step order m = Some (evs, m') ->
  orderly_inv m'.
Proof.
  intros Htg Hinv Hord H. unfold run_step in H. unfold valid_order in Hord.
  assert (Hquiet : forall p, pc m <> p -> in_hand m = None ->
     (p = Head \/ p = Begin \/ p = Stopped \/ p = PopMin /\ (sourceChanged m = false -> covered (set_pc p m))) ->
     orderly_inv (set_pc p m)).
  { intros p _ Hhd Hp. apply (orderly_quiet m); try done.
    - rewrite Hhd. unfold in_hand. simpl. by destruct Hp as [->|[->|[->|[-> _]]]].
    - intros id _. unfold bound, in_hand in *. simpl.
      destruct Hp as [->|[->|[->|[-> _]]]]; by destruct (pc m).
    - simpl. intros Hsch. destruct Hp as [->|[->|[->|[-> Hc]]]]; [done..|by apply Hc].
    - intros todo skip. simpl. by destruct Hp as [->|[->|[->|[-> _]]]]. }
  destruct (pc m) as [| |[|[id src] todo] skip| |i|i| |] eqn:Hpc.
  - simplify_eq/=. apply (orderly_quiet m); unfold in_hand; rewrite ?Hpc; try done.
    intros id _. unfold bound. simpl. by rewrite Hpc.
  - repeat case_match; simplify_eq/=; try (apply Hquiet; [done|unfold in_hand; by rewrite Hpc|tauto]).
    by apply orderly_snapshot.
  - simplify_eq/=. apply Hquiet; [by destruct skip|unfold in_hand; by rewrite Hpc|].
    destruct skip; [by left|]. right; right; right. split; [done|]. intros Hsch.
    pose proof (or_covered _ Hinv Hsch) as Hcov. unfold covered in *. rewrite Hpc in Hcov. simpl in *.
    intros id [?|Hin]%Hcov; [done|]. by apply not_elem_of_nil in Hin.
  - destruct (Exist id (strategy m)) eqn:Hex; simplify_eq/=.
    { eapply orderly_skip; [done..|]. intros ->. split; [done|].
      rewrite exist_held in Hex by apply Htg. by apply bool_decide_eq_true in Hex. }
    repeat (case_match || simplify_option_eq); simplify_eq/=;
      try (by eapply orderly_skip); by eapply orderly_receive.
  - repeat case_match; simplify_eq/=; [by eapply orderly_pop|].
    apply Hquiet; [done|unfold in_hand; by rewrite Hpc|by left].
  - case_match; simplify_eq/=; [by eapply orderly_pushback|by apply orderly_check].
  - pose proof (orderly_checked _ _ Hinv Hpc) as Hle.
    destruct (Z.ltb_spec (GetCommitTs i) (latest m)); [lia|].
    destruct (Z.eqb_spec (GetCommitTs i) (latest m)); simplify_eq/=;
      by apply (orderly_dispose m _ i).
  - simplify_eq/=. apply (orderly_quiet m); unfold in_hand; rewrite ?Hpc; try done.
    intros id _. unfold bound. simpl. by rewrite Hpc.
  - done.
Qed.

Lemma bound_act a m id : bound (act a m) id = bound m id.
Proof. unfold bound. by destruct (act_unchanged a m) as (-> & -> & -> & _). Qed.

Lemma StronglySorted_le_snoc (l : list I) x :
  StronglySorted ts_le l -> (forall y, y ∈ l -> ts_le y x) -> StronglySorted ts_le (l ++ [x]).
Proof.
  induction 1 as [|y l Hs IH Hf]; intros Hx; simpl; [repeat constructor|].
  constructor; [apply IH; intros; apply Hx; by right|].
  apply Forall_app. split; [done|]. constructor; [apply Hx; by left|constructor].
Qed.

(** Sending in order and closing keep a channel sorted and above its bound. *)
Lemma chans_act m a c ch' :
  orderly m a -> chans (act a m) !! c = Some ch' ->
  exists ch, chans m !! c = Some ch /\ (chan_sorted ch -> chan_sorted ch') /\
    forall b, chan_above b ch -> chan_above b ch'.
Proof.
  intros [_ Ha] Hl. destruct a as [s|id| |b|c0 i|c0]; simpl in *; try by exists ch'.
  - destruct (chans m !! c0) as [ch|] eqn:E; [|by exists ch'].
    simpl in Hl. apply lookup_insert_Some in Hl as [[<- <-]|[_ Hl]]; [|by exists ch'].
    exists ch. specialize (Ha ch eq_refl). split; [done|]. split.
    + intros [Hs Hle]. split; simpl.
      * apply StronglySorted_le_snoc; [done|]. intros y Hy. apply Hle in Hy. unfold ts_le. lia.
      * intros y [Hy|Hy]%elem_of_app; [apply Hle in Hy; lia|].
        apply list_elem_of_singleton in Hy as ->. lia.
    + intros b [Hb Hq]. split; simpl; [lia|].
      intros y [Hy|Hy]%elem_of_app; [by apply Hq|]. apply list_elem_of_singleton in Hy as ->. lia.
  - destruct (chans m !! c0) as [ch|] eqn:E; [|by exists ch'].
    simpl in Hl. apply lookup_insert_Some in Hl as [[<- <-]|[_ Hl]]; [|by exists ch'].
    by exists ch.
Qed.

Lemma orderly_act m a : orderly m a -> orderly_inv m -> orderly_inv (act a m).
Proof.
  intros Ha [Hh Hhd Hs Hc Hcov Hnd Htd].
  destruct (act_unchanged a m) as (Hpc & Hst & Hl & _).
  split; rewrite ?in_hand_act, ?Hpc, ?Hst, ?Hl; try done.
  - intros id s c ch' Hid Hsc Hcc. rewrite bound_act.
    destruct (chans_act m a c ch' Ha Hcc) as (ch & Hch & _ & Habove). apply Habove.
    destruct Ha as [_ Ha].
    destruct a as [s0|id0| |b|c0 i|c0]; simpl in *; try (by eapply Hs); try (by repeat case_match; eapply Hs).
    + apply lookup_insert_Some in Hid as [[<- <-]|[_ Hid]]; [destruct Ha as [Ha _]; by eapply Ha|by eapply Hs].
    + apply lookup_delete_Some in Hid as [_ Hid]. by eapply Hs.
  - intros c ch' Hcc. destruct (chans_act m a c ch' Ha Hcc) as (ch & Hch & Hsort & _).
    apply Hsort. by eapply Hc.
  - unfold covered in *. rewrite Hpc, Hst.
    destruct a as [s0|id0| |b|c0 i|c0]; simpl in *; try done; try (by case_match).
  - intros todo skip id s Hp Hin. destruct (Htd _ _ _ _ Hp Hin) as [Hsame Hab]. split.
    + intros s'. destruct Ha as [_ Ha].
      destruct a as [s0|id0| |b|c0 i|c0]; simpl in *; try (by apply Hsame); try (by case_match; apply Hsame).
      * intros [[<- <-]|[_ Hid]]%lookup_insert_Some; [|by apply Hsame].
        destruct Ha as [_ Ha]. symmetry. by eapply Ha.
      * intros [_ Hid]%lookup_delete_Some. by apply Hsame.
    + intros c ch' Hsc Hcc. rewrite bound_act.
      destruct (chans_act m a c ch' Ha Hcc) as (ch & Hch & _ & Habove). apply Habove. by eapply Hab.
Qed.

(** The sources and channels a merger is started with. *)
Definition start_ok (ts : Z) (srcs : list MergeSource) (cs : gmap nat (chan I)) : Prop :=
  (forall s, s ∈ srcs -> source_ok s) /\ chans_tagged cs /\
  map_Forall (fun _ ch => chan_sorted ch /\ chan_above ts ch) cs.

Lemma orderly_start ts srcs cs :
  start_ok ts srcs cs -> orderly_inv (NewMerger (I:=I) (S:=S) ts srcs cs).
Proof.
  intros (Hsrc & Htag & Hcs). split; try done; simpl.
  - intros id j. by rewrite new_held, lookup_empty.
  - intros id s c ch Hid Hsc Hcc. unfold bound. simpl. rewrite new_held, lookup_empty.
    by apply (Hcs c ch Hcc).
  - intros c ch Hcc. by apply (Hcs c ch Hcc).
Qed.

Definition not_disorder (e : event I) : Prop := match e with Disorder _ => False | _ => True end.

Lemma orderly_drops m order evs m' :
  orderly_inv m -> run_step order m = Some (evs, m') ->
  Forall not_disorder evs /\ forall i, i ∈ dropped evs -> GetCommitTs i = latest m.
Proof.
  intros Hor Hs.
  assert (Hnil : evs = [] \/ (exists i, evs = [Receive i]) ->
            Forall not_disorder evs /\ forall i, i ∈ dropped evs -> GetCommitTs i = latest m).
  { intros [->|[j ->]]; (split; [by repeat constructor|by intros i ?%not_elem_of_nil]). }
  unfold run_step in Hs. destruct (pc m) as [| |[|[id src] todo] skip| |i|i| |] eqn:Hpc.
  7: { pose proof (orderly_checked _ _ Hor Hpc) as Hle.
    destruct (Z.ltb_spec (GetCommitTs i) (latest m)); [lia|].
    destruct (Z.eqb_spec (GetCommitTs i) (latest m)) as [He|He]; simplify_eq/=; split;
      try by repeat constructor.
    - intros j Hj. apply list_elem_of_singleton in Hj as ->. done.
    - by intros ? ?%not_elem_of_nil. }
  all: apply Hnil; repeat (case_match || simplify_option_eq); simplify_eq; eauto.
Qed.

Lemma orderly_exec ts srcs cs tr m :
  start_ok ts srcs cs -> exec orderly (NewMerger ts srcs cs) tr m ->
  tagged_inv tr m /\ orderly_inv m /\ Forall not_disorder tr /\
  forall i, i ∈ dropped tr -> GetCommitTs i ∈ ts :: out_ts tr.
Proof.
  intros Hst Hex. assert (Htg : tagged_inv tr m).
  { destruct Hst as (? & ? & _). eapply tagged_exec; [|done..|done]. by intros ? ? [? _]. }
  split; [done|]. revert Htg.
  induction Hex as [|tr m order evs m' Hex IH Ho Hs|tr m a Hex IH Ha]; intros Htg.
  - split; [by apply orderly_start|]. split; [constructor|by intros i ?%not_elem_of_nil].
  - assert (Htg' : tagged_inv tr m).
    { destruct Hst as (? & ? & _). eapply tagged_exec; [|done..|done]. by intros ? ? [? _]. }
    destruct (IH Htg') as (Hor & Hnd & Hdr). split; [by eapply orderly_run|].
    destruct (increasing_exec _ _ _ _ _ _ Hex) as [Hinc _].
    pose proof (orderly_drops _ _ _ _ Hor Hs) as Hdup.
    destruct Hdup as [Hnd' Hdup]. split; [by apply Forall_app|].
    intros i. rewrite dropped_app. unfold out_ts. rewrite outputs_app, fmap_app.
    intros [Hi|Hi]%elem_of_app; rewrite app_comm_cons; apply elem_of_app; left.
    + by apply Hdr.
    + rewrite (Hdup i Hi), (inc_latest _ _ _ Hinc). destruct (last (out_ts tr)) eqn:E; [|by left].
      right. by apply last_Some_elem_of.
  - assert (Htg' : tagged_inv tr m).
    { destruct Hst as (? & ? & _). eapply tagged_exec; [|done..|done]. by intros ? ? [? _]. }
    destruct (IH Htg') as (Hor & Hnd & Hdr). split; [by apply orderly_act|done].
Qed.

(** If every pump sends its binlogs in timestamp order and is added before
    the merger has passed the timestamps it delivers, then under every
    interleaving no binlog is dropped as out of order, and nothing is lost: each
    received binlog has been sent, or has the timestamp of one that was (or the
    starting timestamp), or is still held. *)
Theorem merger_complete ts srcs cs tr m :
  start_ok ts srcs cs -> exec orderly (NewMerger ts srcs cs) tr m ->
  Forall not_disorder tr /\
  (forall i, i ∈ received tr ->
     i ∈ outputs tr \/ GetCommitTs i ∈ ts :: (GetCommitTs <$> outputs tr) \/
     i ∈ holding m \/ in_hand m = Some i).
Proof.
  intros Hst Hex. destruct (orderly_exec _ _ _ _ _ Hst Hex) as (Htg & _ & Hnd & Hdr).
  split; [done|]. intros i Hi. rewrite (tg_items _ _ Htg) in Hi.
  apply elem_of_app in Hi as [?|[?|[?|Hi]%elem_of_app]%elem_of_app]; auto.
  right; right; right. unfold hand in Hi. destruct (in_hand m); simpl in Hi.
  - by apply list_elem_of_singleton in Hi as ->.
  - by apply not_elem_of_nil in Hi.
Qed.

(** Items are neither made up nor lost, whatever the order of the sources:
    what was received is exactly what was sent, dropped, or is still held. *)
Theorem merger_conserves ts srcs cs tr m :
  (forall s, s ∈ srcs -> source_ok s) -> chans_tagged cs ->
  exec tagged (NewMerger ts srcs cs) tr m ->
  received tr ≡ₚ outputs tr ++ dropped tr ++ holding m ++ hand m.
Proof. intros Hs Hc Hex. eapply tg_items, tagged_exec; [|done..|done]. done. Qed.

(** ** Progress *)

(** The item a source contributes to the next choice: held, or next in its channel. *)
Definition front m (id : string) (s : MergeSource) : option I :=
  match held (strategy m) !! id with
  | Some i => Some i
  | None => c ← Source s; ch ← chans m !! c; head (queue ch)
  end.

(** [run] alone. *)
Abbreviation run_alone := (exec (fun _ _ => False)).

Lemma exec_trans ok m0 tr m tr' m' : exec ok m0 tr m -> exec ok m tr' m' -> exec ok m0 (tr ++ tr') m'.
Proof.
  intros H. induction 1 as [|tr' m1 order evs m2 Hex IH Ho Hs|tr' m1 a Hex IH Ha].
  - by rewrite app_nil_r.
  - rewrite app_assoc. by eapply exec_run.
  - by apply exec_act.
Qed.

Lemma exec_one ok m order evs m' :
  valid_order order m -> run_step order m = Some (evs, m') -> exec ok m evs m'.
Proof. intros Ho Hs. by apply (exec_run ok m [] m order evs m'); [constructor|..]. Qed.

(** One step of the collecting loop on a source that has an item. *)
Lemma collect_step tr m id s todo i :
  tagged_inv tr m -> pc m = Collect ((id, s) :: todo) false -> front m id s = Some i ->
  exists evs m', run_alone m evs m' /\ tagged_inv (tr ++ evs) m' /\ pc m' = Collect todo false /\
    sources m' = sources m /\ sourceChanged m' = sourceChanged m /\ latest m' = latest m /\
    outputs evs = [] /\ held (strategy m') = <[id := i]> (held (strategy m)) /\
    forall id' s', id' <> id -> ID s' = id' -> source_ok s' -> front m' id' s' = front m id' s'.
Proof.
  intros Htg Hpc Hf. unfold front in Hf.
  assert (Hvo : valid_order [] m) by (unfold valid_order; by rewrite Hpc).
  pose proof (exist_held (strategy m) id (tg_wf _ _ Htg)) as Hex.
  destruct (held (strategy m) !! id) as [i0|] eqn:Hh.
  - simplify_eq. rewrite bool_decide_eq_true_2 in Hex by eauto.
    assert (Hs : run_step [] m = Some ([], set_pc (Collect todo false) m))
      by (unfold run_step; by rewrite Hpc, Hex).
    exists [], (set_pc (Collect todo false) m). split; [by eapply exec_one|].
    split; [by eapply tagged_run|]. do 5 (split; [done|]). split; [|done].
    simpl. by rewrite insert_id.
  - rewrite bool_decide_eq_false_2 in Hex by (intros [? ?]; done).
    destruct (Source s) as [c|] eqn:Hsc; simpl in Hf; [|done].
    destruct (chans m !! c) as [ch|] eqn:Hcc; simpl in Hf; [|done].
    destruct (queue ch) as [|j q] eqn:Hq; simplify_eq/=.
    set (m' := set_pc (Collect todo false) (set_strategy (Push i (strategy m))
                 (set_chan c (mkChan q (chan_closed ch) (chan_last ch)) m))).
    assert (Hs : run_step [] m = Some ([Receive i], m'))
      by (unfold run_step; by rewrite Hpc, Hex, Hsc; simpl; rewrite Hcc; simpl; rewrite Hq).
    destruct (tg_todo _ _ Htg _ _ id s Hpc) as [Hid Hso]; [by left|].
    assert (Hgi : GetSourceID i = id).
    { rewrite <- Hid, <- (Hso c Hsc). eapply (tg_chans _ _ Htg); [done|]. rewrite Hq. by left. }
    destruct (push_held (strategy m) i (tg_wf _ _ Htg)) as [_ Hheld]; [by rewrite Hgi|].
    rewrite Hgi in Hheld.
    exists [Receive i], m'. split; [by eapply exec_one|]. split; [by eapply tagged_run|].
    do 5 (split; [done|]). split; [done|].
    intros id' s' Hne Hid' Hso'. unfold front. simpl. rewrite Hheld, lookup_insert_ne by done.
    destruct (held (strategy m) !! id'); [done|]. destruct (Source s') as [c'|] eqn:Hsc'; [|done].
    simpl. rewrite lookup_insert_ne; [done|]. intros <-. apply Hne.
    rewrite <- Hid', <- Hid, <- (Hso c Hsc). symmetry. by apply Hso'.
Qed.

Lemma collect_phase todo : forall tr m,
  tagged_inv tr m -> pc m = Collect todo false -> NoDup todo.*1 ->
  (forall id s, (id, s) ∈ todo -> is_Some (front m id s)) ->
  exists evs m', run_alone m evs m' /\ tagged_inv (tr ++ evs) m' /\ pc m' = Collect [] false /\
    sources m' = sources m /\ sourceChanged m' = sourceChanged m /\ latest m' = latest m /\
    outputs evs = [] /\
    (forall id s i, (id, s) ∈ todo -> front m id s = Some i -> held (strategy m') !! id = Some i) /\
    (forall id, id ∉ todo.*1 -> held (strategy m') !! id = held (strategy m) !! id).
Proof.
  induction todo as [|[id s] todo IH]; intros tr m Htg Hpc Hnd Hav.
  { exists [], m. split; [constructor|]. rewrite app_nil_r. do 6 (split; [done|]).
    split; [|done]. by intros ? ? ? ?%not_elem_of_nil. }
  destruct (Hav id s) as [i Hi]; [by left|].
  destruct (collect_step tr m id s todo i Htg Hpc Hi)
    as (evs1 & m1 & Hr1 & Htg1 & Hpc1 & Hs1 & Hc1 & Hl1 & Ho1 & Hh1 & Hf1).
  simpl in Hnd. apply list.NoDup_cons in Hnd as [Hni Hnd].
  assert (Hne : forall id' s', (id', s') ∈ todo -> id' <> id /\ front m1 id' s' = front m id' s').
  { intros id' s' Hin. assert (id' <> id).
    { intros ->. apply Hni. apply list_elem_of_fmap. by exists (id, s'). }
    split; [done|]. destruct (tg_todo _ _ Htg _ _ id' s' Hpc); [by right|]. by apply Hf1. }
  destruct (IH _ m1 Htg1 Hpc1 Hnd) as (evs2 & m2 & Hr2 & Htg2 & Hpc2 & Hs2 & Hc2 & Hl2 & Ho2 & Ht2 & Hn2).
  { intros id' s' Hin. destruct (Hne id' s' Hin) as [_ ->]. apply Hav. by right. }
  exists (evs1 ++ evs2), m2. split; [by eapply exec_trans|]. rewrite app_assoc. split; [done|].
  split; [done|]. split; [congruence|]. split; [congruence|]. split; [congruence|].
  split; [by rewrite outputs_app, Ho1, Ho2|]. split.
  - intros id' s' i' [[= -> ->]|Hin]%elem_of_cons Hf'.
    + rewrite Hn2, Hh1 by done. simplify_eq. apply lookup_insert_eq.
    + apply (Ht2 id' s'); [done|]. by destruct (Hne id' s' Hin) as [_ ->].
  - intros id' Hni'. simpl in Hni'. apply not_elem_of_cons in Hni' as [Hne' Hni'].
    rewrite Hn2, Hh1 by done. by apply lookup_insert_ne.
Qed.

(** From the choice of the minimum to the top of the loop. *)
Lemma dispose_phase tr m :
  tagged_inv tr m -> pc m = PopMin -> sourceChanged m = false -> held (strategy m) <> ∅ ->
  exists evs m' i, run_alone m evs m' /\ pc m' = Head /\
    held (strategy m) !! GetSourceID i = Some i /\
    (forall id j, held (strategy m) !! id = Some j -> GetCommitTs i <= GetCommitTs j) /\
    outputs evs = (if latest m <? GetCommitTs i then [i] else []) /\
    latestTS m' = Z.max (latest m) (GetCommitTs i) /\
    (latest m' = latestTS m') /\ held (strategy m') = delete (GetSourceID i) (held (strategy m)).
Proof.
  intros Htg Hpc Hch Hne.
  set (order := (map_to_list (held (strategy m))).*1).
  destruct (pop_some (strategy m) order (tg_wf _ _ Htg) ltac:(done) Hne)
    as (i & s' & Hp & _ & Hi & Hd & Hmin).
  set (m1 := set_pc (Popped i) (set_strategy s' m)).
  set (m2 := set_pc (Checked i) m1).
  assert (H1 : run_alone m [] m1).
  { apply (exec_one _ _ order); [by unfold valid_order; rewrite Hpc|].
    unfold run_step. by rewrite Hpc, Hp. }
  assert (H2 : run_alone m1 [] m2).
  { apply (exec_one _ _ []); [done|]. unfold run_step. simpl. by rewrite Hch. }
  set (store := fun t => mkMerger (sources m) s' (latestTS m) (closed m) (pause m) (sourceChanged m)
                 Store t (chans m)).
  assert (H3 : exists e, run_alone m2 [e] (store (Z.max (latest m) (GetCommitTs i))) /\
                 outputs [e] = if latest m <? GetCommitTs i then [i] else []).
  { destruct (Z.ltb_spec (GetCommitTs i) (latest m)) as [Hlt|Hge].
    - exists (Disorder i). rewrite Z.max_l, (proj2 (Z.ltb_ge _ _)) by lia. split; [|done].
      apply (exec_one _ _ []); [done|]. unfold run_step. simpl. by rewrite (proj2 (Z.ltb_lt _ _)) by lia.
    - destruct (Z.eqb_spec (GetCommitTs i) (latest m)) as [He|Hne'].
      + exists (Duplicate i). rewrite Z.max_l, (proj2 (Z.ltb_ge _ _)) by lia. split; [|done].
        apply (exec_one _ _ []); [done|]. unfold run_step. simpl.
        by rewrite (proj2 (Z.ltb_ge _ _)), (proj2 (Z.eqb_eq _ _)) by lia.
      + exists (Output i). rewrite Z.max_r, (proj2 (Z.ltb_lt _ _)) by lia. split; [|done].
        apply (exec_one _ _ []); [done|]. unfold run_step. simpl.
        by rewrite (proj2 (Z.ltb_ge _ _)), (proj2 (Z.eqb_neq _ _)) by lia. }
  destruct H3 as (e & H3 & Ho). set (t := Z.max (latest m) (GetCommitTs i)) in *.
  assert (H4 : run_alone (store t) [] (mkMerger (sources m) s' t (closed m) (pause m)
                 (sourceChanged m) Head t (chans m))) by by apply (exec_one _ _ []).
  exists ([] ++ [] ++ [e] ++ []). eexists _, i.
  split; [exact (exec_trans _ _ _ _ _ _ H1 (exec_trans _ _ _ _ _ _ H2 (exec_trans _ _ _ _ _ _ H3 H4)))|].
  done.
Qed.

(** The merger makes progress: at the top of its loop, not closed or paused,
    and with an item available from every source, [run] on its own completes
    the round. It picks an item no larger than what any source has to offer and
    sends it exactly if its timestamp is new, and then reports that timestamp. *)
Theorem merger_progress ok ts srcs cs tr m :
  (forall m a, ok m a -> tagged m a) ->
  (forall s, s ∈ srcs -> source_ok s) -> chans_tagged cs ->
  exec ok (NewMerger ts srcs cs) tr m ->
  pc m = Head -> closed m = false -> pause m = false -> sources m <> ∅ ->
  (forall id s, sources m !! id = Some s -> is_Some (front m id s)) ->
  exists evs m' i, run_alone m evs m' /\ pc m' = Head /\
    (forall id s j, sources m !! id = Some s -> front m id s = Some j -> GetCommitTs i <= GetCommitTs j) /\
    outputs evs = (if latest m <? GetCommitTs i then [i] else []) /\
    GetLatestTS m' = Z.max (latest m) (GetCommitTs i).
Proof.
  intros Hok Hsrc Htag Hex Hpc Hcl Hpa Hne Hav.
  assert (Htg : tagged_inv tr m) by by eapply tagged_exec.
  set (m1 := set_pc Begin (set_changed false m)).
  set (order := (map_to_list (sources m)).*1).
  set (todo := omap (fun id => s ← sources m !! id; Some (id, s)) order).
  set (m2 := set_pc (Collect todo false) m1).
  assert (Hs1 : run_step [] m = Some ([], m1)) by (unfold run_step; by rewrite Hpc).
  assert (Hs2 : run_step order m1 = Some ([], m2)).
  { unfold run_step. simpl. rewrite Hcl, Hpa. by rewrite bool_decide_eq_false_2. }
  assert (Hv1 : valid_order [] m) by by unfold valid_order; rewrite Hpc.
  assert (Hv2 : valid_order order m1) by exact (Permutation_refl order).
  assert (Htg2 : tagged_inv ((tr ++ []) ++ []) m2).
  { eapply (tagged_run _ m1 order); [by eapply (tagged_run _ m [])|done|done]. }
  assert (Htodo : forall id s, (id, s) ∈ todo <-> sources m !! id = Some s).
  { intros id s. unfold todo. rewrite list_elem_of_omap. split.
    - intros (id' & _ & E). destruct (sources m !! id') eqn:E'; by simplify_eq/=.
    - intros Hs. exists id. rewrite Hs. split; [|done]. apply list_elem_of_fmap.
      exists (id, s). split; [done|]. by apply elem_of_map_to_list. }
  destruct (collect_phase todo _ m2 Htg2) as (evs & m3 & Hr & Htg3 & Hpc3 & Hs3 & Hc3 & Hl3 & Ho & Hf & Hn).
  { done. }
  { apply NoDup_snapshot, NoDup_fst_map_to_list. }
  { intros id s Hin%Htodo. by apply Hav. }
  set (m4 := set_pc PopMin m3).
  assert (Hs4 : run_step [] m3 = Some ([], m4)) by (unfold run_step; by rewrite Hpc3).
  assert (Hv4 : valid_order [] m3) by by unfold valid_order; rewrite Hpc3.
  assert (Hhold : forall id s j, sources m !! id = Some s -> front m id s = Some j ->
                    held (strategy m3) !! id = Some j).
  { intros id s j Hs Hj. apply (Hf id s); [by apply Htodo|done]. }
  destruct (dispose_phase (((tr ++ []) ++ []) ++ evs ++ []) m4) as (evs' & m' & i & Hr' & Hpc' & Hi & Hmin & Ho' & Hlt & _).
  { rewrite app_assoc. by eapply tagged_run. }
  { done. }
  { simpl. by rewrite Hc3. }
  { simpl. intros He. destruct (map_choose _ Hne) as (id & s & Hs). destruct (Hav id s Hs) as [j Hj].
    pose proof (Hhold id s j Hs Hj) as Hx. by rewrite He, lookup_empty in Hx. }
  simpl in *. rewrite Hl3 in *.
  exists ([] ++ [] ++ evs ++ [] ++ evs'), m', i.
  split; [|split; [done|]].
  - eapply exec_trans; [by eapply exec_one|]. eapply exec_trans; [by eapply (exec_one _ m1 order)|].
    eapply exec_trans; [done|]. eapply exec_trans; [by eapply exec_one|done].
  - split; [|split; [|done]].
    + intros id s j Hs Hj. eapply Hmin. by eapply Hhold.
    + cbn [app]. by rewrite outputs_app, Ho.
Qed.

End Executions.

(** ** Concrete runs *)
Module MergerExamples.

Abbreviation item := (binlogItem unit).
Abbreviation merger := (Merger item (HeapStrategy item)).

Definition mk (node : string) (ts : Z) : item :=
  newBinlogItem (mkBinlog BinlogType_Commit (ts - 1) ts [] [] [] 0 0) node.

(** The order in which [range] visits the maps, for the runs below. *)
Definition canon (m : merger) : list string :=
  match pc m with
  | Begin => (map_to_list (sources m)).*1
  | PopMin => (map_to_list (held (strategy m))).*1
  | _ => []
  end.

Fixpoint run_for (n : nat) (m : merger) : list (event item) * merger :=
  match n with
  | O => ([], m)
  | Datatypes.S n =>
    match run_step (canon m) m with
    | None => ([], m)
    | Some (evs, m') => let '(tr, m'') := run_for n m' in (evs ++ tr, m'')
    end
  end.

Lemma run_for_exec ok n m : exec ok m (run_for n m).1 (run_for n m).2.
Proof.
  revert m. induction n as [|n IH]; intros m; simpl; [constructor|].
  destruct (run_step (canon m) m) as [[evs m']|] eqn:E; [|constructor].
  specialize (IH m'). destruct (run_for n m') as [tr m'']. simpl in *.
  eapply exec_trans; [|done]. eapply exec_one; [|done].
  unfold valid_order, canon. by destruct (pc m).
Qed.

Definition own (c : nat) : string := if decide (c = 0%nat) then "a" else "b".

Definition srcs : list MergeSource := [mkSource "a" (Some 0%nat); mkSource "b" (Some 1%nat)].

Definition cs : gmap nat (chan item) :=
  {[ 0%nat := mkChan [mk "a" 2; mk "a" 5; mk "a" 7] false 7;
     1%nat := mkChan [mk "b" 3; mk "b" 5; mk "b" 9] false 9 ]}.

Definition m0 : merger := NewMerger 1 srcs cs.

Lemma srcs_ok : forall s, s ∈ srcs -> source_ok own s.
Proof.
  intros s [->|[->|Hs%not_elem_of_nil]%elem_of_cons]%elem_of_cons; [..|done];
    intros c [= <-]; done.
Qed.

Lemma cs_cases (P : nat -> chan item -> Prop) :
  P 0%nat (mkChan [mk "a" 2; mk "a" 5; mk "a" 7] false 7) ->
  P 1%nat (mkChan [mk "b" 3; mk "b" 5; mk "b" 9] false 9) -> map_Forall P cs.
Proof. intros H0 H1. unfold cs. apply map_Forall_insert_2; [done|]. by apply map_Forall_singleton. Qed.

Lemma cs_tagged : chans_tagged own cs.
Proof.
  intros c ch i Hc. revert i. revert c ch Hc.
  apply (cs_cases (fun c ch => forall i, i ∈ queue ch -> GetSourceID i = own c));
    intros i Hi; simpl in Hi; rewrite !elem_of_cons, elem_of_nil in Hi; by destruct Hi as [->|[->|[->|[]]]].
Qed.

Lemma cs_start : start_ok own 1 srcs cs.
Proof.
  split; [apply srcs_ok|]. split; [apply cs_tagged|].
  apply cs_cases; (split; [split|split]); simpl; try lia;
    try (intros i Hi; rewrite !elem_of_cons, elem_of_nil in Hi;
         destruct Hi as [->|[->|[->|[]]]]; simpl; lia);
    repeat constructor; unfold ts_le; simpl; lia.
Qed.

Lemma merger_increasing_witness :
  StronglySorted Z.lt (1 :: (GetCommitTs <$> outputs (run_for 60 m0).1)) /\
  (pc (run_for 60 m0).2 <> Store ->
   GetLatestTS (run_for 60 m0).2 = default 1 (last (GetCommitTs <$> outputs (run_for 60 m0).1))).
Proof. apply (merger_increasing (fun _ _ => False) 1 srcs cs), run_for_exec. Defined.

(** What that run sends. *)
Example merged : GetCommitTs <$> outputs (run_for 60 m0).1 = [2; 3; 5; 7].
Proof. vm_compute. reflexivity. Qed.

Lemma merger_complete_witness :
  Forall not_disorder (run_for 60 m0).1 /\
  (forall i, i ∈ received (run_for 60 m0).1 ->
     i ∈ outputs (run_for 60 m0).1 \/
     GetCommitTs i ∈ 1 :: (GetCommitTs <$> outputs (run_for 60 m0).1) \/
     i ∈ holding (run_for 60 m0).2 \/ in_hand (run_for 60 m0).2 = Some i).
Proof. apply (merger_complete own 1 srcs cs); [apply cs_start|apply run_for_exec]. Defined.

Lemma merger_conserves_witness :
  received (run_for 60 m0).1 ≡ₚ
    outputs (run_for 60 m0).1 ++ dropped (run_for 60 m0).1 ++
    holding (run_for 60 m0).2 ++ hand (run_for 60 m0).2.
Proof.
  apply (merger_conserves own 1 srcs cs); [apply srcs_ok|apply cs_tagged|apply run_for_exec].
Defined.

Lemma merger_progress_witness :
  exists evs m' i, exec (fun _ _ => False) m0 evs m' /\ pc m' = Head /\
    (forall id s j, sources m0 !! id = Some s -> front m0 id s = Some j ->
       GetCommitTs i <= GetCommitTs j) /\
    outputs evs = (if latest m0 <? GetCommitTs i then [i] else []) /\
    GetLatestTS m' = Z.max (latest m0) (GetCommitTs i).
Proof.
  apply (merger_progress own (fun _ _ => False) 1 srcs cs [] m0).
  - done.
  - apply srcs_ok.
  - apply cs_tagged.
  - constructor.
  - done.
  - done.
  - done.
  - vm_compute. discriminate.
  - intros id s [Hin Hid]%new_sources_lookup. subst id.
    unfold srcs in Hin. rewrite !elem_of_cons, elem_of_nil in Hin.
    destruct Hin as [->|[->|[]]]; vm_compute; eauto.
Defined.

(** A merger with the source [a] that has passed [isSourceChanged] with the
    binlog of timestamp 5 in hand, when the source [b] is added. *)
Definition race : merger :=
  let m := NewMerger 0 [mkSource "a" (Some 0%nat)]
             {[ 0%nat := mkChan [mk "a" 5; mk "a" 6] false 6; 1%nat := mkChan [mk "b" 3] false 3 ]} in
  (run_for 6 m).2.

(** A source can be added too late to be seen: [run] has checked
    [sourceChanged] and is about to send 5 when a source that holds a binlog with
    timestamp 3 is added.  3 is above everything sent and above what
    [GetLatestTS] reports, yet it is dropped as out of order. *)
Theorem merger_add_race :
  pc race = Checked (mk "a" 5) /\ GetLatestTS race = 0 /\
  exec (fun _ _ => False) (act (DoAdd (mkSource "b" (Some 1%nat))) race)
    [Output (mk "a" 5); Receive (mk "a" 6); Receive (mk "b" 3); Disorder (mk "b" 3)]
    (run_for 12 (act (DoAdd (mkSource "b" (Some 1%nat))) race)).2.
Proof.
  split; [vm_compute; reflexivity|]. split; [vm_compute; reflexivity|].
  pose proof (run_for_exec (fun _ _ => False) 12 (act (DoAdd (mkSource "b" (Some 1%nat))) race)) as H.
  remember (run_for 12 _).2 as m' eqn:E. clear E.
  replace (run_for 12 (act (DoAdd (mkSource "b" (Some 1%nat))) race)).1 with
    [Output (mk "a" 5); Receive (mk "a" 6); Receive (mk "b" 3); Disorder (mk "b" 3)] in H
    by (vm_compute; reflexivity).
  exact H.
Qed.

End MergerExamples.
