(* ===== verification/Causality.v ===== *)
(** * Causality
    Dispatch of DMLs to the workers of the loader: [pkg/loader/causality.go] and
    [singleExec] of [pkg/loader/load.go].  The DMLs are spread over the workers by
    a hash, DMLs that share a key go to one worker, and a DML whose keys belong
    to two workers waits until everything queued has been executed.  The main
    theorem states that every interleaving of the workers leaves the database as
    the sequential execution does. *)
From Stdlib Require Import Init.Byte.
From stdpp Require Import base option list gmap strings sorting.
From S2P Require Import Prelude.

(** ** Causality *)

Record Causality := mkCausality { relations : gmap string string }.

Definition NewCausality : Causality := mkCausality ∅.

(** The loop of [DetectConflict]; [""] is the zero value of [existedRelation]. *)
Fixpoint detect_loop (rel : gmap string string) (existedRelation : string) (keys : list string) : bool :=
  match keys with
  | [] => false
  | key :: keys =>
    match rel !! key with
    | Some val =>
      if negb (bool_decide (existedRelation = "")) && negb (bool_decide (val = existedRelation))
      then true
      else detect_loop rel val keys
    | None => detect_loop rel existedRelation keys
    end
  end.

Definition DetectConflict (keys : list string) (c : Causality) : bool :=
  match keys with
  | [] => false
  | _ => detect_loop (relations c) "" keys
  end.

(** The first loop of [Add]: the selected relation and the keys without one. *)
Fixpoint add_loop (rel : gmap string string) (selected : string) (nonExist : list string)
    (keys : list string) : string * list string :=
  match keys with
  | [] => (selected, nonExist)
  | key :: keys =>
    match rel !! key with
    | Some val => add_loop rel val nonExist keys
    | None => add_loop rel selected (nonExist ++ [key]) keys
    end
  end.

Definition Add (keys : list string) (c : Causality) : outcome Causality :=
  match keys with
  | [] => Ret c
  | key0 :: _ =>
    if DetectConflict keys c then Fail (Err "some conflicts in causality, must be resolved")
    else
      let '(selectedRelation, nonExistKeys) := add_loop (relations c) key0 [] keys in
      Ret (mkCausality (foldl (fun rel key => <[key := selectedRelation]> rel) (relations c) nonExistKeys))
  end.

Definition Get (key : string) (c : Causality) : string := default "" (relations c !! key).

Definition Reset (c : Causality) : Causality := mkCausality ∅.

(** Relations are keys, and keys are never empty. *)
Definition causality_wf (c : Causality) : Prop :=
  map_Forall (fun _ r => r <> "") (relations c).

Lemma detect_loop_spec rel r keys :
  map_Forall (fun _ v => v <> "") rel ->
  detect_loop rel r keys = false <->
  (forall k v, k ∈ keys -> rel !! k = Some v -> r = "" \/ v = r) /\
  (forall k k' v v', k ∈ keys -> k' ∈ keys -> rel !! k = Some v -> rel !! k' = Some v' -> v = v').
Proof.
  intros Hwf. revert r. induction keys as [|k keys IH]; intros r; simpl.
  { split; [|done]. intros _. split; intros; by apply not_elem_of_nil in H. }
  destruct (rel !! k) as [v|] eqn:Hk.
  - pose proof (Hwf k v Hk) as Hv.
    destruct (bool_decide_reflect (r = "")) as [->|Hr]; simpl;
      [|destruct (bool_decide_reflect (v = r)) as [->|Hvr]; simpl].
    + rewrite IH. split.
      * intros [H1 H2]. split; [by left|]. intros k1 k2 v1 v2 Hk1 Hk2 Hv1 Hv2.
        apply elem_of_cons in Hk1 as [->|Hk1], Hk2 as [->|Hk2]; [congruence|..|by apply (H2 k1 k2)].
        -- destruct (H1 _ _ Hk2 Hv2); congruence.
        -- destruct (H1 _ _ Hk1 Hv1); congruence.
      * intros [_ H2]. split.
        -- intros k1 v1 Hk1 Hv1. right. eapply H2; [by right|by left|done|done].
        -- intros k1 k2 v1 v2 Hk1 Hk2. eapply H2; by right.
    + rewrite IH. split.
      * intros [H1 H2]. split.
        -- intros k1 v1 [->|Hk1]%elem_of_cons Hv1; [right; congruence|by eapply H1].
        -- intros k1 k2 v1 v2 Hk1 Hk2 Hv1 Hv2.
           apply elem_of_cons in Hk1 as [->|Hk1], Hk2 as [->|Hk2]; [congruence|..|by apply (H2 k1 k2)].
           ++ destruct (H1 _ _ Hk2 Hv2); congruence.
           ++ destruct (H1 _ _ Hk1 Hv1); congruence.
      * intros [H1 H2]. split.
        -- intros k1 v1 Hk1. apply H1. by right.
        -- intros k1 k2 v1 v2 Hk1 Hk2. eapply H2; by right.
    + split; [done|]. intros [H1 _]. destruct (H1 k v); [by left|done|done|done].
  - rewrite IH. split.
    + intros [H1 H2]. split.
      * intros k1 v1 [->|Hk1]%elem_of_cons; [congruence|by apply H1].
      * intros k1 k2 v1 v2 [->|Hk1]%elem_of_cons [->|Hk2]%elem_of_cons; try congruence. by apply H2.
    + intros [H1 H2]. split.
      * intros k1 v1 Hk1. apply H1. by right.
      * intros k1 k2 v1 v2 Hk1 Hk2. eapply H2; by right.
Qed.

(** No conflict: the keys that have a relation have the same one. *)
Definition coherent (keys : list string) (c : Causality) : Prop :=
  forall k k' v v', k ∈ keys -> k' ∈ keys ->
    relations c !! k = Some v -> relations c !! k' = Some v' -> v = v'.

Lemma DetectConflict_coherent keys c :
  causality_wf c -> DetectConflict keys c = false <-> coherent keys c.
Proof.
  intros Hwf. unfold DetectConflict. destruct keys as [|k keys].
  { split; [|done]. intros _ k k' v v' Hk. by apply not_elem_of_nil in Hk. }
  rewrite detect_loop_spec by done. split; [by intros [_ ?]|]. intros H. split; [by left|done].
Qed.

Lemma add_loop_spec rel keys selected nonExist :
  exists sel non, add_loop rel selected nonExist keys = (sel, nonExist ++ non) /\
    (forall k, k ∈ non <-> k ∈ keys /\ rel !! k = None) /\
    (sel = selected \/ exists k, k ∈ keys /\ rel !! k = Some sel) /\
    (sel = selected -> forall k, k ∈ keys -> rel !! k = None \/ exists k', k' ∈ keys /\ rel !! k' = Some sel).
Proof.
  revert selected nonExist. induction keys as [|k keys IH]; intros selected nonExist; simpl.
  { exists selected, []. rewrite app_nil_r. split; [done|]. split; [|split; [by left|]].
    - intros k. rewrite elem_of_nil. tauto.
    - intros _ k Hk. by apply not_elem_of_nil in Hk. }
  destruct (rel !! k) as [v|] eqn:Hk.
  - destruct (IH v nonExist) as (sel & non & -> & Hnon & Hsel & _). exists sel, non.
    assert (Hex : exists k', k' ∈ k :: keys /\ rel !! k' = Some sel).
    { destruct Hsel as [->|(k' & ? & ?)]; [exists k; split; [by left|done]|].
      exists k'. split; [by right|done]. }
    split; [done|]. split; [|split; [by right|intros _ k1 _; by right]].
    intros k1. rewrite Hnon, elem_of_cons. split; [by intros [? ?]; auto|].
    intros [[->|?] ?]; [congruence|done].
  - destruct (IH selected (nonExist ++ [k])) as (sel & non & -> & Hnon & Hsel & Hnone).
    exists sel, (k :: non). rewrite <- (assoc_L (++)). split; [done|]. split; [|split].
    + intros k1. rewrite !elem_of_cons, Hnon. split; [intros [->|[? ?]]; auto|].
      intros [[->|?] ?]; auto.
    + destruct Hsel as [->|(k' & ? & ?)]; [by left|right; exists k'; split; [by right|done]].
    + intros Hs k1 [->|Hk1]%elem_of_cons; [by left|].
      destruct (Hnone Hs k1 Hk1) as [?|(k' & ? & ?)]; [by left|right; exists k'; split; [by right|done]].
Qed.

Lemma insert_all_lookup (r : string) (rel : gmap string string) keys k :
  foldl (fun m key => <[key := r]> m) rel keys !! k = (if decide (k ∈ keys) then Some r else rel !! k).
Proof.
  revert rel. induction keys as [|k' keys IH]; intros rel; simpl; [done|].
  rewrite IH. destruct (decide (k ∈ keys)) as [Hin|Hni].
  - rewrite decide_True by by right. done.
  - destruct (decide (k = k')) as [->|Hne].
    + rewrite lookup_insert_eq, decide_True by by left. done.
    + rewrite lookup_insert_ne, decide_False by (done || by intros [?|?]%elem_of_cons). done.
Qed.

(** [Add] on coherent keys: they all get one relation, which an existing key of
    them had, and no other key is touched. *)
Lemma Add_spec keys c : causality_wf c -> coherent keys c -> keys <> [] -> "" ∉ keys ->
  exists c' r, Add keys c = Ret c' /\ causality_wf c' /\
    (forall k, k ∈ keys -> relations c' !! k = Some r) /\
    (forall k, k ∉ keys -> relations c' !! k = relations c !! k) /\
    (forall k v, relations c !! k = Some v -> relations c' !! k = Some v).
Proof.
  intros Hwf Hco Hne Hemp. destruct keys as [|key0 keys]; [done|].
  set (ks := key0 :: keys) in *.
  destruct (add_loop_spec (relations c) ks key0 []) as (sel & non & Hloop & Hnon & Hsel & Hnone).
  exists (mkCausality (foldl (fun rel key => <[key := sel]> rel) (relations c) non)), sel.
  assert (Hdet : DetectConflict ks c = false) by by apply DetectConflict_coherent.
  assert (Hsel' : sel <> "").
  { destruct Hsel as [->|(k & _ & Hk)]; [|by eapply Hwf]. intros ->. apply Hemp. by left. }
  assert (Hold : forall k v, relations c !! k = Some v -> k ∉ non).
  { intros k v Hk [_ ?]%Hnon. congruence. }
  split; [unfold Add, ks; fold ks; by rewrite Hdet, Hloop|].
  split; [|split; [|split]]; simpl.
  - intros k v. simpl. rewrite insert_all_lookup. case_decide; [by intros [= <-]|by apply Hwf].
  - intros k Hk. rewrite insert_all_lookup. case_decide as Hin; [done|].
    destruct (relations c !! k) as [v|] eqn:Ev; [|by destruct Hin; apply Hnon].
    f_equal. destruct Hsel as [Hs|(k' & Hk' & Hv')]; [|by apply (Hco k k')].
    destruct (Hnone Hs k Hk) as [?|(k' & Hk' & Hv')]; [congruence|by apply (Hco k k')].
  - intros k Hk. rewrite insert_all_lookup, decide_False; [done|]. by intros [? _]%Hnon.
  - intros k v Hk. rewrite insert_all_lookup, decide_False; [done|]. by eapply Hold.
Qed.

(** [DetectConflict] reports a conflict exactly if two of the keys belong to
    different relations; without one, [Add] succeeds and puts all the keys in one
    relation, keeping every existing one. *)
Theorem causality_exact keys c :
  causality_wf c -> keys <> [] -> "" ∉ keys ->
  (DetectConflict keys c = true <->
     exists k k' v v', k ∈ keys /\ k' ∈ keys /\ relations c !! k = Some v /\
       relations c !! k' = Some v' /\ v <> v') /\
  (DetectConflict keys c = false -> exists c' r, Add keys c = Ret c' /\
     (forall k, k ∈ keys -> Get k c' = r) /\
     (forall k v, relations c !! k = Some v -> Get k c' = v)) /\
  (DetectConflict keys c = true -> Add keys c = Fail (Err "some conflicts in causality, must be resolved")).
Proof.
  intros Hwf Hne Hemp. split; [|split].
  - split.
    + intros Hd.
      destruct (decide (Exists (fun k => Exists (fun k' => is_Some (relations c !! k) /\
        is_Some (relations c !! k') /\ relations c !! k <> relations c !! k') keys) keys)) as [Hex|Hno].
      * apply list.Exists_exists in Hex as (k & Hk & Hex).
        apply list.Exists_exists in Hex as (k' & Hk' & [v Hv] & [v' Hv'] & Hvv).
        exists k, k', v, v'. split_and!; try done. congruence.
      * assert (DetectConflict keys c = false); [|congruence].
        apply DetectConflict_coherent; [done|]. intros k k' v v' Hk Hk' Hv Hv'.
        apply dec_stable. intros Hvv. apply Hno.
        apply list.Exists_exists. exists k. split; [done|].
        apply list.Exists_exists. exists k'. split; [done|]. rewrite Hv, Hv'. split_and!; eauto. congruence.
    + intros (k & k' & v & v' & Hk & Hk' & Hv & Hv' & Hvv).
      destruct (DetectConflict keys c) eqn:E; [done|].
      apply DetectConflict_coherent in E; [|done]. destruct Hvv. by apply (E k k').
  - intros Hd%DetectConflict_coherent; [|done].
    destruct (Add_spec keys c Hwf Hd Hne Hemp) as (c' & r & HA & _ & H1 & _ & H2).
    exists c', r. split; [done|]. unfold Get. split.
    + intros k Hk. by rewrite H1.
    + intros k v Hk. by rewrite (H2 k v).
  - intros Hd. unfold Add. destruct keys; [done|]. by rewrite Hd.
Qed.

#[global] Arguments DetectConflict : simpl never.
#[global] Arguments Add : simpl never.

(** ** Dispatch to the workers *)

(** [genHashKey] of [pkg/loader/util.go]. *)
Definition genHashKey (key : string) : Z := crc32 crc_IEEE (String.list_byte_of_string key).

(** Queues executed concurrently: at each step one queue gives its first item. *)
Inductive interleave {D : Type} : list (list D) -> list D -> Prop :=
  | interleave_nil qs : Forall (fun q => q = []) qs -> interleave qs []
  | interleave_take i d q qs l :
      qs !! i = Some (d :: q) -> interleave (<[i := q]> qs) l -> interleave qs (d :: l).

Lemma interleave_skip {D} (qs : list (list D)) l : interleave qs l -> interleave ([] :: qs) l.
Proof.
  induction 1 as [qs Hf|i d q qs l Hi Hil IH]; [by apply interleave_nil; constructor|].
  by apply (interleave_take (S i) d q).
Qed.

Lemma interleave_concat {D} (qs : list (list D)) : interleave qs (concat qs).
Proof.
  induction qs as [|q qs IH]; simpl; [by apply interleave_nil|].
  induction q as [|d q IHq]; simpl; [by apply interleave_skip|].
  by apply (interleave_take 0 d q).
Qed.

(** The order in which the queues are listed does not matter. *)
Lemma interleave_perm {D} (qs qs' : list (list D)) l : interleave qs l -> qs ≡ₚ qs' -> interleave qs' l.
Proof.
  intros Hil. revert qs'. induction Hil as [qs Hf|i d q qs l Hi Hil IH]; intros qs' Hp.
  - apply interleave_nil. by rewrite <- Hp.
  - assert (Hin : (d :: q) ∈ qs') by (rewrite <- Hp; by eapply list_elem_of_lookup_2).
    apply list_elem_of_lookup in Hin as [j Hj]. apply (interleave_take j d q); [done|]. apply IH.
    apply (Permutation_cons_inv (a := d :: q)).
    rewrite (insert_take_drop qs i q), (insert_take_drop qs' j q) by by eapply lookup_lt_Some.
    rewrite <- (take_drop_middle qs i _ Hi), <- (take_drop_middle qs' j _ Hj) in Hp at 1.
    rewrite <- !Permutation_middle in Hp |- *. apply Permutation_cons_inv in Hp. by rewrite Hp, Permutation_swap.
Qed.

Section Dispatch.
Context {D : Type} (getKeys : D -> list string).

(** [execByHash] of the loader: it executes the queues of the workers and
    fails if one of them does. [St] is the state of the downstream database. *)
Context {St : Type} (execByHash : list (list D) -> St -> St * outcome unit).

(** [workerCount] and [opts.enableCausality]. *)
Context (workerCount : nat) (enableCausality : bool).

(** [s.singleExec(executor, dmls)]. *)
Fixpoint singleExec_loop (causality : Causality) (byHash : list (list D)) (dmls : list D) (st : St)
    : St * outcome unit :=
  match dmls with
  | [] => execByHash byHash st
  | dml :: dmls =>
    match getKeys dml with
    | [] => (st, Panic)
    | (key :: _) as keys =>
      let '(causality, byHash, (st, r)) :=
        if enableCausality && DetectConflict keys causality then
          (Reset causality, (fun _ => []) <$> byHash, execByHash byHash st)
        else (causality, byHash, (st, Ret tt)) in
      match r with
      | Ret _ =>
        let causality :=
          if enableCausality then match Add keys causality with Ret c => c | _ => causality end
          else causality in
        let key := if enableCausality then Get key causality else key in
        if (length byHash =? 0)%nat then (st, Panic)
        else
          let idx := Z.to_nat (genHashKey key mod len byHash) in
          singleExec_loop causality (alter (fun q => q ++ [dml]) idx byHash) dmls st
      | _ => (st, r)
      end
    end
  end.

Definition singleExec (dmls : list D) (st : St) : St * outcome unit :=
  singleExec_loop NewCausality (replicate workerCount []) dmls st.

(** ** Correctness *)

Definition conflict (d d' : D) : Prop := exists k, k ∈ getKeys d /\ k ∈ getKeys d'.

(** The databases that are not told apart, the effect of a DML on a database, and the DMLs
    that are dispatched. *)
Context `{!Equiv St, !Equivalence (≡@{St})} (apply_dml : D -> St -> St) `{!forall d, Proper ((≡) ==> (≡)) (apply_dml d)}.
Context (good : D -> Prop).

Definition apply_all (l : list D) (st : St) : St := foldl (fun st d => apply_dml d st) st l.

Lemma apply_all_app l l' st : apply_all (l ++ l') st = apply_all l' (apply_all l st).
Proof. apply foldl_app. Qed.

#[local] Instance apply_all_proper l : Proper ((≡) ==> (≡)) (apply_all l).
Proof. induction l as [|d l IH]; intros st st' Hst; [done|]. apply IH. by f_equiv. Qed.

(** DMLs without a common key commute. *)
Context (Hcommute : forall d d' st, good d -> good d' ->
  ~ conflict d d' -> apply_dml d (apply_dml d' st) ≡ apply_dml d' (apply_dml d st)).

Lemma apply_all_move d l st : good d -> Forall good l -> Forall (fun d' => ~ conflict d d') l ->
  apply_all (l ++ [d]) st ≡ apply_all (d :: l) st.
Proof.
  intros Hd. revert st. induction l as [|d' l IH]; intros st Hg Hf; [done|].
  apply Forall_cons_iff in Hf as [Hc Hf]. apply Forall_cons_iff in Hg as [Hd' Hg].
  change (apply_all (l ++ [d]) (apply_dml d' st) ≡ apply_all l (apply_dml d' (apply_dml d st))).
  rewrite IH by done. change (apply_all l (apply_dml d (apply_dml d' st)) ≡ apply_all l (apply_dml d' (apply_dml d st))).
  f_equiv. by apply Hcommute.
Qed.

(** The queues of [n] workers when [w] assigns the items. *)
Definition queues (n : nat) (w : D -> nat) (ds : list D) : list (list D) :=
  (fun i => filter (fun d => w d = i) ds) <$> seq 0 n.

Lemma queues_lookup n w ds i : (i < n)%nat ->
  queues n w ds !! i = Some (filter (fun d => w d = i) ds).
Proof. intros Hi. unfold queues. rewrite list_lookup_fmap, lookup_seq_lt by done. done. Qed.

Lemma filter_first (w : D -> nat) i d q ds :
  filter (fun d => w d = i) ds = d :: q ->
  exists ds1 ds2, ds = ds1 ++ d :: ds2 /\ Forall (fun d' => w d' <> i) ds1 /\ w d = i /\
    q = filter (fun d => w d = i) ds2.
Proof.
  induction ds as [|d' ds IH]; [done|]. rewrite filter_cons. case_decide as Hw.
  - intros [= -> Hq]. exists [], ds. rewrite Hq. by split_and!.
  - intros (ds1 & ds2 & -> & Hf & Hd & Hq)%IH. exists (d' :: ds1), ds2.
    split_and!; [done|by constructor|done|done].
Qed.

Lemma filter_none (w : D -> nat) i ds :
  Forall (fun d => w d <> i) ds -> filter (fun d => w d = i) ds = [].
Proof. induction 1; [done|]. by rewrite filter_cons_False. Qed.

(** Any interleaving of the queues has the effect of the original sequence. *)
Lemma interleave_apply n w ds l st : Forall good ds ->
  (forall d, d ∈ ds -> (w d < n)%nat) ->
  (forall d d', d ∈ ds -> d' ∈ ds -> conflict d d' -> w d = w d') ->
  interleave (queues n w ds) l -> apply_all l st ≡ apply_all ds st.
Proof.
  intros Hgood Hn Hw Hil. remember (queues n w ds) as qs eqn:Eqs. revert ds st Hgood Hn Hw Eqs.
  induction Hil as [qs Hf|i d q qs l Hi Hil IH]; intros ds st Hgood Hn Hw ->.
  - destruct ds as [|d ds]; [done|].
    assert (Hd : (w d < n)%nat) by (apply Hn; by left).
    rewrite list.Forall_forall in Hf.
    assert (Hq : filter (fun d' => w d' = w d) (d :: ds) = []).
    { apply Hf. apply list_elem_of_lookup. exists (w d). by apply queues_lookup. }
    by rewrite filter_cons_True in Hq.
  - assert (Hin : (i < n)%nat).
    { apply lookup_lt_Some in Hi. unfold queues in Hi. by rewrite length_fmap, length_seq in Hi. }
    rewrite queues_lookup in Hi by done. injection Hi as Hi.
    destruct (filter_first _ _ _ _ _ Hi) as (ds1 & ds2 & -> & Hf & Hwd & Hq).
    assert (Hsub : forall d', d' ∈ ds1 ++ ds2 -> d' ∈ ds1 ++ d :: ds2).
    { intros d'. rewrite !elem_of_app, elem_of_cons. tauto. }
    assert (Hnc : Forall (fun d' => ~ conflict d d') ds1).
    { apply list.Forall_forall. intros d' Hd' Hc. rewrite list.Forall_forall in Hf.
      apply (Hf d' Hd'). rewrite <- Hwd. symmetry. apply Hw; [..|done];
        rewrite elem_of_app, ?elem_of_cons; auto. }
    apply Forall_app in Hgood as [Hg1 [Hgd Hg2]%Forall_cons_iff].
    rewrite (cons_middle d ds1 ds2), (assoc_L (++)), apply_all_app, (apply_all_move d ds1 st Hgd Hg1 Hnc).
    change (apply_all l (apply_dml d st) ≡ apply_all ds2 (apply_all ds1 (apply_dml d st))).
    rewrite <- apply_all_app. apply IH; [by apply Forall_app|by auto|by auto|].
    apply list_eq. intros j. destruct (decide (j < n)%nat) as [Hj|Hj].
    + rewrite queues_lookup by done. destruct (decide (j = i)) as [->|Hji].
      * rewrite list_lookup_insert_eq by (unfold queues; by rewrite length_fmap, length_seq).
        rewrite list.filter_app. f_equal. rewrite <- Hq.
        by rewrite (filter_none w i ds1 Hf).
      * rewrite list_lookup_insert_ne by done. rewrite queues_lookup by done. f_equal.
        rewrite !list.filter_app, filter_cons_False; [done|]. congruence.
    + rewrite !lookup_ge_None_2; [done|..]; rewrite ?length_insert; unfold queues;
        rewrite length_fmap, length_seq; lia.
Qed.

(** What the loop maintains in a round in which [ds] was dispatched: the keys of
    each DML share a relation, whose hash is its worker. *)
Definition worker (c : Causality) (n : nat) (d : D) : nat :=
  Z.to_nat (genHashKey (Get (default "" (head (getKeys d))) c) mod Z.of_nat n).

Record round_inv (c : Causality) (byHash : list (list D)) (ds : list D) : Prop := {
  rd_wf : causality_wf c;
  rd_related : forall d, d ∈ ds -> exists r, forall k, k ∈ getKeys d -> relations c !! k = Some r;
  rd_queues : byHash = queues (length byHash) (worker c (length byHash)) ds;
}.

(** Every DML has a key, and no key is empty. *)
Context (Hkeys : forall d, getKeys d <> [] /\ "" ∉ getKeys d).

Lemma Get_head c d r :
  (forall k, k ∈ getKeys d -> relations c !! k = Some r) ->
  Get (default "" (head (getKeys d))) c = r.
Proof.
  intros Hr. destruct (Hkeys d) as [Hne _]. destruct (getKeys d) as [|k ks] eqn:E; [done|].
  unfold Get. simpl. by rewrite Hr by by left.
Qed.

Lemma worker_lt c n d : (0 < n)%nat -> (worker c n d < n)%nat.
Proof.
  intros Hn. unfold worker.
  pose proof (Z.mod_pos_bound (genHashKey (Get (default "" (head (getKeys d))) c)) (Z.of_nat n)). lia.
Qed.

(** Conflicting DMLs of a round have the same worker. *)
Lemma round_conflict c byHash ds n d d' :
  round_inv c byHash ds -> d ∈ ds -> d' ∈ ds -> conflict d d' -> worker c n d = worker c n d'.
Proof.
  intros [_ Hrel _] Hd Hd' (k & Hk & Hk'). unfold worker.
  destruct (Hrel d Hd) as [r Hr], (Hrel d' Hd') as [r' Hr'].
  rewrite (Get_head c d r Hr), (Get_head c d' r' Hr').
  specialize (Hr k Hk). specialize (Hr' k Hk'). congruence.
Qed.

Lemma round_start n : round_inv NewCausality (replicate n []) [].
Proof.
  split; [by apply map_Forall_empty|by intros d ?%not_elem_of_nil|].
  rewrite length_replicate. unfold queues. apply list_eq. intros i.
  destruct (decide (i < n)%nat) as [Hi|Hi].
  - rewrite list_lookup_fmap, lookup_seq_lt by done. by rewrite lookup_replicate_2.
  - rewrite !lookup_ge_None_2; [done|rewrite length_fmap, length_seq; lia|rewrite length_replicate; lia].
Qed.

Lemma fmap_nil_replicate (qs : list (list D)) : (fun _ => @nil D) <$> qs = replicate (length qs) [].
Proof. induction qs as [|q qs IH]; [done|]. simpl. by f_equal. Qed.

(** One DML is added to the queue of its worker. *)
Lemma round_add c c' byHash ds d :
  round_inv c byHash ds -> coherent (getKeys d) c -> Add (getKeys d) c = Ret c' ->
  round_inv c' (alter (fun q => q ++ [d]) (worker c' (length byHash) d) byHash) (ds ++ [d]).
Proof.
  intros [Hwf Hrel Hq] Hco HA. destruct (Hkeys d) as [Hne Hemp].
  destruct (Add_spec _ c Hwf Hco Hne Hemp) as (c1 & r & HA' & Hwf' & Hin & _ & Hold).
  rewrite HA in HA'. injection HA' as <-. set (n := length byHash) in *.
  assert (Hrel' : forall d', d' ∈ ds -> exists r, forall k, k ∈ getKeys d' ->
            relations c !! k = Some r /\ relations c' !! k = Some r).
  { intros d' Hd'. destruct (Hrel d' Hd') as [r' Hr']. exists r'. auto. }
  assert (Hsame : forall d', d' ∈ ds -> worker c' n d' = worker c n d').
  { intros d' Hd'. destruct (Hrel' d' Hd') as [r' Hr']. unfold worker.
    by rewrite (Get_head c d' r'), (Get_head c' d' r') by (intros k Hk; by apply Hr'). }
  split; [done|..].
  - intros d' [Hd'|Hd']%elem_of_app.
    + destruct (Hrel' d' Hd') as [r' Hr']. exists r'. intros k Hk. by apply Hr'.
    + apply list_elem_of_singleton in Hd' as ->. by exists r.
  - rewrite length_alter. fold n. apply list_eq. intros i. destruct (decide (i < n)%nat) as [Hi|Hi].
    + rewrite queues_lookup by done. rewrite list.filter_app.
      assert (Hfe : filter (fun d0 => worker c' n d0 = i) ds = filter (fun d0 => worker c n d0 = i) ds).
      { clear -Hsame. induction ds as [|x ds IH]; [done|].
        assert (Hx : worker c' n x = worker c n x) by (apply Hsame; by left).
        rewrite !filter_cons, Hx, IH by (intros; apply Hsame; by right). done. }
      rewrite Hfe. destruct (decide (worker c' n d = i)) as [<-|Hwi].
      * rewrite list_lookup_alter_eq, Hq, queues_lookup by done. simpl.
        by rewrite (filter_cons_True _ d).
      * rewrite list_lookup_alter_ne, Hq, queues_lookup by done. simpl.
        by rewrite (filter_cons_False _ d), app_nil_r.
    + rewrite !lookup_ge_None_2; [done|..].
      * unfold queues. rewrite length_fmap, length_seq. lia.
      * rewrite length_alter. fold n. lia.
Qed.

(** What is known of [execByHash]: when it succeeds, it has executed the queues
    in some interleaving. *)
Context (Hexec : forall qs st st', Forall (Forall good) qs -> execByHash qs st = (st', Ret tt) ->
  exists l, interleave qs l /\ st' ≡ apply_all l st).

Lemma queues_good n w ds : Forall good ds -> Forall (Forall good) (queues n w ds).
Proof.
  intros Hg. apply Forall_fmap, list.Forall_forall. intros i _. cbn. apply list.Forall_forall. intros d [_ Hd]%list_elem_of_filter.
  by eapply list.Forall_forall in Hg.
Qed.

Lemma round_exec c byHash ds st st' : Forall good ds ->
  round_inv c byHash ds -> byHash <> [] -> execByHash byHash st = (st', Ret tt) -> st' ≡ apply_all ds st.
Proof.
  intros Hg Hinv Hne He. pose proof (rd_queues _ _ _ Hinv) as Hq.
  assert (Hqg : Forall (Forall good) byHash) by (rewrite Hq; by apply queues_good).
  destruct (Hexec _ _ _ Hqg He) as (l & Hil & ->). rewrite Hq in Hil.
  eapply interleave_apply; [done| | |exact Hil].
  - intros d _. apply worker_lt. destruct byHash; [done|simpl; lia].
  - intros d d'. by eapply round_conflict.
Qed.

(** One step of the loop, after the conflict was resolved. *)
Lemma singleExec_loop_spec dmls : forall c byHash ds st st',
  enableCausality = true -> Forall good (ds ++ dmls) -> round_inv c byHash ds -> byHash <> [] ->
  singleExec_loop c byHash dmls st = (st', Ret tt) -> st' ≡ apply_all (ds ++ dmls) st.
Proof.
  induction dmls as [|dml dmls IH]; intros c byHash ds st st' Hcau Hgood Hinv Hne.
  - simpl. rewrite app_nil_r in *. by apply (round_exec c byHash).
  - cbn [singleExec_loop]. destruct (getKeys dml) as [|key keys] eqn:Hk; [done|].
    rewrite <- Hk, Hcau. cbn [andb].
    assert (Hstep : forall c1 q1 ds1 st1, Forall good (ds1 ++ dml :: dmls) -> round_inv c1 q1 ds1 -> q1 <> [] ->
      DetectConflict (getKeys dml) c1 = false ->
      (if (length q1 =? 0)%nat then (st1, Panic)
       else singleExec_loop (match Add (getKeys dml) c1 with Ret c => c | _ => c1 end)
              (alter (fun q => q ++ [dml])
                 (Z.to_nat (genHashKey (Get key (match Add (getKeys dml) c1 with Ret c => c | _ => c1 end))
                    mod len q1)) q1) dmls st1) = (st', Ret tt) ->
      st' ≡ apply_all (ds1 ++ dml :: dmls) st1).
    { intros c1 q1 ds1 st1 Hg1 Hinv1 Hne1 Hdet Hloop.
      apply DetectConflict_coherent in Hdet; [|apply Hinv1]. destruct (Hkeys dml) as [Hkne Hemp].
      destruct (Add_spec _ c1 (rd_wf _ _ _ Hinv1) Hdet Hkne Hemp) as (c2 & r & HA & _).
      rewrite HA in Hloop. destruct (length q1 =? 0)%nat; [done|].
      rewrite cons_middle, (assoc_L (++)) in Hg1 |- *. eapply IH; [done|done|..|exact Hloop].
      - pose proof (round_add _ _ _ _ _ Hinv1 Hdet HA) as Hr. unfold worker in Hr. by rewrite Hk in Hr.
      - intros Hnil%(f_equal length). rewrite length_alter in Hnil. by destruct q1. }
    apply Forall_app in Hgood as Hgood'. destruct Hgood' as [Hg Hg'].
    destruct (DetectConflict (getKeys dml) c) eqn:Hdet; simpl.
    + destruct (execByHash byHash st) as [st1 [[]|e|]] eqn:He; simpl; [|done|done].
      intros Hloop. rewrite apply_all_app. etrans; [|apply apply_all_proper; by apply (round_exec c byHash)].
      apply (Hstep (Reset c) ((fun _ => []) <$> byHash) []); [done|..|exact Hloop].
      * rewrite fmap_nil_replicate. apply round_start.
      * destruct byHash; done.
      * apply DetectConflict_coherent; [apply map_Forall_empty|]. intros k k' v v' _ _ Hv.
        simpl in Hv. by rewrite lookup_empty in Hv.
    + intros Hloop. by apply (Hstep c byHash).
Qed.

(** The same for the whole dispatch. *)
Lemma singleExec_spec dmls st st' : enableCausality = true -> (0 < workerCount)%nat -> Forall good dmls ->
  singleExec dmls st = (st', Ret tt) -> st' ≡ apply_all dmls st.
Proof.
  intros Hcau Hn Hg Hex. eapply (singleExec_loop_spec dmls _ _ []); [done|done|apply round_start| |exact Hex].
  by destruct workerCount; [lia|].
Qed.

Lemma singleExec_loop_total dmls : forall c byHash st,
  (forall qs st, snd (execByHash qs st) = Ret tt) -> byHash <> [] ->
  snd (singleExec_loop c byHash dmls st) = Ret tt.
Proof.
  induction dmls as [|dml dmls IH]; intros c byHash st Hok Hne; simpl; [apply Hok|].
  destruct (Hkeys dml) as [Hkne _]. destruct (getKeys dml) as [|key keys]; [done|].
  assert (Halt : forall i (q1 : list (list D)), q1 <> [] -> alter (fun q => q ++ [dml]) i q1 <> []).
  { intros i q1 Hq1 Hnil%(f_equal length). rewrite length_alter in Hnil. by destruct q1. }
  destruct (enableCausality && DetectConflict (key :: keys) c); simpl.
  - pose proof (Hok byHash st) as Hr. destruct (execByHash byHash st) as [st1 r]. simpl in Hr. subst r.
    destruct byHash as [|q qs]; [done|]. simpl. apply IH; [done|]. by apply (Halt _ ([] :: _)).
  - destruct byHash as [|q qs]; [done|]. simpl. apply IH; [done|]. by apply (Halt _ (q :: qs)).
Qed.

(** What every execution of queues of the dispatched DMLs keeps, the whole dispatch keeps,
    also when it fails. *)
Lemma singleExec_keeps (P : D -> Prop) (I : St -> Prop) dmls :
  (forall qs st, Forall (Forall P) qs -> I st -> I (fst (execByHash qs st))) ->
  Forall P dmls -> forall st, I st -> I (fst (singleExec dmls st)).
Proof.
  intros HI. unfold singleExec. assert (HQ : Forall (Forall P) (replicate workerCount [])) by (apply Forall_replicate, Forall_nil; done).
  revert HQ. generalize NewCausality. generalize (replicate workerCount (@nil D)).
  induction dmls as [|dml dmls IH]; intros byHash c HQ Hd st Hst; cbn [singleExec_loop]; [by apply HI|].
  apply Forall_cons_iff in Hd as [Hp Hd]. destruct (getKeys dml) as [|key keys]; [done|].
  assert (Hadd : forall i (q1 : list (list D)), Forall (Forall P) q1 -> Forall (Forall P) (alter (fun q => q ++ [dml]) i q1)).
  { intros i q1 Hq1. apply Forall_alter; [done|]. intros q _ Hq. apply Forall_app. by repeat constructor. }
  destruct (enableCausality && _).
  - pose proof (HI byHash st HQ Hst) as H1. destruct (execByHash byHash st) as [st1 [[]|e|]]; [|done|done].
    destruct (_ =? 0)%nat; [done|]. apply IH; [|done|done]. apply Hadd. apply Forall_fmap. by apply list.Forall_forall; constructor.
  - destruct (_ =? 0)%nat; [done|]. apply IH; [by apply Hadd|done|done].
Qed.

(** C24: Concurrent execution is sequential: with causality enabled, whenever the
    dispatch of a list of DMLs succeeds, the database is as if the DMLs had been
    executed one after the other, for every interleaving of the workers, if DMLs
    without a common key commute; and the dispatch succeeds whenever the workers do. *)
Theorem singleExec_sequential dmls st :
  enableCausality = true -> (0 < workerCount)%nat -> Forall good dmls ->
  (forall st', singleExec dmls st = (st', Ret tt) -> st' ≡ apply_all dmls st) /\
  ((forall qs st, snd (execByHash qs st) = Ret tt) -> snd (singleExec dmls st) = Ret tt).
Proof.
  intros Hcau Hn Hg. split; [intros st'; by apply singleExec_spec|]. intros Hok.
  apply singleExec_loop_total; [done|]. by destruct workerCount; [lia|].
Qed.

End Dispatch.

(** ** A concrete database
    Rows are written under all their keys; the workers run one after the other. *)
Module DispatchExamples.

Record row_dml := mkRow { row_keys : list string; row_value : Z }.

(** Every DML has at least the key of its table. *)
Definition keys_of (d : row_dml) : list string :=
  ("t" +:+ default "" (head (row_keys d))) :: (fmap (String.append "k") (row_keys d)).

Definition write (d : row_dml) (st : gmap string Z) : gmap string Z :=
  list_to_map ((fun k => (k, row_value d)) <$> keys_of d) ∪ st.

Definition run_queues (qs : list (list row_dml)) (st : gmap string Z) : gmap string Z * outcome unit :=
  (apply_all write (concat qs) st, Ret tt).

#[local] Instance same_map : Equiv (gmap string Z) := (=).
Definition any (d : row_dml) : Prop := True.

Lemma write_lookup d k : (list_to_map ((fun k => (k, row_value d)) <$> keys_of d) : gmap string Z) !! k
  = if decide (k ∈ keys_of d) then Some (row_value d) else None.
Proof.
  induction (keys_of d) as [|k' ks IH]; cbn [fmap list_fmap list_to_map foldr fst snd]; [done|].
  destruct (decide (k = k')) as [->|Hne].
  - rewrite lookup_insert_eq, decide_True by by left. done.
  - rewrite lookup_insert_ne, IH by done. apply decide_ext. rewrite elem_of_cons. tauto.
Qed.

Lemma write_commute d d' st : any d -> any d' ->
  ~ conflict keys_of d d' -> write d (write d' st) ≡ write d' (write d st).
Proof.
  intros _ _ Hnc. unfold write. rewrite !(assoc_L (∪)). f_equal. apply map_union_comm.
  apply map_disjoint_spec. intros k v v'. rewrite !write_lookup.
  repeat case_decide; try done. intros _ _. apply Hnc. by exists k.
Qed.

Lemma keys_ok d : keys_of d <> [] /\ "" ∉ keys_of d.
Proof.
  split; [done|]. unfold keys_of. rewrite not_elem_of_cons. split; [done|].
  by intros (k & ? & _)%list_elem_of_fmap.
Qed.

Lemma run_queues_ok qs st st' : Forall (Forall any) qs ->
  run_queues qs st = (st', Ret tt) -> exists l, interleave qs l /\ st' ≡ apply_all write l st.
Proof. intros _ [= <-]. exists (concat qs). split; [apply interleave_concat|done]. Qed.

(** The second DML shares keys with the first, the fourth with two workers. *)
Definition dmls : list row_dml :=
  [mkRow ["a"] 1; mkRow ["a"; "b"] 2; mkRow ["c"] 3; mkRow ["b"; "c"] 4; mkRow ["d"] 5].

Lemma singleExec_sequential_witness :
  singleExec keys_of run_queues 4 true dmls ∅ = (apply_all write dmls ∅, Ret tt).
Proof.
  assert (Hp : forall d, Proper ((≡) ==> (≡)) (write d)) by (intros d st st' Hst; by rewrite Hst).
  assert (Hg : Forall any dmls) by by apply list.Forall_forall.
  destruct (singleExec_sequential keys_of run_queues 4 true write any write_commute keys_ok run_queues_ok
              dmls ∅ eq_refl ltac:(lia) Hg) as [Hs Ht].
  specialize (Ht (fun qs st => eq_refl)). destruct (singleExec keys_of run_queues 4 true dmls ∅) as [st' r].
  cbn [snd] in Ht. subst r. by rewrite (Hs st' eq_refl).
Defined.

(** The relations after the first two DMLs and the conflict of the fourth. *)
Definition c2 : Causality :=
  match Add (keys_of (mkRow ["a"; "b"] 2)) (match Add (keys_of (mkRow ["a"] 1)) NewCausality with Ret c => c | _ => NewCausality end)
  with Ret c => match Add (keys_of (mkRow ["c"] 3)) c with Ret c => c | _ => c end | _ => NewCausality end.

Lemma causality_exact_witness :
  DetectConflict ["kb"; "kc"] c2 = true /\
  Add ["kb"; "kc"] c2 = Fail (Err "some conflicts in causality, must be resolved").
Proof.
  assert (Hd : DetectConflict ["kb"; "kc"] c2 = true) by (vm_compute; reflexivity).
  split; [exact Hd|]. apply causality_exact; [|done| |exact Hd].
  - apply (bool_decide_unpack _). vm_compute. exact I.
  - apply (bool_decide_unpack _). vm_compute. exact I.
Defined.

End DispatchExamples.
