(* ===== verification/LoaderModel.v ===== *)
(** * LoaderModel
    The data of the loader and the statements it builds: [pkg/loader/model.go]
    and the quoting, hashing and splitting helpers of [pkg/loader/util.go]. *)
From Stdlib Require Import Init.Byte Strings.Byte Ascii SpecFloat.
From stdpp Require Import base option list gmap strings sorting.
From S2P Require Import Prelude Causality.

(** [strings.Join(l, sep)]. *)
Fixpoint join (sep : string) (l : list string) : string :=
  match l with
  | [] => ""
  | [s] => s
  | s :: l => s +:+ sep +:+ join sep l
  end.

(** A Go map read: the zero value of [interface{}] if the key is absent. *)
Definition at_key (m : gmap string value) (k : string) : value := default VNil (m !! k).

(** ** Tables *)

Record indexInfo := mkIndex { index_name : string; index_columns : list string }.

Record tableInfo := mkTable {
  columns : list string;
  primaryKey : option indexInfo;
  uniqueKeys : list indexInfo;   (** the primary key first, if there is one *)
}.

Inductive DMLType := UnknownDMLType | InsertDMLType | UpdateDMLType | DeleteDMLType.

#[export] Instance DMLType_eq_dec : EqDecision DMLType.
Proof. solve_decision. Defined.

Record DML := mkDML {
  Database : string;
  Table : string;
  DML_Tp : DMLType;
  OldValues : gmap string value;
  Values : gmap string value;
  info : tableInfo;
}.

Record DDL := mkDDL {
  DDL_Database : string;
  DDL_Table : string;
  SQL : string;
  ShouldSkip : bool;
}.

(** [Meta] is what the client keeps in [Metadata]. *)
Record Txn {Meta : Type} := mkTxn {
  DMLs : list DML;
  Txn_DDL : option DDL;
  AppliedTS : Z;
  Metadata : option Meta;
}.
Arguments Txn : clear implicits.
Arguments mkTxn {Meta}.

Definition AppendDML {Meta} (dml : DML) (t : Txn Meta) : Txn Meta :=
  mkTxn (DMLs t ++ [dml]) (Txn_DDL t) (AppliedTS t) (Metadata t).

Definition NewDDLTxn {Meta} (db table sql : string) : Txn Meta :=
  mkTxn [] (Some (mkDDL db table sql false)) 0 None.

Definition isDDL {Meta} (t : Txn Meta) : bool := match Txn_DDL t with Some _ => true | None => false end.

(** ** Quoting *)

Definition backquote : ascii := "`"%char.

Fixpoint escapeName (name : string) : string :=
  match name with
  | "" => ""
  | String c name =>
    if Ascii.eqb c backquote then String backquote (String backquote (escapeName name))
    else String c (escapeName name)
  end.

Definition quoteName (name : string) : string := "`" +:+ escapeName name +:+ "`".

Definition quoteSchema (schema table : string) : string :=
  "`" +:+ escapeName schema +:+ "`.`" +:+ escapeName table +:+ "`".

Definition TableName (dml : DML) : string := quoteSchema (Database dml) (Table dml).

Definition holderString (n : nat) : string := join "," (replicate n "?").

Definition buildColumnList (names : list string) : string := join "," (quoteName <$> names).

(** ** Keys *)

Definition primaryKeys (dml : DML) : list string :=
  match primaryKey (info dml) with
  | None => []
  | Some pk => index_columns pk
  end.

Definition primaryKeyValues (dml : DML) : list value := at_key (Values dml) <$> primaryKeys dml.

Definition oldPrimaryKeyValues (dml : DML) : list value :=
  if bool_decide (OldValues dml = ∅) then primaryKeyValues dml
  else at_key (OldValues dml) <$> primaryKeys dml.

Fixpoint update_loop (values oldValues : list value) : outcome bool :=
  match values, oldValues with
  | v :: values, w :: oldValues =>
    let! neq := value_neq v w in
    if neq : bool then Ret true else update_loop values oldValues
  | [], _ => Ret false
  | _ :: _, [] => Panic
  end.

Definition updateKey (dml : DML) : outcome bool :=
  if bool_decide (OldValues dml = ∅) then Ret false
  else update_loop (primaryKeyValues dml) (oldPrimaryKeyValues dml).

Section Format.
(** How [fmt] prints a floating-point number of a width in bits. *)
Context (fmt_float : Z -> spec_float -> string).

(** The verb [%v]. *)
Definition fmt_value (v : value) : string :=
  match v with
  | VNil => "<nil>"
  | VInt64 z | VUint64 z => itoa z
  | VFloat f => fmt_float 32 f
  | VDouble f => fmt_float 64 f
  | VBytes b => "[" +:+ join " " ((fun c => itoa (byte_to_Z c)) <$> b) +:+ "]"
  | VString s => s
  end.

Definition formatKey (values : list value) : string := join "--" (fmt_value <$> values).

Definition DML_formatKey (dml : DML) : string := formatKey (primaryKeyValues dml).

Fixpoint getKey (names : list string) (values : gmap string value) : string :=
  match names with
  | [] => ""
  | name :: names =>
    let v := at_key values name in
    (if is_nil v then "" else "(" +:+ name +:+ ": " +:+ fmt_value v +:+ ")") +:+ getKey names values
  end.

(** The keys of the unique indexes in a row, tagged with the table. *)
Definition index_keys (tableName : string) (indexes : list indexInfo) (values : gmap string value)
    : list string :=
  omap (fun index =>
    let key := getKey (index_columns index) values in
    if (0 <? String.length key)%nat then Some (key +:+ tableName) else None) indexes.

(** The key of a row without a unique key: a hash of the row. *)
Definition row_key (tableName : string) (cols : list string) (values : gmap string value) : string :=
  itoa (genHashKey (getKey cols values +:+ tableName)).

Definition is_update (dml : DML) : bool := bool_decide (DML_Tp dml = UpdateDMLType).

Definition getKeys (dml : DML) : list string :=
  let tableName := TableName dml in
  let newKeys := index_keys tableName (uniqueKeys (info dml)) (Values dml) in
  let oldKeys := if is_update dml
                 then index_keys tableName (uniqueKeys (info dml)) (OldValues dml) else [] in
  newKeys ++ oldKeys ++
  (if (length newKeys =? 0)%nat then [row_key tableName (columns (info dml)) (Values dml)] else []) ++
  (if is_update dml && (length oldKeys =? 0)%nat
   then [row_key tableName (columns (info dml)) (OldValues dml)] else []).

End Format.

(** ** Statements *)

Definition string_le (s t : string) : Prop := String.leb s t = true.
#[export] Instance string_le_dec s t : Decision (string_le s t) := decide (_ = true).

Definition columnNames (dml : DML) : list string :=
  merge_sort string_le (map_to_list (Values dml)).*1.

Definition whereValues (names : list string) (dml : DML) : list value :=
  let valueMap := if is_update dml then OldValues dml else Values dml in
  at_key valueMap <$> names.

(** The loop over the unique keys of [whereSlice]. *)
Fixpoint where_index (indexes : list indexInfo) (dml : DML) : option (list string * list value) :=
  match indexes with
  | [] => None
  | index :: indexes =>
    let values := whereValues (index_columns index) dml in
    if forallb (fun v => negb (is_nil v)) values then Some (index_columns index, values)
    else where_index indexes dml
  end.

Definition whereSlice (dml : DML) : list string * list value :=
  match where_index (uniqueKeys (info dml)) dml with
  | Some r => r
  | None => (columnNames dml, whereValues (columnNames dml) dml)
  end.

Definition where_clause (name : string) (v : value) : string :=
  if is_nil v then quoteName name +:+ " IS NULL" else quoteName name +:+ " = ?".

Definition buildWhere (dml : DML) : string * list value :=
  let '(wnames, wargs) := whereSlice dml in
  (join " AND " (zip_with where_clause wnames wargs), filter (fun v => is_nil v = false) wargs).

Definition updateSQL (dml : DML) : string * list value :=
  let names := columnNames dml in
  let '(cond, whereArgs) := buildWhere dml in
  ("UPDATE " +:+ TableName dml +:+ " SET " +:+
     join "," ((fun name => quoteName name +:+ " = ?") <$> names) +:+
     " WHERE " +:+ cond +:+ " LIMIT 1",
   (at_key (Values dml) <$> names) ++ whereArgs).

Definition deleteSQL (dml : DML) : string * list value :=
  let '(cond, args) := buildWhere dml in
  ("DELETE FROM " +:+ TableName dml +:+ " WHERE " +:+ cond +:+ " LIMIT 1", args).

Definition replaceSQL (dml : DML) : string * list value :=
  let names := columnNames dml in
  ("REPLACE INTO " +:+ TableName dml +:+ "(" +:+ buildColumnList names +:+ ") VALUES(" +:+
     holderString (length names) +:+ ")",
   at_key (Values dml) <$> names).

(** [strings.Replace(s, old, new, 1)]. *)
Fixpoint replace_first (old new s : string) : string :=
  if String.prefix old s then new +:+ String.substring (String.length old) (String.length s) s
  else match s with
       | "" => ""
       | String c s => String c (replace_first old new s)
       end.

Definition insertSQL (dml : DML) : string * list value :=
  let '(sql, args) := replaceSQL dml in (replace_first "REPLACE" "INSERT" sql, args).

Definition DML_sql (dml : DML) : string * list value :=
  match DML_Tp dml with
  | InsertDMLType => insertSQL dml
  | UpdateDMLType => updateSQL dml
  | DeleteDMLType => deleteSQL dml
  | UnknownDMLType => ("", [])
  end.

(** [bulkReplace] of the executor: the statement for a batch of rows of one table. *)
Definition bulkReplaceSQL (inserts : list DML) : option (string * list value) :=
  match inserts with
  | [] => None
  | insert0 :: _ =>
    let cols := columns (info insert0) in
    Some ("REPLACE INTO " +:+ TableName insert0 +:+ "(" +:+ buildColumnList cols +:+ ")" +:+
            " VALUES " +:+
            join "," (replicate (length inserts) ("(" +:+ holderString (length cols) +:+ ")")),
          concat ((fun insert => at_key (Values insert) <$> cols) <$> inserts))
  end.

(** [bulkDelete]: one statement per row, each ended by a semicolon. *)
Definition bulkDeleteSQL (deletes : list DML) : option (string * list value) :=
  match deletes with
  | [] => None
  | _ =>
    let sqls := DML_sql <$> deletes in
    Some (foldr (fun s acc => s.1 +:+ ";" +:+ acc) "" sqls, concat (snd <$> sqls))
  end.

(** [splitDMLs(dmls, size)] for a positive size; with size 0 the loop does not
    advance. *)
Fixpoint split_loop {A} (fuel : nat) (size : nat) (dmls : list A) : list (list A) :=
  match fuel, dmls with
  | O, _ | _, [] => []
  | S fuel, _ => take size dmls :: split_loop fuel size (drop size dmls)
  end.

Definition splitDMLs {A} (dmls : list A) (size : nat) : list (list A) :=
  split_loop (length dmls) size dmls.

(** ** Quoting round trip *)

#[local] Arguments String.append : simpl nomatch.

Lemma append_assoc (a b c : string) : (a +:+ b) +:+ c = a +:+ (b +:+ c).
Proof. induction a as [|x a IH]; [done|]. simpl. by rewrite IH. Qed.

Lemma append_nil_r (a : string) : a +:+ "" = a.
Proof. induction a as [|x a IH]; [done|]. simpl. by rewrite IH. Qed.

(** Reads an escaped name up to its closing quote. *)
Fixpoint unescape (s : string) : option (string * string) :=
  match s with
  | "" => None
  | String c s' =>
    if Ascii.eqb c backquote then
      match s' with
      | String c' s'' =>
        if Ascii.eqb c' backquote then '(n, r) ← unescape s''; Some (String c n, r)
        else Some ("", s')
      | "" => Some ("", "")
      end
    else '(n, r) ← unescape s'; Some (String c n, r)
  end.

Definition starts_quoted (s : string) : bool :=
  match s with String c _ => Ascii.eqb c backquote | "" => false end.

Lemma unescape_escapeName n rest : starts_quoted rest = false ->
  unescape (escapeName n +:+ "`" +:+ rest) = Some (n, rest).
Proof.
  intros Hr. induction n as [|c n IH]; cbn [escapeName].
  - destruct rest as [|c rest]; [done|]. simpl in *. by rewrite Hr.
  - destruct (Ascii.eqb c backquote) eqn:Hc.
    + apply Ascii.eqb_eq in Hc as ->. simpl in *. by rewrite IH.
    + simpl in *. by rewrite Hc, IH.
Qed.

(** The two names of a quoted table name. *)
Definition parse_schema (s : string) : option (string * string) :=
  match s with
  | String c s =>
    if Ascii.eqb c backquote then
      '(a, r) ← unescape s;
      match r with
      | String d (String c' r) =>
        if Ascii.eqb d "."%char && Ascii.eqb c' backquote then
          '(b, r) ← unescape r; if bool_decide (r = "") then Some (a, b) else None
        else None
      | _ => None
      end
    else None
  | "" => None
  end.

Lemma parse_quoteSchema schema table : parse_schema (quoteSchema schema table) = Some (schema, table).
Proof.
  unfold quoteSchema, parse_schema.
  change ("`" +:+ (escapeName schema +:+ "`.`" +:+ escapeName table +:+ "`"))
    with (String backquote (escapeName schema +:+ "`" +:+ (".`" +:+ escapeName table +:+ "`"))).
  cbn [Ascii.eqb Bool.eqb]. rewrite unescape_escapeName by done. simpl.
  pose proof (unescape_escapeName table "" eq_refl) as H. simpl in H. by rewrite H.
Qed.

(** A quoted table name identifies the table: schema and table can be read
    back from [quoteSchema], whatever characters they contain, so the maps that
    use it as a key (table infos, batches by table, causality keys) never confuse
    two tables. *)
Theorem quoteSchema_roundtrip schema table :
  parse_schema (quoteSchema schema table) = Some (schema, table) /\
  forall schema' table', quoteSchema schema table = quoteSchema schema' table' ->
    schema = schema' /\ table = table'.
Proof.
  split; [apply parse_quoteSchema|]. intros schema' table' Heq%(f_equal parse_schema).
  rewrite !parse_quoteSchema in Heq. by simplify_eq.
Qed.

(** ** Placeholders *)

Fixpoint holders (s : string) : nat :=
  match s with
  | "" => 0
  | String c s => (if Ascii.eqb c "?"%char then 1 else 0) + holders s
  end%nat.

Lemma holders_app s t : holders (s +:+ t) = (holders s + holders t)%nat.
Proof. induction s as [|c s IH]; [done|]. simpl. rewrite IH. lia. Qed.

Lemma holders_join sep l : holders sep = 0%nat -> holders (join sep l) = sum_list_with holders l.
Proof.
  intros Hs. induction l as [|s [|s' l] IH]; [done|simpl; lia|].
  change (join sep (s :: s' :: l)) with (s +:+ sep +:+ join sep (s' :: l)).
  rewrite !holders_app, IH, Hs. simpl. lia.
Qed.

Lemma holders_escapeName n : holders n = 0%nat -> holders (escapeName n) = 0%nat.
Proof.
  induction n as [|c n IH]; [done|]. simpl. intros Hn.
  assert (holders (escapeName n) = 0%nat) by (apply IH; lia).
  destruct (Ascii.eqb c backquote); simpl in *; lia.
Qed.

Lemma holders_quoteName n : holders n = 0%nat -> holders (quoteName n) = 0%nat.
Proof. intros Hn. unfold quoteName. rewrite !holders_app, holders_escapeName by done. done. Qed.

(** The names of a statement contain no question mark. *)
Definition plain (n : string) : Prop := holders n = 0%nat.

Record plain_dml (dml : DML) : Prop := {
  plain_db : plain (Database dml);
  plain_table : plain (Table dml);
  plain_values : map_Forall (fun n _ => plain n) (Values dml);
  plain_columns : Forall plain (columns (info dml));
  plain_indexes : Forall (fun ix => Forall plain (index_columns ix)) (uniqueKeys (info dml));
}.

Lemma holders_TableName dml : plain_dml dml -> holders (TableName dml) = 0%nat.
Proof.
  intros Hp. unfold TableName, quoteSchema.
  rewrite !holders_app, !holders_escapeName by apply Hp. done.
Qed.

Lemma sum_const {A} (f : A -> nat) l c :
  Forall (fun x => f x = c) l -> sum_list_with f l = (length l * c)%nat.
Proof. induction 1; simpl; lia. Qed.

Lemma columnNames_plain dml : plain_dml dml -> Forall plain (columnNames dml).
Proof.
  intros Hp. unfold columnNames. apply list.Forall_forall. intros n Hn.
  rewrite merge_sort_Permutation in Hn. apply list_elem_of_fmap in Hn as ([n' v] & -> & Hin).
  apply elem_of_map_to_list in Hin. by apply (plain_values _ Hp) in Hin.
Qed.

Lemma holders_names names : Forall plain names -> sum_list_with holders (quoteName <$> names) = 0%nat.
Proof.
  intros Hf. rewrite (sum_const _ _ 0); [lia|]. apply list.Forall_fmap.
  eapply list.Forall_impl; [exact Hf|]. intros n Hn. by apply holders_quoteName.
Qed.

Lemma holders_holderString n : holders (holderString n) = n.
Proof.
  unfold holderString. rewrite holders_join by done. rewrite (sum_const _ _ 1).
  - rewrite length_replicate. lia.
  - apply list.Forall_forall. intros s Hs. by apply elem_of_replicate in Hs as [-> _].
Qed.

Lemma holders_columnList names : Forall plain names -> holders (buildColumnList names) = 0%nat.
Proof. intros Hf. unfold buildColumnList. rewrite holders_join by done. by apply holders_names. Qed.

Lemma whereSlice_spec dml :
  (whereSlice dml).2 = whereValues (whereSlice dml).1 dml /\
  ((exists ix, ix ∈ uniqueKeys (info dml) /\ (whereSlice dml).1 = index_columns ix /\
      Forall (fun v => v <> VNil) (whereSlice dml).2) \/
   (whereSlice dml).1 = columnNames dml).
Proof.
  unfold whereSlice. destruct (where_index (uniqueKeys (info dml)) dml) as [[names vals]|] eqn:E;
    [|by split; [|right]].
  enough (vals = whereValues names dml /\ exists ix, ix ∈ uniqueKeys (info dml) /\
            names = index_columns ix /\ Forall (fun v => v <> VNil) vals) as [? ?] by by split; [|left].
  induction (uniqueKeys (info dml)) as [|ix ixs IH]; [done|]. simpl in E.
  destruct (forallb _ _) eqn:Hf.
  - injection E as <- <-. split; [done|]. exists ix. split; [by left|]. split; [done|].
    apply list.Forall_forall. intros v Hv ->. rewrite forallb_forall in Hf.
    by specialize (Hf VNil (proj1 (list_elem_of_In _ _) Hv)).
  - destruct (IH E) as [? (ix' & ? & ?)]. split; [done|]. exists ix'. split; [by right|done].
Qed.

Lemma holders_where names vals : Forall plain names -> length names = length vals ->
  sum_list_with holders (zip_with where_clause names vals) =
  length (filter (fun v => is_nil v = false) vals).
Proof.
  intros Hf. revert vals. induction Hf as [|n names Hn Hf IH]; intros [|v vals] Hl; simplify_eq/=; [done|].
  rewrite IH by lia. unfold where_clause.
  destruct (is_nil v) eqn:Ev; rewrite holders_app, holders_quoteName by done; simpl.
  - by rewrite filter_cons_False by by rewrite Ev.
  - by rewrite filter_cons_True.
Qed.

Lemma holders_buildWhere dml : plain_dml dml ->
  holders (buildWhere dml).1 = length (buildWhere dml).2.
Proof.
  intros Hp. destruct (whereSlice_spec dml) as [Hv Hn]. unfold buildWhere.
  destruct (whereSlice dml) as [names vals]. simpl in *.
  rewrite holders_join by done. apply holders_where.
  - destruct Hn as [(ix & Hix & -> & _)| ->]; [|by apply columnNames_plain].
    pose proof (plain_indexes _ Hp) as Hi. rewrite list.Forall_forall in Hi. by apply Hi.
  - rewrite Hv. unfold whereValues. by rewrite length_fmap.
Qed.

Lemma prefix_append s t : String.prefix s (s +:+ t) = true.
Proof. induction s as [|c s IH]; simpl; [by destruct t|]. by destruct (ascii_dec c c). Qed.

Lemma substring_all s n : (String.length s <= n)%nat -> String.substring 0 n s = s.
Proof.
  revert n. induction s as [|c s IH]; intros [|n] Hn; simpl in *; try done; try lia.
  by rewrite IH by lia.
Qed.

Lemma substring_append s t n : (String.length t <= n)%nat ->
  String.substring (String.length s) n (s +:+ t) = t.
Proof. induction s as [|c s IH]; simpl; [apply substring_all|done]. Qed.

Lemma length_append s t : String.length (s +:+ t) = (String.length s + String.length t)%nat.
Proof. induction s as [|c s IH]; [done|]. simpl. by rewrite IH. Qed.

Lemma replace_first_prefix old new s : replace_first old new (old +:+ s) = new +:+ s.
Proof.
  assert (Hs : String.substring (String.length old) (String.length (old +:+ s)) (old +:+ s) = s).
  { apply substring_append. rewrite length_append. lia. }
  pose proof (prefix_append old s) as Hp.
  destruct (old +:+ s) as [|c s'] eqn:E; unfold replace_first; rewrite Hp, Hs; done.
Qed.

(** [INSERT] replaces the verb, even if a name contains the word [REPLACE]. *)
Lemma insertSQL_eq dml : insertSQL dml =
  ("INSERT INTO " +:+ TableName dml +:+ "(" +:+ buildColumnList (columnNames dml) +:+ ") VALUES(" +:+
     holderString (length (columnNames dml)) +:+ ")",
   at_key (Values dml) <$> columnNames dml).
Proof.
  unfold insertSQL, replaceSQL. f_equal.
  exact (replace_first_prefix "REPLACE" "INSERT" (" INTO " +:+ _)).
Qed.

Lemma holders_replaceSQL dml : plain_dml dml ->
  holders (replaceSQL dml).1 = length (replaceSQL dml).2 /\
  holders (insertSQL dml).1 = length (insertSQL dml).2.
Proof.
  intros Hp. pose proof (columnNames_plain dml Hp) as Hc. rewrite insertSQL_eq.
  unfold replaceSQL. cbn [fst snd].
  rewrite !holders_app, holders_TableName, holders_columnList, holders_holderString, length_fmap by done.
  split; simpl; lia.
Qed.

Lemma holders_updateSQL dml : plain_dml dml -> holders (updateSQL dml).1 = length (updateSQL dml).2.
Proof.
  intros Hp. pose proof (columnNames_plain dml Hp) as Hc. pose proof (holders_buildWhere dml Hp) as Hw.
  unfold updateSQL. destruct (buildWhere dml) as [cond args]. cbn [fst snd] in *.
  rewrite !holders_app, holders_TableName, holders_join, Hw, length_app, length_fmap by done.
  rewrite (sum_const _ _ 1); [rewrite length_fmap; simpl; lia|].
  apply list.Forall_fmap. eapply list.Forall_impl; [exact Hc|]. intros n Hn.
  change (holders (quoteName n +:+ " = ?") = 1%nat). by rewrite holders_app, holders_quoteName.
Qed.

Lemma holders_deleteSQL dml : plain_dml dml -> holders (deleteSQL dml).1 = length (deleteSQL dml).2.
Proof.
  intros Hp. pose proof (holders_buildWhere dml Hp) as Hw.
  unfold deleteSQL. destruct (buildWhere dml) as [cond args]. cbn [fst snd] in *.
  rewrite !holders_app, holders_TableName, Hw by done. simpl. lia.
Qed.

Lemma holders_sql dml : plain_dml dml -> holders (DML_sql dml).1 = length (DML_sql dml).2.
Proof.
  intros Hp. unfold DML_sql. destruct (DML_Tp dml); [done|by apply holders_replaceSQL|..].
  - by apply holders_updateSQL.
  - by apply holders_deleteSQL.
Qed.

Lemma length_concat_const {A} (l : list (list A)) n :
  Forall (fun x => length x = n) l -> length (concat l) = (length l * n)%nat.
Proof. induction 1; simpl; [done|]. rewrite length_app. lia. Qed.

Lemma Some_pair_inv {A B} (a c : A) (b d : B) : Some (a, b) = Some (c, d) -> a = c /\ b = d.
Proof. by intros [= -> ->]. Qed.

(** Every statement the loader builds has as many placeholders as arguments:
    the statement of a DML, its REPLACE form for the safe mode, and the batched
    REPLACE and DELETE statements, for names without a question mark. *)
Theorem sql_placeholders dml dmls :
  Forall plain_dml (dml :: dmls) ->
  holders (DML_sql dml).1 = length (DML_sql dml).2 /\
  holders (replaceSQL dml).1 = length (replaceSQL dml).2 /\
  (forall s args, bulkReplaceSQL (dml :: dmls) = Some (s, args) -> holders s = length args) /\
  (forall s args, bulkDeleteSQL (dml :: dmls) = Some (s, args) -> holders s = length args).
Proof.
  intros Hf. pose proof Hf as [Hp _]%Forall_cons_iff.
  split; [by apply holders_sql|]. split; [exact (proj1 (holders_replaceSQL dml Hp))|]. split.
  - intros s args Heq. unfold bulkReplaceSQL in Heq. apply Some_pair_inv in Heq as [<- <-].
    set (cols := columns (info dml)).
    rewrite !holders_app, holders_TableName, holders_columnList, holders_join by (done || apply Hp).
    rewrite (sum_const _ _ (length cols)).
    + rewrite length_replicate, (length_concat_const _ (length cols)).
      * rewrite length_fmap. simpl. lia.
      * apply list.Forall_fmap, list.Forall_forall. intros d _. simpl. by rewrite length_fmap.
    + apply list.Forall_forall. intros x Hx. apply elem_of_replicate in Hx as [-> _].
      rewrite !holders_app, holders_holderString. simpl. lia.
  - intros s args Heq. unfold bulkDeleteSQL in Heq. apply Some_pair_inv in Heq as [<- <-].
    change (holders (foldr (fun s acc => s.1 +:+ ";" +:+ acc) "" (DML_sql <$> dml :: dmls)) =
            length (concat (snd <$> (DML_sql <$> dml :: dmls)))).
    induction Hf as [|d ds Hd Hf IH]; [done|]. rewrite !fmap_cons. cbn [foldr concat].
    rewrite !holders_app, length_app, IH, holders_sql by done. simpl. lia.
Qed.

(** ** Causality keys *)
Section Keys.
Context (fmt_float : Z -> spec_float -> string).

Lemma TableName_nonempty dml s : s +:+ TableName dml <> "".
Proof.
  unfold TableName, quoteSchema. intros H%(f_equal String.length).
  rewrite !length_append in H. simpl in H. lia.
Qed.

Lemma itoa_nonneg_nonempty z : 0 <= z -> itoa z <> "".
Proof.
  intros Hz. unfold itoa. destruct (Z.ltb_spec z 0); [lia|]. unfold dec.
  assert (Hd : forall fuel n acc, acc <> "" -> dec_acc fuel n acc <> "").
  { induction fuel as [|fuel IH]; intros n acc Hacc; simpl; [done|].
    destruct (n <? 10); [done|]. by apply IH. }
  generalize 19%nat. intros fuel. cbn [dec_acc]. destruct (z <? 10); [done|]. by apply Hd.
Qed.

Lemma genHashKey_range key : 0 <= genHashKey key.
Proof. apply (crc32_u32 crc_IEEE). unfold in_u32, crc_IEEE. lia. Qed.

Lemma index_keys_nonempty dml ixs values :
  "" ∉ index_keys fmt_float (TableName dml) ixs values.
Proof.
  intros (ix & _ & Hk)%list_elem_of_omap. cbv zeta in Hk. destruct (_ <? _)%nat; [|done].
  injection Hk as Hk. by apply TableName_nonempty in Hk.
Qed.

(** Every DML has a key and no key is empty: what the dispatch relies on. *)
Lemma getKeys_nonempty dml : getKeys fmt_float dml <> [] /\ "" ∉ getKeys fmt_float dml.
Proof.
  unfold getKeys. set (new := index_keys _ _ _ (Values dml)). set (tbl := TableName dml).
  assert (Hrow : forall values, "" <> row_key fmt_float tbl (columns (info dml)) values).
  { intros values Hr. symmetry in Hr. by apply itoa_nonneg_nonempty in Hr; [|apply genHashKey_range]. }
  split.
  - destruct new; simpl; [|done]. by intros [_ ?]%app_eq_nil.
  - rewrite !not_elem_of_app. split; [apply index_keys_nonempty|]. split; [|split].
    + case_match; [apply index_keys_nonempty|apply not_elem_of_nil].
    + case_match; [by rewrite list_elem_of_singleton|apply not_elem_of_nil].
    + case_match; [by rewrite list_elem_of_singleton|apply not_elem_of_nil].
Qed.

(** The rows a DML reads or writes. *)
Definition touches (dml : DML) (row : gmap string value) : Prop :=
  row = Values dml \/ is_update dml = true /\ row = OldValues dml.

Lemma index_keys_mem tbl ixs ix row :
  ix ∈ ixs -> getKey fmt_float (index_columns ix) row <> "" ->
  getKey fmt_float (index_columns ix) row +:+ tbl ∈ index_keys fmt_float tbl ixs row.
Proof.
  intros Hix Hne. apply list_elem_of_omap. exists ix. split; [done|].
  destruct (getKey fmt_float (index_columns ix) row) as [|c k]; [done|]. done.
Qed.

Lemma getKeys_touch dml row ix :
  touches dml row -> ix ∈ uniqueKeys (info dml) -> getKey fmt_float (index_columns ix) row <> "" ->
  getKey fmt_float (index_columns ix) row +:+ TableName dml ∈ getKeys fmt_float dml.
Proof.
  intros [->|[Hu ->]] Hix Hne; unfold getKeys; apply elem_of_app; [left; by apply index_keys_mem|].
  right. apply elem_of_app. left. rewrite Hu. by apply index_keys_mem.
Qed.

Lemma getKey_cong names row row' :
  (forall n, n ∈ names -> at_key row n = at_key row' n) ->
  getKey fmt_float names row = getKey fmt_float names row'.
Proof.
  induction names as [|n names IH]; intros Heq; [done|]. simpl.
  rewrite (Heq n) by by left. rewrite IH; [done|]. intros m Hm. apply Heq. by right.
Qed.

Lemma getKey_nonempty names row n :
  n ∈ names -> at_key row n <> VNil -> getKey fmt_float names row <> "".
Proof.
  induction names as [|m names IH]; [by intros ?%not_elem_of_nil|].
  intros [->|Hin]%elem_of_cons Hn Hk%(f_equal String.length); simpl in Hk; rewrite length_append in Hk.
  - destruct (at_key row m); done.
  - apply (IH Hin Hn). destruct (getKey fmt_float names row); [done|]. simpl in Hk. lia.
Qed.

(** DMLs on the same row are never run concurrently: if two DMLs of a table
    touch rows (old or new) that agree on the columns of a unique index, and not
    all of these are NULL, their causality keys have one in common. *)
Theorem getKeys_conflict d d' ix row row' n :
  TableName d = TableName d' -> ix ∈ uniqueKeys (info d) -> ix ∈ uniqueKeys (info d') ->
  touches d row -> touches d' row' ->
  (forall c, c ∈ index_columns ix -> at_key row c = at_key row' c) ->
  n ∈ index_columns ix -> at_key row n <> VNil ->
  conflict (getKeys fmt_float) d d'.
Proof.
  intros Ht Hix Hix' Htd Htd' Heq Hn Hnn. pose proof (getKey_nonempty _ _ _ Hn Hnn) as Hne.
  exists (getKey fmt_float (index_columns ix) row +:+ TableName d). split.
  - by apply getKeys_touch.
  - rewrite Ht. rewrite (getKey_cong _ _ _ Heq) in *. by apply getKeys_touch.
Qed.

End Keys.

(** ** Splitting into batches *)

Lemma split_loop_spec {A} size fuel (dmls : list A) :
  (0 < size)%nat -> (length dmls <= fuel)%nat ->
  concat (split_loop fuel size dmls) = dmls /\
  Forall (fun b => b <> [] /\ (length b <= size)%nat) (split_loop fuel size dmls).
Proof.
  intros Hs. revert dmls. induction fuel as [|fuel IH]; intros dmls Hl.
  - destruct dmls; [by split|simpl in Hl; lia].
  - destruct dmls as [|d dmls]; [by split|]. cbn [split_loop concat].
    destruct (IH (drop size (d :: dmls))) as [Hc Hf].
    { rewrite length_drop. simpl in *. lia. }
    rewrite Hc, take_drop. split; [done|]. constructor; [|done]. split.
    + destruct size; [lia|done].
    + rewrite length_take. lia.
Qed.

(** [splitDMLs] cuts the DMLs into consecutive, non-empty batches of at most
    [size], without losing or reordering any; with a batch size at least the
    number of DMLs there is a single batch. *)
Theorem splitDMLs_batches {A} (dmls : list A) size :
  (0 < size)%nat ->
  concat (splitDMLs dmls size) = dmls /\
  Forall (fun b => b <> [] /\ (length b <= size)%nat) (splitDMLs dmls size) /\
  ((length dmls <= size)%nat -> dmls <> [] -> splitDMLs dmls size = [dmls]).
Proof.
  intros Hs. unfold splitDMLs.
  destruct (split_loop_spec size (length dmls) dmls Hs) as [Hc Hf]; [lia|].
  split; [done|]. split; [done|]. intros Hl Hne. destruct dmls as [|d dmls]; [done|].
  cbn [length split_loop]. rewrite take_ge by done. rewrite drop_ge by done.
  by destruct (length dmls).
Qed.

(** ** Concrete statements *)
Module LoaderModelExamples.

Definition tbl : tableInfo :=
  let pk := mkIndex "PRIMARY" ["id"] in mkTable ["id"; "name"] (Some pk) [pk; mkIndex "u" ["name"]].

Definition row (id : Z) (name : string) : gmap string value :=
  {[ "id" := VInt64 id; "name" := VString name ]}.

Definition upd : DML := mkDML "d" "t" UpdateDMLType (row 1 "a") (row 1 "b") tbl.
Definition del : DML := mkDML "d" "t" DeleteDMLType ∅ {[ "id" := VInt64 1; "name" := VNil ]} tbl.
Definition ins : DML := mkDML "d" "REPLACE`t" InsertDMLType ∅ (row 2 "c") tbl.

Example update_statement : DML_sql upd =
  ("UPDATE `d`.`t` SET `id` = ?,`name` = ? WHERE `id` = ? LIMIT 1",
   [VInt64 1; VString "b"; VInt64 1]).
Proof. vm_compute. reflexivity. Qed.

Example delete_statement : DML_sql del =
  ("DELETE FROM `d`.`t` WHERE `id` = ? LIMIT 1", [VInt64 1]).
Proof. vm_compute. reflexivity. Qed.

Example insert_statement : DML_sql ins =
  ("INSERT INTO `d`.`REPLACE``t`(`id`,`name`) VALUES(?,?)", [VInt64 2; VString "c"]).
Proof. vm_compute. reflexivity. Qed.

Example update_keys : getKeys (fun _ _ => "") upd =
  ["(id: 1)`d`.`t`"; "(name: b)`d`.`t`"; "(id: 1)`d`.`t`"; "(name: a)`d`.`t`"].
Proof. vm_compute. reflexivity. Qed.

Lemma plain_examples : Forall plain_dml [upd; del; ins].
Proof.
  repeat constructor; try done; apply map_Forall_insert_2; try done; by apply map_Forall_singleton.
Qed.

Lemma sql_placeholders_witness :
  holders (DML_sql upd).1 = length (DML_sql upd).2 /\
  holders (replaceSQL upd).1 = length (replaceSQL upd).2 /\
  (forall s args, bulkReplaceSQL [upd; del; ins] = Some (s, args) -> holders s = length args) /\
  (forall s args, bulkDeleteSQL [upd; del; ins] = Some (s, args) -> holders s = length args).
Proof. apply (sql_placeholders upd [del; ins]), plain_examples. Defined.

(** The insert of a name and the update that frees it share a key. *)
Lemma getKeys_conflict_witness :
  conflict (getKeys (fun _ _ => "")) upd (mkDML "d" "t" InsertDMLType ∅ (row 7 "a") tbl).
Proof.
  apply (getKeys_conflict (fun _ _ => "") upd (mkDML "d" "t" InsertDMLType ∅ (row 7 "a") tbl)
           (mkIndex "u" ["name"]) (row 1 "a") (row 7 "a") "name").
  - reflexivity.
  - right. left.
  - right. left.
  - right. split; reflexivity.
  - left. reflexivity.
  - intros c Hc. apply list_elem_of_singleton in Hc as ->. reflexivity.
  - left.
  - discriminate.
Defined.

Lemma splitDMLs_batches_witness :
  splitDMLs [1; 2; 3; 4; 5] 2 = [[1; 2]; [3; 4]; [5]] /\
  concat (splitDMLs [1; 2; 3; 4; 5] 2) = [1; 2; 3; 4; 5].
Proof.
  split; [reflexivity|]. apply (splitDMLs_batches [1; 2; 3; 4; 5] 2). lia.
Defined.

End LoaderModelExamples.
