(* ===== verification/LoaderMerge.v ===== *)
(** * LoaderMerge
    Merging the DMLs of a batch by primary key: [pkg/loader/merge.go] and
    [execTableBatch] of [pkg/loader/executor.go].  Of all DMLs on a row one
    remains, and the batch becomes one round of deletes, one of replaces for
    the inserts and one of replaces for the updates. *)
From Stdlib Require Import Init.Byte SpecFloat.
From stdpp Require Import base option list gmap strings sorting.
From S2P Require Import Prelude Causality LoaderModel.

#[export] Instance spec_float_eq_dec : EqDecision spec_float.
Proof. solve_decision. Defined.

#[export] Instance value_eq_dec : EqDecision value.
Proof. solve_decision. Defined.

Section Merge.
Context (fmt_float : Z -> spec_float -> string).

(** The order in which [range] visits the merged map. *)
Context (order : gmap string DML -> list string).

Definition with_type (tp : DMLType) (old vals : gmap string value) (dml : DML) : DML :=
  mkDML (Database dml) (Table dml) tp old vals (info dml).

(** The first loop: an update of the primary key becomes a delete and an insert. *)
Fixpoint split_updates (dmls : list DML) : outcome (list DML) :=
  match dmls with
  | [] => Ret []
  | dml :: dmls =>
    let! changes := if is_update dml then updateKey dml else Ret false in
    let! rest := split_updates dmls in
    Ret ((if changes : bool
          then [with_type DeleteDMLType ∅ (OldValues dml) dml; with_type InsertDMLType ∅ (Values dml) dml]
          else [dml]) ++ rest)
  end.

(** The second loop. *)
Definition merge_one (res : gmap string DML) (dml : DML) : outcome (gmap string DML) :=
  let key := DML_formatKey fmt_float dml in
  match res !! key with
  | None => Ret (<[key := dml]> res)
  | Some oldDML =>
    match DML_Tp dml with
    | InsertDMLType | DeleteDMLType => Ret (<[key := dml]> res)
    | UpdateDMLType =>
      let dml :=
        match DML_Tp oldDML with
        | InsertDMLType => with_type InsertDMLType ∅ (Values dml) dml
        | UpdateDMLType => with_type UpdateDMLType (OldValues oldDML) (Values dml) dml
        | _ => dml
        end in
      Ret (<[key := dml]> res)
    | UnknownDMLType => Fail (Err "unknown tp")
    end
  end.

Fixpoint merge_loop (res : gmap string DML) (dmls : list DML) : outcome (gmap string DML) :=
  match dmls with
  | [] => Ret res
  | dml :: dmls => let! res := merge_one res dml in merge_loop res dmls
  end.

(** The third loop: the merged DMLs of a type, in iteration order. *)
Definition types_of (res : gmap string DML) (tp : DMLType) : list DML :=
  filter (fun dml => DML_Tp dml = tp) (omap (fun key => res !! key) (order res)).

(** [mergeByPrimaryKey(dmls)]; the result maps a type to its DMLs. *)
Definition mergeByPrimaryKey (dmls : list DML) : outcome (DMLType -> list DML) :=
  match dmls with
  | [] => Ret (fun _ => [])
  | dml0 :: _ =>
    match primaryKeys dml0 with
    | [] => Fail (Err "no pk")
    | _ =>
      let! dmls := split_updates dmls in
      let! res := merge_loop ∅ dmls in
      Ret (types_of res)
    end
  end.

(** ** What the statements do
    A table as a map from primary key to row. *)

Definition row := gmap string value.
Definition table := list value -> option row.

Definition put_row (k : list value) (r : option row) (t : table) : table :=
  fun k' => if decide (k' = k) then r else t k'.

(** The effect of a DML upstream: the row with the key of [Values] is written or
    removed, and an update first removes the row with the old key. *)
Definition apply_row (dml : DML) (t : table) : table :=
  match DML_Tp dml with
  | InsertDMLType => put_row (primaryKeyValues dml) (Some (Values dml)) t
  | DeleteDMLType => put_row (primaryKeyValues dml) None t
  | UpdateDMLType =>
    put_row (primaryKeyValues dml) (Some (Values dml)) (put_row (oldPrimaryKeyValues dml) None t)
  | UnknownDMLType => t
  end.

Definition apply_rows (dmls : list DML) (t : table) : table :=
  foldl (fun t dml => apply_row dml t) t dmls.

(** [bulkDelete] removes the row with the key of each DML, [bulkReplace] writes it. *)
Definition delete_rows (dmls : list DML) (t : table) : table :=
  foldl (fun t dml => put_row (primaryKeyValues dml) None t) t dmls.
Definition replace_rows (dmls : list DML) (t : table) : table :=
  foldl (fun t dml => put_row (primaryKeyValues dml) (Some (Values dml)) t) t dmls.

(** [execTableBatch]: the deletes, then the inserts, then the updates. *)
Definition execTableBatch (dmls : list DML) (t : table) : outcome table :=
  match dmls with
  | [] => Ret t
  | _ =>
    let! types := mergeByPrimaryKey dmls in
    Ret (replace_rows (types UpdateDMLType)
           (replace_rows (types InsertDMLType) (delete_rows (types DeleteDMLType) t)))
  end.

(** ** Correctness *)

Definition effect (dml : DML) : option row :=
  if decide (DML_Tp dml = DeleteDMLType) then None else Some (Values dml).

Definition known (dml : DML) : Prop := DML_Tp dml <> UnknownDMLType.

(** A DML whose effect is on the row with the key of [Values] only. *)
Definition settled (dml : DML) : Prop := known dml /\
  (DML_Tp dml = UpdateDMLType -> oldPrimaryKeyValues dml = primaryKeyValues dml).

Definition no_double (v : value) : Prop := match v with VFloat _ | VDouble _ => False | _ => True end.

(** The primary key columns are not floating point: then unequal keys print and
    compare as different. *)
Definition exact_keys (dml : DML) : Prop := Forall no_double (primaryKeyValues dml).

Lemma value_neq_false v w : no_double v -> value_neq v w = Ret false -> v = w.
Proof.
  intros Hv. destruct v, w; simpl; try discriminate; try done; intros [= Heq];
    apply negb_false_iff in Heq;
    [apply Z.eqb_eq in Heq|apply Z.eqb_eq in Heq|apply bool_decide_eq_true in Heq]; by subst.
Qed.

Lemma update_loop_false vs ws :
  Forall no_double vs -> length vs = length ws -> update_loop vs ws = Ret false -> vs = ws.
Proof.
  intros Hf. revert ws. induction Hf as [|v vs Hv Hf IH]; intros [|w ws] Hl; try done.
  cbn [update_loop]. intros (neq & Hneq & Hk)%obind_Ret_inv. destruct neq; [done|].
  f_equal; [by apply value_neq_false|]. apply IH; [|done]. simpl in Hl. lia.
Qed.

Lemma updateKey_false dml : exact_keys dml -> updateKey dml = Ret false ->
  oldPrimaryKeyValues dml = primaryKeyValues dml.
Proof.
  intros He. unfold updateKey, oldPrimaryKeyValues. case_bool_decide as Ho; [done|].
  intros Hu. symmetry. apply update_loop_false; [done| |exact Hu].
  unfold primaryKeyValues. by rewrite !length_fmap.
Qed.

Lemma old_key_delete dml : updateKey dml = Ret true ->
  primaryKeyValues (with_type DeleteDMLType ∅ (OldValues dml) dml) = oldPrimaryKeyValues dml.
Proof. unfold updateKey, oldPrimaryKeyValues. by case_bool_decide. Qed.

(** Splitting the key updates keeps the effect and leaves settled DMLs. *)
Lemma split_updates_spec dmls dmls' :
  Forall known dmls -> Forall exact_keys dmls -> split_updates dmls = Ret dmls' ->
  Forall settled dmls' /\ forall t, apply_rows dmls' t = apply_rows dmls t.
Proof.
  intros Hk He. revert dmls'. induction Hk as [|dml dmls Hkn Hk IH]; intros dmls'; simpl.
  { by intros [= <-]. }
  apply Forall_cons_iff in He as [Hex He].
  intros (changes & Hch & (rest & Hrest & [= <-])%obind_Ret_inv)%obind_Ret_inv.
  destruct (IH He _ Hrest) as [Hs Ha]. destruct changes.
  - destruct (is_update dml) eqn:Hu; [|done]. apply bool_decide_eq_true in Hu.
    split; [repeat constructor; done|]. intros t. simpl. rewrite Ha. f_equal.
    unfold apply_row. simpl. rewrite Hu, old_key_delete by done. done.
  - split.
    + constructor; [|done]. split; [done|]. intros Hu. unfold is_update in Hch.
      rewrite bool_decide_eq_true_2 in Hch by done. by apply updateKey_false.
    + intros t. simpl. by rewrite Ha.
Qed.

Lemma apply_settled dml t k : settled dml ->
  apply_row dml t k = if decide (k = primaryKeyValues dml) then effect dml else t k.
Proof.
  intros [Hkn Hu]. unfold apply_row, effect, put_row, known in *.
  destruct (DML_Tp dml) eqn:E; [done|..]; repeat case_decide; try done.
  rewrite Hu in * by done. done.
Qed.

(** The printed keys of the DMLs identify their keys. *)
Definition distinct_keys (dmls : list DML) : Prop :=
  forall d d', d ∈ dmls -> d' ∈ dmls ->
    DML_formatKey fmt_float d = DML_formatKey fmt_float d' -> primaryKeyValues d = primaryKeyValues d'.

(** The merged map against a table: it overrides the rows of its DMLs. *)
Definition override (res : gmap string DML) (t : table) : table := fun k =>
  match res !! formatKey fmt_float k with
  | Some m => if decide (k = primaryKeyValues m) then effect m else t k
  | None => t k
  end.

(** What the merge loop maintains about the DMLs [done] so far. *)
Record merged (done_ : list DML) (res : gmap string DML) : Prop := {
  mg_key : forall f m, res !! f = Some m -> f = DML_formatKey fmt_float m /\ known m /\
             exists d, d ∈ done_ /\ primaryKeyValues d = primaryKeyValues m;
  mg_effect : forall t k, apply_rows done_ t k = override res t k;
}.

(** The DML that [merge_one] stores has the key and the effect of the new one. *)
Lemma merge_one_spec res d res' : settled d -> merge_one res d = Ret res' ->
  exists m, res' = <[DML_formatKey fmt_float d := m]> res /\ known m /\
    primaryKeyValues m = primaryKeyValues d /\ effect m = effect d.
Proof.
  intros [Hkn _]. unfold merge_one. unfold known in *.
  destruct (res !! DML_formatKey fmt_float d) as [old|]; [|intros [= <-]; by exists d].
  destruct (DML_Tp d) eqn:Ed; intros [= <-]; try by exists d; rewrite Ed.
  destruct (DML_Tp old) eqn:Eo; try (by exists d; rewrite Ed); eexists; (split; [done|]).
  - split; [done|]. split; [done|]. unfold effect. by rewrite Ed.
  - split; [done|]. split; [done|]. unfold effect. by rewrite Ed.
Qed.

Lemma merge_one_merged done_ res d res' :
  merged done_ res -> settled d -> distinct_keys (done_ ++ [d]) -> merge_one res d = Ret res' ->
  merged (done_ ++ [d]) res'.
Proof.
  intros [Hkey Heff] Hs Hdist Hm.
  destruct (merge_one_spec _ _ _ Hs Hm) as (m & -> & Hkn & Hpk & He).
  assert (Hfm : DML_formatKey fmt_float d = DML_formatKey fmt_float m)
    by (unfold DML_formatKey; by rewrite Hpk).
  split.
  - intros f m' [[<- <-]|[_ Hl]]%lookup_insert_Some.
    + split; [done|]. split; [done|]. exists d. split; [|done]. apply elem_of_app. right. by left.
    + destruct (Hkey _ _ Hl) as (? & ? & d' & ? & ?). split; [done|]. split; [done|].
      exists d'. split; [|done]. apply elem_of_app. by left.
  - intros t k. unfold apply_rows. rewrite foldl_app. simpl. rewrite apply_settled by done.
    fold (apply_rows done_ t). rewrite Heff. unfold override.
    destruct (decide (k = primaryKeyValues d)) as [->|Hk].
    + fold (DML_formatKey fmt_float d). rewrite lookup_insert_eq, Hpk, decide_True by done. done.
    + destruct (decide (formatKey fmt_float k = DML_formatKey fmt_float d)) as [Hf|Hf].
      * rewrite Hf, lookup_insert_eq, Hpk, decide_False by done.
        destruct (res !! DML_formatKey fmt_float d) as [m0|] eqn:E; [|done].
        destruct (Hkey _ _ E) as (Hf0 & _ & d0 & Hd0 & Hpk0).
        rewrite decide_False; [done|]. intros ->. apply Hk. rewrite <- Hpk0.
        apply Hdist; [apply elem_of_app; by left|apply elem_of_app; right; by left|].
        unfold DML_formatKey at 1. by rewrite Hpk0, Hf.
      * rewrite lookup_insert_ne by done. done.
Qed.

Lemma merge_loop_merged todo : forall done_ res res',
  merged done_ res -> Forall settled todo -> distinct_keys (done_ ++ todo) ->
  merge_loop res todo = Ret res' -> merged (done_ ++ todo) res'.
Proof.
  induction todo as [|d todo IH]; intros done_ res res' Hm Hs Hdist; simpl.
  { intros [= <-]. by rewrite app_nil_r. }
  apply Forall_cons_iff in Hs as [Hd Hs].
  intros (res1 & H1 & Hloop)%obind_Ret_inv.
  rewrite cons_middle, (assoc_L (++)) in *. eapply IH; [|done|done|exact Hloop].
  eapply merge_one_merged; [done|done| |done].
  intros x y Hx Hy. apply Hdist; apply elem_of_app; by left.
Qed.

(** Writing rows with pairwise different keys, in any order. *)
Definition write_rows (dmls : list DML) (t : table) : table :=
  foldl (fun t dml => put_row (primaryKeyValues dml) (effect dml) t) t dmls.

Lemma write_rows_notin dmls t k :
  k ∉ primaryKeyValues <$> dmls -> write_rows dmls t k = t k.
Proof.
  revert t. induction dmls as [|d dmls IH]; intros t Hk; [done|]. simpl in *.
  apply not_elem_of_cons in Hk as [Hne Hk]. rewrite IH by done. unfold put_row. by rewrite decide_False.
Qed.

Lemma write_rows_in dmls t m :
  NoDup (primaryKeyValues <$> dmls) -> m ∈ dmls -> write_rows dmls t (primaryKeyValues m) = effect m.
Proof.
  revert t. induction dmls as [|d dmls IH]; intros t Hnd Hm; [by apply not_elem_of_nil in Hm|].
  simpl in *. apply list.NoDup_cons in Hnd as [Hni Hnd].
  apply elem_of_cons in Hm as [->|Hm]; [|by apply IH].
  rewrite write_rows_notin by done. unfold put_row. by rewrite decide_True.
Qed.

(** A [range] visits every key once. *)
Context (Horder : forall m : gmap string DML, order m ≡ₚ (map_to_list m).*1).

Lemma order_values res : omap (fun key => res !! key) (order res) ≡ₚ (map_to_list res).*2.
Proof.
  rewrite Horder. assert (Hall : Forall (fun p => res !! p.1 = Some p.2) (map_to_list res)).
  { apply list.Forall_forall. intros [k v] Hin. by apply elem_of_map_to_list. }
  clear Horder. induction Hall as [|[k v] l Hkv Hall IH]; [done|]. simpl in *. rewrite Hkv. by rewrite IH.
Qed.

Lemma write_rows_typed dmls tp t : Forall (fun d => DML_Tp d = tp) dmls -> tp <> UnknownDMLType ->
  (if decide (tp = DeleteDMLType) then delete_rows dmls t else replace_rows dmls t) = write_rows dmls t.
Proof.
  intros Hf Htp. revert t. induction Hf as [|d dmls Hd Hf IH]; intros t; [by case_decide|].
  unfold delete_rows, replace_rows, write_rows in *. simpl. rewrite <- IH. unfold effect. rewrite Hd.
  by destruct (decide (tp = DeleteDMLType)).
Qed.

(** The DMLs of the three rounds have pairwise different keys. *)
Lemma types_nodup dmls res : merged dmls res ->
  NoDup (primaryKeyValues <$> (types_of res DeleteDMLType ++ types_of res InsertDMLType ++ types_of res UpdateDMLType)).
Proof.
  intros [Hkey _].
  set (all := types_of res DeleteDMLType ++ types_of res InsertDMLType ++ types_of res UpdateDMLType).
  assert (Hp : all ≡ₚ (map_to_list res).*2).
  { unfold all, types_of. rewrite order_values.
    assert (Hk : Forall known (map_to_list res).*2).
    { apply list.Forall_forall. intros m ([f m'] & -> & Hin)%list_elem_of_fmap.
      apply elem_of_map_to_list in Hin. by destruct (Hkey _ _ Hin) as (_ & ? & _). }
    clear -Hk. induction Hk as [|m l Hm Hk IH]; [done|]. unfold known in Hm.
    rewrite !filter_cons. destruct (DML_Tp m); repeat case_decide; try done; rewrite <- IH at 4;
      solve_Permutation. }
  rewrite Hp. apply NoDup_fmap_2_strong.
  - intros x y ([f m] & -> & Hx)%list_elem_of_fmap ([f' m'] & -> & Hy)%list_elem_of_fmap Heq.
    simpl in *. apply elem_of_map_to_list in Hx, Hy.
    destruct (Hkey _ _ Hx) as (Hfx & _), (Hkey _ _ Hy) as (Hfy & _).
    assert (f = f') by (rewrite Hfx, Hfy; unfold DML_formatKey; by rewrite Heq). congruence.
  - apply (NoDup_fmap_1 (DML_formatKey fmt_float)).
    replace (DML_formatKey fmt_float <$> (map_to_list res).*2) with (map_to_list res).*1;
      [apply NoDup_fst_map_to_list|].
    rewrite <- list_fmap_compose. apply list_fmap_ext. intros i [f m] Hin. simpl.
    apply list_elem_of_lookup_2, elem_of_map_to_list in Hin. by destruct (Hkey _ _ Hin).
Qed.

(** The three rounds of the batch write the merged DMLs. *)
Lemma batch_override dmls res t k : merged dmls res -> distinct_keys dmls ->
  write_rows (types_of res DeleteDMLType ++ types_of res InsertDMLType ++ types_of res UpdateDMLType) t k
  = override res t k.
Proof.
  intros [Hkey Heff] Hdist.
  set (all := types_of res DeleteDMLType ++ types_of res InsertDMLType ++ types_of res UpdateDMLType).
  assert (Hmem : forall m, m ∈ all <-> exists f, res !! f = Some m).
  { intros m. unfold all, types_of. rewrite !elem_of_app, !list_elem_of_filter, order_values.
    rewrite list_elem_of_fmap. split.
    - assert (Hx : (exists y, m = y.2 /\ y ∈ map_to_list res) -> exists f, res !! f = Some m).
      { intros ([f m'] & -> & Hin). exists f. by apply elem_of_map_to_list. }
      intros [[_ ?]|[[_ ?]|[_ ?]]]; auto.
    - intros [f Hf]. destruct (Hkey _ _ Hf) as (_ & Hkn & _).
      assert (Hx : exists y, m = y.2 /\ y ∈ map_to_list res).
      { exists (f, m). split; [done|]. by apply elem_of_map_to_list. }
      unfold known in Hkn. destruct (DML_Tp m); auto; done. }
  assert (Hnd : NoDup (primaryKeyValues <$> all)) by by eapply types_nodup.
  unfold override. destruct (res !! formatKey fmt_float k) as [m|] eqn:E.
  - destruct (decide (k = primaryKeyValues m)) as [->|Hne].
    + apply write_rows_in; [done|]. apply Hmem. eauto.
    + apply write_rows_notin. intros (m' & -> & [f Hf]%Hmem)%list_elem_of_fmap.
      destruct (Hkey _ _ Hf) as (Hf' & _). unfold DML_formatKey in Hf'. congruence.
  - apply write_rows_notin. intros (m' & -> & [f Hf]%Hmem)%list_elem_of_fmap.
    destruct (Hkey _ _ Hf) as (Hf' & _). unfold DML_formatKey in Hf'. congruence.
Qed.

(** The keys of the rows a DML is about. *)
Definition row_keys (d : DML) : list (list value) := [primaryKeyValues d; oldPrimaryKeyValues d].

Definition printed_distinct (dmls : list DML) : Prop :=
  forall d d' k k', d ∈ dmls -> d' ∈ dmls -> k ∈ row_keys d -> k' ∈ row_keys d' ->
    formatKey fmt_float k = formatKey fmt_float k' -> k = k'.

Lemma split_updates_keys dmls dmls' e : split_updates dmls = Ret dmls' -> e ∈ dmls' ->
  exists d, d ∈ dmls /\ primaryKeyValues e ∈ row_keys d.
Proof.
  revert dmls'. induction dmls as [|dml dmls IH]; intros dmls'; simpl.
  { intros [= <-] He. by apply not_elem_of_nil in He. }
  intros (changes & Hch & (rest & Hrest & [= <-])%obind_Ret_inv)%obind_Ret_inv He.
  apply elem_of_app in He as [He|He].
  - exists dml. split; [by left|]. destruct changes.
    + destruct (is_update dml); [|done].
      rewrite !elem_of_cons, elem_of_nil in He. destruct He as [->|[->|[]]].
      * rewrite old_key_delete by done. right. by left.
      * by left.
    + apply list_elem_of_singleton in He as ->. by left.
  - destruct (IH _ Hrest He) as (d & ? & ?). exists d. split; [by right|done].
Qed.

Lemma merged_start : merged [] ∅.
Proof. split; [intros f m Hf; by rewrite lookup_empty in Hf|]. intros t k. done. Qed.

Lemma batch_sequential dmls types :
  Forall known dmls -> Forall exact_keys dmls -> printed_distinct dmls ->
  mergeByPrimaryKey dmls = Ret types ->
  forall t k, replace_rows (types UpdateDMLType)
    (replace_rows (types InsertDMLType) (delete_rows (types DeleteDMLType) t)) k = apply_rows dmls t k.
Proof.
  intros Hkn Hex Hpd Hm t k. unfold mergeByPrimaryKey in Hm.
  destruct dmls as [|dml0 dmls]; [by simplify_eq|]. destruct (primaryKeys dml0); [done|].
  apply obind_Ret_inv in Hm as (dmls' & Hsp & (res & Hloop & [= <-])%obind_Ret_inv).
  destruct (split_updates_spec _ _ Hkn Hex Hsp) as [Hset Happ].
  assert (Hdist : distinct_keys dmls').
  { intros d d' Hd Hd' Hf. destruct (split_updates_keys _ _ d Hsp Hd) as (d0 & Hd0 & Hk0).
    destruct (split_updates_keys _ _ d' Hsp Hd') as (d1 & Hd1 & Hk1). by apply (Hpd d0 d1). }
  pose proof (merge_loop_merged dmls' [] ∅ res merged_start Hset Hdist Hloop) as Hmg. simpl in Hmg.
  rewrite <- Happ, (mg_effect _ _ Hmg), <- (batch_override _ _ _ _ Hmg Hdist).
  unfold write_rows. rewrite !foldl_app. fold (write_rows (types_of res DeleteDMLType) t).
  assert (Hty : forall tp, Forall (fun d => DML_Tp d = tp) (types_of res tp)).
  { intros tp. apply list.Forall_forall. intros d [? _]%list_elem_of_filter. done. }
  rewrite <- (write_rows_typed _ DeleteDMLType) by done. rewrite decide_True by done.
  fold (write_rows (types_of res InsertDMLType) (delete_rows (types_of res DeleteDMLType) t)).
  rewrite <- (write_rows_typed _ InsertDMLType) by done. rewrite decide_False by done.
  match goal with |- _ = foldl _ ?t' _ _ => fold (write_rows (types_of res UpdateDMLType) t') end.
  rewrite <- (write_rows_typed _ UpdateDMLType) by done. by rewrite decide_False by done.
Qed.

(** No key column holds a byte slice, which the comparison of [updateKey] rejects. *)
Definition no_bytes (v : value) : Prop := match v with VBytes _ => False | _ => True end.
Definition comparable_keys (d : DML) : Prop := Forall no_bytes (primaryKeyValues d).

Lemma updateKey_total d : comparable_keys d -> exists b, updateKey d = Ret b.
Proof.
  intros Hc. unfold updateKey, oldPrimaryKeyValues. case_bool_decide; [by eexists|].
  unfold comparable_keys, primaryKeyValues in *. induction (primaryKeys d) as [|n ns IH]; [by eexists|].
  simpl in *. apply Forall_cons_iff in Hc as [Hn Hc].
  destruct (at_key (Values d) n), (at_key (OldValues d) n); simpl; try done;
    try (by eexists); try case_match; eauto.
Qed.

Lemma split_updates_total dmls : Forall comparable_keys dmls -> Forall known dmls ->
  exists dmls', split_updates dmls = Ret dmls' /\ Forall known dmls'.
Proof.
  intros Hc Hk. induction Hc as [|d dmls Hd Hc IH]; simpl; [by eexists|].
  apply Forall_cons_iff in Hk as [Hkd Hk]. destruct (IH Hk) as (rest & -> & Hr).
  assert (Hch : exists b, (if is_update d then updateKey d else Ret false) = Ret b)
    by (destruct (is_update d); [by apply updateKey_total|by eexists]).
  destruct Hch as [b ->]. simpl. eexists. split; [done|]. apply Forall_app. split; [|done].
  destruct b; repeat constructor; done.
Qed.

Lemma merge_loop_total dmls : Forall known dmls -> forall res, exists res', merge_loop res dmls = Ret res'.
Proof.
  intros Hk. induction Hk as [|d dmls Hd Hk IH]; intros res; simpl; [by eexists|].
  assert (Hm : exists res', merge_one res d = Ret res').
  { unfold merge_one. destruct (res !! _); [|by eexists]. unfold known in Hd.
    destruct (DML_Tp d); [done|by eexists..]. }
  destruct Hm as [res' ->]. simpl. apply IH.
Qed.

(** Merging a batch by primary key is sound: for any iteration order of the
    merged map, the batch (deletes, then replaced inserts, then replaced updates)
    leaves every row as executing the DMLs one by one does, if the printed keys
    tell the rows apart; and it succeeds when the table has a primary key whose
    columns can be compared. *)
Theorem execTableBatch_sequential dmls t :
  Forall known dmls -> Forall exact_keys dmls -> printed_distinct dmls ->
  (forall t', execTableBatch dmls t = Ret t' -> forall k, t' k = apply_rows dmls t k) /\
  (Forall comparable_keys dmls -> Forall (fun d => primaryKeys d <> []) dmls ->
     exists t', execTableBatch dmls t = Ret t').
Proof.
  intros Hkn Hex Hpd. split.
  - intros t' Hb k. unfold execTableBatch in Hb. destruct dmls as [|d dmls]; [by simplify_eq|].
    apply obind_Ret_inv in Hb as (types & Hm & [= <-]). by apply batch_sequential.
  - intros Hc Hpk. unfold execTableBatch, mergeByPrimaryKey. destruct dmls as [|d dmls]; [by eexists|].
    apply Forall_cons_iff in Hpk as [Hpk _]. destruct (primaryKeys d); [done|].
    destruct (split_updates_total _ Hc Hkn) as (dmls' & -> & Hkn'). simpl.
    destruct (merge_loop_total _ Hkn' ∅) as [res ->]. simpl. by eexists.
Qed.

End Merge.

(** ** Concrete batches *)
Module MergeExamples.

Definition keys_in_order (m : gmap string DML) : list string := (map_to_list m).*1.

Definition no_float (_ : Z) (_ : spec_float) : string := "".

Definition tbl (pk : list string) : tableInfo :=
  let ix := mkIndex "PRIMARY" pk in mkTable (pk ++ ["v"]) (Some ix) [ix].

Definition int_row (id : Z) (v : string) : row := {[ "id" := VInt64 id; "v" := VString v ]}.

Definition dml (tp : DMLType) (old vals : row) : DML := mkDML "d" "t" tp old vals (tbl ["id"]).

(** Row 1 is inserted, changed and renumbered to 2; row 3 is deleted and inserted. *)
Definition dmls : list DML :=
  [dml InsertDMLType ∅ (int_row 1 "a"); dml UpdateDMLType (int_row 1 "a") (int_row 1 "b");
   dml UpdateDMLType (int_row 1 "b") (int_row 2 "b"); dml DeleteDMLType ∅ (int_row 3 "x");
   dml InsertDMLType ∅ (int_row 3 "y")].

Lemma printed_distinct_check f ds :
  bool_decide (Forall (fun d => Forall (fun d' => Forall (fun k => Forall (fun k' =>
    formatKey f k = formatKey f k' -> k = k') (row_keys d')) (row_keys d)) ds) ds) = true ->
  printed_distinct f ds.
Proof.
  intros Hb%bool_decide_eq_true d d' k k' Hd Hd' Hk Hk' Heq.
  rewrite list.Forall_forall in Hb. specialize (Hb d Hd). rewrite list.Forall_forall in Hb.
  specialize (Hb d' Hd'). rewrite list.Forall_forall in Hb. specialize (Hb k Hk).
  rewrite list.Forall_forall in Hb. by apply Hb.
Qed.

Lemma execTableBatch_sequential_witness :
  (forall t', execTableBatch no_float keys_in_order dmls (fun _ => None) = Ret t' ->
     forall k, t' k = apply_rows dmls (fun _ => None) k) /\
  (Forall comparable_keys dmls -> Forall (fun d => primaryKeys d <> []) dmls ->
     exists t', execTableBatch no_float keys_in_order dmls (fun _ => None) = Ret t').
Proof.
  apply (execTableBatch_sequential no_float keys_in_order (fun m => Permutation_refl _) dmls (fun _ => None)).
  - repeat constructor; discriminate.
  - repeat constructor; exact I.
  - apply printed_distinct_check. vm_compute. reflexivity.
Defined.

Definition pair_row (a b : string) : row :=
  {[ "a" := VString a; "b" := VString b; "v" := VString "v" ]}.

Definition pair_dml (tp : DMLType) (old vals : row) : DML := mkDML "d" "t" tp old vals (tbl ["a"; "b"]).

(** The printed key does not identify the row: two rows with the composite
    keys ("a--", "b") and ("a", "--b") are both inserted, their keys print as
    "a----b", and the merged batch writes only the second one. *)
Theorem formatKey_collision :
  let d1 := pair_dml InsertDMLType ∅ (pair_row "a--" "b") in
  let d2 := pair_dml InsertDMLType ∅ (pair_row "a" "--b") in
  primaryKeyValues d1 <> primaryKeyValues d2 /\
  apply_rows [d1; d2] (fun _ => None) (primaryKeyValues d1) = Some (pair_row "a--" "b") /\
  match execTableBatch no_float keys_in_order [d1; d2] (fun _ => None) with
  | Ret t => t (primaryKeyValues d1) = None
  | _ => False
  end.
Proof.
  split; [vm_compute; discriminate|]. split; [vm_compute; reflexivity|]. vm_compute. reflexivity.
Qed.

Definition bin_row (k : list byte) (v : string) : row := {[ "id" := VBytes k; "v" := VString v ]}.

(** Merging panics on an update of a table whose primary key is a binary
    column: [updateKey] compares two byte slices held in interfaces. *)
Theorem updateKey_bytes_panics :
  mergeByPrimaryKey no_float keys_in_order
    [dml UpdateDMLType (bin_row [x61] "a") (bin_row [x61] "b")] = Panic.
Proof. vm_compute. reflexivity. Qed.

End MergeExamples.
