(* ===== verification/LoaderBatch.v ===== *)
(** * LoaderBatch
    The main loop of the loader ([pkg/loader/load.go]): options, the batch
    manager that accumulates transactions and executes them in batches, [Run],
    the transaction cache in front of it, and the preparation of DMLs. *)
From Stdlib Require Import Init.Byte.
From stdpp Require Import base option list gmap strings sorting relations.
From S2P Require Import Prelude Causality LoaderModel.

(** ** Options *)

Inductive SyncMode := SyncFullColumn | SyncPartialColumn.

#[export] Instance SyncMode_eq_dec : EqDecision SyncMode.
Proof. solve_decision. Defined.

(** [options], without the metrics and the loop-back information. *)
Record options := mkOptions {
  workerCount : Z;
  batchSize : Z;
  saveAppliedTS : bool;
  syncMode : SyncMode;
  enableDispatch : bool;
  enableCausality : bool;
  merge : bool;
}.

Definition defaultLoaderOptions : options := mkOptions 16 20 false SyncFullColumn true true false.

(** The [Option] functions. *)
Definition SyncModeOption (n : SyncMode) (o : options) : options :=
  mkOptions (workerCount o) (batchSize o) (saveAppliedTS o) n (enableDispatch o) (enableCausality o) (merge o).
Definition EnableDispatch (b : bool) (o : options) : options :=
  mkOptions (workerCount o) (batchSize o) (saveAppliedTS o) (syncMode o) b (enableCausality o) (merge o).
Definition EnableCausality (b : bool) (o : options) : options :=
  mkOptions (workerCount o) (batchSize o) (saveAppliedTS o) (syncMode o) (enableDispatch o) b (merge o).
Definition WorkerCount (n : Z) (o : options) : options :=
  mkOptions n (batchSize o) (saveAppliedTS o) (syncMode o) (enableDispatch o) (enableCausality o) (merge o).
Definition BatchSize (n : Z) (o : options) : options :=
  mkOptions (workerCount o) n (saveAppliedTS o) (syncMode o) (enableDispatch o) (enableCausality o) (merge o).
Definition Merge (v : bool) (o : options) : options :=
  mkOptions (workerCount o) (batchSize o) (saveAppliedTS o) (syncMode o) (enableDispatch o) (enableCausality o) v.
Definition SaveAppliedTS (v : bool) (o : options) : options :=
  mkOptions (workerCount o) (batchSize o) v (syncMode o) (enableDispatch o) (enableCausality o) (merge o).

Definition MaxInt64 : Z := 2 ^ 63 - 1.

(** The options [NewLoader] ends up with. *)
Definition NewLoader (opt : list (options -> options)) : options :=
  let opts := foldl (fun o f => f o) defaultLoaderOptions opt in
  if enableDispatch opts then opts
  else BatchSize MaxInt64 (WorkerCount 1 opts).

Definition execLimitMultiple : Z := 3.

(** [limit] of [newBatchManager], in the width of an [int]. *)
Definition batch_limit (o : options) : Z :=
  wrap_i64 (wrap_i64 (batchSize o * workerCount o) * execLimitMultiple).

(** ** Batches *)
Section Batch.
Context {Meta : Type}.

Abbreviation txn := (Txn Meta).

(** What the callbacks were called for, when they succeeded. *)
Inductive event :=
  | EvDMLs (dmls : list DML)
  | EvDDL (ddl : DDL)
  | EvSuccess (txns : list txn).

(** The answers of the downstream database, which may depend on everything that
    happened before: [fExecDMLs] and [fExecDDL]. *)
Context (dml_error : list event -> list DML -> option error).
Context (ddl_error : list event -> DDL -> option error).
(** Whether [pkg/sql] treats the error as harmless: the codes are TiDB's. *)
Context (IgnoreDDLError : error -> bool).

Record batchManager := mkBatch {
  txns : list txn;
  dmls : list DML;
  bm_enableDispatch : bool;
  limit : Z;
}.

Definition newBatchManager (o : options) : batchManager :=
  mkBatch [] [] (enableDispatch o) (batch_limit o).

(** The state: the manager and what was done so far. *)
Definition state : Type := batchManager * list event.

Definition execAccumulatedDMLs (st : state) : state * option error :=
  let '(b, tr) := st in
  if (length (dmls b) =? 0)%nat then (st, None)
  else
    match dml_error tr (dmls b) with
    | Some e => (st, Some e)
    | None =>
      ((mkBatch [] [] (bm_enableDispatch b) (limit b),
        tr ++ [EvDMLs (dmls b); EvSuccess (txns b)]), None)
    end.

(** [execDDL] of the batch manager. *)
Definition execDDL (t : txn) (ddl : DDL) (st : state) : state * option error :=
  let '(b, tr) := st in
  let ok := ((b, tr ++ [EvDDL ddl; EvSuccess [t]]), None) in
  match ddl_error tr ddl with
  | Some e => if IgnoreDDLError e then ok else (st, Some e)
  | None => ok
  end.

Definition put (t : txn) (st : state) : state * option error :=
  match Txn_DDL t with
  | Some ddl =>
    if (String.length (DDL_Database ddl) =? 0)%nat
    then (st, Some (Err "get DDL Txn with empty database"))
    else
      match execAccumulatedDMLs st with
      | (st, Some e) => (st, Some e)
      | (st, None) => execDDL t ddl st
      end
  | None =>
    let '(b, tr) := st in
    let b := mkBatch (txns b ++ [t]) (dmls b ++ DMLs t) (bm_enableDispatch b) (limit b) in
    if (limit b <=? len (dmls b)) || negb (bm_enableDispatch b)
    then execAccumulatedDMLs (b, tr)
    else ((b, tr), None)
  end.

(** [Run]: the transactions it receives; [None] is an attempt that finds the
    input empty. At the end the input is closed. *)
Fixpoint Run_loop (input : list (option txn)) (st : state) : state * option error :=
  match input with
  | [] => execAccumulatedDMLs st
  | o :: input =>
    let r :=
      match o with
      | Some t => put t st
      | None => if (0 <? length (dmls (fst st)))%nat then execAccumulatedDMLs st else (st, None)
      end in
    match r with
    | (st, Some e) => (st, Some e)
    | (st, None) => Run_loop input st
    end
  end.

Definition Run (o : options) (input : list (option txn)) : list event * option error :=
  let '((_, tr), e) := Run_loop input (newBatchManager o, []) in (tr, e).

(** ** Specification *)

Inductive op := OpDML (d : DML) | OpDDL (d : DDL).

(** What a transaction asks for, what was executed and what was reported. *)
Definition ops_of (t : txn) : list op :=
  match Txn_DDL t with Some d => [OpDDL d] | None => OpDML <$> DMLs t end.

Definition executed (tr : list event) : list op :=
  tr ≫= (fun e => match e with EvDMLs ds => OpDML <$> ds | EvDDL d => [OpDDL d] | EvSuccess _ => [] end).

Definition reported (tr : list event) : list txn :=
  tr ≫= (fun e => match e with EvSuccess ts => ts | _ => [] end).

(** A DML transaction is not empty. *)
Definition txn_ok (t : txn) : Prop := Txn_DDL t = None -> DMLs t <> [].

(** At every moment only executed transactions have been reported. *)
Definition reports_safely (tr : list event) : Prop :=
  forall p, p `prefix_of` tr -> (reported p ≫= ops_of) `prefix_of` executed p.

(** What [Run] maintains after it received the transactions [seen]. *)
Record run_inv (seen : list txn) (st : state) : Prop := {
  rn_reported : reported st.2 ++ txns st.1 = seen;
  rn_pending : Forall (fun t => Txn_DDL t = None) (txns st.1);
  rn_dmls : dmls st.1 = txns st.1 ≫= DMLs;
  rn_executed : executed st.2 = reported st.2 ≫= ops_of;
  rn_safe : reports_safely st.2;
  rn_nonempty : Forall txn_ok (txns st.1);
}.

Lemma reported_app tr tr' : reported (tr ++ tr') = reported tr ++ reported tr'.
Proof. unfold reported. by rewrite bind_app. Qed.

Lemma executed_app tr tr' : executed (tr ++ tr') = executed tr ++ executed tr'.
Proof. unfold executed. by rewrite bind_app. Qed.

Lemma ops_pending (ts : list txn) : Forall (fun t => Txn_DDL t = None) ts ->
  ts ≫= ops_of = OpDML <$> (ts ≫= DMLs).
Proof.
  induction 1 as [|t ts Ht Hf IH]; [done|]. rewrite !bind_cons, fmap_app, IH.
  f_equal. unfold ops_of. by rewrite Ht.
Qed.

(** Executing some operations and then reporting their transactions is safe. *)
Lemma reports_safely_snoc tr e ts :
  reports_safely tr -> executed tr = reported tr ≫= ops_of -> reported [e] = [] ->
  executed [e] = ts ≫= ops_of -> reports_safely (tr ++ [e; EvSuccess ts]).
Proof.
  intros Hs Heq He Hx p Hp.
  assert (Hcase : p `prefix_of` tr \/ p = tr ++ [e] \/ p = tr ++ [e; EvSuccess ts]).
  { destruct Hp as [k Hk]. revert Hk. destruct k as [|y k _] using rev_ind.
    - rewrite app_nil_r. intros <-. auto.
    - destruct k as [|x k _] using rev_ind; simpl.
      + change [e; EvSuccess ts] with ([e] ++ [EvSuccess ts]). rewrite (assoc_L (++)).
        intros [<- _]%app_inj_tail. auto.
      + intros Hk. left. exists k. change [e; EvSuccess ts] with ([e] ++ [EvSuccess ts]) in Hk.
        rewrite !(assoc_L (++)) in Hk. apply app_inj_tail in Hk as [Hk _].
        by apply app_inj_tail in Hk as [Hk _]. }
  destruct Hcase as [Hp'|[->| ->]]; [by apply Hs|..].
  - rewrite reported_app, executed_app, He, app_nil_r, <- Heq. by eexists.
  - change (tr ++ [e; EvSuccess ts]) with (tr ++ [e] ++ [EvSuccess ts]).
    rewrite !reported_app, !executed_app, He, Hx. simpl.
    rewrite bind_app, <- Heq, !app_nil_r. done.
Qed.

Lemma run_inv_exec seen st st' e :
  run_inv seen st -> execAccumulatedDMLs st = (st', e) ->
  run_inv seen st' /\ (e = None -> txns st'.1 = []).
Proof.
  intros [Hr Hp Hd Hx Hs Hne] H. destruct st as [b tr]. unfold execAccumulatedDMLs in H. simpl in *.
  destruct (length (dmls b) =? 0)%nat eqn:E.
  - apply Nat.eqb_eq, length_zero_iff_nil in E. injection H as <- <-.
    assert (Ht : txns b = []).
    { destruct (txns b) as [|t ts]; [done|]. apply Forall_cons_iff in Hp as [Ht _], Hne as [Hnt _].
      rewrite E in Hd. simpl in Hd. symmetry in Hd. apply app_eq_nil in Hd as [Hd _].
      by specialize (Hnt Ht). }
    split; [by split|done].
  - destruct (dml_error tr (dmls b)); injection H as <- <-; [by split; [split|]|].
    split; [|done]. split; simpl; [|constructor|done|..|constructor].
    + rewrite reported_app. simpl. by rewrite !app_nil_r.
    + rewrite executed_app, reported_app, bind_app, Hx. simpl.
      rewrite !app_nil_r. f_equal. by rewrite Hd, ops_pending.
    + apply reports_safely_snoc; [done|done|done|]. simpl. rewrite app_nil_r.
      by rewrite Hd, ops_pending.
Qed.

Lemma run_inv_put seen st t st' e :
  run_inv seen st -> txn_ok t -> put t st = (st', e) ->
  (e = None -> run_inv (seen ++ [t]) st') /\
  exists seen', seen' `prefix_of` seen ++ [t] /\ run_inv seen' st'.
Proof.
  intros Hinv Ht. unfold put. destruct (Txn_DDL t) as [ddl|] eqn:Eddl.
  - destruct (String.length (DDL_Database ddl) =? 0)%nat.
    { intros [= <- <-]. split; [done|]. exists seen. split; [by eexists|done]. }
    destruct (execAccumulatedDMLs st) as [[b tr] e1] eqn:E1.
    destruct (run_inv_exec _ _ _ _ Hinv E1) as [Hinv1 Hnil].
    destruct e1 as [e1|].
    { intros [= <- <-]. split; [done|]. exists seen. split; [by eexists|done]. }
    specialize (Hnil eq_refl). pose proof Hinv1 as [Hr Hp Hd Hx Hs Hne]. simpl in *.
    assert (Hok : run_inv (seen ++ [t]) (b, tr ++ [EvDDL ddl; EvSuccess [t]])).
    { rewrite Hnil, app_nil_r in Hr. split; simpl; rewrite ?Hnil in *; try done.
      - rewrite reported_app. simpl. by rewrite app_nil_r, Hr.
      - rewrite executed_app, reported_app, bind_app, Hx. simpl. f_equal. unfold ops_of. by rewrite Eddl.
      - apply reports_safely_snoc; [done|done|done|]. simpl. unfold ops_of. by rewrite Eddl. }
    unfold execDDL. intros H. assert (Hst : (b, tr ++ [EvDDL ddl; EvSuccess [t]]) = st' /\ e = None \/
                                          (b, tr) = st' /\ e <> None).
    { destruct (ddl_error tr ddl) as [e2|]; [destruct (IgnoreDDLError e2)|]; simplify_eq; auto. }
    destruct Hst as [[<- ->]|[<- He]]; (split; [done|]).
    + exists (seen ++ [t]). done.
    + exists seen. split; [by eexists|done].
  - destruct st as [b tr]. pose proof Hinv as [Hr Hp Hd Hx Hs Hne]. simpl in *.
    assert (Hinv' : run_inv (seen ++ [t])
      (mkBatch (txns b ++ [t]) (dmls b ++ DMLs t) (bm_enableDispatch b) (limit b), tr)).
    { split; simpl; try done.
      - by rewrite (assoc_L (++)), Hr.
      - apply Forall_app. split; [done|by constructor].
      - rewrite bind_app, Hd. simpl. by rewrite app_nil_r.
      - apply Forall_app. split; [done|by constructor]. }
    case_match.
    + intros H'. destruct (run_inv_exec _ _ _ _ Hinv' H') as [Hinv2 _].
      split; [done|]. by exists (seen ++ [t]).
    + intros [= <- <-]. split; [done|]. by exists (seen ++ [t]).
Qed.

Definition seen_of (input : list (option txn)) : list txn := omap id input.

Lemma Run_loop_inv input : forall seen st st' e,
  run_inv seen st -> Forall txn_ok (seen_of input) -> Run_loop input st = (st', e) ->
  exists seen', seen' `prefix_of` seen ++ seen_of input /\ run_inv seen' st' /\
    (e = None -> reported st'.2 = seen ++ seen_of input).
Proof.
  induction input as [|o input IH]; intros seen st st' e Hinv Hok; cbn [Run_loop].
  - intros H. destruct (run_inv_exec _ _ _ _ Hinv H) as [Hinv' Hnil].
    exists seen. simpl. rewrite app_nil_r. split; [done|]. split; [done|].
    intros ->. pose proof (rn_reported _ _ Hinv') as Hr. by rewrite (Hnil eq_refl), app_nil_r in Hr.
  - destruct o as [t|].
    + simpl in Hok. apply Forall_cons_iff in Hok as [Ht Hok].
      destruct (put t st) as [st1 e1] eqn:Ep.
      destruct (run_inv_put _ _ _ _ _ Hinv Ht Ep) as [Hnone (seen1 & Hpre & Hinv1)].
      assert (Hcons : seen ++ seen_of (Some t :: input) = (seen ++ [t]) ++ seen_of input).
      { simpl. by rewrite <- (assoc_L (++)). }
      rewrite Hcons. destruct e1 as [e1|].
      * intros [= <- <-]. exists seen1. split; [|done]. by apply prefix_app_r.
      * intros H. by eapply IH; [apply Hnone|..].
    + simpl in Hok.
      assert (Hex : forall st1 e1, (if (0 <? length (dmls st.1))%nat then execAccumulatedDMLs st
                      else (st, None)) = (st1, e1) -> run_inv seen st1).
      { intros st1 e1. case_match; [|by intros [= <- <-]].
        intros H'. by destruct (run_inv_exec _ _ _ _ Hinv H'). }
      destruct (if (0 <? length (dmls st.1))%nat then _ else _) as [st1 [e1|]] eqn:Ex.
      * intros [= <- <-]. exists seen. split; [|split; [by eapply Hex|done]].
        by apply prefix_app_r.
      * intros H. eapply IH; [by eapply Hex|done|done].
Qed.

Lemma run_inv_start o : run_inv [] (newBatchManager o, []).
Proof.
  split; simpl; try done. intros p Hp. apply prefix_nil_inv in Hp as ->. by exists [].
Qed.


(** A transaction without DMLs is reported out of order: put before a DDL, it
    stays in the batch, because [execAccumulatedDMLs] returns early when there
    is no DML, and the DDL is reported first; if the input then ends, the empty
    transaction is never reported at all, though [Run] returns no error. *)
Theorem empty_txn_unreported o (t d : txn) ddl :
  Txn_DDL t = None -> DMLs t = [] -> Txn_DDL d = Some ddl -> DDL_Database ddl <> "" ->
  0 < batch_limit o -> enableDispatch o = true -> ddl_error [] ddl = None ->
  Run o [Some t; Some d] = ([EvDDL ddl; EvSuccess [d]], None).
Proof.
  intros Ht Hd Hdd Hdb Hlim Hdis Herr. unfold Run. cbn [Run_loop]. unfold put at 1. rewrite Ht, Hd.
  simpl. rewrite Hdis. rewrite (proj2 (Z.leb_gt (batch_limit o) (Z.of_nat 0))) by done. simpl.
  unfold put. rewrite Hdd. destruct (DDL_Database ddl); [done|]. simpl. by rewrite Herr.
Qed.

End Batch.

(** ** The transaction cache *)

(** [txnManager]: where its goroutine is, the counters, the cache channel, and
    the transactions the consumer has taken but not yet accounted for with
    [pop].  A transaction counts with its number of DMLs. *)
Inductive cache_pc :=
  | CacheReceive
  | CacheWait (txnSize : Z)
  | CacheSend (txnSize : Z)
  | CacheCount (txnSize : Z)
  | CacheStopped.

Record txnManager := mkCache {
  cc_pc : cache_pc;
  cachedSize : Z;
  maxCacheSize : Z;
  cacheChan : list Z;
  taken : list Z;
  cc_closed : bool;
}.

Definition newTxnManager (max : Z) : txnManager := mkCache CacheReceive 0 max [] [] false.

Definition sum_sizes (l : list Z) : Z := foldr Z.add 0 l.

(** The condition under which the goroutine stops waiting. *)
Definition fits (txnSize : Z) (t : txnManager) : bool :=
  if txnSize <? maxCacheSize t then txnSize + cachedSize t <=? maxCacheSize t
  else cachedSize t =? 0.

(** The capacity of the cache channel. *)
Definition cacheCap : nat := 1024.

Inductive cache_step : txnManager -> txnManager -> Prop :=
  | cs_receive n t : cc_pc t = CacheReceive -> cc_closed t = false -> 0 <= n ->
      cache_step t (mkCache (CacheWait n) (cachedSize t) (maxCacheSize t) (cacheChan t) (taken t) false)
  | cs_wait n t : cc_pc t = CacheWait n -> cc_closed t = true \/ fits n t = true ->
      cache_step t (mkCache (CacheSend n) (cachedSize t) (maxCacheSize t) (cacheChan t) (taken t) (cc_closed t))
  | cs_send n t : cc_pc t = CacheSend n -> (length (cacheChan t) < cacheCap)%nat ->
      cache_step t (mkCache (CacheCount n) (cachedSize t) (maxCacheSize t) (cacheChan t ++ [n]) (taken t) (cc_closed t))
  | cs_count n t : cc_pc t = CacheCount n ->
      cache_step t (mkCache CacheReceive (cachedSize t + n) (maxCacheSize t) (cacheChan t) (taken t) (cc_closed t))
  | cs_quit t : cc_pc t = CacheReceive \/ (exists n, cc_pc t = CacheSend n /\ cc_closed t = true) ->
      cache_step t (mkCache CacheStopped (cachedSize t) (maxCacheSize t) (cacheChan t) (taken t) (cc_closed t))
  | cs_take n q t : cacheChan t = n :: q ->
      cache_step t (mkCache (cc_pc t) (cachedSize t) (maxCacheSize t) q (taken t ++ [n]) (cc_closed t))
  | cs_pop n q t : taken t = n :: q ->
      cache_step t (mkCache (cc_pc t) (cachedSize t - n) (maxCacheSize t) (cacheChan t) q (cc_closed t))
  | cs_close t :
      cache_step t (mkCache (cc_pc t) (cachedSize t) (maxCacheSize t) (cacheChan t) (taken t) true).

(** The DMLs held by the cache and by the consumer. *)
Definition in_flight (t : txnManager) : list Z := cacheChan t ++ taken t.

Definition uncounted (t : txnManager) : Z := match cc_pc t with CacheCount n => n | _ => 0 end.

(** The sizes fit the limit, or all but one are 0. *)
Definition bounded (max : Z) (l : list Z) : Prop := sum_sizes l <= max \/ sum_sizes l ∈ l.

Record cache_inv (max : Z) (t : txnManager) : Prop := {
  ci_max : maxCacheSize t = max;
  ci_sizes : Forall (fun n => 0 <= n) (in_flight t);
  ci_pc_size : forall n, cc_pc t = CacheWait n \/ cc_pc t = CacheSend n -> 0 <= n;
  ci_count : cachedSize t + uncounted t = sum_sizes (in_flight t);
  ci_fits : cc_closed t = false -> forall n, cc_pc t = CacheSend n ->
              n + cachedSize t <= max \/ cachedSize t = 0;
  ci_bounded : cc_closed t = false -> bounded max (in_flight t);
}.

Lemma sum_sizes_app l l' : sum_sizes (l ++ l') = sum_sizes l + sum_sizes l'.
Proof. induction l as [|n l IH]; simpl; [lia|]. fold (sum_sizes (l ++ l')). rewrite IH. lia. Qed.

#[export] Instance sum_sizes_Permutation : Proper (Permutation ==> eq) sum_sizes.
Proof. intros l l' Hp. induction Hp; simpl; lia. Qed.

Lemma sum_sizes_nonneg l : Forall (fun n => 0 <= n) l -> 0 <= sum_sizes l.
Proof. induction 1; simpl; lia. Qed.

Lemma sum_sizes_elem l n : Forall (fun n => 0 <= n) l -> n ∈ l -> n <= sum_sizes l.
Proof.
  induction 1 as [|m l Hm Hl IH]; [by intros ?%not_elem_of_nil|].
  pose proof (sum_sizes_nonneg l Hl). intros [->|Hn]%elem_of_cons; simpl; [lia|].
  specialize (IH Hn). lia.
Qed.

#[export] Instance bounded_Permutation max : Proper (Permutation ==> iff) (bounded max).
Proof.
  intros l l' Hp. unfold bounded. rewrite (sum_sizes_Permutation _ _ Hp).
  assert (Hin : sum_sizes l' ∈ l <-> sum_sizes l' ∈ l') by by rewrite Hp. tauto.
Qed.

(** Removing a transaction keeps the bound; so does adding one that fits. *)
Lemma bounded_remove max n l :
  0 <= max -> Forall (fun n => 0 <= n) (n :: l) -> bounded max (n :: l) -> bounded max l.
Proof.
  intros Hmax [Hn Hl]%Forall_cons_iff [Hle|Hin]; unfold bounded; simpl in *; [left; lia|].
  apply elem_of_cons in Hin as [Heq|Hin]; [left; lia|].
  pose proof (sum_sizes_elem _ _ Hl Hin). right. replace (sum_sizes l) with (n + sum_sizes l) by lia. done.
Qed.

Lemma bounded_add max n l : 0 <= n -> n + sum_sizes l <= max \/ sum_sizes l = 0 -> bounded max (n :: l).
Proof.
  intros Hn [?|H0]; unfold bounded; simpl; [left; lia|].
  right. replace (n + sum_sizes l) with n by lia. by left.
Qed.

(** The goroutine sends a transaction. *)
Lemma cache_inv_send max t n :
  cache_inv max t -> cc_pc t = CacheSend n ->
  cache_inv max (mkCache (CacheCount n) (cachedSize t) (maxCacheSize t) (cacheChan t ++ [n]) (taken t) (cc_closed t)).
Proof.
  intros [Hm Hs Hps Hc Hf Hb] Hpc.
  assert (Hn : 0 <= n) by (apply Hps; auto).
  assert (Hp : (cacheChan t ++ [n]) ++ taken t ≡ₚ n :: in_flight t) by (unfold in_flight; solve_Permutation).
  unfold uncounted in Hc. rewrite Hpc in Hc.
  split; unfold uncounted, in_flight; simpl; try done.
  - rewrite Hp. by constructor.
  - by intros n' [?|?].
  - rewrite (sum_sizes_Permutation _ _ Hp). simpl. lia.
  - intros Hcl. rewrite Hp. apply bounded_add; [done|]. destruct (Hf Hcl n Hpc); lia.
Qed.

(** The consumer accounts for a transaction with [pop]. *)
Lemma cache_inv_pop max t n q :
  0 <= max -> cache_inv max t -> taken t = n :: q ->
  cache_inv max (mkCache (cc_pc t) (cachedSize t - n) (maxCacheSize t) (cacheChan t) q (cc_closed t)).
Proof.
  intros Hmax [Hm Hs Hps Hc Hf Hb] Hq.
  assert (Hp : in_flight t ≡ₚ n :: cacheChan t ++ q)
    by (unfold in_flight; rewrite Hq; solve_Permutation).
  rewrite Hp in Hs. rewrite (sum_sizes_Permutation _ _ Hp) in Hc. simpl in Hc.
  pose proof Hs as [Hn Hs']%Forall_cons_iff. pose proof (sum_sizes_nonneg _ Hs') as Hnn.
  split; unfold uncounted in *; simpl in *; try done.
  - unfold in_flight. simpl. lia.
  - intros Hcl n' Hpc. rewrite Hpc in Hc. destruct (Hf Hcl n' Hpc); [left|right]; lia.
  - intros Hcl. eapply bounded_remove; [done|exact Hs|]. rewrite <- Hp. by apply Hb.
Qed.

Lemma cache_inv_step max t t' : 0 <= max -> cache_inv max t -> cache_step t t' -> cache_inv max t'.
Proof.
  intros Hmax Hinv Hstep. pose proof Hinv as [Hm Hs Hps Hc Hf Hb]. unfold uncounted in *.
  inversion Hstep as [n u Hpc Hcl Hn|n u Hpc Hor|n u Hpc Hcap|n u Hpc|u Hor|n q u Hq|n q u Hq|u]; subst u t'.
  - rewrite Hpc in *. split; try done; simpl; [intros n' [[= <-]|[=]]; done|intros _; by apply Hb].
  - rewrite Hpc in *. split; try done; simpl.
    + intros n' [[=]|[= <-]]. apply Hps. by left.
    + intros Hcl n' [= <-]. destruct Hor as [?|Hfit]; [congruence|]. unfold fits in Hfit.
      rewrite Hm in Hfit. destruct (n <? max); [left|right]; lia.
  - by apply cache_inv_send.
  - rewrite Hpc in *. split; try done; simpl; [by intros n' [?|?]|].
    unfold uncounted. simpl. rewrite Z.add_0_r. exact Hc.
  - split; try done; simpl; [by intros n' [?|?]|].
    unfold uncounted. simpl. destruct Hor as [Hpc|(n & Hpc & _)]; by rewrite Hpc in Hc.
  - assert (Hp : q ++ taken t ++ [n] ≡ₚ in_flight t) by (unfold in_flight; rewrite Hq; solve_Permutation).
    split; unfold in_flight; simpl; try done.
    + by rewrite Hp.
    + unfold uncounted. simpl. by rewrite (sum_sizes_Permutation _ _ Hp).
    + intros Hcl. rewrite Hp. by apply Hb.
  - by apply cache_inv_pop.
  - by split.
Qed.

(** C38: The transaction cache is bounded: while it is open, the DMLs that are in
    the cache channel or taken out and not yet accounted for are at most
    [maxCacheSize], unless all of them belong to one larger transaction; the
    counter agrees with them except between a send and its accounting. *)
Theorem txnManager_bounded max t :
  0 <= max -> rtc cache_step (newTxnManager max) t ->
  (cc_closed t = false -> bounded max (cacheChan t ++ taken t)) /\
  cachedSize t + uncounted t = sum_sizes (cacheChan t ++ taken t).
Proof.
  intros Hmax Hr. assert (Hinv : cache_inv max t).
  { remember (newTxnManager max) as t0 eqn:E.
    assert (H0 : cache_inv max t0).
    { subst t0. split; simpl; try done; [by intros n [?|?]|]. intros _. left. done. }
    clear E. induction Hr as [|t0 t1 t2 Hs Hr IH]; [done|]. apply IH. by eapply cache_inv_step. }
  split; apply Hinv.
Qed.
