(* ===== verification/LoaderExec.v ===== *)
(** * LoaderExec
    Execution of DMLs by the loader: the cache of table infos and the
    preparation of DMLs ([pkg/loader/load.go]), the table info read from the
    downstream ([pkg/loader/util.go]) and the transactions of the executor ([pkg/loader/executor.go]). *)
From Stdlib Require Import Init.Byte.
From stdpp Require Import base option list gmap strings sorting.
From S2P Require Import Prelude Causality LoaderModel LoaderMerge LoaderBatch.

(** ** Table infos *)

(** A row of [information_schema.statistics]: [non_unique], [index_name] and
    [column_name], in the order of [seq_in_index]. *)
Record statistic := mkStat { non_unique : bool; stat_index : string; stat_column : string }.

(** The search of [getUniqKeys]: append to the index of that name or create it. *)
Fixpoint add_index_column (keyName columnName : string) (keys : list indexInfo) : list indexInfo :=
  match keys with
  | [] => [mkIndex keyName [columnName]]
  | k :: keys =>
    if bool_decide (index_name k = keyName)
    then mkIndex (index_name k) (index_columns k ++ [columnName]) :: keys
    else k :: add_index_column keyName columnName keys
  end.

Definition getUniqKeys (rows : list statistic) : list indexInfo :=
  foldl (fun keys r => if non_unique r then keys else add_index_column (stat_index r) (stat_column r) keys)
    [] rows.

(** A row of [information_schema.columns]: [column_name] and [extra]. *)
Fixpoint contains (sub s : string) : bool :=
  String.prefix sub s || match s with "" => false | String _ s => contains sub s end.

Definition getColsOfTbl (rows : list (string * string)) : outcome (list string) :=
  let cols := (filter (fun r => contains "VIRTUAL GENERATED" r.2 || contains "STORED GENERATED" r.2 = false) rows).*1 in
  match cols with
  | [] => Fail (Err "table not exist")
  | _ => Ret cols
  end.

(** Exchange element [i] with the first one. *)
Definition swap_first (i : nat) (l : list indexInfo) : list indexInfo :=
  match l !! i, l !! 0%nat with
  | Some a, Some b => <[0%nat := a]> (<[i := b]> l)
  | _, _ => l
  end.

(** [getTableInfo(db, schema, table)] on the rows of its two queries. *)
Definition getTableInfoFromDB (cols : list (string * string)) (stats : list statistic) : outcome tableInfo :=
  let! columns := getColsOfTbl cols in
  let uniqueKeys := getUniqKeys stats in
  match list_find (fun k => index_name k = "PRIMARY") uniqueKeys with
  | Some (i, _) =>
    let uniqueKeys := swap_first i uniqueKeys in
    Ret (mkTable columns (uniqueKeys !! 0%nat) uniqueKeys)
  | None => Ret (mkTable columns None uniqueKeys)
  end.

Section TableInfos.
(** The downstream schema: [getTableInfoFromDB] of the loader. *)
Context (fetch : string -> string -> outcome tableInfo).

(** [tableInfos], keyed by the quoted table name. *)
Definition infos := gmap string tableInfo.

(** [refreshTableInfo]: [None] is the nil info of an empty table name. *)
Definition refreshTableInfo (schema table : string) (c : infos) : outcome (option tableInfo * infos) :=
  if (String.length schema =? 0)%nat then Fail (Err "schema is empty")
  else if (String.length table =? 0)%nat then Ret (None, c)
  else
    let! info := fetch schema table in
    Ret (Some info, <[quoteSchema schema table := info]> c).

Definition evictTableInfo (schema table : string) (c : infos) : infos :=
  delete (quoteSchema schema table) c.

Definition getTableInfo (schema table : string) (c : infos) : outcome (option tableInfo * infos) :=
  match c !! quoteSchema schema table with
  | Some info => Ret (Some info, c)
  | None => refreshTableInfo schema table c
  end.

(** [setDMLInfo]: a nil info makes the later field accesses panic. *)
Definition setDMLInfo (dml : DML) (c : infos) : outcome (DML * infos) :=
  let! (i, c) := getTableInfo (Database dml) (Table dml) c in
  match i with
  | None => Panic
  | Some i => Ret (mkDML (Database dml) (Table dml) (DML_Tp dml) (OldValues dml) (Values dml) i, c)
  end.

(** [filterGeneratedCols]: more values than columns means generated columns. *)
Definition filterGeneratedCols (dml : DML) : DML :=
  if (length (columns (info dml)) <? size (Values dml))%nat then
    let vals := foldl (fun (m : gmap string value) col => <[col := at_key (Values dml) col]> m) ∅
                  (columns (info dml)) in
    mkDML (Database dml) (Table dml) (DML_Tp dml) (OldValues dml) vals (info dml)
  else dml.

(** [removeOrphanCols]: a column is removed from the old values only if it is
    removed from the new ones. *)
Definition removeOrphanCols (i : tableInfo) (dml : DML) : DML :=
  let orphan := fun name => is_Some (Values dml !! name) /\ name ∉ columns i in
  mkDML (Database dml) (Table dml) (DML_Tp dml)
    (filter (fun p => ~ orphan p.1) (OldValues dml))
    (filter (fun p => ~ orphan p.1) (Values dml)) (info dml).

(** The first loop of [execDMLs]. *)
Fixpoint prepare (mode : SyncMode) (dmls : list DML) (c : infos) : outcome (list DML * infos) :=
  match dmls with
  | [] => Ret ([], c)
  | dml :: dmls =>
    let! (dml, c) := setDMLInfo dml c in
    let dml := filterGeneratedCols dml in
    let dml := if bool_decide (mode = SyncPartialColumn) then removeOrphanCols (info dml) dml else dml in
    let! (rest, c) := prepare mode dmls c in
    Ret (dml :: rest, c)
  end.

End TableInfos.

(** [groupDMLs]. *)
Fixpoint group_loop (dmls : list DML) (batch : gmap string (list DML)) (single : list DML)
    : gmap string (list DML) * list DML :=
  match dmls with
  | [] => (batch, single)
  | dml :: dmls =>
    match primaryKey (info dml) with
    | Some _ =>
      group_loop dmls (<[TableName dml := default [] (batch !! TableName dml) ++ [dml]]> batch) single
    | None => group_loop dmls batch (single ++ [dml])
    end
  end.

Definition groupDMLs (merge : bool) (dmls : list DML) : gmap string (list DML) * list DML :=
  if merge then group_loop dmls ∅ [] else (∅, dmls).

Definition countEvents (dmls : list DML) : Z * Z * Z :=
  foldl (fun '(i, d, u) dml =>
    match DML_Tp dml with
    | InsertDMLType => (i + 1, d, u)
    | UpdateDMLType => (i, d, u + 1)
    | DeleteDMLType => (i, d + 1, u)
    | UnknownDMLType => (i, d, u)
    end) (0, 0, 0) dmls.

(** ** Transactions of the executor *)

Definition statement : Type := string * list value.

(** The statements [singleExec] of the executor sends for a DML. *)
Definition dml_statements (safeMode : bool) (dml : DML) : list statement :=
  if safeMode && is_update dml then [deleteSQL dml; replaceSQL dml]
  else if safeMode && bool_decide (DML_Tp dml = InsertDMLType) then [replaceSQL dml]
  else [DML_sql dml].

Inductive tx_event := TxBegin | TxExec (s : statement) | TxRollback | TxCommit.

(** The database answers each statement; [begin] and [commit] may fail too. *)
Section Tx.
Context (begin_error commit_error : option error) (exec_error : list tx_event -> statement -> option error).

Fixpoint exec_all (sts : list statement) (tr : list tx_event) : list tx_event * option error :=
  match sts with
  | [] =>
    match commit_error with
    | None => (tr ++ [TxCommit], None)
    | Some e => (tr, Some e)
    end
  | st :: sts =>
    match exec_error tr st with
    | Some e => (tr ++ [TxRollback], Some e)
    | None => exec_all sts (tr ++ [TxExec st])
    end
  end.

(** [e.singleExec(dmls, safeMode)]. *)
Definition executor_singleExec (safeMode : bool) (dmls : list DML) : list tx_event * option error :=
  match begin_error with
  | Some e => ([], Some e)
  | None => exec_all (dmls ≫= dml_statements safeMode) [TxBegin]
  end.

Lemma exec_all_spec sts : forall tr, exists done rest,
  sts = done ++ rest /\
  ((exec_all sts tr).2 = None /\ rest = [] /\ (exec_all sts tr).1 = tr ++ (TxExec <$> done) ++ [TxCommit] \/
   (exec_all sts tr).2 <> None /\ exists end_, (end_ = [] \/ end_ = [TxRollback]) /\
      (exec_all sts tr).1 = tr ++ (TxExec <$> done) ++ end_).
Proof.
  induction sts as [|st sts IH]; intros tr; simpl.
  - exists [], []. split; [done|]. destruct commit_error; [right|left]; simpl.
    + split; [done|]. exists []. rewrite app_nil_r. auto.
    + done.
  - destruct (exec_error tr st) as [e|] eqn:E; simpl.
    + exists [], (st :: sts). split; [done|]. right. split; [done|]. exists [TxRollback]. auto.
    + destruct (IH (tr ++ [TxExec st])) as (done & rest & -> & Hor). exists (st :: done), rest.
      split; [done|]. simpl. destruct Hor as [(? & ? & ->)|(? & end_ & ? & ->)]; [left|right].
      * split_and!; [done|done|]. by rewrite <- (assoc_L (++)).
      * split; [done|]. exists end_. split; [done|]. by rewrite <- (assoc_L (++)).
Qed.

(** The executor is atomic: a batch of DMLs is one transaction. It commits
    exactly after all statements of all DMLs, in order, have succeeded; otherwise
    it reports an error and nothing is committed. *)
Theorem executor_atomic safeMode dmls :
  let '(tr, e) := executor_singleExec safeMode dmls in
  (e = None <-> TxCommit ∈ tr) /\
  (e = None -> tr = TxBegin :: (TxExec <$> (dmls ≫= dml_statements safeMode)) ++ [TxCommit]).
Proof.
  unfold executor_singleExec. destruct begin_error as [e|].
  { split; [|done]. split; [done|]. by intros ?%not_elem_of_nil. }
  destruct (exec_all_spec (dmls ≫= dml_statements safeMode) [TxBegin]) as (done & rest & Heq & Hor).
  destruct (exec_all _ _) as [tr e]. simpl in *.
  destruct Hor as [(-> & -> & ->)|(He & end_ & Hend & ->)].
  - rewrite app_nil_r in Heq. rewrite Heq. split; [|done]. split; [|done]. intros _.
    apply elem_of_cons. right. apply elem_of_app. right. by left.
  - split; [|done]. split; [done|]. intros [?|[(? & ? & _)%list_elem_of_fmap|Hin]%elem_of_app]%elem_of_cons; try done.
    destruct Hend as [->| ->]; [by apply not_elem_of_nil in Hin|].
    apply list_elem_of_singleton in Hin. done.
Qed.

End Tx.

(** ** Safe mode *)

(** The keys a DML writes. *)
Definition written_keys (d : DML) : list (list value) :=
  match DML_Tp d with
  | UnknownDMLType => []
  | UpdateDMLType => [oldPrimaryKeyValues d; primaryKeyValues d]
  | _ => [primaryKeyValues d]
  end.

Lemma apply_row_agree d t t' k :
  (k ∈ written_keys d \/ t k = t' k) -> apply_row d t k = apply_row d t' k.
Proof.
  unfold apply_row, written_keys, put_row. destruct (DML_Tp d); rewrite ?elem_of_cons, ?elem_of_nil;
    repeat case_decide; try done; tauto.
Qed.

(** Two tables that differ only in rows the DMLs write agree afterwards. *)
Lemma apply_rows_agree dmls : forall t t' k,
  (k ∈ dmls ≫= written_keys) \/ t k = t' k -> apply_rows dmls t k = apply_rows dmls t' k.
Proof.
  induction dmls as [|d dmls IH]; intros t t' k Hor; simpl.
  { destruct Hor as [Hin|?]; [by apply not_elem_of_nil in Hin|done]. }
  apply IH. rewrite bind_cons, elem_of_app in Hor.
  destruct Hor as [[Hd|?]|?]; [right|by left|right]; apply apply_row_agree; auto.
Qed.

Lemma apply_rows_unwritten dmls t k : k ∉ dmls ≫= written_keys -> apply_rows dmls t k = t k.
Proof.
  revert t. induction dmls as [|d dmls IH]; intros t Hk; [done|].
  rewrite bind_cons, not_elem_of_app in Hk. destruct Hk as [Hd Hk]. simpl. rewrite IH by done.
  unfold apply_row, written_keys, put_row in *. destruct (DML_Tp d);
    rewrite ?not_elem_of_cons in Hd; repeat case_decide; tauto || done.
Qed.

(** Safe mode makes replays harmless: in safe mode every DML overwrites the
    rows it is about (REPLACE, or DELETE and REPLACE), and executing any number
    of the DMLs of a batch and then, after a restart, the whole batch leaves
    every row as executing the batch once. *)
Theorem safe_mode_replay dmls part t k :
  (forall d, d ∈ part -> d ∈ dmls) ->
  apply_rows dmls (apply_rows part t) k = apply_rows dmls t k.
Proof.
  intros Hsub. apply apply_rows_agree.
  destruct (decide (k ∈ part ≫= written_keys)) as [Hin|Hni].
  - left. apply list_elem_of_bind in Hin as (d & Hk & Hd). apply list_elem_of_bind. exists d. auto.
  - right. by apply apply_rows_unwritten.
Qed.

(** ** Grouping *)

Definition has_pk (d : DML) : Prop := is_Some (primaryKey (info d)).
#[export] Instance has_pk_dec d : Decision (has_pk d).
Proof. unfold has_pk. apply _. Defined.

Lemma group_loop_spec dmls : forall batch single,
  (group_loop dmls batch single).2 = single ++ filter (fun d => ~ has_pk d) dmls /\
  forall tbl, default [] ((group_loop dmls batch single).1 !! tbl) =
    default [] (batch !! tbl) ++ filter (fun d => has_pk d /\ TableName d = tbl) dmls.
Proof.
  induction dmls as [|d dmls IH]; intros batch single; simpl.
  { rewrite app_nil_r. split; [done|]. intros tbl. by rewrite app_nil_r. }
  destruct (primaryKey (info d)) as [pk|] eqn:E.
  - assert (Hpk : has_pk d) by (unfold has_pk; rewrite E; eauto).
    destruct (IH (<[TableName d := default [] (batch !! TableName d) ++ [d]]> batch) single) as [-> Hb].
    split; [by rewrite filter_cons_False by tauto|]. intros tbl. rewrite Hb.
    destruct (decide (TableName d = tbl)) as [<-|Hne].
    + rewrite lookup_insert_eq, filter_cons_True by done. simpl. by rewrite <- (assoc_L (++)).
    + rewrite lookup_insert_ne, filter_cons_False by tauto. done.
  - assert (Hpk : ~ has_pk d) by (unfold has_pk; rewrite E; by intros [? ?]).
    destruct (IH batch (single ++ [d])) as [-> Hb]. split.
    + rewrite filter_cons_True, <- (assoc_L (++)) by done. done.
    + intros tbl. rewrite Hb, filter_cons_False by tauto. done.
Qed.

(** Grouping keeps the order where it matters: when merging is on, the batch
    of a table is the subsequence of its DMLs, in order, if the table has a
    primary key, and all other DMLs are executed singly, in order; when it is
    off, everything is executed singly. *)
Theorem groupDMLs_partition dmls :
  groupDMLs false dmls = (∅, dmls) /\
  (groupDMLs true dmls).2 = filter (fun d => ~ has_pk d) dmls /\
  forall tbl, default [] ((groupDMLs true dmls).1 !! tbl) =
    filter (fun d => has_pk d /\ TableName d = tbl) dmls.
Proof.
  split; [done|]. destruct (group_loop_spec dmls ∅ []) as [H1 H2]. split; [done|].
  intros tbl. unfold groupDMLs. by rewrite H2, lookup_empty.
Qed.

(** ** Table infos *)

Lemma list_find_swap (l : list indexInfo) i k :
  list_find (fun k => index_name k = "PRIMARY") l = Some (i, k) ->
  swap_first i l !! 0%nat = Some k /\ swap_first i l ≡ₚ l.
Proof.
  intros (Hi & Hk & _)%list_find_Some. unfold swap_first. rewrite Hi.
  destruct l as [|b l]; [done|].
  destruct i as [|i]; simpl in *; [by simplify_eq|]. split; [done|].
  rewrite <- (take_drop_middle l i k Hi) at 2.
  rewrite (insert_take_drop l i b) by by eapply lookup_lt_Some. solve_Permutation.
Qed.

(** The table info puts the primary key first: it is the first unique key, so
    that it is preferred in WHERE clauses, and the unique keys are those of the
    table; a table without columns does not exist. *)
Theorem getTableInfo_primary cols stats i :
  getTableInfoFromDB cols stats = Ret i ->
  uniqueKeys i ≡ₚ getUniqKeys stats /\ columns i <> [] /\
  (forall pk, primaryKey i = Some pk -> uniqueKeys i !! 0%nat = Some pk /\ index_name pk = "PRIMARY") /\
  (primaryKey i = None -> Forall (fun k => index_name k <> "PRIMARY") (uniqueKeys i)).
Proof.
  unfold getTableInfoFromDB. intros (cs & Hc & H)%obind_Ret_inv.
  assert (Hne : cs <> []).
  { clear H. unfold getColsOfTbl in Hc. case_match eqn:E; [done|]. by injection Hc as <-. }
  destruct (list_find _ _) as [[n k]|] eqn:E; simplify_eq/=.
  - destruct (list_find_swap _ _ _ E) as [H0 Hp]. rewrite H0. split; [done|]. split; [done|].
    split; [|done]. intros pk [= <-]. split; [done|]. by apply list_find_Some in E as (_ & ? & _).
  - split; [done|]. split; [done|]. split; [done|]. intros _. by apply list_find_None in E.
Qed.

(** ** Concrete inputs *)
Module LoaderExecExamples.

Import LoaderModelExamples.

Lemma safe_mode_replay_witness :
  apply_rows [ins; upd; del] (apply_rows [ins; upd] (fun _ => None)) [VInt64 2] =
  apply_rows [ins; upd; del] (fun _ => None) [VInt64 2].
Proof.
  apply safe_mode_replay. intros d. rewrite !elem_of_cons. tauto.
Defined.

Definition cols : list (string * string) :=
  [("id", ""); ("name", ""); ("g", "VIRTUAL GENERATED")].
Definition stats : list statistic :=
  [mkStat false "u" "name"; mkStat false "PRIMARY" "id"; mkStat true "i" "g"; mkStat false "u" "id"].

Lemma getTableInfo_primary_witness :
  getTableInfoFromDB cols stats =
    Ret (mkTable ["id"; "name"] (Some (mkIndex "PRIMARY" ["id"]))
           [mkIndex "PRIMARY" ["id"]; mkIndex "u" ["name"; "id"]]) /\
  [mkIndex "PRIMARY" ["id"]; mkIndex "u" ["name"; "id"]] ≡ₚ getUniqKeys stats.
Proof.
  assert (H : getTableInfoFromDB cols stats =
    Ret (mkTable ["id"; "name"] (Some (mkIndex "PRIMARY" ["id"]))
           [mkIndex "PRIMARY" ["id"]; mkIndex "u" ["name"; "id"]])) by (vm_compute; reflexivity).
  split; [exact H|]. exact (proj1 (getTableInfo_primary _ _ _ H)).
Defined.

(** Two transactions of one DML around a DDL, with a pause in between. *)
Definition t1 : Txn unit := mkTxn [upd] None 0 None.
Definition t2 : Txn unit := NewDDLTxn "d" "t" "create table t(id int)".
Definition t3 : Txn unit := mkTxn [del; ins] None 0 None.
Definition opts : options := NewLoader [WorkerCount 1; BatchSize 1].

Definition trace : list (event (Meta := unit)) :=
  [EvDMLs [upd]; EvSuccess [t1]; EvDDL (mkDDL "d" "t" "create table t(id int)" false);
   EvSuccess [t2]; EvDMLs [del; ins]; EvSuccess [t3]].


Lemma empty_txn_unreported_witness :
  Run (fun _ _ => None) (fun _ _ => None) (fun _ => false) opts [Some (mkTxn [] None 0 None); Some t2] =
    ([EvDDL (mkDDL "d" "t" "create table t(id int)" false); EvSuccess [t2]], None).
Proof. apply empty_txn_unreported; done. Defined.

Lemma txnManager_bounded_witness :
  bounded 10 [4; 5] /\ 0 + 9 = sum_sizes [4; 5].
Proof.
  pose proof (txnManager_bounded 10 (mkCache CacheReceive 9 10 [5] [4] false)) as H.
  destruct H as [H1 H2].
  - lia.
  - eapply rtc_l; [apply (cs_receive 4); simpl; lia || done|].
    eapply rtc_l; [apply (cs_wait 4); simpl; auto|].
    eapply rtc_l; [apply (cs_send 4); simpl; [done|unfold cacheCap; lia]|].
    eapply rtc_l; [apply (cs_count 4); done|]. simpl.
    eapply rtc_l; [apply (cs_receive 5); simpl; lia || done|].
    eapply rtc_l; [apply (cs_take 4 []); done|].
    eapply rtc_l; [apply (cs_wait 5); simpl; auto|].
    eapply rtc_l; [apply (cs_send 5); simpl; [done|unfold cacheCap; lia]|].
    eapply rtc_l; [apply (cs_count 5); done|]. simpl. apply rtc_refl.
  - simpl in *. split; [|lia]. specialize (H1 eq_refl).
    rewrite (Permutation_swap 4 5 []) in H1. exact H1.
Defined.

End LoaderExecExamples.
