(* ===== verification/BinlogFile.v ===== *)
(** * BinlogFile
    The local binlog files of drainer ([pkg/binlogfile]), which the relay log and
    the file sink write: the framing of a payload ([encoder.go], [decoder.go]), the
    file names ([file.go]), and the directory with its writer and its reader
    ([binlogger.go]). *)
From Stdlib Require Import Init.Byte Strings.Byte Ascii.
From stdpp Require Import base option list sorting strings gmap numbers.
From S2P Require Import Prelude Text LogFile Vlog.

(** ** Framing *)

Definition magic : Z := 471532804.

Definition ErrMagicMismatch : error := Err "binlogger: magic mismatch".
Definition ErrCRCMismatch : error := Err "binlogger: crc mismatch".
Definition ErrFileContentCorruption : error := Err "binlogger: content is corruption".
Definition ErrFileNotFound : error := Err "binlogger: file not found".
Definition ErrBadBinlogName : error := Err "bad file name".

Definition Encode (payload : list byte) : list byte :=
  le_bytes 4 magic ++ le_bytes 8 (len payload) ++ payload ++ le_bytes 4 (crc32 crc_Castagnoli payload).

Definition CheckMagic (mgicNum : Z) : bool := mgicNum =? magic.

(** [io.EOF] in the middle of an entry is [io.ErrUnexpectedEOF]. *)
Definition unexpected {A} (c : outcome A) : outcome A :=
  match c with Fail EOF => Fail ErrUnexpectedEOF | c => c end.

(** [Decode(r)]: the payload, the length of the entry and the rest of the reader.
    Its magic error is returned through [errors.Trace], which keeps an error that
    has a stack; its checksum error is made by [errors.Errorf]. *)
Definition Decode (r : list byte) : outcome (list byte * Z * list byte) :=
  let! (m, r) := read_full 4 r in
  if negb (CheckMagic (le_value m)) then Fail ErrMagicMismatch
  else
    let! (s, r) := unexpected (read_full 8 r) in
    let size := wrap_i64 (le_value s) in
    let n := wrap_i64 (size + 4) in
    if (n <? 0) || (maxAlloc <? n) then Panic
    else
      let! (data, r) := unexpected (read_full n r) in
      if size <? 0 then Panic
      else
        let payload := take (Z.to_nat size) data in
        let entryCrc := le_value (take 4 (drop (Z.to_nat size) data)) in
        if negb (crc32 crc_Castagnoli payload =? entryCrc) then Fail (Err "expected crc32")
        else Ret (payload, 4 + 8 + size + 4, r).

(** ** Searching for the next entry *)

(** The first [i < n] such that the magic number starts at byte [i]. *)
Fixpoint find_magic (n : nat) (buff : list byte) : option nat :=
  match n with
  | O => None
  | S n => if CheckMagic (le_value (take 4 buff)) then Some O else S <$> find_magic n (drop 1 buff)
  end.

Definition tailLength : nat := 1021.

(** The loop of [seekBinlog]: three bytes are carried over from one read of 1021
    bytes to the next. *)
Fixpoint seek_loop (fuel : nat) (header r : list byte) (offset : Z) : outcome Z :=
  match fuel with
  | O => Panic
  | S fuel =>
    let tail := take tailLength r in
    let n := length tail in
    match find_magic n (header ++ tail) with
    | Some i => Ret (offset + Z.of_nat i)
    | None =>
      if (n =? 0)%nat then Fail EOF
      else if (n <? tailLength)%nat then Fail ErrUnexpectedEOF
      else seek_loop fuel (drop (tailLength - 3) tail) (drop tailLength r) (offset + Z.of_nat tailLength)
    end
  end.

(** [seekBinlog(f, offset)]; a file has fewer chunks than bytes. *)
Definition seekBinlog (f : list byte) (offset : Z) : outcome Z :=
  if offset <? 0 then Fail (Err "invalid argument")
  else
    let! (header, r) := read_full 3 (drop (Z.to_nat offset) f) in
    seek_loop (S (length r)) header r offset.

(** ** File names *)

(** [fmt.Sscanf(s, "%016d", &index)] for a [uint64]: after blanks, at least one
    and at most 16 digits; the rest is not looked at. *)
Fixpoint skip_blanks (s : string) : string :=
  match s with
  | String c s' => if bool_decide (c = " "%char \/ c = "009"%char) then skip_blanks s' else s
  | EmptyString => s
  end.

Fixpoint scan_digits (n : nat) (a : Z) (s : string) : Z :=
  match n, s with
  | S n, String c s => match digit_value c with Some d => scan_digits n (a * 10 + d) s | None => a end
  | _, _ => a
  end.

Definition sscanf_uint (w : nat) (s : string) : outcome Z :=
  match skip_blanks s with
  | String c s =>
    match digit_value c with
    | Some d => Ret (scan_digits (w - 1) d s)
    | None => Fail (Err "expected integer")
    end
  | EmptyString => Fail ErrUnexpectedEOF
  end.

Definition ParseBinlogName (str : string) : outcome (Z * Z) :=
  if negb (has_prefix "binlog-" str) then Fail ErrBadBinlogName
  else
    match split_on "-" str with
    | [_; item] | [_; item; _] => let! index := sscanf_uint 16 item in Ret (index, 0)
    | [_; item; _; tsitem] =>
      let! index := sscanf_uint 16 item in
      let! ts := parse_int64 (default ""%string (head (split_on "." tsitem))) in
      Ret (index, ts)
    | _ => Fail ErrBadBinlogName
    end.

(** [datetime] is the time of creation, formatted as "20060102150405". *)
Definition binlogNameWithDateTime (index : Z) (datetime : string) : string :=
  "binlog-" +:+ pad0 16 (dec index) +:+ "-" +:+ datetime.

(** ** Directories *)

Abbreviation directory := (gmap string (list byte)).

(** [ReadDir]: the sorted names. *)
Definition ReadDir (dir : directory) : list string := merge_sort String.le (map_to_list dir).*1.

Definition is_binlog_name (name : string) : bool :=
  negb (has_suffix "checkpoint" name) && negb (has_suffix ".lock" name) &&
  match ParseBinlogName name with Ret _ => true | _ => false end.

Definition FilterBinlogNames (names : list string) : list string :=
  filter (fun name => is_binlog_name name = true) names.

Definition ReadBinlogNames (dir : directory) : outcome (list string) :=
  match FilterBinlogNames (ReadDir dir) with
  | [] => Fail ErrFileNotFound
  | fnames => Ret fnames
  end.

(** The index of a name that is known to parse; the results of a failed parse are
    zero values. *)
Definition name_index (name : string) : Z :=
  match ParseBinlogName name with Ret (index, _) => index | _ => 0 end.

(** [SearchIndex]: the last position of a name with the index. *)
Fixpoint search_from (i : nat) (rnames : list string) (index : Z) : option nat :=
  match rnames with
  | [] => None
  | name :: rnames => if index =? name_index name then Some (i - 1)%nat else search_from (i - 1) rnames index
  end.
Definition SearchIndex (names : list string) (index : Z) : option nat :=
  search_from (length names) (reverse names) index.

(** [IsValidBinlog]; [log.Fatal] is a panic. *)
Fixpoint valid_from (lastSuffix : Z) (names : list string) : outcome bool :=
  match names with
  | [] => Ret true
  | name :: names =>
    match ParseBinlogName name with
    | Ret (curSuffix, _) =>
      if negb (lastSuffix =? 0) && negb (lastSuffix =? wrap_u64 (curSuffix - 1)) then Ret false
      else valid_from curSuffix names
    | _ => Panic
    end
  end.
Definition IsValidBinlog (names : list string) : outcome bool := valid_from 0 names.

(** ** The writer *)

Record Pos := mkPos { Suffix : Z; PosOffset : Z }.
Record Entity := mkEntity { e_pos : Pos; e_payload : list byte }.

(** [binlogger]; the directory is its file system, [file] the name of the current
    file, [fpos] the position of its descriptor and [enc_offset] the offset of the
    encoder. *)
Record binlogger := mkBinlogger {
  dir : directory;
  maxFileSize : Z;
  file : string;
  fpos : nat;
  enc_offset : Z;
  lastSuffix : Z;
  lastOffset : Z;
}.

Definition contents (d : directory) (name : string) : list byte := default [] (d !! name).

(** [OpenBinlogger] at the time [now]. *)
Definition OpenBinlogger (d : directory) (max : Z) (now : string) : outcome binlogger :=
  let d := <[".lock" := contents d ".lock"]> d in
  let names := match ReadBinlogNames d with Ret names => names | _ => [] end in
  let! (name, suffix) :=
    match list.last names with
    | None => Ret (binlogNameWithDateTime 0 now, 0)
    | Some name =>
      let! valid := IsValidBinlog names in
      if negb valid then Fail ErrFileContentCorruption
      else let! (suffix, _) := ParseBinlogName name in Ret (name, suffix)
    end in
  let c := contents d name in
  Ret (mkBinlogger (<[name := c]> d) max name (length c) (len c) suffix (len c)).

(** A [write] system call at the position of the descriptor. *)
Definition write_at (c : list byte) (pos : nat) (data : list byte) : list byte :=
  take pos c ++ data ++ drop (pos + length data) c.

(** [encoder.Encode]: after an error the encoder does not count the bytes that
    were written. *)
Definition encoder_Encode (w : io_write) (payload : list byte) (b : binlogger) : binlogger * outcome Z :=
  let data := Encode payload in
  let '(n, e) := match w with WOk => (length data, None) | WErr n e => (Nat.min n (length data), Some e) end in
  let d := <[file b := write_at (contents (dir b) (file b)) (fpos b) (take n data)]> (dir b) in
  match e with
  | Some e => (mkBinlogger d (maxFileSize b) (file b) (fpos b + n) (enc_offset b) (lastSuffix b) (lastOffset b), Fail e)
  | None =>
    let off := enc_offset b + len data in
    (mkBinlogger d (maxFileSize b) (file b) (fpos b + n) off (lastSuffix b) (lastOffset b), Ret off)
  end.

(** [seq]. *)
Definition seq_ (b : binlogger) : outcome Z :=
  match ParseBinlogName (file b) with Ret (seq, _) => Ret seq | _ => Panic end.

(** [rotate] at the time [now]; [lock] is the error of [file.LockFile]. *)
Definition rotate (lock : option error) (now : string) (b : binlogger) : binlogger * outcome unit :=
  match seq_ b with
  | Ret seq =>
    let suffix := wrap_u64 (seq + 1) in
    let filename := binlogNameWithDateTime suffix now in
    match lock with
    | Some e => (mkBinlogger (dir b) (maxFileSize b) (file b) (fpos b) (enc_offset b) suffix 0, Fail e)
    | None =>
      (mkBinlogger (<[filename := contents (dir b) filename]> (dir b)) (maxFileSize b) filename 0 0 suffix 0, Ret tt)
    end
  | _ => (b, Panic)
  end.

(** [WriteTail]; a failed rotation is an error although the entry is written. *)
Definition WriteTail (w : io_write) (lock : option error) (now : string) (payload : list byte) (b : binlogger)
    : binlogger * outcome Pos :=
  match payload with
  | [] => (b, Ret (mkPos 0 0))
  | _ =>
    match encoder_Encode w payload b with
    | (b, Ret curOffset) =>
      let b := mkBinlogger (dir b) (maxFileSize b) (file b) (fpos b) (enc_offset b) (lastSuffix b) curOffset in
      let pos := mkPos (lastSuffix b) curOffset in
      if curOffset <? maxFileSize b then (b, Ret pos)
      else
        match rotate lock now b with
        | (b, Ret _) => (b, Ret pos)
        | (b, Fail e) => (b, Fail e)
        | (b, Panic) => (b, Panic)
        end
    | (b, Fail e) => (b, Fail e)
    | (b, Panic) => (b, Panic)
    end
  end.

(** ** The reader *)

Section Walk.
Context {St : Type}.
(** [sendBinlog], and whether the context of the walk is done. *)
Variable sendBinlog : Entity -> St -> St * outcome unit.
Variable done : St -> bool.

(** The loop over one file, whose reader stands at [offset]. [Ret true] goes on to
    the next file, [Ret false] returns because the context is done. *)
Fixpoint walk_file (fuel : nat) (f : list byte) (isLastFile : bool) (suffix offset : Z) (s : St)
    : St * outcome bool :=
  match fuel with
  | O => (s, Panic)
  | S fuel =>
    if done s then (s, Ret false)
    else
      match Decode (drop (Z.to_nat offset) f) with
      | Ret (payload, length, _) =>
        let offset := offset + length in
        match sendBinlog (mkEntity (mkPos suffix offset) payload) s with
        | (s, Ret _) => walk_file fuel f isLastFile suffix offset s
        | (s, Fail e) => (s, Fail e)
        | (s, Panic) => (s, Panic)
        end
      | Fail e =>
        let e := if bool_decide (e = ErrUnexpectedEOF) && isLastFile then EOF else e in
        if bool_decide (e = ErrCRCMismatch) || bool_decide (e = ErrMagicMismatch) then
          match seekBinlog f (offset + 1) with
          | Ret offset => walk_file fuel f isLastFile suffix offset s
          | Fail EOF | Fail ErrUnexpectedEOF => (s, Ret true)
          | Fail e1 => (s, Fail e1)
          | Panic => (s, Panic)
          end
        else if bool_decide (e = EOF) then (s, Ret true)
        else (s, Fail e)
      | Panic => (s, Panic)
      end
  end.

(** The loop over the names; every iteration in a file moves on by a byte. *)
Fixpoint walk_names (names : list string) (d : directory) (first : bool) (from : Pos) (s : St) : St * outcome unit :=
  match names with
  | [] => (s, Ret tt)
  | name :: names =>
    if done s then (s, Ret tt)
    else
      match d !! name with
      | None => (s, Fail (Err "no such file"))
      | Some f =>
        if first && (PosOffset from <? 0) then (s, Fail (Err "invalid argument"))
        else
          match walk_file (S (length f)) f (bool_decide (names = [])) (Suffix from) (PosOffset from) s with
          | (s, Ret true) => walk_names names d false (mkPos (wrap_u64 (Suffix from + 1)) 0) s
          | (s, Ret false) => (s, Ret tt)
          | (s, Fail e) => (s, Fail e)
          | (s, Panic) => (s, Panic)
          end
      end
  end.

(** [Walk]. *)
Definition Walk (from : Pos) (b : binlogger) (s : St) : St * outcome unit :=
  match ReadBinlogNames (dir b) with
  | Ret names =>
    match SearchIndex names (Suffix from) with
    | Some i => walk_names (drop i names) (dir b) true from s
    | None => (s, Fail ErrFileNotFound)
    end
  | Fail e => (s, Fail e)
  | Panic => (s, Panic)
  end.

End Walk.

(** [ReadFrom]: the walk is cancelled once enough entries were read. *)
Definition ReadFrom (from : Pos) (nums : Z) (b : binlogger) : list Entity * outcome unit :=
  if nums <? 0 then ([], Fail (Err "read number must be positive"))
  else
    let '(ents, _, r) :=
      let '((ents, cancelled), r) :=
        Walk (fun e (st : list Entity * bool) =>
                let ents := if len st.1 <? nums then st.1 ++ [e] else st.1 in
                ((ents, st.2 || (len ents =? nums)), Ret tt))
             snd from b ([], false) in (ents, cancelled, r) in
    (ents, r).

(** [ReadAll], with a context that is not canceled: what reaches [result], and the error. *)
Definition ReadAll (b : binlogger) : list Entity * outcome unit :=
  match ReadBinlogNames (dir b) with
  | Ret [] => ([], Ret tt)
  | Ret (name :: _) =>
    match ParseBinlogName name with
    | Ret (minFileIndex, _) => Walk (fun e es => (es ++ [e], Ret tt)) (fun _ => false) (mkPos minFileIndex 0) b []
    | Fail e => ([], Fail e)
    | Panic => ([], Panic)
    end
  | Fail e => ([], Fail e)
  | Panic => ([], Panic)
  end.

(** [GCByPos]: the files before the position, except the last one. *)
Definition GCByPos (pos : Pos) (b : binlogger) : binlogger :=
  match ReadBinlogNames (dir b) with
  | Ret names =>
    let d := foldl (fun d name => if name_index name <? Suffix pos then delete name d else d)
               (dir b) (take (length names - 1) names) in
    mkBinlogger d (maxFileSize b) (file b) (fpos b) (enc_offset b) (lastSuffix b) (lastOffset b)
  | _ => b
  end.

(** [GCByTime], with the age of each file, and whether its [Stat] fails. *)
Definition GCByTime (age : string -> outcome Z) (retentionTime : Z) (b : binlogger) : binlogger :=
  match ReadBinlogNames (dir b) with
  | Ret names =>
    let d := foldl (fun d name => match age name with
                                  | Ret a => if retentionTime <? a then delete name d else d
                                  | _ => d end)
               (dir b) (take (length names - 1) names) in
    mkBinlogger d (maxFileSize b) (file b) (fpos b) (enc_offset b) (lastSuffix b) (lastOffset b)
  | _ => b
  end.

(** ** The relay log ([drainer/relay/relayer.go]) *)
Record relayer := mkRelayer { r_binlogger : binlogger; nextGCFileSuffix : Z }.

Definition defaultMaxFileSize : Z := 10485760.

Definition NewRelayer (d : directory) (max : Z) (now : string) : outcome relayer :=
  let max := if max <=? 0 then defaultMaxFileSize else max in
  let! b := OpenBinlogger d max now in Ret (mkRelayer b 0).

(** [WriteBinlog] of the translated and marshalled binlog. *)
Definition relayer_WriteBinlog (w : io_write) (lock : option error) (now : string) (data : outcome (list byte))
    (r : relayer) : relayer * outcome Pos :=
  match data with
  | Ret data =>
    let '(b, p) := WriteTail w lock now data (r_binlogger r) in (mkRelayer b (nextGCFileSuffix r), p)
  | Fail e => (r, Fail e)
  | Panic => (r, Panic)
  end.

Definition GCBinlog (pos : Pos) (r : relayer) : relayer :=
  if nextGCFileSuffix r <? Suffix pos then mkRelayer (GCByPos pos (r_binlogger r)) (Suffix pos) else r.
