(* ===== verification/BinlogNames.v ===== *)
(** * BinlogNames
    The framing and the file names of [pkg/binlogfile]: round trips, the order of
    the names, and the search for the next entry in a damaged file. *)
From Stdlib Require Import Init.Byte Strings.Byte Ascii.
From stdpp Require Import base option list sorting strings gmap numbers.
From S2P Require Import Prelude Text LogFile Vlog VlogOpen BinlogFile.

(** ** Framing *)

Lemma len_Encode p : len (Encode p) = 16 + len p.
Proof. unfold Encode. rewrite !len_app, !length_le_bytes. lia. Qed.

Lemma magic_bytes rest : le_value (take 4 (le_bytes 4 magic ++ rest)) = magic.
Proof. rewrite take_app_length' by by rewrite length_le_bytes. apply le_value_u32. unfold in_u32, magic. lia. Qed.

Lemma Decode_Encode_app p rest : len p + 4 <= maxAlloc -> Decode (Encode p ++ rest) = Ret (p, 16 + len p, rest).
Proof.
  intros Hp. unfold Decode, Encode. rewrite <- !app_assoc.
  rewrite read_full_app' by (by rewrite length_le_bytes). step_bind.
  rewrite le_value_u32 by (unfold in_u32, magic; lia). cbn [CheckMagic]. unfold CheckMagic. rewrite Z.eqb_refl.
  cbn [negb]. rewrite read_full_app' by (by rewrite length_le_bytes). cbn [unexpected]. step_bind.
  assert (Hm : maxAlloc = 281474976710656) by reflexivity.
  rewrite le_value_u64 by eauto with go. rewrite (wrap_i64_id (len p)), (wrap_i64_id (len p + 4)) by eauto with go.
  destruct (Z.ltb_spec (len p + 4) 0); [lia|]. destruct (Z.ltb_spec maxAlloc (len p + 4)); [lia|]. cbn [orb].
  rewrite (app_assoc p), read_full_app' by (rewrite len_app, length_le_bytes; lia). cbn [unexpected]. step_bind.
  destruct (Z.ltb_spec (len p) 0); [lia|]. rewrite Nat2Z.id, take_app_length, drop_app_length.
  rewrite take_ge by (rewrite length_le_bytes; lia).
  rewrite le_value_u32 by apply crc32_Castagnoli_u32. rewrite Z.eqb_refl. cbn [negb]. do 3 f_equal. lia.
Qed.

(** What was encoded is decoded: from a reader that starts with an encoded
    payload [Decode] returns the payload and its length, and leaves the reader
    behind the entry. *)
Theorem Decode_roundtrip p rest :
  len p + 4 <= maxAlloc ->
  Decode (Encode p ++ rest) = Ret (p, len (Encode p), rest).
Proof. intros Hp. rewrite len_Encode. by apply Decode_Encode_app. Qed.

(** ** Searching *)

(** The reference: the first place where four bytes are the magic number. *)
Definition first_magic (l : list byte) : option nat := find_magic (length l - 3) l.

Lemma find_magic_take n k l : (n + 3 <= k)%nat -> find_magic n (take k l) = find_magic n l.
Proof.
  revert k l. induction n as [|n IH]; intros k l Hk; [done|]. cbn [find_magic].
  rewrite take_take, Nat.min_l by lia. destruct (CheckMagic _); [done|]. f_equal.
  rewrite <- (IH (k - 1)%nat (drop 1 l)) by lia. by rewrite take_drop_commute, Nat.add_comm, Nat.sub_add by lia.
Qed.

Lemma find_magic_add n m l :
  find_magic (n + m) l = match find_magic n l with
                         | Some i => Some i
                         | None => Nat.add n <$> find_magic m (drop n l)
                         end.
Proof.
  revert l. induction n as [|n IH]; intros l; cbn [find_magic Nat.add].
  - rewrite drop_0. by destruct (find_magic m l).
  - destruct (CheckMagic _); [done|]. rewrite IH, drop_drop. change (1 + n)%nat with (S n).
    destruct (find_magic n (drop 1 l)); [done|]. simpl. by destruct (find_magic m (drop (S n) l)).
Qed.

Lemma seek_loop_spec fuel : forall header r offset, (length r < fuel)%nat -> length header = 3%nat ->
  match first_magic (header ++ r) with
  | Some i => seek_loop fuel header r offset = Ret (offset + Z.of_nat i)
  | None => exists e, seek_loop fuel header r offset = Fail e /\ (e = EOF \/ e = ErrUnexpectedEOF)
  end.
Proof.
  unfold tailLength. induction fuel as [|fuel IH]; intros header r offset Hf Hh; [lia|].
  cbn [seek_loop]. unfold first_magic. rewrite length_app, Hh. replace (3 + length r - 3)%nat with (length r) by lia.
  set (n := length (take tailLength r)). assert (Hn : n = Nat.min tailLength (length r)) by apply length_take.
  assert (Hfind : find_magic n (header ++ take tailLength r) = find_magic n (header ++ r)).
  { rewrite <- (find_magic_take n (3 + tailLength) (header ++ r)) by lia.
    by rewrite take_app, Hh, (take_ge header), Nat.add_comm, Nat.add_sub by lia. }
  rewrite Hfind. unfold tailLength in *.
  replace (length r) with (n + (length r - n))%nat by lia. rewrite find_magic_add.
  destruct (find_magic n (header ++ r)) as [i|]; [done|].
  destruct (Nat.eqb_spec n 0) as [H0|H0].
  { replace (length r - n)%nat with 0%nat by lia. exists EOF. by auto. }
  destruct (Nat.ltb_spec n 1021) as [Hlt|Hge].
  { replace (length r - n)%nat with 0%nat by lia. exists ErrUnexpectedEOF. by auto. }
  assert (Hn1 : n = 1021%nat) by lia. rewrite Hn1 in *.
  assert (Hdrop : drop (1021 - 3) (take 1021 r) ++ drop 1021 r = drop 1021 (header ++ r)).
  { rewrite (drop_app_ge header) by lia. rewrite Hh.
    transitivity (drop (1021 - 3) (take 1021 r ++ drop 1021 r)); [|by rewrite take_drop].
    rewrite drop_app_le; [done|]. rewrite length_take. lia. }
  specialize (IH (drop (1021 - 3) (take 1021 r)) (drop 1021 r) (offset + Z.of_nat 1021)).
  unfold first_magic in IH. rewrite Hdrop in IH.
  assert (Hl : (length (drop 1021 (header ++ r)) - 3 = length r - 1021)%nat).
  { rewrite length_drop, length_app. lia. }
  rewrite Hl in IH. destruct (find_magic (length r - 1021) (drop 1021 (header ++ r))) as [i|].
  - simpl fmap. rewrite IH; [f_equal; lia| |]; rewrite ?length_drop, ?length_take; lia.
  - apply IH; rewrite ?length_drop, ?length_take; lia.
Qed.

(** Reading in chunks of 1021 bytes with three bytes carried over misses
    nothing: [seekBinlog] finds the first place at or after the offset where the
    magic number starts, and reports the end of the file when there is none. *)
Theorem seekBinlog_first f offset :
  0 <= offset ->
  match first_magic (drop (Z.to_nat offset) f) with
  | Some i => seekBinlog f offset = Ret (offset + Z.of_nat i)
  | None => exists e, seekBinlog f offset = Fail e /\ (e = EOF \/ e = ErrUnexpectedEOF)
  end.
Proof.
  intros Hoff. unfold seekBinlog. destruct (Z.ltb_spec offset 0); [lia|].
  set (r := drop (Z.to_nat offset) f). unfold read_full. simpl.
  case_bool_decide as Hnil; [rewrite Hnil; simpl; by eauto|].
  destruct (Z.ltb_spec (len r) 3) as [Hlt|Hge].
  { unfold first_magic. replace (length r - 3)%nat with 0%nat by lia. simpl. by eauto. }
  cbn [obind]. change (Z.to_nat 3) with 3%nat.
  pose proof (seek_loop_spec (S (length (drop 3 r))) (take 3 r) (drop 3 r) offset) as Hs.
  rewrite take_drop in Hs. apply Hs; [lia|]. rewrite length_take. lia.
Qed.

(** ** Strings of digits *)

Fixpoint all_digits (s : string) : Prop :=
  match s with EmptyString => True | String c s => is_Some (digit_value c) /\ all_digits s end.

Lemma all_digits_app s t : all_digits s -> all_digits t -> all_digits (s +:+ t).
Proof. induction s as [|c s IH]; simpl; [done|]. intros [? ?] ?. auto. Qed.

Lemma all_digits_zeros n : all_digits (zeros n).
Proof. induction n; simpl; [done|]. split; [by eexists|done]. Qed.

Lemma dec_acc_digits fuel n acc : 0 <= n -> all_digits acc -> all_digits (dec_acc fuel n acc).
Proof.
  revert n acc. induction fuel as [|fuel IH]; intros n acc Hn Ha; simpl; [done|].
  destruct (Z.ltb_spec n 10).
  - simpl. split; [|done]. rewrite digit_value_digit by lia. by eexists.
  - apply IH; [apply Z.div_pos; lia|]. simpl. split; [|done].
    rewrite digit_value_digit by (apply Z.mod_pos_bound; lia). by eexists.
Qed.

Lemma length_dec_acc fuel : forall n acc k, (0 < k <= fuel)%nat -> 0 <= n < 10 ^ Z.of_nat k ->
  (String.length (dec_acc fuel n acc) <= k + String.length acc)%nat.
Proof.
  induction fuel as [|fuel IH]; intros n acc k Hk Hn; [lia|]. cbn [dec_acc].
  destruct (Z.ltb_spec n 10); [cbn [String.length]; lia|].
  destruct k as [|[|k]]; [lia|change (10 ^ Z.of_nat 1) with 10 in Hn; lia|].
  rewrite Nat2Z.inj_succ, Z.pow_succ_r in Hn by lia.
  specialize (IH (n / 10) (String (digit (n mod 10)) acc) (S k)). cbn [String.length] in IH.
  assert (0 <= n / 10 < 10 ^ Z.of_nat (S k)); [|lia].
  split; [apply Z.div_pos; lia|]. apply Z.div_lt_upper_bound; lia.
Qed.

Lemma length_zeros n : String.length (zeros n) = n.
Proof. induction n; simpl; congruence. Qed.

(** The index in a file name: sixteen digits with the value of the index. *)
Lemma index_digits i : 0 <= i < 10 ^ 16 ->
  String.length (pad0 16 (dec i)) = 16%nat /\ all_digits (pad0 16 (dec i)) /\
  parse_dec_acc 0 (pad0 16 (dec i)) = Some i.
Proof.
  intros Hi. unfold pad0. rewrite string_length_app, length_zeros.
  pose proof (length_dec_acc 20 i "" 16 ltac:(lia) ltac:(exact Hi)) as Hl. fold (dec i) in Hl. simpl in Hl.
  split; [lia|]. split.
  - apply all_digits_app; [apply all_digits_zeros|]. apply dec_acc_digits; [lia|done].
  - rewrite parse_dec_acc_zeros. unfold dec. rewrite parse_dec_acc_dec; [done|].
    change (10 ^ Z.of_nat 20) with 100000000000000000000. change (10 ^ 16) with 10000000000000000 in Hi. lia.
Qed.

Lemma parse_dec_acc_shift s : all_digits s ->
  exists v, 0 <= v < 10 ^ Z.of_nat (String.length s) /\
    forall a, parse_dec_acc a s = Some (a * 10 ^ Z.of_nat (String.length s) + v).
Proof.
  induction s as [|c s IH]; intros Hd.
  - exists 0. simpl. split; [lia|]. intros a. f_equal. lia.
  - destruct Hd as [[d Hc] Hd]. cbn [parse_dec_acc String.length]. rewrite Hc.
    destruct (IH Hd) as (v & Hv & Heq).
    assert (Hd10 : 0 <= d < 10).
    { unfold digit_value in Hc. destruct (Z.leb_spec 48 (Z.of_nat (nat_of_ascii c))); [|done].
      destruct (Z.leb_spec (Z.of_nat (nat_of_ascii c)) 57); [|done]. injection Hc as <-. lia. }
    exists (d * 10 ^ Z.of_nat (String.length s) + v).
    rewrite Nat2Z.inj_succ, Z.pow_succ_r by lia. split; [nia|]. intros a. rewrite Heq. f_equal. lia.
Qed.

Lemma scan_digits_parse s : all_digits s -> forall n a, (String.length s <= n)%nat ->
  parse_dec_acc a s = Some (scan_digits n a s).
Proof.
  induction s as [|c s IH]; intros Hd n a Hn; [by destruct n|].
  destruct Hd as [[d Hc] Hd]. cbn [String.length] in Hn. destruct n as [|n]; [lia|].
  cbn [parse_dec_acc scan_digits]. rewrite Hc. apply IH; [done|lia].
Qed.

Lemma digit_not_blank c d : digit_value c = Some d -> c <> " "%char /\ c <> "009"%char /\ c <> "-"%char.
Proof. intros Hc. split_and!; intros ->; vm_compute in Hc; done. Qed.

Lemma sscanf_index i : 0 <= i < 10 ^ 16 -> sscanf_uint 16 (pad0 16 (dec i)) = Ret i.
Proof.
  intros Hi. destruct (index_digits i Hi) as (Hl & Hd & Hv). unfold sscanf_uint.
  destruct (pad0 16 (dec i)) as [|c s]; [done|]. destruct Hd as [[d Hc] Hd].
  cbn [skip_blanks]. rewrite bool_decide_eq_false_2
    by (destruct (digit_not_blank _ _ Hc) as (? & ? & _); tauto).
  rewrite Hc. cbn [parse_dec_acc] in Hv. rewrite Hc in Hv. cbn [String.length] in Hl.
  change (0 * 10 + d) with d in Hv. rewrite (scan_digits_parse s Hd (16 - 1)) in Hv by lia.
  f_equal. exact (Some_inj _ _ Hv).
Qed.

(** ** Names *)

Lemma digits_absent s : all_digits s -> absent "-" s.
Proof.
  induction s as [|c s IH]; simpl; [done|]. intros [[d Hc] Hd].
  destruct (digit_not_blank _ _ Hc) as (_ & _ & ?). auto.
Qed.

(** A formatted time. *)
Definition datetime_ok (dt : string) : Prop := all_digits dt /\ String.length dt = 14%nat.

Lemma ParseBinlogName_name i dt : 0 <= i < 10 ^ 16 -> datetime_ok dt ->
  ParseBinlogName (binlogNameWithDateTime i dt) = Ret (i, 0).
Proof.
  intros Hi [Hdt _]. unfold ParseBinlogName, binlogNameWithDateTime.
  destruct (index_digits i Hi) as (_ & Hd & _).
  replace (has_prefix "binlog-" _) with true
    by (symmetry; apply has_prefix_app).
  cbn [negb]. change ("binlog-" +:+ pad0 16 (dec i) +:+ "-" +:+ dt) with
    ("binlog" +:+ String "-" (pad0 16 (dec i) +:+ String "-" dt)).
  rewrite split_on_app by (simpl; split_and!; done).
  rewrite split_on_app by by apply digits_absent.
  rewrite split_on_absent by by apply digits_absent. by rewrite sscanf_index.
Qed.

Lemma substring_skip (a b : string) k n :
  String.substring (String.length a + k) n (a +:+ b) = String.substring k n b.
Proof. induction a as [|c a IH]; [done|]. simpl. exact IH. Qed.

Lemma substring_digits s : all_digits s -> forall k n, all_digits (String.substring k n s).
Proof.
  induction s as [|c s IH]; intros Hd k n; destruct k, n; simpl; try done.
  - destruct Hd as [? Hd]. split; [done|by apply IH].
  - by apply IH, Hd.
  - by apply IH, Hd.
Qed.

Lemma has_suffix_digits suf a dt : all_digits dt -> (String.length suf <= String.length dt)%nat ->
  ~ all_digits suf -> has_suffix suf (a +:+ dt) = false.
Proof.
  intros Hd Hl Hsuf. unfold has_suffix. rewrite string_length_app.
  replace (String.length a + String.length dt - String.length suf)%nat
    with (String.length a + (String.length dt - String.length suf))%nat by lia.
  rewrite substring_skip, bool_decide_eq_false_2; [by destruct (_ <=? _)%nat|].
  intros Heq. apply Hsuf. rewrite <- Heq. by apply substring_digits.
Qed.

Lemma is_binlog_name_name i dt : 0 <= i < 10 ^ 16 -> datetime_ok dt ->
  is_binlog_name (binlogNameWithDateTime i dt) = true.
Proof.
  intros Hi Hdt. unfold is_binlog_name. rewrite ParseBinlogName_name by done.
  destruct Hdt as [Hd Hl]. unfold binlogNameWithDateTime.
  replace ("binlog-" +:+ pad0 16 (dec i) +:+ "-" +:+ dt)
    with (("binlog-" +:+ pad0 16 (dec i) +:+ "-") +:+ dt) by by rewrite !str_app_assoc.
  rewrite !has_suffix_digits; [done|done|simpl; lia|vm_compute; by intros [[? [=]] _]|done|simpl; lia|].
  vm_compute. by intros [[? [=]] _].
Qed.

(** ** Order *)

Lemma compare_app_prefix p s t : String.compare (p +:+ s) (p +:+ t) = String.compare s t.
Proof.
  induction p as [|c p IH]; [done|]. simpl. rewrite IH.
  assert (Ascii.compare c c = Eq) as ->; [|done]. unfold Ascii.compare. apply N.compare_refl.
Qed.

Lemma digit_value_compare c d x y : digit_value c = Some x -> digit_value d = Some y ->
  Ascii.compare c d = Z.compare x y.
Proof.
  unfold digit_value. intros Hc Hd.
  destruct ((48 <=? Z.of_nat (nat_of_ascii c)) && (Z.of_nat (nat_of_ascii c) <=? 57)); [|done].
  destruct ((48 <=? Z.of_nat (nat_of_ascii d)) && (Z.of_nat (nat_of_ascii d) <=? 57)); [|done].
  injection Hc as <-. injection Hd as <-. unfold Ascii.compare, nat_of_ascii.
  rewrite !N_nat_Z, <- N2Z.inj_compare. symmetry.
  rewrite <- !Z.add_opp_l. apply Z.add_compare_mono_l.
Qed.

Lemma compare_digits a : forall b x y u v, all_digits a -> all_digits b ->
  String.length a = String.length b -> parse_dec_acc 0 a = Some u -> parse_dec_acc 0 b = Some v -> u < v ->
  String.compare (a +:+ x) (b +:+ y) = Lt.
Proof.
  induction a as [|c a IH]; intros [|d b] x y u v Ha Hb Hl Hu Hv Hlt; simpl in Hl; try done.
  { simpl in Hu, Hv. simplify_eq. lia. }
  destruct Ha as [[m Hm] Ha], Hb as [[n Hn] Hb]. cbn [parse_dec_acc] in Hu, Hv. rewrite Hm in Hu. rewrite Hn in Hv.
  injection Hl as Hl.
  destruct (parse_dec_acc_shift a Ha) as (u' & Hu' & Eu).
  destruct (parse_dec_acc_shift b Hb) as (v' & Hv' & Ev).
  rewrite Eu in Hu. rewrite Ev in Hv. apply Some_inj in Hu. apply Some_inj in Hv. rewrite Hl in Hu, Hu', Eu.
  change (match Ascii.compare c d with Eq => String.compare (a +:+ x) (b +:+ y) | r => r end = Lt).
  rewrite (digit_value_compare _ _ _ _ Hm Hn). destruct (Z.compare_spec m n) as [->|Hmn|Hmn]; [|done|].
  - apply (IH b x y _ _ Ha Hb Hl (Eu 0) (Ev 0)). lia.
  - exfalso. nia.
Qed.

(** The names of the files sort by their indexes. *)
Lemma binlogName_lt i j dt dt' : 0 <= i < j -> j < 10 ^ 16 ->
  String.compare (binlogNameWithDateTime i dt) (binlogNameWithDateTime j dt') = Lt.
Proof.
  intros Hij Hj. unfold binlogNameWithDateTime. rewrite compare_app_prefix.
  destruct (index_digits i) as (Hl & Hd & Hv); [lia|].
  destruct (index_digits j) as (Hl' & Hd' & Hv'); [lia|].
  apply (compare_digits _ _ _ _ i j); [done|done|congruence|done|done|lia].
Qed.

(** The index of a binlog file is recovered from its name, and the names sort
    in the order of the indexes, so that the files of a directory are read in the
    order in which they were written, for indexes of at most sixteen digits. *)
Theorem binlogName_roundtrip i j dt dt' :
  0 <= i < j -> j < 10 ^ 16 -> datetime_ok dt -> datetime_ok dt' ->
  ParseBinlogName (binlogNameWithDateTime i dt) = Ret (i, 0) /\
  String.le (binlogNameWithDateTime i dt) (binlogNameWithDateTime j dt') /\
  binlogNameWithDateTime i dt <> binlogNameWithDateTime j dt'.
Proof.
  intros Hij Hj Hdt Hdt'. pose proof (binlogName_lt i j dt dt' Hij Hj) as Hlt.
  split; [apply ParseBinlogName_name; [lia|done]|]. split.
  - unfold String.le, String.leb. by rewrite Hlt.
  - intros Heq. rewrite Heq in Hlt.
    pose proof (String.compare_antisym (binlogNameWithDateTime j dt') (binlogNameWithDateTime j dt')) as Ha.
    by rewrite Hlt in Ha.
Qed.
