(* ===== verification/BinlogWalk.v ===== *)
(** * BinlogWalk
    Reading back the local binlog files ([pkg/binlogfile/binlogger.go]): a walk
    delivers what [WriteTail] wrote, from any position it returned, across files,
    restarts and a torn tail; collection by position keeps what is still to be
    read. *)
From Stdlib Require Import Init.Byte Strings.Byte Ascii.
From stdpp Require Import base option list sorting strings gmap numbers.
From S2P Require Import Prelude Text LogFile Vlog VlogOpen BinlogFile BinlogNames.

(** ** What a directory holds *)

(** The files are given by their names and payloads, in the order of their
    indexes, which start at [i]. *)
Abbreviation files := (list (string * list (list byte))).

Definition entry_ok (p : list byte) : Prop := p <> [] /\ len p + 4 <= maxAlloc.

Definition file_bytes (ps : list (list byte)) : list byte := concat (Encode <$> ps).

(** The entries of a file as they are delivered from an offset on: each with the
    offset of its end. *)
Fixpoint entities (suffix off : Z) (ps : list (list byte)) : list Entity :=
  match ps with
  | [] => []
  | p :: ps => let off := off + (16 + len p) in mkEntity (mkPos suffix off) p :: entities suffix off ps
  end.

Fixpoint all_entities (i : Z) (fs : files) : list Entity :=
  match fs with
  | [] => []
  | (_, ps) :: fs => entities i 0 ps ++ all_entities (i + 1) fs
  end.

Fixpoint named (i : Z) (fs : files) : Prop :=
  match fs with
  | [] => True
  | (name, _) :: fs => (exists dt, datetime_ok dt /\ name = binlogNameWithDateTime i dt) /\ named (i + 1) fs
  end.

(** The last file may end in bytes [t] that are not an entry. *)
Fixpoint stored (d : directory) (fs : files) (t : list byte) : Prop :=
  match fs with
  | [] => True
  | (name, ps) :: fs =>
    d !! name = Some (file_bytes ps ++ match fs with [] => t | _ => [] end) /\ stored d fs t
  end.

Record drepr (d : directory) (i : Z) (fs : files) (t : list byte) : Prop := {
  dr_nonempty : fs <> [];
  dr_range : 0 <= i /\ i + len fs <= 10 ^ 16;
  dr_named : named i fs;
  dr_stored : stored d fs t;
  dr_only : forall name, is_binlog_name name = true -> is_Some (d !! name) -> name ∈ fs.*1;
  dr_ok : Forall (fun f => Forall entry_ok f.2) fs;
}.

(** [t] ends a walk of its file: it is empty, or cut off in the last file. *)
Definition ends (t : list byte) (isLastFile : bool) : Prop :=
  Decode t = Fail EOF \/ (isLastFile = true /\ Decode t = Fail ErrUnexpectedEOF).

Lemma ends_nil l : ends [] l.
Proof. by left. Qed.

Lemma file_bytes_app ps qs : file_bytes (ps ++ qs) = file_bytes ps ++ file_bytes qs.
Proof. unfold file_bytes. by rewrite fmap_app, concat_app. Qed.

Lemma file_bytes_cons p ps : file_bytes (p :: ps) = Encode p ++ file_bytes ps.
Proof. done. Qed.

Lemma length_file_bytes ps : (length ps <= length (file_bytes ps))%nat.
Proof.
  induction ps as [|p ps IH]; [done|]. rewrite file_bytes_cons, length_app. pose proof (len_Encode p).
  cbn [length]. lia.
Qed.

Lemma entities_app i off ps qs :
  entities i off (ps ++ qs) = entities i off ps ++ entities i (off + len (file_bytes ps)) qs.
Proof.
  revert off. induction ps as [|p ps IH]; intros off.
  - simpl. by rewrite Z.add_0_r.
  - cbn [app entities]. rewrite IH, file_bytes_cons, len_app, len_Encode. by rewrite !Z.add_assoc.
Qed.

(** A prefix of an entry is an unexpected end of file. *)
Lemma Decode_torn p k : len p + 4 <= maxAlloc -> (0 < k < length (Encode p))%nat ->
  Decode (take k (Encode p)) = Fail ErrUnexpectedEOF.
Proof.
  intros Hp Hk. pose proof (len_Encode p) as Hlen.
  assert (Hshort : forall n r, r <> [] -> len r < n -> read_full n r = Fail ErrUnexpectedEOF).
  { intros n r Hr Hl. unfold read_full. destruct (Z.leb_spec n 0); [lia|]. rewrite bool_decide_eq_false_2 by done.
    destruct (Z.ltb_spec (len r) n); [done|lia]. }
  assert (Hempty : forall n, 0 < n -> unexpected (read_full n []) = Fail ErrUnexpectedEOF).
  { intros n Hn. unfold read_full. destruct (Z.leb_spec n 0); [lia|done]. }
  assert (Hcut : forall n r, len r < n -> unexpected (read_full n r) = Fail ErrUnexpectedEOF).
  { intros n [|x r] Hl; [apply Hempty; simpl in Hl; lia|]. by rewrite Hshort. }
  unfold Decode. destruct (decide (k < 4)%nat) as [H4|H4].
  { rewrite Hshort; [done| |rewrite length_take; lia]. destruct (Encode p); [simpl in Hk; lia|]. by destruct k; [lia|]. }
  unfold Encode in *. rewrite take_app_ge by (rewrite length_le_bytes; lia). rewrite length_le_bytes.
  rewrite read_full_app' by by rewrite length_le_bytes. step_bind.
  rewrite le_value_u32 by (unfold in_u32, magic; lia). unfold CheckMagic. rewrite Z.eqb_refl. cbn [negb].
  destruct (decide (k - 4 < 8)%nat) as [H8|H8].
  { rewrite Hcut; [done|]. rewrite length_take. lia. }
  rewrite take_app_ge by (rewrite length_le_bytes; lia). rewrite length_le_bytes.
  rewrite read_full_app' by by rewrite length_le_bytes. cbn [unexpected]. step_bind.
  assert (Hm : maxAlloc = 281474976710656) by reflexivity.
  rewrite le_value_u64 by eauto with go.
  rewrite (wrap_i64_id (len p)), (wrap_i64_id (len p + 4)) by eauto with go.
  destruct (Z.ltb_spec (len p + 4) 0); [lia|]. destruct (Z.ltb_spec maxAlloc (len p + 4)); [lia|]. cbn [orb].
  rewrite Hcut; [done|]. rewrite length_take, length_app, length_le_bytes. lia.
Qed.

(** ** One file *)

Section Walking.
Context {St : Type}.
Variable sendBinlog : Entity -> St -> St * outcome unit.
Variable done : St -> bool.

(** What a walk does with the entries it is to deliver. *)
Fixpoint deliver (es : list Entity) (s : St) : St * outcome bool :=
  match es with
  | [] => (s, Ret true)
  | e :: es =>
    if done s then (s, Ret false)
    else match sendBinlog e s with
         | (s, Ret _) => deliver es s
         | (s, Fail e) => (s, Fail e)
         | (s, Panic) => (s, Panic)
         end
  end.

Definition finish (r : St * outcome bool) : St * outcome unit :=
  (r.1, match r.2 with Ret _ => Ret tt | Fail e => Fail e | Panic => Panic end).

Lemma deliver_app es1 es2 s :
  deliver (es1 ++ es2) s = match deliver es1 s with (s, Ret true) => deliver es2 s | r => r end.
Proof.
  revert s. induction es1 as [|e es1 IH]; intros s; [done|]. cbn [app deliver].
  destruct (done s); [done|]. by destruct (sendBinlog e s) as [s' [u| |]].
Qed.

Lemma deliver_done es s : done s = true -> finish (deliver es s) = (s, Ret tt).
Proof. intros Hd. destruct es; simpl; [done|]. by rewrite Hd. Qed.

Lemma walk_file_entries ps : forall fuel pre t isLast suffix s,
  Forall entry_ok ps -> (length ps < fuel)%nat -> ends t isLast ->
  walk_file sendBinlog done fuel (pre ++ file_bytes ps ++ t) isLast suffix (len pre) s =
  match deliver (entities suffix (len pre) ps) s with
  | (s, Ret true) => (s, Ret (negb (done s)))
  | r => r
  end.
Proof.
  induction ps as [|p ps IH]; intros fuel pre t isLast suffix s Hok Hf Ht;
    (destruct fuel as [|fuel]; [cbn [length] in Hf; lia|]); cbn [walk_file entities deliver].
  - destruct (done s); [done|]. rewrite Nat2Z.id, drop_app_length.
    change (file_bytes [] ++ t) with t. by destruct Ht as [-> | [-> ->]].
  - apply Forall_cons_iff in Hok as [[_ Hp] Hok]. cbn [length] in Hf. destruct (done s) eqn:Hd; [done|].
    rewrite Nat2Z.id, drop_app_length, file_bytes_cons, <- app_assoc, Decode_Encode_app by done.
    destruct (sendBinlog _ s) as [s' [u| |]]; [|done..].
    rewrite (app_assoc pre), <- (len_Encode p), <- len_app. rewrite (IH fuel (pre ++ Encode p)); [done|done|lia|done].
Qed.

(** ** All files *)

Lemma walk_names_all fs : forall d i t first s,
  named i fs -> stored d fs t -> 0 <= i -> i + len fs <= 10 ^ 16 -> Forall (fun f => Forall entry_ok f.2) fs ->
  ends t true ->
  walk_names sendBinlog done fs.*1 d first (mkPos i 0) s = finish (deliver (all_entities i fs) s).
Proof.
  induction fs as [|[name ps] fs IH]; intros d i t first s Hn Hs Hi Hr Hok Ht; [done|].
  destruct Hn as [_ Hn], Hs as [Hd Hs]. apply Forall_cons_iff in Hok as [Hps Hok]. cbn [length] in Hr.
  cbn [fmap list_fmap fst walk_names all_entities].
  destruct (done s) eqn:Hds; [by rewrite deliver_done|]. rewrite Hd. cbn [PosOffset Suffix].
  replace (first && (0 <? 0)) with false by by destruct first. rewrite deliver_app.
  set (tl := match fs with [] => t | _ => [] end).
  assert (Hends : ends tl (bool_decide (fs.*1 = []))).
  { unfold tl. destruct fs; [done|]. apply ends_nil. }
  rewrite (walk_file_entries ps _ [] tl) by (done || (rewrite length_app; pose proof (length_file_bytes ps); lia)).
  cbn [length]. change (Z.of_nat 0) with 0.
  destruct (deliver (entities i 0 ps) s) as [s' [[|]| |]]; [|done..].
  destruct (done s') eqn:Hd'; cbn [negb]; [by rewrite deliver_done|].
  assert (H16 : 10 ^ 16 = 10000000000000000) by reflexivity.
  replace (wrap_u64 (i + 1)) with (i + 1) by (symmetry; apply Z.mod_small; lia).
  by apply (IH d (i + 1) t); [..|lia|lia| |].
Qed.

End Walking.

(** ** Names in a directory *)

Lemma named_app i fs gs : named i (fs ++ gs) <-> named i fs /\ named (i + len fs) gs.
Proof.
  revert i. induction fs as [|[n ps] fs IH]; intros i; simpl.
  - rewrite Z.add_0_r. tauto.
  - rewrite IH. replace (i + 1 + len fs) with (i + Z.of_nat (S (length fs))) by lia. tauto.
Qed.

Lemma named_binlog fs : forall i name, named i fs -> 0 <= i -> i + len fs <= 10 ^ 16 -> name ∈ fs.*1 ->
  exists j dt, i <= j < i + len fs /\ datetime_ok dt /\ name = binlogNameWithDateTime j dt.
Proof.
  induction fs as [|[n ps] fs IH]; intros i name Hn Hi Hr Hin; [by apply elem_of_nil in Hin|].
  destruct Hn as [(dt & Hdt & Hname) Hn]. cbn [fmap list_fmap fst length] in *. apply elem_of_cons in Hin as [->|Hin].
  - exists i, dt. split; [lia|]. by split.
  - destruct (IH (i + 1) name Hn) as (j & dt' & Hj & ? & ?); [lia|lia|done|]. exists j, dt'. split; [lia|done].
Qed.

Lemma named_sorted fs : forall i, named i fs -> 0 <= i -> i + len fs <= 10 ^ 16 ->
  StronglySorted String.le fs.*1 /\ NoDup fs.*1.
Proof.
  induction fs as [|[n ps] fs IH]; intros i Hn Hi Hr; [split; constructor|].
  destruct Hn as [(dt & Hdt & ->) Hn]. cbn [fmap list_fmap fst length] in *.
  destruct (IH (i + 1) Hn) as [Hs Hnd]; [lia|lia|].
  assert (Hlt : forall x, x ∈ fs.*1 -> String.compare (binlogNameWithDateTime i dt) x = Lt).
  { intros x Hx. destruct (named_binlog fs (i + 1) x Hn) as (j & dt' & Hj & _ & ->); [lia|lia|done|].
    apply binlogName_lt; lia. }
  split.
  - constructor; [done|]. apply list.Forall_forall. intros x Hx.
    unfold String.le, String.leb. by rewrite (Hlt x Hx).
  - apply list.NoDup_cons. split; [|done]. intros Hin%Hlt.
    pose proof (String.compare_antisym (binlogNameWithDateTime i dt) (binlogNameWithDateTime i dt)) as Ha.
    by rewrite Hin in Ha.
Qed.

Lemma StronglySorted_filter {A} (R : relation A) (P : A -> Prop) `{!forall x, Decision (P x)} l :
  StronglySorted R l -> StronglySorted R (filter P l).
Proof.
  induction 1 as [|x l Hs IH Hx]; [constructor|]. rewrite filter_cons. case_decide; [|done].
  constructor; [done|]. apply list.Forall_forall. intros y [_ Hy]%list_elem_of_filter.
  rewrite list.Forall_forall in Hx. by apply Hx.
Qed.

Lemma stored_is_Some d fs t name : stored d fs t -> name ∈ fs.*1 -> is_Some (d !! name).
Proof.
  induction fs as [|[n ps] fs IH]; intros Hs Hin; [by apply elem_of_nil in Hin|].
  destruct Hs as [Hd Hs]. cbn [fmap list_fmap fst] in Hin. apply elem_of_cons in Hin as [->|Hin]; [by eexists|by apply IH].
Qed.

Lemma drepr_names d i fs t : drepr d i fs t -> ReadBinlogNames d = Ret fs.*1.
Proof.
  intros [Hne [Hi Hr] Hn Hs Honly _]. unfold ReadBinlogNames.
  assert (FilterBinlogNames (ReadDir d) = fs.*1) as ->; [|by destruct fs].
  destruct (named_sorted fs i Hn Hi Hr) as [Hsort Hnd].
  unfold FilterBinlogNames, ReadDir. apply (StronglySorted_unique String.le).
  - apply StronglySorted_filter, (StronglySorted_merge_sort String.le).
  - done.
  - apply NoDup_Permutation; [|done|].
    + apply list.NoDup_filter. rewrite merge_sort_Permutation. apply NoDup_fst_map_to_list.
    + intros name. rewrite list_elem_of_filter, merge_sort_Permutation. split.
      * intros [Hb ([n c] & -> & Hin)%list_elem_of_fmap]. apply Honly; [done|].
        apply elem_of_map_to_list in Hin. by eexists.
      * intros Hin. destruct (named_binlog fs i name Hn Hi Hr Hin) as (j & dt & Hj & Hdt & ->).
        split; [apply is_binlog_name_name; [lia|done]|].
        destruct (stored_is_Some d fs t _ Hs Hin) as [c Hc]. apply list_elem_of_fmap. exists (binlogNameWithDateTime j dt, c).
        split; [done|]. by apply elem_of_map_to_list.
Qed.

Lemma SearchIndex_named fs : forall i k, named i fs -> 0 <= i -> i + len fs <= 10 ^ 16 -> (k < length fs)%nat ->
  SearchIndex fs.*1 (i + Z.of_nat k) = Some k.
Proof.
  unfold SearchIndex. induction fs as [|[n ps] fs IH] using rev_ind; intros i k Hn Hi Hr Hk; [simpl in Hk; lia|].
  apply named_app in Hn as [Hn [(dt & Hdt & ->) _]]. rewrite fmap_app. cbn [fmap list_fmap fst].
  rewrite length_app in *. cbn [length] in *. rewrite reverse_snoc, length_fmap. cbn [search_from].
  unfold name_index. rewrite ParseBinlogName_name by (lia || done).
  replace (length fs + 1 - 1)%nat with (length fs) by lia.
  destruct (Z.eqb_spec (i + Z.of_nat k) (i + len fs)) as [Heq|Hne].
  - f_equal. lia.
  - rewrite <- (length_fmap fst fs). apply IH; [done|done|lia|lia].
Qed.

(** ** The walk *)

Lemma named_drop fs1 fs2 i : named i (fs1 ++ fs2) -> named (i + len fs1) fs2.
Proof. by intros [_ ?]%named_app. Qed.

Lemma stored_drop d fs1 fs2 t : fs2 <> [] -> stored d (fs1 ++ fs2) t -> stored d fs2 t.
Proof. intros Hne. induction fs1 as [|[n ps] fs1 IH]; [done|]. intros [_ H]. by apply IH. Qed.

Lemma stored_head d n ps fs t : stored d ((n, ps) :: fs) t ->
  d !! n = Some (file_bytes ps ++ match fs with [] => t | _ => [] end).
Proof. by intros [? _]. Qed.

Section WalkFrom.
Context {St : Type}.
Variable sendBinlog : Entity -> St -> St * outcome unit.
Variable done : St -> bool.

(** A walk from the end of a prefix of a file delivers the rest of the file and the
    files after it. *)
Lemma Walk_from_split b i fs1 n ps1 ps2 fs2 t s :
  drepr (dir b) i (fs1 ++ (n, ps1 ++ ps2) :: fs2) t -> ends t true ->
  Walk sendBinlog done (mkPos (i + len fs1) (len (file_bytes ps1))) b s =
  finish (deliver sendBinlog done
    (entities (i + len fs1) (len (file_bytes ps1)) ps2 ++ all_entities (i + len fs1 + 1) fs2) s).
Proof.
  intros Hd Ht. pose proof (drepr_names _ _ _ _ Hd) as Hnames.
  destruct Hd as [_ [Hi Hr] Hn Hs _ Hok]. unfold Walk. rewrite Hnames. cbn [Suffix].
  rewrite length_app in Hr. cbn [length] in Hr.
  rewrite SearchIndex_named by (done || (rewrite length_app; cbn [length]; lia)).
  rewrite fmap_app, drop_app_length' by by rewrite length_fmap.
  apply named_drop in Hn. destruct Hn as [_ Hn]. apply stored_drop in Hs; [|done].
  apply Forall_app in Hok as [_ Hok]. apply Forall_cons_iff in Hok as [Hps Hok]. simpl in Hps.
  apply Forall_app in Hps as [_ Hps2]. pose proof (stored_head _ _ _ _ _ Hs) as Hc. destruct Hs as [_ Hs].
  cbn [fmap list_fmap fst walk_names]. destruct (done s) eqn:Hds; [by rewrite deliver_done|].
  rewrite Hc. cbn [PosOffset Suffix].
  destruct (Z.ltb_spec (len (file_bytes ps1)) 0); [lia|]. cbn [andb].
  set (tl := match fs2 with [] => t | _ => [] end) in *.
  assert (Hends : ends tl (bool_decide (fs2.*1 = []))).
  { unfold tl. destruct fs2; [done|]. apply ends_nil. }
  rewrite file_bytes_app, <- app_assoc.
  rewrite (walk_file_entries _ _ ps2 _ (file_bytes ps1) tl)
    by (done || (rewrite !length_app; pose proof (length_file_bytes ps2); lia)).
  rewrite deliver_app. destruct (deliver _ _ (entities _ _ ps2) s) as [s' [[|]| |]]; [|done..].
  destruct (done s') eqn:Hd'; cbn [negb]; [by rewrite deliver_done|].
  assert (H16 : 10 ^ 16 = 10000000000000000) by reflexivity.
  replace (wrap_u64 (i + len fs1 + 1)) with (i + len fs1 + 1) by (symmetry; apply Z.mod_small; lia).
  apply (walk_names_all _ _ fs2 (dir b) _ t); [done|done|lia|lia|done|done].
Qed.

Lemma entities_split i off ps es1 e es2 : entities i off ps = es1 ++ e :: es2 ->
  exists ps1 p ps2, ps = ps1 ++ p :: ps2 /\ e = mkEntity (mkPos i (off + len (file_bytes (ps1 ++ [p])))) p /\
    es2 = entities i (off + len (file_bytes (ps1 ++ [p]))) ps2.
Proof.
  revert off es1. induction ps as [|p ps IH]; intros off es1 Heq; [by destruct es1|].
  cbn [entities] in Heq. destruct es1 as [|e1 es1].
  - injection Heq as <- <-. exists [], p, ps. split; [done|]. cbn [app].
    rewrite file_bytes_cons, app_nil_r, len_Encode. by split.
  - injection Heq as _ Heq. destruct (IH _ _ Heq) as (ps1 & q & ps2 & -> & -> & ->).
    exists (p :: ps1), q, ps2. split; [done|]. cbn [app]. rewrite file_bytes_cons, len_app, len_Encode.
    by rewrite <- (Z.add_assoc off).
Qed.

Lemma all_entities_split fs : forall i es1 e es2, all_entities i fs = es1 ++ e :: es2 ->
  exists fs1 n ps1 p ps2 fs2, fs = fs1 ++ (n, (ps1 ++ [p]) ++ ps2) :: fs2 /\
    e_pos e = mkPos (i + len fs1) (len (file_bytes (ps1 ++ [p]))) /\
    es2 = entities (i + len fs1) (len (file_bytes (ps1 ++ [p]))) ps2 ++ all_entities (i + len fs1 + 1) fs2.
Proof.
  induction fs as [|[n ps] fs IH]; intros i es1 e es2 Heq; [by destruct es1|].
  cbn [all_entities] in Heq. apply app_eq_app in Heq as (l & [[H1 H2]|[H1 H2]]).
  - destruct l as [|e' l].
    + rewrite app_nil_r in H1. simpl in H2. symmetry in H2.
      destruct (IH (i + 1) [] e es2 H2) as (fs1 & n' & ps1 & p & ps2 & fs2 & -> & Hp & ->).
      exists ((n, ps) :: fs1), n', ps1, p, ps2, fs2. split; [done|]. cbn [length].
      replace (i + Z.of_nat (S (length fs1))) with (i + 1 + len fs1) by lia. by split.
    + injection H2 as <- ->. destruct (entities_split _ _ _ _ _ _ H1) as (ps1 & p & ps2 & -> & -> & ->).
      exists [], n, ps1, p, ps2, fs. cbn [app length]. rewrite <- app_assoc, !Z.add_0_r. by split_and!.
  - destruct (IH (i + 1) _ _ _ H2) as (fs1 & n' & ps1 & p & ps2 & fs2 & -> & Hp & ->).
    exists ((n, ps) :: fs1), n', ps1, p, ps2, fs2. split; [done|]. cbn [length].
    replace (i + Z.of_nat (S (length fs1))) with (i + 1 + len fs1) by lia. by split.
Qed.

(** A walk resumes exactly where an entry ended: from the position of an entry
    of the directory [Walk] delivers the entries after it, in order, with their
    positions and across files, until the consumer fails or is done; bytes of a
    last entry that was not written completely are passed over. *)
Theorem Walk_resumes b i fs t es1 e es2 s :
  drepr (dir b) i fs t -> ends t true -> all_entities i fs = es1 ++ e :: es2 ->
  Walk sendBinlog done (e_pos e) b s = finish (deliver sendBinlog done es2 s).
Proof.
  intros Hd Ht Heq. destruct (all_entities_split _ _ _ _ _ Heq) as (fs1 & n & ps1 & p & ps2 & fs2 & -> & -> & ->).
  by apply (Walk_from_split _ _ _ n _ _ _ t).
Qed.

(** From the start of the first file everything is delivered. *)
Lemma Walk_all b i fs t s :
  drepr (dir b) i fs t -> ends t true ->
  Walk sendBinlog done (mkPos i 0) b s = finish (deliver sendBinlog done (all_entities i fs) s).
Proof.
  intros Hd Ht. destruct fs as [|[n ps] fs]; [by destruct (dr_nonempty _ _ _ _ Hd)|].
  pose proof (Walk_from_split b i [] n [] ps fs t s Hd Ht) as Hw. cbn [length] in Hw.
  change (len (file_bytes [])) with 0 in Hw. by rewrite Z.add_0_r in Hw.
Qed.

End WalkFrom.

(** ** Writing *)

(** The writer stands at the end of the last file. *)
Record brepr (b : binlogger) (i : Z) (fs : files) : Prop := {
  br_dir : drepr (dir b) i fs [];
  br_last : exists fs0 ps, fs = fs0 ++ [(file b, ps)] /\ fpos b = length (file_bytes ps) /\
    enc_offset b = len (file_bytes ps) /\ lastSuffix b = i + len fs0;
}.

Lemma stored_app d fs1 fs2 : stored d (fs1 ++ fs2) [] <-> stored d fs1 [] /\ stored d fs2 [].
Proof.
  induction fs1 as [|[n ps] fs1 IH]; simpl; [tauto|]. rewrite IH.
  assert (Hm : forall l : files, match l with [] => @nil byte | _ => [] end = []) by by intros [].
  rewrite !Hm. tauto.
Qed.

Lemma stored_insert d fs name c : name ∉ fs.*1 -> stored (<[name := c]> d) fs [] <-> stored d fs [].
Proof.
  induction fs as [|[n ps] fs IH]; simpl; [done|]. intros [Hne Hni]%not_elem_of_cons.
  rewrite IH, lookup_insert_ne by done. done.
Qed.

Lemma all_entities_app i fs1 fs2 :
  all_entities i (fs1 ++ fs2) = all_entities i fs1 ++ all_entities (i + len fs1) fs2.
Proof.
  revert i. induction fs1 as [|[n ps] fs1 IH]; intros i; simpl; [by rewrite Z.add_0_r|].
  rewrite IH, app_assoc. do 2 f_equal. lia.
Qed.

(** Replacing the payloads of the last file. *)
Lemma drepr_last d i fs0 n ps ps' :
  drepr d i (fs0 ++ [(n, ps)]) [] -> Forall entry_ok ps' ->
  drepr (<[n := file_bytes ps']> d) i (fs0 ++ [(n, ps')]) [].
Proof.
  intros [Hne [Hi Hr] Hn Hs Honly Hok] Hps.
  destruct (named_sorted _ _ Hn Hi Hr) as [_ Hnd]. rewrite fmap_app in Hnd. cbn [fmap list_fmap fst] in Hnd.
  assert (Hni : n ∉ fs0.*1).
  { apply list.NoDup_app in Hnd as (_ & Hd & _). intros Hin. apply (Hd n Hin). by left. }
  rewrite length_app in Hr. cbn [length] in Hr.
  split; [by destruct fs0|rewrite length_app; cbn [length]; lia| | | |].
  - apply named_app. apply named_app in Hn as [H1 [H2 _]]. by split.
  - apply stored_app. apply stored_app in Hs as [H1 _]. split; [by apply stored_insert|].
    split; [|done]. by rewrite lookup_insert_eq, app_nil_r.
  - intros name Hb Hin. rewrite fmap_app, elem_of_app. cbn [fmap list_fmap fst].
    destruct (decide (name = n)) as [->|Hnn]; [right; by left|]. rewrite lookup_insert_ne in Hin by done.
    specialize (Honly name Hb Hin). by rewrite fmap_app, elem_of_app in Honly.
  - apply Forall_app in Hok as [H1 _]. apply Forall_app. split; [done|]. by apply Forall_singleton.
Qed.

(** A further, empty file. *)
Lemma drepr_rotate d i fs now :
  drepr d i fs [] -> datetime_ok now -> i + len fs + 1 <= 10 ^ 16 ->
  let name := binlogNameWithDateTime (i + len fs) now in
  d !! name = None /\ drepr (<[name := []]> d) i (fs ++ [(name, [])]) [].
Proof.
  intros [Hne [Hi Hr] Hn Hs Honly Hok] Hnow Hlim name.
  assert (Hbn : is_binlog_name name = true) by (apply is_binlog_name_name; [lia|done]).
  assert (Hn' : named i (fs ++ [(name, [])])) by (apply named_app; split; [done|]; split; [by exists now|done]).
  assert (Hr' : i + len (fs ++ [(name, @nil (list byte))]) <= 10 ^ 16) by (rewrite length_app; cbn [length]; lia).
  destruct (named_sorted _ _ Hn' Hi Hr') as [_ Hnd]. rewrite fmap_app in Hnd.
  assert (Hni : name ∉ fs.*1).
  { apply list.NoDup_app in Hnd as (_ & Hd & _). intros Hin. apply (Hd name Hin). by left. }
  split.
  { destruct (d !! name) eqn:E; [|done]. destruct Hni. apply Honly; [done|by eexists]. }
  split; [by destruct fs|done|done| | |].
  - apply stored_app. split; [by apply stored_insert|]. split; [|done]. by rewrite lookup_insert_eq.
  - intros x Hb Hin. rewrite fmap_app, elem_of_app. cbn [fmap list_fmap fst].
    destruct (decide (x = name)) as [->|Hnn]; [right; by left|]. rewrite lookup_insert_ne in Hin by done.
    left. by apply Honly.
  - apply Forall_app. split; [done|]. apply Forall_singleton. constructor.
Qed.

Lemma write_at_end c data : write_at c (length c) data = c ++ data.
Proof. unfold write_at. by rewrite take_ge, drop_ge, app_nil_r by lia. Qed.

Lemma brepr_contents b i fs0 ps : drepr (dir b) i (fs0 ++ [(file b, ps)]) [] ->
  contents (dir b) (file b) = file_bytes ps.
Proof.
  intros [_ _ _ Hs _ _]. apply stored_app in Hs as [_ [H _]]. unfold contents. rewrite H. simpl. apply app_nil_r.
Qed.

(** The entry goes to the last file, and an empty file is begun once the size limit is
    reached. *)
Lemma WriteTail_repr b i fs now p :
  brepr b i fs -> entry_ok p -> datetime_ok now -> i + len fs + 1 <= 10 ^ 16 ->
  exists b' pos fs' fs0 n ps extra, WriteTail WOk None now p b = (b', Ret pos) /\ brepr b' i fs' /\ maxFileSize b' = maxFileSize b /\
    all_entities i fs' = all_entities i fs ++ [mkEntity pos p] /\
    fs = fs0 ++ [(n, ps)] /\ fs' = fs0 ++ [(n, ps ++ [p])] ++ extra /\ (extra = [] \/ exists n', extra = [(n', [])]).
Proof.
  intros [Hd (fs0 & ps & -> & Hfpos & Henc & Hsuf)] Hp Hnow Hlim.
  pose proof (brepr_contents _ _ _ _ Hd) as Hc. pose proof Hd as [_ [Hi Hr] Hn _ _ Hok].
  rewrite length_app in Hlim. cbn [length] in Hlim.
  unfold WriteTail. destruct p as [|x p0] eqn:Ep; [by destruct Hp|]. rewrite <- Ep in *. clear Ep x p0.
  unfold encoder_Encode. rewrite Hc, Hfpos, take_ge, write_at_end by lia.
  assert (Hbytes : file_bytes ps ++ Encode p = file_bytes (ps ++ [p])).
  { rewrite file_bytes_app. f_equal. unfold file_bytes. simpl. by rewrite app_nil_r. }
  rewrite Hbytes, Henc.
  assert (Hoff : len (file_bytes ps) + len (Encode p) = len (file_bytes (ps ++ [p]))) by (rewrite <- Hbytes, len_app; lia).
  rewrite Hoff. cbn [maxFileSize lastSuffix dir file fpos enc_offset].
  set (off := len (file_bytes (ps ++ [p]))).
  assert (Hps : Forall entry_ok (ps ++ [p])).
  { apply Forall_app in Hok as [_ Hok]. apply Forall_cons_iff in Hok as [Hok _]. apply Forall_app. split; [done|]. by apply Forall_singleton. }
  pose proof (drepr_last _ _ _ _ _ (ps ++ [p]) Hd Hps) as Hd1. set (d1 := <[file b := _]> (dir b)) in *.
  assert (Hent : all_entities i (fs0 ++ [(file b, ps ++ [p])]) =
                 all_entities i (fs0 ++ [(file b, ps)]) ++ [mkEntity (mkPos (i + len fs0) off) p]).
  { rewrite !all_entities_app. simpl. rewrite !app_nil_r, entities_app, app_assoc. cbn [entities].
    do 4 f_equal. unfold off. rewrite <- Hoff, len_Encode. lia. }
  destruct (off <? maxFileSize b).
  - eexists _, _, (fs0 ++ [(file b, ps ++ [p])]), fs0, (file b), ps, []. split; [reflexivity|]. rewrite Hsuf. split_and!.
    + split; [exact Hd1|]. exists fs0, (ps ++ [p]). cbn [file fpos enc_offset lastSuffix].
      split_and!; [done| |done|done]. rewrite <- Hbytes, length_app. lia.
    + done.
    + exact Hent.
    + done.
    + done.
    + by left.
  - unfold rotate, seq_. cbn [file]. apply named_app in Hn as [_ [(dt & Hdt & Hname) _]].
    assert (H16 : 10 ^ 16 = 10000000000000000) by reflexivity.
    assert (ParseBinlogName (file b) = Ret (i + len fs0, 0)) as ->
      by (rewrite Hname; apply ParseBinlogName_name; [lia|done]).
    replace (wrap_u64 (i + len fs0 + 1)) with (i + len (fs0 ++ [(file b, ps ++ [p])]))
      by (rewrite length_app; cbn [length]; symmetry; etransitivity; [apply Z.mod_small; lia|lia]).
    destruct (drepr_rotate _ _ _ now Hd1 Hnow) as [Hfresh Hd2]; [rewrite length_app; cbn [length]; lia|].
    set (name := binlogNameWithDateTime (i + len (fs0 ++ [(file b, ps ++ [p])])) now) in *.
    assert (Hcn : contents d1 name = []) by (unfold contents; by rewrite Hfresh).
    cbn [maxFileSize dir lastSuffix]. rewrite Hcn, Hsuf.
    eexists _, _, ((fs0 ++ [(file b, ps ++ [p])]) ++ [(name, [])]), fs0, (file b), ps, [(name, [])]. split; [reflexivity|]. split_and!.
    + split; [exact Hd2|]. exists (fs0 ++ [(file b, ps ++ [p])]), []. cbn [file fpos enc_offset lastSuffix].
      split_and!; reflexivity.
    + done.
    + rewrite all_entities_app, Hent. simpl. by rewrite app_nil_r.
    + done.
    + by rewrite <- app_assoc.
    + right. by eexists.
Qed.

(** [WriteTail] appends one entry: without I/O errors it returns the position
    at which the entry ends, the directory holds the earlier entries followed by
    the new one at that position, and the writer stands at the end of the last
    file again, which is a new one once the size limit is reached. *)
Theorem WriteTail_appends b i fs now p :
  brepr b i fs -> entry_ok p -> datetime_ok now -> i + len fs + 1 <= 10 ^ 16 ->
  exists b' pos fs', WriteTail WOk None now p b = (b', Ret pos) /\ brepr b' i fs' /\
    all_entities i fs' = all_entities i fs ++ [mkEntity pos p] /\
    (length fs <= length fs' <= S (length fs))%nat.
Proof.
  intros Hb Hp Hnow Hlim. destruct (WriteTail_repr b i fs now p Hb Hp Hnow Hlim) as (b' & pos & fs' & fs0 & n & ps & extra & Hw & Hb' & _ & He & -> & -> & Hx).
  exists b', pos, (fs0 ++ [(n, ps ++ [p])] ++ extra). split_and!; [done|done|done| |]; rewrite !length_app; cbn [length];
    (destruct Hx as [-> | [n' ->]]; cbn [length]; lia).
Qed.

(** ** Opening *)

Lemma valid_from_named fs : forall i last, named i fs -> 0 <= i -> i + len fs <= 10 ^ 16 ->
  last = 0 \/ (0 < i /\ last = i - 1) -> valid_from last fs.*1 = Ret true.
Proof.
  assert (H16 : 10 ^ 16 = 10000000000000000) by reflexivity.
  induction fs as [|[n ps] fs IH]; intros i last Hn Hi Hr Hl; [done|].
  destruct Hn as [(dt & Hdt & ->) Hn]. cbn [fmap list_fmap fst length valid_from] in *.
  rewrite ParseBinlogName_name by (lia || done).
  destruct (Z.eqb_spec last 0) as [H0|H0]; cbn [negb andb].
  - apply (IH (i + 1)); [done|lia|lia|]. right. lia.
  - replace (wrap_u64 (i - 1)) with last by (unfold wrap_u64; rewrite Z.mod_small; lia). rewrite Z.eqb_refl. cbn [negb].
    apply (IH (i + 1)); [done|lia|lia|]. right. lia.
Qed.

Lemma lock_not_binlog : is_binlog_name ".lock" = false.
Proof. vm_compute. reflexivity. Qed.

Lemma drepr_lock d i fs c : drepr d i fs [] -> drepr (<[".lock" := c]> d) i fs [].
Proof.
  intros [Hne [Hi Hr] Hn Hs Honly Hok].
  assert (Hni : ".lock"%string ∉ fs.*1).
  { intros Hin. destruct (named_binlog fs i _ Hn Hi Hr Hin) as (j & dt & Hj & Hdt & Heq).
    pose proof (is_binlog_name_name j dt ltac:(lia) Hdt) as Hb. rewrite <- Heq, lock_not_binlog in Hb. done. }
  split; [done|done|done|by apply stored_insert| |done].
  intros name Hb Hin. apply Honly; [done|]. rewrite lookup_insert_ne in Hin; [done|].
  intros <-. by rewrite lock_not_binlog in Hb.
Qed.

(** The files survive a restart: [OpenBinlogger] on a directory whose files are
    complete finds the last file, accepts the indexes as consecutive, and the
    writer goes on at its end with the entries unchanged. *)
Theorem OpenBinlogger_reopens d i fs max now :
  drepr d i fs [] ->
  exists b, OpenBinlogger d max now = Ret b /\ maxFileSize b = max /\ brepr b i fs.
Proof.
  intros Hd0. unfold OpenBinlogger. pose proof (drepr_lock d i fs (contents d ".lock") Hd0) as Hd.
  set (d' := <[".lock" := _]> d) in *. rewrite (drepr_names _ _ _ _ Hd). pose proof Hd as [Hne [Hi Hr] Hn Hs _ _].
  destruct fs as [|[n ps] fs0 _] using rev_ind; [done|]. rewrite fmap_app in *. cbn [fmap list_fmap fst].
  rewrite last_snoc.
  assert (Hv : IsValidBinlog (fs0.*1 ++ [n]) = Ret true).
  { change ([n]) with ([(n, ps)].*1). rewrite <- fmap_app. apply (valid_from_named _ i); auto. }
  rewrite Hv. cbn [obind negb]. apply named_app in Hn as [_ [(dt & Hdt & Hname) _]].
  rewrite length_app in Hr. cbn [length] in Hr.
  assert (ParseBinlogName n = Ret (i + len fs0, 0)) as ->
    by (rewrite Hname; apply ParseBinlogName_name; [lia|done]).
  cbn [obind]. apply stored_app in Hs as [_ [Hc _]]. rewrite app_nil_r in Hc.
  assert (Hcont : contents d' n = file_bytes ps) by (unfold contents; by rewrite Hc).
  rewrite Hcont. eexists. split; [reflexivity|]. split; [done|]. split; cbn [dir].
  - rewrite insert_id by done. exact Hd.
  - exists fs0, ps. cbn [file fpos enc_offset lastSuffix]. by split_and!.
Qed.

(** A fresh directory gets a first, empty file. *)
Lemma OpenBinlogger_fresh max now : datetime_ok now ->
  exists b, OpenBinlogger ∅ max now = Ret b /\ maxFileSize b = max /\
    brepr b 0 [(binlogNameWithDateTime 0 now, [])].
Proof.
  intros Hnow. unfold OpenBinlogger.
  assert (ReadBinlogNames (<[".lock" := contents ∅ ".lock"]> (∅ : directory)) = Fail ErrFileNotFound) as ->
    by (vm_compute; reflexivity).
  cbn [list.last obind]. set (name := binlogNameWithDateTime 0 now).
  assert (Hb : is_binlog_name name = true) by (apply is_binlog_name_name; [lia|done]).
  assert (Hl : name <> ".lock"%string) by (intros Heq; by rewrite Heq, lock_not_binlog in Hb).
  assert (Hc : contents (<[".lock" := contents ∅ ".lock"]> (∅ : directory)) name = []).
  { unfold contents. by rewrite lookup_insert_ne. }
  rewrite Hc. eexists. split; [reflexivity|]. split; [done|]. split; cbn [dir].
  - split; [done|cbn [length]; lia| | | |].
    + split; [|done]. by exists now.
    + split; [|done]. by rewrite lookup_insert_eq.
    + intros x Hx Hin. destruct (decide (x = name)) as [->|Hne]; [by left|].
      rewrite lookup_insert_ne in Hin by done. destruct (decide (x = ".lock"%string)) as [->|Hnl].
      * by rewrite lock_not_binlog in Hx.
      * rewrite lookup_insert_ne, lookup_empty in Hin by done. by destruct Hin.
    + repeat constructor.
  - by exists [], [].
Qed.

(** ** Collection by position *)

Lemma gc_fold_lookup (P : string -> bool) names : forall (d : directory) name,
  foldl (fun d n => if P n then delete n d else d) d names !! name =
  if bool_decide (name ∈ names) && P name then None else d !! name.
Proof.
  induction names as [|n names IH]; intros d name; [done|]. cbn [foldl]. rewrite IH.
  destruct (decide (name = n)) as [->|Hne].
  - rewrite (bool_decide_eq_true_2 (n ∈ n :: names)) by by left.
    destruct (P n) eqn:HP; cbn [andb]; [|by rewrite andb_false_r].
    by rewrite andb_true_r, lookup_delete_eq; destruct (bool_decide _).
  - assert (bool_decide (name ∈ n :: names) = bool_decide (name ∈ names)) as ->.
    { apply bool_decide_ext. rewrite elem_of_cons. split; [intros [?|?]; [done|done]|by right]. }
    destruct (P n); [|done]. by rewrite lookup_delete_ne.
Qed.

Lemma named_index i fs1 n ps fs2 : named i (fs1 ++ (n, ps) :: fs2) -> 0 <= i -> i + len fs1 < 10 ^ 16 ->
  name_index n = i + len fs1.
Proof.
  intros [_ [(dt & Hdt & ->) _]]%named_app Hi Hr. unfold name_index. by rewrite ParseBinlogName_name by (lia || done).
Qed.

(** Collection by position keeps everything that is still to be read: it
    removes the files whose index is below the position, never the last file, and
    what remains is a directory with the entries of the remaining files at their
    old positions. *)
Theorem GCByPos_keeps pos b i fs1 fs2 :
  drepr (dir b) i (fs1 ++ fs2) [] -> fs2 <> [] ->
  len fs1 = Z.max 0 (Z.min (Suffix pos - i) (len (fs1 ++ fs2) - 1)) ->
  drepr (dir (GCByPos pos b)) (i + len fs1) fs2 [].
Proof.
  intros Hd Hne Hlen. pose proof (drepr_names _ _ _ _ Hd) as Hnames.
  destruct Hd as [_ [Hi Hr] Hn Hs Honly Hok]. unfold GCByPos. rewrite Hnames. cbn [dir].
  destruct (named_sorted _ _ Hn Hi Hr) as [_ Hnd]. rewrite fmap_app in Hnd.
  set (names := take _ _).
  assert (Hidx : forall n, n ∈ fs1.*1 -> name_index n < Suffix pos /\ n ∈ names).
  { intros n Hin. apply list_elem_of_lookup in Hin as [k Hk]. rewrite list_lookup_fmap in Hk.
    destruct (fs1 !! k) as [[n' ps]|] eqn:E; [|done]. simpl in Hk. injection Hk as ->.
    pose proof (lookup_lt_Some _ _ _ E) as Hklt. rewrite length_app in *.
    assert (fs1 ++ fs2 = take k fs1 ++ (n, ps) :: (drop (S k) fs1 ++ fs2)) as Hsp
      by (rewrite <- (take_drop_middle fs1 k _ E) at 1; by rewrite <- app_assoc).
    rewrite Hsp in Hn. apply named_index in Hn as Hni; [|done|rewrite length_take; lia].
    rewrite length_take in Hni. split; [lia|].
    unfold names. rewrite length_fmap, length_app. apply (list_elem_of_lookup_2 _ k).
    rewrite lookup_take_lt by lia. rewrite list_lookup_fmap, lookup_app_l by done. by rewrite E. }
  assert (Hkeep : forall n, n ∈ fs2.*1 -> bool_decide (n ∈ names) && (name_index n <? Suffix pos) = false).
  { intros n Hin. apply list_elem_of_lookup in Hin as [k Hk]. rewrite list_lookup_fmap in Hk.
    destruct (fs2 !! k) as [[n' ps]|] eqn:E; [|done]. simpl in Hk. injection Hk as ->.
    pose proof (lookup_lt_Some _ _ _ E) as Hklt. rewrite length_app in *.
    assert (fs1 ++ fs2 = (fs1 ++ take k fs2) ++ (n, ps) :: drop (S k) fs2) as Hsp
      by (rewrite <- (take_drop_middle fs2 k _ E) at 1; by rewrite app_assoc).
    rewrite Hsp in Hn. apply named_index in Hn as Hni; [|done|rewrite length_app, length_take; lia].
    rewrite length_app, length_take in Hni.
    destruct (Z.ltb_spec (name_index n) (Suffix pos)) as [Hlt|Hge]; [|by rewrite andb_false_r].
    rewrite andb_true_r. apply bool_decide_eq_false_2. intros Hin.
    apply list_elem_of_lookup in Hin as [j Hj]. unfold names in Hj. apply lookup_take_Some in Hj as [Hj Hjlt].
    rewrite length_fmap, length_app in Hjlt. rewrite fmap_app in Hj.
    assert (Hk : (fs1.*1 ++ fs2.*1) !! (length fs1 + k)%nat = Some n).
    { rewrite lookup_app_r by (rewrite length_fmap; lia). rewrite length_fmap, Nat.add_comm, Nat.add_sub.
      by rewrite list_lookup_fmap, E. }
    pose proof (NoDup_lookup _ _ _ _ Hnd Hj Hk). lia. }
  assert (Hlook : forall n, n ∈ fs2.*1 -> foldl (fun d name => if name_index name <? Suffix pos then delete name d else d)
                              (dir b) names !! n = dir b !! n).
  { intros n Hin. by rewrite (gc_fold_lookup (fun n => name_index n <? Suffix pos)), (Hkeep n Hin). }
  rewrite length_app in Hr. apply named_app in Hn as [_ Hn]. apply stored_app in Hs as [_ Hs].
  apply Forall_app in Hok as [_ Hok]. split; [done|lia|done| | |done].
  - clear -Hlook Hs. revert Hlook Hs. generalize (foldl (fun d name => if name_index name <? Suffix pos then delete name d else d) (dir b) names).
    intros d Hlook. induction fs2 as [|[n ps] fs2 IH]; [done|]. intros [Hd Hs]. split.
    + rewrite Hlook by by left. exact Hd.
    + apply IH; [|done]. intros x Hx. apply Hlook. by right.
  - intros name Hb [c Hc]. rewrite (gc_fold_lookup (fun n => name_index n <? Suffix pos)) in Hc.
    destruct (bool_decide (name ∈ names) && (name_index name <? Suffix pos)) eqn:E; [done|].
    specialize (Honly name Hb (ex_intro _ c Hc)). rewrite fmap_app in Honly.
    apply elem_of_app in Honly as [Hin|Hin]; [|done]. exfalso. destruct (Hidx name Hin) as [Hlt Hmem].
    rewrite bool_decide_eq_true_2 in E by done. rewrite (proj2 (Z.ltb_lt _ _) Hlt) in E. done.
Qed.

(** ** Reading everything *)

Lemma deliver_collect es : forall acc, deliver (fun e es => (es ++ [e], Ret tt)) (fun _ => false) es acc = (acc ++ es, Ret true).
Proof.
  induction es as [|e es IH]; intros acc; cbn [deliver]; [by rewrite app_nil_r|]. rewrite IH. by rewrite <- app_assoc.
Qed.

(** [ReadAll] delivers every entry of the directory, also when its first files were removed. *)
Lemma ReadAll_everything b i fs t : drepr (dir b) i fs t -> ends t true -> ReadAll b = (all_entities i fs, Ret tt).
Proof.
  intros Hd Ht. unfold ReadAll. rewrite (drepr_names _ _ _ _ Hd). destruct fs as [|[n ps] fs]; [by destruct (dr_nonempty _ _ _ _ Hd)|].
  cbn [fmap list_fmap fst]. destruct (dr_range _ _ _ _ Hd) as [Hi Hr]. cbn [length] in Hr.
  destruct (dr_named _ _ _ _ Hd) as [(dt & Hdt & Hn) _]. rewrite Hn, ParseBinlogName_name by (lia || done).
  rewrite (Walk_all _ _ b i ((n, ps) :: fs) t [] Hd Ht), deliver_collect. done.
Qed.

(** ** Reading a number of entries *)

Definition read_send (nums : Z) (e : Entity) (st : list Entity * bool) : (list Entity * bool) * outcome unit :=
  let ents := if len st.1 <? nums then st.1 ++ [e] else st.1 in
  ((ents, st.2 || (len ents =? nums)), Ret tt).

Lemma deliver_reads nums es : forall ents c, 0 <= nums -> len ents <= nums ->
  (c = true -> len ents = nums) -> (c = false -> len ents < nums \/ nums = 0) ->
  exists c' r, deliver (read_send nums) snd es (ents, c) = ((ents ++ take (Z.to_nat nums - length ents) es, c'), Ret r).
Proof.
  induction es as [|e es IH]; intros ents c Hn Hle Hc Hnc; cbn [deliver snd].
  { eexists c, true. by rewrite take_nil, app_nil_r. }
  destruct c.
  { eexists true, false.
    replace (Z.to_nat nums - length ents)%nat with 0%nat by (specialize (Hc eq_refl); lia).
    by rewrite app_nil_r. }
  unfold read_send at 1. cbn [fst snd orb]. specialize (Hnc eq_refl).
  destruct (Z.ltb_spec (len ents) nums) as [Hlt|Hge].
  - destruct (IH (ents ++ [e]) (len (ents ++ [e]) =? nums)) as (c' & r & ->).
    + done.
    + rewrite length_app. cbn [length]. lia.
    + apply Z.eqb_eq.
    + rewrite length_app. cbn [length]. intros Hneq%Z.eqb_neq. lia.
    + exists c', r. rewrite length_app, <- app_assoc. cbn [length app].
      replace (Z.to_nat nums - length ents)%nat with (S (Z.to_nat nums - (length ents + 1)))%nat by lia. done.
  - assert (nums = 0) as -> by lia. destruct ents; [|cbn [length] in *; lia].
    destruct (IH [] true) as (c' & r & Heq); [done..|]. exists c', r. exact Heq.
Qed.

(** [ReadFrom] returns the next entries: from the position of an entry it
    returns the [nums] entries after it, or all of them when there are fewer. *)
Theorem ReadFrom_takes b i fs t es1 e es2 nums :
  drepr (dir b) i fs t -> ends t true -> all_entities i fs = es1 ++ e :: es2 -> 0 <= nums ->
  ReadFrom (e_pos e) nums b = (take (Z.to_nat nums) es2, Ret tt).
Proof.
  intros Hd Ht Heq Hn. unfold ReadFrom. destruct (Z.ltb_spec nums 0); [lia|].
  destruct (all_entities_split _ _ _ _ _ Heq) as (fs1 & n & ps1 & p & ps2 & fs2 & -> & -> & ->).
  change (fun e st => _) with (read_send nums).
  rewrite (Walk_from_split _ _ b i fs1 n _ _ fs2 t) by done.
  destruct (deliver_reads nums (entities (i + len fs1) (len (file_bytes (ps1 ++ [p]))) ps2
              ++ all_entities (i + len fs1 + 1) fs2) [] false) as (c & r & ->); [lia|cbn [length]; lia|done|cbn [length]; lia|].
  unfold finish. cbn [fst snd length app]. by rewrite Nat.sub_0_r.
Qed.

(** ** Examples *)
Module BinlogExamples.

Definition now : string := "20190101010101".
Definition collect (e : Entity) (s : list Entity) : list Entity * outcome unit := (s ++ [e], Ret tt).
Definition never (s : list Entity) : bool := false.

Lemma now_ok : datetime_ok now.
Proof. split; [|done]. repeat (split; [by eexists|]). done. Qed.

Definition payloads : list (list byte) := [[x01; x02]; [x03]; [x05; x05]].

Definition open_demo : binlogger :=
  default (mkBinlogger ∅ 0 "" 0 0 0 0) (match OpenBinlogger ∅ 30 now with Ret b => Some b | _ => None end).

Definition write_all (ps : list (list byte)) (b : binlogger) : binlogger :=
  foldl (fun b p => (WriteTail WOk None now p b).1) b ps.

(** Three entries over two files: a directory as the writer leaves it. *)
Definition written : binlogger := write_all payloads open_demo.
Definition name0 : string := binlogNameWithDateTime 0 now.
Definition name1 : string := binlogNameWithDateTime 1 now.
Definition demo_files : files := [(name0, [[x01; x02]; [x03]]); (name1, [[x05; x05]])].

Example written_dir : dir written =
  <[name1 := Encode [x05; x05]]> (<[name0 := Encode [x01; x02] ++ Encode [x03]]> (<[".lock" := []]> ∅)).
Proof. vm_compute. reflexivity. Qed.

Lemma written_drepr : drepr (dir written) 0 demo_files [].
Proof.
  rewrite written_dir. split; [done|cbn; lia| | | |].
  - split; [exists now; split; [apply now_ok|done]|]. split; [exists now; split; [apply now_ok|done]|done].
  - split; [vm_compute; reflexivity|]. split; [vm_compute; reflexivity|done].
  - intros name Hb Hin. destruct (decide (name = name1)) as [->|H1]; [by right; left|].
    destruct (decide (name = name0)) as [->|H0]; [by left|]. rewrite !lookup_insert_ne in Hin by done.
    destruct (decide (name = ".lock"%string)) as [->|Hl]; [by rewrite lock_not_binlog in Hb|].
    rewrite lookup_insert_ne, lookup_empty in Hin by done. by destruct Hin.
  - repeat constructor; done.
Qed.

Lemma Decode_roundtrip_witness : Decode (Encode [x01; x02] ++ [x09]) = Ret ([x01; x02], 18, [x09]).
Proof. apply (Decode_roundtrip [x01; x02] [x09]). vm_compute. discriminate. Defined.

Lemma seekBinlog_first_witness : seekBinlog ([x09; x09; x09] ++ Encode [x01]) 1 = Ret 3.
Proof. apply (seekBinlog_first ([x09; x09; x09] ++ Encode [x01]) 1). lia. Defined.

Lemma binlogName_roundtrip_witness : ParseBinlogName (binlogNameWithDateTime 9 now) = Ret (9, 0).
Proof. apply (binlogName_roundtrip 9 10 now now); [lia|lia|apply now_ok|apply now_ok]. Defined.

Lemma Walk_resumes_witness :
  Walk collect never (mkPos 0 18) written [] =
  ([mkEntity (mkPos 0 35) [x03]; mkEntity (mkPos 1 18) [x05; x05]], Ret tt).
Proof.
  apply (Walk_resumes collect never written 0 demo_files [] [] (mkEntity (mkPos 0 18) [x01; x02])
    [mkEntity (mkPos 0 35) [x03]; mkEntity (mkPos 1 18) [x05; x05]] [] written_drepr (ends_nil true) eq_refl).
Defined.

Lemma ReadFrom_takes_witness : ReadFrom (mkPos 0 18) 1 written = ([mkEntity (mkPos 0 35) [x03]], Ret tt).
Proof.
  apply (ReadFrom_takes written 0 demo_files [] [] (mkEntity (mkPos 0 18) [x01; x02])
    [mkEntity (mkPos 0 35) [x03]; mkEntity (mkPos 1 18) [x05; x05]] 1 written_drepr (ends_nil true) eq_refl). lia.
Defined.

Lemma OpenBinlogger_reopens_witness :
  exists b, OpenBinlogger (dir written) 30 now = Ret b /\ brepr b 0 demo_files.
Proof.
  destruct (OpenBinlogger_reopens (dir written) 0 demo_files 30 now written_drepr) as (b & H1 & _ & H2).
  exists b. split; [exact H1|exact H2].
Defined.

Lemma WriteTail_appends_witness :
  exists b b' pos fs', OpenBinlogger ∅ 30 now = Ret b /\ WriteTail WOk None now [x07] b = (b', Ret pos) /\
    all_entities 0 fs' = [mkEntity pos [x07]].
Proof.
  destruct (OpenBinlogger_fresh 30 now now_ok) as (b & Ho & _ & Hb).
  destruct (WriteTail_appends b 0 [(binlogNameWithDateTime 0 now, [])] now [x07] Hb) as (b' & pos & fs' & H1 & _ & H2 & _).
  - split; [done|]. vm_compute. discriminate.
  - apply now_ok.
  - vm_compute. discriminate.
  - exists b, b', pos, fs'. split; [exact Ho|]. split; [exact H1|exact H2].
Defined.

Lemma GCByPos_keeps_witness : drepr (dir (GCByPos (mkPos 1 0) written)) 1 [(name1, [[x05; x05]])] [].
Proof.
  apply (GCByPos_keeps (mkPos 1 0) written 0 [(name0, [[x01; x02]; [x03]])] [(name1, [[x05; x05]])]).
  - exact written_drepr.
  - done.
  - reflexivity.
Defined.

(** A write that failed half-way stops every later walk: the next entry is appended
    behind the fragment, the fragment then fails its checksum, and the error is not
    the one that [Walk] skips. Without the later entry the fragment is passed over. *)
Theorem torn_entry_blocks :
  let b1 := (WriteTail (WErr 14 (Err "disk full")) None now [x03; x04; x05] open_demo).1 in
  let b2 := (WriteTail WOk None now [x05; x05] b1).1 in
  Walk collect never (mkPos 0 0) b1 [] = ([], Ret tt) /\
  Walk collect never (mkPos 0 0) b2 [] = ([], Fail (Err "expected crc32")).
Proof. vm_compute. done. Qed.

(** A gap after the file with index 0 is not noticed. *)
Theorem gap_after_zero :
  IsValidBinlog [binlogNameWithDateTime 0 now; binlogNameWithDateTime 7 now] = Ret true /\
  IsValidBinlog [binlogNameWithDateTime 1 now; binlogNameWithDateTime 7 now] = Ret false.
Proof. vm_compute. done. Qed.

End BinlogExamples.
