(* ===== verification/Schema.v ===== *)
(** * Schema
    The schema history of drainer ([drainer/schema.go]): the tables and schemas of
    the upstream cluster as its DDL jobs change them, applied up to the schema
    version of the binlog at hand. *)
From stdpp Require Import base option list gmap strings sorting.
From S2P Require Import Prelude.

(** ** DDL jobs (the fields of [model.Job] that drainer reads) *)

Inductive ActionType :=
  | ActionCreateSchema | ActionModifySchemaCharsetAndCollate | ActionDropSchema
  | ActionCreateTable | ActionCreateView | ActionCreateSequence | ActionRecoverTable
  | ActionDropTable | ActionDropView | ActionDropSequence
  | ActionRenameTable | ActionTruncateTable | ActionDropColumn
  | ActionUpdateTiFlashReplicaStatus | ActionLockTable | ActionUnlockTable
  | ActionAlterTableAttributes | ActionAlterTablePartitionAttributes
  | ActionOther (n : Z).

#[export] Instance ActionType_eq_dec : EqDecision ActionType.
Proof. solve_decision. Defined.

Inductive JobState := JobStateSynced | JobStateDone | JobStateOther (n : Z).
Inductive SchemaState := StateNone | StateDeleteOnly | StatePublic | SchemaStateOther (n : Z).

(** The part of a column that [types.FieldType] describes. *)
Record FieldType := mkField { ft_Tp : Z; ft_Flag : Z; ft_Charset : string; ft_Elems : list string }.

(** [OriginDefault] is what [GetOriginDefaultValue] returns, [Generated] what
    [IsGenerated] does. *)
Record ColumnInfo := mkColumn {
  col_ID : Z;
  col_Name : string;
  col_Field : FieldType;
  col_State : SchemaState;
  col_Generated : bool;
  col_OriginDefault : value;
}.

Record IndexColumn := mkIndexColumn { ic_Name : string; ic_Offset : Z; ic_Length : Z }.
Record IndexInfo := mkIndex { idx_Name : string; idx_Unique : bool; idx_Primary : bool; idx_Columns : list IndexColumn }.

Record TableInfo := mkTable {
  tb_ID : Z;
  tb_Name : string;
  tb_PKIsHandle : bool;
  tb_IsCommonHandle : bool;
  tb_Columns : list ColumnInfo;
  tb_Indices : list IndexInfo;
}.

Record DBInfo := mkDB { db_ID : Z; db_Name : string; db_Tables : list TableInfo }.

Record HistoryInfo := mkHistory { hi_SchemaVersion : Z; hi_DBInfo : option DBInfo; hi_TableInfo : option TableInfo }.

Record Job := mkJob {
  job_Type : ActionType;
  job_State : JobState;
  job_SchemaState : SchemaState;
  job_SchemaID : Z;
  job_TableID : Z;
  job_BinlogInfo : option HistoryInfo;
  job_Query : string;
}.

(** ** The state *)

Record TableName := mkTableName { tn_Schema : string; tn_Table : string }.

Record schemaVersionTableInfo := mkVersioned { SchemaVersion : Z; vt_TableInfo : TableInfo }.

Record Schema := mkSchema {
  tableIDToName : gmap Z TableName;
  schemaNameToID : gmap string Z;
  schemas : gmap Z DBInfo;
  tables : gmap Z (list schemaVersionTableInfo);
  truncateTableID : gset Z;
  tblsDroppingCol : gset Z;
  tableSchemaVersion : gmap Z Z;
  hasImplicitCol : bool;
  jobs : list Job;
  version2SchemaTable : gmap Z TableName;
  currentVersion : Z;
}.

Definition NewSchema (js : list Job) (implicit : bool) : Schema :=
  mkSchema ∅ ∅ ∅ ∅ ∅ ∅ ∅ implicit js ∅ 0.

Definition set_names (m : gmap Z TableName) (s : Schema) : Schema :=
  mkSchema m (schemaNameToID s) (schemas s) (tables s) (truncateTableID s) (tblsDroppingCol s)
    (tableSchemaVersion s) (hasImplicitCol s) (jobs s) (version2SchemaTable s) (currentVersion s).
Definition set_schemas (ids : gmap string Z) (m : gmap Z DBInfo) (s : Schema) : Schema :=
  mkSchema (tableIDToName s) ids m (tables s) (truncateTableID s) (tblsDroppingCol s)
    (tableSchemaVersion s) (hasImplicitCol s) (jobs s) (version2SchemaTable s) (currentVersion s).
Definition set_tables (m : gmap Z (list schemaVersionTableInfo)) (s : Schema) : Schema :=
  mkSchema (tableIDToName s) (schemaNameToID s) (schemas s) m (truncateTableID s) (tblsDroppingCol s)
    (tableSchemaVersion s) (hasImplicitCol s) (jobs s) (version2SchemaTable s) (currentVersion s).
Definition set_truncated (m : gset Z) (s : Schema) : Schema :=
  mkSchema (tableIDToName s) (schemaNameToID s) (schemas s) (tables s) m (tblsDroppingCol s)
    (tableSchemaVersion s) (hasImplicitCol s) (jobs s) (version2SchemaTable s) (currentVersion s).
Definition set_dropping (m : gset Z) (s : Schema) : Schema :=
  mkSchema (tableIDToName s) (schemaNameToID s) (schemas s) (tables s) (truncateTableID s) m
    (tableSchemaVersion s) (hasImplicitCol s) (jobs s) (version2SchemaTable s) (currentVersion s).
Definition set_tableVersion (m : gmap Z Z) (s : Schema) : Schema :=
  mkSchema (tableIDToName s) (schemaNameToID s) (schemas s) (tables s) (truncateTableID s) (tblsDroppingCol s)
    m (hasImplicitCol s) (jobs s) (version2SchemaTable s) (currentVersion s).
Definition set_jobs (js : list Job) (s : Schema) : Schema :=
  mkSchema (tableIDToName s) (schemaNameToID s) (schemas s) (tables s) (truncateTableID s) (tblsDroppingCol s)
    (tableSchemaVersion s) (hasImplicitCol s) js (version2SchemaTable s) (currentVersion s).

(** [s.version2SchemaTable[v] = tn] and [s.currentVersion = v], which end every
    branch of [handleDDL]. *)
Definition set_version (v : Z) (tn : TableName) (s : Schema) : Schema :=
  mkSchema (tableIDToName s) (schemaNameToID s) (schemas s) (tables s) (truncateTableID s) (tblsDroppingCol s)
    (tableSchemaVersion s) (hasImplicitCol s) (jobs s) (<[v := tn]> (version2SchemaTable s)) v.
Definition set_version2 (m : gmap Z TableName) (s : Schema) : Schema :=
  mkSchema (tableIDToName s) (schemaNameToID s) (schemas s) (tables s) (truncateTableID s) (tblsDroppingCol s)
    (tableSchemaVersion s) (hasImplicitCol s) (jobs s) m (currentVersion s).

(** ** Operations that change the state and may fail
    The changes made before an error stay. *)

Definition M (A : Type) : Type := Schema -> Schema * outcome A.

Definition mret {A} (a : A) : M A := fun s => (s, Ret a).
Definition merr {A} (msg : string) : M A := fun s => (s, Fail (Err msg)).
Definition mpanic {A} : M A := fun s => (s, Panic).
Definition mmodify (f : Schema -> Schema) : M unit := fun s => (f s, Ret tt).
Definition mbind_ {A B} (c : M A) (k : A -> M B) : M B := fun s =>
  match c s with
  | (s, Ret a) => k a s
  | (s, Fail e) => (s, Fail e)
  | (s, Panic) => (s, Panic)
  end.
Definition mread {A} (f : Schema -> A) : M A := fun s => (s, Ret (f s)).

Notation "'do!' x ':=' c 'in' k" := (mbind_ c (fun x => k))
  (at level 10, x pattern, c at level 100, k at level 200) : go_scope.

(** A value behind a pointer: a nil pointer panics when it is dereferenced. *)
Definition deref {A} (p : option A) : M A := match p with Some a => mret a | None => mpanic end.

(** A lookup with a [NotFound] error. *)
Definition require {A} (msg : string) (p : option A) : M A := match p with Some a => mret a | None => merr msg end.

(** ** Reading *)

Definition SchemaAndTableName (id : Z) (s : Schema) : string * string * bool :=
  match tableIDToName s !! id with
  | Some tn => (tn_Schema tn, tn_Table tn, true)
  | None => (""%string, ""%string, false)
  end.

Definition SchemaByID (id : Z) (s : Schema) : option DBInfo := schemas s !! id.

Definition SchemaByTableID (tableID : Z) (s : Schema) : option DBInfo :=
  match tableIDToName s !! tableID with
  | Some tn => match schemaNameToID s !! tn_Schema tn with Some id => SchemaByID id s | None => None end
  | None => None
  end.

Definition TableByID (id : Z) (s : Schema) : option TableInfo :=
  vt_TableInfo <$> last (default [] (tables s !! id)).

(** [TableBySchemaVersion]: the oldest version kept that is not older. *)
Definition TableBySchemaVersion (id schemaVersion : Z) (s : Schema) : option TableInfo :=
  match tables s !! id with
  | None => None
  | Some tbls => vt_TableInfo <$> head (filter (fun t => schemaVersion <= SchemaVersion t) tbls)
  end.

Definition IsDroppingColumn (id : Z) (s : Schema) : bool := bool_decide (id ∈ tblsDroppingCol s).
Definition IsTruncateTableID (id : Z) (s : Schema) : bool := bool_decide (id ∈ truncateTableID s).

Definition CanAppendDefaultValue (id schemaVersion : Z) (s : Schema) : bool :=
  IsDroppingColumn id s ||
  match tableSchemaVersion s !! id with Some v => schemaVersion <? v | None => false end.

(** ** Changing *)

Definition implicitColName : string := "_tidb_rowid".
Definition implicitColID : Z := -1.
Definition mysql_TypeInt24 : Z := 9.

Definition addImplicitColumn (t : TableInfo) : TableInfo :=
  mkTable (tb_ID t) (tb_Name t) (tb_PKIsHandle t) (tb_IsCommonHandle t)
    (tb_Columns t ++ [mkColumn implicitColID implicitColName (mkField mysql_TypeInt24 0 "" []) StateNone false VNil])
    [mkIndex "" false true [mkIndexColumn implicitColName 0 0]].

Definition with_implicit (s : Schema) (t : TableInfo) : TableInfo :=
  if hasImplicitCol s && negb (tb_PKIsHandle t) then addImplicitColumn t else t.

(** [DropSchema]. *)
Definition DropSchema (id : Z) : M string :=
  do! schema := mread (SchemaByID id) in
  do! schema := require "schema not found" schema in
  do! _ := mmodify (fun s =>
    let ids := tb_ID <$> db_Tables schema in
    let s := set_tables (foldl (fun m id => delete id m) (tables s) ids) s in
    let s := set_names (foldl (fun m id => delete id m) (tableIDToName s) ids) s in
    set_schemas (delete (db_Name schema) (schemaNameToID s)) (delete id (schemas s)) s) in
  mret (db_Name schema).

(** [CreateSchema]. *)
Definition CreateSchema (db : DBInfo) : M unit :=
  do! old := mread (SchemaByID (db_ID db)) in
  match old with
  | Some _ => merr "schema already exists"
  | None => mmodify (fun s =>
      set_schemas (<[db_Name db := db_ID db]> (schemaNameToID s)) (<[db_ID db := db]> (schemas s)) s)
  end.

(** The loop of [removeTable]: the first table with the id goes. *)
Fixpoint remove_first (tableID : Z) (l : list TableInfo) : list TableInfo :=
  match l with
  | [] => []
  | t :: l => if tb_ID t =? tableID then l else t :: remove_first tableID l
  end.

Definition set_db_tables (ts : list TableInfo) (db : DBInfo) : DBInfo := mkDB (db_ID db) (db_Name db) ts.

(** A change of the [Tables] of a [DBInfo], which the map [schemas] points to. *)
Definition update_db (db : DBInfo) (ts : list TableInfo) (s : Schema) : Schema :=
  set_schemas (schemaNameToID s) (<[db_ID db := set_db_tables ts db]> (schemas s)) s.

Definition removeTable (tableID : Z) : M unit :=
  do! schema := mread (SchemaByTableID tableID) in
  do! schema := require "table's schema not found" schema in
  mmodify (update_db schema (remove_first tableID (db_Tables schema))).

(** [DropTable]; an entry of [tables] is never empty. *)
Definition DropTable (id : Z) : M string :=
  do! tbls := mread (fun s => tables s !! id) in
  do! tbls := require "table not found" tbls in
  do! table := deref (vt_TableInfo <$> last tbls) in
  do! _ := removeTable id in
  do! _ := mmodify (fun s => set_names (delete id (tableIDToName s)) (set_tables (delete id (tables s)) s)) in
  mret (tb_Name table).

(** [appendTableInfo]: at most the last two versions are kept. *)
Definition appendTableInfo (schemaVersion : Z) (table : TableInfo) (s : Schema) : Schema :=
  let tbls := default [] (tables s !! tb_ID table) ++ [mkVersioned schemaVersion table] in
  let tbls := if (2 <? length tbls)%nat then drop (length tbls - 2) tbls else tbls in
  set_tables (<[tb_ID table := tbls]> (tables s)) s.

(** [CreateTable] in the schema with the id [schemaID], which exists. *)
Definition CreateTable (schemaVersion schemaID : Z) (table : TableInfo) : M unit :=
  do! old := mread (fun s => tables s !! tb_ID table) in
  match old with
  | Some _ => merr "table already exists"
  | None =>
    do! schema := mread (SchemaByID schemaID) in
    do! schema := deref schema in
    mmodify (fun s =>
      let table := with_implicit s table in
      let s := update_db schema (db_Tables schema ++ [table]) s in
      let s := appendTableInfo schemaVersion table s in
      set_names (<[tb_ID table := mkTableName (db_Name schema) (tb_Name table)]> (tableIDToName s)) s)
  end.

(** [ReplaceTable]. *)
Definition ReplaceTable (schemaVersion : Z) (table : TableInfo) : M unit :=
  do! old := mread (fun s => tables s !! tb_ID table) in
  match old with
  | None => merr "table not found"
  | Some _ => mmodify (fun s => appendTableInfo schemaVersion (with_implicit s table) s)
  end.

(** ** Jobs *)

Definition IsSynced (j : Job) : bool := match job_State j with JobStateSynced => true | _ => false end.
Definition IsDone (j : Job) : bool := match job_State j with JobStateDone => true | _ => false end.
Definition skipJob (j : Job) : bool := negb (IsSynced j) && negb (IsDone j).

Definition skipUnsupportedDDLJob (j : Job) : bool :=
  match job_Type j with
  | ActionUpdateTiFlashReplicaStatus | ActionLockTable | ActionUnlockTable
  | ActionAlterTableAttributes | ActionAlterTablePartitionAttributes => true
  | _ => false
  end.

(** [job.BinlogInfo.SchemaVersion]. *)
Definition job_version (j : Job) : option Z := hi_SchemaVersion <$> job_BinlogInfo j.

(** The branches of [handleDDL]: the names of the schema and of the table. *)
Definition handle_create_schema (info : HistoryInfo) : M (string * string) :=
  do! schema := deref (hi_DBInfo info) in
  do! _ := CreateSchema schema in
  do! _ := mmodify (set_version (hi_SchemaVersion info) (mkTableName (db_Name schema) "")) in
  mret (db_Name schema, ""%string).

Definition handle_modify_schema (info : HistoryInfo) : M (string * string) :=
  do! db := deref (hi_DBInfo info) in
  do! old := mread (SchemaByID (db_ID db)) in
  do! _ := require "schema not found" old in
  do! _ := mmodify (fun s =>
    set_schemas (<[db_Name db := db_ID db]> (schemaNameToID s)) (<[db_ID db := db]> (schemas s)) s) in
  do! _ := mmodify (set_version (hi_SchemaVersion info) (mkTableName (db_Name db) "")) in
  mret (db_Name db, ""%string).

Definition handle_drop_schema (j : Job) : M (string * string) :=
  do! schemaName := DropSchema (job_SchemaID j) in
  do! info := deref (job_BinlogInfo j) in
  do! _ := mmodify (set_version (hi_SchemaVersion info) (mkTableName schemaName "")) in
  mret (schemaName, ""%string).

(** Creating the table of a job in its schema, at the end of several branches. *)
Definition create_in_schema (j : Job) (info : HistoryInfo) (table : TableInfo) : M (string * string) :=
  do! _ := CreateTable (hi_SchemaVersion info) (job_SchemaID j) table in
  do! schema := mread (SchemaByID (job_SchemaID j)) in
  do! schema := deref schema in
  do! _ := mmodify (set_version (hi_SchemaVersion info) (mkTableName (db_Name schema) (tb_Name table))) in
  mret (db_Name schema, tb_Name table).

Definition handle_rename_table (j : Job) : M (string * string) :=
  do! old := mread (SchemaByTableID (job_TableID j)) in
  do! _ := require "table or its schema not found" old in
  do! _ := DropTable (job_TableID j) in
  do! info := deref (job_BinlogInfo j) in
  do! schema := mread (SchemaByID (job_SchemaID j)) in
  do! _ := require "schema not found" schema in
  do! table := deref (hi_TableInfo info) in
  create_in_schema j info table.

Definition handle_create_table (j : Job) : M (string * string) :=
  do! info := deref (job_BinlogInfo j) in
  do! table := require "table not found" (hi_TableInfo info) in
  do! schema := mread (SchemaByID (job_SchemaID j)) in
  do! _ := require "schema not found" schema in
  create_in_schema j info table.

Definition handle_drop_table (j : Job) : M (string * string) :=
  do! schema := mread (SchemaByID (job_SchemaID j)) in
  do! schema := require "schema not found" schema in
  do! tableName := DropTable (job_TableID j) in
  do! info := deref (job_BinlogInfo j) in
  do! _ := mmodify (set_version (hi_SchemaVersion info) (mkTableName (db_Name schema) tableName)) in
  mret (db_Name schema, tableName).

Definition handle_truncate_table (j : Job) : M (string * string) :=
  do! schema := mread (SchemaByID (job_SchemaID j)) in
  do! _ := require "schema not found" schema in
  do! _ := DropTable (job_TableID j) in
  do! info := deref (job_BinlogInfo j) in
  do! table := require "table not found" (hi_TableInfo info) in
  do! r := create_in_schema j info table in
  do! _ := mmodify (fun s => set_truncated ({[job_TableID j]} ∪ truncateTableID s) s) in
  mret r.

Definition handle_other (j : Job) : M (string * string) :=
  do! info := require "table not found" (job_BinlogInfo j) in
  do! tbInfo := require "table not found" (hi_TableInfo info) in
  do! schema := mread (SchemaByID (job_SchemaID j)) in
  do! schema := require "schema not found" schema in
  do! _ := ReplaceTable (hi_SchemaVersion info) tbInfo in
  do! _ := mmodify (set_version (hi_SchemaVersion info) (mkTableName (db_Name schema) (tb_Name tbInfo))) in
  do! _ := mmodify (fun s => if bool_decide (job_Type j = ActionDropColumn)
                              then set_dropping (tblsDroppingCol s ∖ {[job_TableID j]}) s else s) in
  mret (db_Name schema, tb_Name tbInfo).

(** [handleDDL]: the schema, the table and the statement of the job; all empty for
    a job that is skipped. *)
Definition handleDDL (j : Job) : M (string * string * string) :=
  if skipJob j then mret (""%string, ""%string, ""%string)
  else if bool_decide (job_Query j = ""%string) then merr "[ddl job sql miss]"
  else
    do! (schemaName, tableName) :=
      match job_Type j with
      | ActionCreateSchema => do! info := deref (job_BinlogInfo j) in handle_create_schema info
      | ActionModifySchemaCharsetAndCollate => do! info := deref (job_BinlogInfo j) in handle_modify_schema info
      | ActionDropSchema => handle_drop_schema j
      | ActionRenameTable => handle_rename_table j
      | ActionCreateTable | ActionCreateView | ActionCreateSequence | ActionRecoverTable => handle_create_table j
      | ActionDropTable | ActionDropView | ActionDropSequence => handle_drop_table j
      | ActionTruncateTable => handle_truncate_table j
      | _ => handle_other j
      end in
    mret (schemaName, tableName, job_Query j).

(** [addJob]. *)
Definition addJob (j : Job) : M unit :=
  do! js := mread jobs in
  match last js with
  | None => mmodify (set_jobs [j])
  | Some lastJob =>
    do! v0 := deref (job_version lastJob) in
    do! v := deref (job_version j) in
    if v0 <? v then mmodify (set_jobs (js ++ [j])) else mret tt
  end.

Definition is_delete_only_drop (j : Job) : bool :=
  match job_SchemaState j, job_Type j with StateDeleteOnly, ActionDropColumn => true | _, _ => false end.

(** The body of the loop of [handlePreviousDDLJobIfNeed] for a job that is due. *)
Definition handle_due (j : Job) (v : Z) : M unit :=
  do! cur := mread currentVersion in
  if v <=? cur then mret tt
  else if is_delete_only_drop j then mmodify (fun s => set_dropping ({[job_TableID j]} ∪ tblsDroppingCol s) s)
  else if skipUnsupportedDDLJob j then mret tt
  else
    do! _ := handleDDL j in
    mmodify (fun s => set_tableVersion (<[job_TableID j := v]> (tableSchemaVersion s)) s).

(** The loop: the jobs that are left. *)
Fixpoint handle_previous (js : list Job) (version : Z) : M (list Job) :=
  match js with
  | [] => mret []
  | j :: js' =>
    do! v := deref (job_version j) in
    if version <? v then mret js
    else do! _ := handle_due j v in handle_previous js' version
  end.

(** [handlePreviousDDLJobIfNeed]; after an error the list of jobs is not changed. *)
Definition handlePreviousDDLJobIfNeed (version : Z) : M unit :=
  do! js := mread jobs in
  do! js := handle_previous js version in
  mmodify (set_jobs js).

(** [getSchemaTableAndDelete]. *)
Definition getSchemaTableAndDelete (version : Z) : M (string * string) :=
  do! tn := mread (fun s => version2SchemaTable s !! version) in
  do! tn := require "version not found" tn in
  do! _ := mmodify (fun s => set_version2 (delete version (version2SchemaTable s)) s) in
  mret (tn_Schema tn, tn_Table tn).
