(* ===== verification/SchemaProofs.v ===== *)
(** * SchemaProofs
    Correctness of the schema history of drainer: its invariant, the catalog it
    implements, and that applying DDL jobs in several steps is applying them in
    one. *)
From stdpp Require Import base option list gmap strings sorting.
From S2P Require Import Prelude Schema.

(** ** Reasoning about operations *)

(** From a state with [P], a result satisfies [Q] and an error leaves a state with
    [E]. *)
Definition triple {A} (P : Schema -> Prop) (c : M A) (Q : A -> Schema -> Prop) (E : Schema -> Prop) : Prop :=
  forall s, P s -> match c s with (s', Ret a) => Q a s' | (s', _) => E s' end.

Section Triples.
Context {A B : Type}.
Implicit Types (P E : Schema -> Prop).

Lemma triple_bind P (c : M A) (k : A -> M B) R Q E :
  triple P c R E -> (forall a, triple (R a) (k a) Q E) -> triple P (mbind_ c k) Q E.
Proof.
  intros Hc Hk s Hs. unfold mbind_. specialize (Hc s Hs). destruct (c s) as [s' [a|e|]]; [|done..].
  by apply Hk.
Qed.

Lemma triple_seq P (c : M A) (k : M B) R Q E :
  triple P c (fun _ => R) E -> triple R k Q E -> triple P (mbind_ c (fun _ => k)) Q E.
Proof. intros Hc Hk. by eapply triple_bind. Qed.

Lemma triple_ret P (a : A) Q E : (forall s, P s -> Q a s) -> triple P (mret a) Q E.
Proof. intros H s Hs. by apply H. Qed.

Lemma triple_err P msg (Q : A -> Schema -> Prop) E : (forall s, P s -> E s) -> triple P (merr msg) Q E.
Proof. intros H s Hs. by apply H. Qed.

Lemma triple_panic P (Q : A -> Schema -> Prop) E : (forall s, P s -> E s) -> triple P mpanic Q E.
Proof. intros H s Hs. by apply H. Qed.

Lemma triple_read P (f : Schema -> A) Q E : (forall s, P s -> Q (f s) s) -> triple P (mread f) Q E.
Proof. intros H s Hs. by apply H. Qed.

Lemma triple_modify P f (Q : unit -> Schema -> Prop) E : (forall s, P s -> Q tt (f s)) -> triple P (mmodify f) Q E.
Proof. intros H s Hs. by apply H. Qed.

Lemma triple_read_inv P (f : Schema -> A) E : triple P (mread f) (fun _ => P) E.
Proof. by apply triple_read. Qed.

Lemma triple_read_eq P (f : Schema -> A) E : triple P (mread f) (fun a s => a = f s /\ P s) E.
Proof. by apply triple_read. Qed.

Lemma triple_deref P (p : option A) E :
  (forall s, P s -> E s) -> triple P (deref p) (fun a s => p = Some a /\ P s) E.
Proof. intros H s Hs. destruct p; simpl; auto. Qed.

Lemma triple_require P msg (p : option A) E :
  (forall s, P s -> E s) -> triple P (require msg p) (fun a s => p = Some a /\ P s) E.
Proof. intros H s Hs. destruct p; simpl; auto. Qed.

Lemma triple_conseq P P' (c : M A) Q Q' E E' :
  triple P c Q E -> (forall s, P' s -> P s) -> (forall a s, Q a s -> Q' a s) -> (forall s, E s -> E' s) ->
  triple P' c Q' E'.
Proof.
  intros Hc HP HQ HE s Hs. specialize (Hc s (HP s Hs)). destruct (c s) as [s' [a|e|]]; auto.
Qed.

Lemma triple_pre P (F : Prop) (c : M A) Q E : (F -> triple P c Q E) -> triple (fun s => F /\ P s) c Q E.
Proof. intros H s [HF Hs]. by apply H. Qed.
End Triples.

(** ** The invariant *)

(** The versions of a table kept: one or two, of this table, growing and at most
    [c]. *)
Definition versions_ok (c id : Z) (l : list schemaVersionTableInfo) : Prop :=
  l <> [] /\ (length l <= 2)%nat /\
  Forall (fun t => tb_ID (vt_TableInfo t) = id /\ SchemaVersion t <= c) l /\
  StronglySorted Z.lt (SchemaVersion <$> l).

Record wf_at (c : Z) (s : Schema) : Prop := {
  wf_dom : forall id, is_Some (tables s !! id) <-> is_Some (tableIDToName s !! id);
  wf_versions : forall id l, tables s !! id = Some l -> versions_ok c id l;
  wf_schemas : forall id db, schemas s !! id = Some db -> db_ID db = id;
}.

Definition schema_wf (s : Schema) : Prop := wf_at (currentVersion s) s.

Lemma versions_ok_weaken c c' id l : c <= c' -> versions_ok c id l -> versions_ok c' id l.
Proof.
  intros Hc (H1 & H2 & H3 & H4). split_and!; [done|done| |done].
  eapply Forall_impl; [exact H3|]. intros t [? ?]. split; [done|lia].
Qed.

Lemma wf_at_weaken c c' s : c <= c' -> wf_at c s -> wf_at c' s.
Proof.
  intros Hc [H1 H2 H3]. split; [done| |done]. intros id l Hl. by eapply versions_ok_weaken, H2.
Qed.

(** The same state apart from fields that the invariant does not mention. *)
Lemma wf_at_same c s s' : tables s' = tables s -> tableIDToName s' = tableIDToName s -> schemas s' = schemas s ->
  wf_at c s -> wf_at c s'.
Proof. intros H1 H2 H3 [W1 W2 W3]. split; rewrite ?H1, ?H2, ?H3; done. Qed.

Lemma foldl_delete_lookup {V} (ids : list Z) (m : gmap Z V) id :
  foldl (fun m id => delete id m) m ids !! id = if decide (id ∈ ids) then None else m !! id.
Proof.
  revert m. induction ids as [|x ids IH]; intros m; cbn [foldl].
  { by rewrite decide_False by apply not_elem_of_nil. }
  rewrite IH. destruct (decide (id ∈ ids)) as [Hin|Hni].
  - by rewrite decide_True by by right.
  - destruct (decide (id = x)) as [->|Hne].
    + by rewrite lookup_delete_eq, decide_True by by left.
    + rewrite lookup_delete_ne, decide_False by (done || by intros [?|?]%elem_of_cons). done.
Qed.

(** The parts of a proof that only pass the precondition on. *)
Ltac t_read := eapply triple_bind; [apply triple_read_inv|intros ?].
Ltac t_some x H := eapply triple_bind; [first [apply triple_require|apply triple_deref]; solve [auto|by intros ? (?&?)|by intros ? (?&?&?)]
                                       |intros x; apply triple_pre; intros H].

Section Inv.
(** A version before the job at hand. *)
Variable cur : Z.

Definition Inv (s : Schema) : Prop := wf_at cur s /\ currentVersion s = cur.

Lemma DropSchema_inv id : triple Inv (DropSchema id) (fun _ => Inv) Inv.
Proof.
  unfold DropSchema. t_read. t_some db Hdb. apply triple_seq with Inv; [|by apply triple_ret].
  apply (triple_modify Inv _ (fun _ => Inv)). intros s [[W1 W2 W3] Hc]. split; [|done]. split; simpl.
  - intros x. rewrite !foldl_delete_lookup. destruct (decide (x ∈ _)); [|apply W1].
    split; by intros [? ?].
  - intros x l. rewrite foldl_delete_lookup. destruct (decide (x ∈ _)); [done|]. apply W2.
  - intros x d. rewrite lookup_delete_Some. intros [_ ?]. by apply W3.
Qed.

Lemma insert_schema_inv db s : Inv s ->
  Inv (set_schemas (<[db_Name db := db_ID db]> (schemaNameToID s)) (<[db_ID db := db]> (schemas s)) s).
Proof.
  intros [[W1 W2 W3] Hc]. split; [|done]. split; simpl; [done|done|].
  intros x d [[<- <-]|[_ ?]]%lookup_insert_Some; [done|by apply W3].
Qed.

Lemma CreateSchema_inv db : triple Inv (CreateSchema db) (fun _ => Inv) Inv.
Proof.
  unfold CreateSchema. t_read. destruct a; [by apply triple_err|].
  apply triple_modify. apply insert_schema_inv.
Qed.

Lemma update_db_wf c s db ts : wf_at c s -> wf_at c (update_db db ts s).
Proof.
  intros [W1 W2 W3]. split; simpl; [done|done|].
  intros x d [[<- <-]|[_ ?]]%lookup_insert_Some; [done|by apply W3].
Qed.

Lemma DropTable_inv id : triple Inv (DropTable id) (fun _ => Inv) Inv.
Proof.
  unfold DropTable. t_read. t_some l Hl. t_some t Ht.
  apply triple_seq with Inv.
  - unfold removeTable. t_read. t_some db Hdb.
    apply (triple_modify Inv _ (fun _ => Inv)). intros s [Hw Hc]. split; [by apply update_db_wf|done].
  - apply triple_seq with Inv; [|by apply triple_ret].
    apply (triple_modify Inv _ (fun _ => Inv)). intros s [[W1 W2 W3] Hc]. split; [|done]. split; simpl; [| |done].
    + intros x. destruct (decide (x = id)) as [->|Hne]; [by rewrite !lookup_delete_eq|].
      rewrite !lookup_delete_ne by done. apply W1.
    + intros x l'. rewrite lookup_delete_Some. intros [_ ?]. by apply W2.
Qed.

(** A later version of a table. *)
Variable v : Z.
Hypothesis Hv : cur < v.

Lemma appendTableInfo_versions t l :
  l = [] \/ versions_ok cur (tb_ID t) l ->
  let l' := l ++ [mkVersioned v t] in
  versions_ok v (tb_ID t) (if (2 <? length l')%nat then drop (length l' - 2) l' else l').
Proof.
  intros Hl. cbn zeta. destruct Hl as [->|(Hne & Hlen & Hf & Hs)].
  { split_and!; simpl; [done|lia| |by repeat constructor]. repeat constructor. simpl. lia. }
  assert (Hbelow : forall t', t' ∈ l -> tb_ID (vt_TableInfo t') = tb_ID t /\ SchemaVersion t' <= cur).
  { intros t' Hin. rewrite list.Forall_forall in Hf. by apply Hf. }
  destruct l as [|a [|b [|]]]; [done| | |simpl in Hlen; lia]; simpl.
  - destruct (Hbelow a) as [Ha1 Ha2]; [by left|].
    split_and!; simpl; [done|lia|repeat constructor; simpl; lia|repeat constructor; lia].
  - destruct (Hbelow b) as [Hb1 Hb2]; [by right; left|].
    split_and!; simpl; [done|lia|repeat constructor; simpl; lia|repeat constructor; lia].
Qed.

(** What [appendTableInfo] leaves in the map [tables]. *)
Lemma appendTableInfo_wf t s n : wf_at cur s ->
  wf_at v (set_names (<[tb_ID t := n]> (tableIDToName s)) (appendTableInfo v t s)).
Proof.
  intros [W1 W2 W3]. split; simpl; [| |done].
  - intros x. destruct (decide (x = tb_ID t)) as [->|Hne].
    + rewrite !lookup_insert_eq. split; intros _; by eexists.
    + rewrite !lookup_insert_ne by done. apply W1.
  - intros x l [[<- <-]|[_ Hl]]%lookup_insert_Some.
    + apply appendTableInfo_versions. destruct (tables s !! tb_ID t) as [l|] eqn:E; [right; by apply W2|by left].
    + apply (versions_ok_weaken cur); [lia|]. by apply W2.
Qed.

Lemma with_implicit_ID s t : tb_ID (with_implicit s t) = tb_ID t.
Proof. unfold with_implicit. by destruct (hasImplicitCol s && _). Qed.

(** After the table has a new version, before the version of the schema moves. *)
Definition Post (sid : Z) (s : Schema) : Prop := wf_at v s /\ is_Some (schemas s !! sid).

(** At the version of the job. *)
Definition Done (s : Schema) : Prop := wf_at v s /\ currentVersion s = v.

Lemma CreateTable_inv sid t : triple Inv (CreateTable v sid t) (fun _ => Post sid) Inv.
Proof.
  unfold CreateTable. t_read. destruct a; [by apply triple_err|].
  intros s [Hw Hc]. unfold mbind_, mread, deref, SchemaByID. destruct (schemas s !! sid) as [db|] eqn:Hdb; [|by split].
  cbn [mmodify mret]. set (t' := with_implicit s t). pose proof (wf_schemas _ _ Hw sid db Hdb) as Hid.
  split; [|simpl; rewrite Hid, lookup_insert_eq; by eexists].
  apply (appendTableInfo_wf t' (update_db db (db_Tables db ++ [t']) s)). by apply update_db_wf.
Qed.

Lemma ReplaceTable_inv t : triple Inv (ReplaceTable v t) (fun _ => wf_at v) Inv.
Proof.
  intros s [Hw Hc]. unfold ReplaceTable, mbind_, mread. destruct (tables s !! tb_ID t) as [l|] eqn:Hl; [|by split].
  cbn [mmodify]. set (t' := with_implicit s t).
  assert (Hid : tb_ID t' = tb_ID t) by apply with_implicit_ID.
  destruct (proj1 (wf_dom _ _ Hw (tb_ID t))) as [n Hn]; [by eexists|].
  apply (wf_at_same v (set_names (<[tb_ID t' := n]> (tableIDToName s)) (appendTableInfo v t' s))); [done| |done|].
  - simpl. symmetry. rewrite Hid. by apply insert_id.
  - by apply appendTableInfo_wf.
Qed.

Lemma set_version_done P E tn : (forall s, P s -> wf_at v s) -> triple P (mmodify (set_version v tn)) (fun _ => Done) E.
Proof.
  intros HP. apply triple_modify. intros s Hs. split; [|done].
  by apply (wf_at_same v s), HP.
Qed.

Lemma wf_at_later s : Inv s -> wf_at v s.
Proof. intros [Hw _]. apply (wf_at_weaken cur); [lia|done]. Qed.

Lemma create_in_schema_inv j info t : hi_SchemaVersion info = v ->
  triple Inv (create_in_schema j info t) (fun _ => Done) Inv.
Proof.
  intros Hi. unfold create_in_schema. rewrite Hi. eapply triple_seq; [apply CreateTable_inv|].
  intros s [Hw [db Hdb]]. unfold mbind_, mread, deref, SchemaByID. rewrite Hdb.
  cbn [mret mmodify]. split; [|done]. by apply (wf_at_same v s).
Qed.
End Inv.

(** ** Every branch of [handleDDL] *)

Section Branches.
Variables (cur v : Z) (j : Job) (info : HistoryInfo).
Hypothesis Hv : cur < v.
Hypothesis Hinfo : job_BinlogInfo j = Some info.
Hypothesis Hver : hi_SchemaVersion info = v.

Ltac t_done := apply triple_seq with (Done v); [apply (set_version_done v); intros ? ?; by eapply wf_at_later|by apply triple_ret].

Lemma handle_create_schema_inv : triple (Inv cur) (handle_create_schema info) (fun _ => Done v) (Inv cur).
Proof.
  unfold handle_create_schema. rewrite Hver. t_some db Hdb. eapply triple_seq; [apply CreateSchema_inv|]. t_done.
Qed.

Lemma handle_modify_schema_inv : triple (Inv cur) (handle_modify_schema info) (fun _ => Done v) (Inv cur).
Proof.
  unfold handle_modify_schema. rewrite Hver. t_some db Hdb. t_read. t_some old Hold.
  apply triple_seq with (Inv cur); [|t_done]. apply triple_modify. apply insert_schema_inv.
Qed.

Lemma handle_drop_schema_inv : triple (Inv cur) (handle_drop_schema j) (fun _ => Done v) (Inv cur).
Proof.
  unfold handle_drop_schema. eapply triple_bind; [apply DropSchema_inv|intros n]. rewrite Hinfo.
  t_some i Hi. injection Hi as <-. rewrite Hver. t_done.
Qed.

Lemma handle_rename_table_inv : triple (Inv cur) (handle_rename_table j) (fun _ => Done v) (Inv cur).
Proof.
  unfold handle_rename_table. t_read. t_some db Hdb. eapply triple_bind; [apply DropTable_inv|intros n]. rewrite Hinfo.
  t_some i Hi. injection Hi as <-. t_read. t_some db' Hdb'. t_some t Ht. by apply create_in_schema_inv.
Qed.

Lemma handle_create_table_inv : triple (Inv cur) (handle_create_table j) (fun _ => Done v) (Inv cur).
Proof.
  unfold handle_create_table. rewrite Hinfo. t_some i Hi. injection Hi as <-.
  t_some t Ht. t_read. t_some db Hdb. by apply create_in_schema_inv.
Qed.

Lemma handle_drop_table_inv : triple (Inv cur) (handle_drop_table j) (fun _ => Done v) (Inv cur).
Proof.
  unfold handle_drop_table. t_read. t_some db Hdb. eapply triple_bind; [apply DropTable_inv|intros n]. rewrite Hinfo.
  t_some i Hi. injection Hi as <-. rewrite Hver. t_done.
Qed.

Lemma handle_truncate_table_inv : triple (Inv cur) (handle_truncate_table j) (fun _ => Done v) (Inv cur).
Proof.
  unfold handle_truncate_table. t_read. t_some db Hdb. eapply triple_bind; [apply DropTable_inv|intros n]. rewrite Hinfo.
  t_some i Hi. injection Hi as <-. t_some t Ht.
  eapply triple_bind; [by apply create_in_schema_inv|intros r].
  apply triple_seq with (Done v); [|by apply triple_ret].
  apply triple_modify. intros s [Hw Hc]. split; [|done]. by apply (wf_at_same v s).
Qed.

Lemma handle_other_inv : triple (Inv cur) (handle_other j) (fun _ => Done v) (Inv cur).
Proof.
  unfold handle_other. rewrite Hinfo. t_some i Hi. injection Hi as <-. t_some t Ht. t_read. t_some db Hdb.
  rewrite Hver. eapply triple_seq; [by apply ReplaceTable_inv|].
  apply triple_seq with (Done v); [by apply (set_version_done v)|].
  apply triple_seq with (Done v); [|by apply triple_ret].
  apply triple_modify. intros s [Hw Hc]. destruct (bool_decide _); [|done]. split; [|done]. by apply (wf_at_same v s).
Qed.

Lemma handleDDL_inv : triple (Inv cur) (handleDDL j) (fun _ s => if skipJob j then Inv cur s else Done v s) (Inv cur).
Proof.
  unfold handleDDL. destruct (skipJob j); [by apply triple_ret|].
  case_bool_decide; [by apply triple_err|].
  apply triple_bind with (fun _ => Done v); [|intros [sn tn]; by apply triple_ret].
  pose proof handle_create_schema_inv. pose proof handle_modify_schema_inv. pose proof handle_drop_schema_inv.
  pose proof handle_rename_table_inv. pose proof handle_create_table_inv. pose proof handle_drop_table_inv.
  pose proof handle_truncate_table_inv. pose proof handle_other_inv.
  destruct (job_Type j); try done; rewrite Hinfo; t_some i Hi; by injection Hi as <-.
Qed.
End Branches.

(** ** The queue of jobs *)

Lemma handle_due_wf j v : job_version j = Some v -> triple schema_wf (handle_due j v) (fun _ => schema_wf) schema_wf.
Proof.
  intros Hj s Hw. unfold handle_due, mbind_ at 1, mread. destruct (Z.leb_spec v (currentVersion s)) as [Hle|Hlt]; [done|].
  destruct (is_delete_only_drop j); [by apply (wf_at_same _ s)|].
  destruct (skipUnsupportedDDLJob j); [done|].
  unfold job_version in Hj. destruct (job_BinlogInfo j) as [info|] eqn:Hi; [|done]. injection Hj as Hver.
  assert (HI : Inv (currentVersion s) s) by done.
  pose proof (handleDDL_inv _ v j info Hlt Hi Hver s HI) as Ht. unfold mbind_.
  destruct (handleDDL j s) as [s' [r|e|]]; cbn [mmodify].
  - assert (Hs' : schema_wf s'); [|by apply (wf_at_same _ s')].
    destruct (skipJob j); destruct Ht as [Hw' Hc]; unfold schema_wf; by rewrite Hc.
  - destruct Ht as [Hw' Hc]. unfold schema_wf. by rewrite Hc.
  - destruct Ht as [Hw' Hc]. unfold schema_wf. by rewrite Hc.
Qed.

Lemma handle_previous_wf js version : triple schema_wf (handle_previous js version) (fun _ => schema_wf) schema_wf.
Proof.
  induction js as [|j js IH]; cbn [handle_previous]; [by apply triple_ret|].
  t_some v Hv. destruct (version <? v); [by apply triple_ret|].
  eapply triple_seq; [by apply handle_due_wf|exact IH].
Qed.

(** ** Operations that do not look at the queue *)

(** A class of the operations that neither read nor write [jobs]. *)
Class JobsFree {A} (c : M A) : Prop :=
  jobs_free : forall js s, c (set_jobs js s) = (set_jobs js (fst (c s)), snd (c s)).

#[export] Instance mret_free {A} (a : A) : JobsFree (mret a).
Proof. done. Qed.
#[export] Instance merr_free {A} msg : JobsFree (@merr A msg).
Proof. done. Qed.
#[export] Instance mpanic_free {A} : JobsFree (@mpanic A).
Proof. done. Qed.
#[export] Instance mbind_free {A B} (c : M A) (k : A -> M B) :
  JobsFree c -> (forall a, JobsFree (k a)) -> JobsFree (mbind_ c k).
Proof.
  intros Hc Hk js s. unfold mbind_. rewrite (jobs_free js s).
  destruct (c s) as [s' [a|e|]]; cbn [fst snd]; [apply Hk|done..].
Qed.
#[export] Instance deref_free {A} (p : option A) : JobsFree (deref p).
Proof. by destruct p. Qed.
#[export] Instance require_free {A} msg (p : option A) : JobsFree (require msg p).
Proof. by destruct p. Qed.
Lemma mread_free {A} (f : Schema -> A) : (forall js s, f (set_jobs js s) = f s) -> JobsFree (mread f).
Proof. intros Hf js s. unfold mread. by rewrite Hf. Qed.
Lemma mmodify_free f : (forall js s, f (set_jobs js s) = set_jobs js (f s)) -> JobsFree (mmodify f).
Proof. intros Hf js s. unfold mmodify. cbn [fst snd]. by rewrite Hf. Qed.
#[export] Hint Extern 2 (JobsFree (mread _)) => (apply mread_free; done) : typeclass_instances.
#[export] Hint Extern 2 (JobsFree (mmodify _)) => (apply mmodify_free; intros; first [done|by case_bool_decide]) : typeclass_instances.
#[export] Hint Extern 3 (JobsFree (match ?x with _ => _ end)) => (destruct x) : typeclass_instances.

#[export] Instance DropSchema_free id : JobsFree (DropSchema id).
Proof. apply _. Qed.
#[export] Instance CreateSchema_free db : JobsFree (CreateSchema db).
Proof. apply _. Qed.
#[export] Instance DropTable_free id : JobsFree (DropTable id).
Proof. unfold DropTable, removeTable. apply _. Qed.
#[export] Instance create_in_schema_free j info t : JobsFree (create_in_schema j info t).
Proof. unfold create_in_schema, CreateTable. apply _. Qed.
#[export] Instance ReplaceTable_free v t : JobsFree (ReplaceTable v t).
Proof. unfold ReplaceTable. apply _. Qed.

#[export] Instance handleDDL_free j : JobsFree (handleDDL j).
Proof.
  unfold handleDDL, handle_create_schema, handle_modify_schema, handle_drop_schema, handle_rename_table,
    handle_create_table, handle_drop_table, handle_truncate_table, handle_other. apply _.
Qed.

#[export] Instance handle_due_free j v : JobsFree (handle_due j v).
Proof. unfold handle_due. apply _. Qed.

#[export] Instance handle_previous_free js version : JobsFree (handle_previous js version).
Proof. induction js as [|j js IH]; cbn [handle_previous]; apply _. Qed.

(** ** Applying jobs in several steps *)

Lemma handle_previous_split js v1 v2 s : v1 <= v2 ->
  handle_previous js v2 s = mbind_ (handle_previous js v1) (fun r => handle_previous r v2) s.
Proof.
  intros Hle. revert s. induction js as [|j js IH]; intros s; [done|]. cbn [handle_previous].
  destruct (job_version j) as [v|] eqn:Hv; [|done].
  change ((if v2 <? v then mret (j :: js) else mbind_ (handle_due j v) (fun _ => handle_previous js v2)) s =
    mbind_ (if v1 <? v then mret (j :: js) else mbind_ (handle_due j v) (fun _ => handle_previous js v1))
      (fun r => handle_previous r v2) s).
  destruct (Z.ltb_spec v1 v) as [H1|H1].
  - unfold mbind_ at 2. cbn [mret handle_previous]. by rewrite Hv.
  - destruct (Z.ltb_spec v2 v) as [H2|H2]; [lia|].
    unfold mbind_. destruct (handle_due j v s) as [s' [[]|e|]]; [|done..]. apply IH.
Qed.

(** What the operation does, with the queue apart. *)
Lemma handlePrevious_unfold v s :
  handlePreviousDDLJobIfNeed v s =
    match handle_previous (jobs s) v s with
    | (s', Ret r) => (set_jobs r s', Ret tt)
    | (s', Fail e) => (s', Fail e)
    | (s', Panic) => (s', Panic)
    end.
Proof. unfold handlePreviousDDLJobIfNeed, mbind_ at 1 2, mread, mmodify. by destruct (handle_previous _ _ _) as [s' [?|?|]]. Qed.

Lemma set_jobs_set_jobs js js' s : set_jobs js (set_jobs js' s) = set_jobs js s.
Proof. done. Qed.

(** Bringing the schema to a version and then to a later one is bringing it to
    the later one at once: the same outcome, and after a success the same state
    (after an error the two differ at most in the queue of jobs). *)
Theorem handlePrevious_split v1 v2 s : v1 <= v2 ->
  let once := handlePreviousDDLJobIfNeed v2 s in
  let twice := mbind_ (handlePreviousDDLJobIfNeed v1) (fun _ => handlePreviousDDLJobIfNeed v2) s in
  snd once = snd twice /\
  set_jobs [] (fst once) = set_jobs [] (fst twice) /\
  (snd once = Ret tt -> once = twice).
Proof.
  intros Hle. cbn zeta. unfold mbind_. rewrite !handlePrevious_unfold, (handle_previous_split _ _ _ _ Hle).
  unfold mbind_. destruct (handle_previous (jobs s) v1 s) as [s1 [r1|e1|]]; [|done..].
  rewrite handlePrevious_unfold. cbn [jobs set_jobs]. rewrite (jobs_free (c := handle_previous r1 v2) r1 s1).
  by destruct (handle_previous r1 v2 s1) as [s2 [r2|e2|]]; cbn [fst snd].
Qed.

(** ** The invariant of a run *)

Inductive SchemaOp := OpAddJob (j : Job) | OpHandlePrevious (version : Z) | OpGetSchemaTable (version : Z).

(** The state after a call, whether it succeeds or fails. *)
Definition schema_op (op : SchemaOp) (s : Schema) : Schema :=
  match op with
  | OpAddJob j => fst (addJob j s)
  | OpHandlePrevious v => fst (handlePreviousDDLJobIfNeed v s)
  | OpGetSchemaTable v => fst (getSchemaTableAndDelete v s)
  end.

Definition schema_ops (ops : list SchemaOp) (s : Schema) : Schema := foldl (flip schema_op) s ops.

Definition queue_sorted (js : list Job) : Prop := StronglySorted Z.lt (omap job_version js).

Lemma triple_fst {A} P (c : M A) s : triple P c (fun _ => P) P -> P s -> P (fst (c s)).
Proof. intros Hc Hs. specialize (Hc s Hs). by destruct (c s) as [s' [?|?|]]. Qed.

Lemma handle_previous_suffix js v s s' r : handle_previous js v s = (s', Ret r) -> exists pre, js = pre ++ r.
Proof.
  revert s s' r. induction js as [|j js IH]; intros s s' r; cbn [handle_previous].
  { intros [= _ <-]. by exists []. }
  unfold mbind_ at 1. destruct (job_version j) as [vj|]; [|done]. cbn [deref mret].
  destruct (v <? vj); [intros [= _ <-]; by exists []|]. unfold mbind_.
  destruct (handle_due j vj s) as [s1 [[]|?|]]; [|done..]. intros [pre ->]%IH. by exists (j :: pre).
Qed.

Lemma jobs_free_jobs {A} (c : M A) `{!JobsFree c} s : jobs (fst (c s)) = jobs s.
Proof.
  pose proof (jobs_free (c := c) (jobs s) s) as H.
  replace (set_jobs (jobs s) s) with s in H by by destruct s. by rewrite H.
Qed.

Lemma queue_sorted_app js j v0 v lst : last js = Some lst -> job_version lst = Some v0 -> job_version j = Some v -> v0 < v ->
  queue_sorted js -> queue_sorted (js ++ [j]).
Proof.
  unfold queue_sorted. intros Hl H0 Hj Hlt Hs. apply last_Some in Hl as [l' ->].
  rewrite !omap_app in *. cbn [omap list_omap] in *. rewrite H0, Hj in *. cbn [app] in *.
  assert (Hall : Forall (fun x => x <= v0) (omap job_version l' ++ [v0])).
  { apply Forall_app. split; [|by repeat constructor].
    apply StronglySorted_app in Hs as (Hx & _ & _). apply list.Forall_forall. intros x Hin.
    specialize (Hx x v0 Hin (list_elem_of_here _ _)). lia. }
  apply StronglySorted_app. split_and!; [|done|by repeat constructor].
  intros x1 x2 Hx1 Hx2. apply list_elem_of_singleton in Hx2 as ->. rewrite list.Forall_forall in Hall.
  specialize (Hall x1 Hx1). simpl in Hall. lia.
Qed.

Lemma queue_sorted_suffix pre r : queue_sorted (pre ++ r) -> queue_sorted r.
Proof. unfold queue_sorted. rewrite omap_app. by intros (_ & _ & ?)%StronglySorted_app. Qed.

Lemma schema_op_wf op s : schema_wf s -> schema_wf (schema_op op s).
Proof.
  intros Hw. destruct op as [j|v|v]; cbn [schema_op].
  - unfold addJob, mbind_, mread. destruct (last (jobs s)) as [l|]; [|by apply (wf_at_same _ s)].
    destruct (job_version l), (job_version j); cbn [deref mret mpanic fst]; try done.
    destruct (_ <? _); [by apply (wf_at_same _ s)|done].
  - rewrite handlePrevious_unfold. pose proof (handle_previous_wf (jobs s) v s Hw) as H.
    destruct (handle_previous _ _ _) as [s' [r|e|]]; [by apply (wf_at_same _ s')|done..].
  - unfold getSchemaTableAndDelete, mbind_, mread. destruct (version2SchemaTable s !! v); [|done].
    by apply (wf_at_same _ s).
Qed.

Lemma schema_op_queue op s : queue_sorted (jobs s) -> queue_sorted (jobs (schema_op op s)).
Proof.
  intros Hq. destruct op as [j|v|v]; cbn [schema_op].
  - unfold addJob, mbind_, mread. destruct (last (jobs s)) as [l|] eqn:Hl.
    + destruct (job_version l) as [v0|] eqn:H0, (job_version j) as [v|] eqn:Hj; cbn [deref mret mpanic fst]; try done.
      destruct (Z.ltb_spec v0 v); [|done]. by apply (queue_sorted_app _ _ v0 v l).
    + unfold queue_sorted. simpl. destruct (job_version j); by repeat constructor.
  - rewrite handlePrevious_unfold. pose proof (jobs_free_jobs (handle_previous (jobs s) v) s) as Hj.
    destruct (handle_previous _ _ _) as [s' [r|e|]] eqn:E; cbn [fst] in *; [|by rewrite Hj..].
    cbn [jobs set_jobs]. apply handle_previous_suffix in E as [pre E]. rewrite E in Hq. by eapply queue_sorted_suffix.
  - unfold getSchemaTableAndDelete, mbind_, mread. by destruct (version2SchemaTable s !! v).
Qed.

(** C35: whatever jobs drainer is given, in whatever order its operations are called
    and whether they fail or not, the tables with a name are the tables with a
    definition, every table has one or two versions, all of that table, in growing
    order and none later than the current version, and every schema is kept under
    its own id; the queue stays ordered by version when the history it starts
    with is. *)
Theorem schema_invariant js implicit ops :
  let s := schema_ops ops (NewSchema js implicit) in
  schema_wf s /\ (queue_sorted js -> queue_sorted (jobs s)).
Proof.
  cbn zeta. induction ops as [|op ops IH] using rev_ind.
  - split; [|done]. split; simpl; [|done|done]. intros id. by rewrite !lookup_empty, !is_Some_alt.
  - unfold schema_ops in *. rewrite foldl_app. cbn [foldl flip]. destruct IH as [IH1 IH2].
    split; [by apply schema_op_wf|]. intros Hq. by apply schema_op_queue, IH2.
Qed.

(** ** The names of the DDL at hand *)

Section Names.
Variables (v : Z) (j : Job) (info : HistoryInfo).
Hypothesis Hinfo : job_BinlogInfo j = Some info.
Hypothesis Hver : hi_SchemaVersion info = v.

Let T (_ : Schema) : Prop := True.

(** The version of the job is current and recorded with these names. *)
Definition Named (r : string * string) (s : Schema) : Prop :=
  version2SchemaTable s !! v = Some (mkTableName (fst r) (snd r)) /\ currentVersion s = v.

Lemma triple_True {A} (c : M A) (Q : A -> Schema -> Prop) : (forall a s, Q a s) -> triple T c Q T.
Proof. intros H s _. by destruct (c s) as [s' [?|?|]]. Qed.

(** The end of every branch. *)
Lemma set_version_named r : triple T (mbind_ (mmodify (set_version v (mkTableName (fst r) (snd r)))) (fun _ => mret r)) Named T.
Proof. intros s _. simpl. split; [|done]. simpl. apply lookup_insert_eq. Qed.

Ltac n_step := eapply triple_bind; [by apply (triple_True _ (fun _ => T))|intros ?].
Ltac n_info := rewrite Hinfo; apply triple_bind with (fun i s => Some info = Some i /\ T s);
  [by apply triple_deref|intros i; apply triple_pre; intros [= <-]; rewrite ?Hver].

Lemma create_in_schema_named t : triple T (create_in_schema j info t) Named T.
Proof. unfold create_in_schema. rewrite Hver. do 3 n_step. by apply (set_version_named (_, _)). Qed.

Lemma handle_other_named : triple T (handle_other j) Named T.
Proof.
  unfold handle_other. rewrite Hinfo. apply triple_bind with (fun i s => Some info = Some i /\ T s);
    [by apply triple_require|intros i; apply triple_pre; intros [= <-]; rewrite Hver].
  do 4 n_step. intros s _. unfold mbind_, mmodify, mret. simpl.
  case_bool_decide; split; simpl; (apply lookup_insert_eq || done).
Qed.

Lemma handleDDL_named : skipJob j = false ->
  triple T (handleDDL j) (fun r s => Named (fst r) s /\ snd r = job_Query j) T.
Proof.
  intros Hs. unfold handleDDL. rewrite Hs. case_bool_decide; [by apply triple_err|].
  apply triple_bind with Named; [|intros [sn tn]; by apply triple_ret].
  pose proof handle_other_named. pose proof create_in_schema_named.
  destruct (job_Type j); try done.
  - n_info. unfold handle_create_schema. rewrite Hver. do 2 n_step. by apply (set_version_named (_, _)).
  - n_info. unfold handle_modify_schema. rewrite Hver. do 4 n_step. by apply (set_version_named (_, _)).
  - unfold handle_drop_schema. n_step. n_info. by apply (set_version_named (_, _)).
  - unfold handle_create_table. n_info. do 3 n_step. done.
  - unfold handle_create_table. n_info. do 3 n_step. done.
  - unfold handle_create_table. n_info. do 3 n_step. done.
  - unfold handle_create_table. n_info. do 3 n_step. done.
  - unfold handle_drop_table. do 3 n_step. n_info. by apply (set_version_named (_, _)).
  - unfold handle_drop_table. do 3 n_step. n_info. by apply (set_version_named (_, _)).
  - unfold handle_drop_table. do 3 n_step. n_info. by apply (set_version_named (_, _)).
  - unfold handle_rename_table. do 3 n_step. n_info. do 3 n_step. done.
  - unfold handle_truncate_table. do 3 n_step. n_info. n_step.
    eapply triple_bind; [done|intros r]. apply triple_seq with (Named r); [|by apply triple_ret].
    by apply triple_modify.
Qed.
End Names.

(** A version older than [v]. *)
Definition older (v : Z) (j : Job) : Prop := exists v', job_version j = Some v' /\ v' < v.

Lemma handle_previous_older js j v s : Forall (older v) js ->
  handle_previous (js ++ [j]) v s = mbind_ (handle_previous js v) (fun _ => handle_previous [j] v) s.
Proof.
  intros Hf. revert s. induction Hf as [|x js (vx & Hx & Hlt) Hf IH]; intros s; [done|]. cbn [handle_previous app].
  rewrite Hx. cbn [deref].
  change ((if v <? vx then mret (x :: js ++ [j]) else mbind_ (handle_due x vx) (fun _ => handle_previous (js ++ [j]) v)) s =
    mbind_ (if v <? vx then mret (x :: js) else mbind_ (handle_due x vx) (fun _ => handle_previous js v))
      (fun _ => handle_previous [j] v) s).
  destruct (Z.ltb_spec v vx); [lia|].
  unfold mbind_ at 1 2 3. destruct (handle_due x vx s) as [s' [[]|e|]]; [|done..]. by rewrite IH.
Qed.

Lemma handle_due_version j v s s' : job_version j = Some v -> handle_due j v s = (s', Ret tt) ->
  currentVersion s' = currentVersion s \/ currentVersion s' = v.
Proof.
  intros Hj. unfold handle_due, mbind_ at 1, mread.
  destruct (v <=? currentVersion s); [intros [= <-]; by left|].
  destruct (is_delete_only_drop j); [intros [= <-]; by left|].
  destruct (skipUnsupportedDDLJob j); [intros [= <-]; by left|].
  unfold job_version in Hj. destruct (job_BinlogInfo j) as [info|] eqn:Hi; [|done]. injection Hj as Hver.
  unfold mbind_. destruct (skipJob j) eqn:Hs.
  - unfold handleDDL. rewrite Hs. intros [= <-]. by left.
  - pose proof (handleDDL_named v j info Hi Hver Hs s I) as Ht.
    destruct (handleDDL j s) as [s1 [r|?|]]; [|done..]. intros [= <-]. right. apply Ht.
Qed.

Lemma handle_previous_version js v s s' r : Forall (older v) js -> currentVersion s < v ->
  handle_previous js v s = (s', Ret r) -> currentVersion s' < v /\ r = [].
Proof.
  intros Hf. revert s. induction Hf as [|x js (vx & Hx & Hlt) Hf IH]; intros s Hc; cbn [handle_previous].
  { by intros [= <- <-]. }
  unfold mbind_ at 1. rewrite Hx. cbn [deref mret]. destruct (Z.ltb_spec v vx); [lia|].
  unfold mbind_. destruct (handle_due x vx s) as [s1 [[]|?|]] eqn:E; [|done..].
  apply IH. destruct (handle_due_version x vx s s1 Hx E); lia.
Qed.

Lemma addJob_older j v s : job_version j = Some v -> Forall (older v) (jobs s) ->
  addJob j s = (set_jobs (jobs s ++ [j]) s, Ret tt).
Proof.
  intros Hj Hf. unfold addJob, mbind_, mread. destruct (last (jobs s)) as [l|] eqn:Hl.
  - apply last_Some in Hl as [l' Hl]. rewrite Hl in *. apply Forall_app in Hf as [_ [(vl' & Hvl & Hlt) _]%Forall_cons_iff].
    rewrite Hvl, Hj. cbn [deref mret].
    destruct (Z.ltb_spec vl' v); [done|lia].
  - apply last_None in Hl. by rewrite Hl.
Qed.

(** On the path of a DDL binlog, a job newer than the schema and than every
    queued job is queued, the jobs before it and it are applied, the queue is left
    empty, the schema is at the version of the job, and the names looked up for
    the statement are those that applying the job gave. *)
Theorem ddl_names j v s s' :
  job_version j = Some v -> skipJob j = false -> skipUnsupportedDDLJob j = false -> is_delete_only_drop j = false ->
  currentVersion s < v -> Forall (older v) (jobs s) ->
  mbind_ (addJob j) (fun _ => handlePreviousDDLJobIfNeed v) s = (s', Ret tt) ->
  jobs s' = [] /\ currentVersion s' = v /\
  exists sn tn s1 s2, handleDDL j s1 = (s2, Ret (sn, tn, job_Query j)) /\
    getSchemaTableAndDelete v s' = (set_version2 (delete v (version2SchemaTable s')) s', Ret (sn, tn)).
Proof.
  intros Hj Hskip Hun Hdel Hc Hf. unfold mbind_ at 1. rewrite (addJob_older j v s Hj Hf), handlePrevious_unfold.
  cbn [jobs set_jobs]. rewrite (handle_previous_older _ _ _ _ Hf). unfold mbind_.
  destruct (handle_previous (jobs s) v _) as [s1 [r|?|]] eqn:E; [|done..].
  apply handle_previous_version in E as [Hc1 _]; [|done|done].
  cbn [handle_previous]. unfold mbind_ at 1. rewrite Hj. cbn [deref mret]. rewrite Z.ltb_irrefl.
  unfold handle_due, mbind_, mread. destruct (Z.leb_spec v (currentVersion s1)); [lia|]. rewrite Hdel, Hun.
  pose proof Hj as Hj'. unfold job_version in Hj'. destruct (job_BinlogInfo j) as [info|] eqn:Hi; [|done]. injection Hj' as Hver.
  pose proof (handleDDL_named v j info Hi Hver Hskip s1 I) as Ht.
  destruct (handleDDL j s1) as [s2 [[[sn tn] q]|?|]] eqn:Ed; [|done..]. destruct Ht as [[Hn Hcv] Hq].
  cbn [fst snd mmodify mret] in *. subst q. intros [= <-]. split_and!; [done|done|].
  exists sn, tn, s1, s2. split; [done|]. unfold getSchemaTableAndDelete, mbind_, mread. simpl. by rewrite Hn.
Qed.
