(* ===== verification/SchemaCatalog.v ===== *)
(** * SchemaCatalog
    The catalog that the schema history of drainer implements: schemas by id with
    their names, tables by id with their schema and their latest definition. Every
    DDL job that [handleDDL] applies changes the maps of [Schema] as it changes the
    catalog. *)
From stdpp Require Import base option list gmap strings sorting.
From S2P Require Import Prelude Schema SchemaProofs.

(** ** The abstract catalog *)

Record Catalog := mkCatalog {
  cat_dbs : gmap Z string;
  cat_tables : gmap Z (Z * TableInfo);
}.

Definition no_catalog : Catalog := mkCatalog ∅ ∅.

Definition cat_create_db (id : Z) (name : string) (c : Catalog) : Catalog :=
  mkCatalog (<[id := name]> (cat_dbs c)) (cat_tables c).
Definition cat_drop_db (id : Z) (c : Catalog) : Catalog :=
  mkCatalog (delete id (cat_dbs c)) (filter (fun kv => fst (snd kv) <> id) (cat_tables c)).
Definition cat_drop_table (id : Z) (c : Catalog) : Catalog :=
  mkCatalog (cat_dbs c) (delete id (cat_tables c)).
Definition cat_create_table (sid : Z) (t : TableInfo) (c : Catalog) : Catalog :=
  mkCatalog (cat_dbs c) (<[tb_ID t := (sid, t)]> (cat_tables c)).
Definition cat_alter_table (t : TableInfo) (c : Catalog) : Catalog :=
  mkCatalog (cat_dbs c) (alter (fun st => (fst st, t)) (tb_ID t) (cat_tables c)).

(** The table of a job as the catalog holds it. *)
Definition stored_table (implicit : bool) (t : TableInfo) : TableInfo :=
  if implicit && negb (tb_PKIsHandle t) then addImplicitColumn t else t.

(** What a job means. *)
Definition cat_job (implicit : bool) (j : Job) (info : HistoryInfo) (c : Catalog) : Catalog :=
  match job_Type j, hi_DBInfo info, hi_TableInfo info with
  | ActionCreateSchema, Some db, _ => cat_create_db (db_ID db) (db_Name db) c
  | ActionModifySchemaCharsetAndCollate, _, _ => c
  | ActionDropSchema, _, _ => cat_drop_db (job_SchemaID j) c
  | (ActionCreateTable | ActionCreateView | ActionCreateSequence | ActionRecoverTable), _, Some t =>
      cat_create_table (job_SchemaID j) (stored_table implicit t) c
  | (ActionDropTable | ActionDropView | ActionDropSequence), _, _ => cat_drop_table (job_TableID j) c
  | (ActionRenameTable | ActionTruncateTable), _, Some t =>
      cat_create_table (job_SchemaID j) (stored_table implicit t) (cat_drop_table (job_TableID j) c)
  | _, _, Some t => cat_alter_table (stored_table implicit t) c
  | _, _, None => c
  end.

(** What TiDB promises of a job: a schema is created without tables under a name not
    in use, a job that changes a table in place does not rename it, and the job that
    changes the character set of a schema (whose definition of the schema carries no
    tables) concerns a schema without tables. *)
Definition job_sane (j : Job) (info : HistoryInfo) (c : Catalog) : Prop :=
  match job_Type j, hi_DBInfo info, hi_TableInfo info with
  | ActionCreateSchema, Some db, _ =>
      db_Tables db = [] /\ forall id, cat_dbs c !! id <> Some (db_Name db)
  | ActionModifySchemaCharsetAndCollate, Some db, _ =>
      db_Tables db = [] /\ cat_dbs c !! db_ID db = Some (db_Name db) /\
      forall id st, cat_tables c !! id = Some st -> fst st <> db_ID db
  | (ActionCreateSchema | ActionModifySchemaCharsetAndCollate | ActionDropSchema | ActionCreateTable | ActionCreateView
      | ActionCreateSequence | ActionRecoverTable | ActionDropTable | ActionDropView | ActionDropSequence
      | ActionRenameTable | ActionTruncateTable), _, _ => True
  | _, _, Some t => forall st, cat_tables c !! tb_ID t = Some st -> tb_Name (snd st) = tb_Name t
  | _, _, None => True
  end.

(** ** The representation *)

Definition table_name (c : Catalog) (st : Z * TableInfo) : option TableName :=
  (fun n => mkTableName n (tb_Name (snd st))) <$> cat_dbs c !! fst st.

Record Rep (c : Catalog) (s : Schema) : Prop := {
  rep_dbs : forall id, db_Name <$> schemas s !! id = cat_dbs c !! id;
  rep_dbid : forall id db, schemas s !! id = Some db -> db_ID db = id;
  rep_ids : forall n id, schemaNameToID s !! n = Some id <-> cat_dbs c !! id = Some n;
  rep_home : forall id st, cat_tables c !! id = Some st -> is_Some (cat_dbs c !! fst st);
  rep_names : forall id, tableIDToName s !! id = cat_tables c !! id ≫= table_name c;
  rep_tables : forall id, TableByID id s = snd <$> cat_tables c !! id;
  rep_nonempty : forall id l, tables s !! id = Some l -> l <> [];
  rep_member : forall sid db id, schemas s !! sid = Some db ->
    id ∈ (tb_ID <$> db_Tables db) <-> exists t, cat_tables c !! id = Some (sid, t);
  rep_nodup : forall sid db, schemas s !! sid = Some db -> NoDup (tb_ID <$> db_Tables db);
}.

Lemma Rep_init js implicit : Rep no_catalog (NewSchema js implicit).
Proof. by split. Qed.

Definition any (_ : Schema) : Prop := True.

(** [Rep] looks at four maps only. *)
Lemma Rep_same c s s' : tables s' = tables s -> tableIDToName s' = tableIDToName s -> schemas s' = schemas s ->
  schemaNameToID s' = schemaNameToID s -> Rep c s -> Rep c s'.
Proof.
  intros H1 H2 H3 H4 [R1 R2 R3 R4 R5 R6 R7 R8 R9].
  split; unfold TableByID in *; rewrite ?H1, ?H2, ?H3, ?H4; done.
Qed.

Lemma remove_first_ids id l : NoDup (tb_ID <$> l) ->
  NoDup (tb_ID <$> remove_first id l) /\
  forall x, x ∈ (tb_ID <$> remove_first id l) <-> x <> id /\ x ∈ (tb_ID <$> l).
Proof.
  induction l as [|t l IH]; cbn [remove_first]; intros Hn.
  { split; [done|]. intros x. rewrite fmap_nil, elem_of_nil. tauto. }
  rewrite fmap_cons in Hn. apply list.NoDup_cons in Hn as [Hni Hn]. specialize (IH Hn) as [IH1 IH2].
  destruct (Z.eqb_spec (tb_ID t) id) as [<-|Hne].
  - split; [done|]. intros x. rewrite fmap_cons, elem_of_cons. naive_solver.
  - rewrite !fmap_cons. split.
    + apply list.NoDup_cons. split; [|done]. rewrite IH2. tauto.
    + intros x. rewrite !elem_of_cons, IH2. naive_solver.
Qed.

(** The schema of a table of the catalog. *)
Lemma SchemaByTableID_rep c s id db : Rep c s -> SchemaByTableID id s = Some db ->
  exists sid t, cat_tables c !! id = Some (sid, t) /\ schemas s !! sid = Some db /\ db_ID db = sid.
Proof.
  intros R. unfold SchemaByTableID. rewrite (rep_names _ _ R).
  destruct (cat_tables c !! id) as [[sid t]|] eqn:Ht; [|done]. cbn [mbind option_bind]. unfold table_name. cbn [fst snd].
  destruct (cat_dbs c !! sid) as [n|] eqn:Hn; [|done]. cbn.
  destruct (schemaNameToID s !! n) as [sid'|] eqn:Hid; [|done].
  assert (sid' = sid) as ->. { apply (rep_ids _ _ R) in Hn. congruence. }
  intros Hdb. exists sid, t. split_and!; [done|done|]. by apply (rep_dbid _ _ R).
Qed.

(** After the tables of a schema were changed. *)
Lemma DropTable_rep c id : triple (Rep c) (DropTable id) (fun _ => Rep (cat_drop_table id c)) any.
Proof.
  unfold DropTable. t_read. eapply triple_bind; [by apply triple_require|intros l; apply triple_pre; intros _].
  eapply triple_bind; [by apply triple_deref|intros t; apply triple_pre; intros _].
  intros s R. unfold removeTable, mbind_, mread, require.
  destruct (SchemaByTableID id s) as [db|] eqn:Hdb; [|done]. cbn [mret mmodify].
  destruct (SchemaByTableID_rep _ _ _ _ R Hdb) as (sid & t' & Ht & Hs & Hid).
  destruct (remove_first_ids id (db_Tables db)) as [Hnd Hmem]; [by eapply rep_nodup|].
  pose proof R as [R1 R2 R3 R4 R5 R6 R7 R8 R9].
  unfold update_db. split; simpl; rewrite ?Hid.
  - intros x. rewrite <- R1. destruct (decide (x = sid)) as [->|]; [by rewrite lookup_insert_eq, Hs|].
    by rewrite lookup_insert_ne.
  - intros x d [[<- <-]|[_ ?]]%lookup_insert_Some; [done|by apply R2].
  - done.
  - intros x st [_ ?]%lookup_delete_Some. by eapply R4.
  - intros x. destruct (decide (x = id)) as [->|]; [by rewrite !lookup_delete_eq|].
    rewrite !lookup_delete_ne by done. apply R5.
  - intros x. unfold TableByID in *. simpl. destruct (decide (x = id)) as [->|]; [by rewrite !lookup_delete_eq|].
    rewrite !lookup_delete_ne by done. apply R6.
  - intros x l' [_ ?]%lookup_delete_Some. by eapply R7.
  - intros x d y [[<- <-]|[Hne Hd]]%lookup_insert_Some.
    + simpl. rewrite Hmem, (R8 sid db y Hs). setoid_rewrite lookup_delete_Some. naive_solver.
    + rewrite (R8 x d y Hd). setoid_rewrite lookup_delete_Some. split; [|naive_solver].
      intros [ty Hy]. exists ty. split; [|done]. intros <-. congruence.
  - intros x d [[<- <-]|[_ ?]]%lookup_insert_Some; [done|by eapply R9].
Qed.

Lemma last_kept (l : list schemaVersionTableInfo) x :
  let l' := l ++ [x] in last (if (2 <? length l')%nat then drop (length l' - 2) l' else l') = Some x.
Proof.
  cbn zeta. destruct (Nat.ltb_spec 2 (length (l ++ [x]))) as [H|_]; [|by rewrite last_snoc].
  rewrite length_app in *. simpl in *. rewrite drop_app_le by lia. by rewrite last_snoc.
Qed.

Lemma kept_nonempty (l : list schemaVersionTableInfo) x :
  let l' := l ++ [x] in (if (2 <? length l')%nat then drop (length l' - 2) l' else l') <> [].
Proof. cbn zeta. intros H. pose proof (last_kept l x) as E. cbn zeta in E. by rewrite H in E. Qed.

Lemma stored_table_ID b t : tb_ID (stored_table b t) = tb_ID t.
Proof. unfold stored_table. by destruct (b && _). Qed.
Lemma stored_table_Name b t : tb_Name (stored_table b t) = tb_Name t.
Proof. unfold stored_table. by destruct (b && _). Qed.

(** With the flag of the schema fixed. *)
Definition RepI (b : bool) (c : Catalog) (s : Schema) : Prop := Rep c s /\ hasImplicitCol s = b.

Lemma CreateTable_rep b c v sid t :
  triple (RepI b c) (CreateTable v sid t) (fun _ => RepI b (cat_create_table sid (stored_table b t) c)) any.
Proof.
  intros s [R Hb]. unfold CreateTable, mbind_, mread. destruct (tables s !! tb_ID t) as [l|] eqn:Hl; [done|].
  unfold SchemaByID, deref. destruct (schemas s !! sid) as [db|] eqn:Hs; [|done]. cbn [mret mmodify]. split; [|done].
  change (with_implicit s t) with (stored_table (hasImplicitCol s) t). rewrite Hb.
  set (t' := stored_table b t). assert (Hid : tb_ID t' = tb_ID t) by apply stored_table_ID.
  pose proof R as [R1 R2 R3 R4 R5 R6 R7 R8 R9]. pose proof (R2 _ _ Hs) as Hdid.
  assert (Hnone : cat_tables c !! tb_ID t' = None).
  { rewrite Hid. specialize (R6 (tb_ID t)). unfold TableByID in R6. rewrite Hl in R6. by destruct (cat_tables c !! tb_ID t). }
  assert (Hn : cat_dbs c !! sid = Some (db_Name db)) by by rewrite <- R1, Hs.
  unfold update_db, appendTableInfo. split; simpl; rewrite ?Hdid.
  - intros x. rewrite <- R1. destruct (decide (x = sid)) as [->|]; [by rewrite lookup_insert_eq, Hs|].
    by rewrite lookup_insert_ne.
  - intros x d [[<- <-]|[_ ?]]%lookup_insert_Some; [done|by apply R2].
  - done.
  - intros x st [[<- <-]|[_ ?]]%lookup_insert_Some; [by eexists|by eapply R4].
  - intros x. destruct (decide (x = tb_ID t')) as [->|].
    + rewrite !lookup_insert_eq. cbn. unfold table_name. cbn [fst snd cat_dbs cat_create_table]. by rewrite Hn.
    + rewrite !lookup_insert_ne by done. apply R5.
  - intros x. unfold TableByID in *. simpl. destruct (decide (x = tb_ID t')) as [->|].
    + rewrite !lookup_insert_eq. cbn [default from_option id]. by rewrite last_kept.
    + rewrite !lookup_insert_ne by done. apply R6.
  - intros x l' [[<- <-]|[_ ?]]%lookup_insert_Some; [apply kept_nonempty|by eapply R7].
  - intros x d y [[<- <-]|[Hne Hd]]%lookup_insert_Some.
    + cbn [db_Tables set_db_tables]. rewrite fmap_app, elem_of_app, (R8 sid db y Hs), list_fmap_singleton, list_elem_of_singleton.
      setoid_rewrite lookup_insert_Some. destruct (decide (y = tb_ID t')); naive_solver.
    + rewrite (R8 x d y Hd). setoid_rewrite lookup_insert_Some. naive_solver.
  - intros x d [[<- <-]|[_ ?]]%lookup_insert_Some; [|by eapply R9]. simpl. rewrite fmap_app. apply list.NoDup_app.
    split_and!; [by eapply R9| |apply list.NoDup_singleton].
    intros y Hy ->%list_elem_of_singleton. apply (R8 sid db _ Hs) in Hy as [ty Hy]. congruence.
Qed.

Lemma ReplaceTable_rep b c v t : (forall st, cat_tables c !! tb_ID t = Some st -> tb_Name (snd st) = tb_Name t) ->
  triple (RepI b c) (ReplaceTable v t) (fun _ => RepI b (cat_alter_table (stored_table b t) c)) any.
Proof.
  intros Hsame s [R Hb]. unfold ReplaceTable, mbind_, mread. destruct (tables s !! tb_ID t) as [l|] eqn:Hl; [|done].
  cbn [mmodify]. split; [|done].
  change (with_implicit s t) with (stored_table (hasImplicitCol s) t). rewrite Hb.
  set (t' := stored_table b t). assert (Hid : tb_ID t' = tb_ID t) by apply stored_table_ID.
  assert (Hnm : tb_Name t' = tb_Name t) by apply stored_table_Name.
  pose proof R as [R1 R2 R3 R4 R5 R6 R7 R8 R9].
  assert (Hin : exists st, cat_tables c !! tb_ID t' = Some st).
  { rewrite Hid. specialize (R6 (tb_ID t)). unfold TableByID in R6. rewrite Hl in R6. cbn in R6.
    destruct (cat_tables c !! tb_ID t) as [st|]; [by eexists|].
    destruct (last l) eqn:E; [done|]. apply last_None in E. by apply R7 in Hl. }
  destruct Hin as [st Hst]. specialize (Hsame st). rewrite <- Hid in Hsame. specialize (Hsame Hst).
  unfold appendTableInfo. split; simpl; [done|done|done| | | | | |done].
  - intros x st'. destruct (decide (x = tb_ID t')) as [->|]; [|rewrite lookup_alter_ne by done; apply R4].
    rewrite lookup_alter_eq, Hst. intros [= <-]. exact (R4 _ _ Hst).
  - intros x. rewrite R5. destruct (decide (x = tb_ID t')) as [->|].
    + rewrite lookup_alter_eq, Hst. cbn. unfold table_name. cbn [fst snd]. by rewrite Hsame, Hnm.
    + by rewrite lookup_alter_ne.
  - intros x. unfold TableByID in *. simpl. destruct (decide (x = tb_ID t')) as [->|].
    + rewrite lookup_insert_eq, lookup_alter_eq, Hst. cbn [default from_option id]. by rewrite last_kept.
    + rewrite lookup_insert_ne, lookup_alter_ne by done. apply R6.
  - intros x l' [[<- <-]|[_ ?]]%lookup_insert_Some; [apply kept_nonempty|by eapply R7].
  - intros sid db y Hdb. rewrite (R8 sid db y Hdb). destruct (decide (y = tb_ID t')) as [->|].
    + rewrite lookup_alter_eq, Hst. destruct st. cbn. naive_solver.
    + by rewrite lookup_alter_ne.
Qed.

(** A schema that has no tables is put under its id. *)
Lemma insert_db_rep c s db : Rep c s -> db_Tables db = [] ->
  (forall id, cat_dbs c !! id = Some (db_Name db) -> id = db_ID db) ->
  (cat_dbs c !! db_ID db = None \/ cat_dbs c !! db_ID db = Some (db_Name db)) ->
  (forall id st, cat_tables c !! id = Some st -> fst st <> db_ID db) ->
  Rep (cat_create_db (db_ID db) (db_Name db) c)
    (set_schemas (<[db_Name db := db_ID db]> (schemaNameToID s)) (<[db_ID db := db]> (schemas s)) s).
Proof.
  intros [R1 R2 R3 R4 R5 R6 R7 R8 R9] Hemp Huniq Hold Hout. split; simpl.
  - intros x. destruct (decide (x = db_ID db)) as [->|]; [by rewrite !lookup_insert_eq|].
    by rewrite !lookup_insert_ne.
  - intros x d [[<- <-]|[_ ?]]%lookup_insert_Some; [done|by apply R2].
  - intros n x. rewrite !lookup_insert_Some, R3. split; intros [[H1 H2]|[H1 H2]]; [by left| |by left|].
    + right. split; [|done]. intros <-. destruct Hold; congruence.
    + right. split; [|done]. intros <-. by apply H1, eq_sym, Huniq.
  - intros x st Hst. rewrite lookup_insert_ne by by (intros E; eapply Hout). by eapply R4.
  - intros x. rewrite R5. destruct (cat_tables c !! x) as [st|] eqn:Hst; [|done]. cbn. unfold table_name. cbn.
    by rewrite lookup_insert_ne by by (intros E; eapply Hout).
  - done.
  - done.
  - intros x d y [[<- <-]|[Hne Hd]]%lookup_insert_Some; [|by apply R8].
    rewrite Hemp. split; [by intros ?%elem_of_nil|]. intros [t Ht]. by eapply Hout in Ht.
  - intros x d [[<- <-]|[_ ?]]%lookup_insert_Some; [rewrite Hemp; apply base.NoDup_nil_2|by eapply R9].
Qed.

Lemma CreateSchema_rep b c db : db_Tables db = [] -> (forall id, cat_dbs c !! id <> Some (db_Name db)) ->
  triple (RepI b c) (CreateSchema db) (fun _ => RepI b (cat_create_db (db_ID db) (db_Name db) c)) any.
Proof.
  intros Hemp Hfresh s [R Hb]. unfold CreateSchema, mbind_, mread, SchemaByID.
  destruct (schemas s !! db_ID db) as [d|] eqn:Hd; [done|]. cbn [mmodify]. split; [|done].
  assert (Hnone : cat_dbs c !! db_ID db = None) by by rewrite <- (rep_dbs _ _ R), Hd.
  apply insert_db_rep; [done|done| |by left|].
  - intros id Hid. by apply Hfresh in Hid.
  - intros id st Hst E. destruct (rep_home _ _ R _ _ Hst) as [n Hn]. congruence.
Qed.

Lemma DropSchema_rep b c id : triple (RepI b c) (DropSchema id) (fun _ => RepI b (cat_drop_db id c)) any.
Proof.
  intros s [R Hb]. unfold DropSchema, mbind_, mread, require, SchemaByID.
  destruct (schemas s !! id) as [db|] eqn:Hdb; [|done]. cbn [mret mmodify]. split; [|done].
  pose proof R as [R1 R2 R3 R4 R5 R6 R7 R8 R9].
  assert (Hn : cat_dbs c !! id = Some (db_Name db)) by by rewrite <- R1, Hdb.
  assert (Hnot : forall x, x ∉ (tb_ID <$> db_Tables db) -> filter (fun kv => fst (snd kv) <> id) (cat_tables c) !! x = cat_tables c !! x).
  { intros x Hx. destruct (cat_tables c !! x) as [st|] eqn:Hst.
    - apply map_lookup_filter_Some. split; [done|]. simpl. intros E. apply Hx, (R8 id db x Hdb). exists (snd st).
      rewrite Hst. by destruct st; simpl in *; subst.
    - apply map_lookup_filter_None. by left. }
  assert (Hyes : forall x, x ∈ (tb_ID <$> db_Tables db) -> filter (fun kv => fst (snd kv) <> id) (cat_tables c) !! x = None).
  { intros x Hx. apply map_lookup_filter_None. right. apply (R8 id db x Hdb) in Hx as [t Ht].
    intros st Hst. simpl. intros Hne. rewrite Ht in Hst. by injection Hst as <-. }
  split; simpl.
  - intros x. destruct (decide (x = id)) as [->|]; [by rewrite !lookup_delete_eq|]. by rewrite !lookup_delete_ne.
  - intros x d [_ ?]%lookup_delete_Some. by apply R2.
  - intros n x. rewrite !lookup_delete_Some, R3. split.
    + intros [Hne Hx]. split; [|done]. intros <-. congruence.
    + intros [Hne Hx]. split; [|done]. intros <-. apply R3 in Hx, Hn. congruence.
  - intros x st [Hst Hne]%map_lookup_filter_Some. simpl in Hne. rewrite lookup_delete_ne by done. by eapply R4.
  - intros x. rewrite foldl_delete_lookup. destruct (decide (x ∈ _)) as [Hx|Hx]; [by rewrite Hyes|].
    rewrite Hnot, R5 by done. destruct (cat_tables c !! x) as [st|] eqn:Hst; [|done]. cbn. unfold table_name. cbn.
    rewrite lookup_delete_ne; [done|]. intros E. apply Hx, (R8 id db x Hdb). exists (snd st).
    rewrite Hst. by destruct st; simpl in *; subst.
  - intros x. unfold TableByID in *. simpl. rewrite foldl_delete_lookup.
    destruct (decide (x ∈ _)) as [Hx|Hx]; [by rewrite Hyes|]. by rewrite Hnot.
  - intros x l. rewrite foldl_delete_lookup. destruct (decide (x ∈ _)); [done|]. apply R7.
  - intros x d y [Hne Hd]%lookup_delete_Some. rewrite (R8 x d y Hd). setoid_rewrite map_lookup_filter_Some. simpl.
    naive_solver.
  - intros x d [_ ?]%lookup_delete_Some. by eapply R9.
Qed.

(** ** A job that the catalog allows is applied *)

Definition never (_ : Schema) : Prop := False.

(** An operation that keeps its promise when it succeeds, and succeeds. *)
Lemma triple_total {A} P (c : M A) Q : triple P c Q any -> triple P c (fun _ => any) never -> triple P c Q never.
Proof. intros H1 H2 s Hs. specialize (H1 s Hs). specialize (H2 s Hs). by destruct (c s) as [s' [?|?|]]. Qed.

(** A pointer that is not nil. *)
Lemma triple_deref_Some {A B} P (a : A) (k : A -> M B) Q E : triple P (k a) Q E -> triple P (mbind_ (deref (Some a)) k) Q E.
Proof. done. Qed.
Lemma triple_require_Some {A B} P msg (a : A) (k : A -> M B) Q E :
  triple P (k a) Q E -> triple P (mbind_ (require msg (Some a)) k) Q E.
Proof. done. Qed.
Ltac t_known := first [apply triple_deref_Some|apply triple_require_Some].

Section Total.
Variables (b : bool).
Implicit Types (c : Catalog).

Lemma RepI_same c s s' : tables s' = tables s -> tableIDToName s' = tableIDToName s -> schemas s' = schemas s ->
  schemaNameToID s' = schemaNameToID s -> hasImplicitCol s' = hasImplicitCol s -> RepI b c s -> RepI b c s'.
Proof. intros H1 H2 H3 H4 H5 [R Hb]. split; [by apply (Rep_same c s)|congruence]. Qed.

Lemma rep_schema c s id n : Rep c s -> cat_dbs c !! id = Some n -> exists db, schemas s !! id = Some db /\ db_Name db = n.
Proof.
  intros R Hn. rewrite <- (rep_dbs _ _ R) in Hn. destruct (schemas s !! id) as [db|]; [|done]. exists db. by injection Hn.
Qed.

Lemma rep_table c s id : Rep c s -> is_Some (cat_tables c !! id) -> exists l t, tables s !! id = Some l /\ last l = Some t.
Proof.
  intros R [st Hst]. pose proof (rep_tables _ _ R id) as H. unfold TableByID in H. rewrite Hst in H.
  destruct (tables s !! id) as [l|] eqn:Hl; cbn in H; [|done]. destruct (last l) as [t|] eqn:E; [by exists l, t|done].
Qed.

Lemma rep_no_table c s id : Rep c s -> cat_tables c !! id = None -> tables s !! id = None.
Proof.
  intros R Hn. pose proof (rep_tables _ _ R id) as H. unfold TableByID in H. rewrite Hn in H.
  destruct (tables s !! id) as [l|] eqn:Hl; [|done]. cbn in H. destruct (last l) eqn:E; [done|].
  apply last_None in E. by apply (rep_nonempty _ _ R) in Hl.
Qed.

(** Looking up a schema of the catalog. *)
Lemma find_schema c id : is_Some (cat_dbs c !! id) -> triple (RepI b c) (mread (SchemaByID id))
  (fun r s => (exists db, r = Some db) /\ RepI b c s) never.
Proof.
  intros [n Hn] s [R Hb]. simpl. destruct (rep_schema c s id n R Hn) as (db & Hdb & _).
  split; [by exists db|done].
Qed.

Lemma DropTable_total c id : is_Some (cat_tables c !! id) ->
  triple (RepI b c) (DropTable id) (fun _ => RepI b (cat_drop_table id c)) never.
Proof.
  intros Hin. apply triple_total.
  - intros s [R Hb]. pose proof (DropTable_rep c id s R) as H.
    assert (Hf : hasImplicitCol (fst (DropTable id s)) = hasImplicitCol s).
    { unfold DropTable, removeTable, mbind_, mread, require. destruct (tables s !! id) as [l|]; [|done]. simpl.
      destruct (last l); [|done]. simpl. by destruct (SchemaByTableID id s). }
    destruct (DropTable id s) as [s' [?|?|]]; [|done..]. split; [done|by rewrite <- Hb, <- Hf].
  - intros s [R Hb]. destruct (rep_table c s id R Hin) as (l & t & Hl & Ht).
    unfold DropTable, removeTable, mbind_, mread, require. rewrite Hl. cbn [mret]. rewrite Ht. cbn [fmap option_fmap option_map deref mret].
    destruct Hin as [st Hst]. destruct (rep_home _ _ R id st Hst) as [n Hn].
    destruct (rep_schema c s (fst st) n R Hn) as (db & Hdb & _).
    unfold SchemaByTableID. rewrite (rep_names _ _ R), Hst. cbn. unfold table_name. rewrite Hn. cbn.
    rewrite (proj2 (rep_ids _ _ R n (fst st)) Hn). unfold SchemaByID. by rewrite Hdb.
Qed.

Lemma CreateTable_total c v sid t : is_Some (cat_dbs c !! sid) -> cat_tables c !! tb_ID t = None ->
  triple (RepI b c) (CreateTable v sid t) (fun _ => RepI b (cat_create_table sid (stored_table b t) c)) never.
Proof.
  intros [n Hn] Hno. apply triple_total; [apply CreateTable_rep|]. intros s [R Hb].
  destruct (rep_schema c s sid n R Hn) as (db & Hdb & _).
  unfold CreateTable, mbind_, mread. rewrite (rep_no_table c s _ R Hno). unfold SchemaByID. by rewrite Hdb.
Qed.

Lemma ReplaceTable_total c v t : (forall st, cat_tables c !! tb_ID t = Some st -> tb_Name (snd st) = tb_Name t) ->
  is_Some (cat_tables c !! tb_ID t) ->
  triple (RepI b c) (ReplaceTable v t) (fun _ => RepI b (cat_alter_table (stored_table b t) c)) never.
Proof.
  intros Hsame Hin. apply triple_total; [by apply ReplaceTable_rep|]. intros s [R Hb].
  destruct (rep_table c s _ R Hin) as (l & t' & Hl & _). unfold ReplaceTable, mbind_, mread. by rewrite Hl.
Qed.

Lemma CreateSchema_total c db : db_Tables db = [] -> (forall id, cat_dbs c !! id <> Some (db_Name db)) ->
  cat_dbs c !! db_ID db = None ->
  triple (RepI b c) (CreateSchema db) (fun _ => RepI b (cat_create_db (db_ID db) (db_Name db) c)) never.
Proof.
  intros Hemp Hfresh Hno. apply triple_total; [by apply CreateSchema_rep|]. intros s [R Hb].
  unfold CreateSchema, mbind_, mread, SchemaByID. rewrite <- (rep_dbs _ _ R) in Hno.
  by destruct (schemas s !! db_ID db).
Qed.

Lemma DropSchema_total c id : is_Some (cat_dbs c !! id) ->
  triple (RepI b c) (DropSchema id) (fun _ => RepI b (cat_drop_db id c)) never.
Proof.
  intros [n Hn]. apply triple_total; [apply DropSchema_rep|]. intros s [R Hb].
  destruct (rep_schema c s id n R Hn) as (db & Hdb & _). unfold DropSchema, mbind_, mread, SchemaByID. by rewrite Hdb.
Qed.

(** The names of a version change no map of the catalog. *)
Lemma set_version_rep c v tn : triple (RepI b c) (mmodify (set_version v tn)) (fun _ => RepI b c) never.
Proof. apply triple_modify. intros s Hs. by apply (RepI_same c s). Qed.

Lemma create_in_schema_total c j info t : is_Some (cat_dbs c !! job_SchemaID j) -> cat_tables c !! tb_ID t = None ->
  triple (RepI b c) (create_in_schema j info t) (fun _ => RepI b (cat_create_table (job_SchemaID j) (stored_table b t) c)) never.
Proof.
  intros Hdb Hno. unfold create_in_schema. eapply triple_seq; [by apply CreateTable_total|].
  eapply triple_bind; [by apply find_schema|]. intros r. apply triple_pre. intros [db ->].
  t_known.
  eapply triple_seq; [apply set_version_rep|by apply triple_ret].
Qed.
End Total.

(** What the catalog must hold for a job to be applied. *)
Definition job_enabled (j : Job) (info : HistoryInfo) (c : Catalog) : Prop :=
  match job_Type j, hi_DBInfo info, hi_TableInfo info with
  | ActionCreateSchema, Some db, _ => cat_dbs c !! db_ID db = None
  | ActionCreateSchema, None, _ => False
  | ActionModifySchemaCharsetAndCollate, Some db, _ => is_Some (cat_dbs c !! db_ID db)
  | ActionModifySchemaCharsetAndCollate, None, _ => False
  | ActionDropSchema, _, _ => is_Some (cat_dbs c !! job_SchemaID j)
  | (ActionCreateTable | ActionCreateView | ActionCreateSequence | ActionRecoverTable), _, Some t =>
      is_Some (cat_dbs c !! job_SchemaID j) /\ cat_tables c !! tb_ID t = None
  | (ActionDropTable | ActionDropView | ActionDropSequence), _, _ =>
      is_Some (cat_dbs c !! job_SchemaID j) /\ is_Some (cat_tables c !! job_TableID j)
  | (ActionRenameTable | ActionTruncateTable), _, Some t =>
      is_Some (cat_dbs c !! job_SchemaID j) /\ is_Some (cat_tables c !! job_TableID j) /\
      (tb_ID t = job_TableID j \/ cat_tables c !! tb_ID t = None)
  | _, _, Some t => is_Some (cat_dbs c !! job_SchemaID j) /\ is_Some (cat_tables c !! tb_ID t)
  | _, _, None => False
  end.

Section Jobs.
Variables (b : bool) (c : Catalog) (j : Job) (info : HistoryInfo).
Hypothesis Hinfo : job_BinlogInfo j = Some info.

(** Reading what is there. *)
Ltac c_info := rewrite Hinfo; t_known.
Ltac c_schema := eapply triple_bind; [by apply find_schema|]; intros ?; apply triple_pre; intros [? ->]; t_known.
Ltac c_end := eapply triple_seq; [apply set_version_rep|by apply triple_ret].

Lemma dropped_table t : tb_ID t = job_TableID j \/ cat_tables c !! tb_ID t = None ->
  cat_tables (cat_drop_table (job_TableID j) c) !! tb_ID t = None.
Proof.
  intros [->|Hn]; simpl; [apply lookup_delete_eq|]. apply lookup_delete_None. by right.
Qed.

Lemma handle_drop_table_rep : is_Some (cat_dbs c !! job_SchemaID j) -> is_Some (cat_tables c !! job_TableID j) ->
  triple (RepI b c) (handle_drop_table j) (fun _ => RepI b (cat_drop_table (job_TableID j) c)) never.
Proof.
  intros H1 H2. unfold handle_drop_table. c_schema. eapply triple_bind; [by apply DropTable_total|intros n].
  c_info. c_end.
Qed.

Lemma handle_create_table_rep t : hi_TableInfo info = Some t -> is_Some (cat_dbs c !! job_SchemaID j) -> cat_tables c !! tb_ID t = None ->
  triple (RepI b c) (handle_create_table j) (fun _ => RepI b (cat_create_table (job_SchemaID j) (stored_table b t) c)) never.
Proof.
  intros Ht H1 H2. unfold handle_create_table. c_info. rewrite Ht.
  t_known.
  c_schema. by apply create_in_schema_total.
Qed.

Lemma handle_truncate_table_rep t : hi_TableInfo info = Some t -> is_Some (cat_dbs c !! job_SchemaID j) ->
  is_Some (cat_tables c !! job_TableID j) -> tb_ID t = job_TableID j \/ cat_tables c !! tb_ID t = None ->
  triple (RepI b c) (handle_truncate_table j)
    (fun _ => RepI b (cat_create_table (job_SchemaID j) (stored_table b t) (cat_drop_table (job_TableID j) c))) never.
Proof.
  intros Ht H1 H2 H3. unfold handle_truncate_table. c_schema. eapply triple_bind; [by apply DropTable_total|intros n].
  c_info. rewrite Ht.
  t_known.
  eapply triple_bind; [apply create_in_schema_total; [done|by apply dropped_table]|intros r].
  eapply triple_seq; [|by apply triple_ret]. apply triple_modify. intros s Hs. by apply (RepI_same _ _ s).
Qed.

Lemma handle_rename_table_rep t : hi_TableInfo info = Some t -> is_Some (cat_dbs c !! job_SchemaID j) ->
  is_Some (cat_tables c !! job_TableID j) -> tb_ID t = job_TableID j \/ cat_tables c !! tb_ID t = None ->
  triple (RepI b c) (handle_rename_table j)
    (fun _ => RepI b (cat_create_table (job_SchemaID j) (stored_table b t) (cat_drop_table (job_TableID j) c))) never.
Proof.
  intros Ht H1 H2 H3. unfold handle_rename_table.
  apply triple_bind with (fun r s => (exists db, r = Some db) /\ RepI b c s).
  { intros s [R Hb]. split; [|done]. destruct H2 as [st Hst]. destruct (rep_home _ _ R _ st Hst) as [n Hn].
    destruct (rep_schema c s (fst st) n R Hn) as (db & Hdb & _). exists db.
    unfold SchemaByTableID. rewrite (rep_names _ _ R), Hst. cbn. unfold table_name. rewrite Hn. cbn.
    rewrite (proj2 (rep_ids _ _ R n (fst st)) Hn). exact Hdb. }
  intros ?. apply triple_pre. intros [db ->]. t_known. eapply triple_bind; [by apply DropTable_total|intros n].
  c_info. eapply triple_bind; [by apply find_schema|]. intros ?. apply triple_pre. intros [db' ->].
  t_known. rewrite Ht.
  t_known.
  apply create_in_schema_total; [done|by apply dropped_table].
Qed.

Lemma handle_other_rep t : hi_TableInfo info = Some t -> is_Some (cat_dbs c !! job_SchemaID j) -> is_Some (cat_tables c !! tb_ID t) ->
  (forall st, cat_tables c !! tb_ID t = Some st -> tb_Name (snd st) = tb_Name t) ->
  triple (RepI b c) (handle_other j) (fun _ => RepI b (cat_alter_table (stored_table b t) c)) never.
Proof.
  intros Ht H1 H2 H3. unfold handle_other. c_info. rewrite Ht.
  t_known.
  c_schema. eapply triple_seq; [by apply ReplaceTable_total|]. eapply triple_seq; [apply set_version_rep|].
  eapply triple_seq; [|by apply triple_ret]. apply triple_modify. intros s Hs. case_bool_decide; [by apply (RepI_same _ _ s)|done].
Qed.

Lemma handle_create_schema_rep db : hi_DBInfo info = Some db -> db_Tables db = [] ->
  (forall id, cat_dbs c !! id <> Some (db_Name db)) -> cat_dbs c !! db_ID db = None ->
  triple (RepI b c) (handle_create_schema info) (fun _ => RepI b (cat_create_db (db_ID db) (db_Name db) c)) never.
Proof.
  intros Hdb H1 H2 H3. unfold handle_create_schema. rewrite Hdb.
  t_known.
  eapply triple_seq; [by apply CreateSchema_total|]. c_end.
Qed.

Lemma handle_modify_schema_rep db : hi_DBInfo info = Some db -> db_Tables db = [] ->
  cat_dbs c !! db_ID db = Some (db_Name db) -> (forall id st, cat_tables c !! id = Some st -> fst st <> db_ID db) ->
  triple (RepI b c) (handle_modify_schema info) (fun _ => RepI b c) never.
Proof.
  intros Hdb H1 H2 H3. unfold handle_modify_schema. rewrite Hdb.
  t_known.
  c_schema. eapply triple_seq; [|c_end]. apply triple_modify. intros s [R Hb]. split; [|done].
  pose proof (insert_db_rep c s db R H1) as HR. unfold cat_create_db in HR.
  rewrite insert_id in HR by done. destruct c as [ds ts]. apply HR; [|by right|done].
  intros id Hid. apply (rep_ids _ _ R) in Hid, H2. congruence.
Qed.

Lemma handle_drop_schema_rep : is_Some (cat_dbs c !! job_SchemaID j) ->
  triple (RepI b c) (handle_drop_schema j) (fun _ => RepI b (cat_drop_db (job_SchemaID j) c)) never.
Proof.
  intros H1. unfold handle_drop_schema. eapply triple_bind; [by apply DropSchema_total|intros n]. c_info. c_end.
Qed.

Lemma handleDDL_rep : skipJob j = false -> job_Query j <> ""%string -> job_sane j info c -> job_enabled j info c ->
  triple (RepI b c) (handleDDL j) (fun _ => RepI b (cat_job b j info c)) never.
Proof.
  intros Hs Hq Hsane Hen. unfold handleDDL. rewrite Hs, bool_decide_eq_false_2 by done.
  apply triple_bind with (fun _ => RepI b (cat_job b j info c)); [|intros [? ?]; by apply triple_ret].
  unfold job_sane, job_enabled, cat_job in *.
  destruct (job_Type j), (hi_DBInfo info) as [db|] eqn:Hdb, (hi_TableInfo info) as [t|] eqn:Ht; try done;
    try (by destruct Hen; auto using handle_drop_table_rep, handle_create_table_rep, handle_other_rep);
    try (by destruct Hen as (? & ? & ?); auto using handle_rename_table_rep, handle_truncate_table_rep);
    try (by apply handle_drop_schema_rep);
    c_info; destruct Hsane; first [by apply handle_create_schema_rep|naive_solver eauto using handle_modify_schema_rep].
Qed.
End Jobs.


Module SchemaExamples.

Definition db1 : DBInfo := mkDB 1 "shop" [].
Definition t10 : TableInfo := mkTable 10 "items" true false [mkColumn 1 "id" (mkField 3 0 "" []) StatePublic false VNil] [].
Definition t11 : TableInfo := mkTable 11 "items" true false [mkColumn 1 "id" (mkField 3 0 "" []) StatePublic false VNil] [].

Definition job (tp : ActionType) (v sid tid : Z) (db : option DBInfo) (t : option TableInfo) : Job :=
  mkJob tp JobStateSynced (SchemaStateOther 0) sid tid (Some (mkHistory v db t)) "ddl".

Definition create_db := job ActionCreateSchema 1 1 0 (Some db1) None.
Definition create_t := job ActionCreateTable 2 1 10 None (Some t10).
Definition truncate_t := job ActionTruncateTable 3 1 10 None (Some t11).
Definition charset_db := job ActionModifySchemaCharsetAndCollate 3 1 0 (Some db1) None.
Definition drop_db := job ActionDropSchema 4 1 0 None None.

Definition history : list Job := [create_db; create_t].

(** The schema after its history. *)
Definition s2 : Schema := fst (handlePreviousDDLJobIfNeed 2 (NewSchema history false)).

Lemma handlePrevious_split_witness :
  1 <= 2 /\
  snd (handlePreviousDDLJobIfNeed 2 (NewSchema history false)) = Ret tt /\
  handlePreviousDDLJobIfNeed 2 (NewSchema history false) =
    mbind_ (handlePreviousDDLJobIfNeed 1) (fun _ => handlePreviousDDLJobIfNeed 2) (NewSchema history false).
Proof.
  split; [lia|]. split; [vm_compute; reflexivity|].
  apply (handlePrevious_split 1 2 (NewSchema history false)); [lia|vm_compute; reflexivity].
Defined.

Lemma schema_invariant_witness :
  queue_sorted history /\
  queue_sorted (jobs (schema_ops [OpHandlePrevious 1; OpAddJob truncate_t] (NewSchema history false))).
Proof.
  assert (H : queue_sorted history) by (unfold queue_sorted; vm_compute; repeat constructor).
  split; [exact H|]. apply (schema_invariant history false [OpHandlePrevious 1; OpAddJob truncate_t]). exact H.
Defined.

Lemma ddl_names_witness :
  exists s', mbind_ (addJob truncate_t) (fun _ => handlePreviousDDLJobIfNeed 3) s2 = (s', Ret tt) /\
    jobs s' = [] /\ currentVersion s' = 3.
Proof.
  destruct (mbind_ (addJob truncate_t) (fun _ => handlePreviousDDLJobIfNeed 3) s2) as [s' r] eqn:E.
  assert (Hr : r = Ret tt) by (apply (f_equal snd) in E; vm_compute in E; by rewrite <- E). subst r.
  exists s'. split; [reflexivity|].
  destruct (ddl_names truncate_t 3 s2 s') as (H1 & H2 & _); try reflexivity; try exact E; [constructor|].
  split; assumption.
Defined.


(** A job that changes the character set of a schema replaces the [DBInfo] by one
    without tables: dropping the schema afterwards leaves its tables behind. *)
Lemma charset_then_drop :
  let s := fst (handlePreviousDDLJobIfNeed 4 (NewSchema [create_db; create_t; charset_db; drop_db] false)) in
  currentVersion s = 4 /\ schemas s !! 1 = None /\ SchemaAndTableName 10 s = ("shop"%string, "items"%string, true) /\
  TableByID 10 s = Some t10.
Proof. vm_compute. done. Qed.

Lemma drop_without_charset :
  let s := fst (handlePreviousDDLJobIfNeed 4 (NewSchema [create_db; create_t; drop_db] false)) in
  currentVersion s = 4 /\ SchemaAndTableName 10 s = (""%string, ""%string, false) /\ TableByID 10 s = None.
Proof. vm_compute. done. Qed.

(** Truncating replaces the table and remembers the old id. *)
Lemma truncate_example :
  let s := fst (handlePreviousDDLJobIfNeed 3 (NewSchema [create_db; create_t; truncate_t] true)) in
  IsTruncateTableID 10 s = true /\ TableByID 10 s = None /\ TableByID 11 s = Some t11.
Proof. vm_compute. done. Qed.
End SchemaExamples.
