(* ===== verification/Filter.v ===== *)
(** * Filter
    The allow and block lists of drainer ([pkg/filter/filter.go]). The regular
    expressions ([regexp]) and the case mapping of [strings.ToLower] are
    parameters; that the lists of patterns are compiled first and then looked up
    by pattern is not. *)
From Stdlib Require Import Ascii.
From stdpp Require Import base option list gmap strings.
From S2P Require Import Prelude.

(** [filter.TableName]. *)
Record TableRule := mkRule { rule_Schema : string; rule_Table : string }.

Section Filter.
Context {Regexp : Type}.
(** [regexp.Compile], the [MatchString] of a regular expression and
    [strings.ToLower]. *)
Variable Compile : string -> option Regexp.
Variable MatchString : Regexp -> string -> bool.
Variable ToLower : string -> string.

Record Filter := mkFilter {
  reMap : gmap string Regexp;
  doDBs : list string;
  doTables : list TableRule;
  ignoreDBs : list string;
  ignoreTables : list TableRule;
}.

(** [fmt.Sprintf("(?i)%s", originStr[1:])] or [fmt.Sprintf("(?i)^%s$", originStr)]. *)
Definition regex_source (originStr : string) : string :=
  match originStr with
  | String c rest => if bool_decide (c = "~"%char) then "(?i)" +:+ rest else "(?i)^" +:+ originStr +:+ "$"
  | EmptyString => "(?i)^" +:+ originStr +:+ "$"
  end.

(** [addOneRegex]; [MustCompile] panics on a malformed expression. *)
Definition addOneRegex (originStr : string) (m : gmap string Regexp) : outcome (gmap string Regexp) :=
  match m !! originStr with
  | Some _ => Ret m
  | None =>
    match Compile (regex_source originStr) with
    | Some re => Ret (<[originStr := re]> m)
    | None => Panic
    end
  end.

Fixpoint addRegexes (l : list string) (m : gmap string Regexp) : outcome (gmap string Regexp) :=
  match l with
  | [] => Ret m
  | p :: l => let! m := addOneRegex p m in addRegexes l m
  end.

Definition rule_patterns (rules : list TableRule) : list string :=
  rules ≫= (fun tb => [rule_Schema tb; rule_Table tb]).

(** [genRegexMap]. *)
Definition genRegexMap (f : Filter) : outcome Filter :=
  let! m := addRegexes (doDBs f) (reMap f) in
  let! m := addRegexes (rule_patterns (doTables f)) m in
  let! m := addRegexes (ignoreDBs f) m in
  let! m := addRegexes (rule_patterns (ignoreTables f)) m in
  Ret (mkFilter m (doDBs f) (doTables f) (ignoreDBs f) (ignoreTables f)).

Definition NewFilter (ignoreDBs : list string) (ignoreTables : list TableRule) (doDBs : list string)
    (doTables : list TableRule) : outcome Filter :=
  genRegexMap (mkFilter ∅ doDBs doTables ignoreDBs ignoreTables).

(** [matchString]: by the compiled expression, literally when there is none. *)
Definition matchString (f : Filter) (pattern t : string) : bool :=
  match reMap f !! pattern with
  | Some re => MatchString re t
  | None => bool_decide (pattern = t)
  end.

Fixpoint matchDB (f : Filter) (patternDBS : list string) (a : string) : bool :=
  match patternDBS with
  | [] => false
  | b :: rest => if matchString f b a then true else matchDB f rest a
  end.

Fixpoint matchTable (f : Filter) (patternTBS : list TableRule) (tb : TableRule) : bool :=
  match patternTBS with
  | [] => false
  | ptb :: rest =>
    if matchString f (rule_Schema ptb) (rule_Schema tb) && matchString f (rule_Table ptb) (rule_Table tb)
    then true else matchTable f rest tb
  end.

(** [allowFilter]: a table that matches both lists is kept twice. *)
Fixpoint allow_loop (f : Filter) (stbs tbs : list TableRule) : list TableRule :=
  match stbs with
  | [] => tbs
  | tb :: rest =>
    let tbs := if matchTable f (doTables f) tb then tbs ++ [tb] else tbs in
    let tbs := if matchDB f (doDBs f) (rule_Schema tb) then tbs ++ [tb] else tbs in
    allow_loop f rest tbs
  end.

Definition allowFilter (f : Filter) (stbs : list TableRule) : list TableRule :=
  if (length (doTables f) =? 0)%nat && (length (doDBs f) =? 0)%nat then stbs else allow_loop f stbs [].

Fixpoint block_loop (f : Filter) (stbs tbs : list TableRule) : list TableRule :=
  match stbs with
  | [] => tbs
  | tb :: rest =>
    if matchTable f (ignoreTables f) tb then block_loop f rest tbs
    else if matchDB f (ignoreDBs f) (rule_Schema tb) then block_loop f rest tbs
    else block_loop f rest (tbs ++ [tb])
  end.

Definition blockFilter (f : Filter) (stbs : list TableRule) : list TableRule :=
  if (length (ignoreTables f) =? 0)%nat && (length (ignoreDBs f) =? 0)%nat then stbs else block_loop f stbs [].

(** [SkipSchemaAndTable]. *)
Definition SkipSchemaAndTable (f : Filter) (schema table : string) : bool :=
  let tbs := [mkRule (ToLower schema) (ToLower table)] in
  let tbs := allowFilter f tbs in
  let tbs := blockFilter f tbs in
  (length tbs =? 0)%nat.

(** ** What the rules mean *)

(** A pattern matches a name. *)
Definition pattern_matches (pattern name : string) : Prop :=
  exists re, Compile (regex_source pattern) = Some re /\ MatchString re name = true.

Definition rule_matches (r : TableRule) (schema table : string) : Prop :=
  pattern_matches (rule_Schema r) schema /\ pattern_matches (rule_Table r) table.

(** Some rule of a pair of lists matches. *)
Definition listed (dbs : list string) (rules : list TableRule) (schema table : string) : Prop :=
  Exists (fun p => pattern_matches p schema) dbs \/ Exists (fun r => rule_matches r schema table) rules.

(** The map holds what compiling its keys gives. *)
Definition compiled (m : gmap string Regexp) : Prop :=
  forall p re, m !! p = Some re -> Compile (regex_source p) = Some re.

Lemma addRegexes_compiled l m m' : addRegexes l m = Ret m' -> compiled m ->
  compiled m' /\ m ⊆ m' /\ Forall (fun p => is_Some (m' !! p)) l.
Proof.
  revert m. induction l as [|p l IH]; intros m; cbn [addRegexes].
  { intros [= <-] Hm. by split_and!. }
  intros (m1 & H1 & H2)%obind_Ret_inv Hm.
  assert (Hm1 : compiled m1 /\ m ⊆ m1 /\ is_Some (m1 !! p)).
  { unfold addOneRegex in H1. destruct (m !! p) as [re|] eqn:E.
    - injection H1 as <-. split_and!; [done|done|by rewrite E].
    - destruct (Compile (regex_source p)) as [re|] eqn:Hc; [|done]. injection H1 as <-. split_and!.
      + intros q re' [[<- <-]|[_ ?]]%lookup_insert_Some; [done|by apply Hm].
      + by apply insert_subseteq.
      + by rewrite lookup_insert_eq. }
  destruct Hm1 as (Hm1 & Hsub & Hp). destruct (IH m1 H2 Hm1) as (Hm' & Hsub' & Hl).
  split_and!; [done|by trans m1|]. constructor; [|done]. destruct Hp as [re Hre]. exists re.
  by eapply lookup_weaken.
Qed.

(** A filter whose expressions are those of its rules. *)
Record filter_ready (f : Filter) : Prop := {
  ready_compiled : compiled (reMap f);
  ready_doDBs : Forall (fun p => is_Some (reMap f !! p)) (doDBs f);
  ready_doTables : Forall (fun r => is_Some (reMap f !! rule_Schema r) /\ is_Some (reMap f !! rule_Table r)) (doTables f);
  ready_ignoreDBs : Forall (fun p => is_Some (reMap f !! p)) (ignoreDBs f);
  ready_ignoreTables : Forall (fun r => is_Some (reMap f !! rule_Schema r) /\ is_Some (reMap f !! rule_Table r)) (ignoreTables f);
}.

Lemma Forall_weaken_map (m m' : gmap string Regexp) l : m ⊆ m' ->
  Forall (fun p => is_Some (m !! p)) l -> Forall (fun p => is_Some (m' !! p)) l.
Proof. intros Hs Hf. eapply Forall_impl; [exact Hf|]. intros p [re Hre]. exists re. by eapply lookup_weaken. Qed.

Lemma Forall_rule_patterns (m : gmap string Regexp) rules : Forall (fun p => is_Some (m !! p)) (rule_patterns rules) ->
  Forall (fun r => is_Some (m !! rule_Schema r) /\ is_Some (m !! rule_Table r)) rules.
Proof.
  induction rules as [|r rules IH]; [constructor|]. cbn [rule_patterns mbind list_bind app].
  rewrite !Forall_cons_iff. intros (H1 & H2 & H3). split; [done|by apply IH].
Qed.

Lemma NewFilter_ready iDBs iTables dDBs dTables f : NewFilter iDBs iTables dDBs dTables = Ret f ->
  filter_ready f /\ ignoreDBs f = iDBs /\ ignoreTables f = iTables /\ doDBs f = dDBs /\ doTables f = dTables.
Proof.
  unfold NewFilter, genRegexMap. cbn [doDBs doTables ignoreDBs ignoreTables reMap].
  intros (m1 & H1 & (m2 & H2 & (m3 & H3 & (m4 & H4 & [= <-])%obind_Ret_inv)%obind_Ret_inv)%obind_Ret_inv)%obind_Ret_inv.
  apply addRegexes_compiled in H1 as (C1 & S1 & F1); [|intros p re; by rewrite lookup_empty].
  apply addRegexes_compiled in H2 as (C2 & S2 & F2); [|done].
  apply addRegexes_compiled in H3 as (C3 & S3 & F3); [|done].
  apply addRegexes_compiled in H4 as (C4 & S4 & F4); [|done].
  split; [|done]. split; cbn [doDBs doTables ignoreDBs ignoreTables reMap]; [done| | | |].
  - apply (Forall_weaken_map m1); [by trans m2; [|trans m3]|done].
  - apply Forall_rule_patterns, (Forall_weaken_map m2); [by trans m3|done].
  - by apply (Forall_weaken_map m3).
  - by apply Forall_rule_patterns.
Qed.

(** *** Matching in a ready filter *)

Lemma matchString_ready f p t : compiled (reMap f) -> is_Some (reMap f !! p) ->
  matchString f p t = true <-> pattern_matches p t.
Proof.
  intros Hc [re Hre]. unfold matchString. rewrite Hre. pose proof (Hc p re Hre) as Hcomp. unfold pattern_matches. split.
  - intros Hm. by exists re.
  - intros (re' & H1 & H2). by simplify_eq.
Qed.

Lemma matchDB_ready f l t : compiled (reMap f) -> Forall (fun p => is_Some (reMap f !! p)) l ->
  matchDB f l t = true <-> Exists (fun p => pattern_matches p t) l.
Proof.
  intros Hc Hf. induction Hf as [|p l Hp Hf IH]; cbn [matchDB]; [by rewrite Exists_nil|].
  rewrite Exists_cons, <- IH, <- (matchString_ready f p t Hc Hp). destruct (matchString f p t); naive_solver.
Qed.

Lemma matchTable_ready f l tb : compiled (reMap f) ->
  Forall (fun r => is_Some (reMap f !! rule_Schema r) /\ is_Some (reMap f !! rule_Table r)) l ->
  matchTable f l tb = true <-> Exists (fun r => rule_matches r (rule_Schema tb) (rule_Table tb)) l.
Proof.
  intros Hc Hf. induction Hf as [|r l [Hs Ht] Hf IH]; cbn [matchTable]; [by rewrite Exists_nil|].
  rewrite Exists_cons, <- IH. unfold rule_matches at 1.
  rewrite <- (matchString_ready f _ (rule_Schema tb) Hc Hs), <- (matchString_ready f _ (rule_Table tb) Hc Ht).
  destruct (matchString f _ _), (matchString f _ _); simpl; naive_solver.
Qed.

(** *** The two passes on one table *)

Definition allows (f : Filter) (tb : TableRule) : bool :=
  bool_decide (doDBs f = [] /\ doTables f = []) || (matchDB f (doDBs f) (rule_Schema tb) || matchTable f (doTables f) tb).

Definition blocks (f : Filter) (tb : TableRule) : bool :=
  matchDB f (ignoreDBs f) (rule_Schema tb) || matchTable f (ignoreTables f) tb.

Lemma block_loop_replicate f tb n acc :
  length (block_loop f (replicate n tb) acc) = if blocks f tb then length acc else (length acc + n)%nat.
Proof.
  revert acc. induction n as [|n IH]; intros acc; cbn [replicate block_loop]; [destruct (blocks f tb); lia|].
  specialize (IH acc) as IH1. specialize (IH (acc ++ [tb])) as IH2. unfold blocks in *.
  destruct (matchTable f _ tb), (matchDB f _ _); cbn [orb] in *; rewrite ?IH1, ?IH2, ?length_app; simpl; lia.
Qed.

Lemma blockFilter_replicate f tb n : length (blockFilter f (replicate n tb)) = if blocks f tb then 0%nat else n.
Proof.
  unfold blockFilter. destruct (_ && _) eqn:E; [|by rewrite block_loop_replicate].
  apply andb_true_iff in E as [E1%Nat.eqb_eq%nil_length_inv E2%Nat.eqb_eq%nil_length_inv].
  unfold blocks. rewrite E1, E2. simpl. by rewrite length_replicate.
Qed.

Lemma allowFilter_one f tb : exists n, allowFilter f [tb] = replicate n tb /\ (n = 0%nat <-> allows f tb = false).
Proof.
  unfold allowFilter, allows. destruct (_ && _) eqn:E.
  - apply andb_true_iff in E as [E1%Nat.eqb_eq%nil_length_inv E2%Nat.eqb_eq%nil_length_inv].
    exists 1%nat. split; [done|]. by rewrite bool_decide_eq_true_2.
  - rewrite bool_decide_eq_false_2. 2: { intros [Ha Hb]. by rewrite Ha, Hb in E. }
    cbn [allow_loop]. destruct (matchTable f _ tb), (matchDB f _ _); cbn [orb app];
      [exists 2%nat|exists 1%nat|exists 1%nat|exists 0%nat]; by split.
Qed.

Lemma SkipSchemaAndTable_bool f schema table : let tb := mkRule (ToLower schema) (ToLower table) in
  SkipSchemaAndTable f schema table = negb (allows f tb) || blocks f tb.
Proof.
  cbn zeta. unfold SkipSchemaAndTable. set (tb := mkRule _ _). destruct (allowFilter_one f tb) as (n & -> & Hn).
  rewrite blockFilter_replicate. destruct (blocks f tb); [by rewrite orb_true_r|].
  destruct (Nat.eqb_spec n 0) as [E|E], (allows f tb); naive_solver.
Qed.

(** A table passes the filter exactly when the allow lists are empty or one of
    their rules matches it, and no rule of the block lists does: the expressions
    compiled when the filter is made are those of all its rules, names are
    compared in lower case. *)
Theorem SkipSchemaAndTable_spec iDBs iTables dDBs dTables f schema table :
  NewFilter iDBs iTables dDBs dTables = Ret f ->
  SkipSchemaAndTable f schema table = false <->
    ((dDBs = [] /\ dTables = []) \/ listed dDBs dTables (ToLower schema) (ToLower table)) /\
    ~ listed iDBs iTables (ToLower schema) (ToLower table).
Proof.
  intros Hf. apply NewFilter_ready in Hf as ([Hc H1 H2 H3 H4] & <- & <- & <- & <-).
  rewrite SkipSchemaAndTable_bool, orb_false_iff, negb_false_iff. unfold listed.
  set (tb := mkRule (ToLower schema) (ToLower table)).
  pose proof (matchDB_ready f _ (rule_Schema tb) Hc H1) as M1. pose proof (matchTable_ready f _ tb Hc H2) as M2.
  pose proof (matchDB_ready f _ (rule_Schema tb) Hc H3) as M3. pose proof (matchTable_ready f _ tb Hc H4) as M4.
  cbn [tb rule_Schema rule_Table] in M1, M2, M3, M4. rewrite <- M1, <- M2, <- M3, <- M4.
  unfold allows, blocks. rewrite !orb_true_iff, orb_false_iff, bool_decide_eq_true, <- !not_true_iff_false.
  cbn [tb rule_Schema]. tauto.
Qed.

Lemma addRegexes_app l1 l2 m : addRegexes (l1 ++ l2) m = obind (addRegexes l1 m) (addRegexes l2).
Proof.
  revert m. induction l1 as [|p l1 IH]; intros m; [done|]. cbn [addRegexes app].
  destruct (addOneRegex p m); [apply IH|done..].
Qed.

Lemma addRegexes_result l m : compiled m ->
  match addRegexes l m with
  | Ret _ => Forall (fun p => is_Some (Compile (regex_source p))) l
  | Fail _ => False
  | Panic => Exists (fun p => Compile (regex_source p) = None) l
  end.
Proof.
  revert m. induction l as [|p l IH]; intros m Hm; cbn [addRegexes]; [constructor|].
  unfold addOneRegex. destruct (m !! p) as [re|] eqn:E; cbn [obind].
  - specialize (IH m Hm). apply Hm in E. destruct (addRegexes l m); [constructor; [by eexists|done]|done|by constructor].
  - destruct (Compile (regex_source p)) as [re|] eqn:Hc; cbn [obind]; [|by constructor].
    specialize (IH (<[p:=re]> m)). destruct (addRegexes l _); [constructor; [by eexists|]|..|constructor 2]; apply IH;
      intros q re' [[<- <-]|[_ ?]]%lookup_insert_Some; (done || by apply Hm).
Qed.

(** Making a filter fails (the program panics) exactly when one of its patterns
    is not a regular expression. *)
Theorem NewFilter_panics iDBs iTables dDBs dTables :
  match NewFilter iDBs iTables dDBs dTables with
  | Ret _ => Forall (fun p => is_Some (Compile (regex_source p)))
      (dDBs ++ rule_patterns dTables ++ iDBs ++ rule_patterns iTables)
  | Fail _ => False
  | Panic => Exists (fun p => Compile (regex_source p) = None)
      (dDBs ++ rule_patterns dTables ++ iDBs ++ rule_patterns iTables)
  end.
Proof.
  assert (Hno : compiled ∅) by (intros p re; by rewrite lookup_empty).
  pose proof (addRegexes_result (dDBs ++ rule_patterns dTables ++ iDBs ++ rule_patterns iTables) ∅ Hno) as H.
  rewrite !addRegexes_app in H. unfold NewFilter, genRegexMap. cbn [doDBs doTables ignoreDBs ignoreTables reMap].
  destruct (addRegexes dDBs ∅) as [m1| |]; cbn [obind] in *; [|done..].
  rewrite addRegexes_app in H. destruct (addRegexes (rule_patterns dTables) m1) as [m2| |]; cbn [obind] in *; [|done..].
  rewrite addRegexes_app in H. destruct (addRegexes iDBs m2) as [m3| |]; cbn [obind] in *; [|done..].
  by destruct (addRegexes (rule_patterns iTables) m3).
Qed.
End Filter.

Module FilterExamples.
(** Expressions that are literal names: the text between the markers. *)
Definition compile_literal (s : string) : option string := Some s.
Definition match_literal (re t : string) : bool := bool_decide (re = "(?i)^" +:+ t +:+ "$").
Definition lower (s : string) : string := s.

Definition the_filter : outcome (@Filter string) :=
  NewFilter compile_literal ["mysql"%string] [mkRule "shop" "log"] ["shop"%string] [].

Lemma SkipSchemaAndTable_spec_witness :
  exists f, the_filter = Ret f /\ SkipSchemaAndTable match_literal lower f "shop" "log" = true /\
  (SkipSchemaAndTable match_literal lower f "shop" "items" = false <->
    (([("shop"%string)] = [] /\ ([] : list TableRule) = []) \/
      listed compile_literal match_literal ["shop"%string] [] (lower "shop") (lower "items")) /\
    ~ listed compile_literal match_literal ["mysql"%string] [mkRule "shop" "log"] (lower "shop") (lower "items")).
Proof.
  destruct the_filter as [f|e|] eqn:E; [|vm_compute in E; discriminate..].
  exists f. split; [reflexivity|]. split.
  - vm_compute in E. injection E as <-. vm_compute. reflexivity.
  - exact (SkipSchemaAndTable_spec compile_literal match_literal lower _ _ _ _ f "shop" "items" E).
Defined.

Lemma skip_examples : match the_filter with
  | Ret f => SkipSchemaAndTable match_literal lower f "shop" "items" = false /\
      SkipSchemaAndTable match_literal lower f "other" "items" = true /\
      SkipSchemaAndTable match_literal lower f "mysql" "user" = true
  | _ => False
  end.
Proof. vm_compute. done. Qed.
End FilterExamples.
