(* ===== verification/Checkpoint.v ===== *)
(** * Checkpoint
    Where drainer keeps the commit timestamp it has synchronised to
    ([drainer/checkpoint]): in a file or in a table of a database, behind the
    interface [CheckPoint]; with the atomic file write of [pkg/util/util.go]. *)
From Stdlib Require Import Init.Byte.
From stdpp Require Import base option list gmap strings.
From S2P Require Import Prelude Retry.

(** ** The interface *)

Definition ErrCheckPointClosed : error := Err "CheckPoint already closed".

(** The methods of the interface; [cp_reopen] is what a new process finds. *)
Class CheckPoint (C : Type) := {
  cp_Load : C -> C * outcome unit;
  cp_Save : Z -> Z -> bool -> Z -> C -> C * outcome unit;
  cp_TS : C -> Z;
  cp_SchemaVersion : C -> Z;
  cp_IsConsistent : C -> bool;
  cp_Close : C -> C * outcome unit;
  cp_closed : C -> bool;
  cp_reopen : C -> C * outcome unit;
}.

(** What its clients rely on. *)
Class CheckPointLaws (C : Type) `{!CheckPoint C} : Prop := {
  save_closed : forall ts sec cons v c, cp_closed c = true -> cp_Save ts sec cons v c = (c, Fail ErrCheckPointClosed);
  save_memory : forall ts sec cons v c, cp_closed c = false ->
    let c' := fst (cp_Save ts sec cons v c) in
    cp_TS c' = ts /\ cp_IsConsistent c' = cons /\ cp_SchemaVersion c' = Z.max v (cp_SchemaVersion c) /\ cp_closed c' = false;
  save_durable : forall ts sec cons v c c' c'', ts <> 0 ->
    cp_Save ts sec cons v c = (c', Ret tt) -> cp_reopen c' = (c'', Ret tt) ->
    cp_TS c'' = ts /\ cp_IsConsistent c'' = cons /\ cp_SchemaVersion c'' = cp_SchemaVersion c';
}.

(** ** Files *)

(** How an operation on the file system ends. *)
Inductive io_event := IoOk | IoErr | IoShort (n : nat).

(** The file at a path, the temporary files beside it, and how the coming
    operations end (successfully when nothing is said). *)
Record FS := mkFS { fs_target : option (list byte); fs_temps : list (list byte); fs_io : list io_event }.

Definition next_io (fs : FS) : io_event * FS :=
  match fs_io fs with
  | [] => (IoOk, fs)
  | e :: io => (e, mkFS (fs_target fs) (fs_temps fs) io)
  end.

Definition set_temps (ts : list (list byte)) (fs : FS) : FS := mkFS (fs_target fs) ts (fs_io fs).

Definition ErrIO : error := Err "input/output error".

(** The end of [WriteFileAtomic], after [n] bytes were written to the temporary file:
    the states the file system goes through, and the result. *)
Definition write_checked (data : list byte) (n : nat) (temps : list (list byte)) (fs : FS) : list FS * outcome unit :=
  if (n <? length data)%nat then
    (* os.Remove *)
    ([fs; set_temps temps fs], Fail (Err "short write"))
  else
    (* os.Chmod *)
    let '(e, fs3) := next_io fs in
    match e with
    | IoErr | IoShort _ => ([fs; fs3; set_temps temps fs3], Fail ErrIO)
    | IoOk =>
      (* os.Rename *)
      let '(e, fs4) := next_io fs3 in
      match e with
      | IoErr | IoShort _ => ([fs; fs3; fs4], Fail ErrIO)
      | IoOk => ([fs; fs3; mkFS (Some data) temps (fs_io fs4)], Ret tt)
      end
    end.

(** [WriteFileAtomic]: the states of the file system it goes through, the last one
    when it returns, and its result. Its temporary file is the first one. *)
Definition WriteFileAtomic (data : list byte) (fs : FS) : list FS * outcome unit :=
  (* os.CreateTemp *)
  let '(e, fs) := next_io fs in
  match e with
  | IoErr | IoShort _ => ([fs], Fail ErrIO)
  | IoOk =>
    let temps := fs_temps fs in
    let fs1 := set_temps ([] :: temps) fs in
    (* f.Write *)
    let '(e, fs2) := next_io fs1 in
    match e with
    | IoErr => ([fs1; fs2], Fail ErrIO)
    | IoShort n =>
      let n := Nat.min n (length data) in
      let '(states, r) := write_checked data n temps (set_temps (take n data :: temps) fs2) in (fs1 :: states, r)
    | IoOk =>
      let '(states, r) := write_checked data (length data) temps (set_temps (data :: temps) fs2) in (fs1 :: states, r)
    end
  end.

(** ** The checkpoint in a file *)

(** The fields of [FileCheckPoint] that are written. *)
Record FileFields := mkFields { ConsistentSaved : bool; CommitTS : Z; Version : Z }.

(** [toml]: encoding may fail, decoding changes the fields it finds. *)
Class FileCodec := {
  toml_Encode : FileFields -> outcome (list byte);
  toml_Decode : list byte -> FileFields -> FileFields * outcome unit;
}.
Class FileCodecLaws `{!FileCodec} : Prop :=
  toml_roundtrip : forall f b f0, toml_Encode f = Ret b -> toml_Decode b f0 = (f, Ret tt).

Record FileCheckPoint := mkFileCP {
  fc_closed : bool;
  fc_initialCommitTS : Z;
  fc_fields : FileFields;
  fc_disk : FS;
}.

(** The deferred function of [Load]. *)
Definition default_ts (initial : Z) (f : FileFields) : FileFields :=
  mkFields (ConsistentSaved f) (if CommitTS f =? 0 then initial else CommitTS f) (Version f).

Section File.
Context {codec : FileCodec}.

(** [FileCheckPoint.Load]. *)
Definition file_Load (sp : FileCheckPoint) : FileCheckPoint * outcome unit :=
  if fc_closed sp then (sp, Fail ErrCheckPointClosed)
  else
    let '(e, fs) := next_io (fc_disk sp) in
    let '(f, r) :=
      match e, fs_target fs with
      | IoOk, Some b => toml_Decode b (fc_fields sp)
      | IoOk, None => (fc_fields sp, Ret tt)
      | _, _ => (fc_fields sp, Fail ErrIO)
      end in
    (mkFileCP (fc_closed sp) (fc_initialCommitTS sp) (default_ts (fc_initialCommitTS sp) f) fs, r).

(** [NewFile]. *)
Definition NewFile (initialCommitTS : Z) (disk : FS) : FileCheckPoint * outcome unit :=
  file_Load (mkFileCP false initialCommitTS (mkFields false 0 0) disk).

(** The fields that [Save] sets, before it writes them. *)
Definition save_fields (ts : Z) (consistent : bool) (version : Z) (f : FileFields) : FileFields :=
  mkFields consistent ts (if Version f <? version then version else Version f).

(** [FileCheckPoint.Save], with the states of the disk that it goes through. *)
Definition file_Save_states (ts : Z) (consistent : bool) (version : Z) (sp : FileCheckPoint) : FileFields * (list FS * outcome unit) :=
  let f := save_fields ts consistent version (fc_fields sp) in
  (f, match toml_Encode f with
      | Ret b => WriteFileAtomic b (fc_disk sp)
      | Fail e => ([], Fail e)
      | Panic => ([], Panic)
      end).

Definition file_Save (ts secondaryTS : Z) (consistent : bool) (version : Z) (sp : FileCheckPoint) : FileCheckPoint * outcome unit :=
  if fc_closed sp then (sp, Fail ErrCheckPointClosed)
  else
    let '(f, (states, r)) := file_Save_states ts consistent version sp in
    (mkFileCP (fc_closed sp) (fc_initialCommitTS sp) f (default (fc_disk sp) (last states)), r).

(** [FileCheckPoint.Close]. *)
Definition file_Close (sp : FileCheckPoint) : FileCheckPoint * outcome unit :=
  if fc_closed sp then (sp, Fail ErrCheckPointClosed)
  else (mkFileCP true (fc_initialCommitTS sp) (fc_fields sp) (fc_disk sp), Ret tt).

#[export] Instance FileCheckPoint_CheckPoint : CheckPoint FileCheckPoint := {
  cp_Load := file_Load;
  cp_Save := file_Save;
  cp_TS := fun sp => CommitTS (fc_fields sp);
  cp_SchemaVersion := fun sp => Version (fc_fields sp);
  cp_IsConsistent := fun sp => ConsistentSaved (fc_fields sp);
  cp_Close := file_Close;
  cp_closed := fc_closed;
  cp_reopen := fun sp => NewFile (fc_initialCommitTS sp) (fc_disk sp);
}.

(** *** Correctness *)

Lemma next_io_target fs : fs_target (snd (next_io fs)) = fs_target fs.
Proof. unfold next_io. by destruct (fs_io fs). Qed.

(** Of the states of a write, the file is the old one in all but the last, and new
    in the last exactly when the write succeeds. *)
Definition atomic (data : list byte) (old : option (list byte)) (states : list FS) (r : outcome unit) : Prop :=
  Forall (fun s => fs_target s = old \/ (fs_target s = Some data /\ r = Ret tt)) states /\
  (r = Ret tt -> exists s, last states = Some s /\ fs_target s = Some data) /\
  r <> Panic /\ states <> [].

Ltac each_state := split_and!; [repeat (apply Forall_cons_iff; split; [simpl; by auto|]); apply List.Forall_nil
  |intros; (done || by eexists)|done|done].

Lemma write_checked_target data n temps fs states r : write_checked data n temps fs = (states, r) ->
  atomic data (fs_target fs) states r.
Proof.
  unfold write_checked, atomic. destruct (_ <? _)%nat; [intros [= <- <-]; each_state|].
  pose proof (next_io_target fs) as H1. destruct (next_io fs) as [e fs3]. cbn [fst snd] in H1.
  pose proof (next_io_target fs3) as H2. destruct (next_io fs3) as [e' fs4]. cbn [fst snd] in H2.
  assert (E : fs_target fs4 = fs_target fs) by congruence.
  destruct e, e'; intros [= <- <-]; each_state.
Qed.

Lemma atomic_cons data old s states r : fs_target s = old -> atomic data old states r -> atomic data old (s :: states) r.
Proof.
  intros Hs (H1 & H2 & H3 & H4). split_and!; [constructor; auto| |done|done].
  intros Hr. destruct (H2 Hr) as (x & Hx & Ht). exists x. split; [|done]. by destruct states.
Qed.

Lemma WriteFileAtomic_target data fs states r : WriteFileAtomic data fs = (states, r) ->
  atomic data (fs_target fs) states r.
Proof.
  unfold WriteFileAtomic. pose proof (next_io_target fs) as H0. destruct (next_io fs) as [e0 fs0]. cbn [fst snd] in H0.
  destruct e0; [|intros [= <- <-]; each_state..].
  pose proof (next_io_target (set_temps ([] :: fs_temps fs0) fs0)) as H1. destruct (next_io _) as [e1 fs1]. cbn [fst snd set_temps fs_target] in H1.
  assert (E1 : fs_target fs1 = fs_target fs) by congruence.
  destruct e1 as [| |n].
  2: { intros [= <- <-]; each_state. }
  all: destruct (write_checked _ _ _ _) as [states' r'] eqn:E; intros [= <- <-]; apply write_checked_target in E;
    apply atomic_cons; [done|]; by rewrite <- E1.
Qed.

(** What a process that starts on a disk reads. *)
Lemma NewFile_fields initial fs b f : fs_io fs = [] -> fs_target fs = Some b ->
  (forall f0, toml_Decode b f0 = (f, Ret tt)) ->
  NewFile initial fs = (mkFileCP false initial (default_ts initial f) fs, Ret tt).
Proof.
  intros Hio Ht Hd. unfold NewFile, file_Load. cbn [fc_closed fc_disk]. unfold next_io. rewrite Hio, Ht. cbn [fc_fields].
  by rewrite Hd.
Qed.

Lemma NewFile_fields' initial fs b f c : fs_target fs = Some b -> (forall f0, toml_Decode b f0 = (f, Ret tt)) ->
  NewFile initial fs = (c, Ret tt) -> fc_fields c = default_ts initial f.
Proof.
  intros Ht Hd. unfold NewFile, file_Load. cbn [fc_closed fc_disk]. pose proof (next_io_target fs) as H.
  destruct (next_io fs) as [e fs']. cbn [fst snd] in H. rewrite H, Ht. destruct e; cbn [fc_fields]; [|by intros [=]..].
  rewrite Hd. by intros [= <-].
Qed.

#[export] Instance FileCheckPoint_Laws `{!FileCodecLaws} : CheckPointLaws FileCheckPoint.
Proof.
  split.
  - intros ts sec cons v c Hc. cbn in *. unfold file_Save. by rewrite Hc.
  - intros ts sec cons v c Hc. cbn in *. unfold file_Save, file_Save_states. rewrite Hc.
    destruct (toml_Encode _) as [b|e|]; [destruct (WriteFileAtomic _ _)|..]; cbn;
      (split_and!; [done|done|destruct (Z.ltb_spec (Version (fc_fields c)) v); lia|done]).
  - intros ts sec cons v c c' c'' Hts. cbn. unfold file_Save, file_Save_states. destruct (fc_closed c); [done|].
    destruct (toml_Encode _) as [b|e|] eqn:He; [|done..].
    destruct (WriteFileAtomic b (fc_disk c)) as [states r] eqn:Hw.
    apply WriteFileAtomic_target in Hw as (_ & Hnew & _). intros [= <- ->]. cbn.
    destruct (Hnew eq_refl) as (fs & Hl & Ht). rewrite Hl. cbn.
    intros Hn. apply (NewFile_fields' _ _ _ _ _ Ht (fun f0 => toml_roundtrip _ _ f0 He)) in Hn. rewrite Hn.
    cbn. destruct (Z.eqb_spec ts 0); done.
Qed.
End File.

(** C9: a crash while the checkpoint file is saved loses nothing. In every state that
    the disk goes through, a new process reads the checkpoint that was saved before
    or the new one, and the new one when the save has reported success; the file
    is never half written. *)
Theorem file_crash_safe `{!FileCodec} `{!FileCodecLaws} sp b0 f0 ts consistent version b :
  fc_closed sp = false -> fs_target (fc_disk sp) = Some b0 -> toml_Encode f0 = Ret b0 ->
  toml_Encode (save_fields ts consistent version (fc_fields sp)) = Ret b ->
  let '(f, (states, r)) := file_Save_states ts consistent version sp in
  Forall (fun fs => let restart := NewFile (fc_initialCommitTS sp) (mkFS (fs_target fs) (fs_temps fs) []) in
    snd restart = Ret tt /\
    (fc_fields (fst restart) = default_ts (fc_initialCommitTS sp) f0 \/
     (fc_fields (fst restart) = default_ts (fc_initialCommitTS sp) f /\ r = Ret tt))) states /\
  (r = Ret tt -> exists fs, last states = Some fs /\
    fc_fields (fst (NewFile (fc_initialCommitTS sp) (mkFS (fs_target fs) (fs_temps fs) []))) = default_ts (fc_initialCommitTS sp) f).
Proof.
  intros Hc Ht He0 He. unfold file_Save_states. rewrite He.
  destruct (WriteFileAtomic b (fc_disk sp)) as [states r] eqn:Hw. apply WriteFileAtomic_target in Hw as (Hf & Hnew & _).
  assert (Hread : forall fs b f, fs_target fs = Some b -> toml_Encode f = Ret b ->
    NewFile (fc_initialCommitTS sp) (mkFS (fs_target fs) (fs_temps fs) []) =
      (mkFileCP false (fc_initialCommitTS sp) (default_ts (fc_initialCommitTS sp) f) (mkFS (fs_target fs) (fs_temps fs) []), Ret tt)).
  { intros fs b' f' Hfs Hb. eapply NewFile_fields; [done|exact Hfs|]. intros. by apply toml_roundtrip. }
  split.
  - eapply Forall_impl; [exact Hf|]. intros fs [Hold|[Hn Hr]].
    + rewrite (Hread fs b0 f0) by congruence. cbn. split; [done|by left].
    + rewrite (Hread fs b (save_fields ts consistent version (fc_fields sp))) by congruence. cbn. split; [done|by right].
  - intros Hr. destruct (Hnew Hr) as (fs & Hl & Hfs). exists fs. split; [done|]. by rewrite (Hread fs b (save_fields ts consistent version (fc_fields sp))).
Qed.

(** ** The checkpoint in a database *)

(** How a statement ends: it may be applied although an error is reported. *)
Inductive exec_event := ExecOk | ExecErr | ExecLost.

(** The table of checkpoints, a text for every cluster, and how the coming
    statements end. *)
Record DB := mkDB { db_rows : gmap Z (list byte); db_exec : list exec_event }.

Definition next_exec (db : DB) : exec_event * DB :=
  match db_exec db with
  | [] => (ExecOk, db)
  | e :: es => (e, mkDB (db_rows db) es)
  end.

Definition ErrDB : error := Err "driver: bad connection".

(** [db.Exec] of the statement of [genReplaceSQL]. *)
Definition exec_replace (clusterID : Z) (text : list byte) (db : DB) : DB * outcome unit :=
  let '(e, db) := next_exec db in
  let replaced := mkDB (<[clusterID := text]> (db_rows db)) (db_exec db) in
  match e with
  | ExecOk => (replaced, Ret tt)
  | ExecErr => (db, Fail ErrDB)
  | ExecLost => (replaced, Fail ErrDB)
  end.

(** A statement that changes no row: creating the schema or the table, a query. *)
Definition exec_other (db : DB) : DB * outcome unit :=
  let '(e, db) := next_exec db in
  match e with ExecOk => (db, Ret tt) | _ => (db, Fail ErrDB) end.

Record MysqlFields := mkMysqlFields { my_Consistent : bool; my_CommitTS : Z; TsMap : gmap string Z; my_Version : Z }.

(** [encoding/json]; a map that is decoded is added to the map that is there. *)
Class JsonCodec := {
  json_Marshal : MysqlFields -> outcome (list byte);
  json_Unmarshal : list byte -> MysqlFields -> MysqlFields * outcome unit;
}.
Class JsonCodecLaws `{!JsonCodec} : Prop :=
  json_roundtrip : forall f b f0, json_Marshal f = Ret b ->
    json_Unmarshal b f0 = (mkMysqlFields (my_Consistent f) (my_CommitTS f) (TsMap f ∪ TsMap f0) (my_Version f), Ret tt).

Record MysqlCheckPoint := mkMysqlCP {
  mc_closed : bool;
  mc_clusterID : Z;
  mc_initialCommitTS : Z;
  mc_fields : MysqlFields;
  mc_db : DB;
}.

Definition my_default_ts (initial : Z) (f : MysqlFields) : MysqlFields :=
  mkMysqlFields (my_Consistent f) (if my_CommitTS f =? 0 then initial else my_CommitTS f) (TsMap f) (my_Version f).

Definition set_commit (ts : Z) (f : MysqlFields) : MysqlFields :=
  mkMysqlFields (my_Consistent f) ts (TsMap f) (my_Version f).

Section Mysql.
Context {json : JsonCodec}.

(** [MysqlCheckPoint.Load]. *)
Definition mysql_Load (sp : MysqlCheckPoint) : MysqlCheckPoint * outcome unit :=
  if mc_closed sp then (sp, Fail ErrCheckPointClosed)
  else
    let '(db, q) := exec_other (mc_db sp) in
    let '(f, r) :=
      match q with
      | Ret _ =>
        match db_rows db !! mc_clusterID sp with
        | None => (set_commit (mc_initialCommitTS sp) (mc_fields sp), Ret tt)
        | Some text => json_Unmarshal text (mc_fields sp)
        end
      | _ => (mc_fields sp, q)
      end in
    (mkMysqlCP (mc_closed sp) (mc_clusterID sp) (mc_initialCommitTS sp) (my_default_ts (mc_initialCommitTS sp) f) db, r).

(** The fields that [Save] sets. *)
Definition my_save_fields (ts secondaryTS : Z) (consistent : bool) (version : Z) (f : MysqlFields) : MysqlFields :=
  mkMysqlFields consistent ts
    (if 0 <? secondaryTS then <["secondary-ts"%string := secondaryTS]> (<["primary-ts"%string := ts]> (TsMap f)) else TsMap f)
    (if my_Version f <? version then version else my_Version f).

(** [MysqlCheckPoint.Save]. *)
Definition mysql_Save (ts secondaryTS : Z) (consistent : bool) (version : Z) (sp : MysqlCheckPoint) : MysqlCheckPoint * outcome unit :=
  if mc_closed sp then (sp, Fail ErrCheckPointClosed)
  else
    let f := my_save_fields ts secondaryTS consistent version (mc_fields sp) in
    let '(db, r) :=
      match json_Marshal f with
      | Ret text => RetryContext (fun _ => false) (exec_replace (mc_clusterID sp) text) 5 (mc_db sp)
      | Fail e => (mc_db sp, Fail e)
      | Panic => (mc_db sp, Panic)
      end in
    (mkMysqlCP (mc_closed sp) (mc_clusterID sp) (mc_initialCommitTS sp) f db, r).

(** [MysqlCheckPoint.Close]; closing the database may fail. *)
Definition mysql_Close (sp : MysqlCheckPoint) : MysqlCheckPoint * outcome unit :=
  if mc_closed sp then (sp, Fail ErrCheckPointClosed)
  else
    let '(db, r) := exec_other (mc_db sp) in
    let closed := match r with Ret _ => true | _ => mc_closed sp end in
    (mkMysqlCP closed (mc_clusterID sp) (mc_initialCommitTS sp) (mc_fields sp) db, r).

Definition ErrNoCheckpointItem : error := Err "no any checkpoint item".

(** The loop over the rows of [getClusterID]. *)
Fixpoint cluster_id_loop (rows : list Z) (id : Z) : outcome Z :=
  match rows with
  | [] => if id =? 0 then Fail ErrNoCheckpointItem else Ret id
  | r :: rows => if 0 <? id then Fail (Err "there are multi row in checkpoint table") else cluster_id_loop rows r
  end.

Definition getClusterID (db : DB) : DB * outcome Z :=
  let '(db, r) := exec_other db in
  match r with
  | Ret _ => (db, cluster_id_loop (fst <$> map_to_list (db_rows db)) 0)
  | Fail e => (db, Fail e)
  | Panic => (db, Panic)
  end.

Definition fresh_mysql (clusterID initialCommitTS : Z) (db : DB) : MysqlCheckPoint :=
  mkMysqlCP false clusterID initialCommitTS (mkMysqlFields false 0 ∅ 0) db.

(** [newMysql], once the database is open. *)
Definition newMysql (clusterID initialCommitTS : Z) (db : DB) : outcome (MysqlCheckPoint * outcome unit) :=
  let '(db, r) := exec_other db in
  let! _ := r in
  let '(db, r) := exec_other db in
  let! _ := r in
  let '(db, r) := if clusterID =? 0 then getClusterID db else (db, Ret clusterID) in
  let! id := r in
  Ret (mysql_Load (fresh_mysql id initialCommitTS db)).

#[export] Instance MysqlCheckPoint_CheckPoint : CheckPoint MysqlCheckPoint := {
  cp_Load := mysql_Load;
  cp_Save := mysql_Save;
  cp_TS := fun sp => my_CommitTS (mc_fields sp);
  cp_SchemaVersion := fun sp => my_Version (mc_fields sp);
  cp_IsConsistent := fun sp => my_Consistent (mc_fields sp);
  cp_Close := mysql_Close;
  cp_closed := mc_closed;
  cp_reopen := fun sp => mysql_Load (fresh_mysql (mc_clusterID sp) (mc_initialCommitTS sp) (mc_db sp));
}.

(** *** Correctness *)

Lemma next_exec_rows db : db_rows (snd (next_exec db)) = db_rows db.
Proof. unfold next_exec. by destruct (db_exec db). Qed.

Lemma exec_other_rows db : db_rows (fst (exec_other db)) = db_rows db.
Proof.
  unfold exec_other. pose proof (next_exec_rows db) as H. destruct (next_exec db) as [e db']. by destruct e.
Qed.

Lemma exec_replace_no_panic id text db : snd (exec_replace id text db) <> Panic.
Proof. unfold exec_replace. by destruct (next_exec db) as [[] ?]. Qed.

(** A statement touches the row of its cluster only. *)
Lemma exec_replace_rows id text db : let '(db', r) := exec_replace id text db in
  (forall k, k <> id -> db_rows db' !! k = db_rows db !! k) /\
  (db_rows db' !! id = db_rows db !! id \/ db_rows db' !! id = Some text) /\ (r = Ret tt -> db_rows db' !! id = Some text).
Proof.
  unfold exec_replace. pose proof (next_exec_rows db) as H. destruct (next_exec db) as [e db']. cbn [fst snd] in H.
  destruct e; cbn [db_rows]; rewrite <- ?H, ?lookup_insert_eq;
    (split_and!; [intros k Hk; rewrite ?lookup_insert_ne by done; congruence|auto|done]).
Qed.

Lemma retry_replace_rows n id text err db : let '(db', r) := retry_loop (fun _ => false) (exec_replace id text) n err db in
  (forall k, k <> id -> db_rows db' !! k = db_rows db !! k) /\
  (db_rows db' !! id = db_rows db !! id \/ db_rows db' !! id = Some text) /\
  ((n <> 0)%nat -> r = Ret tt -> db_rows db' !! id = Some text).
Proof.
  revert err db. induction n as [|n IH]; intros err db; cbn [retry_loop]; [split_and!; auto; done|].
  pose proof (exec_replace_rows id text db) as H. destruct (exec_replace id text db) as [db1 [[]|e|]]; destruct H as (H1 & H2 & H3).
  - split_and!; auto.
  - specialize (IH (Fail e) db1). destruct (retry_loop _ _ n _ db1) as [db' r] eqn:E. destruct IH as (I1 & I2 & I3). split_and!.
    + intros k Hk. by rewrite I1, H1.
    + destruct I2 as [->|]; auto.
    + intros _ Hr. destruct n; [cbn in E; by injection E as _ <-|]. by apply I3.
  - split_and!; auto; done.
Qed.

Lemma mysql_Load_row sp text f sp' : mc_closed sp = false -> db_rows (mc_db sp) !! mc_clusterID sp = Some text ->
  json_Unmarshal text (mc_fields sp) = (f, Ret tt) -> mysql_Load sp = (sp', Ret tt) ->
  mc_fields sp' = my_default_ts (mc_initialCommitTS sp) f.
Proof.
  intros Hc Hr Hj. unfold mysql_Load. rewrite Hc. pose proof (exec_other_rows (mc_db sp)) as H.
  destruct (exec_other (mc_db sp)) as [db [[]|e|]]; cbn [fst] in H; [|by intros [=]..].
  rewrite H, Hr, Hj. by intros [= <-].
Qed.

#[export] Instance MysqlCheckPoint_Laws `{!JsonCodecLaws} : CheckPointLaws MysqlCheckPoint.
Proof.
  split.
  - intros ts sec cons v c Hc. cbn in *. unfold mysql_Save. by rewrite Hc.
  - intros ts sec cons v c Hc. cbn in *. unfold mysql_Save. rewrite Hc.
    destruct (match json_Marshal _ with Ret _ => _ | _ => _ end) as [db r]. cbn.
    split_and!; [done|done|destruct (Z.ltb_spec (my_Version (mc_fields c)) v); lia|done].
  - intros ts sec cons v c c' c'' Hts.
    cbn [cp_Save cp_reopen cp_TS cp_SchemaVersion cp_IsConsistent MysqlCheckPoint_CheckPoint]. unfold mysql_Save. destruct (mc_closed c); [done|].
    destruct (json_Marshal _) as [text|e|] eqn:He; [|by intros [=]..].
    pose proof (retry_replace_rows 5 (mc_clusterID c) text (Ret tt) (mc_db c)) as Hrow. unfold RetryContext.
    destruct (retry_loop _ _ 5 _ _) as [db r]. destruct Hrow as (_ & _ & Hrow). intros [= <- ->]. cbn [mc_clusterID mc_initialCommitTS mc_db mc_fields].
    intros Hl. eapply mysql_Load_row in Hl; [|done|cbn; by apply Hrow|cbn; by apply json_roundtrip].
    rewrite Hl. cbn. destruct (Z.eqb_spec ts 0); done.
Qed.

(** Saving a checkpoint in the database writes the row of this cluster and no
    other; it tries at most five times, and it succeeds only if one of the five
    statements did; after a failure the row is the old or the new one; after a
    success a process that starts reads back exactly what was saved. *)
Theorem mysql_Save_row `{!JsonCodecLaws} ts sec consistent version sp sp' r text :
  mc_closed sp = false -> json_Marshal (my_save_fields ts sec consistent version (mc_fields sp)) = Ret text ->
  mysql_Save ts sec consistent version sp = (sp', r) ->
  (forall k, k <> mc_clusterID sp -> db_rows (mc_db sp') !! k = db_rows (mc_db sp) !! k) /\
  (db_rows (mc_db sp') !! mc_clusterID sp = db_rows (mc_db sp) !! mc_clusterID sp \/
   db_rows (mc_db sp') !! mc_clusterID sp = Some text) /\
  (r = Ret tt ->
    (exists restarted, mysql_Load (fresh_mysql (mc_clusterID sp) (mc_initialCommitTS sp) (mkDB (db_rows (mc_db sp')) [])) = (restarted, Ret tt) /\
      mc_fields restarted = my_default_ts (mc_initialCommitTS sp) (mc_fields sp')) /\
    exists k, (k < 5)%nat /\ exec_replace (mc_clusterID sp) text (attempts (exec_replace (mc_clusterID sp) text) k (mc_db sp)) = (mc_db sp', Ret tt)).
Proof.
  intros Hc Hj. unfold mysql_Save. rewrite Hc, Hj. unfold RetryContext.
  pose proof (retry_replace_rows 5 (mc_clusterID sp) text (Ret tt) (mc_db sp)) as Hrows.
  destruct (retry_loop _ _ 5 _ _) as [db r0] eqn:E. destruct Hrows as (H1 & H2 & H3). intros [= <- <-]. cbn [mc_db].
  split_and!; [done|done|]. intros ->. split.
  { unfold mysql_Load, exec_other, next_exec. cbn [fresh_mysql mc_closed mc_db db_exec db_rows mc_clusterID mc_fields fst snd].
    rewrite H3 by done. rewrite (json_roundtrip _ _ _ Hj). cbn [TsMap]. rewrite (right_id_L ∅ (∪)).
    eexists. split; [reflexivity|]. cbn [mc_fields mc_initialCommitTS]. by destruct (my_save_fields _ _ _ _ _). }
  apply retry_loop_spec in E as (k & Hk & _ & Hr); [by exists k|apply exec_replace_no_panic|done].
Qed.

Lemma cluster_id_loop_spec rows id : 0 < id -> cluster_id_loop rows id =
  match rows with [] => Ret id | _ => Fail (Err "there are multi row in checkpoint table") end.
Proof. intros H. destruct rows; cbn; [by destruct (Z.eqb_spec id 0); [lia|]|by destruct (Z.ltb_spec 0 id); [|lia]]. Qed.

(** Without a configured cluster id, drainer takes the one of the only row of the
    table; it refuses an empty table and a table with several rows. *)
Theorem getClusterID_spec db : (forall k, is_Some (db_rows db !! k) -> 0 < k) -> db_exec db = [] ->
  snd (getClusterID db) =
    match map_to_list (db_rows db) with
    | [] => Fail ErrNoCheckpointItem
    | [(id, _)] => Ret id
    | _ => Fail (Err "there are multi row in checkpoint table")
    end.
Proof.
  intros Hpos He. unfold getClusterID, exec_other, next_exec. rewrite He. cbn [fst snd].
  destruct (map_to_list (db_rows db)) as [|[k v] l] eqn:El; [done|]. cbn [fmap list_fmap fst cluster_id_loop].
  rewrite cluster_id_loop_spec; [by destruct l|]. cbn. apply Hpos. exists v. apply elem_of_map_to_list. rewrite El. left.
Qed.
End Mysql.

Module CheckpointExamples.

(** Any countable type has a codec. *)
Definition to_bytes `{Countable A} (x : A) : list byte :=
  let z := Z.pos (encode x) in le_bytes (Z.to_nat (Z.log2 z + 1)) z.
Definition of_bytes `{Countable A} (b : list byte) : option A :=
  match le_value b with Z.pos p => decode p | _ => None end.

Lemma of_to_bytes `{Countable A} (x : A) : of_bytes (to_bytes x) = Some x.
Proof.
  unfold of_bytes, to_bytes. set (p := encode x). rewrite le_value_bytes.
  pose proof (Z.log2_nonneg (Z.pos p)) as Hl. rewrite Z2Nat.id by lia. rewrite Z.mod_small; [apply decode_encode|].
  split; [lia|]. destruct (Z.log2_spec (Z.pos p)) as [_ H2]; [lia|]. rewrite <- Z.add_1_r in H2.
  apply (Z.lt_le_trans _ _ _ H2). apply Z.pow_le_mono_l. lia.
Qed.

#[local] Instance file_codec : FileCodec := {
  toml_Encode := fun f => Ret (to_bytes (ConsistentSaved f, CommitTS f, Version f));
  toml_Decode := fun b f0 =>
    match of_bytes (A := bool * Z * Z) b with
    | Some (c, ts, v) => (mkFields c ts v, Ret tt)
    | None => (f0, Fail (Err "toml"))
    end;
}.
#[local] Instance file_codec_laws : FileCodecLaws.
Proof. intros [c ts v] b f0 [= <-]. cbn. by rewrite of_to_bytes. Qed.

#[local] Instance json_codec : JsonCodec := {
  json_Marshal := fun f => Ret (to_bytes (my_Consistent f, my_CommitTS f, TsMap f, my_Version f));
  json_Unmarshal := fun b f0 =>
    match of_bytes (A := bool * Z * gmap string Z * Z) b with
    | Some (c, ts, m, v) => (mkMysqlFields c ts (m ∪ TsMap f0) v, Ret tt)
    | None => (f0, Fail (Err "json"))
    end;
}.
#[local] Instance json_codec_laws : JsonCodecLaws.
Proof. intros [c ts m v] b f0 [= <-]. cbn. by rewrite of_to_bytes. Qed.

(** A checkpoint at 7 with version 2, on a disk whose third operation fails. *)
Definition saved : FileFields := mkFields false 7 2.
Definition sp7 : FileCheckPoint := mkFileCP false 0 saved (mkFS (Some (to_bytes (false, 7, 2))) [] [IoOk; IoOk; IoErr]).

Lemma file_crash_safe_witness :
  fc_closed sp7 = false /\ fs_target (fc_disk sp7) = Some (to_bytes (false, 7, 2)) /\
  (let '(f, (states, r)) := file_Save_states 9 true 3 sp7 in r = Fail ErrIO /\ length states = 4%nat /\
    Forall (fun fs => let restart := NewFile 0 (mkFS (fs_target fs) (fs_temps fs) []) in
      snd restart = Ret tt /\
      (fc_fields (fst restart) = default_ts 0 saved \/ (fc_fields (fst restart) = default_ts 0 f /\ r = Ret tt))) states).
Proof.
  split; [reflexivity|]. split; [reflexivity|].
  pose proof (file_crash_safe sp7 (to_bytes (false, 7, 2)) saved 9 true 3 _ eq_refl eq_refl eq_refl eq_refl) as H.
  destruct (file_Save_states 9 true 3 sp7) as [f [states r]] eqn:E. destruct H as [H _].
  assert (Hr : r = Fail ErrIO /\ length states = 4%nat) by (vm_compute in E; injection E as <- <- <-; split; reflexivity).
  split; [apply Hr|]. split; [apply Hr|exact H].
Defined.

Definition row7 : list byte := to_bytes (false, 7, (∅ : gmap string Z), 2).
Definition my7 : MysqlCheckPoint :=
  mkMysqlCP false 5 0 (mkMysqlFields false 7 ∅ 2) (mkDB {[5 := row7; 6 := []]} [ExecErr; ExecLost]).

Lemma mysql_Save_row_witness :
  let '(sp', r) := mysql_Save 9 4 false 3 my7 in
  r = Ret tt /\ db_rows (mc_db sp') !! 6 = Some [] /\
  exists restarted, mysql_Load (fresh_mysql 5 0 (mkDB (db_rows (mc_db sp')) [])) = (restarted, Ret tt) /\
    mc_fields restarted = my_default_ts 0 (mc_fields sp').
Proof.
  destruct (mysql_Save 9 4 false 3 my7) as [sp' r] eqn:E.
  assert (Hr : r = Ret tt) by (apply (f_equal snd) in E; vm_compute in E; by rewrite <- E).
  destruct (mysql_Save_row 9 4 false 3 my7 sp' r (to_bytes (false, 9, (<["secondary-ts"%string := 4]> (<["primary-ts"%string := 9]> ∅) : gmap string Z), 3)))
    as (H1 & _ & H3); [reflexivity|reflexivity|exact E|].
  split; [exact Hr|]. split; [rewrite (H1 6) by done; reflexivity|]. exact (proj1 (H3 Hr)).
Defined.

Lemma getClusterID_spec_witness :
  snd (getClusterID (mkDB {[5 := row7]} [])) = Ret 5.
Proof.
  rewrite (getClusterID_spec (mkDB {[5 := row7]} [])); [reflexivity| |reflexivity].
  intros k [v Hv]. cbn [db_rows] in Hv. apply lookup_singleton_Some in Hv as [<- _]. lia.
Defined.
End CheckpointExamples.
