(* ===== verification/Mutation.v ===== *)
(** * Mutation
    The rows that a transaction changes ([TableMutation] of the binlog messages):
    how drainer iterates over them ([drainer/translator/sequence_iterator.go]),
    drops those of truncated tables and those that its filters exclude
    ([rewriteForOldVersion], [skipDMLEvent] and [skipByFilter] of
    [drainer/syncer.go]). The event filter ([binlog-filter]) is a parameter. *)
From Stdlib Require Import Init.Byte.
From stdpp Require Import base option list gmap strings.
From S2P Require Import Prelude Schema.

(** ** Messages *)

Inductive MutationType := MT_Insert | MT_Update | MT_DeleteID | MT_DeletePK | MT_DeleteRow.

#[export] Instance MutationType_eq_dec : EqDecision MutationType.
Proof. solve_decision. Defined.

Record TableMutation := mkMutation {
  TableId : Z;
  InsertedRows : list (list byte);
  UpdatedRows : list (list byte);
  DeletedRows : list (list byte);
  Sequence : list MutationType;
}.

Record PrewriteValue := mkPrewriteValue { pv_SchemaVersion : Z; Mutations : list TableMutation }.

(** A change of a row. *)
Definition event : Type := MutationType * list byte.

(** The changes in their order: every entry of [Sequence] takes the next row of its
    kind. [None] when rows are missing or left over, or for a kind of entry that
    drainer does not know. *)
Fixpoint events_of (seq : list MutationType) (ins upd del : list (list byte)) : option (list event) :=
  match seq with
  | [] => match ins, upd, del with [], [], [] => Some [] | _, _, _ => None end
  | MT_Insert :: seq =>
    match ins with r :: ins => cons (MT_Insert, r) <$> events_of seq ins upd del | [] => None end
  | MT_Update :: seq =>
    match upd with r :: upd => cons (MT_Update, r) <$> events_of seq ins upd del | [] => None end
  | MT_DeleteRow :: seq =>
    match del with r :: del => cons (MT_DeleteRow, r) <$> events_of seq ins upd del | [] => None end
  | _ => None
  end.

Definition events (m : TableMutation) : option (list event) :=
  events_of (Sequence m) (InsertedRows m) (UpdatedRows m) (DeletedRows m).

(** ** Reading and writing slices *)

Definition get_at {A} (l : list A) (i : nat) : outcome A := match l !! i with Some x => Ret x | None => Panic end.
Definition set_at {A} (l : list A) (i : nat) (x : A) : outcome (list A) :=
  if (i <? length l)%nat then Ret (<[i := x]> l) else Panic.

(** ** The iterator *)

Record sequenceIterator := mkIter { it_mutation : TableMutation; it_idx : nat; it_insertIdx : nat; it_deleteIdx : nat; it_updateIdx : nat }.

Definition newSequenceIterator (m : TableMutation) : sequenceIterator := mkIter m 0 0 0 0.

Definition ErrUnknownMutation : error := Err "unknown mutation type".

(** [next]: the iterator after the call, and the kind and row or an error. *)
Definition next (si : sequenceIterator) : sequenceIterator * outcome event :=
  let m := it_mutation si in
  if (length (Sequence m) <=? it_idx si)%nat then (si, Fail EOF)
  else
    match Sequence m !! it_idx si with
    | None => (si, Panic)
    | Some tp =>
      let i := S (it_idx si) in
      match tp with
      | MT_Insert =>
        match get_at (InsertedRows m) (it_insertIdx si) with
        | Ret row => (mkIter m i (S (it_insertIdx si)) (it_deleteIdx si) (it_updateIdx si), Ret (tp, row))
        | _ => (mkIter m i (it_insertIdx si) (it_deleteIdx si) (it_updateIdx si), Panic)
        end
      | MT_Update =>
        match get_at (UpdatedRows m) (it_updateIdx si) with
        | Ret row => (mkIter m i (it_insertIdx si) (it_deleteIdx si) (S (it_updateIdx si)), Ret (tp, row))
        | _ => (mkIter m i (it_insertIdx si) (it_deleteIdx si) (it_updateIdx si), Panic)
        end
      | MT_DeleteRow =>
        match get_at (DeletedRows m) (it_deleteIdx si) with
        | Ret row => (mkIter m i (it_insertIdx si) (S (it_deleteIdx si)) (it_updateIdx si), Ret (tp, row))
        | _ => (mkIter m i (it_insertIdx si) (it_deleteIdx si) (it_updateIdx si), Panic)
        end
      | _ => (mkIter m i (it_insertIdx si) (it_deleteIdx si) (it_updateIdx si), Fail ErrUnknownMutation)
      end
    end.

(** The loop that its clients run: until the end of the sequence. *)
Fixpoint drain (fuel : nat) (si : sequenceIterator) : outcome (list event) :=
  match fuel with
  | O => Panic
  | S fuel =>
    match next si with
    | (_, Fail EOF) => Ret []
    | (_, Fail e) => Fail e
    | (_, Panic) => Panic
    | (si, Ret ev) => let! evs := drain fuel si in Ret (ev :: evs)
    end
  end.

Lemma get_at_drop {A} (l : list A) i x rest : drop i l = x :: rest -> get_at l i = Ret x /\ drop (S i) l = rest.
Proof.
  intros H. unfold get_at. assert (Hl : l !! i = Some x) by by rewrite <- (Nat.add_0_r i), <- lookup_drop, H.
  split; [by rewrite Hl|]. apply drop_S in Hl. congruence.
Qed.

Lemma drain_events fuel m i a b c evs : (length (drop i (Sequence m)) < fuel)%nat ->
  events_of (drop i (Sequence m)) (drop a (InsertedRows m)) (drop c (UpdatedRows m)) (drop b (DeletedRows m)) = Some evs ->
  drain fuel (mkIter m i a b c) = Ret evs.
Proof.
  revert i a b c evs. induction fuel as [|fuel IH]; intros i a b c evs Hf; [lia|].
  cbn [drain]. unfold next. cbn [it_mutation it_idx it_insertIdx it_deleteIdx it_updateIdx].
  rewrite length_drop in Hf. destruct (drop i (Sequence m)) as [|tp rest] eqn:Hs; cbn [events_of].
  - apply (f_equal length) in Hs. rewrite length_drop in Hs. simpl in Hs.
    destruct (Nat.leb_spec (length (Sequence m)) i); [|lia].
    by destruct (drop a (InsertedRows m)), (drop c (UpdatedRows m)), (drop b (DeletedRows m)); intros [= <-].
  - pose proof (f_equal length Hs) as Hlen. rewrite length_drop in Hlen. simpl in Hlen.
    destruct (get_at_drop _ _ _ _ Hs) as [Hg Hrest]. unfold get_at in Hg.
    destruct (Sequence m !! i) as [tp'|] eqn:Hi; [|done]. injection Hg as ->.
    destruct (Nat.leb_spec (length (Sequence m)) i); [lia|].
    destruct tp; [| |done|done|].
    + destruct (drop a (InsertedRows m)) as [|r ins] eqn:Ha; [done|]. destruct (get_at_drop _ _ _ _ Ha) as [-> Ha'].
      destruct (events_of rest ins _ _) as [evs'|] eqn:E; [|done]. intros [= <-]. erewrite IH; [reflexivity|rewrite length_drop; lia|].
      by rewrite Hrest, Ha'.
    + destruct (drop c (UpdatedRows m)) as [|r upd] eqn:Ha; [done|]. destruct (get_at_drop _ _ _ _ Ha) as [-> Ha'].
      destruct (events_of rest _ upd _) as [evs'|] eqn:E; [|done]. intros [= <-]. erewrite IH; [reflexivity|rewrite length_drop; lia|].
      by rewrite Hrest, Ha'.
    + destruct (drop b (DeletedRows m)) as [|r del] eqn:Ha; [done|]. destruct (get_at_drop _ _ _ _ Ha) as [-> Ha'].
      destruct (events_of rest _ _ del) as [evs'|] eqn:E; [|done]. intros [= <-]. erewrite IH; [reflexivity|rewrite length_drop; lia|].
      by rewrite Hrest, Ha'.
Qed.

Lemma drain_all m evs : events m = Some evs -> drain (S (length (Sequence m))) (newSequenceIterator m) = Ret evs.
Proof. intros H. apply drain_events; rewrite ?drop_0; [lia|done]. Qed.

(** ** The event filter *)

Inductive EventType := NullEvent | InsertEvent | UpdateEvent | DeleteEvent | OtherEvent (n : Z).
Inductive ActionKind := Action_Do | Action_Ignore.

(** [BinlogEvent.Filter] for a schema, a table, a kind of event and a statement. *)
Definition EventFilter : Type := string -> string -> EventType -> string -> outcome ActionKind.

(** [skipByFilter]; without a filter nothing is skipped. *)
Definition skipByFilter (binlogFilter : option EventFilter) (schemaName tableName : string) (et : EventType) (sql : string) : outcome bool :=
  match binlogFilter with
  | None => Ret false
  | Some f =>
    let! action := f schemaName tableName et sql in
    Ret (match action with Action_Ignore => true | Action_Do => false end)
  end.

(** ** Filtering the rows of a table in place *)

(** The slices of the mutation and the indices of the loop: entries read of every
    kind, and entries kept. *)
Record skip_state := mkSkip {
  k_seq : list MutationType; k_ins : list (list byte); k_upd : list (list byte); k_del : list (list byte);
  insertIdx : nat; updateIdx : nat; deleteIdx : nat;
  filteredIdx : nat; filteredInsertIdx : nat; filteredUpdateIdx : nat; filteredDeleteIdx : nat;
}.

Section SkipRows.
(** [skipByFilter] for the table at hand. *)
Variable needSkip : EventType -> outcome bool.

(** The body of the loop for the entry [i]. *)
Definition skip_step (i : nat) (st : skip_state) : outcome skip_state :=
  let! tp := get_at (k_seq st) i in
  match tp with
  | MT_Insert =>
    let ii := S (insertIdx st) in
    let! skip := needSkip InsertEvent in
    if skip : bool then
      Ret (mkSkip (k_seq st) (k_ins st) (k_upd st) (k_del st) ii (updateIdx st) (deleteIdx st)
        (filteredIdx st) (filteredInsertIdx st) (filteredUpdateIdx st) (filteredDeleteIdx st))
    else
      let! seq := set_at (k_seq st) (filteredIdx st) tp in
      let! row := get_at (k_ins st) (ii - 1) in
      let! ins := set_at (k_ins st) (filteredInsertIdx st) row in
      Ret (mkSkip seq ins (k_upd st) (k_del st) ii (updateIdx st) (deleteIdx st)
        (S (filteredIdx st)) (S (filteredInsertIdx st)) (filteredUpdateIdx st) (filteredDeleteIdx st))
  | MT_Update =>
    let ui := S (updateIdx st) in
    let! skip := needSkip UpdateEvent in
    if skip : bool then
      Ret (mkSkip (k_seq st) (k_ins st) (k_upd st) (k_del st) (insertIdx st) ui (deleteIdx st)
        (filteredIdx st) (filteredInsertIdx st) (filteredUpdateIdx st) (filteredDeleteIdx st))
    else
      let! seq := set_at (k_seq st) (filteredIdx st) tp in
      let! row := get_at (k_upd st) (ui - 1) in
      let! upd := set_at (k_upd st) (filteredUpdateIdx st) row in
      Ret (mkSkip seq (k_ins st) upd (k_del st) (insertIdx st) ui (deleteIdx st)
        (S (filteredIdx st)) (filteredInsertIdx st) (S (filteredUpdateIdx st)) (filteredDeleteIdx st))
  | MT_DeleteRow =>
    let di := S (deleteIdx st) in
    let! skip := needSkip DeleteEvent in
    if skip : bool then
      Ret (mkSkip (k_seq st) (k_ins st) (k_upd st) (k_del st) (insertIdx st) (updateIdx st) di
        (filteredIdx st) (filteredInsertIdx st) (filteredUpdateIdx st) (filteredDeleteIdx st))
    else
      let! seq := set_at (k_seq st) (filteredIdx st) tp in
      let! row := get_at (k_del st) (di - 1) in
      let! del := set_at (k_del st) (filteredDeleteIdx st) row in
      Ret (mkSkip seq (k_ins st) (k_upd st) del (insertIdx st) (updateIdx st) di
        (S (filteredIdx st)) (filteredInsertIdx st) (filteredUpdateIdx st) (S (filteredDeleteIdx st)))
  | _ => Fail ErrUnknownMutation
  end.

(** [for i, tp := range mutation.Sequence], [n] entries left. *)
Fixpoint skip_loop (n i : nat) (st : skip_state) : outcome skip_state :=
  match n with
  | O => Ret st
  | S n => let! st := skip_step i st in skip_loop n (S i) st
  end.

(** The mutation with its slices cut. *)
Definition skip_rows (m : TableMutation) : outcome TableMutation :=
  let! st := skip_loop (length (Sequence m)) 0
    (mkSkip (Sequence m) (InsertedRows m) (UpdatedRows m) (DeletedRows m) 0 0 0 0 0 0 0) in
  Ret (mkMutation (TableId m) (take (filteredInsertIdx st) (k_ins st)) (take (filteredUpdateIdx st) (k_upd st))
    (take (filteredDeleteIdx st) (k_del st)) (take (filteredIdx st) (k_seq st))).
End SkipRows.

(** *** Compacting a slice in place *)

(** After [r] entries were read and [w] of them kept: the kept ones, what lies between
    the two indices, the entries to come. *)
Definition compacting {A} (l : list A) (w r : nat) (kept rest : list A) : Prop :=
  exists junk, l = kept ++ junk ++ rest /\ w = length kept /\ r = (length kept + length junk)%nat.

Lemma compacting_start {A} (l : list A) : compacting l 0 0 [] l.
Proof. by exists []. Qed.

Lemma compacting_read {A} (l : list A) w r kept x rest : compacting l w r kept (x :: rest) -> get_at l r = Ret x.
Proof.
  intros (junk & -> & -> & ->). unfold get_at. rewrite app_assoc, lookup_app_r by (rewrite length_app; lia).
  by rewrite length_app, Nat.sub_diag.
Qed.

Lemma compacting_skip {A} (l : list A) w r kept x rest : compacting l w r kept (x :: rest) -> compacting l w (S r) kept rest.
Proof.
  intros (junk & -> & -> & ->). exists (junk ++ [x]). rewrite length_app. simpl. split_and!; [|done|lia].
  by rewrite <- (assoc_L (++)).
Qed.

Lemma compacting_keep {A} (l : list A) w r kept x rest : compacting l w r kept (x :: rest) ->
  exists l', set_at l w x = Ret l' /\ compacting l' (S w) (S r) (kept ++ [x]) rest.
Proof.
  intros (junk & -> & -> & ->). unfold set_at. rewrite !length_app. simpl.
  destruct (Nat.ltb_spec (length kept) (length kept + (length junk + S (length rest)))); [|lia].
  eexists. split; [done|]. rewrite <- (Nat.add_0_r (length kept)) at 1. rewrite insert_app_r.
  destruct junk as [|y junk]; cbn [app insert list_insert].
  - exists []. rewrite length_app. simpl. split_and!; [by rewrite <- (assoc_L (++))|lia|lia].
  - exists (junk ++ [x]). rewrite !length_app. simpl. split_and!; [|lia|lia]. by rewrite <- !(assoc_L (++)).
Qed.

Lemma compacting_cut {A} (l : list A) w r kept rest : compacting l w r kept rest -> take w l = kept.
Proof. intros (junk & -> & -> & _). by rewrite take_app_length. Qed.

(** *** What is left of a mutation *)

Definition event_type (tp : MutationType) : EventType :=
  match tp with MT_Insert => InsertEvent | MT_Update => UpdateEvent | MT_DeleteRow => DeleteEvent | _ => NullEvent end.

(** The cut slices after the loop, with what was kept before. *)
Record cut_to (st : skip_state) (seq : list MutationType) (ins upd del : list (list byte)) : Prop := {
  cut_seq : take (filteredIdx st) (k_seq st) = seq;
  cut_ins : take (filteredInsertIdx st) (k_ins st) = ins;
  cut_upd : take (filteredUpdateIdx st) (k_upd st) = upd;
  cut_del : take (filteredDeleteIdx st) (k_del st) = del;
}.

Section SkipSpec.
Variable needSkip : EventType -> outcome bool.
Variable skip : EventType -> bool.
Hypothesis Hskip : forall et, needSkip et = Ret (skip et).

(** The events that are not skipped. *)
Definition keep_events (evs : list event) : list event := List.filter (fun e => negb (skip (event_type (fst e)))) evs.

(** The case of an entry whose rows are [rows]: skipped, or kept in both slices. *)
Ltac skip_case rows Cs Crows IH :=
  destruct rows as [|r rows]; [done|];
  match goal with He : _ <$> ?o = Some _ |- _ => destruct o as [evs'|] eqn:E; [|done]; injection He as <- end;
  rewrite Hskip; cbn [obind keep_events List.filter fst event_type];
  match goal with |- context [skip ?et] => destruct (skip et); cbn [obind negb] end;
  [eapply IH; cbn; eauto using compacting_skip|];
  destruct (compacting_keep _ _ _ _ _ _ Cs) as (seq1 & -> & Cs1); cbn [obind]; rewrite Nat.sub_succ, Nat.sub_0_r;
  rewrite (compacting_read _ _ _ _ _ _ Crows); cbn [obind];
  destruct (compacting_keep _ _ _ _ _ _ Crows) as (rows1 & -> & Crows1); cbn [obind];
  match goal with |- context [skip_loop _ _ ?j ?st1] =>
    edestruct (IH j st1) as (st' & seq' & ins' & upd' & del' & H1 & [H2 H3 H4 H5] & H6); [eassumption|done..|] end;
  rewrite <- !(assoc_L (++)) in *.

Lemma skip_loop_spec seq : forall i st ks ki ku kd ins upd del evs,
  events_of seq ins upd del = Some evs ->
  compacting (k_seq st) (filteredIdx st) i ks seq ->
  compacting (k_ins st) (filteredInsertIdx st) (insertIdx st) ki ins ->
  compacting (k_upd st) (filteredUpdateIdx st) (updateIdx st) ku upd ->
  compacting (k_del st) (filteredDeleteIdx st) (deleteIdx st) kd del ->
  exists st' seq' ins' upd' del', skip_loop needSkip (length seq) i st = Ret st' /\
    cut_to st' (ks ++ seq') (ki ++ ins') (ku ++ upd') (kd ++ del') /\
    events_of seq' ins' upd' del' = Some (keep_events evs).
Proof.
  induction seq as [|tp seq IH]; intros i st ks ki ku kd ins upd del evs; cbn [events_of length skip_loop].
  { destruct ins, upd, del; try done. intros [= <-] Cs Ci Cu Cd. exists st, [], [], [], []. rewrite !app_nil_r.
    split_and!; [done| |done]. split; by eapply compacting_cut. }
  intros He Cs Ci Cu Cd. unfold skip_step. rewrite (compacting_read _ _ _ _ _ _ Cs). cbn [obind].
  destruct tp; try done.
  - skip_case ins Cs Ci IH. exists st', (MT_Insert :: seq'), (r :: ins'), upd', del'. cbn [events_of]. by rewrite H6.
  - skip_case upd Cs Cu IH. exists st', (MT_Update :: seq'), ins', (r :: upd'), del'. cbn [events_of]. by rewrite H6.
  - skip_case del Cs Cd IH. exists st', (MT_DeleteRow :: seq'), ins', upd', (r :: del'). cbn [events_of]. by rewrite H6.
Qed.

Lemma skip_rows_events m evs : events m = Some evs ->
  exists m', skip_rows needSkip m = Ret m' /\ TableId m' = TableId m /\ events m' = Some (keep_events evs).
Proof.
  intros He. unfold skip_rows.
  destruct (skip_loop_spec _ 0 (mkSkip (Sequence m) (InsertedRows m) (UpdatedRows m) (DeletedRows m) 0 0 0 0 0 0 0)
    [] [] [] [] _ _ _ _ He) as (st' & seq' & ins' & upd' & del' & H1 & [H2 H3 H4 H5] & H6); [apply compacting_start..|].
  rewrite H1. cbn [obind]. eexists. split; [done|]. split; [done|]. unfold events. cbn.
  rewrite H2, H3, H4, H5. exact H6.
Qed.
End SkipSpec.

(** ** Filtering a transaction *)

Section Filters.
(** [filter.SkipSchemaAndTable]. *)
Variable skipTable : string -> string -> bool.

Fixpoint skip_mutations (schema : Schema) (binlogFilter : option EventFilter) (ms muts : list TableMutation) : outcome (list TableMutation) :=
  match ms with
  | [] => Ret muts
  | mutation :: ms =>
    let '(schemaName, tableName, ok) := SchemaAndTableName (TableId mutation) schema in
    if negb ok then Fail (Err "not found table id")
    else if skipTable schemaName tableName then skip_mutations schema binlogFilter ms muts
    else
      let! mutation :=
        match binlogFilter with
        | Some _ => skip_rows (fun et => skipByFilter binlogFilter schemaName tableName et "") mutation
        | None => Ret mutation
        end in
      skip_mutations schema binlogFilter ms (muts ++ [mutation])
  end.

(** [skipDMLEvent]: the value with what is left, and whether nothing is. *)
Definition skipDMLEvent (pv : PrewriteValue) (schema : Schema) (binlogFilter : option EventFilter) : outcome (PrewriteValue * bool) :=
  let! muts := skip_mutations schema binlogFilter (Mutations pv) [] in
  Ret (mkPrewriteValue (pv_SchemaVersion pv) muts, (length muts =? 0)%nat).

(** What the transaction does: for every mutation its table and its events. *)
Definition changes (ms : list TableMutation) : list (Z * option (list event)) := (fun m => (TableId m, events m)) <$> ms.

Definition table_name_of (schema : Schema) (id : Z) : string * string :=
  let '(s, t, _) := SchemaAndTableName id schema in (s, t).

Definition table_skipped (schema : Schema) (m : TableMutation) : bool :=
  skipTable (fst (table_name_of schema (TableId m))) (snd (table_name_of schema (TableId m))).

(** The filters applied to one table's changes. *)
Definition filtered (schema : Schema) (skip : string -> string -> EventType -> bool) (c : Z * option (list event)) : Z * option (list event) :=
  let names := table_name_of schema (fst c) in (fst c, keep_events (skip (fst names) (snd names)) <$> snd c).

Lemma skip_mutations_spec schema f skip ms : forall muts,
  (forall sn tn et sql, f sn tn et sql = Ret (if skip sn tn et : bool then Action_Ignore else Action_Do)) ->
  Forall (fun m => is_Some (tableIDToName schema !! TableId m) /\ is_Some (events m)) ms ->
  exists muts', skip_mutations schema (Some f) ms muts = Ret (muts ++ muts') /\
    changes muts' = filtered schema skip <$> changes (List.filter (fun m => negb (table_skipped schema m)) ms).
Proof.
  intros muts Hf Hall. revert muts. induction Hall as [|m ms [[tn Htn] [evs Hev]] Hall IH]; intros muts; cbn [skip_mutations].
  { exists []. by rewrite app_nil_r. }
  assert (Hname : SchemaAndTableName (TableId m) schema = (tn_Schema tn, tn_Table tn, true)) by (unfold SchemaAndTableName; by rewrite Htn).
  cbn [List.filter]. unfold table_skipped at 1, table_name_of. rewrite Hname. cbn [negb fst snd].
  destruct (skipTable (tn_Schema tn) (tn_Table tn)); cbn [negb]; [apply IH|].
  destruct (skip_rows_events (fun et => skipByFilter (Some f) (tn_Schema tn) (tn_Table tn) et "") (skip (tn_Schema tn) (tn_Table tn)))
    with (m := m) (evs := evs) as (m' & H1 & H2 & H3); [|done|].
  { intros et. unfold skipByFilter. rewrite Hf. cbn [obind]. by destruct (skip _ _ _). }
  rewrite H1. cbn [obind]. destruct (IH (muts ++ [m'])) as (muts' & H4 & H5). exists (m' :: muts').
  rewrite H4, <- (assoc_L (++)). split; [done|]. unfold changes in *. rewrite !fmap_cons, H5. f_equal.
  rewrite H2, H3. unfold filtered, table_name_of. cbn [fst snd]. rewrite Hname, Hev. done.
Qed.

(** C7: filtering the rows of a transaction in place keeps exactly the changes that
    the table filter and the event filter let through, in their order and with
    their rows: the indices that the loop compacts the four slices with never run
    over, never mix up rows, and leave a well-formed mutation; the transaction is
    ignored only when no table of it is left. *)
Theorem skipDMLEvent_spec pv schema f skip :
  (forall sn tn et sql, f sn tn et sql = Ret (if skip sn tn et : bool then Action_Ignore else Action_Do)) ->
  Forall (fun m => is_Some (tableIDToName schema !! TableId m) /\ is_Some (events m)) (Mutations pv) ->
  exists pv' ignore, skipDMLEvent pv schema (Some f) = Ret (pv', ignore) /\
    pv_SchemaVersion pv' = pv_SchemaVersion pv /\
    changes (Mutations pv') =
      filtered schema skip <$> changes (List.filter (fun m => negb (table_skipped schema m)) (Mutations pv)) /\
    (ignore = true <-> Forall (fun m => table_skipped schema m = true) (Mutations pv)).
Proof.
  intros Hf Hall. destruct (skip_mutations_spec schema f skip (Mutations pv) [] Hf Hall) as (muts' & H1 & H2).
  unfold skipDMLEvent. rewrite H1. cbn [obind app]. eexists _, _. split; [done|]. split; [done|]. split; [exact H2|].
  apply (f_equal length) in H2. unfold changes in H2. rewrite !length_fmap in H2. rewrite H2, Nat.eqb_eq, length_zero_iff_nil.
  clear. induction (Mutations pv) as [|m ms IH]; cbn [List.filter]; [split; [constructor|done]|].
  rewrite Forall_cons_iff. destruct (table_skipped schema m); cbn [negb]; [rewrite IH; tauto|]. split; [done|by intros [? ?]].
Qed.

End Filters.

(** ** Old versions *)

(** [rewriteForOldVersion]: the mutations of truncated tables are dropped. *)
Definition rewriteForOldVersion (schema : Schema) (pv : PrewriteValue) : PrewriteValue :=
  mkPrewriteValue (pv_SchemaVersion pv)
    (List.filter (fun m => negb (IsTruncateTableID (TableId m) schema)) (Mutations pv)).

Module MutationExamples.
Definition row (z : Z) : list byte := [byte_of_Z z].

(** Two inserts, a delete and an update of table 10. *)
Definition m10 : TableMutation :=
  mkMutation 10 [row 1; row 2] [row 3] [row 4] [MT_Insert; MT_DeleteRow; MT_Update; MT_Insert].
Definition m11 : TableMutation := mkMutation 11 [row 9] [] [] [MT_Insert].
Definition pv : PrewriteValue := mkPrewriteValue 3 [m10; m11].

Definition schema : Schema := set_names {[10 := mkTableName "shop" "items"; 11 := mkTableName "shop" "log"]} (NewSchema [] false).
Definition skip_log (s t : string) : bool := bool_decide (t = "log"%string).
Definition no_deletes (s t : string) (et : EventType) : bool := match et with DeleteEvent => true | _ => false end.
Definition the_filter : EventFilter := fun s t et sql => Ret (if no_deletes s t et then Action_Ignore else Action_Do).

Lemma skipDMLEvent_spec_witness :
  exists pv' ignore, skipDMLEvent skip_log pv schema (Some the_filter) = Ret (pv', ignore) /\
    ignore = false /\
    changes (Mutations pv') = [(10, Some [(MT_Insert, row 1); (MT_Update, row 3); (MT_Insert, row 2)])].
Proof.
  destruct (skipDMLEvent_spec skip_log pv schema the_filter no_deletes) as (pv' & ignore & H1 & _ & H3 & H4).
  - reflexivity.
  - repeat constructor; eexists; reflexivity.
  - exists pv', ignore. split; [exact H1|]. split; [|exact H3].
    destruct ignore; [|reflexivity]. destruct H4 as [H4 _]. specialize (H4 eq_refl).
    apply Forall_cons_iff in H4 as [H4 _]. vm_compute in H4. discriminate.
Defined.

(** An event filter that drops every row of a table leaves the transaction, without
    rows: it is not ignored. *)
Definition nothing : EventFilter := fun _ _ _ _ => Ret Action_Ignore.
Lemma emptied_not_ignored :
  skipDMLEvent (fun _ _ => false) (mkPrewriteValue 3 [m11]) schema (Some nothing) =
    Ret (mkPrewriteValue 3 [mkMutation 11 [] [] [] []], false).
Proof. vm_compute. reflexivity. Qed.
End MutationExamples.
