(* ===== verification/Syncer.v ===== *)
(** * Syncer
    The loop of drainer between the merger and the downstream
    ([drainer/syncer.go]): what is done with every binlog, the fake binlogs that
    move the checkpoint while nothing is to be synchronised, and the goroutine
    that saves the checkpoint as the downstream reports successes. *)
From Stdlib Require Import Init.Byte.
From stdpp Require Import base option list gmap strings sorting relations.
From S2P Require Import Prelude Binlog MergeStrategy Schema Mutation Checkpoint LoaderModel.

(** ** Data *)

(** [dsync.Item]. *)
Record Item := mkItem {
  it_Binlog : Binlog;
  it_PrewriteValue : option Mutation.PrewriteValue;
  it_Schema : string;
  it_Table : string;
  it_SchemaVersion : Z;
  it_ShouldSkip : bool;
}.

Definition item_ts (it : Item) : Z := CommitTs (it_Binlog it).

(** [oracle.GetTimeFromTS], in milliseconds: the physical part of a timestamp. *)
Definition physical (ts : Z) : Z := Z.shiftr (wrap_u64 ts) 18.

Fixpoint isIgnoreTxnCommitTS (ignoreTxnCommitTS : list Z) (ts : Z) : bool :=
  match ignoreTxnCommitTS with
  | [] => false
  | i :: rest => if i =? ts then true else isIgnoreTxnCommitTS rest ts
  end.

(** The settings that the loop reads. *)
Record Config := mkConfig { IgnoreTxnCommitTS : list Z; SyncDDL : bool; DestDBType : string }.

(** [LoopBackSync]. *)
Record LoopBackSync := mkLoopBack { lb_ChannelID : Z; LoopbackControl : bool }.

Definition MarkTableName : string := "retl._drainer_repl_mark".
Definition ChannelID : string := "channel_id".

(** ** Code that the loop calls and that is not modelled here *)

Class SyncerEnv := {
  (** [preWrite.Unmarshal] *)
  unmarshal_prewrite : list byte -> outcome Mutation.PrewriteValue;
  (** [filter.SkipSchemaAndTable] *)
  skip_table : string -> string -> bool;
  (** the event filter, when there is one *)
  binlog_filter : option EventFilter;
  (** [ParseOneStmt] and [AstToDDLEvent]: the kind of a statement that parses *)
  parse_event : string -> option EventType;
  (** [TiBinlogToTxn], for the loopback mark *)
  to_dmls : Schema -> Binlog -> Mutation.PrewriteValue -> outcome (list DML);
  (** [strings.EqualFold] *)
  equal_fold : string -> string -> bool;
}.

Section Process.
Context {env : SyncerEnv}.
Variable cfg : Config.
Variable loopback : option LoopBackSync.

(** [findLoopBackMark]. *)
Fixpoint findLoopBackMark (dmls : list DML) (info : LoopBackSync) : outcome bool :=
  match dmls with
  | [] => Ret false
  | dml :: dmls =>
    if equal_fold (Database dml +:+ "." +:+ Table dml) MarkTableName then
      match Values dml !! ChannelID with
      | Some (VInt64 c) => if c =? lb_ChannelID info then Ret true else findLoopBackMark dmls info
      | Some _ => Fail (Err "wrong type of channelID")
      | None => findLoopBackMark dmls info
      end
    else findLoopBackMark dmls info
  end.

(** [loopBackStatus]. *)
Definition loopBackStatus (b : Binlog) (pv : Mutation.PrewriteValue) (schema : Schema) (info : LoopBackSync) : outcome bool :=
  let! dmls := to_dmls schema b pv in findLoopBackMark dmls info.

(** [skipDDLEvent]. *)
Definition skipDDLEvent (sql schema table : string) : outcome bool :=
  match binlog_filter with
  | None => Ret false
  | Some _ =>
    match parse_event sql with
    | None => skipByFilter binlog_filter schema table NullEvent sql
    | Some et => skipByFilter binlog_filter schema table et sql
    end
  end.

(** ** The state of the loop *)

Record RunState := mkRun {
  rs_schema : Schema;
  fakeBinlogs : list Binlog;
  fakeBinlogPreAddTS : list Z;
  pushFakeBinlog : option Binlog;  (** the fake binlog on offer, when the channel is set *)
  lastAddCommitTS : Z;
  lastFakeCommitTime : option Z;   (** [None]: the zero time, further than 3 s from any other *)
  lastDDLSchemaVersion : Z;
}.

Definition set_schema (s : Schema) (r : RunState) : RunState :=
  mkRun s (fakeBinlogs r) (fakeBinlogPreAddTS r) (pushFakeBinlog r) (lastAddCommitTS r) (lastFakeCommitTime r) (lastDDLSchemaVersion r).
Definition set_lastAdd (ts : Z) (r : RunState) : RunState :=
  mkRun (rs_schema r) (fakeBinlogs r) (fakeBinlogPreAddTS r) (pushFakeBinlog r) ts (lastFakeCommitTime r) (lastDDLSchemaVersion r).
Definition set_lastDDL (v : Z) (r : RunState) : RunState :=
  mkRun (rs_schema r) (fakeBinlogs r) (fakeBinlogPreAddTS r) (pushFakeBinlog r) (lastAddCommitTS r) (lastFakeCommitTime r) v.

(** [appendFakeBinlogIfNeeded]. *)
Definition appendFakeBinlogIfNeeded (binlog : option Binlog) (commitTS : Z) (r : RunState) : RunState :=
  let t := physical commitTS in
  let apart := match lastFakeCommitTime r with None => true | Some t0 => 3000 <? t - t0 end in
  if apart then
    let b := match binlog with Some b => b | None => GenFakeBinlog commitTS end in
    mkRun (rs_schema r) (fakeBinlogs r ++ [b]) (fakeBinlogPreAddTS r ++ [lastAddCommitTS r]) (pushFakeBinlog r)
      (lastAddCommitTS r) (Some t) (lastDDLSchemaVersion r)
  else r.

(** The start of an iteration: a fake binlog is offered once the items added before
    it have been reported. *)
Definition loop_head (lastSuccessTS : Z) (r : RunState) : RunState :=
  match pushFakeBinlog r, fakeBinlogs r, fakeBinlogPreAddTS r with
  | None, b :: bs, pre :: pres =>
    if pre <=? lastSuccessTS
    then mkRun (rs_schema r) bs pres (Some b) (lastAddCommitTS r) (lastFakeCommitTime r) (lastDDLSchemaVersion r)
    else r
  | _, _, _ => r
  end.

(** ** One binlog *)

(** How the rest of an iteration ends: the next one starts, with an item given to the
    downstream first or not; the loop is left with an error; the program panics. *)
Inductive verdict := Skip | Add (it : Item) | Stop (e : error) | Crash.

(** Run an operation of the schema and go on with its result. *)
Definition on_schema {A} (c : M A) (r : RunState) (k : A -> RunState -> RunState * verdict) : RunState * verdict :=
  match c (rs_schema r) with
  | (s, Ret a) => k a (set_schema s r)
  | (s, Fail e) => (set_schema s r, Stop e)
  | (s, Panic) => (set_schema s r, Crash)
  end.

(** Go on with the result of a computation. *)
Definition on_result {A} (c : outcome A) (r : RunState) (k : A -> RunState * verdict) : RunState * verdict :=
  match c with
  | Ret a => k a
  | Fail e => (r, Stop e)
  | Panic => (r, Crash)
  end.

(** A transaction that changes rows. *)
Definition process_dml (b : Binlog) (r : RunState) : RunState * verdict :=
  on_result (unmarshal_prewrite (Binlog.PrewriteValue b)) r (fun preWrite =>
  let preWrite := rewriteForOldVersion (rs_schema r) preWrite in
  on_schema (handlePreviousDDLJobIfNeed (pv_SchemaVersion preWrite)) r (fun _ r =>
  on_result
    (match loopback with
     | Some info => if LoopbackControl info then loopBackStatus b preWrite (rs_schema r) info else Ret false
     | None => Ret false
     end) r (fun isFilterTransaction =>
  on_result
    (if isFilterTransaction : bool then Ret (preWrite, false)
     else skipDMLEvent skip_table preWrite (rs_schema r) binlog_filter) r (fun '(preWrite, ignore) =>
  if negb ignore && negb isFilterTransaction then
    (set_lastAdd (CommitTs b) r, Add (mkItem b (Some preWrite) "" "" (pv_SchemaVersion preWrite) false))
  else (appendFakeBinlogIfNeeded None (CommitTs b) r, Skip))))).

(** A DDL. *)
Definition process_ddl (b : Binlog) (job : Job) (r : RunState) : RunState * verdict :=
  if skipUnsupportedDDLJob job then (appendFakeBinlogIfNeeded None (CommitTs b) r, Skip)
  else
    on_schema (addJob job) r (fun _ r =>
    match job_version job with
    | None => (r, Crash)
    | Some v =>
      let r := set_lastDDL v r in
      on_schema (handlePreviousDDLJobIfNeed v) r (fun _ r =>
      if is_delete_only_drop job then (appendFakeBinlogIfNeeded None (CommitTs b) r, Skip)
      else
        let sql := job_Query job in
        on_schema (getSchemaTableAndDelete v) r (fun '(schema, table) r =>
        if skip_table schema table then (appendFakeBinlogIfNeeded None (CommitTs b) r, Skip)
        else
          on_result (skipDDLEvent sql schema table) r (fun ignore =>
          let to_db := bool_decide (DestDBType cfg = "tidb"%string) || bool_decide (DestDBType cfg = "mysql"%string) in
          if (ignore || negb (SyncDDL cfg)) && negb to_db
          then (appendFakeBinlogIfNeeded None (CommitTs b) r, Skip)
          else
            (set_lastAdd (CommitTs b) r,
             Add (mkItem b None schema table v (ignore || negb (SyncDDL cfg)))))))
    end).

(** The rest of an iteration, for a binlog received from the input. *)
Definition process (i : binlogItem Job) (r : RunState) : RunState * verdict :=
  let b := binlog i in
  if isIgnoreTxnCommitTS (IgnoreTxnCommitTS cfg) (CommitTs b) then (r, Skip)
  else if StartTs b =? CommitTs b then (appendFakeBinlogIfNeeded (Some b) (CommitTs b) r, Skip)
  else if DdlJobId b =? 0 then process_dml b r
  else if 0 <? DdlJobId b then
    match job i with Some job => process_ddl b job r | None => (r, Crash) end
  else (r, Skip).
End Process.

(** ** The loop, the goroutine [handleSuccess] and the downstream together *)

Inductive Phase :=
  | AtHead                       (** at the start of an iteration *)
  | AtSelect                     (** waiting in the [select] *)
  | Stopped (e : option error)   (** the loop was left *)
  | Exited (e : option error)    (** [run] returned *)
  | Dead.                        (** a panic or [log.Fatal] ended the process *)

Record Saved := mkSaved { sv_ts : Z; sv_secondary : Z; sv_consistent : bool; sv_version : Z }.

Section System.
Context {env : SyncerEnv} {C : Type} `{!CheckPoint C}.
Variable cfg : Config.
Variable loopback : option LoopBackSync.

Record System := mkSystem {
  sys_run : RunState;
  sys_phase : Phase;
  (** the channel [fakeBinlogCh] *)
  fakeCh : list Binlog;
  (** the downstream: items added and not yet reported, and whether [Close] was
      called and with which result *)
  pending : list Item;
  dsync_closed : option (option error);
  (** [handleSuccess]: its channels that are not nil, its variables, whether it has
      returned *)
  succ_open : bool;
  fake_open : bool;
  lastTS : Z;
  lastSaveTS : Z;
  latestVersion : Z;
  hs_done : bool;
  (** the checkpoint *)
  cp : C;
  (** what happened: binlogs taken from the input, items added and reported, calls
      of [Save] that succeeded *)
  consumed : list (binlogItem Job);
  added : list Item;
  reported : list Item;
  saves : list Saved;
}.

Definition chan_cap : nat := 1024.

(** The updates that a step makes. *)
Definition with_run (r : RunState) (p : Phase) (s : System) : System :=
  mkSystem r p (fakeCh s) (pending s) (dsync_closed s) (succ_open s) (fake_open s) (lastTS s) (lastSaveTS s) (latestVersion s)
    (hs_done s) (cp s) (consumed s) (added s) (reported s) (saves s).
Definition with_fakeCh (ch : list Binlog) (s : System) : System :=
  mkSystem (sys_run s) (sys_phase s) ch (pending s) (dsync_closed s) (succ_open s) (fake_open s) (lastTS s) (lastSaveTS s) (latestVersion s)
    (hs_done s) (cp s) (consumed s) (added s) (reported s) (saves s).
Definition with_closed (c : option (option error)) (s : System) : System :=
  mkSystem (sys_run s) (sys_phase s) (fakeCh s) (pending s) c (succ_open s) (fake_open s) (lastTS s) (lastSaveTS s) (latestVersion s)
    (hs_done s) (cp s) (consumed s) (added s) (reported s) (saves s).
Definition with_open (so fo : bool) (s : System) : System :=
  mkSystem (sys_run s) (sys_phase s) (fakeCh s) (pending s) (dsync_closed s) so fo (lastTS s) (lastSaveTS s) (latestVersion s)
    (hs_done s) (cp s) (consumed s) (added s) (reported s) (saves s).
Definition with_done (s : System) : System :=
  mkSystem (sys_run s) (sys_phase s) (fakeCh s) (pending s) (dsync_closed s) (succ_open s) (fake_open s) (lastTS s) (lastSaveTS s) (latestVersion s)
    true (cp s) (consumed s) (added s) (reported s) (saves s).
Definition with_lastTS (ts : Z) (s : System) : System :=
  mkSystem (sys_run s) (sys_phase s) (fakeCh s) (pending s) (dsync_closed s) (succ_open s) (fake_open s)
    (if lastTS s <? ts then ts else lastTS s) (lastSaveTS s) (latestVersion s)
    (hs_done s) (cp s) (consumed s) (added s) (reported s) (saves s).
Definition with_version (v : Z) (s : System) : System :=
  mkSystem (sys_run s) (sys_phase s) (fakeCh s) (pending s) (dsync_closed s) (succ_open s) (fake_open s) (lastTS s) (lastSaveTS s) v
    (hs_done s) (cp s) (consumed s) (added s) (reported s) (saves s).
Definition consume (i : binlogItem Job) (s : System) : System :=
  mkSystem (sys_run s) (sys_phase s) (fakeCh s) (pending s) (dsync_closed s) (succ_open s) (fake_open s) (lastTS s) (lastSaveTS s) (latestVersion s)
    (hs_done s) (cp s) (consumed s ++ [i]) (added s) (reported s) (saves s).
Definition add_item (it : Item) (s : System) : System :=
  mkSystem (sys_run s) (sys_phase s) (fakeCh s) (pending s ++ [it]) (dsync_closed s) (succ_open s) (fake_open s) (lastTS s) (lastSaveTS s) (latestVersion s)
    (hs_done s) (cp s) (consumed s) (added s ++ [it]) (reported s) (saves s).
Definition report (it : Item) (rest : list Item) (s : System) : System :=
  mkSystem (sys_run s) (sys_phase s) (fakeCh s) rest (dsync_closed s) (succ_open s) (fake_open s) (lastTS s) (lastSaveTS s) (latestVersion s)
    (hs_done s) (cp s) (consumed s) (added s) (reported s ++ [it]) (saves s).

(** [savePoint] and the last [Save] of [run]: an error ends the process in the first
    and is returned in the second. *)
Definition save (ts secondaryTS : Z) (consistent : bool) (version : Z) (s : System) : System * outcome unit :=
  let '(c, r) := cp_Save ts secondaryTS consistent version (cp s) in
  let sv := match r with Ret _ => [mkSaved ts secondaryTS consistent version] | _ => [] end in
  (mkSystem (sys_run s) (sys_phase s) (fakeCh s) (pending s) (dsync_closed s) (succ_open s) (fake_open s) (lastTS s) (lastSaveTS s) (latestVersion s)
    (hs_done s) c (consumed s) (added s) (reported s) (saves s ++ sv), r).

Definition set_lastSave (ts : Z) (s : System) : System :=
  mkSystem (sys_run s) (sys_phase s) (fakeCh s) (pending s) (dsync_closed s) (succ_open s) (fake_open s) (lastTS s) ts (latestVersion s)
    (hs_done s) (cp s) (consumed s) (added s) (reported s) (saves s).

Definition savePoint (secondaryTS : Z) (s : System) : System :=
  let '(s', r) := save (lastTS s) secondaryTS false (latestVersion s) s in
  match r with
  | Ret _ => set_lastSave (lastTS s) s'
  | _ => with_run (sys_run s') Dead s'
  end.

(** The end of an iteration of [handleSuccess]: [late] says whether three seconds have
    passed since the last save. *)
Definition maybe_save (saveNow late : bool) (appliedTS : Z) (s : System) : System :=
  if lastSaveTS s <? lastTS s then
    if saveNow || late then savePoint appliedTS s else s
  else s.

(** An item reported by the downstream, with the timestamp it was applied at. *)
Definition on_success (it : Item) (rest : list Item) (appliedTS : Z) (late : bool) (s : System) : System :=
  let s := report it rest s in
  let s := with_version (it_SchemaVersion it) (with_lastTS (item_ts it) s) in
  let now := (0 <? DdlJobId (it_Binlog it)) || (0 <? appliedTS) in
  maybe_save now late (if now then appliedTS else 0) s.

(** ** Steps
    The goroutines interleave between these steps. An iteration of [handleSuccess]
    is one step: the loop shares only [lastTS] with it, which it stores before it
    saves and does not change afterwards. *)

Definition alive (s : System) : Prop :=
  match sys_phase s with Dead | Exited _ => False | _ => True end.

Inductive step : System -> System -> Prop :=
  (** the loop *)
  | st_head s : sys_phase s = AtHead ->
      step s (with_run (loop_head (lastTS s) (sys_run s)) AtSelect s)
  | st_push s b : sys_phase s = AtSelect -> pushFakeBinlog (sys_run s) = Some b -> (length (fakeCh s) < chan_cap)%nat ->
      let r := sys_run s in
      step s (with_fakeCh (fakeCh s ++ [b])
        (with_run (mkRun (rs_schema r) (fakeBinlogs r) (fakeBinlogPreAddTS r) None (lastAddCommitTS r) (lastFakeCommitTime r) (lastDDLSchemaVersion r)) AtHead s))
  | st_skip s i r : sys_phase s = AtSelect -> process cfg loopback i (sys_run s) = (r, Skip) ->
      step s (consume i (with_run r AtHead s))
  | st_add s i r it : sys_phase s = AtSelect -> process cfg loopback i (sys_run s) = (r, Add it) ->
      step s (add_item it (consume i (with_run r AtHead s)))
  (** [Sync] returns an error: the item may or may not reach the downstream *)
  | st_add_fails s i r it e : sys_phase s = AtSelect -> process cfg loopback i (sys_run s) = (r, Add it) ->
      step s (add_item it (consume i (with_run r (Stopped (Some e)) s)))
  | st_stop s i r e : sys_phase s = AtSelect -> process cfg loopback i (sys_run s) = (r, Stop e) ->
      step s (consume i (with_run r (Stopped (Some e)) s))
  | st_crash s i r : sys_phase s = AtSelect -> process cfg loopback i (sys_run s) = (r, Crash) ->
      step s (consume i (with_run r Dead s))
  | st_dsync_error s e : sys_phase s = AtSelect -> step s (with_run (sys_run s) (Stopped e) s)
  | st_shutdown s : sys_phase s = AtSelect -> step s (with_run (sys_run s) (Stopped None) s)
  (** after the loop: the channel of fake binlogs is closed and [Close] is called *)
  | st_close s e cerr : sys_phase s = Stopped e -> dsync_closed s = None ->
      step s (with_closed (Some cerr) s)
  (** [handleSuccess] *)
  | st_success s it rest appliedTS late : alive s -> succ_open s = true -> pending s = it :: rest ->
      step s (on_success it rest appliedTS late s)
  | st_fake s b rest late : alive s -> fake_open s = true -> fakeCh s = b :: rest ->
      step s (maybe_save false late 0 (with_lastTS (CommitTs b) (with_fakeCh rest s)))
  (** the successes end: after [Close] returned nil every item has been reported *)
  | st_succ_closed s cerr late : alive s -> succ_open s = true -> dsync_closed s = Some cerr ->
      (cerr = None -> pending s = []) ->
      step s (maybe_save false late 0 (with_open false (fake_open s) s))
  | st_fake_closed s e late : alive s -> fake_open s = true -> sys_phase s = Stopped e -> fakeCh s = [] ->
      step s (maybe_save false late 0 (with_open (succ_open s) false s))
  | st_hs_done s : alive s -> hs_done s = false -> succ_open s = false -> fake_open s = false ->
      step s (with_done (if lastSaveTS s <? lastTS s then savePoint 0 s else s))
  (** the end of [run] *)
  | st_exit_error s e cerr : sys_phase s = Stopped e -> dsync_closed s = Some cerr -> hs_done s = true ->
      (e <> None \/ cerr <> None) ->
      step s (with_run (sys_run s) (Exited (match e with Some _ => e | None => cerr end)) s)
  | st_exit s s' r : sys_phase s = Stopped None -> dsync_closed s = Some None -> hs_done s = true ->
      save (cp_TS (cp s)) 0 true (lastDDLSchemaVersion (sys_run s)) s = (s', r) ->
      step s (with_run (sys_run s) (Exited (match r with Fail e => Some e | _ => None end)) s').

(** [run] starts: the schema is brought to the version of the checkpoint. *)
Definition init (schema : Schema) (c : C) : System :=
  mkSystem (mkRun schema [] [] None 0 None 0) AtHead [] [] None true true 0 0 0 false c [] [] [] [].

Definition start (schema : Schema) (c : C) : option System :=
  match handlePreviousDDLJobIfNeed (cp_SchemaVersion c + 1) schema with
  | (s, Ret _) => Some (init s c)
  | _ => None
  end.
End System.
