(* ===== verification/SyncerProofs.v ===== *)
(** * SyncerProofs
    The checkpoint of drainer is safe: whatever the interleaving of the loop, of
    [handleSuccess] and of the downstream, a timestamp that is saved is not ahead
    of a transaction that the downstream has not reported. It only moves forward,
    and it catches up. *)
From Stdlib Require Import Init.Byte.
From stdpp Require Import base option list gmap strings sorting relations.
From S2P Require Import Prelude Binlog MergeStrategy Schema Mutation Checkpoint LoaderModel Syncer.

(** ** One binlog *)

Section Process.
Context {env : SyncerEnv}.
Variable cfg : Config.
Variable loopback : option LoopBackSync.

(** What the loop keeps about fake binlogs and added items after a binlog with the
    commit timestamp [ts]. *)
Definition fakes_kept (r r' : RunState) : Prop :=
  fakeBinlogs r' = fakeBinlogs r /\ fakeBinlogPreAddTS r' = fakeBinlogPreAddTS r /\ lastFakeCommitTime r' = lastFakeCommitTime r.

Definition fake_appended (ts : Z) (r r' : RunState) : Prop :=
  exists b, CommitTs b = ts /\ fakeBinlogs r' = fakeBinlogs r ++ [b] /\
    fakeBinlogPreAddTS r' = fakeBinlogPreAddTS r ++ [lastAddCommitTS r] /\
    lastFakeCommitTime r' = Some (physical ts) /\
    (forall t0, lastFakeCommitTime r = Some t0 -> 3000 < physical ts - t0).

Definition outcome_of (b : Binlog) (r r' : RunState) (v : verdict) : Prop :=
  pushFakeBinlog r' = pushFakeBinlog r /\
  match v with
  | Add it => it_Binlog it = b /\ lastAddCommitTS r' = CommitTs b /\ fakes_kept r r'
  | Skip => lastAddCommitTS r' = lastAddCommitTS r /\ (fakes_kept r r' \/ fake_appended (CommitTs b) r r')
  | _ => lastAddCommitTS r' = lastAddCommitTS r /\ fakes_kept r r'
  end.

Lemma append_outcome b o r : (forall b', o = Some b' -> b' = b) ->
  outcome_of b r (appendFakeBinlogIfNeeded o (CommitTs b) r) Skip.
Proof.
  intros Ho. unfold appendFakeBinlogIfNeeded, outcome_of.
  destruct (match lastFakeCommitTime r with None => _ | Some _ => _ end) eqn:E; [|split_and!; [done|done|by left]].
  split_and!; [done|done|]. right. eexists. split_and!; [|done|done|done|].
  - destruct o as [b'|]; [by rewrite (Ho b')|done].
  - intros t0 Ht. rewrite Ht in E. by apply Z.ltb_lt.
Qed.

(** The same with another schema or version behind. *)
Lemma outcome_of_pre b r r1 r' v : fakeBinlogs r1 = fakeBinlogs r -> fakeBinlogPreAddTS r1 = fakeBinlogPreAddTS r ->
  lastFakeCommitTime r1 = lastFakeCommitTime r -> lastAddCommitTS r1 = lastAddCommitTS r -> pushFakeBinlog r1 = pushFakeBinlog r ->
  outcome_of b r1 r' v -> outcome_of b r r' v.
Proof.
  unfold outcome_of, fakes_kept, fake_appended. intros H1 H2 H3 H4 H5. rewrite H1, H2, H3, H4, H5. done.
Qed.

(** Calls that only pass results on. *)
Lemma on_schema_outcome {A} b (c : M A) r k r' v : on_schema c r k = (r', v) ->
  (forall a s, k a (set_schema s r) = (r', v) -> outcome_of b (set_schema s r) r' v) -> outcome_of b r r' v.
Proof.
  unfold on_schema. destruct (c (rs_schema r)) as [s [a|e|]]; intros H Hk.
  - eapply (outcome_of_pre b r (set_schema s r)); [done..|]. by apply (Hk a s).
  - by injection H as <- <-.
  - by injection H as <- <-.
Qed.

Lemma on_result_outcome {A} b (c : outcome A) r k r' v : on_result c r k = (r', v) ->
  (forall a, k a = (r', v) -> outcome_of b r r' v) -> outcome_of b r r' v.
Proof. unfold on_result. destruct c as [a|e|]; intros H Hk; [by apply (Hk a)|by injection H as <- <-..]. Qed.

(** Close a branch that appends a fake binlog. *)
Ltac p_fake H := injection H as <- <-; by apply append_outcome.

Lemma process_dml_outcome b r r' v : process_dml loopback b r = (r', v) -> outcome_of b r r' v.
Proof.
  intros H. unfold process_dml in H. eapply on_result_outcome; [exact H|]. clear H. intros pv H.
  eapply on_schema_outcome; [exact H|]. clear H. intros ? s H.
  eapply on_result_outcome; [exact H|]. clear H. intros filt H.
  eapply on_result_outcome; [exact H|]. clear H. intros [pv' ignore] H.
  destruct (negb ignore && negb filt); [by injection H as <- <-|p_fake H].
Qed.

Lemma process_ddl_outcome b job r r' v : process_ddl cfg b job r = (r', v) -> outcome_of b r r' v.
Proof.
  unfold process_ddl. destruct (skipUnsupportedDDLJob job); intros H; [p_fake H|].
  eapply on_schema_outcome; [exact H|]. clear H. intros ? s H.
  destruct (job_version job) as [ver|]; [|by injection H as <- <-].
  eapply (outcome_of_pre b _ (set_lastDDL ver (set_schema s r))); [done..|].
  eapply on_schema_outcome; [exact H|]. clear H. intros ? s1 H.
  destruct (is_delete_only_drop job); [p_fake H|].
  eapply on_schema_outcome; [exact H|]. clear H. intros [sn tn] s2 H.
  destruct (skip_table sn tn); [p_fake H|].
  eapply on_result_outcome; [exact H|]. clear H. intros ignore H. cbv beta zeta in H.
  destruct (_ && _); [p_fake H|by injection H as <- <-].
Qed.

Lemma process_outcome i r r' v : process cfg loopback i r = (r', v) -> outcome_of (binlog i) r r' v.
Proof.
  unfold process. intros H.
  assert (Hsame : outcome_of (binlog i) r r Skip) by (split_and!; [done|done|by left]).
  destruct (isIgnoreTxnCommitTS _ _); [by injection H as <- <-|].
  destruct (StartTs _ =? _); [injection H as <- <-; apply append_outcome; by intros b' [= <-]|].
  destruct (DdlJobId _ =? 0); [by eapply process_dml_outcome|].
  destruct (0 <? DdlJobId _); [|by injection H as <- <-].
  destruct (job i) as [job|]; [by eapply process_ddl_outcome|by injection H as <- <-].
Qed.
End Process.

(** ** The invariant *)

Section Safety.
Context {env : SyncerEnv} {C : Type} `{!CheckPoint C} `{!CheckPointLaws C}.
Variable cfg : Config.
Variable loopback : option LoopBackSync.
(** Where the run starts: the inputs are later than the checkpoint. *)
Variable base : Z.

Abbreviation sys := (@System C).
Abbreviation steps := (step cfg loopback).

(** The commit timestamps of the inputs so far, in their order. *)
Definition inputs (s : sys) : list Z := (fun i => CommitTs (binlog i)) <$> consumed s.

(** The inputs come in the order of their commit timestamps, after the checkpoint. *)
Definition ordered (s : sys) : Prop := StronglySorted Z.lt (base :: inputs s).

Definition latest (s : sys) : Z := default base (last (inputs s)).

(** No unreported item is at or before [ts]. *)
Definition clear_to (ts : Z) (s : sys) : Prop := Forall (fun p => ts < item_ts p) (pending s).

(** A fake binlog that waits for the items up to [pre] to be reported. *)
Definition fake_waits (s : sys) (b : Binlog) (pre : Z) : Prop :=
  base < CommitTs b <= latest s /\ Forall (fun p => item_ts p <= pre \/ CommitTs b < item_ts p) (pending s).

(** A fake binlog on its way to [handleSuccess]. *)
Definition fake_sent (s : sys) (b : Binlog) : Prop := base < CommitTs b <= latest s /\ clear_to (CommitTs b) s.

Record Inv (s : sys) : Prop := {
  inv_added : added s = reported s ++ pending s;
  inv_sorted : StronglySorted Z.lt (item_ts <$> pending s);
  inv_latest : Forall (fun p => item_ts p <= latest s) (pending s);
  inv_base : Forall (fun it => base < item_ts it) (added s);
  inv_reported : Forall (fun it => item_ts it <= lastTS s) (reported s);
  inv_moved : lastTS s = 0 \/ base < lastTS s;
  inv_lastAdd : lastAddCommitTS (sys_run s) <= latest s;
  inv_pending_add : Forall (fun p => item_ts p <= lastAddCommitTS (sys_run s)) (pending s);
  inv_lastTS : lastTS s <= latest s /\ clear_to (lastTS s) s;
  inv_wait : Forall2 (fake_waits s) (fakeBinlogs (sys_run s)) (fakeBinlogPreAddTS (sys_run s));
  inv_push : forall b, pushFakeBinlog (sys_run s) = Some b -> fake_sent s b;
  inv_ch : Forall (fake_sent s) (fakeCh s);
  inv_saves : Forall (fun sv => sv_ts sv <= latest s /\ clear_to (sv_ts sv) s) (saves s);
  inv_cp : sys_phase s <> Dead -> cp_TS (cp s) <= latest s /\ clear_to (cp_TS (cp s)) s;
}.

(** *** An input *)

Lemma inputs_consume i (s : sys) : inputs (consume i s) = inputs s ++ [CommitTs (binlog i)].
Proof. unfold inputs. simpl. by rewrite fmap_app. Qed.

Lemma latest_consume i s : latest (consume i s) = CommitTs (binlog i).
Proof. unfold latest. by rewrite inputs_consume, last_snoc. Qed.

Lemma ordered_consume i s : ordered (consume i s) -> ordered s /\ latest s < CommitTs (binlog i).
Proof.
  unfold ordered, latest. rewrite inputs_consume, app_comm_cons. intros (H1 & H2 & _)%StronglySorted_app. split; [done|].
  apply H1; [|left]. destruct (last (inputs s)) as [x|] eqn:E; [|left]. right. apply last_Some in E as [l ->].
  apply elem_of_app. right. left.
Qed.

Lemma ordered_latest s : ordered s -> base <= latest s.
Proof.
  unfold ordered, latest. intros H. apply StronglySorted_inv in H as [_ H].
  destruct (last (inputs s)) as [x|] eqn:E; simpl; [|lia]. apply last_Some in E as [l E].
  rewrite E in H. apply Forall_app in H as [_ H]. apply Forall_cons_iff in H as [H _]. lia.
Qed.

(** Everything known stays below a later input. *)
Lemma inv_consume i s r p : Inv s -> ordered (consume i s) ->
  pushFakeBinlog r = pushFakeBinlog (sys_run s) -> lastAddCommitTS r = lastAddCommitTS (sys_run s) ->
  fakes_kept (sys_run s) r \/ fake_appended (CommitTs (binlog i)) (sys_run s) r ->
  (p = Dead \/ sys_phase s <> Dead) ->
  Inv (consume i (with_run r p s)).
Proof.
  intros [I1 I2 I3 B1 B2 B3 I4 I5 [I6 I6'] I7 I8 I9 I10 I11] Ho Hp Ha Hf Hph. apply ordered_consume in Ho as [Hord Hlt]. apply ordered_latest in Hord.
  assert (Hl : latest (consume i (with_run r p s)) = CommitTs (binlog i)) by apply latest_consume.
  assert (Hle : forall z, z <= latest s -> z <= latest (consume i (with_run r p s))) by (intros z; rewrite Hl; lia).
  assert (Hsent : forall b, fake_sent s b -> fake_sent (consume i (with_run r p s)) b) by (intros b [[? ?] ?]; split; auto).
  assert (Hwait : forall b pre, fake_waits s b pre -> fake_waits (consume i (with_run r p s)) b pre) by (intros b pre [[? ?] ?]; split; auto).
  split; try done; cbn [sys_run consume with_run].
  - eapply Forall_impl; [exact I3|]. auto.
  - rewrite Ha. auto.
  - by rewrite Ha.
  - split; [auto|done].
  - destruct Hf as [(-> & -> & _)|(b & Hb & -> & -> & _)].
    + eapply Forall2_impl; [exact I7|]. auto.
    + apply Forall2_app; [eapply Forall2_impl; [exact I7|auto]|]. constructor; [|constructor].
      split; [rewrite Hl, Hb; lia|]. eapply Forall_impl; [exact I5|]. auto.
  - rewrite Hp. auto.
  - eapply Forall_impl; [exact I9|]. auto.
  - eapply Forall_impl; [exact I10|]. intros sv [? ?]. split; auto.
  - cbn. intros Hd. destruct Hph as [->|Hph]; [done|]. destruct (I11 Hph). split; auto.
Qed.

(** An item is added. *)
Lemma inv_add i s r p it : Inv s -> ordered (consume i s) ->
  pushFakeBinlog r = pushFakeBinlog (sys_run s) -> lastAddCommitTS r = CommitTs (binlog i) -> fakes_kept (sys_run s) r ->
  it_Binlog it = binlog i -> sys_phase s <> Dead ->
  Inv (add_item it (consume i (with_run r p s))).
Proof.
  intros [I1 I2 I3 B1 B2 B3 I4 I5 [I6 I6'] I7 I8 I9 I10 I11] Ho Hp Ha (Hf1 & Hf2 & _) Hit Hph. apply ordered_consume in Ho as [Hord Hlt]. apply ordered_latest in Hord.
  set (s' := add_item it (consume i (with_run r p s))).
  assert (Hts : item_ts it = CommitTs (binlog i)) by (unfold item_ts; by rewrite Hit).
  assert (Hl : latest s' = item_ts it) by (rewrite Hts; apply latest_consume).
  assert (Hpend : pending s' = pending s ++ [it]) by done.
  assert (Hclear : forall z, z <= latest s -> clear_to z s -> clear_to z s').
  { intros z Hz Hc. unfold clear_to. rewrite Hpend. apply Forall_app. split; [done|]. constructor; [lia|constructor]. }
  assert (Hle : forall z, z <= latest s -> z <= latest s') by (intros z Hz; lia).
  assert (Hsent : forall b, fake_sent s b -> fake_sent s' b) by (intros b [[? ?] ?]; split; auto).
  split; rewrite ?Hpend.
  - cbn. by rewrite I1, <- (assoc_L (++)).
  - rewrite fmap_app. apply StronglySorted_app. split_and!; [|done|by repeat constructor].
    intros x y Hx ->%list_elem_of_singleton. apply list_elem_of_fmap in Hx as (q & -> & Hq).
    rewrite list.Forall_forall in I3. specialize (I3 q Hq). simpl in I3. lia.
  - apply Forall_app. split; [eapply Forall_impl; [exact I3|auto]|]. constructor; [lia|constructor].
  - apply Forall_app. split; [exact B1|]. constructor; [lia|constructor].
  - exact B2.
  - exact B3.
  - change (lastAddCommitTS r <= latest s'). lia.
  - cbn. rewrite Ha, <- Hts. apply Forall_app. split; [|constructor; [lia|constructor]].
    eapply Forall_impl; [exact I3|]. intros q ?. simpl in *. lia.
  - split; [apply (Hle (lastTS s)), I6|]. by apply (Hclear (lastTS s)).
  - cbn. rewrite Hf1, Hf2. eapply Forall2_impl; [exact I7|]. intros b pre [[H1 H1'] H2]. split; [auto|].
    rewrite Hpend. apply Forall_app. split; [done|]. constructor; [right; lia|constructor].
  - cbn. rewrite Hp. auto.
  - cbn. eapply Forall_impl; [exact I9|]. auto.
  - cbn. eapply Forall_impl; [exact I10|]. intros sv [? ?]. split; auto.
  - intros _. destruct (I11 Hph). cbn. split; auto.
Qed.

(** *** The goroutine *)

Lemma clear_to_le z z' s : z' <= z -> clear_to z s -> clear_to z' s.
Proof. intros Hz Hc. eapply Forall_impl; [exact Hc|]. intros p ?. simpl in *. lia. Qed.

Lemma inv_report it rest s : pending s = it :: rest -> Inv s -> Inv (with_lastTS (item_ts it) (report it rest s)).
Proof.
  intros Hp [I1 I2 I3 B1 B2 B3 I4 I5 [I6 I6'] I7 I8 I9 I10 I11].
  set (s' := with_lastTS (item_ts it) (report it rest s)).
  assert (Hsub : forall P, Forall P (pending s) -> Forall P rest) by (intros P; rewrite Hp; by intros [_ ?]%Forall_cons_iff).
  assert (Hclear : forall z, clear_to z s -> clear_to z s') by (intros z; apply Hsub).
  assert (Hts : lastTS s' = Z.max (lastTS s) (item_ts it)) by (unfold s'; cbn; destruct (Z.ltb_spec (lastTS s) (item_ts it)); lia).
  rewrite Hp, fmap_cons in I2. apply StronglySorted_inv in I2 as [I2 I2'].
  pose proof I3 as I3'. rewrite Hp in I3'. apply Forall_cons_iff in I3' as [Hit _].
  pose proof I6' as Hlt. unfold clear_to in Hlt. rewrite Hp in Hlt. apply Forall_cons_iff in Hlt as [Hlt _].
  assert (Hb : base < item_ts it). { rewrite I1, Hp in B1. apply Forall_app in B1 as [_ B1]. by apply Forall_cons_iff in B1 as [? _]. }
  split.
  - cbn. rewrite I1, Hp. by rewrite <- (assoc_L (++)).
  - done.
  - by apply Hsub.
  - done.
  - rewrite Hts. apply Forall_app. split; [eapply Forall_impl; [exact B2|intros q ?; simpl in *; lia]|].
    constructor; [lia|constructor].
  - right. lia.
  - done.
  - by apply Hsub.
  - rewrite Hts, Z.max_r by lia. split; [exact Hit|].
    exact (proj1 (Forall_fmap item_ts (Z.lt (item_ts it)) rest) I2').
  - eapply Forall2_impl; [exact I7|]. intros b pre [H1 H2]. split; [done|by apply Hsub].
  - intros b Hb'. destruct (I8 b Hb'). split; auto.
  - eapply Forall_impl; [exact I9|]. intros b [? ?]. split; auto.
  - eapply Forall_impl; [exact I10|]. intros sv [? ?]. split; auto.
  - intros Hd. destruct (I11 Hd). split; auto.
Qed.

Lemma inv_with_lastTS ts s : Inv s -> base < ts <= latest s -> clear_to ts s -> Inv (with_lastTS ts s).
Proof.
  intros [I1 I2 I3 B1 B2 B3 I4 I5 [I6 I6'] I7 I8 I9 I10 I11] [Hb Hl] Hc.
  assert (Hts : lastTS (with_lastTS ts s) = Z.max (lastTS s) ts) by (cbn; destruct (Z.ltb_spec (lastTS s) ts); lia).
  split; rewrite ?Hts; try done.
  - eapply Forall_impl; [exact B2|]. intros q ?. simpl in *. lia.
  - lia.
  - destruct (Z.max_spec (lastTS s) ts) as [[_ ->]|[_ ->]]; by split.
Qed.

(** After a save the checkpoint is at the saved timestamp, or was closed before. *)
Lemma save_TS ts sec cons v s s' r : save ts sec cons v s = (s', r) ->
  cp_TS (cp s') = ts \/ (cp s' = cp s /\ r <> Ret tt).
Proof.
  unfold save. destruct (cp_Save ts sec cons v (cp s)) as [c r0] eqn:E. intros [= <- <-]. cbn [cp].
  destruct (cp_closed (cp s)) eqn:Hc.
  - rewrite save_closed in E by done. injection E as <- <-. by right.
  - pose proof (save_memory ts sec cons v (cp s) Hc) as H. rewrite E in H. cbn [fst] in H. left. tauto.
Qed.

Lemma inv_save ts sec cons v s s' r p : Inv s -> ts <= latest s -> clear_to ts s -> save ts sec cons v s = (s', r) ->
  p = Dead \/ r = Ret tt \/ ts = cp_TS (cp s) -> Inv (with_run (sys_run s) p s').
Proof.
  intros [I1 I2 I3 B1 B2 B3 I4 I5 [I6 I6'] I7 I8 I9 I10 I11] Hl Hc Hs Hp.
  pose proof (save_TS _ _ _ _ _ _ _ Hs) as Hts. unfold save in Hs. destruct (cp_Save ts sec cons v (cp s)) as [c r0].
  injection Hs as <- <-. cbn [cp] in Hts. split; try done.
  - apply Forall_app. split; [exact I10|]. destruct r0 as [[]|e|]; [|constructor..]. constructor; [done|constructor].
  - intros Hd. change (cp_TS c <= latest s /\ clear_to (cp_TS c) s).
    assert (E : cp_TS c = ts). { destruct Hts as [?|[-> ?]]; [done|]. by destruct Hp as [->|[?|?]]. }
    by rewrite E.
Qed.

Lemma save_run ts sec cons v s s' r : save ts sec cons v s = (s', r) ->
  sys_run s' = sys_run s /\ sys_phase s' = sys_phase s.
Proof. unfold save. destruct (cp_Save _ _ _ _ _). by intros [= <- <-]. Qed.

Lemma inv_savePoint sec s : Inv s -> Inv (savePoint sec s).
Proof.
  intros HI. unfold savePoint. destruct (save (lastTS s) sec false (latestVersion s) s) as [s' r] eqn:E.
  destruct (save_run _ _ _ _ _ _ _ E) as [Er Ep]. rewrite Er.
  destruct (inv_lastTS _ HI) as [Hl Hc].
  destruct r as [[]|e|]; [|by eapply inv_save; [..|exact E|left]..].
  assert (H : Inv (with_run (sys_run s) (sys_phase s) s')) by (eapply inv_save; [done|done|done|exact E|by right; left]).
  destruct H as [I1 I2 I3 B1 B2 B3 I4 I5 I6 I7 I8 I9 I10 I11]. cbn in I4, I5, I7, I8. rewrite <- ?Er, <- ?Ep in *.
  split; try done.
Qed.

Lemma inv_maybe_save now late sec s : Inv s -> Inv (maybe_save now late sec s).
Proof.
  intros HI. unfold maybe_save. destruct (_ <? _); [|done]. destruct (_ || _); [|done]. by apply inv_savePoint.
Qed.

(** *** Every step *)

Lemma inv_phase p s : Inv s -> p = Dead \/ sys_phase s <> Dead -> Inv (with_run (sys_run s) p s).
Proof. intros [I1 I2 I3 B1 B2 B3 I4 I5 I6 I7 I8 I9 I10 I11] Hp. split; try done. intros Hd. apply I11. by destruct Hp. Qed.

Lemma inv_head s : Inv s -> sys_phase s = AtHead -> Inv (with_run (loop_head (lastTS s) (sys_run s)) AtSelect s).
Proof.
  intros HI Hp. assert (H0 : Inv (with_run (sys_run s) AtSelect s)) by (apply inv_phase; [done|by rewrite Hp; right]).
  unfold loop_head. destruct (pushFakeBinlog (sys_run s)) as [|] eqn:E; [done|].
  destruct (fakeBinlogs (sys_run s)) as [|b bs] eqn:Eb; [done|].
  destruct (fakeBinlogPreAddTS (sys_run s)) as [|pre pres] eqn:Epre; [done|].
  destruct (Z.leb_spec pre (lastTS s)) as [Hle|]; [|done].
  destruct HI as [I1 I2 I3 B1 B2 B3 I4 I5 [I6 I6'] I7 I8 I9 I10 I11]. rewrite Eb, Epre in I7.
  apply Forall2_cons_1 in I7 as [[Hb Hw] I7]. split; try done.
  - intros b' [= <-]. split; [done|]. unfold clear_to in *. rewrite !list.Forall_forall in *. intros p Hin.
    specialize (Hw p Hin). specialize (I6' p Hin). simpl in *. destruct Hw; [change (pending _) with (pending s) in *; lia|done].
  - intros _. apply I11. by rewrite Hp.
Qed.

Lemma inv_push_step s b : Inv s -> sys_phase s = AtSelect -> pushFakeBinlog (sys_run s) = Some b ->
  let r := sys_run s in
  Inv (with_fakeCh (fakeCh s ++ [b])
    (with_run (mkRun (rs_schema r) (fakeBinlogs r) (fakeBinlogPreAddTS r) None (lastAddCommitTS r) (lastFakeCommitTime r) (lastDDLSchemaVersion r)) AtHead s)).
Proof.
  intros [I1 I2 I3 B1 B2 B3 I4 I5 I6 I7 I8 I9 I10 I11] Hp Hb. split; try done.
  - apply Forall_app. split; [exact I9|]. constructor; [by apply I8|constructor].
  - intros _. apply I11. by rewrite Hp.
Qed.

Lemma inv_take_fake s b rest : Inv s -> fakeCh s = b :: rest ->
  Inv (with_lastTS (CommitTs b) (with_fakeCh rest s)).
Proof.
  intros HI Hc. pose proof (inv_ch _ HI) as Hch. rewrite Hc in Hch. apply Forall_cons_iff in Hch as [[Hl Hcl] Hrest].
  apply inv_with_lastTS; [|exact Hl|exact Hcl]. destruct HI as [I1 I2 I3 B1 B2 B3 I4 I5 I6 I7 I8 I9 I10 I11]. split; done.
Qed.

Lemma alive_not_dead (s : sys) : alive s -> sys_phase s <> Dead.
Proof. unfold alive. by destruct (sys_phase s). Qed.

Lemma inv_on_success it rest ap late s : pending s = it :: rest -> Inv s -> Inv (on_success it rest ap late s).
Proof.
  intros Hp HI. pose proof (inv_report it rest s Hp HI) as H. apply inv_maybe_save.
  destruct H as [I1 I2 I3 B1 B2 B3 I4 I5 I6 I7 I8 I9 I10 I11]. split; done.
Qed.

Lemma Inv_step s s' : steps s s' -> Inv s -> ordered s' -> Inv s'.
Proof.
  intros Hst HI Ho. destruct Hst as
    [s Hp|s b Hp Hb Hroom r|s i r Hp Hpr|s i r it Hp Hpr|s i r it e Hp Hpr|s i r e Hp Hpr|s i r Hp Hpr|s e Hp|s Hp|s e cerr Hp Hc
    |s it rest ap late Ha Hso Hpend|s b rest late Ha Hfo Hch|s cerr late Ha Hso Hc Hnil|s e late Ha Hfo Hp Hch|s Ha Hd Hso Hfo
    |s e cerr Hp Hc Hd Hor|s s' r Hp Hc Hd Hsave].
  - by apply inv_head.
  - by apply inv_push_step.
  - apply process_outcome in Hpr as (H1 & H2 & H3). apply inv_consume; try done. right. by rewrite Hp.
  - apply process_outcome in Hpr as (H1 & H2 & H3 & H4). apply inv_add; try done. by rewrite Hp.
  - apply process_outcome in Hpr as (H1 & H2 & H3 & H4). apply inv_add; try done. by rewrite Hp.
  - apply process_outcome in Hpr as (H1 & H2 & H3). apply inv_consume; try done; [by left|]. right. by rewrite Hp.
  - apply process_outcome in Hpr as (H1 & H2 & H3). apply inv_consume; try done; by left.
  - apply inv_phase; [done|]. right. by rewrite Hp.
  - apply inv_phase; [done|]. right. by rewrite Hp.
  - by destruct HI.
  - by apply inv_on_success.
  - apply inv_maybe_save. by apply inv_take_fake.
  - apply inv_maybe_save. by destruct HI.
  - apply inv_maybe_save. by destruct HI.
  - assert (H : Inv (if lastSaveTS s <? lastTS s then savePoint 0 s else s)) by (destruct (_ <? _); [by apply inv_savePoint|done]).
    by destruct H.
  - apply inv_phase; [done|]. right. by rewrite Hp.
  - destruct (inv_cp _ HI) as [Hl Hcl]; [by rewrite Hp|]. eapply inv_save; [done|exact Hl|exact Hcl|exact Hsave|]. by right; right.
Qed.

(** The inputs only grow. *)
Lemma step_consumed s s' : steps s s' -> exists l, consumed s' = consumed s ++ l.
Proof.
  assert (Hsv : forall sec (s : sys), consumed (savePoint sec s) = consumed s).
  { intros. unfold savePoint, save. by destruct (cp_Save _ _ _ _ _) as [c [[]|e|]]. }
  assert (Hm : forall now late sec (s : sys), consumed (maybe_save now late sec s) = consumed s).
  { intros. unfold maybe_save. by repeat case_match. }
  destruct 1; try (by exists []; rewrite app_nil_r); try (eexists; reflexivity); try (exists []; rewrite app_nil_r).
  - unfold on_success. by rewrite Hm.
  - by rewrite Hm.
  - by rewrite Hm.
  - by rewrite Hm.
  - cbn. destruct (_ <? _); [apply Hsv|done].
  - unfold save in *. destruct (cp_Save _ _ _ _ _). by simplify_eq.
Qed.

Lemma ordered_app s s' l : consumed s' = consumed s ++ l -> ordered s' -> ordered s.
Proof.
  unfold ordered, inputs. intros ->. rewrite fmap_app, app_comm_cons. by intros (_ & ? & _)%StronglySorted_app.
Qed.

Lemma init_inv schema c : 0 <= cp_TS c <= base -> Inv (init schema c).
Proof.
  intros Hc. assert (Hl : latest (init schema c) = base) by done.
  split; rewrite ?Hl; try done; try apply SSorted_nil; try apply List.Forall_nil; try apply List.Forall2_nil.
  - by left.
  - simpl. lia.
  - split; [simpl; lia|apply List.Forall_nil].
  - split; [simpl; lia|apply List.Forall_nil].
Qed.

Lemma reachable_Inv schema c s : 0 <= cp_TS c <= base -> rtc steps (init schema c) s -> ordered s -> Inv s.
Proof.
  intros Hc Hr. revert s Hr. refine (rtc_ind_r (fun s => ordered s -> Inv s) (init schema c) _ _).
  { intros _. by apply init_inv. }
  intros s1 s2 Hr Hst IH Ho. destruct (step_consumed _ _ Hst) as [l Hl]. eapply Inv_step; [exact Hst|apply IH; by eapply ordered_app|done].
Qed.

(** C4: the checkpoint is safe. While the binlogs come in the order of their commit
    timestamps, whatever the order in which the loop, the goroutine that saves
    and the downstream take their steps, every item given to the downstream with a
    commit timestamp at or before one that was saved has been reported
    successful. A restart from the checkpoint misses nothing. *)
Theorem checkpoint_safe schema c s : 0 <= cp_TS c <= base -> rtc steps (init schema c) s -> ordered s ->
  forall sv it, sv ∈ saves s -> it ∈ added s -> item_ts it <= sv_ts sv -> it ∈ reported s.
Proof.
  intros Hc Hr Ho sv it Hsv Hit Hle. pose proof (reachable_Inv _ _ _ Hc Hr Ho) as HI.
  rewrite (inv_added _ HI) in Hit. apply elem_of_app in Hit as [?|Hit]; [done|].
  pose proof (inv_saves _ HI) as Hs. rewrite list.Forall_forall in Hs. destruct (Hs sv Hsv) as [_ Hclear].
  unfold clear_to in Hclear. rewrite list.Forall_forall in Hclear. specialize (Hclear it Hit). simpl in Hclear. lia.
Qed.

(** ** The checkpoint moves forward, and the last one is complete *)

Definition saved_ts (s : sys) : list Z := sv_ts <$> saves s.

Section Forward.
(** The timestamp of the checkpoint at the start. *)
Variable ts0 : Z.
Hypothesis Hts0 : 0 <= ts0 <= base.

Definition running (p : Phase) : Prop := p = AtHead \/ p = AtSelect.

(** The checkpoint and what was saved. *)
Record Fwd (s : sys) : Prop := {
  fwd_sorted : StronglySorted Z.le (ts0 :: saved_ts s);
  fwd_cp : sys_phase s <> Dead -> cp_TS (cp s) = default ts0 (last (saved_ts s));
  fwd_last : alive s -> (saves s = [] /\ lastSaveTS s = 0) \/ last (saved_ts s) = Some (lastSaveTS s);
  fwd_consistent : Forall (fun sv => sv_consistent sv = true ->
    pending s = [] /\ ~ alive s /\ Forall (fun it => item_ts it <= sv_ts sv) (reported s)) (saves s);
}.

(** How far the shutdown is. *)
Record Closing (s : sys) : Prop := {
  cl_closed : is_Some (dsync_closed s) -> ~ running (sys_phase s);
  cl_succ : succ_open s = false -> exists cerr, dsync_closed s = Some cerr /\ (cerr = None -> pending s = []);
  cl_done : hs_done s = true -> succ_open s = false /\ fake_open s = false /\ (alive s -> lastTS s <= lastSaveTS s);
}.

Lemma sorted_snoc (a x : Z) l : StronglySorted Z.le (a :: l) -> default a (last l) <= x -> StronglySorted Z.le (a :: l ++ [x]).
Proof.
  intros Hs Hx. rewrite app_comm_cons. apply StronglySorted_app. split_and!; [|done|by repeat constructor].
  intros y z Hy ->%list_elem_of_singleton. destruct (last l) as [m|] eqn:E; simpl in Hx.
  - apply last_Some in E as [l' ->]. rewrite app_comm_cons in Hs, Hy. apply StronglySorted_app in Hs as (H1 & _ & _).
    apply elem_of_app in Hy as [Hy| ->%list_elem_of_singleton]; [|done].
    specialize (H1 y m Hy (list_elem_of_here _ _)). lia.
  - apply last_None in E as ->. by apply list_elem_of_singleton in Hy as ->.
Qed.

(** Steps that leave the checkpoint alone. *)
Lemma fwd_same s s' : Fwd s -> alive s -> saves s' = saves s -> cp s' = cp s -> lastSaveTS s' = lastSaveTS s -> Fwd s'.
Proof.
  intros [F1 F2 F3 F4] Hal Hsv Hcp Hls. unfold saved_ts in *. split; unfold saved_ts; rewrite ?Hsv, ?Hcp, ?Hls; auto.
  - intros _. by apply F2, alive_not_dead.
  - eapply Forall_impl; [exact F4|]. intros sv E Hc. destruct (E Hc) as (_ & Hn & _). done.
Qed.

Lemma fwd_savePoint sec s : Fwd s -> Inv s -> alive s -> lastSaveTS s < lastTS s ->
  Fwd (savePoint sec s) /\ (alive (savePoint sec s) -> lastTS (savePoint sec s) <= lastSaveTS (savePoint sec s)).
Proof.
  intros [F1 F2 F3 F4] HI Hal Hlt. unfold savePoint. destruct (save (lastTS s) sec false (latestVersion s) s) as [s' r] eqn:E.
  pose proof (save_TS _ _ _ _ _ _ _ E) as Hts. unfold save in E. destruct (cp_Save _ _ _ _ (cp s)) as [c r0]. injection E as <- <-.
  assert (Hno : Forall (fun sv => sv_consistent sv = false) (saves s)).
  { eapply Forall_impl; [exact F4|]. intros sv Hc. destruct (sv_consistent sv) eqn:Ev; [|done]. by destruct (Hc Ev) as (_ & ? & _). }
  assert (Hsorted : StronglySorted Z.le (ts0 :: saved_ts s ++ [lastTS s])).
  { apply sorted_snoc; [done|]. destruct (F3 Hal) as [[Hnil Hz]|Hl].
    - unfold saved_ts. rewrite Hnil. simpl. destruct (inv_moved _ HI); lia.
    - rewrite Hl. simpl. lia. }
  destruct r0 as [[]|e|]; cbn [cp] in Hts.
  - split; [|simpl; lia]. split; unfold saved_ts; cbn; rewrite ?fmap_app.
    + exact Hsorted.
    + intros _. cbn. rewrite last_snoc. destruct Hts as [->|[_ ?]]; done.
    + intros _. right. cbn. by rewrite last_snoc.
    + apply Forall_app. split; [|constructor; [done|constructor]]. eapply Forall_impl; [exact Hno|]. intros sv Ef. simpl in *. by rewrite Ef.
  - split; [|by intros []]. split; unfold saved_ts; cbn; rewrite ?app_nil_r; [done|done|by intros []|].
    eapply Forall_impl; [exact Hno|]. intros sv Ef. simpl in *. by rewrite Ef.
  - split; [|by intros []]. split; unfold saved_ts; cbn; rewrite ?app_nil_r; [done|done|by intros []|].
    eapply Forall_impl; [exact Hno|]. intros sv Ef. simpl in *. by rewrite Ef.
Qed.

Lemma fwd_maybe_save now late sec s : Fwd s -> Inv s -> alive s -> Fwd (maybe_save now late sec s).
Proof.
  intros HF HI Ha. unfold maybe_save. destruct (Z.ltb_spec (lastSaveTS s) (lastTS s)); [|done].
  destruct (_ || _); [|done]. by apply fwd_savePoint.
Qed.

(** What a save leaves. *)
Lemma savePoint_control sec (s : sys) : dsync_closed (savePoint sec s) = dsync_closed s /\ succ_open (savePoint sec s) = succ_open s /\
  fake_open (savePoint sec s) = fake_open s /\ hs_done (savePoint sec s) = hs_done s /\ pending (savePoint sec s) = pending s /\
  (sys_phase (savePoint sec s) = sys_phase s \/ sys_phase (savePoint sec s) = Dead).
Proof. unfold savePoint, save. destruct (cp_Save _ _ _ _ _) as [c [[]|e|]]; cbn; split_and!; auto. Qed.

Lemma closing_maybe_save now late sec s : Closing s -> hs_done s = false -> Closing (maybe_save now late sec s).
Proof.
  intros [C1 C2 C3] Hd. unfold maybe_save. destruct (_ <? _); [|done]. destruct (_ || _); [|done].
  destruct (savePoint_control sec s) as (H1 & H2 & H3 & H4 & H5 & H6). split; rewrite ?H1, ?H2, ?H3, ?H4, ?H5; [|done|by rewrite Hd].
  intros Hc. destruct H6 as [->| ->]; [auto|]. by intros [?|?].
Qed.

Lemma closing_running s : Closing s -> running (sys_phase s) ->
  dsync_closed s = None /\ succ_open s = true /\ hs_done s = false.
Proof.
  intros [C1 C2 C3] Hr.
  assert (Hc : dsync_closed s = None) by (destruct (dsync_closed s); [by destruct C1|done]).
  assert (Ho : succ_open s = true). { destruct (succ_open s); [done|]. destruct C2 as (? & ? & _); [done|congruence]. }
  split_and!; [done|done|]. destruct (hs_done s); [|done]. by destruct C3 as [? _]; [done|congruence].
Qed.

Lemma closing_open s : dsync_closed s = None -> succ_open s = true -> hs_done s = false -> Closing s.
Proof. intros H1 H2 H3. split; rewrite ?H1, ?H2, ?H3; [by intros []|done|done]. Qed.

Lemma running_alive (s : sys) : running (sys_phase s) -> alive s.
Proof. unfold alive. by intros [->| ->]. Qed.

Lemma hs_not_done s : Closing s -> succ_open s = true \/ fake_open s = true -> hs_done s = false.
Proof.
  intros [C1 C2 C3] Ho. destruct (hs_done s); [|done]. destruct C3 as (H1 & H2 & _); [done|]. destruct Ho; congruence.
Qed.

(** A step of the loop. *)
Lemma loop_step_keeps s s' : Fwd s -> Closing s -> running (sys_phase s) ->
  saves s' = saves s -> cp s' = cp s -> lastSaveTS s' = lastSaveTS s ->
  dsync_closed s' = dsync_closed s -> succ_open s' = succ_open s -> hs_done s' = hs_done s -> Fwd s' /\ Closing s'.
Proof.
  intros HF HC Hr H1 H2 H3 H4 H5 H6. split; [apply (fwd_same s); [done|by apply running_alive|done..]|].
  destruct (closing_running s HC Hr) as (E1 & E2 & E3). apply closing_open; congruence.
Qed.

(** A step of the goroutine that ends with a save. *)
Lemma success_step_keeps now late sec s s1 : Fwd s -> alive s -> Inv s1 -> Closing s1 -> hs_done s1 = false -> alive s1 ->
  saves s1 = saves s -> cp s1 = cp s -> lastSaveTS s1 = lastSaveTS s ->
  Fwd (maybe_save now late sec s1) /\ Closing (maybe_save now late sec s1).
Proof.
  intros HF Ha HI HC Hd Ha1 H1 H2 H3. split; [|by apply closing_maybe_save].
  apply fwd_maybe_save; [by apply (fwd_same s)|done|done].
Qed.

Lemma fwd_exit s s' r : Fwd s -> Closing s -> Inv s -> sys_phase s = Stopped None -> dsync_closed s = Some None -> hs_done s = true ->
  save (cp_TS (cp s)) 0 true (lastDDLSchemaVersion (sys_run s)) s = (s', r) ->
  forall e, Fwd (with_run (sys_run s) (Exited e) s') /\ Closing (with_run (sys_run s) (Exited e) s').
Proof.
  intros [F1 F2 F3 F4] [C1 C2 C3] HI Hp Hc Hd Hs e. assert (Hal : alive s) by (unfold alive; by rewrite Hp).
  pose proof (F2 (alive_not_dead s Hal)) as Hcp. destruct (C3 Hd) as (Hso & Hfo & Hle). specialize (Hle Hal).
  destruct (C2 Hso) as (cerr & Hc' & Hnil). rewrite Hc in Hc'. injection Hc' as <-. specialize (Hnil eq_refl).
  pose proof (save_TS _ _ _ _ _ _ _ Hs) as Hts. unfold save in Hs. destruct (cp_Save _ _ _ _ (cp s)) as [c r0]. injection Hs as <- <-. cbn [cp] in Hts.
  assert (Hall : Forall (fun it => item_ts it <= cp_TS (cp s)) (reported s)).
  { eapply Forall_impl; [exact (inv_reported _ HI)|]. intros it Hit. simpl in *. rewrite Hcp.
    destruct (F3 Hal) as [[Hn Hz]|Hl]; [|rewrite Hl; simpl; lia]. unfold saved_ts. rewrite Hn. simpl. lia. }
  split; [split|split]; unfold saved_ts; cbn.
  - rewrite fmap_app. destruct r0 as [[]|er|]; cbn; rewrite ?app_nil_r; [|exact F1..]. apply sorted_snoc; [done|].
    unfold saved_ts in Hcp. rewrite Hcp. lia.
  - intros _. rewrite fmap_app. assert (E : cp_TS c = cp_TS (cp s)) by (destruct Hts as [?|[-> _]]; done). rewrite E.
    destruct r0 as [[]|er|]; cbn; rewrite ?app_nil_r, ?last_snoc; done.
  - by intros [].
  - assert (Hold : Forall (fun sv => sv_consistent sv = true -> pending s = [] /\ ~ False /\ Forall (fun it => item_ts it <= sv_ts sv) (reported s)) (saves s)).
    { eapply Forall_impl; [exact F4|]. intros sv H Hsv. by destruct (H Hsv) as (_ & ? & _). }
    apply Forall_app. split; [exact Hold|]. destruct r0; [|constructor..]. constructor; [|constructor]. intros _. split_and!; [done|tauto|exact Hall].
  - intros _ [H|H]; discriminate.
  - rewrite Hso, Hc. eauto.
  - intros _. by rewrite Hso.
Qed.

Lemma fwd_step s s' : steps s s' -> Inv s -> Fwd s -> Closing s -> ordered s' -> Fwd s' /\ Closing s'.
Proof.
  intros Hst HI HF HC Ho. pose proof HC as [C1 C2 C3]. destruct Hst as
    [s Hp|s b Hp Hb Hroom r|s i r Hp Hpr|s i r it Hp Hpr|s i r it e Hp Hpr|s i r e Hp Hpr|s i r Hp Hpr|s e Hp|s Hp|s e cerr Hp Hc
    |s it rest ap late Ha Hso Hpend|s b rest late Ha Hfo Hch|s cerr late Ha Hso Hc Hnil|s e late Ha Hfo Hp Hch|s Ha Hd Hso Hfo
    |s e cerr Hp Hc Hd Hor|s s' r Hp Hc Hd Hsave].
  1-9: by apply (loop_step_keeps s); [done|done|rewrite Hp; (by left) || (by right)|..].
  - assert (Ha : alive s) by (unfold alive; by rewrite Hp). split; [by apply (fwd_same s)|].
    assert (Hso : succ_open s = true). { destruct (succ_open s); [done|]. destruct C2 as (? & ? & _); [done|congruence]. }
    pose proof (hs_not_done s HC (or_introl Hso)) as Hd. split; cbn; rewrite ?Hp, ?Hso, ?Hd; [|done|done]. by intros _ [?|?].
  - pose proof (hs_not_done s HC (or_introl Hso)) as Hd. apply (success_step_keeps _ _ _ s); try done.
    + pose proof (inv_report it rest s Hpend HI) as [I1 I2 I3 B1 B2 B3 I4 I5 I6 I7 I8 I9 I10 I11]. split; done.
    + split; cbn; rewrite ?Hso, ?Hd; done.
  - pose proof (hs_not_done s HC (or_intror Hfo)) as Hd. apply (success_step_keeps _ _ _ s); try done.
    + by apply inv_take_fake.
    + split; cbn; rewrite ?Hd; done.
  - pose proof (hs_not_done s HC (or_introl Hso)) as Hd. apply (success_step_keeps _ _ _ s); try done.
    + by destruct HI.
    + split; cbn; rewrite ?Hd; (done || eauto).
  - pose proof (hs_not_done s HC (or_intror Hfo)) as Hd. apply (success_step_keeps _ _ _ s); try done.
    + by destruct HI.
    + split; cbn; rewrite ?Hd; done.
  - set (s1 := if lastSaveTS s <? lastTS s then savePoint 0 s else s).
    assert (H : Fwd s1 /\ (alive s1 -> lastTS s1 <= lastSaveTS s1) /\ dsync_closed s1 = dsync_closed s /\ succ_open s1 = succ_open s /\
      fake_open s1 = fake_open s /\ pending s1 = pending s /\ (sys_phase s1 = sys_phase s \/ sys_phase s1 = Dead)).
    { unfold s1. destruct (Z.ltb_spec (lastSaveTS s) (lastTS s)); [|split_and!; auto].
      destruct (fwd_savePoint 0 s HF HI Ha) as [G1 G2]; [lia|]. destruct (savePoint_control 0 s) as (? & ? & ? & ? & ? & ?). split_and!; auto. }
    destruct H as (H1 & H2 & H3 & H4 & H5 & H6 & H7). split.
    + destruct H1 as [F1 F2 F3 F4]. split; done.
    + split; cbn; rewrite ?H3, ?H4, ?H5, ?H6; [|done|done]. intros Hcl. destruct H7 as [->| ->]; [auto|]. by intros [?|?].
  - assert (Ha : alive s) by (unfold alive; by rewrite Hp). split; [by apply (fwd_same s)|].
    split; cbn; [|done|]; [by intros _ [?|?]|]. intros _. destruct (C3 Hd) as (? & ? & _). split_and!; [done|done|by intros []].
  - by eapply fwd_exit.
Qed.
End Forward.

Lemma reachable_fwd schema c s : 0 <= cp_TS c <= base -> rtc steps (init schema c) s -> ordered s -> Fwd (cp_TS c) s /\ Closing s.
Proof.
  intros Hc Hr. revert s Hr. refine (rtc_ind_r (fun s => ordered s -> Fwd (cp_TS c) s /\ Closing s) (init schema c) _ _).
  { intros _. split; [split|by apply closing_open]; try done; [by repeat constructor|by left]. }
  intros s1 s2 Hr Hst IH Ho. destruct (step_consumed _ _ Hst) as [l Hl]. pose proof (ordered_app _ _ _ Hl Ho) as Ho1.
  destruct (IH Ho1). eapply fwd_step; try done. by eapply reachable_Inv.
Qed.

(** The checkpoint never moves back: the timestamps saved in a run grow from the
    one it started with, and the checkpoint in memory is the last one saved. *)
Theorem checkpoint_forward schema c s : 0 <= cp_TS c <= base -> rtc steps (init schema c) s -> ordered s ->
  StronglySorted Z.le (cp_TS c :: (sv_ts <$> saves s)) /\
  (sys_phase s <> Dead -> cp_TS (cp s) = default (cp_TS c) (last (sv_ts <$> saves s))).
Proof. intros Hc Hr Ho. destruct (reachable_fwd _ _ _ Hc Hr Ho) as [[F1 F2 F3 F4] _]. done. Qed.

End Safety.
