(* ===== verification/SyncerLive.v ===== *)
(** * SyncerLive
    The checkpoint of drainer catches up, and how far behind the fake binlogs let it
    fall. *)
From Stdlib Require Import Init.Byte.
From stdpp Require Import base option list gmap strings sorting relations.
From S2P Require Import Prelude Binlog MergeStrategy Schema Mutation Checkpoint LoaderModel Syncer SyncerProofs.

(** ** The cadence of fake binlogs *)

Section Cadence.
Context {env : SyncerEnv}.
Variable cfg : Config.
Variable loopback : option LoopBackSync.

(** The last fake binlog is at most three seconds before [ts]. *)
Definition covered (ts : Z) (r : RunState) : Prop :=
  exists t0, lastFakeCommitTime r = Some t0 /\ physical ts - t0 <= 3000.

Lemma append_covered o ts r : covered ts (appendFakeBinlogIfNeeded o ts r).
Proof.
  unfold appendFakeBinlogIfNeeded, covered. destruct (lastFakeCommitTime r) as [t0|] eqn:E.
  - destruct (Z.ltb_spec 3000 (physical ts - t0)); [exists (physical ts); cbn; split; [done|lia]|exists t0; split; [done|lia]].
  - exists (physical ts). cbn. split; [done|lia].
Qed.

(** A computation that skips its binlog after appending. *)
Lemma on_schema_covered {A} ts (c : M A) r k r' : on_schema c r k = (r', Skip) ->
  (forall a s, k a (set_schema s r) = (r', Skip) -> covered ts r') -> covered ts r'.
Proof. unfold on_schema. destruct (c (rs_schema r)) as [s [a|e|]]; [|done..]. intros H Hk. by apply (Hk a s). Qed.

Lemma on_result_covered {A} ts (c : outcome A) r k r' : on_result c r k = (r', Skip) ->
  (forall a, k a = (r', Skip) -> covered ts r') -> covered ts r'.
Proof. unfold on_result. destruct c as [a|e|]; [|done..]. intros H Hk. by apply (Hk a). Qed.

(** A binlog that is not synchronised still moves the checkpoint: unless its commit
    timestamp is in the list to ignore, after it the last fake binlog is at most
    three seconds of commit time before it; and fake binlogs are more than three
    seconds apart. *)
Theorem fake_cadence i r r' : process cfg loopback i r = (r', Skip) ->
  isIgnoreTxnCommitTS (IgnoreTxnCommitTS cfg) (CommitTs (binlog i)) = false -> 0 <= DdlJobId (binlog i) ->
  covered (CommitTs (binlog i)) r' /\
  (fakeBinlogs r' = fakeBinlogs r \/
   forall t0, lastFakeCommitTime r = Some t0 -> 3000 < physical (CommitTs (binlog i)) - t0).
Proof.
  intros Hpr Hig Hj. split.
  - unfold process in Hpr. rewrite Hig in Hpr.
    destruct (StartTs _ =? _); [injection Hpr as <-; apply append_covered|].
    destruct (Z.eqb_spec (DdlJobId (binlog i)) 0) as [Hz|Hz].
    + unfold process_dml in Hpr. eapply on_result_covered; [exact Hpr|]. clear Hpr. intros pv Hpr.
      eapply on_schema_covered; [exact Hpr|]. clear Hpr. intros ? s Hpr.
      eapply on_result_covered; [exact Hpr|]. clear Hpr. intros filt Hpr.
      eapply on_result_covered; [exact Hpr|]. clear Hpr. intros [pv' ignore] Hpr.
      destruct (negb ignore && negb filt); [done|]. injection Hpr as <-. apply append_covered.
    + destruct (Z.ltb_spec 0 (DdlJobId (binlog i))); [|lia]. destruct (job i) as [job|]; [|done].
      unfold process_ddl in Hpr. destruct (skipUnsupportedDDLJob job); [injection Hpr as <-; apply append_covered|].
      eapply on_schema_covered; [exact Hpr|]. clear Hpr. intros ? s Hpr. destruct (job_version job) as [v|]; [|done].
      eapply on_schema_covered; [exact Hpr|]. clear Hpr. intros ? s1 Hpr.
      destruct (is_delete_only_drop job); [injection Hpr as <-; apply append_covered|].
      eapply on_schema_covered; [exact Hpr|]. clear Hpr. intros [sn tn] s2 Hpr.
      destruct (skip_table sn tn); [injection Hpr as <-; apply append_covered|].
      eapply on_result_covered; [exact Hpr|]. clear Hpr. intros ignore Hpr. cbv beta zeta in Hpr.
      destruct (_ && _); [|done]. injection Hpr as <-. apply append_covered.
  - apply process_outcome in Hpr as (_ & _ & [(H & _)|(b & _ & _ & _ & _ & H)]); [by left|by right].
Qed.
End Cadence.

Section Live.
Context {env : SyncerEnv} {C : Type} `{!CheckPoint C} `{!CheckPointLaws C}.
Variable cfg : Config.
Variable loopback : option LoopBackSync.

Abbreviation sys := (@System C).
Abbreviation steps := (step cfg loopback).

(** ** What waits for what *)

(** The last item added is reported or is the last one pending; a fake binlog waits
    for an item that was added; while the loop runs the channels are open. *)
Record Waits (s : sys) : Prop := {
  w_last : lastAddCommitTS (sys_run s) <= lastTS s \/
    exists p, last (pending s) = Some p /\ item_ts p = lastAddCommitTS (sys_run s);
  w_pre : Forall (fun pre => pre <= Z.max 0 (lastAddCommitTS (sys_run s))) (fakeBinlogPreAddTS (sys_run s));
  w_len : length (fakeBinlogs (sys_run s)) = length (fakeBinlogPreAddTS (sys_run s));
  w_pos : 0 <= lastTS s;
  w_open : running (sys_phase s) -> succ_open s = true /\ fake_open s = true /\ dsync_closed s = None;
}.

(** What a save does not change. *)
Record keeps (s s' : sys) : Prop := {
  kp_run : sys_run s' = sys_run s;
  kp_phase : sys_phase s' = sys_phase s \/ sys_phase s' = Dead;
  kp_ch : fakeCh s' = fakeCh s;
  kp_pending : pending s' = pending s;
  kp_closed : dsync_closed s' = dsync_closed s;
  kp_succ : succ_open s' = succ_open s;
  kp_fake : fake_open s' = fake_open s;
  kp_lastTS : lastTS s' = lastTS s;
  kp_consumed : consumed s' = consumed s;
  kp_added : added s' = added s;
}.

Lemma savePoint_keeps sec s : keeps s (savePoint sec s).
Proof. unfold savePoint, save. destruct (cp_Save _ _ _ _ _) as [c [[]|e|]]; split; cbn; auto. Qed.

Lemma maybe_save_keeps now late sec s : keeps s (maybe_save now late sec s).
Proof. unfold maybe_save. destruct (_ <? _), (now || late); try apply savePoint_keeps; split; auto. Qed.

Lemma Waits_keeps s s' : keeps s s' -> Waits s -> Waits s'.
Proof.
  intros [K1 K2 K3 K4 K5 K6 K7 K8 K9 K10] [W1 W2 W3 W4 W5]. split; rewrite ?K1, ?K4, ?K5, ?K6, ?K7, ?K8; auto.
  intros Hr. apply W5. destruct K2 as [<-|E]; [done|]. rewrite E in Hr. by destruct Hr.
Qed.

Lemma with_lastTS_max ts (s : sys) : lastTS (with_lastTS ts s) = Z.max (lastTS s) ts.
Proof. cbn. destruct (Z.ltb_spec (lastTS s) ts); lia. Qed.

Lemma Waits_consume i s r p : Waits s -> running (sys_phase s) -> lastAddCommitTS r = lastAddCommitTS (sys_run s) ->
  fakes_kept (sys_run s) r \/ fake_appended (CommitTs (binlog i)) (sys_run s) r ->
  Waits (consume i (with_run r p s)).
Proof.
  intros [W1 W2 W3 W4 W5] Hr Ha Hf. specialize (W5 Hr). split; cbn; rewrite ?Ha; try done.
  - destruct Hf as [(_ & -> & _)|(b & _ & _ & -> & _)]; [done|]. apply Forall_app. split; [done|]. constructor; [lia|constructor].
  - destruct Hf as [(-> & -> & _)|(b & _ & -> & -> & _)]; [done|]. rewrite !length_app. simpl. lia.
Qed.

Lemma Waits_add i s r p it : Waits s -> running (sys_phase s) -> lastAddCommitTS r = CommitTs (binlog i) -> it_Binlog it = binlog i ->
  fakes_kept (sys_run s) r -> Z.max 0 (lastAddCommitTS (sys_run s)) <= CommitTs (binlog i) ->
  Waits (add_item it (consume i (with_run r p s))).
Proof.
  intros [W1 W2 W3 W4 W5] Hr Ha Hit (Hf1 & Hf2 & _) Hle. specialize (W5 Hr). split; cbn; rewrite ?Ha, ?Hf1, ?Hf2; try done.
  - right. exists it. rewrite last_snoc. split; [done|]. unfold item_ts. by rewrite Hit.
  - eapply Forall_impl; [exact W2|]. intros z ?. simpl in *. lia.
Qed.

Lemma Waits_report it rest s : pending s = it :: rest -> Waits s -> Waits (with_lastTS (item_ts it) (report it rest s)).
Proof.
  intros Hp [W1 W2 W3 W4 W5]. pose proof (with_lastTS_max (item_ts it) (report it rest s)) as Hts.
  change (lastTS (report it rest s)) with (lastTS s) in Hts.
  split; rewrite ?Hts; try done; [|lia].
  change (sys_run (with_lastTS (item_ts it) (report it rest s))) with (sys_run s).
  change (pending (with_lastTS (item_ts it) (report it rest s))) with rest.
  rewrite Hp in W1. destruct W1 as [?|(q & Hq & Hl)]; [left; lia|]. destruct rest as [|x rest].
  - injection Hq as <-. left. lia.
  - right. by exists q.
Qed.

Lemma Waits_step base s s' : 0 <= base -> steps s s' -> Inv base s -> ordered base s' -> Waits s -> Waits s'.
Proof.
  intros Hb Hst HI Ho W. pose proof W as [W1 W2 W3 W4 W5]. destruct Hst as
    [s Hp|s b Hp Hpush Hroom r|s i r Hp Hpr|s i r it Hp Hpr|s i r it e Hp Hpr|s i r e Hp Hpr|s i r Hp Hpr|s e Hp|s Hp|s e cerr Hp Hc
    |s it rest ap late Ha Hso Hpend|s b rest late Ha Hfo Hch|s cerr late Ha Hso Hc Hnil|s e late Ha Hfo Hp Hch|s Ha Hd Hso Hfo
    |s e cerr Hp Hc Hd Hor|s s' r Hp Hc Hd Hsave].
  1-9: assert (Hr : running (sys_phase s)) by (rewrite Hp; (by left) || (by right)); specialize (W5 Hr).
  - unfold loop_head. destruct (pushFakeBinlog _); [by split|].
    destruct (fakeBinlogs (sys_run s)) as [|b bs] eqn:Eb; [by split; cbn; rewrite ?Eb|].
    destruct (fakeBinlogPreAddTS (sys_run s)) as [|pre pres] eqn:Epre; [by split; cbn; rewrite ?Eb, ?Epre|].
    destruct (pre <=? lastTS s); [|by split; cbn; rewrite ?Eb, ?Epre].
    split; cbn; try done; [by apply Forall_cons_iff in W2 as [_ ?]|by injection W3].
  - by split.
  - apply process_outcome in Hpr as (H1 & H2 & H3). by apply Waits_consume.
  - apply process_outcome in Hpr as (H1 & H2 & H3 & H4). apply ordered_consume in Ho as [Ho Hlt]. apply ordered_latest in Ho.
    apply Waits_add; try done. pose proof (inv_lastAdd _ _ HI). change (latest base (with_run r AtHead s)) with (latest base s) in *. lia.
  - apply process_outcome in Hpr as (H1 & H2 & H3 & H4). apply ordered_consume in Ho as [Ho Hlt]. apply ordered_latest in Ho.
    apply Waits_add; try done. pose proof (inv_lastAdd _ _ HI). change (latest base (with_run r (Stopped (Some e)) s)) with (latest base s) in *. lia.
  - apply process_outcome in Hpr as (H1 & H2 & H3). apply Waits_consume; auto.
  - apply process_outcome in Hpr as (H1 & H2 & H3). apply Waits_consume; auto.
  - split; try done; cbn; by intros [?|?].
  - split; try done; cbn; by intros [?|?].
  - split; try done; cbn. rewrite Hp. by intros [?|?].
  - unfold on_success. eapply Waits_keeps; [apply maybe_save_keeps|].
    pose proof (Waits_report it rest s Hpend W) as [V1 V2 V3 V4 V5]. by split.
  - eapply Waits_keeps; [apply maybe_save_keeps|]. pose proof (with_lastTS_max (CommitTs b) (with_fakeCh rest s)) as Hts.
    change (lastTS (with_fakeCh rest s)) with (lastTS s) in Hts. split; rewrite ?Hts; try done; [|lia].
    destruct W1; [left|by right]. change (lastAddCommitTS (sys_run s) <= Z.max (lastTS s) (CommitTs b)). lia.
  - eapply Waits_keeps; [apply maybe_save_keeps|]. split; try done. cbn. intros Hr. destruct (W5 Hr) as (_ & _ & ?). congruence.
  - eapply Waits_keeps; [apply maybe_save_keeps|]. split; try done. cbn. rewrite Hp. by intros [?|?].
  - assert (V : Waits (if lastSaveTS s <? lastTS s then savePoint 0 s else s)).
    { destruct (_ <? _); [eapply Waits_keeps; [apply savePoint_keeps|done]|done]. }
    by destruct V.
  - split; try done; cbn; by intros [?|?].
  - unfold save in Hsave. destruct (cp_Save _ _ _ _ _). injection Hsave as <- <-. split; try done; cbn; by intros [?|?].
Qed.

Lemma reachable_waits base schema c s : 0 <= cp_TS c <= base -> rtc steps (init schema c) s -> ordered base s -> Waits s.
Proof.
  intros Hc Hr. revert s Hr. refine (rtc_ind_r (fun s => ordered base s -> Waits s) (init schema c) _ _).
  { intros _. split; cbn; try done; try (by left); try apply List.Forall_nil. }
  intros s1 s2 Hr Hst IH Ho. destruct (step_consumed _ _ _ _ Hst) as [l Hl]. pose proof (ordered_app _ _ _ _ Hl Ho) as Ho1.
  eapply Waits_step; [|exact Hst| |exact Ho|by apply IH]; [lia|]. eapply reachable_Inv; eauto; lia.
Qed.

(** ** Catching up *)

(** While the checkpoint is open, it can be saved. *)
Hypothesis save_works : forall ts sec cons v (c : C), cp_closed c = false -> snd (cp_Save ts sec cons v c) = Ret tt.

Lemma maybe_save_open now late sec s : cp_closed (cp s) = false ->
  sys_phase (maybe_save now late sec s) = sys_phase s /\ cp_closed (cp (maybe_save now late sec s)) = false.
Proof.
  intros Hc. unfold maybe_save. destruct (_ <? _), (now || late); try done. unfold savePoint, save.
  pose proof (save_works (lastTS s) sec false (latestVersion s) (cp s) Hc) as Hw.
  pose proof (save_memory (lastTS s) sec false (latestVersion s) (cp s) Hc) as Hm.
  destruct (cp_Save _ _ _ _ _) as [c r]. cbn [fst snd] in *. subst r. cbn. tauto.
Qed.

(** What the goroutine leaves to the loop, and that it has gone on. *)
Record after (s s' : sys) : Prop := {
  af_steps : rtc steps s s';
  af_run : sys_run s' = sys_run s;
  af_phase : sys_phase s' = sys_phase s;
  af_succ : succ_open s' = succ_open s;
  af_fake : fake_open s' = fake_open s;
  af_consumed : consumed s' = consumed s;
  af_added : added s' = added s;
  af_cp : cp_closed (cp s') = false;
  af_lastTS : lastTS s <= lastTS s';
}.

Lemma after_trans s s1 s2 : after s s1 -> after s1 s2 -> after s s2.
Proof. intros [] []. split; [by etrans|congruence..|done|lia]. Qed.

Lemma after_refl s : cp_closed (cp s) = false -> after s s.
Proof. by split. Qed.

(** The downstream reports what is pending. *)
Lemma drain_pending s : alive s -> succ_open s = true -> cp_closed (cp s) = false ->
  exists s', after s s' /\ pending s' = [] /\ fakeCh s' = fakeCh s /\ Forall (fun p => item_ts p <= lastTS s') (pending s).
Proof.
  remember (pending s) as ps eqn:Hps. revert s Hps. induction ps as [|it rest IH]; intros s Hps Ha Hso Hc.
  { exists s. split_and!; [by apply after_refl|done|done|constructor]. }
  set (s0 := with_version (it_SchemaVersion it) (with_lastTS (item_ts it) (report it rest s))).
  set (now := (0 <? DdlJobId (it_Binlog it)) || (0 <? 0)). set (s1 := maybe_save now false (if now then 0 else 0) s0).
  destruct (maybe_save_open now false (if now then 0 else 0) s0 Hc) as [Hp1 Hc1].
  pose proof (maybe_save_keeps now false (if now then 0 else 0) s0) as [K1 _ K3 K4 K5 K6 K7 K8 K9 K10].
  fold s1 in Hp1, Hc1, K1, K3, K4, K5, K6, K7, K8, K9, K10.
  assert (Hts : lastTS s1 = Z.max (lastTS s) (item_ts it)) by (rewrite K8; exact (with_lastTS_max (item_ts it) (report it rest s))).
  destruct (IH s1) as (s' & A & P1 & P2 & P3); [by rewrite K4|unfold alive; rewrite Hp1; exact Ha|by rewrite K6|done|].
  exists s'. split_and!.
  - eapply after_trans; [|exact A]. split; try done; [|lia]. apply rtc_once. by apply (st_success cfg loopback s it rest 0 false).
  - done.
  - by rewrite P2, K3.
  - constructor; [|done]. pose proof (af_lastTS _ _ A). lia.
Qed.

(** The goroutine takes the fake binlogs from the channel. *)
Lemma drain_channel s : alive s -> fake_open s = true -> cp_closed (cp s) = false ->
  exists s', after s s' /\ pending s' = pending s /\ fakeCh s' = [] /\ Forall (fun b => CommitTs b <= lastTS s') (fakeCh s).
Proof.
  remember (fakeCh s) as ch eqn:Hch. revert s Hch. induction ch as [|b rest IH]; intros s Hch Ha Hfo Hc.
  { exists s. split_and!; [by apply after_refl|done|done|constructor]. }
  set (s0 := with_lastTS (CommitTs b) (with_fakeCh rest s)). set (s1 := maybe_save false false 0 s0).
  destruct (maybe_save_open false false 0 s0 Hc) as [Hp1 Hc1].
  pose proof (maybe_save_keeps false false 0 s0) as [K1 _ K3 K4 K5 K6 K7 K8 K9 K10].
  fold s1 in Hp1, Hc1, K1, K3, K4, K5, K6, K7, K8, K9, K10.
  assert (Hts : lastTS s1 = Z.max (lastTS s) (CommitTs b)) by (rewrite K8; exact (with_lastTS_max (CommitTs b) (with_fakeCh rest s))).
  destruct (IH s1) as (s' & A & P1 & P2 & P3); [by rewrite K3|unfold alive; rewrite Hp1; exact Ha|by rewrite K7|done|].
  exists s'. split_and!.
  - eapply after_trans; [|exact A]. split; try done; [|lia]. apply rtc_once. by apply st_fake.
  - by rewrite P1, K4.
  - done.
  - constructor; [|done]. pose proof (af_lastTS _ _ A). lia.
Qed.

(** Nothing is pending and the loop is about to start an iteration. *)
Record idle (s : sys) : Prop := {
  id_phase : sys_phase s = AtHead;
  id_pending : pending s = [];
  id_ch : fakeCh s = [];
  id_open : fake_open s = true;
  id_cp : cp_closed (cp s) = false;
  id_len : length (fakeBinlogs (sys_run s)) = length (fakeBinlogPreAddTS (sys_run s));
  id_pre : Forall (fun pre => pre <= lastTS s) (fakeBinlogPreAddTS (sys_run s));
}.

(** The fake binlog that the start of the iteration offers goes through. *)
Lemma push_through s b : idle s -> let r := loop_head (lastTS s) (sys_run s) in pushFakeBinlog r = Some b ->
  exists s', rtc steps s s' /\ idle s' /\ fakeBinlogs (sys_run s') = fakeBinlogs r /\ pushFakeBinlog (sys_run s') = None /\
    consumed s' = consumed s /\ added s' = added s /\ Z.max (lastTS s) (CommitTs b) <= lastTS s'.
Proof.
  intros [D1 D2 D3 D4 D5 D6 D7] r Hb. pose proof (st_head cfg loopback s D1) as Hst. fold r in Hst. set (s1 := with_run r AtSelect s) in Hst.
  pose proof (st_push cfg loopback s1 b eq_refl Hb) as Hst2. change (fakeCh s1) with (fakeCh s) in Hst2. rewrite D3 in Hst2.
  cbv zeta in Hst2. match type of Hst2 with _ -> step _ _ _ ?x => set (s2 := x) in Hst2 end.
  destruct (drain_channel s2) as (s' & [A1 A2 A3 A4 A5 A6 A7 A8 A9] & P1 & P2 & P3); [done|done|done|].
  change (lastTS s2) with (lastTS s) in A9. change (fakeCh s2) with [b] in P3. apply Forall_cons_iff in P3 as [P3 _].
  assert (Hr : length (fakeBinlogs r) = length (fakeBinlogPreAddTS r) /\ Forall (fun pre => pre <= lastTS s) (fakeBinlogPreAddTS r)).
  { unfold r, loop_head. destruct (pushFakeBinlog (sys_run s)); [done|].
    destruct (fakeBinlogs (sys_run s)) as [|b0 bs] eqn:E1; [by rewrite E1|]. destruct (fakeBinlogPreAddTS (sys_run s)) as [|pre pres] eqn:E2; [done|].
    destruct (pre <=? lastTS s); [|by rewrite E1, E2]. cbn. apply Forall_cons_iff in D7 as [_ ?]. split; [by injection D6|done]. }
  exists s'. split_and!; try (rewrite ?A2; done).
  - eapply rtc_l; [exact Hst|]. eapply rtc_l; [apply Hst2; cbn; unfold chan_cap; lia|done].
  - split; rewrite ?A2, ?A3, ?A5; try done; [|by destruct Hr|].
    + by rewrite P1.
    + cbn. eapply Forall_impl; [exact (proj2 Hr)|]. intros z ?. simpl in *. lia.
  - lia.
Qed.

Lemma push_all n : forall s, length (fakeBinlogs (sys_run s)) = n -> idle s -> pushFakeBinlog (sys_run s) = None ->
  exists s', rtc steps s s' /\ idle s' /\ fakeBinlogs (sys_run s') = [] /\ pushFakeBinlog (sys_run s') = None /\
    consumed s' = consumed s /\ added s' = added s /\ lastTS s <= lastTS s' /\
    Forall (fun b => CommitTs b <= lastTS s') (fakeBinlogs (sys_run s)).
Proof.
  induction n as [|n IH]; intros s Hn Hid Hpush; destruct (fakeBinlogs (sys_run s)) as [|b bs] eqn:Eb; try done.
  { exists s. by split_and!. }
  pose proof Hid as [D1 D2 D3 D4 D5 D6 D7]. destruct (fakeBinlogPreAddTS (sys_run s)) as [|pre pres] eqn:Epre; [by rewrite Eb in D6|].
  apply Forall_cons_iff in D7 as [D7 _].
  assert (Hh : loop_head (lastTS s) (sys_run s) = mkRun (rs_schema (sys_run s)) bs pres (Some b) (lastAddCommitTS (sys_run s))
    (lastFakeCommitTime (sys_run s)) (lastDDLSchemaVersion (sys_run s))).
  { unfold loop_head. rewrite Hpush, Eb, Epre. by destruct (Z.leb_spec pre (lastTS s)); [|lia]. }
  destruct (push_through s b Hid) as (s1 & R1 & Hid1 & F1 & G1 & C1 & A1 & L1); [by rewrite Hh|]. rewrite Hh in F1. cbn in F1.
  destruct (IH s1) as (s' & R & Hid' & F & G & Cs & As & L & Hall); [rewrite F1; by injection Hn|done|done|].
  exists s'. split_and!; try done; [by etrans|congruence|congruence|lia|]. constructor; [lia|]. by rewrite F1 in Hall.
Qed.

End Live.
