(* ===== verification/SyncerExamples.v ===== *)
(** * SyncerExamples
    A run of the syncer: a transaction that is synchronised, one that is filtered
    out, the saves of the checkpoint and a clean exit. *)
From Stdlib Require Import Init.Byte.
From stdpp Require Import base option list gmap strings sorting relations.
From S2P Require Import Prelude Binlog MergeStrategy Schema Mutation Checkpoint LoaderModel Syncer SyncerProofs SyncerLive.

Module SyncerExamples.

(** ** A checkpoint in memory *)
Record MemCP := mkMem { mem_ts : Z; mem_consistent : bool; mem_version : Z; mem_closed : bool }.

Definition mem_Save (ts sec : Z) (consistent : bool) (version : Z) (c : MemCP) : MemCP * outcome unit :=
  if mem_closed c then (c, Fail ErrCheckPointClosed)
  else (mkMem ts consistent (Z.max version (mem_version c)) false, Ret tt).

#[local] Instance mem_checkpoint : CheckPoint MemCP := {
  cp_Load := fun c => (c, Ret tt);
  cp_Save := mem_Save;
  cp_TS := mem_ts;
  cp_SchemaVersion := mem_version;
  cp_IsConsistent := mem_consistent;
  cp_Close := fun c => (mkMem (mem_ts c) (mem_consistent c) (mem_version c) true, Ret tt);
  cp_closed := mem_closed;
  cp_reopen := fun c => (mkMem (mem_ts c) (mem_consistent c) (mem_version c) false, Ret tt);
}.

#[local] Instance mem_laws : CheckPointLaws MemCP.
Proof.
  split.
  - intros ts sec cons v c Hc. cbn in *. unfold mem_Save. by rewrite Hc.
  - intros ts sec cons v c Hc. cbn in *. unfold mem_Save. by rewrite Hc.
  - intros ts sec cons v c c' c'' _. cbn. unfold mem_Save. destruct (mem_closed c); [done|]. by intros [= <-] [= <-].
Qed.

Lemma mem_save_works ts sec cons v (c : MemCP) : cp_closed c = false -> snd (cp_Save ts sec cons v c) = Ret tt.
Proof. cbn. unfold mem_Save. by intros ->. Qed.

(** ** The environment *)

(** A transaction is written as the id of the table it inserts a row into. *)
#[local] Instance the_env : SyncerEnv := {
  unmarshal_prewrite := fun b =>
    match b with
    | [t] => Ret (mkPrewriteValue 1 [mkMutation (byte_to_Z t) [[x01]] [] [] [MT_Insert]])
    | _ => Fail (Err "unmarshal")
    end;
  skip_table := fun s t => bool_decide (t = "log"%string);
  binlog_filter := None;
  parse_event := fun _ => None;
  to_dmls := fun _ _ _ => Ret [];
  equal_fold := fun a b => bool_decide (a = b);
}.

Definition cfg : Config := mkConfig [] true "mysql".
Definition schema : Schema := set_names {[10 := mkTableName "shop" "items"; 11 := mkTableName "shop" "log"]} (NewSchema [] false).

Definition txn (start commit table : Z) : binlogItem Job :=
  mkBinlogItem Job (mkBinlog BinlogType_Commit start commit [] [byte_of_Z table] [] 0 0) "pump" None.

Definition i1 : binlogItem Job := txn 99 100 10.
Definition i2 : binlogItem Job := txn 199 200 11.

(** ** The run *)

Definition head_of (s : @System MemCP) : System := with_run (loop_head (lastTS s) (sys_run s)) AtSelect s.
Definition feed (i : binlogItem Job) (s : @System MemCP) : System :=
  match process cfg None i (sys_run s) with
  | (r, Skip) => consume i (with_run r AtHead s)
  | (r, Add it) => add_item it (consume i (with_run r AtHead s))
  | _ => s
  end.
Definition push_of (s : @System MemCP) : System :=
  match pushFakeBinlog (sys_run s) with
  | Some b => let r := sys_run s in with_fakeCh (fakeCh s ++ [b])
      (with_run (mkRun (rs_schema r) (fakeBinlogs r) (fakeBinlogPreAddTS r) None (lastAddCommitTS r) (lastFakeCommitTime r) (lastDDLSchemaVersion r)) AtHead s)
  | None => s
  end.
Definition success_of (s : @System MemCP) : System :=
  match pending s with it :: rest => on_success it rest 0 true s | [] => s end.
Definition fake_of (s : @System MemCP) : System :=
  match fakeCh s with b :: rest => maybe_save false true 0 (with_lastTS (CommitTs b) (with_fakeCh rest s)) | [] => s end.

Definition a0 : @System MemCP := Eval vm_compute in init schema (mkMem 50 false 0 false).
Definition a1 : @System MemCP := Eval vm_compute in head_of a0.
Definition a2 : @System MemCP := Eval vm_compute in feed i1 a1.
Definition a3 : @System MemCP := Eval vm_compute in head_of a2.
Definition a4 : @System MemCP := Eval vm_compute in feed i2 a3.
Definition a5 : @System MemCP := Eval vm_compute in success_of a4.
Definition a6 : @System MemCP := Eval vm_compute in head_of a5.
Definition a7 : @System MemCP := Eval vm_compute in push_of a6.
Definition a8 : @System MemCP := Eval vm_compute in fake_of a7.

(** The steps to [a4]: the item was added, the fake binlog waits for it. *)
Lemma run4 : rtc (step cfg None) a0 a4.
Proof.
  eapply rtc_l; [apply (st_head cfg None a0); reflexivity|].
  eapply rtc_l; [apply (st_add cfg None a1 i1 (fst (process cfg None i1 (sys_run a1)))); [reflexivity|vm_compute; reflexivity]|].
  eapply rtc_l; [apply (st_head cfg None a2); reflexivity|].
  eapply rtc_l; [apply (st_skip cfg None a3 i2 (fst (process cfg None i2 (sys_run a3)))); [reflexivity|vm_compute; reflexivity]|].
  apply rtc_refl.
Qed.

Definition the_item : Item := mkItem (binlog i1) (Some (mkPrewriteValue 1 [mkMutation 10 [[x01]] [] [] [MT_Insert]])) "" "" 1 false.
Definition the_fake : Binlog := GenFakeBinlog 200.

Lemma waiting : pending a4 = [the_item] /\ fakeBinlogs (sys_run a4) = [the_fake] /\ fakeBinlogPreAddTS (sys_run a4) = [100].
Proof. vm_compute. done. Qed.

Lemma run8 : rtc (step cfg None) a0 a8.
Proof.
  etrans; [exact run4|].
  apply rtc_l with a5.
  { replace a5 with (on_success the_item [] 0 true a4) by (vm_compute; reflexivity).
    apply st_success; [done|reflexivity|vm_compute; reflexivity]. }
  apply rtc_l with a6; [apply (st_head cfg None a5); reflexivity|].
  apply rtc_l with a7.
  { pose proof (st_push cfg None a6 the_fake eq_refl) as H. cbv zeta in H.
    match type of H with _ -> _ -> step _ _ _ ?x => replace a7 with x by (vm_compute; reflexivity) end.
    apply H; [vm_compute; reflexivity|vm_compute; lia]. }
  apply rtc_once.
  replace a8 with (maybe_save false true 0 (with_lastTS (CommitTs the_fake) (with_fakeCh [] a7))) by (vm_compute; reflexivity).
  apply st_fake; [done|reflexivity|vm_compute; reflexivity].
Qed.

(** The loop is shut down, the downstream closed, and [run] returns. *)
Definition a9 : @System MemCP := Eval vm_compute in head_of a8.
Definition a10 : @System MemCP := Eval vm_compute in with_run (sys_run a9) (Stopped None) a9.
Definition a11 : @System MemCP := Eval vm_compute in with_closed (Some None) a10.
Definition a12 : @System MemCP := Eval vm_compute in maybe_save false false 0 (with_open false (fake_open a11) a11).
Definition a13 : @System MemCP := Eval vm_compute in maybe_save false false 0 (with_open (succ_open a12) false a12).
Definition a14 : @System MemCP := Eval vm_compute in with_done (if lastSaveTS a13 <? lastTS a13 then savePoint 0 a13 else a13).
Definition a15 : @System MemCP := Eval vm_compute in with_run (sys_run a14) (Exited None) (fst (save (cp_TS (cp a14)) 0 true (lastDDLSchemaVersion (sys_run a14)) a14)).

Lemma run15 : rtc (step cfg None) a0 a15.
Proof.
  etrans; [exact run8|].
  apply rtc_l with a9; [apply (st_head cfg None a8); reflexivity|].
  apply rtc_l with a10; [apply (st_shutdown cfg None a9); reflexivity|].
  apply rtc_l with a11; [apply (st_close cfg None a10 None None); reflexivity|].
  apply rtc_l with a12; [apply (st_succ_closed cfg None a11 None false); [done|reflexivity|reflexivity|vm_compute; reflexivity]|].
  apply rtc_l with a13; [apply (st_fake_closed cfg None a12 None false); [done|reflexivity|reflexivity|vm_compute; reflexivity]|].
  apply rtc_l with a14; [apply (st_hs_done cfg None a13); [done|reflexivity|reflexivity|reflexivity]|].
  apply rtc_once.
  replace a15 with (with_run (sys_run a14) (Exited None) (fst (save (cp_TS (cp a14)) 0 true (lastDDLSchemaVersion (sys_run a14)) a14)))
    by (vm_compute; reflexivity).
  apply (st_exit cfg None a14 (fst (save (cp_TS (cp a14)) 0 true (lastDDLSchemaVersion (sys_run a14)) a14)) (Ret tt));
    [reflexivity|reflexivity|reflexivity|vm_compute; reflexivity].
Qed.

Lemma inputs_ordered (s : @System MemCP) : consumed s = [i1; i2] -> ordered 50 s.
Proof. intros H. unfold ordered, inputs. rewrite H. vm_compute. repeat constructor. Qed.

Lemma checkpoint_safe_witness :
  sv_ts <$> saves a8 = [100; 200] /\ the_item ∈ reported a8.
Proof.
  split; [vm_compute; reflexivity|].
  apply (checkpoint_safe cfg None 50 schema (mkMem 50 false 0 false) a8) with (mkSaved 100 0 false 1).
  - cbn. lia.
  - exact run8.
  - apply inputs_ordered. reflexivity.
  - replace (saves a8) with [mkSaved 100 0 false 1; mkSaved 200 0 false 1] by (vm_compute; reflexivity). left.
  - replace (added a8) with [the_item] by (vm_compute; reflexivity). left.
  - cbn. lia.
Defined.

Lemma checkpoint_forward_witness : StronglySorted Z.le [50; 100; 200; 200] /\ mem_ts (cp a15) = 200.
Proof.
  destruct (checkpoint_forward cfg None 50 schema (mkMem 50 false 0 false) a15) as [H1 H2].
  - cbn. lia.
  - exact run15.
  - apply inputs_ordered. reflexivity.
  - split; [exact H1|]. exact (H2 ltac:(discriminate)).
Defined.



Lemma fake_cadence_witness :
  exists r', process cfg None i2 (sys_run a3) = (r', Skip) /\ covered 200 r'.
Proof.
  exists (fst (process cfg None i2 (sys_run a3))).
  assert (H : process cfg None i2 (sys_run a3) = (fst (process cfg None i2 (sys_run a3)), Skip)) by (vm_compute; reflexivity).
  split; [exact H|]. apply (fake_cadence cfg None i2 (sys_run a3) _ H); [reflexivity|vm_compute; discriminate].
Defined.
End SyncerExamples.
