(* ===== verification/DSync.v ===== *)
(** * DSync
    The downstream syncers of drainer ([drainer/sync]): how an error is kept and
    handed out, how the MySQL syncer closes, and the flow control of the Kafka
    syncer. *)
From stdpp Require Import base option list gmap strings relations.
From S2P Require Import Prelude.

(** ** Keeping an error ([baseError] of [util.go]) *)

Record baseError := mkBaseError { be_err : option error; errCh_closed : bool }.

Definition newBaseError : baseError := mkBaseError None false.

(** [setErr]; closing a closed channel panics. *)
Definition setErr (err : option error) (b : baseError) : outcome baseError :=
  if errCh_closed b then Panic else Ret (mkBaseError err true).

(** What is received from the channel that [error] returns: nothing as long as no
    result was set. *)
Definition error_recv (b : baseError) : option (option error) :=
  if errCh_closed b then Some (be_err b) else None.

(** ** Closing the MySQL syncer *)

(** [MysqlSyncer.Close], with the result of the loader and, when there is a relay log,
    the result of closing it. *)
Definition MysqlSyncer_Close (err : option error) (relayer : option (option error)) : option error :=
  match relayer with
  | None => err
  | Some closeRelayerErr => match err with Some _ => closeRelayerErr | None => err end
  end.

(** ** Flow control of the Kafka syncer *)

Definition stallWriteSize : Z := 90 * 1024 * 1024.

(** A message: its commit timestamp and its size. *)
Abbreviation msg := (Z * Z)%type.

Record KafkaSyncer := mkKafka {
  toBeAckCommitTS : gmap Z Z;
  toBeAckTotalSize : Z;
  resumeProduce : option bool;  (** the channel, when there is one, and whether it is closed *)
  waiting : option msg;         (** the message that [saveBinlog] holds back *)
  producer : list msg;          (** what the producer has and has not acknowledged *)
  acked : list msg;
}.

Definition NewKafka : KafkaSyncer := mkKafka ∅ 0 None None [] [].

(** The locked part of [saveBinlog] and what follows: the message is given to the
    producer, or held back. *)
Definition saveBinlog (m : msg) (k : KafkaSyncer) : KafkaSyncer :=
  let acks := <[fst m := snd m]> (toBeAckCommitTS k) in
  let total := toBeAckTotalSize k + snd m in
  if (stallWriteSize <=? total) && (1 <? Z.of_nat (size acks)) then
    mkKafka acks total (Some false) (Some m) (producer k) (acked k)
  else mkKafka acks total (resumeProduce k) None (producer k ++ [m]) (acked k).

(** The body of the loop over [producer.Successes()]. *)
Definition on_ack (m : msg) (rest : list msg) (k : KafkaSyncer) : KafkaSyncer :=
  let sz := default 0 (toBeAckCommitTS k !! fst m) in
  let total := toBeAckTotalSize k - sz in
  let resume :=
    if total <? stallWriteSize then match resumeProduce k with Some _ => Some true | None => None end else resumeProduce k in
  mkKafka (delete (fst m) (toBeAckCommitTS k)) total resume (waiting k) rest (acked k ++ [m]).

(** [saveBinlog] is called by one goroutine, once it has returned from the call
    before; the producer acknowledges in the order of the partition. *)
Inductive kstep : KafkaSyncer -> KafkaSyncer -> Prop :=
  | ks_save k m : waiting k = None -> fst m ∉ dom (toBeAckCommitTS k) -> 0 <= snd m -> kstep k (saveBinlog m k)
  | ks_resume k m : waiting k = Some m -> resumeProduce k = Some true ->
      kstep k (mkKafka (toBeAckCommitTS k) (toBeAckTotalSize k) (resumeProduce k) None (producer k ++ [m]) (acked k))
  | ks_ack k m rest : producer k = m :: rest -> kstep k (on_ack m rest k).

(** *** The invariant *)

Fixpoint total_size (l : list msg) : Z := match l with [] => 0 | m :: l => snd m + total_size l end.

(** The messages that are counted. *)
Definition in_flight (k : KafkaSyncer) : list msg := producer k ++ option_list (waiting k).

Lemma total_size_app l1 l2 : total_size (l1 ++ l2) = total_size l1 + total_size l2.
Proof. induction l1; simpl; lia. Qed.

Record KInv (k : KafkaSyncer) : Prop := {
  k_map : toBeAckCommitTS k = list_to_map (in_flight k);
  k_nodup : NoDup (fst <$> in_flight k);
  k_total : toBeAckTotalSize k = total_size (in_flight k);
  k_pos : Forall (fun m => 0 <= snd m) (in_flight k);
  k_wait : is_Some (waiting k) -> resumeProduce k = Some false /\ stallWriteSize <= toBeAckTotalSize k \/
    resumeProduce k = Some true /\ toBeAckTotalSize k < stallWriteSize;
  k_bound : total_size (producer k) < stallWriteSize \/ (length (producer k) <= 1)%nat;
}.

Lemma KInv_new : KInv NewKafka.
Proof. split; try done; [apply base.NoDup_nil_2|by intros []|by left]. Qed.

Lemma total_size_nonneg l : Forall (fun m : msg => 0 <= snd m) l -> 0 <= total_size l.
Proof. induction 1; simpl in *; lia. Qed.

(** Appending a message with a fresh timestamp. *)
Lemma list_to_map_snoc (l : list msg) m : fst m ∉ (fst <$> l) ->
  (list_to_map (l ++ [m]) : gmap Z Z) = <[fst m := snd m]> (list_to_map l).
Proof.
  intros Hni. rewrite list_to_map_app. apply map_eq. intros i.
  destruct m as [ts sz]; cbn [fst snd] in *. destruct (decide (i = ts)) as [->|Hne].
  - rewrite lookup_insert_eq, lookup_union_r; [simpl; by rewrite lookup_insert_eq|]. by apply not_elem_of_list_to_map_1.
  - rewrite lookup_insert_ne by done. destruct (list_to_map l !! i) as [x|] eqn:E.
    + by apply lookup_union_Some_l.
    + rewrite lookup_union_r by done. simpl. by rewrite lookup_insert_ne.
Qed.

Lemma dom_list_to_map (l : list msg) x : x ∉ dom (list_to_map l : gmap Z Z) -> x ∉ (fst <$> l).
Proof. intros H Hin. apply H. rewrite elem_of_dom. destruct (list_to_map l !! x) eqn:E; [by eexists|].
  by apply not_elem_of_list_to_map_2 in E. Qed.

Lemma size_list_to_map (l : list msg) : NoDup (fst <$> l) -> size (list_to_map l : gmap Z Z) = length l.
Proof. intros H. rewrite map_size_list_to_map by done. done. Qed.

Lemma KInv_save k m : KInv k -> waiting k = None -> fst m ∉ dom (toBeAckCommitTS k) -> 0 <= snd m -> KInv (saveBinlog m k).
Proof.
  intros [K1 K2 K3 K4 K5 K6] Hw Hni Hm. unfold in_flight in *. rewrite Hw in *. simpl in *. rewrite app_nil_r in *.
  rewrite K1 in Hni. apply dom_list_to_map in Hni.
  assert (Hmap : <[fst m := snd m]> (toBeAckCommitTS k) = list_to_map (producer k ++ [m])) by (by rewrite K1, list_to_map_snoc).
  assert (Hnd : NoDup (fst <$> producer k ++ [m])).
  { rewrite fmap_app. apply list.NoDup_app. split_and!; [done| |apply list.NoDup_singleton].
    intros x Hx ->%list_elem_of_singleton. done. }
  unfold saveBinlog. rewrite Hmap, size_list_to_map by done. rewrite length_app. simpl.
  destruct (_ && _) eqn:E.
  - apply andb_true_iff in E as [E1%Z.leb_le E2%Z.ltb_lt]. split; unfold in_flight; cbn; try done.
    + rewrite K3, total_size_app. simpl. lia.
    + apply Forall_app. split; [done|]. constructor; [done|constructor].
    + intros _. left. split; [done|lia].
  - apply andb_false_iff in E. split; unfold in_flight; cbn; rewrite ?app_nil_r; try done.
    + rewrite K3, total_size_app. simpl. lia.
    + apply Forall_app. split; [done|]. constructor; [done|constructor].
    + rewrite total_size_app, length_app. simpl. destruct E as [E%Z.leb_gt|E%Z.ltb_ge]; [left|right]; lia.
Qed.

Lemma KInv_ack k m rest : KInv k -> producer k = m :: rest -> KInv (on_ack m rest k).
Proof.
  intros [K1 K2 K3 K4 K5 K6] Hp. unfold in_flight in *. rewrite Hp in *. simpl in *.
  apply list.NoDup_cons in K2 as [Hni Hnd]. apply Forall_cons_iff in K4 as [Hm K4].
  assert (Hsz : toBeAckCommitTS k !! fst m = Some (snd m)) by (rewrite K1; destruct m; simpl; apply lookup_insert_eq).
  unfold on_ack. rewrite Hsz. simpl. split; unfold in_flight; cbn; try done.
  - rewrite K1. destruct m as [ts sz]. simpl. rewrite delete_insert_id; [done|]. by apply not_elem_of_list_to_map_1.
  - lia.
  - intros Hw. destruct (Z.ltb_spec (toBeAckTotalSize k - snd m) stallWriteSize).
    + right. split; [|lia]. by destruct (K5 Hw) as [[-> _]|[-> _]].
    + left. split; [|lia]. destruct (K5 Hw) as [[-> _]|[_ ?]]; [done|lia].
  - destruct K6 as [?|?]; [left; lia|]. right. lia.
Qed.

Lemma KInv_resume k m : KInv k -> waiting k = Some m -> resumeProduce k = Some true ->
  KInv (mkKafka (toBeAckCommitTS k) (toBeAckTotalSize k) (resumeProduce k) None (producer k ++ [m]) (acked k)).
Proof.
  intros [K1 K2 K3 K4 K5 K6] Hw Hr. unfold in_flight in *. rewrite Hw in *. simpl in *.
  split; unfold in_flight; cbn; rewrite ?app_nil_r; try done.
  destruct K5 as [[? _]|[_ Hlt]]; [by eexists|congruence|]. left. lia.
Qed.

Lemma KInv_step k k' : kstep k k' -> KInv k -> KInv k'.
Proof. destruct 1; auto using KInv_save, KInv_ack, KInv_resume. Qed.

Lemma KInv_reachable k : rtc kstep NewKafka k -> KInv k.
Proof.
  intros Hr. apply (rtc_ind_r KInv NewKafka) in Hr; [done|apply KInv_new|]. intros y z _ Hst. by apply KInv_step.
Qed.

(** The bytes that the Kafka syncer has given to the producer and that are not
    acknowledged stay below [stallWriteSize], unless it is a single message; the
    running total is exactly the size of the messages counted. *)
Theorem kafka_bounded k : rtc kstep NewKafka k ->
  toBeAckTotalSize k = total_size (in_flight k) /\
  (total_size (producer k) < stallWriteSize \/ (length (producer k) <= 1)%nat).
Proof. intros Hr. destruct (KInv_reachable k Hr). done. Qed.

(** Acknowledging all that the producer has. *)
Lemma ack_all n : forall k, length (producer k) = n -> KInv k ->
  exists k', rtc kstep k k' /\ KInv k' /\ producer k' = [] /\ waiting k' = waiting k.
Proof.
  induction n as [|n IH]; intros k Hn HI; destruct (producer k) as [|m rest] eqn:Ep; try done; [by exists k|].
  destruct (IH (on_ack m rest k)) as (k' & H1 & H2 & H3 & H4); [by injection Hn|by apply KInv_ack|].
  exists k'. split_and!; [|done|done|done]. eapply rtc_l; [by apply ks_ack|done].
Qed.

(** A message that is held back is let through once the producer has acknowledged
    what it was given before, provided it is smaller than [stallWriteSize]. *)
Theorem kafka_resumes k m : rtc kstep NewKafka k -> waiting k = Some m -> snd m < stallWriteSize ->
  exists k', rtc kstep k k' /\ waiting k' = None /\ producer k' = [m].
Proof.
  intros Hr Hw Hm. apply KInv_reachable in Hr.
  destruct (ack_all _ k eq_refl Hr) as (k' & H1 & [K1 K2 K3 K4 K5 K6] & H3 & H4). rewrite Hw in H4.
  assert (Hrs : resumeProduce k' = Some true).
  { destruct K5 as [[_ Hs]|[? _]]; [by rewrite H4|exfalso|done].
    unfold in_flight in K3. rewrite H3, H4 in K3. simpl in K3. lia. }
  eexists. split; [eapply rtc_r; [exact H1|by eapply ks_resume]|]. cbn. by rewrite H3.
Qed.

(** A larger one is not: whatever is acknowledged, it stays held back. *)
Theorem kafka_big_message_stuck k k' m : rtc kstep NewKafka k -> waiting k = Some m -> stallWriteSize <= snd m ->
  rtc kstep k k' -> waiting k' = Some m.
Proof.
  intros Hr Hw Hm Hs. apply KInv_reachable in Hr.
  assert (H : KInv k' /\ waiting k' = Some m); [|by destruct H].
  revert k' Hs. apply (rtc_ind_r (fun k' => KInv k' /\ waiting k' = Some m) k); [done|].
  intros y z _ Hst [HI Hy]. split; [by eapply KInv_step|]. destruct Hst as [y m' Hn|y m' Hn Hres|y m' rest]; [congruence| |done].
  exfalso. destruct HI as [K1 K2 K3 K4 K5 K6]. destruct K5 as [[? _]|[_ Hlt]]; [by rewrite Hy|congruence|].
  unfold in_flight in *. rewrite Hy in *. rewrite total_size_app in K3. simpl in K3.
  apply Forall_app in K4 as [K4 _]. apply total_size_nonneg in K4. lia.
Qed.

Module DSyncExamples.

(** The relay log closes without an error: [Close] reports success, whatever the
    loader reported. *)
Lemma close_hides_error err : MysqlSyncer_Close err (Some None) = None.
Proof. by destruct err. Qed.

(** The loader succeeded, the relay log fails to close: [Close] reports success. *)
Lemma close_drops_relay_error : MysqlSyncer_Close None (Some (Some (Err "close failed"))) = None.
Proof. reflexivity. Qed.

Definition mb (n : Z) : Z := n * 1024 * 1024.

(** Two messages of 50 MB: the second one is held back. *)
Definition k2 : KafkaSyncer := saveBinlog (2, mb 50) (saveBinlog (1, mb 50) NewKafka).

Lemma run2 : rtc kstep NewKafka k2.
Proof.
  eapply rtc_l; [apply (ks_save NewKafka (1, mb 50)); [done|set_solver|unfold mb; simpl; lia]|].
  eapply rtc_l; [apply (ks_save _ (2, mb 50)); [done| |unfold mb; simpl; lia]|apply rtc_refl].
  apply not_elem_of_dom. vm_compute. reflexivity.
Qed.

Lemma kafka_bounded_witness : total_size (producer k2) = mb 50 /\ toBeAckTotalSize k2 = total_size (in_flight k2).
Proof. split; [reflexivity|]. apply (kafka_bounded k2 run2). Defined.

Lemma kafka_resumes_witness : waiting k2 = Some (2, mb 50) /\ exists k', rtc kstep k2 k' /\ waiting k' = None /\ producer k' = [(2, mb 50)].
Proof.
  split; [vm_compute; reflexivity|]. apply (kafka_resumes k2 (2, mb 50) run2); [vm_compute; reflexivity|vm_compute; reflexivity].
Defined.

(** A message of 100 MB behind a small one: it is never sent. *)
Definition k3 : KafkaSyncer := saveBinlog (2, mb 100) (saveBinlog (1, 1) NewKafka).

Lemma kafka_big_message_stuck_witness : waiting k3 = Some (2, mb 100) /\ forall k', rtc kstep k3 k' -> waiting k' = Some (2, mb 100).
Proof.
  assert (Hw : waiting k3 = Some (2, mb 100)) by (vm_compute; reflexivity). split; [exact Hw|].
  intros k' Hs. refine (kafka_big_message_stuck k3 k' (2, mb 100) _ Hw _ Hs); [|vm_compute; discriminate].
  eapply rtc_l; [apply (ks_save NewKafka (1, 1)); [done|set_solver|simpl; lia]|].
  eapply rtc_l; [apply (ks_save _ (2, mb 100)); [done| |unfold mb; simpl; lia]|apply rtc_refl].
  apply not_elem_of_dom. vm_compute. reflexivity.
Defined.
End DSyncExamples.
