(* ===== verification/KafkaSync.v ===== *)
(** * KafkaSync
    The syncer for Kafka ([drainer/sync/kafka.go]) as a whole: [Sync] with its two
    waits, the goroutine that handles the successes of the producer, the loop of [run]
    with its check for a stalled producer, and [Close].  The flow control is that of
    [DSync].  The producer acknowledges the messages of the partition in order; while
    it is being closed it may also take the acknowledgements itself. *)
From stdpp Require Import base option list gmap strings relations.
From S2P Require Import Prelude DSync.

Definition maxWaitTimeToSendMSG : Z := 30 * 1000000000.

(** The loop of [run]: in its select, in [producer.Close], waiting for the goroutine of the
    successes, and at its end. *)
Inductive run_pc := RLoop | RClosing | RWait | RDone.

(** The state: [handler] is the item that the goroutine of the successes is about to report,
    [reported] what it has reported; [synced] are the messages of the calls of [Sync], and
    [failed] is the one whose call returned the error of the syncer. *)
Record ksyncer := mkKS {
  flow : KafkaSyncer;
  run : run_pc;
  base : baseError;
  lastSuccessTime : Z;
  shutdown : bool;
  handler : option msg;
  reported : list msg;
  success_closed : bool;
  synced : list msg;
  failed : option msg;
}.

Definition NewKafkaSyncer : ksyncer := mkKS NewKafka RLoop newBaseError 0 false None [] false [] None.

(** The locked part of [saveBinlog] when the call then ends with the error: the message is counted
    but not sent. *)
Definition count_only (m : msg) (k : KafkaSyncer) : KafkaSyncer :=
  let k' := saveBinlog m k in mkKafka (toBeAckCommitTS k') (toBeAckTotalSize k') (resumeProduce k') None (producer k) (acked k).

(** [lastSuccessTime] after a call of [saveBinlog]. *)
Definition save_time (now : Z) (s : ksyncer) : Z :=
  if bool_decide (toBeAckCommitTS (flow s) = ∅) then now else lastSuccessTime s.

(** The message that is held back is given up. *)
Definition drop_waiting (k : KafkaSyncer) : KafkaSyncer :=
  mkKafka (toBeAckCommitTS k) (toBeAckTotalSize k) (resumeProduce k) None (producer k) (acked k).

(** An acknowledgement that the closing producer takes itself. *)
Definition swallow (m : msg) (rest : list msg) (k : KafkaSyncer) : KafkaSyncer :=
  mkKafka (toBeAckCommitTS k) (toBeAckTotalSize k) (resumeProduce k) (waiting k) rest (acked k ++ [m]).

(** Whether the check of a tick finds the producer stalled. *)
Definition stalled (now : Z) (s : ksyncer) : bool :=
  bool_decide (toBeAckCommitTS (flow s) <> ∅) && (maxWaitTimeToSendMSG <? now - lastSuccessTime s).

Definition ErrStalled : error := Err "fail to push msg to kafka after 30s, check if kafka is up and working".

Definition set_base (err : option error) (pc : run_pc) (s : ksyncer) : outcome ksyncer :=
  let! b := setErr err (base s) in
  Ret (mkKS (flow s) pc b (lastSuccessTime s) (shutdown s) (handler s) (reported s) (success_closed s) (synced s) (failed s)).

(** [Sync] and [Close] are called by one goroutine, which does not call [Sync] again after an
    error; a message that fails in the producer ends the process. *)
Inductive kafka_step : ksyncer -> ksyncer -> Prop :=
  | kf_sync s m now : shutdown s = false -> failed s = None -> waiting (flow s) = None ->
      kafka_step s (mkKS (saveBinlog m (flow s)) (run s) (base s) (save_time now s) false (handler s) (reported s)
        (success_closed s) (synced s ++ [m]) None)
  | kf_sync_err s m now : shutdown s = false -> failed s = None -> waiting (flow s) = None -> errCh_closed (base s) = true ->
      kafka_step s (mkKS (count_only m (flow s)) (run s) (base s) (save_time now s) false (handler s) (reported s)
        (success_closed s) (synced s ++ [m]) (Some m))
  | kf_resume s m : waiting (flow s) = Some m -> resumeProduce (flow s) = Some true ->
      kafka_step s (mkKS (mkKafka (toBeAckCommitTS (flow s)) (toBeAckTotalSize (flow s)) (resumeProduce (flow s)) None
          (producer (flow s) ++ [m]) (acked (flow s)))
        (run s) (base s) (lastSuccessTime s) (shutdown s) (handler s) (reported s) (success_closed s) (synced s) (failed s))
  | kf_resume_err s m : waiting (flow s) = Some m -> errCh_closed (base s) = true ->
      kafka_step s (mkKS (drop_waiting (flow s)) (run s) (base s) (lastSuccessTime s) (shutdown s) (handler s) (reported s)
        (success_closed s) (synced s) (Some m))
  | kf_ack s m rest now : producer (flow s) = m :: rest -> handler s = None ->
      kafka_step s (mkKS (on_ack m rest (flow s)) (run s) (base s) now (shutdown s) (Some m) (reported s)
        (success_closed s) (synced s) (failed s))
  | kf_report s m : handler s = Some m ->
      kafka_step s (mkKS (flow s) (run s) (base s) (lastSuccessTime s) (shutdown s) None (reported s ++ [m])
        (success_closed s) (synced s) (failed s))
  | kf_tick s s' now : run s = RLoop -> stalled now s = true -> set_base (Some ErrStalled) RDone s = Ret s' -> kafka_step s s'
  | kf_shutdown s : shutdown s = false -> waiting (flow s) = None ->
      kafka_step s (mkKS (flow s) (run s) (base s) (lastSuccessTime s) true (handler s) (reported s) (success_closed s) (synced s) (failed s))
  | kf_close s : run s = RLoop -> shutdown s = true ->
      kafka_step s (mkKS (flow s) RClosing (base s) (lastSuccessTime s) true (handler s) (reported s) (success_closed s) (synced s) (failed s))
  | kf_swallow s m rest : run s = RClosing -> producer (flow s) = m :: rest ->
      kafka_step s (mkKS (swallow m rest (flow s)) RClosing (base s) (lastSuccessTime s) (shutdown s) (handler s) (reported s)
        (success_closed s) (synced s) (failed s))
  | kf_closed s s' err : run s = RClosing -> producer (flow s) = [] -> set_base err RWait s = Ret s' -> kafka_step s s'
  | kf_end s : run s = RWait -> handler s = None ->
      kafka_step s (mkKS (flow s) RDone (base s) (lastSuccessTime s) (shutdown s) None (reported s) true (synced s) (failed s)).

(** ** Messages are reported in order, and only when Kafka has them *)

Definition in_close (s : ksyncer) : Prop := run s = RClosing \/ run s = RWait.

Record FInv (s : ksyncer) : Prop := {
  f_order : synced s = acked (flow s) ++ producer (flow s) ++ option_list (waiting (flow s)) ++ option_list (failed s);
  f_open : run s = RLoop \/ run s = RClosing -> errCh_closed (base s) = false;
  f_failed : is_Some (failed s) -> errCh_closed (base s) = true /\ waiting (flow s) = None;
  f_down : in_close s \/ errCh_closed (base s) = true /\ be_err (base s) = None -> shutdown s = true;
  f_idle : shutdown s = true -> waiting (flow s) = None;
  f_reported : reported s ++ option_list (handler s) `sublist_of` acked (flow s);
  f_exact : shutdown s = false -> acked (flow s) = reported s ++ option_list (handler s);
  f_all : errCh_closed (base s) = true -> be_err (base s) = None -> acked (flow s) = synced s;
}.

Lemma FInv_new : FInv NewKafkaSyncer.
Proof. split; cbn; try done. by intros [[?|?]|[??]]. Qed.

Lemma saveBinlog_parts m k : acked (saveBinlog m k) = acked k /\
  producer (saveBinlog m k) ++ option_list (waiting (saveBinlog m k)) = producer k ++ [m].
Proof. unfold saveBinlog. destruct (_ && _); cbn; by rewrite ?app_nil_r. Qed.

Lemma set_base_inv err pc s s' : set_base err pc s = Ret s' ->
  errCh_closed (base s) = false /\
  s' = mkKS (flow s) pc (mkBaseError err true) (lastSuccessTime s) (shutdown s) (handler s) (reported s) (success_closed s) (synced s) (failed s).
Proof. unfold set_base, setErr. destruct (errCh_closed (base s)); [done|]. cbn. by intros [= <-]. Qed.

(** A failure needs a closed channel. *)
Lemma not_failed s : FInv s -> errCh_closed (base s) = false -> failed s = None.
Proof. intros HI Hc. destruct (failed s) eqn:E; [|done]. destruct (f_failed s HI) as [? _]; [by rewrite E|congruence]. Qed.

Lemma FInv_calls s s' : kafka_step s s' -> FInv s -> shutdown s = false -> synced s' <> synced s -> FInv s'.
Proof.
  intros Hst HI Hsd Hne. destruct Hst as [s m now _ Hf Hw|s m now _ Hf Hw Hc| | | | |? ? ? ? ? Hs| | | |? ? ? ? ? Hs|]; try done;
    try (apply set_base_inv in Hs as [_ ->]; done).
  - destruct (saveBinlog_parts m (flow s)) as [Ha Hp]. destruct HI as [I1 I2 I3 I4 I5 I6 I7 I8].
    rewrite Hf, Hw in I1. cbn in I1. rewrite !app_nil_r in I1.
    split; cbn; rewrite ?Ha; try done; [|intros Hx; rewrite I4 in Hsd by exact Hx; done|by auto|].
    + rewrite I1, app_nil_r, Hp. by rewrite app_assoc.
    + intros Hcl Hn. rewrite I4 in Hsd; [done|by right].
  - destruct HI as [I1 I2 I3 I4 I5 I6 I7 I8]. rewrite Hf, Hw in I1. cbn in I1. rewrite !app_nil_r in I1.
    split; cbn; try done; [|intros Hx; rewrite I4 in Hsd by exact Hx; done|by auto|].
    + by rewrite I1, app_assoc.
    + intros _ Hn. rewrite I4 in Hsd; [done|by right].
Qed.

Lemma FInv_step s s' : kafka_step s s' -> FInv s -> FInv s'.
Proof.
  intros Hst HI. pose proof (FInv_calls _ _ Hst HI) as Hcalls.
  destruct Hst as [s m now Hd Hf Hw|s m now Hd Hf Hw Hc|s m Hw Hr|s m Hw Hc|s m rest now Hp Hh|s m Hh|s s' now Hr Hs Hb|s Hd Hw|s Hr Hd
    |s m rest Hr Hp|s s' err Hr Hp Hb|s Hr Hh].
  1, 2: apply Hcalls; [done|]; cbn; intros Heq; apply (f_equal length) in Heq; rewrite length_app in Heq; cbn in Heq; lia.
  all: clear Hcalls; pose proof (not_failed s HI) as Hnf; destruct HI as [I1 I2 I3 I4 I5 I6 I7 I8].
  - assert (Hsd : shutdown s = false) by (destruct (shutdown s); [rewrite I5 in Hw by done; done|done]).
    assert (Hf : failed s = None) by (destruct (failed s) eqn:E; [destruct I3 as [_ ?]; [rewrite ?E; by eexists|congruence]|done]).
    rewrite Hw, Hf in I1. cbn in I1. split; cbn; rewrite ?Hf; try done; by rewrite I1, !app_nil_r.
  - assert (Hsd : shutdown s = false) by (destruct (shutdown s); [rewrite I5 in Hw by done; done|done]).
    assert (Hf : failed s = None) by (destruct (failed s) eqn:E; [destruct I3 as [_ ?]; [rewrite ?E; by eexists|congruence]|done]).
    rewrite Hw, Hf in I1. cbn in I1. split; cbn; try done; by rewrite I1, ?app_nil_r.
  - rewrite Hp in I1. rewrite Hh in I6, I7. cbn in *. rewrite app_nil_r in I6, I7. split; cbn; try done.
    + by rewrite I1, <- app_assoc.
    + by apply sublist_app.
    + intros Hsd. by rewrite I7.
    + intros Hc Hn. pose proof (I8 Hc Hn) as Heq. exfalso. rewrite I1 in Heq. apply (f_equal length) in Heq. rewrite length_app in Heq. cbn in Heq. lia.
  - rewrite Hh in I6, I7. cbn in *. split; cbn; rewrite ?app_nil_r; done.
  - apply set_base_inv in Hb as [Hc ->]. split; cbn; try done; [by intros []|by intros Hx; destruct (I3 Hx)|intros [[?|?]|[_ ?]]; done].
  - split; cbn; try done.
  - split; cbn; try done; intros _; [by apply I2; left|by apply I5].
  - rewrite Hp in I1. cbn in *. assert (Hd : shutdown s = true) by (apply I4; left; by left).
    split; cbn; try done.
    + by rewrite I1, <- app_assoc.
    + intros _. by apply I2; right.
    + by apply sublist_inserts_r.
    + congruence.
    + intros Hc. rewrite I2 in Hc by by right. done.
  - apply set_base_inv in Hb as [Hc ->]. assert (Hd : shutdown s = true) by (apply I4; left; by left).
    split; cbn; try done; [by intros []|by intros Hx; destruct (I3 Hx)|].
    intros _ _. rewrite I1, Hp, (I5 Hd), (Hnf Hc). cbn. by rewrite app_nil_r.
  - assert (Hd : shutdown s = true) by (apply I4; left; by right). rewrite Hh in I6, I7. split; cbn; try done; by intros [].
Qed.

(** C36: The order of Kafka: whatever the interleaving of [Sync], the goroutine of the successes, the
    check for a stalled producer and [Close], what Kafka has acknowledged is a prefix
    of the synced messages, in order; what is reported as successful is acknowledged, in the
    same order, and until [Close] nothing is left out; when [Close] returns without an
    error Kafka has every synced message; the error is set at most once. *)
Theorem kafka_reports s : rtc kafka_step NewKafkaSyncer s ->
  (exists rest, synced s = acked (flow s) ++ rest) /\
  reported s `sublist_of` acked (flow s) /\
  (shutdown s = false -> acked (flow s) = reported s ++ option_list (handler s)) /\
  (error_recv (base s) = Some None -> acked (flow s) = synced s) /\
  (forall err pc, run s = RLoop \/ run s = RClosing -> set_base err pc s <> Panic).
Proof.
  intros Hr. assert (HI : FInv s) by (revert s Hr; apply (rtc_ind_r FInv); [apply FInv_new|intros y z _ Hst; by apply FInv_step]).
  destruct HI as [I1 I2 I3 I4 I5 I6 I7 I8]. split_and!; [by eexists| |done| |].
  - etrans; [|exact I6]. by apply sublist_inserts_r.
  - unfold error_recv. destruct (errCh_closed (base s)) eqn:E; [|done]. intros [= Hn]. by apply I8.
  - intros err pc Hrun. unfold set_base, setErr. by rewrite I2.
Qed.

Module KafkaExamples.
(** Two messages; the first is reported, the second is acknowledged while the producer is closed. *)
Definition m1 : msg := (1, 10).
Definition m2 : msg := (2, 20).
Definition ended : ksyncer :=
  mkKS (mkKafka {[2 := 20]} 20 None None [] [m1; m2]) RWait (mkBaseError None true) 6 true None [m1] false [m1; m2] None.

(** The states in between: both sent, the first reported, the producer being closed. *)
Definition sent2 : ksyncer :=
  mkKS (mkKafka {[1 := 10; 2 := 20]} 30 None None [m1; m2] []) RLoop newBaseError 5 false None [] false [m1; m2] None.
Definition reported1 : ksyncer :=
  mkKS (mkKafka {[2 := 20]} 20 None None [m2] [m1]) RLoop newBaseError 6 false None [m1] false [m1; m2] None.
Definition closing : ksyncer :=
  mkKS (mkKafka {[2 := 20]} 20 None None [] [m1; m2]) RClosing newBaseError 6 true None [m1] false [m1; m2] None.

Lemma step_to s s1 s2 : kafka_step s s1 -> s1 = s2 -> kafka_step s s2.
Proof. by intros ? <-. Qed.

Definition unanswered : ksyncer := mkKS (mkKafka {[1 := 10]} 10 None None [m1] []) RLoop newBaseError 5 false None [] false [m1] None.
Lemma sync1 : kafka_step NewKafkaSyncer unanswered.
Proof. eapply step_to; [by apply (kf_sync _ m1 5)|vm_compute; reflexivity]. Qed.

Lemma kafka_run_ended : rtc kafka_step NewKafkaSyncer ended.
Proof.
  eapply rtc_l; [exact sync1|].
  eapply (rtc_l _ _ sent2); [eapply step_to; [by apply (kf_sync _ m2 5)|vm_compute; reflexivity]|].
  eapply rtc_l; [by eapply (kf_ack _ m1 _ 6)|].
  eapply (rtc_l _ _ reported1); [eapply step_to; [by apply (kf_report _ m1)|vm_compute; reflexivity]|].
  eapply rtc_l; [by apply kf_shutdown|]. eapply rtc_l; [by apply kf_close|].
  eapply (rtc_l _ _ closing); [eapply step_to; [by eapply (kf_swallow _ m2 [])|reflexivity]|].
  apply rtc_once. by apply (kf_closed _ _ None).
Qed.

Lemma kafka_reports_witness : error_recv (base ended) = Some None /\ acked (flow ended) = [m1; m2] /\ reported ended `sublist_of` [m1; m2].
Proof.
  destruct (kafka_reports ended kafka_run_ended) as (_ & H1 & _ & H2 & _).
  split_and!; [reflexivity|exact (H2 eq_refl)|exact H1].
Defined.

(** A producer that does not answer: after thirty seconds the error is set, and a further call
    fails with it. *)
Example stalled_fails : exists s, rtc kafka_step NewKafkaSyncer s /\ error_recv (base s) = Some (Some ErrStalled) /\ failed s = Some m2.
Proof.
  eexists. split.
  - eapply rtc_l; [exact sync1|].
    eapply rtc_l; [apply (kf_tick unanswered _ 30000000006); [reflexivity|vm_compute; reflexivity|reflexivity]|].
    apply rtc_once. by apply (kf_sync_err _ m2 30000000007).
  - split; reflexivity.
Qed.
End KafkaExamples.
