(* ===== verification/PumpServer.v ===== *)
(** * PumpServer
    The server of a pump ([pump/server.go]) and its node ([pump/node.go]): the
    handlers of the requests of TiDB and drainer, the fake binlogs that keep an
    idle pump moving, garbage collection, and the states of the node from
    registration to the end.  The storage is behind an interface that
    [Storage] implements; the registry is the one of [Registry]. *)
From Stdlib Require Import Init.Byte Ascii.
From stdpp Require Import base option list gmap strings.
From S2P Require Import Prelude Text Binlog Retry LogFile Vlog Sorter Metadata Storage Registry.

(** ** The storage *)

(** The methods of [storage.Storage] that the server calls; [st_PullCommitBinlog]
    is what the channel delivers when nothing more is written. *)
Class PumpStorage (St : Type) := {
  st_WriteBinlog : Binlog -> St -> St * option error;
  st_GC : Z -> St -> St;
  st_GetGCTS : St -> Z;
  st_MaxCommitTS : St -> Z;
  st_AllMatched : St -> bool;
  st_PullCommitBinlog : Z -> St -> list (list byte);
}.

(** [Append] with its sorter, writing without errors of the disk. *)
#[export] Instance append_storage `{Codec} {DB} `{KV DB} : PumpStorage (Append DB * sorter) := {
  st_WriteBinlog b st := let '(a, e) := WriteBinlog [] b st.1 in ((a, st.2), e);
  st_GC ts st := (GC ts st.1, st.2);
  st_GetGCTS st := ap_gcTS st.1;
  st_MaxCommitTS st := maxCommitTS st.1;
  st_AllMatched st := allMatched st.2;
  st_PullCommitBinlog last st := (pull_pass (pull_start last st.1) st.1).1.1;
}.

Definition error_text (e : error) : string :=
  match e with EOF => "EOF" | ErrUnexpectedEOF => "unexpected EOF" | Err msg => msg end.

Section Server.
Context `{C : Codec} {St : Type} `{S : PumpStorage St}.

(** ** State *)

(** The server with the fields of its node; [n_latestTime] is in nanoseconds. *)
Record Server := mkServer {
  srv_clusterID : Z;
  storage : St;
  status : Status;
  n_latestTS : Z;
  n_latestTime : Z;
  lastWriteBinlogUnixNano : Z;
  writeBinlogCount : Z;
  gcDuration : Z;
  srv_isClosed : bool;
}.

Definition set_storage (st : St) (s : Server) : Server :=
  mkServer (srv_clusterID s) st (status s) (n_latestTS s) (n_latestTime s) (lastWriteBinlogUnixNano s) (writeBinlogCount s) (gcDuration s) (srv_isClosed s).
Definition set_status (t : Status) (s : Server) : Server :=
  mkServer (srv_clusterID s) (storage s) t (n_latestTS s) (n_latestTime s) (lastWriteBinlogUnixNano s) (writeBinlogCount s) (gcDuration s) (srv_isClosed s).
Definition set_latest (ts now : Z) (s : Server) : Server :=
  mkServer (srv_clusterID s) (storage s) (status s) ts now (lastWriteBinlogUnixNano s) (writeBinlogCount s) (gcDuration s) (srv_isClosed s).
Definition set_lastWrite (now : Z) (s : Server) : Server :=
  mkServer (srv_clusterID s) (storage s) (status s) (n_latestTS s) (n_latestTime s) now (writeBinlogCount s) (gcDuration s) (srv_isClosed s).
Definition count_write (s : Server) : Server :=
  mkServer (srv_clusterID s) (storage s) (status s) (n_latestTS s) (n_latestTime s) (lastWriteBinlogUnixNano s)
    (wrap_i64 (writeBinlogCount s + 1)) (gcDuration s) (srv_isClosed s).
Definition set_closed (s : Server) : Server :=
  mkServer (srv_clusterID s) (storage s) (status s) (n_latestTS s) (n_latestTime s) (lastWriteBinlogUnixNano s) (writeBinlogCount s) (gcDuration s) true.

Definition set_state (state : string) (t : Status) : Status :=
  mkStatus (NodeID t) (Addr t) state (IsAlive t) (Score t) (MaxCommitTS t) (UpdateTS t).

(** ** Writing *)

(** [WriteBinlogResp]: its message; the handler answers [None] for nil. *)
Definition response : Type := option string * option error.

Definition cluster_mismatch (a b : Z) : error := Err ("cluster ID are mismatch, " +:+ itoa a +:+ " vs " +:+ itoa b).
Definition not_online (state : string) : error := Err ("no online: " +:+ state).

(** The label [errHandle]. *)
Definition err_response (e : error) : response := (Some (error_text e), Some e).

(** The check before a binlog is stored. *)
Definition admit_binlog (isFake : bool) (blog : Binlog) (state : string) : option error :=
  if negb isFake && bool_decide (Tp blog = BinlogType_Prewrite) && negb (bool_decide (state = Online))
  then Some (not_online state) else None.

Definition writeBinlog (now : Z) (clusterID : Z) (payload : list byte) (isFake : bool) (s : Server) : Server * response :=
  let s := set_lastWrite now s in
  if negb (clusterID =? srv_clusterID s) then (s, (None, Some (cluster_mismatch clusterID (srv_clusterID s))))
  else
    match unmarshal payload with
    | Fail e => (s, err_response e)
    | Panic => (s, err_response (Err "panic"))
    | Ret blog =>
      match admit_binlog isFake blog (State (status s)) with
      | Some e => (s, err_response e)
      | None =>
        match st_WriteBinlog blog (storage s) with
        | (st, Some e) => (set_storage st s, err_response e)
        | (st, None) => (set_storage st s, (Some ""%string, None))
        end
      end
    end.

(** [s.WriteBinlog(ctx, in)]. *)
Definition handle_WriteBinlog (now clusterID : Z) (payload : list byte) (s : Server) : Server * response :=
  writeBinlog now clusterID payload false (count_write s).

(** ** Fake binlogs *)

(** The timestamp from PD is an argument. *)
Definition genFakeBinlog (tso : outcome Z) : outcome Binlog := let! ts := tso in Ret (GenFakeBinlog ts).

Definition writeFakeBinlog (now : Z) (tso : outcome Z) (s : Server) : Server * outcome Binlog :=
  match (let! b := genFakeBinlog tso in let! payload := marshal b in Ret (b, payload)) with
  | Fail e => (s, Fail e)
  | Panic => (s, Panic)
  | Ret (b, payload) =>
    let '(s, (resp, e)) := writeBinlog now (srv_clusterID s) payload true s in
    (s, match e with
        | Some e => Fail e
        | None =>
          match resp with
          | None => Panic
          | Some msg => if (0 <? String.length msg)%nat then Fail (Err ("write fake binlog err: " +:+ msg)) else Ret b
          end
        end)
  end.

(** A tick of [genForwardBinlog], with its local variable. *)
Definition forward_tick (now : Z) (tso : outcome Z) (last : Z) (s : Server) : Z * Server :=
  let s := if last =? lastWriteBinlogUnixNano s then (writeFakeBinlog now tso s).1 else s in
  (lastWriteBinlogUnixNano s, s).

(** ** Garbage collection *)

(** A round of [gcBinlogFile] at a time in nanoseconds. *)
Definition gc_tick (now : Z) (s : Server) : Server :=
  if gcDuration s =? 0 then s
  else
    let millisecond := Z.quot (Z.quot (wrap_i64 (now - gcDuration s)) 1000) 1000 in
    set_storage (st_GC (wrap_i64 (EncodeTSO millisecond)) (storage s)) s.

Definition MaxInt64 : Z := 2 ^ 63 - 1.

(** The loop of [getSafeGCTSOForDrainers]. *)
Fixpoint min_commit (drainers : list Status) (minTSO : Z) : Z :=
  match drainers with
  | [] => minTSO
  | d :: drainers =>
    min_commit drainers
      (if bool_decide (State d = Offline) then minTSO
       else if MaxCommitTS d <? minTSO then MaxCommitTS d else minTSO)
  end.

(** [getSafeGCTSOForDrainers] on the drainers that the registry lists. *)
Definition getSafeGCTSOForDrainers (drainers : etcd_error + list Status) : etcd_error + Z :=
  match drainers with inl e => inl e | inr drainers => inr (min_commit drainers MaxInt64) end.

(** The drainers [detectDrainerCheckPoints] raises an alert for. *)
Definition detectDrainerCheckPoints (drainers : etcd_error + list Status) (gcTS : Z) : list string :=
  match drainers with
  | inl _ => []
  | inr drainers =>
    omap (fun d => if bool_decide (State d = Offline) then None
                   else if MaxCommitTS d <? gcTS then Some (NodeID d) else None) drainers
  end.

(** A tick of [detectDrainerCheckpoint]: twenty hours ahead of the collection. *)
Definition earlyAlertGC : Z := 20 * 60 * 60 * 1000 * 1000 * 1000.
Definition detect_tick (drainers : etcd_error + list Status) (s : Server) : list string :=
  let alertGCMS := Z.quot (Z.quot earlyAlertGC 1000) 1000 in
  detectDrainerCheckPoints drainers (wrap_i64 (st_GetGCTS (storage s) + wrap_i64 (EncodeTSO alertGCMS))).

(** ** Pulling *)

(** What the [select] of [PullBinlogs] sees next: the server closes, the stream
    ends, or a payload is received and sent with this result. *)
Inductive pull_event := PullClose | StreamDone | Send (result : option error).

Fixpoint pull_send (binlogs : list (list byte)) (es : list pull_event) {struct es} : list (list byte) * option error :=
  match es with
  | [] | PullClose :: _ | StreamDone :: _ => ([], None)
  | Send r :: es =>
    match binlogs with
    | [] => ([], None)
    | data :: binlogs =>
      match r with
      | Some e => ([], Some e)
      | None => let '(sent, r) := pull_send binlogs es in (data :: sent, r)
      end
    end
  end.

(** [s.PullBinlogs(in, stream)]: what is sent, and the result. *)
Definition PullBinlogs (clusterID startFrom : Z) (es : list pull_event) (s : Server) : list (list byte) * option error :=
  if negb (clusterID =? srv_clusterID s) then ([], Some (cluster_mismatch clusterID (srv_clusterID s)))
  else pull_send (st_PullCommitBinlog startFrom (storage s)) es.

(** ** The node *)

(** [util.GetApproachTS]: the timestamp moved on by the whole seconds that passed. *)
Definition GetApproachTS (ts tm now : Z) : Z :=
  if ts =? 0 then 0
  else wrap_i64 (ts + Z.shiftl (Z.quot (now - tm) 1000000000 * 1000) 18).

(** [p.updateStatus()]. *)
Definition updateStatus (now : Z) (s : Server) : Server :=
  let t := status s in
  set_status (mkStatus (NodeID t) (Addr t) (State t) (IsAlive t) (Score t) (st_MaxCommitTS (storage s))
    (GetApproachTS (n_latestTS s) (n_latestTime s) now)) s.

Section Node.
Context `{!StatusCodec}.
Variable others : gmap string (list byte) -> gmap string (list byte).

(** [p.RefreshStatus(ctx, status)]. *)
Definition RefreshStatus (now : Z) (t : Status) (s : Server) (e : etcd) : Server * etcd * (etcd_error + unit) :=
  let s := set_status t s in
  let s := if negb (UpdateTS t =? 0) then set_latest (UpdateTS t) now s else updateStatus now s in
  let '(e, r) := UpdateNode others "pumps" (status s) e in (s, e, r).

(** [s.registerNode(ctx, state, updateTS)]. *)
Definition registerNode (now : Z) (state : string) (updateTS : Z) (s : Server) (e : etcd) : Server * etcd * (etcd_error + unit) :=
  RefreshStatus now (NewStatus (NodeID (status s)) (Addr (status s)) state 0 (st_MaxCommitTS (storage s)) updateTS) s e.

(** A tick of [Heartbeat]. *)
Definition heartbeat_tick (now : Z) (s : Server) (e : etcd) : Server * etcd * (etcd_error + unit) :=
  let s := updateStatus now s in
  let '(e, r) := UpdateNode others "pumps" (status s) e in (s, e, r).

(** [ApplyAction]: the answer, and whether closing starts. *)
Definition ApplyAction (nodeID action : string) (s : Server) : Server * (string + string) * bool :=
  let t := status s in
  if negb (bool_decide (nodeID = NodeID t))
  then (s, inl ("invalide nodeID " +:+ nodeID +:+ ", this pump's nodeID is " +:+ NodeID t), false)
  else if negb (bool_decide (State t = Online))
  then (s, inl ("this pump's state is " +:+ State t +:+ ", apply " +:+ action +:+ " failed!"), false)
  else if bool_decide (action = "pause"%string)
  then (set_status (set_state Pausing t) s, inr ("apply action " +:+ action +:+ " success!"), true)
  else if bool_decide (action = "close"%string)
  then (set_status (set_state Closing t) s, inr ("apply action " +:+ action +:+ " success!"), true)
  else (s, inl ("invalide action " +:+ action), false).

(** The state [commitStatus] registers; before it registers [Offline] it waits
    with [waitSafeToOffline]. *)
Definition final_state (state : string) : string :=
  if bool_decide (state = Pausing \/ state = Online) then Paused
  else if bool_decide (state = Closing) then Offline
  else state.

Definition commitStatus (now : Z) (s : Server) (e : etcd) : Server * etcd :=
  let '(s, e, _) := registerNode now (final_state (State (status s))) 0 s e in (s, e).
End Node.
End Server.
Arguments Server : clear implicits.

(** ** Fake binlogs keep an idle pump moving *)

Section Idle.
Context `{C : Codec} {HC : CodecOk C} {St : Type} `{PS : PumpStorage St}.

(** The ticks of [genForwardBinlog] while no client writes. *)
Fixpoint idle_ticks (ticks : list (Z * Z)) (last : Z) (s : Server St) : Z * Server St :=
  match ticks with
  | [] => (last, s)
  | (now, ts) :: ticks => let '(last, s) := forward_tick now (Ret ts) last s in idle_ticks ticks last s
  end.

Definition fake_into (st : St) (ts : Z) : St := (st_WriteBinlog (GenFakeBinlog ts) st).1.

Lemma writeFakeBinlog_writes now ts s : (exists p, marshal (GenFakeBinlog ts) = Ret p) ->
  (writeFakeBinlog now (Ret ts) s).1 = set_storage (fake_into (storage s) ts) (set_lastWrite now s).
Proof.
  intros [p Hp]. unfold writeFakeBinlog, genFakeBinlog. cbn [obind]. rewrite Hp. cbn [obind].
  unfold writeBinlog. cbn [srv_clusterID set_lastWrite]. rewrite Z.eqb_refl. cbn [negb].
  rewrite (unmarshal_marshal _ _ Hp). cbn [admit_binlog negb andb]. unfold fake_into.
  destruct (st_WriteBinlog _ _) as [st [e|]]; done.
Qed.

(** A pump without writes does not hold drainers back: at every tick of
    [genForwardBinlog] while no client writes, a fake binlog with the timestamp
    of PD is given to the storage, and its own write does not count as one. *)
Theorem idle_pump_moves ticks s :
  (forall ts, ts ∈ ticks.*2 -> exists p, marshal (GenFakeBinlog ts) = Ret p) ->
  let '(last, s') := idle_ticks ticks (lastWriteBinlogUnixNano s) s in
  storage s' = foldl fake_into (storage s) ticks.*2 /\ last = lastWriteBinlogUnixNano s' /\ status s' = status s.
Proof.
  revert s. induction ticks as [|[now ts] ticks IH]; intros s Hm; [done|].
  cbn [idle_ticks forward_tick]. rewrite Z.eqb_refl, writeFakeBinlog_writes by (apply Hm; by left).
  specialize (IH (set_storage (fake_into (storage s) ts) (set_lastWrite now s)) ltac:(intros ? ?; apply Hm; by right)).
  destruct (idle_ticks _ _ _) as [last s']. exact IH.
Qed.

(** After a write of a client a tick writes nothing. *)
Lemma busy_tick now tso last s : last <> lastWriteBinlogUnixNano s ->
  forward_tick now tso last s = (lastWriteBinlogUnixNano s, s).
Proof. intros Hl. unfold forward_tick. by rewrite (proj2 (Z.eqb_neq _ _) Hl). Qed.
End Idle.

(** ** What is pulled *)

Lemma pull_send_prefix binlogs es : (pull_send binlogs es).1 `prefix_of` binlogs.
Proof.
  revert binlogs. induction es as [|[| |r] es IH]; intros binlogs; simpl; try apply prefix_nil.
  destruct binlogs as [|d binlogs]; [apply prefix_nil|]. destruct r; [apply prefix_nil|].
  specialize (IH binlogs). destruct (pull_send binlogs es). simpl in *. by apply prefix_cons.
Qed.

(** ** Drainers *)

Lemma min_commit_spec drainers m :
  min_commit drainers m <= m /\
  (forall d, d ∈ drainers -> State d <> Offline -> min_commit drainers m <= MaxCommitTS d) /\
  (min_commit drainers m = m \/ exists d, d ∈ drainers /\ State d <> Offline /\ min_commit drainers m = MaxCommitTS d).
Proof.
  revert m. induction drainers as [|d ds IH]; intros m; cbn [min_commit].
  { split_and!; [lia|by intros ? ?%not_elem_of_nil|by left]. }
  set (m' := if bool_decide _ then _ else _). specialize (IH m'). destruct IH as (H1 & H2 & H3).
  assert (Hm : m' <= m /\ (State d <> Offline -> m' <= MaxCommitTS d) /\ (m' = m \/ State d <> Offline /\ m' = MaxCommitTS d)).
  { subst m'. case_bool_decide; [split_and!; [lia|done|by left]|]. destruct (Z.ltb_spec (MaxCommitTS d) m); split_and!; try lia; auto. }
  destruct Hm as (Hm1 & Hm2 & Hm3). split_and!.
  - lia.
  - intros x [->|Hx]%elem_of_cons Hs; [specialize (Hm2 Hs); lia|by apply H2].
  - destruct H3 as [->|(x & Hx & Hs & ->)].
    + destruct Hm3 as [->|[Hs ->]]; [by left|]. right. exists d. split_and!; [by left|done|done].
    + right. exists x. split_and!; [by right|done|done].
Qed.

Module PumpServerExamples.
#[local] Existing Instance SimpleCodec.codec.
#[local] Existing Instance SimpleCodec.codec_ok.

(** A storage that keeps the binlogs it is given. *)
#[local] Instance list_storage : PumpStorage (list Binlog) := {
  st_WriteBinlog b st := (st ++ [b], None);
  st_GC _ st := st;
  st_GetGCTS _ := 0;
  st_MaxCommitTS st := foldr (fun b m => Z.max (CommitTs b) m) 0 st;
  st_AllMatched _ := true;
  st_PullCommitBinlog last st := omap (fun b => if last <? CommitTs b then Some (SimpleCodec.enc b) else None) st;
}.

Definition server : Server (list Binlog) :=
  mkServer 7 [] (NewStatus "host:8250" "10.0.0.1:8250" Online 0 0 0) 0 0 100 0 0 false.

Lemma idle_pump_moves_witness :
  storage (idle_ticks [(200, 21); (300, 22)] 100 server).2 = [GenFakeBinlog 21; GenFakeBinlog 22].
Proof.
  assert (Hm : forall ts, ts ∈ [(200, 21); (300, 22)].*2 -> exists p, marshal (GenFakeBinlog ts) = Ret p).
  { intros ts Hts. exists (SimpleCodec.enc (GenFakeBinlog ts)).
    revert ts Hts. apply (proj1 (list.Forall_forall (fun ts => marshal (GenFakeBinlog ts) = Ret (SimpleCodec.enc (GenFakeBinlog ts))) _)).
    repeat constructor. }
  pose proof (idle_pump_moves [(200, 21); (300, 22)] server Hm) as H.
  change (lastWriteBinlogUnixNano server) with 100 in H. destruct (idle_ticks _ 100 server) as [last s']. by destruct H as (H & _).
Defined.

(** A pump that is closing rejects prewrites and takes the rest. *)
Example closing_rejects_prewrites :
  let '(s, r, started) := ApplyAction "host:8250" "close" server in
  let prewrite := SimpleCodec.enc (mkBinlog BinlogType_Prewrite 5 0 [] [] [] 0 0) in
  let commit := SimpleCodec.enc (mkBinlog BinlogType_Commit 5 9 [] [] [] 0 0) in
  started = true /\ (handle_WriteBinlog 300 7 prewrite s).2 = (Some "no online: closing"%string, Some (not_online Closing)) /\
  (handle_WriteBinlog 300 7 commit s).2 = (Some ""%string, None).
Proof. vm_compute. done. Qed.
End PumpServerExamples.
