(* ===== verification/PumpOffline.v ===== *)
(** * PumpOffline
    How a pump leaves the cluster ([waitSafeToOffline] and
    [waitUntilCommitTSSaved] of [pump/server.go]): the steps of the goroutine that
    closes the server, interleaved with clients that write, the pipeline that
    pushes to the sorter, the sorter of [Sorter] and the drainers. *)
From stdpp Require Import base option list gmap strings relations.
From S2P Require Import Prelude Text Binlog Retry LogFile Vlog Sorter Metadata Storage Registry PumpServer.

(** ** Steps *)

Definition item_of (b : Binlog) : sortItem := mkItem (StartTs b) (CommitTs b) (Tp b).

(** Where [waitSafeToOffline] is. The three reads between the fake binlog and the
    wait for the drainers are steps of their own. *)
Inductive closer :=
  | Serving
  | WaitSaved (fake : sortItem)
  | SavedSeen (fake : sortItem)
  | MatchedSeen (fake : sortItem)
  | WaitDrainers (fake : sortItem) (maxCommitTS : Z)
  | SafeToOffline (fake : sortItem) (maxCommitTS : Z) (seen : list Status).

Record pump := mkPump {
  srt : sorter;
  hist : history;
  (** written to the log, to be pushed to the sorter *)
  logged : list sortItem;
  (** how many items of the sorter [handleSortItem] has received *)
  handled : nat;
  pump_maxCommitTS : Z;
  node_state : string;
  (** prewrites that passed the check of the state and are not written yet *)
  checked : list sortItem;
  drainers : list Status;
  closing : closer;
}.

Definition with_logged (l : list sortItem) (p : pump) : pump :=
  mkPump (srt p) (hist p) l (handled p) (pump_maxCommitTS p) (node_state p) (checked p) (drainers p) (closing p).
Definition with_checked (l : list sortItem) (p : pump) : pump :=
  mkPump (srt p) (hist p) (logged p) (handled p) (pump_maxCommitTS p) (node_state p) l (drainers p) (closing p).
Definition with_sorter (s : sorter) (h : history) (p : pump) : pump :=
  mkPump s h (logged p) (handled p) (pump_maxCommitTS p) (node_state p) (checked p) (drainers p) (closing p).
Definition with_handled (ts : Z) (p : pump) : pump :=
  mkPump (srt p) (hist p) (logged p) (handled p + 1) ts (node_state p) (checked p) (drainers p) (closing p).
Definition with_state (st : string) (p : pump) : pump :=
  mkPump (srt p) (hist p) (logged p) (handled p) (pump_maxCommitTS p) st (checked p) (drainers p) (closing p).
Definition with_drainers (ds : list Status) (p : pump) : pump :=
  mkPump (srt p) (hist p) (logged p) (handled p) (pump_maxCommitTS p) (node_state p) (checked p) ds (closing p).
Definition with_closing (c : closer) (p : pump) : pump :=
  mkPump (srt p) (hist p) (logged p) (handled p) (pump_maxCommitTS p) (node_state p) (checked p) (drainers p) c.

Definition append_log (i : sortItem) (p : pump) : pump := with_logged (logged p ++ [i]) p.

Inductive pump_step : pump -> pump -> Prop :=
  (** a prewrite passes the check of [writeBinlog], and is written later *)
  | OCheck b p : Tp b = BinlogType_Prewrite -> admit_binlog false b (node_state p) = None ->
      pump_step p (with_checked (item_of b :: checked p) p)
  | OPrewrite i l1 l2 p : checked p = l1 ++ i :: l2 ->
      pump_step p (append_log i (with_checked (l1 ++ l2) p))
  (** commits, rollbacks and fake binlogs are always written *)
  | OWrite i p : is_prewrite i = false -> pump_step p (append_log i p)
  (** [writeToSorter] *)
  | OPush i rest p : logged p = i :: rest ->
      pump_step p (with_logged rest
        (with_sorter (pushTSItem i (srt p)) (mkHist (pushed (hist p) ++ [i]) (done_ (hist p)) (resolved (hist p))) p))
  | OSort s' h' p : Sorter.step (srt p, hist p) (s', h') -> pushed h' = pushed (hist p) ->
      pump_step p (with_sorter s' h' p)
  (** [handleSortItem] *)
  | OHandle i p : emitted (srt p) !! handled p = Some i ->
      pump_step p (with_handled (if commit i <? pump_maxCommitTS p then pump_maxCommitTS p else commit i) p)
  (** [ApplyAction] *)
  | OAction st p : node_state p = Online -> st = Pausing \/ st = Closing -> pump_step p (with_state st p)
  (** drainers report to the registry *)
  | ODrainers ds p : pump_step p (with_drainers ds p)
  (** [waitSafeToOffline] *)
  | OFake ts p : node_state p = Closing -> closing p = Serving -> 0 < ts ->
      let fake := item_of (GenFakeBinlog ts) in
      pump_step p (append_log fake (with_closing (WaitSaved fake) p))
  | OSaved f p : closing p = WaitSaved f -> commit f <= pump_maxCommitTS p -> pump_step p (with_closing (SavedSeen f) p)
  | OMatched f p : closing p = SavedSeen f -> allMatched (srt p) = true -> pump_step p (with_closing (MatchedSeen f) p)
  | OUnmatched f p : closing p = SavedSeen f -> allMatched (srt p) = false -> pump_step p (with_closing (WaitSaved f) p)
  | ORead f p : closing p = MatchedSeen f -> pump_step p (with_closing (WaitDrainers f (pump_maxCommitTS p)) p)
  | OSafe f m safeTSO p : closing p = WaitDrainers f m ->
      getSafeGCTSOForDrainers (inr (drainers p)) = inr safeTSO -> m <= safeTSO ->
      pump_step p (with_closing (SafeToOffline f m (drainers p)) p)
  | ONotSafe f m safeTSO ts p : closing p = WaitDrainers f m ->
      getSafeGCTSOForDrainers (inr (drainers p)) = inr safeTSO -> safeTSO < m -> 0 < ts ->
      pump_step p (append_log (item_of (GenFakeBinlog ts)) p).

(** The server after it was started, with the [maxCommitTS] it read. *)
Definition pump_start (m0 : Z) (ds : list Status) : pump :=
  mkPump newSorter (mkHist [] [] ∅) [] 0 m0 Online [] ds Serving.

(** ** Invariant *)

Definition the_fake (c : closer) : option sortItem :=
  match c with
  | Serving => None
  | WaitSaved f | SavedSeen f | MatchedSeen f | WaitDrainers f _ | SafeToOffline f _ _ => Some f
  end.

(** The timestamp that was seen to be covered by [maxCommitTS]. *)
Definition covered (c : closer) : option Z :=
  match c with
  | Serving | WaitSaved _ => None
  | SavedSeen f | MatchedSeen f => Some (commit f)
  | WaitDrainers _ m | SafeToOffline _ m _ => Some m
  end.

Record OInv (m0 : Z) (p : pump) : Prop := {
  oi_sorter : reachable (srt p, hist p);
  oi_max : m0 <= pump_maxCommitTS p <= Z.max m0 (commit (maxTSItem (srt p)));
  oi_fake f : the_fake (closing p) = Some f -> f ∈ pushed (hist p) ++ logged p /\ is_prewrite f = false /\ 0 < commit f;
  oi_covered m : covered (closing p) = Some m -> m <= pump_maxCommitTS p;
  oi_commit f m : the_fake (closing p) = Some f -> covered (closing p) = Some m -> commit f <= m;
  oi_seen f m ds : closing p = SafeToOffline f m ds -> forall d, d ∈ ds -> State d <> Offline -> m <= MaxCommitTS d;
}.

Lemma step_max s h s' h' : Sorter.step (s, h) (s', h') -> commit (maxTSItem s) <= commit (maxTSItem s').
Proof.
  assert (Hrun : forall resolves s s', run_step resolves s = Some s' -> commit (maxTSItem s) <= commit (maxTSItem s')).
  { clear. intros resolves s s' H. unfold run_step in H. destruct (pc s) as [|item|]; [| |done].
    - destruct (items s) as [|item rest]; [destruct (isClosed s); by simplify_eq|].
      destruct (is_prewrite item); [by simplify_eq|].
      destruct (Z.ltb_spec (commit (maxTSItem s)) (commit item)); simpl in *;
        destruct (Z.ltb_spec (commit (maxTSItem s)) (commit item)); simplify_eq; simpl; lia.
    - repeat case_bool_decide; simpl in *; destruct (isClosed s); simplify_eq; simpl; lia. }
  inversion 1; subst; eauto; simpl; lia.
Qed.

Lemma maxima_in m l i : i ∈ maxima m l -> i ∈ l /\ is_prewrite i = false.
Proof.
  revert m. induction l as [|x l IH]; intros m; cbn [maxima]; [by intros ?%not_elem_of_nil|].
  destruct (is_prewrite x) eqn:E; [|destruct (m <? commit x); [intros [->|Hi]%elem_of_cons; [by split; [left|]|]|]];
    try intros Hi; apply IH in Hi as [??]; (split; [by right|done]).
Qed.

Lemma emitted_max s h i : reachable (s, h) -> i ∈ emitted s -> commit i <= commit (maxTSItem s).
Proof.
  intros Hr%reachable_inv Hi. pose proof (inv_emitted s h Hr) as He. pose proof (inv_max s h Hr) as Hm.
  rewrite He in Hi. rewrite Hm. apply maxima_in in Hi as [Hi Hp]. by apply max_commit_upper.
Qed.

Section Safety.
Variable m0 : Z.

(** Everything written to the log, in order. *)
Definition log_order (p : pump) : list sortItem := pushed (hist p) ++ logged p.

Lemma OInv_start ds : OInv m0 (pump_start m0 ds).
Proof. constructor; simpl; try done; [apply rtc_refl|lia]. Qed.

(** A step that only moves the goroutine that closes. *)
Lemma OInv_closing p c : OInv m0 p ->
  (forall f, the_fake c = Some f -> f ∈ log_order p /\ is_prewrite f = false /\ 0 < commit f) ->
  (forall m, covered c = Some m -> m <= pump_maxCommitTS p) ->
  (forall f m, the_fake c = Some f -> covered c = Some m -> commit f <= m) ->
  (forall f m ds, c = SafeToOffline f m ds -> forall d, d ∈ ds -> State d <> Offline -> m <= MaxCommitTS d) ->
  OInv m0 (with_closing c p).
Proof. intros [] ? ? ? ?. by constructor. Qed.

Lemma OInv_log p i : OInv m0 p -> OInv m0 (append_log i p).
Proof.
  intros [Hr Hm Hf Hc Hcm Hs]. constructor; simpl; try done. intros f E. destruct (Hf f E) as (Hin & ?). split; [|done].
  rewrite app_assoc. apply elem_of_app. by left.
Qed.

Lemma OInv_step p p' : pump_step p p' -> OInv m0 p -> OInv m0 p'.
Proof.
  intros Hst HI. pose proof HI as [Hr Hm Hf Hc Hcm Hs].
  destruct Hst as [b p Hb Ha|i l1 l2 p Hl|i p Hi|i rest p Hl|s' h' p Hst Hp|i p Hi|st p Hn Ha|ds p|ts p Hn Hcl Hts|f p E Hle
    |f p E Ha|f p E Ha|f p E|f m safe p E Hsafe Hle|f m safe ts p E Hsafe Hle Hts].
  - by constructor.
  - apply OInv_log. by constructor.
  - by apply OInv_log.
  - constructor; simpl; try done.
    + eapply rtc_r; [exact Hr|]. constructor.
    + intros f E. destruct (Hf f E) as (Hin & ?). split; [|done]. rewrite <- app_assoc. simpl. by rewrite <- Hl.
  - constructor; simpl; try done.
    + by eapply rtc_r.
    + apply step_max in Hst. lia.
    + by rewrite Hp.
  - constructor; simpl; try done.
    + pose proof (emitted_max _ _ i Hr ltac:(by eapply list_elem_of_lookup_2)).
      destruct (Z.ltb_spec (commit i) (pump_maxCommitTS p)); lia.
    + intros m E. specialize (Hc m E). destruct (Z.ltb_spec (commit i) (pump_maxCommitTS p)); lia.
  - by constructor.
  - by constructor.
  - apply (OInv_closing (append_log (item_of (GenFakeBinlog ts)) p)); [apply OInv_log; exact HI| | | |]; cbn; try done.
    intros f [= <-]. split_and!; [|done|done]. unfold log_order. simpl. rewrite app_assoc. apply elem_of_app. right. by apply list_elem_of_singleton.
  - apply OInv_closing; [done|..]; cbn; try done.
    + intros g [= <-]. apply Hf. by rewrite E.
    + by intros m [= <-].
    + by intros g m [= <-] [= <-].
  - rewrite E in *. apply OInv_closing; [done|..]; cbn; try done.
  - rewrite E in *. apply OInv_closing; [done|..]; cbn; try done.
  - rewrite E in *. apply OInv_closing; [done|..]; cbn; try done.
    + by intros m [= <-].
    + intros g m [= <-] [= <-]. exact (Hc _ eq_refl).
  - rewrite E in *. apply OInv_closing; [done|..]; cbn; try done.
    intros g m' ds [= <- <- <-] d Hd Hoff. cbn in Hsafe. injection Hsafe as <-.
    destruct (min_commit_spec (drainers p) MaxInt64) as (_ & H2 & _). specialize (H2 d Hd Hoff). lia.
  - by apply OInv_log.
Qed.

Lemma reachable_OInv ds p : rtc pump_step (pump_start m0 ds) p -> OInv m0 p.
Proof.
  intros Hr. revert p Hr. refine (rtc_ind_r (OInv m0) _ _ _); [apply OInv_start|].
  intros p p' _ Hst. by apply OInv_step.
Qed.

Lemma max_commit_below c l m : (forall i, i ∈ l -> commit i < c) -> m < c -> max_commit m l < c.
Proof.
  revert m. induction l as [|x l IH]; intros m Hl Hm; [done|]. cbn [max_commit].
  apply IH; [intros i Hi; apply Hl; by right|]. destruct (is_prewrite x); [done|]. specialize (Hl x ltac:(by left)). lia.
Qed.

End Safety.

(** ** Executions
    The steps as a function, so that executions can be evaluated. *)
Inductive move :=
  | MPrewrite (start : Z)
  | MWrite (i : sortItem)
  | MPush
  | MTake
  | MMatched
  | MHandle
  | MAction (st : string)
  | MFake (ts : Z)
  | MSaved
  | MAllMatched
  | MRead
  | MSafe.

Definition prewrite_of (start : Z) : Binlog := mkBinlog BinlogType_Prewrite start 0 [] [] [] 0 0.

(** A prewrite that is checked and written at once. *)
Definition do_prewrite (start : Z) (p : pump) : option pump :=
  match admit_binlog false (prewrite_of start) (node_state p) with
  | None => Some (append_log (item_of (prewrite_of start)) p)
  | Some _ => None
  end.

Definition exec (m : move) (p : pump) : option pump :=
  match m with
  | MPrewrite start => do_prewrite start p
  | MWrite i => if is_prewrite i then None else Some (append_log i p)
  | MPush =>
    match logged p with
    | [] => None
    | i :: rest => Some (with_logged rest (with_sorter (pushTSItem i (srt p))
        (mkHist (pushed (hist p) ++ [i]) (done_ (hist p)) (resolved (hist p))) p))
    end
  | MTake =>
    match pc (srt p), items (srt p), run_step None (srt p) with
    | Loop, item :: _, Some s' =>
      Some (with_sorter s' (if is_prewrite item then hist p
        else mkHist (pushed (hist p)) (done_ (hist p) ++ [item]) (resolved (hist p))) p)
    | _, _, _ => None
    end
  | MMatched =>
    match pc (srt p), run_step None (srt p) with
    | Waiting item, Some s' =>
      if bool_decide (start item ∈ waitStartTS (srt p)) then None
      else Some (with_sorter s' (mkHist (pushed (hist p)) (done_ (hist p) ++ [item]) (resolved (hist p))) p)
    | _, _ => None
    end
  | MHandle =>
    match emitted (srt p) !! handled p with
    | Some i => Some (with_handled (if commit i <? pump_maxCommitTS p then pump_maxCommitTS p else commit i) p)
    | None => None
    end
  | MAction st =>
    if bool_decide (node_state p = Online /\ (st = Pausing \/ st = Closing)) then Some (with_state st p) else None
  | MFake ts =>
    match closing p with
    | Serving => if bool_decide (node_state p = Closing /\ 0 < ts)
        then Some (append_log (item_of (GenFakeBinlog ts)) (with_closing (WaitSaved (item_of (GenFakeBinlog ts))) p)) else None
    | _ => None
    end
  | MSaved =>
    match closing p with
    | WaitSaved f => if commit f <=? pump_maxCommitTS p then Some (with_closing (SavedSeen f) p) else None
    | _ => None
    end
  | MAllMatched =>
    match closing p with
    | SavedSeen f => if allMatched (srt p) then Some (with_closing (MatchedSeen f) p) else None
    | _ => None
    end
  | MRead =>
    match closing p with
    | MatchedSeen f => Some (with_closing (WaitDrainers f (pump_maxCommitTS p)) p)
    | _ => None
    end
  | MSafe =>
    match closing p with
    | WaitDrainers f m => if m <=? min_commit (drainers p) MaxInt64 then Some (with_closing (SafeToOffline f m (drainers p)) p) else None
    | _ => None
    end
  end.

Lemma exec_sound m p p' : exec m p = Some p' -> rtc pump_step p p'.
Proof.
  destruct m; cbn [exec]; intros H; [|apply rtc_once..].
  - unfold do_prewrite in H. destruct (admit_binlog _ _ _) eqn:E; [done|]. injection H as <-.
    eapply rtc_l; [by apply (OCheck (prewrite_of start))|]. apply rtc_once.
    exact (OPrewrite (item_of (prewrite_of start)) [] (checked p) (with_checked (item_of (prewrite_of start) :: checked p) p) eq_refl).
  - destruct (is_prewrite i) eqn:E; [done|]. injection H as <-. by constructor.
  - destruct (logged p) as [|i rest] eqn:E; [done|]. injection H as <-. by constructor.
  - destruct (pc (srt p)) eqn:Epc; try done. destruct (items (srt p)) as [|i rest] eqn:Ei; [done|].
    destruct (run_step None (srt p)) as [s'|] eqn:E; [|done]. injection H as <-. apply OSort; [by eapply StepTake|].
    by destruct (is_prewrite i).
  - destruct (pc (srt p)) as [|item|] eqn:Epc; try done. destruct (run_step None (srt p)) as [s'|] eqn:E; [|done].
    case_bool_decide; [done|]. injection H as <-. apply OSort; [by eapply StepMatched|done].
  - destruct (emitted (srt p) !! handled p) as [i|] eqn:E; [|done]. injection H as <-. by constructor.
  - case_bool_decide as Hc; [|done]. injection H as <-. destruct Hc. by constructor.
  - destruct (closing p) eqn:E; try done. case_bool_decide as Hc; [|done]. injection H as <-. destruct Hc. by constructor.
  - destruct (closing p) eqn:E; try done. destruct (Z.leb_spec (commit fake) (pump_maxCommitTS p)); [|done]. injection H as <-. by constructor.
  - destruct (closing p) eqn:E; try done. destruct (allMatched (srt p)) eqn:Ea; [|done]. injection H as <-. by constructor.
  - destruct (closing p) eqn:E; try done. injection H as <-. by constructor.
  - destruct (closing p) eqn:E; try done. destruct (Z.leb_spec maxCommitTS (min_commit (drainers p) MaxInt64)); [|done].
    injection H as <-. by eapply OSafe.
Qed.

Definition execs (ms : list move) (p : pump) : option pump := foldl (fun o m => o ≫= exec m) (Some p) ms.

Lemma execs_sound ms p p' : execs ms p = Some p' -> rtc pump_step p p'.
Proof.
  unfold execs. revert p. induction ms as [|m ms IH]; intros p H; cbn [foldl] in H; [by injection H as <-|].
  cbn in H. destruct (exec m p) as [q|] eqn:E.
  - etrans; [by eapply exec_sound|by apply IH].
  - exfalso. revert H. clear. induction ms as [|m ms IH]; [done|]. exact IH.
Qed.

Module PumpOfflineExamples.

Definition drainer (ts : Z) : Status := NewStatus "host:8249" "10.0.0.2:8249" Online 0 ts 0.
Definition C (s c : Z) : sortItem := mkItem s c BinlogType_Commit.
Definition F (ts : Z) : sortItem := item_of (GenFakeBinlog ts).

(** A transaction is written, then the pump is closed. *)
Definition orderly : list move :=
  [MPrewrite 10; MWrite (C 10 15); MAction Closing; MFake 20; MPush; MPush; MPush; MTake; MMatched; MTake; MTake;
   MHandle; MHandle; MSaved; MAllMatched; MRead; MSafe].


(** The wait does not cover a commit written behind the fake binlog: here the
    prewrite comes before the fake binlog and its commit, with a later timestamp,
    after it. [AllMatched] holds as soon as the commit is pushed, while
    [MaxCommitTS] is still that of the fake binlog; the pump goes offline although
    the only drainer, online, has not consumed the transaction. *)
Theorem offline_leaves_commit : exists p,
  rtc pump_step (pump_start 5 [drainer 20]) p /\ closing p = SafeToOffline (F 20) 20 [drainer 20] /\
  log_order p = [item_of (prewrite_of 10); F 20; C 10 25] /\ State (drainer 20) = Online /\ MaxCommitTS (drainer 20) < commit (C 10 25).
Proof.
  destruct (execs [MPrewrite 10; MAction Closing; MFake 20; MWrite (C 10 25); MPush; MTake; MPush; MPush; MMatched; MTake;
    MHandle; MSaved; MAllMatched; MRead; MSafe] (pump_start 5 [drainer 20])) as [p|] eqn:E; [|by vm_compute in E].
  exists p. split; [by eapply execs_sound|]. vm_compute in E. injection E as <-. by vm_compute.
Qed.
End PumpOfflineExamples.
