(* ===== verification/PumpClient.v ===== *)
(** * PumpClient
    The connection of drainer to a pump ([drainer/pump.go]): the goroutine of
    [PullBinlog] that pulls binlogs from a pump over connections that break, and
    hands them to the merger. *)
From Stdlib Require Import Init.Byte.
From stdpp Require Import base option list gmap strings sorting relations.
From S2P Require Import Prelude Text Binlog Registry MergeStrategy Schema.

(** [pump.FormatNodeID]. *)
Definition FormatNodeID (nodeID : string) : string := TrimSpace nodeID.

(** Where the goroutine is: at the top of its loop, before it creates the client,
    before [Recv], before it sends on the channel, returned. *)
Inductive puller_pc := PTop | PConnect | PRecv | PSend (b : Binlog) | PExit.

(** [Pump], the local variables of the goroutine, what was sent on its channel and
    what was reported.  An open stream is the timestamp it has delivered to. *)
Record Pump := mkPump {
  pm_nodeID : string;
  pm_isClosed : bool;
  pm_isPaused : bool;
  pm_latestTS : Z;
  grpcConn : option Z;
  needReCreateConn : bool;
  pm_last : Z;
  ret : list (binlogItem Job);
  pm_pc : puller_pc;
  reported : list error;
}.

Definition NewPump (nodeID : string) (startTs : Z) : Pump :=
  mkPump (FormatNodeID nodeID) false false startTs None false startTs [] PTop [].

Definition Close (p : Pump) : Pump :=
  mkPump (pm_nodeID p) true (pm_isPaused p) (pm_latestTS p) (grpcConn p) (needReCreateConn p) (pm_last p) (ret p) (pm_pc p) (reported p).
Definition set_paused (b : bool) (p : Pump) : Pump :=
  mkPump (pm_nodeID p) (pm_isClosed p) b (pm_latestTS p) (grpcConn p) (needReCreateConn p) (pm_last p) (ret p) (pm_pc p) (reported p).
Definition Pause (p : Pump) : Pump := if pm_isPaused p then p else set_paused true p.
Definition Continue (p : Pump) : Pump := if pm_isPaused p then set_paused false p else p.

Definition set_pull (c : option Z) (need : bool) (pc : puller_pc) (p : Pump) : Pump :=
  mkPump (pm_nodeID p) (pm_isClosed p) (pm_isPaused p) (pm_latestTS p) c need (pm_last p) (ret p) pc (reported p).

(** The rest of an iteration after the item was sent. *)
Definition after_send (b : Binlog) (p : Pump) : Pump :=
  let newer := pm_last p <? CommitTs b in
  mkPump (pm_nodeID p) (pm_isClosed p) (pm_isPaused p) (if newer then CommitTs b else pm_latestTS p)
    (grpcConn p) (needReCreateConn p) (if newer then CommitTs b else pm_last p)
    (ret p ++ [newBinlogItem b (pm_nodeID p)]) PTop (reported p).

Definition reportErr (e : error) (p : Pump) : Pump :=
  mkPump (pm_nodeID p) (pm_isClosed p) (pm_isPaused p) (pm_latestTS p) (grpcConn p) (needReCreateConn p) (pm_last p) (ret p)
    (pm_pc p) (reported p ++ [e]).

(** [createPullBinlogsClient(ctx, last)]: the connection it leaves and its error;
    dialing or the call may fail. *)
Definition createPullBinlogsClient (dial pull : option error) (last : Z) : option Z * option error :=
  match dial with
  | Some e => (None, Some e)
  | None => match pull with Some e => (None, Some e) | None => (Some last, None) end
  end.

(** What a stream that has delivered to [pos] delivers next: [PullBinlogs] of the
    pump sends its committed binlogs in the order of their timestamps. *)
Definition next_after (pos : Z) (store : list Binlog) : option Binlog := head (filter (fun b => pos < CommitTs b) store).

Section Pull.
Context `{C : Codec}.

(** Steps of the goroutine, with the binlogs of the pump, and of its environment;
    [Recv] ends with an error, with the payload of the next binlog, or with one that
    was damaged. *)
Inductive pull_step : Pump * list Binlog -> Pump * list Binlog -> Prop :=
  | PClosed p st : pm_pc p = PTop -> pm_isClosed p = true ->
      pull_step (p, st) (set_pull (grpcConn p) (needReCreateConn p) PExit p, st)
  | PPaused p st : pm_pc p = PTop -> pm_isClosed p = false -> pm_isPaused p = true -> pull_step (p, st) (p, st)
  | PGo p st : pm_pc p = PTop -> pm_isClosed p = false -> pm_isPaused p = false ->
      pull_step (p, st) (set_pull (grpcConn p) (needReCreateConn p)
        (if bool_decide (grpcConn p = None) || needReCreateConn p then PConnect else PRecv) p, st)
  | PConnected dial pull c p st : pm_pc p = PConnect -> createPullBinlogsClient dial pull (pm_last p) = (c, None) ->
      pull_step (p, st) (set_pull c false PRecv p, st)
  | PConnFailed dial pull c e p st : pm_pc p = PConnect -> createPullBinlogsClient dial pull (pm_last p) = (c, Some e) ->
      pull_step (p, st) (set_pull c (needReCreateConn p) PTop p, st)
  | PRecvFailed p st : pm_pc p = PRecv -> pull_step (p, st) (set_pull (grpcConn p) true PTop p, st)
  | PReceived p st pos b payload b' : pm_pc p = PRecv -> grpcConn p = Some pos -> next_after pos st = Some b ->
      marshal b = Ret payload -> unmarshal payload = Ret b' ->
      pull_step (p, st) (set_pull (Some (CommitTs b)) (needReCreateConn p) (PSend b') p, st)
  | PDamaged p st payload e : pm_pc p = PRecv -> unmarshal payload = Fail e ->
      pull_step (p, st) (reportErr e (set_pull (grpcConn p) (needReCreateConn p) PExit p), st)
  | PSent p st b : pm_pc p = PSend b -> pull_step (p, st) (after_send b p, st)
  | PCancelled p st b : pm_pc p = PSend b ->
      pull_step (p, st) (set_pull (grpcConn p) (needReCreateConn p) PExit p, st)
  (** the environment *)
  | PClose p st : pull_step (p, st) (Close p, st)
  | PPause p st : pull_step (p, st) (Pause p, st)
  | PContinue p st : pull_step (p, st) (Continue p, st)
  | PCommit p st b : Forall (fun b' => CommitTs b' < CommitTs b) st -> pull_step (p, st) (p, st ++ [b]).

(** ** Nothing is missed *)

Definition commit_sorted (st : list Binlog) : Prop := StronglySorted (fun b b' => CommitTs b < CommitTs b') st.

Lemma next_after_split pos st b : commit_sorted st -> next_after pos st = Some b ->
  exists l1 l2, st = l1 ++ b :: l2 /\ pos < CommitTs b /\
    Forall (fun b' => CommitTs b' <= pos) l1 /\ Forall (fun b' => CommitTs b < CommitTs b') l2.
Proof.
  unfold next_after. induction 1 as [|x st Hs IH Hx]; [done|]. destruct (decide (pos < CommitTs x)) as [Hlt|Hge].
  - rewrite filter_cons_True by done. intros [= <-]. exists [], st. split_and!; [done|done|apply List.Forall_nil|done].
  - rewrite filter_cons_False by done. intros (l1 & l2 & -> & Hb & H1 & H2)%IH. exists (x :: l1), l2.
    split_and!; [done|done|apply Forall_cons_iff; split; [lia|done]|done].
Qed.

(** The binlogs after [lo] up to [hi]. *)
Definition window (lo hi : Z) (st : list Binlog) : list Binlog := filter (fun b => lo < CommitTs b <= hi) st.

Lemma window_next lo hi st b : commit_sorted st -> lo <= hi -> next_after hi st = Some b ->
  window lo (CommitTs b) st = window lo hi st ++ [b].
Proof.
  intros Hs Hle (l1 & l2 & -> & Hb & H1 & H2)%next_after_split; [|done]. unfold window. rewrite !filter_app.
  rewrite filter_cons_True by lia. rewrite (filter_cons_False _ b l2) by lia.
  assert (E1 : filter (fun b' => lo < CommitTs b' <= CommitTs b) l1 = filter (fun b' => lo < CommitTs b' <= hi) l1).
  { apply filter_ext_Forall. eapply Forall_impl; [exact H1|]. intros x Hx; cbn in *; lia. }
  assert (E2 : forall z, z <= CommitTs b -> filter (fun b' => lo < CommitTs b' <= z) l2 = []).
  { intros z Hz. apply filter_all_out. eapply Forall_impl; [exact H2|]. intros x Hx; cbn in *; lia. }
  rewrite E1, !E2 by lia. by rewrite app_nil_r.
Qed.

Lemma window_app_last lo hi st b : Forall (fun b' => CommitTs b' < CommitTs b) st -> hi = lo \/ hi ∈ CommitTs <$> st ->
  window lo hi (st ++ [b]) = window lo hi st.
Proof.
  intros Hb Hhi. unfold window. rewrite filter_app, filter_cons_False, filter_nil, app_nil_r; [done|].
  destruct Hhi as [->|(x & -> & Hx)%list_elem_of_fmap]; [lia|]. rewrite list.Forall_forall in Hb. specialize (Hb x Hx). lia.
Qed.

Context {HC : CodecOk C}.

Record PInv (node : string) (start : Z) (ps : Pump * list Binlog) : Prop := {
  pi_sorted : commit_sorted ps.2;
  pi_ret : binlog <$> ret ps.1 = window start (pm_last ps.1) ps.2;
  pi_node : pm_nodeID ps.1 = node /\ Forall (fun i => nodeID i = node) (ret ps.1);
  pi_last : start <= pm_last ps.1 /\ (pm_last ps.1 = start \/ pm_last ps.1 ∈ CommitTs <$> ps.2);
  pi_latest : pm_latestTS ps.1 = pm_last ps.1;
  pi_pc : match pm_pc ps.1 with
    | PTop => needReCreateConn ps.1 = false -> forall pos, grpcConn ps.1 = Some pos -> pos = pm_last ps.1
    | PRecv => grpcConn ps.1 = Some (pm_last ps.1) /\ needReCreateConn ps.1 = false
    | PSend b => grpcConn ps.1 = Some (CommitTs b) /\ next_after (pm_last ps.1) ps.2 = Some b
    | _ => True
    end;
}.

Lemma PInv_start node start st : commit_sorted st -> PInv (FormatNodeID node) start (NewPump node start, st).
Proof.
  intros Hs. constructor; simpl; try done; [|split; [lia|by left]].
  symmetry. apply filter_all_out, list.Forall_forall. intros; lia.
Qed.

Lemma next_after_app pos st b x : next_after pos st = Some b -> next_after pos (st ++ [x]) = Some b.
Proof. unfold next_after. rewrite filter_app. by destruct (filter _ st). Qed.

Lemma next_after_in pos st b : next_after pos st = Some b -> b ∈ st /\ pos < CommitTs b.
Proof.
  unfold next_after. intros Hh. assert (Hin : b ∈ filter (fun b => pos < CommitTs b) st).
  { destruct (filter _ st); [done|]. injection Hh as ->. by left. }
  apply list_elem_of_filter in Hin. tauto.
Qed.

Lemma PInv_step node start ps ps' : pull_step ps ps' -> PInv node start ps -> PInv node start ps'.
Proof.
  intros Hst [Hs Hr Hn Hl Ht Hpc].
  destruct Hst as [p st E|p st E|p st E Hc Hp|dial pull c p st E Ec|dial pull c e p st E Ec|p st E|p st pos b payload b' E Ec Eb Em Eu|p st payload e E Eu|p st b E|p st b E|p st|p st|p st|p st b Hb];
    simpl in *.
  - by constructor.
  - constructor; simpl; try done.
  - constructor; simpl; try done. rewrite E in Hpc. case_bool_decide as Ecn; [done|]. simpl.
    destruct (needReCreateConn p); [done|]. destruct (grpcConn p) as [pos|]; [|done]. by rewrite (Hpc eq_refl pos eq_refl).
  - constructor; simpl; try done. destruct dial, pull; by simplify_eq/=.
  - constructor; simpl; try done. intros _ pos ->. destruct dial, pull; by simplify_eq/=.
  - by constructor.
  - rewrite E in Hpc. destruct Hpc as [Hconn Hneed]. assert (pos = pm_last p) as -> by congruence.
    assert (b' = b) as -> by (pose proof (unmarshal_marshal _ _ Em); congruence). by constructor.
  - by constructor.
  - rewrite E in Hpc. destruct Hpc as [Hconn Hnext]. pose proof (next_after_in _ _ _ Hnext) as [Hin Hlt].
    assert (Hnew : (pm_last p <? CommitTs b) = true) by (apply Z.ltb_lt; lia).
    constructor; simpl; rewrite ?Hnew; try done.
    + rewrite fmap_app. cbn. rewrite Hr. symmetry. apply window_next; [done|lia|done].
    + destruct Hn as [Hn1 Hn2]. split; [done|]. apply Forall_app. split; [done|]. by apply Forall_singleton.
    + split; [lia|]. right. apply list_elem_of_fmap. by exists b.
    + intros _ pos Hpos. congruence.
  - by constructor.
  - by constructor.
  - unfold Pause. destruct (pm_isPaused p); by constructor.
  - unfold Continue. destruct (pm_isPaused p); by constructor.
  - constructor; simpl; try done.
    + apply StronglySorted_app_2; [|done|repeat constructor]. intros x y Hx Hy%list_elem_of_singleton. subst y.
      rewrite list.Forall_forall in Hb. by apply Hb.
    + rewrite window_app_last; [done|done|tauto].
    + split; [lia|]. destruct Hl as [_ [->|Hl]]; [by left|right]. rewrite fmap_app. apply elem_of_app. by left.
    + destruct (pm_pc p); try done. destruct Hpc as [? ?]. split; [done|]. by apply next_after_app.
Qed.

Lemma PInv_rtc node start ps ps' : rtc pull_step ps ps' -> PInv node start ps -> PInv node start ps'.
Proof. induction 1 as [|x y z Hst _ IH]; [done|]. intros HI. apply IH. by eapply PInv_step. Qed.

Lemma reachable_PInv node start st0 ps : commit_sorted st0 -> rtc pull_step (NewPump node start, st0) ps ->
  PInv (FormatNodeID node) start ps.
Proof.
  intros Hs Hr. eapply PInv_rtc; [exact Hr|by apply PInv_start].
Qed.

(** However often the connection breaks, is paused or made again, the goroutine
    hands the merger exactly the binlogs of the pump from where it started to where
    it is, each once and in the order of their commit timestamps, marked with the
    id of the pump; and [latestTS] is the timestamp of the last one. *)
Theorem pull_no_gap node start st0 p st :
  commit_sorted st0 -> rtc pull_step (NewPump node start, st0) (p, st) ->
  binlog <$> ret p = window start (pm_latestTS p) st /\
  Forall (fun i => GetSourceID i = FormatNodeID node) (ret p) /\
  StronglySorted (fun i j => GetCommitTs i < GetCommitTs j) (ret p).
Proof.
  intros Hs Hr. pose proof (reachable_PInv _ _ _ _ Hs Hr) as [Hso Hret [_ Hn] _ Hl _]. cbn in *. rewrite Hl.
  split_and!; [done|done|].
  assert (Hsorted : StronglySorted (fun b b' => CommitTs b < CommitTs b') (binlog <$> ret p)).
  { rewrite Hret. unfold window. clear -Hso. induction Hso as [|x st Hs IH Hx]; [constructor|].
    rewrite filter_cons. case_decide; [|done]. constructor; [done|]. apply list.Forall_forall. intros y [_ Hy]%list_elem_of_filter.
    rewrite list.Forall_forall in Hx. by apply Hx. }
  clear -Hsorted. induction (ret p) as [|x l IH]; [constructor|]. cbn in Hsorted. inversion Hsorted as [|?? H1 H2]; subst.
  constructor; [by apply IH|]. by rewrite Forall_fmap in H2.
Qed.

(** ** Everything arrives *)

(** Neither closed nor paused nor ended. *)
Definition awake (p : Pump) : Prop := pm_isClosed p = false /\ pm_isPaused p = false /\ pm_pc p <> PExit.

Lemma pull_recv node start p st b payload : PInv node start (p, st) -> awake p -> pm_pc p = PRecv ->
  next_after (pm_last p) st = Some b -> marshal b = Ret payload ->
  exists p', rtc pull_step (p, st) (p', st) /\ awake p' /\ pm_last p' = CommitTs b.
Proof.
  intros [_ _ _ _ _ Hpc] (Hc & Hp & _) E Hn Hm. cbn in Hpc. rewrite E in Hpc. destruct Hpc as [Hconn _].
  eexists. split_and!.
  - eapply rtc_l; [eapply PReceived; [exact E|exact Hconn|exact Hn|exact Hm|by apply unmarshal_marshal]|].
    apply rtc_once. by apply PSent.
  - by split_and!.
  - cbn. apply next_after_in in Hn as [_ Hlt]. by rewrite (proj2 (Z.ltb_lt _ _) Hlt).
Qed.

Lemma pull_one node start p st b payload : PInv node start (p, st) -> awake p ->
  next_after (pm_last p) st = Some b -> marshal b = Ret payload ->
  exists p', rtc pull_step (p, st) (p', st) /\ awake p' /\ pm_last p' = CommitTs b.
Proof.
  intros HI Ha Hn Hm. pose proof Ha as (Hc & Hp & He).
  assert (Hvia : forall q, pull_step (p, st) (q, st) -> pm_pc q = PRecv -> pm_isClosed q = false -> pm_isPaused q = false -> pm_last q = pm_last p ->
    exists p', rtc pull_step (p, st) (p', st) /\ awake p' /\ pm_last p' = CommitTs b).
  { intros q Hst Eq Hcq Hpq Hlq. pose proof (PInv_step _ _ _ _ Hst HI) as HIq.
    destruct (pull_recv _ _ q st b payload HIq) as (p' & Hr & ?); [unfold awake; by rewrite Eq|done|by rewrite Hlq|done|].
    exists p'. split; [|done]. by eapply rtc_l. }
  destruct (pm_pc p) eqn:E; [| | | |done].
  - destruct (bool_decide (grpcConn p = None) || needReCreateConn p) eqn:En.
    + set (q := set_pull (grpcConn p) (needReCreateConn p) PConnect p).
      assert (Hst : pull_step (p, st) (q, st)) by (subst q; pose proof (PGo p st E Hc Hp) as H; by rewrite En in H).
      pose proof (PInv_step _ _ _ _ Hst HI) as HIq. assert (Hst2 : pull_step (q, st) (set_pull (Some (pm_last q)) false PRecv q, st)) by by apply (PConnected None None).
      pose proof (PInv_step _ _ _ _ Hst2 HIq) as HI2.
      destruct (pull_recv _ _ _ st b payload HI2) as (p' & Hr & ?); [by split_and!|done|done|done|].
      exists p'. split; [|done]. eapply rtc_l; [exact Hst|]. by eapply rtc_l.
    + pose proof (PGo p st E Hc Hp) as H. rewrite En in H. by eapply Hvia.
  - eapply Hvia; [by apply (PConnected None None)|done..].
  - by eapply pull_recv.
  - pose proof (pi_pc _ _ _ HI) as Hpc. cbn in Hpc. rewrite E in Hpc. destruct Hpc as [_ Hnext].
    assert (b0 = b) as -> by congruence. eexists. split; [apply rtc_once; by apply PSent|]. split; [by split_and!|].
    cbn. apply next_after_in in Hn as [_ Hlt]. by rewrite (proj2 (Z.ltb_lt _ _) Hlt).
Qed.

(** C13: The goroutine catches up: from every state it reaches in which it is neither
    closed nor paused, working connections bring it to a state where it has handed
    over every binlog of the pump after its start. *)
Theorem pull_catches_up node start st0 p st :
  commit_sorted st0 -> rtc pull_step (NewPump node start, st0) (p, st) -> awake p ->
  (forall b, b ∈ st -> exists payload, marshal b = Ret payload) ->
  exists p', rtc pull_step (p, st) (p', st) /\ awake p' /\
    binlog <$> ret p' = filter (fun b => start < CommitTs b) st.
Proof.
  intros Hs Hr Ha Hm. pose proof (reachable_PInv _ _ _ _ Hs Hr) as HI. clear Hs Hr.
  remember (length (filter (fun b => pm_last p < CommitTs b) st)) as n eqn:Hlen.
  revert p HI Ha Hlen. induction n as [n IH] using lt_wf_ind; intros p HI Ha ->.
  destruct (next_after (pm_last p) st) as [b|] eqn:Hn.
  - destruct (next_after_in _ _ _ Hn) as [Hin Hlt]. destruct (Hm b Hin) as [payload Hb].
    destruct (pull_one _ _ _ _ _ _ HI Ha Hn Hb) as (p1 & Hr1 & Ha1 & Hl1).
    assert (HI1 : PInv (FormatNodeID node) start (p1, st)) by (by eapply PInv_rtc).
    destruct (IH (length (filter (fun b => pm_last p1 < CommitTs b) st))) with (p := p1) as (p' & Hr' & ? & ?); [|done|done|done|].
    + rewrite Hl1. pose proof (pi_sorted _ _ _ HI : commit_sorted st) as Hso. destruct (next_after_split _ _ _ Hso Hn) as (l1 & l2 & -> & _ & H1 & H2).
      rewrite !filter_app, !length_app. rewrite (filter_cons_False _ b) by lia. rewrite (filter_cons_True _ b) by lia. cbn [length].
      rewrite (filter_all_out _ l1) by (eapply Forall_impl; [exact H1|]; intros x Hx; cbn in *; lia).
      rewrite (filter_ext_Forall (fun b' => CommitTs b < CommitTs b') (fun b' => pm_last p < CommitTs b') l2)
        by (eapply Forall_impl; [exact H2|]; intros x Hx; cbn in *; lia). cbn [length]. lia.
    + exists p'. split; [|done]. by etrans.
  - exists p. split_and!; [done|done..|]. etrans; [exact (pi_ret _ _ _ HI)|]. apply filter_ext_Forall, list.Forall_forall. intros x Hx. cbn.
    assert (~ pm_last p < CommitTs x); [|lia]. intros Hlt. unfold next_after in Hn.
    assert (Hin : x ∈ filter (fun b => pm_last p < CommitTs b) st) by by apply list_elem_of_filter.
    destruct (filter _ st); [by apply not_elem_of_nil in Hin|done].
Qed.
End Pull.

Module PumpClientExamples.
#[local] Existing Instance SimpleCodec.codec.
#[local] Existing Instance SimpleCodec.codec_ok.

Definition committed (ts : Z) : Binlog := mkBinlog BinlogType_Commit (ts - 1) ts [] [] [] 0 0.
Definition stored : list Binlog := [committed 5; committed 15; committed 25].

Lemma stored_sorted : commit_sorted stored.
Proof. repeat constructor. Qed.

(** After a broken connection and one binlog. *)
Definition pulled : Pump :=
  mkPump "host:8250" false false 15 (Some 15) false 15 [newBinlogItem (committed 15) "host:8250"] PTop [].

Lemma pulled_reachable : rtc pull_step (NewPump " host:8250 " 10, stored) (pulled, stored).
Proof.
  eapply rtc_l; [by apply PGo|]. eapply rtc_l; [by apply (PConnFailed (Some EOF) None None EOF)|]. eapply rtc_l; [by apply PGo|].
  eapply rtc_l; [by apply (PConnected None None)|]. eapply rtc_l; [by apply PRecvFailed|]. eapply rtc_l; [by apply PGo|].
  eapply rtc_l; [by apply (PConnected None None)|].
  eapply rtc_l; [eapply (PReceived _ _ 10 (committed 15) (SimpleCodec.enc (committed 15))); by vm_compute|].
  eapply rtc_l; [by apply PSent|]. apply rtc_refl.
Qed.

Lemma pull_no_gap_witness : commit_sorted stored /\ binlog <$> ret pulled = window 10 15 stored.
Proof. split; [exact stored_sorted|]. exact (proj1 (pull_no_gap _ _ _ _ _ stored_sorted pulled_reachable)). Defined.

Lemma pull_catches_up_witness : exists p', rtc pull_step (pulled, stored) (p', stored) /\
  binlog <$> ret p' = [committed 15; committed 25].
Proof.
  destruct (pull_catches_up _ _ _ _ _ stored_sorted pulled_reachable) as (p' & Hr & _ & H); [by split_and!| |].
  - intros b Hb. exists (SimpleCodec.enc b). revert b Hb.
    apply (proj1 (list.Forall_forall (fun b => marshal b = Ret (SimpleCodec.enc b)) _)). repeat constructor.
  - exists p'. split; [exact Hr|]. rewrite H. reflexivity.
Defined.
End PumpClientExamples.
