(* ===== verification/Collector.v ===== *)
(** * Collector
    The collector of drainer ([drainer/collector.go]): it follows the registry of
    pumps, connects to the pumps that come and drops those that leave, adds them to
    the merger, and hands the merged binlogs with their DDL jobs to the syncer. *)
From Stdlib Require Import Init.Byte.
From stdpp Require Import base option list gmap strings sorting.
From S2P Require Import Prelude Text Binlog Retry Registry MergeStrategy Merger Schema PumpClient.

Section Collector.
Context {S : Type} `{MS : !MergeStrategy (binlogItem Job) S}.

(** ** State *)

(** [HTTPStatus]. *)
Record HTTPStatus := mkHTTP { PumpPos : gmap string Z; Synced : bool; LastTS : Z }.

(** The collector with its merger; [next_chan] names the next channel to be made,
    [chan_of] the channel that the goroutine of a pump sends on. *)
Record Collector := mkCollector {
  pumps : gmap string Pump;
  merger : Merger (binlogItem Job) S;
  c_latestTS : Z;
  c_status : option HTTPStatus;
  next_chan : nat;
  chan_of : gmap string nat;
  (** pumps that were closed and are no longer followed *)
  closed_pumps : list Pump;
}.

Definition NewCollector (checkpointTS : Z) : Collector := mkCollector ∅ (NewMerger checkpointTS [] ∅) 0 None 0 ∅ [].

Definition set_merger (m : Merger (binlogItem Job) S) (c : Collector) : Collector :=
  mkCollector (pumps c) m (c_latestTS c) (c_status c) (next_chan c) (chan_of c) (closed_pumps c).
Definition set_pumps (ps : gmap string Pump) (c : Collector) : Collector :=
  mkCollector ps (merger c) (c_latestTS c) (c_status c) (next_chan c) (chan_of c) (closed_pumps c).
Definition set_latest (ts : Z) (c : Collector) : Collector :=
  mkCollector (pumps c) (merger c) ts (c_status c) (next_chan c) (chan_of c) (closed_pumps c).

(** ** Following the registry *)

(** A pump that is not known yet: it is pulled from the last timestamp merged. *)
Definition add_pump (id : string) (c : Collector) : Collector :=
  let commitTS := GetLatestTS (merger c) in
  let m := set_chan (next_chan c) (mkChan [] false commitTS) (merger c) in
  mkCollector (<[id := NewPump id commitTS]> (pumps c))
    (AddSource (mkSource id (Some (next_chan c))) m) (c_latestTS c) (c_status c)
    (next_chan c + 1) (<[id := next_chan c]> (chan_of c)) (closed_pumps c).

Definition remove_pump (id : string) (p : Pump) (c : Collector) : Collector :=
  mkCollector (delete id (pumps c)) (RemoveSource id (merger c)) (c_latestTS c) (c_status c) (next_chan c) (chan_of c)
    (closed_pumps c ++ [Close p]).

Definition handlePumpStatusUpdate (n : Status) (c : Collector) : Collector :=
  let id := FormatNodeID (NodeID n) in
  match pumps c !! id with
  | None => if bool_decide (State n = Offline) then c else add_pump id c
  | Some p =>
    if bool_decide (State n = Paused) then set_pumps (<[id := Pause p]> (pumps c)) c
    else if bool_decide (State n = Online) then set_pumps (<[id := Continue p]> (pumps c)) c
    else if bool_decide (State n = Offline) then remove_pump id p c
    else c
  end.

(** [updatePumpStatus]: the nodes that the registry lists and the timestamp of PD. *)
Definition updatePumpStatus (nodes : etcd_error + list Status) (latest : outcome Z) (c : Collector) : Collector * outcome unit :=
  match nodes with
  | inl _ => (c, Fail (Err "list the pumps"))
  | inr nodes =>
    match latest with
    | Fail e => (set_latest 0 c, Fail e)
    | Panic => (c, Panic)
    | Ret ts => (foldl (fun c n => handlePumpStatusUpdate n c) (set_latest ts c) nodes, Ret tt)
    end
  end.

Definition updateCollectStatus (synced : bool) (c : Collector) : Collector :=
  mkCollector (pumps c) (merger c) (c_latestTS c)
    (Some (mkHTTP (pm_latestTS <$> pumps c) synced (GetLatestTS (merger c)))) (next_chan c) (chan_of c) (closed_pumps c).

Definition updateStatus (nodes : etcd_error + list Status) (latest : outcome Z) (c : Collector) : Collector * outcome unit :=
  match updatePumpStatus nodes latest c with
  | (c, Ret _) => (updateCollectStatus false c, Ret tt)
  | (c, r) => (c, r)
  end.

(** [HTTPStatus()]: the snapshot is shared, so what is set in it stays. [idle] says
    that the syncer had no input for [syncedCheckTime] minutes. *)
Definition get_HTTPStatus (idle : bool) (latestCommitTS : Z) (c : Collector) : Collector * HTTPStatus :=
  match c_status c with
  | None => (c, mkHTTP ∅ false 0)
  | Some st =>
    let st := mkHTTP (PumpPos st) (if idle then true else Synced st) latestCommitTS in
    (mkCollector (pumps c) (merger c) (c_latestTS c) (Some st) (next_chan c) (chan_of c) (closed_pumps c), st)
  end.

(** The start of [keepUpdatingStatus]: the merger is stopped during the first update. *)
Definition first_update (nodes : etcd_error + list Status) (latest : outcome Z) (c : Collector) : Collector :=
  let c := set_merger (set_pause true (merger c)) c in
  let c := (updateStatus nodes latest c).1 in
  set_merger (set_pause false (merger c)) c.

(** ** DDL jobs *)

(** [skipQueryJob]: the binlogs that carry the value of a sequence. *)
Definition skipQueryJob (b : Binlog) : bool :=
  bool_decide (take 13 (DdlQuery b) = String.list_byte_of_string "select setval").

(** [fDDLJobGetter]: the answer to the k-th query. *)
Variable getter : nat -> error + option Job.

(** The function that is retried; it sets the variable [job]. *)
Definition get_job (s : nat * option Job) : (nat * option Job) * outcome unit :=
  let '(k, _) := s in
  match getter k with
  | inl e => ((k + 1, None)%nat, Fail e)
  | inr job => ((k + 1, job)%nat, Ret tt)
  end.

(** The loop of [syncBinlog]; [None]: still no job after [fuel] rounds. *)
Fixpoint query_job (fuel k : nat) : option (nat * (error + Job)) :=
  match fuel with
  | O => None
  | Datatypes.S fuel =>
    match RetryOnError 10 get_job (k, None) with
    | ((k, _), Fail e) => Some (k, inl e)
    | ((k, Some job), Ret _) => Some (k, inr job)
    | ((k, None), Ret _) => query_job fuel k
    | ((k, _), Panic) => None
    end
  end.

Definition StateDeleteOnly_value : Z := 1.

Definition set_SchemaState (s : SchemaState) (j : Job) : Job :=
  mkJob (job_Type j) (job_State j) s (job_SchemaID j) (job_TableID j) (job_BinlogInfo j) (job_Query j).

(** What [syncBinlog] does with the item once the job is known. *)
Definition item_with_job (item : binlogItem Job) (job : Job) : option (binlogItem Job) :=
  let isDelOnlyEvent := DdlSchemaState (binlog item) =? StateDeleteOnly_value in
  if skipJob job && negb isDelOnlyEvent then None
  else Some (SetJob (if isDelOnlyEvent then set_SchemaState StateDeleteOnly job else job) item).

(** [syncBinlog]: the item given to the syncer, if any, or an error. *)
Definition syncBinlog (fuel : nat) (item : binlogItem Job) (k : nat) : option (nat * (error + option (binlogItem Job))) :=
  if skipQueryJob (binlog item) then Some (k, inr None)
  else if 0 <? DdlJobId (binlog item) then
    match query_job fuel k with
    | None => None
    | Some (k, inl e) => Some (k, inl e)
    | Some (k, inr job) => Some (k, inr (item_with_job item job))
    end
  else Some (k, inr (Some item)).

(** [publishBinlogs] on the items of the merger: what the syncer is given, and the
    error that ends it. *)
Fixpoint publishBinlogs (fuel : nat) (items : list (binlogItem Job)) (k : nat) : list (binlogItem Job) * option error :=
  match items with
  | [] => ([], None)
  | item :: items =>
    match syncBinlog fuel item k with
    | None => ([], None)
    | Some (_, inl e) => ([], Some e)
    | Some (k, inr out) => let '(l, e) := publishBinlogs fuel items k in (option_list out ++ l, e)
    end
  end.
End Collector.
Arguments Collector : clear implicits.

(** ** The pumps and the sources of the merger *)

Section Wiring.
Context {S : Type} `{MS : !MergeStrategy (binlogItem Job) S}.
Implicit Types c : Collector S.

(** Every pump has a source of the merger with its id, on a channel of its own, and
    there are no other sources. *)
Record wired c : Prop := {
  w_node id p : pumps c !! id = Some p -> pm_nodeID p = id;
  w_dom id : is_Some (pumps c !! id) <-> is_Some (sources (merger c) !! id);
  w_source id s : sources (merger c) !! id = Some s ->
    exists ch, s = mkSource id (Some ch) /\ chan_of c !! id = Some ch /\ (ch < next_chan c)%nat /\ is_Some (chans (merger c) !! ch);
  w_own id id' s s' : sources (merger c) !! id = Some s -> sources (merger c) !! id' = Some s' -> Source s = Source s' -> id = id';
}.

Lemma wired_new ts : wired (NewCollector ts).
Proof.
  constructor; simpl; intros.
  - by rewrite lookup_empty in *.
  - by rewrite !lookup_empty.
  - by rewrite lookup_empty in *.
  - by rewrite lookup_empty in *.
Qed.

Lemma wired_set_pump c id p p' : wired c -> pumps c !! id = Some p -> pm_nodeID p' = pm_nodeID p ->
  wired (set_pumps (<[id := p']> (pumps c)) c).
Proof.
  intros [Hn Hd Hs Ho] Hp Hid. constructor; simpl; try done.
  - intros i q. rewrite lookup_insert_Some. intros [[<- <-]|[_ Hq]]; [rewrite Hid; by apply Hn|by apply Hn].
  - intros i. rewrite <- Hd. destruct (decide (i = id)) as [->|]; [rewrite lookup_insert_eq, Hp; split; intros; by eexists|by rewrite lookup_insert_ne].
Qed.

Lemma wired_add c id : wired c -> FormatNodeID id = id -> pumps c !! id = None -> wired (add_pump id c).
Proof.
  intros [Hn Hd Hs Ho] Hid Hp. assert (Hold : forall i s, sources (merger c) !! i = Some s -> Source s <> Some (next_chan c)).
  { intros i s (ch & -> & _ & Hlt & _)%Hs [= ->]. lia. }
  assert (Hnone : sources (merger c) !! id = None).
  { destruct (sources (merger c) !! id) eqn:E; [|done]. destruct (Hd id) as [_ H]. rewrite Hp in H. destruct H as [? [=]]. by eexists. }
  constructor; simpl.
  - intros i q. rewrite lookup_insert_Some. intros [[<- <-]|[_ Hq]]; [done|by apply Hn].
  - intros i. destruct (decide (i = id)) as [->|].
    + rewrite !lookup_insert_eq. split; intros; by eexists.
    + by rewrite !lookup_insert_ne.
  - intros i s. rewrite lookup_insert_Some. intros [[<- <-]|[Hne Hi]].
    + eexists. rewrite lookup_insert_eq. split_and!; [done|done|lia|]. rewrite lookup_insert_eq. by eexists.
    + destruct (Hs _ _ Hi) as (ch & -> & Hc & Hlt & Hch). exists ch. rewrite lookup_insert_ne by done.
      split_and!; [done|done|lia|]. rewrite lookup_insert_ne by lia. done.
  - intros i i' s s'. rewrite !lookup_insert_Some. intros [[<- <-]|[? Hi]] [[<- <-]|[? Hi']] Heq; try done; cbn in Heq.
    + exfalso. by eapply Hold.
    + exfalso. by eapply Hold.
    + by eapply Ho.
Qed.

Lemma wired_remove c id p : wired c -> wired (remove_pump id p c).
Proof.
  intros [Hn Hd Hs Ho]. constructor; simpl.
  - intros i q [_ Hq]%lookup_delete_Some. by apply Hn.
  - intros i. destruct (decide (i = id)) as [->|]; [by rewrite !lookup_delete_eq|by rewrite !lookup_delete_ne].
  - intros i s [_ Hi]%lookup_delete_Some. by apply Hs.
  - intros i i' s s' [_ Hi]%lookup_delete_Some [_ Hi']%lookup_delete_Some. by eapply Ho.
Qed.

Lemma pause_node p : pm_nodeID (Pause p) = pm_nodeID p.
Proof. unfold Pause. by destruct (pm_isPaused p). Qed.
Lemma continue_node p : pm_nodeID (Continue p) = pm_nodeID p.
Proof. unfold Continue. by destruct (pm_isPaused p). Qed.

Lemma wired_handle c n : wired c -> wired (handlePumpStatusUpdate n c).
Proof.
  intros Hw. unfold handlePumpStatusUpdate. destruct (pumps c !! FormatNodeID (NodeID n)) as [p|] eqn:E.
  - repeat case_bool_decide; eauto using wired_set_pump, pause_node, continue_node, wired_remove.
  - case_bool_decide; [done|]. apply wired_add; [done|apply TrimSpace_idemp|done].
Qed.

(** The pump of an id after the registry has reported the state of its node. *)
Definition pump_after (id : string) (latest : Z) (state : string) (o : option Pump) : option Pump :=
  match o with
  | None => if bool_decide (state = Offline) then None else Some (NewPump id latest)
  | Some p =>
    if bool_decide (state = Paused) then Some (Pause p)
    else if bool_decide (state = Online) then Some (Continue p)
    else if bool_decide (state = Offline) then None
    else Some p
  end.

Lemma handle_pumps c n id :
  pumps (handlePumpStatusUpdate n c) !! id =
    (if bool_decide (FormatNodeID (NodeID n) = id) then pump_after id (GetLatestTS (merger c)) (State n) (pumps c !! id)
     else pumps c !! id) /\
  GetLatestTS (merger (handlePumpStatusUpdate n c)) = GetLatestTS (merger c).
Proof.
  unfold handlePumpStatusUpdate, pump_after. destruct (decide (FormatNodeID (NodeID n) = id)) as [<-|Hid].
  - rewrite (bool_decide_eq_true_2 (FormatNodeID (NodeID n) = FormatNodeID (NodeID n))) by done.
    destruct (pumps c !! FormatNodeID (NodeID n)) as [p|] eqn:E; repeat case_bool_decide; simpl;
      rewrite ?lookup_insert_eq, ?lookup_delete_eq; done.
  - rewrite (bool_decide_eq_false_2 (FormatNodeID (NodeID n) = id)) by done.
    destruct (pumps c !! FormatNodeID (NodeID n)) as [p|] eqn:E; repeat case_bool_decide; simpl;
      rewrite ?lookup_insert_ne, ?lookup_delete_ne by done; done.
Qed.

Lemma update_loop nodes : forall c, wired c -> NoDup (FormatNodeID ∘ NodeID <$> nodes) ->
  let c' := foldl (fun c n => handlePumpStatusUpdate n c) c nodes in
  wired c' /\ GetLatestTS (merger c') = GetLatestTS (merger c) /\
  (forall n, n ∈ nodes -> pumps c' !! FormatNodeID (NodeID n) =
     pump_after (FormatNodeID (NodeID n)) (GetLatestTS (merger c)) (State n) (pumps c !! FormatNodeID (NodeID n))) /\
  (forall id, id ∉ (FormatNodeID ∘ NodeID <$> nodes) -> pumps c' !! id = pumps c !! id).
Proof.
  induction nodes as [|n nodes IH]; intros c Hw Hnd; [split_and!; [done|done|by intros ? ?%not_elem_of_nil|done]|].
  rewrite fmap_cons, list.NoDup_cons in Hnd. destruct Hnd as [Hn Hnd]. cbn [foldl].
  destruct (IH _ (wired_handle c n Hw) Hnd) as (Hw' & Hl & Hin & Hout). cbn zeta in *.
  set (c' := foldl _ _ nodes) in *. destruct (handle_pumps c n (FormatNodeID (NodeID n))) as [Hself Hlat]. rewrite Hlat in *.
  split_and!; [done|done| |].
  - intros x [->|Hx]%elem_of_cons.
    + rewrite Hout by done. rewrite Hself. by rewrite bool_decide_eq_true_2.
    + rewrite Hin by done. f_equal. destruct (handle_pumps c n (FormatNodeID (NodeID x))) as [-> _].
      rewrite bool_decide_eq_false_2; [done|]. intros Heq. apply Hn. cbn. rewrite Heq. apply list_elem_of_fmap. by exists x.
  - intros id Hid. rewrite fmap_cons, not_elem_of_cons in Hid. destruct Hid as [Hid1 Hid2]. rewrite Hout by done.
    destruct (handle_pumps c n id) as [-> _]. rewrite bool_decide_eq_false_2; [done|]. intros Heq. by apply Hid1.
Qed.

(** An update with the list of the registry and a timestamp of PD. *)
Lemma update_follows c nodes ts :
  wired c -> NoDup (FormatNodeID ∘ NodeID <$> nodes) ->
  let '(c', r) := updateStatus (inr nodes) (Ret ts) c in
  r = Ret tt /\ wired c' /\
  (forall n, n ∈ nodes -> pumps c' !! FormatNodeID (NodeID n) =
     pump_after (FormatNodeID (NodeID n)) (GetLatestTS (merger c)) (State n) (pumps c !! FormatNodeID (NodeID n))) /\
  (forall id, id ∉ (FormatNodeID ∘ NodeID <$> nodes) -> pumps c' !! id = pumps c !! id) /\
  PumpPos <$> c_status c' = Some (pm_latestTS <$> pumps c').
Proof.
  intros Hw Hnd. unfold updateStatus, updatePumpStatus. cbn.
  assert (Hw0 : wired (set_latest ts c)) by (destruct Hw; by constructor).
  destruct (update_loop nodes _ Hw0 Hnd) as (Hw' & _ & Hin & Hout). cbn in *.
  split_and!; [done| |done|done|done]. destruct Hw'. by constructor.
Qed.

(** C14: After an update the collector follows the registry: a pump that is listed as
    offline is dropped and every other listed one is connected, from the last
    timestamp merged when it is new, paused or continued as its state says; pumps
    that are not listed stay; and the merger has exactly one source for every pump,
    each on a channel of its own. *)
Theorem update_follows_registry c nodes ts :
  wired c -> NoDup (FormatNodeID ∘ NodeID <$> nodes) ->
  let '(c', r) := updateStatus (inr nodes) (Ret ts) c in
  r = Ret tt /\ wired c' /\
  (forall n, n ∈ nodes -> pumps c' !! FormatNodeID (NodeID n) =
     pump_after (FormatNodeID (NodeID n)) (GetLatestTS (merger c)) (State n) (pumps c !! FormatNodeID (NodeID n))) /\
  (forall id, id ∉ (FormatNodeID ∘ NodeID <$> nodes) -> pumps c' !! id = pumps c !! id) /\
  PumpPos <$> c_status c' = Some (pm_latestTS <$> pumps c').
Proof. apply update_follows. Qed.
End Wiring.

(** ** The first update *)

Section FirstUpdate.
Context {S : Type} `{MS : !MergeStrategy (binlogItem Job) S} `{OK : !MergeStrategyOk (binlogItem Job) S}.

(** The merger goes round its first two steps. *)
Definition waiting (m : Merger (binlogItem Job) S) : Prop := Merger.pc m = Head \/ Merger.pc m = Begin.

Lemma waiting_act a m : waiting m -> waiting (act a m).
Proof. unfold waiting. by destruct (act_unchanged a m) as (-> & _). Qed.

Lemma waiting_run order (m : Merger (binlogItem Job) S) evs m' :
  waiting m -> pause m = true \/ sources m = ∅ -> run_step order m = Some (evs, m') ->
  evs = [] /\ (waiting m' \/ Merger.pc m' = Stopped) /\ pause m' = pause m /\ sources m' = sources m.
Proof.
  unfold waiting, run_step. intros [->| ->] Hw; simpl; [intros [= <- <-]; simpl; auto|].
  destruct (Merger.closed m); [intros [= <- <-]; simpl; auto|]. destruct (pause m) eqn:Hp; [intros [= <- <-]; simpl; auto|].
  destruct Hw as [|Hw]; [done|]. rewrite bool_decide_eq_true_2 by done. intros [= <- <-]. simpl. auto.
Qed.

(** Nothing is merged before the pumps are known: neither before the collector is
    started nor, whatever is added, during its first update. *)
Theorem first_update_quiet ts cs tr m tr' m' :
  exec (fun _ a => forall s, a <> DoAdd s) (NewMerger ts [] cs : Merger (binlogItem Job) S) tr m ->
  exec (fun _ a => a <> DoPause false) (act (DoPause true) m) tr' m' -> tr = [] /\ tr' = [].
Proof.
  intros H1 H2.
  assert (Hs1 : tr = [] /\ (waiting m \/ Merger.pc m = Stopped) /\ sources m = ∅).
  { clear H2. induction H1 as [|tr m order evs m1 _ (-> & Hw & Hs) _ Hst|tr m a _ (-> & Hw & Hs) Ha].
    - split_and!; [done|by left; left|done].
    - destruct Hw as [Hw|Hw]; [|unfold run_step in Hst; by rewrite Hw in Hst].
      destruct (waiting_run _ _ _ _ Hw ltac:(by right) Hst) as (-> & ? & _ & Hs'). split_and!; [done|done|congruence].
    - split_and!; [done|destruct Hw as [Hw|Hw]; [left; by apply waiting_act|right; by destruct (act_unchanged a m) as (-> & _)]|].
      destruct a; simpl; try case_match; simpl; try done; [by specialize (Ha s)|]. rewrite Hs. apply delete_empty. }
  destruct Hs1 as (-> & Hw & _). split; [done|].
  assert (Hs2 : tr' = [] /\ (waiting m' \/ Merger.pc m' = Stopped) /\ pause m' = true); [|tauto].
  clear H1. induction H2 as [|tr m1 order evs m2 _ (-> & Hw1 & Hp) _ Hst|tr m1 a _ (-> & Hw1 & Hp) Ha].
  - split_and!; [done|done|done].
  - destruct Hw1 as [Hw1|Hw1]; [|unfold run_step in Hst; by rewrite Hw1 in Hst].
    destruct (waiting_run _ _ _ _ Hw1 ltac:(by left) Hst) as (-> & ? & Hp' & _). split_and!; [done|done|congruence].
  - split_and!; [done|destruct Hw1 as [Hw1|Hw1]; [left; by apply waiting_act|right; by destruct (act_unchanged a m1) as (-> & _)]|].
    destruct a as [| | |b| |]; simpl; try case_match; simpl; try done. by destruct b.
Qed.
End FirstUpdate.

(** ** DDL jobs *)

Section Jobs.
Variable getter : nat -> error + option Job.

Lemma retry_answers n : forall k d j o err, (d < n)%nat -> (forall i, (i < d)%nat -> exists e, getter (k + i) = inl e) -> getter (k + d) = inr o ->
  retry_loop (fun _ => false) (get_job getter) n err (k, j) = ((k + d + 1, o)%nat, Ret tt).
Proof.
  induction n as [|n IH]; intros k d j o err Hd Hf Ho; [lia|]. cbn [retry_loop get_job]. destruct d as [|d].
  - rewrite Nat.add_0_r in Ho. rewrite Ho. by rewrite Nat.add_0_r.
  - destruct (Hf 0%nat ltac:(lia)) as [e He]. rewrite Nat.add_0_r in He. rewrite He.
    rewrite (IH (k + 1)%nat d None o (Fail e)); [f_equal; f_equal; lia|lia| |by replace (k + 1 + d)%nat with (k + Datatypes.S d)%nat by lia].
    intros i Hi. destruct (Hf (Datatypes.S i) ltac:(lia)) as [e' He']. exists e'. by replace (k + 1 + i)%nat with (k + Datatypes.S i)%nat by lia.
Qed.

(** When a job is found at the query [K], nothing was found before, and no ten
    queries in a row fail, the loop ends with that job. *)
Lemma query_job_finds K job : forall k, (k <= K)%nat -> getter K = inr (Some job) ->
  (forall i, (k <= i < K)%nat -> forall j, getter i <> inr (Some j)) ->
  (forall i, (k <= i <= K)%nat -> exists d o, (d < 10)%nat /\ getter (i + d) = inr o /\ forall d', (d' < d)%nat -> exists e, getter (i + d') = inl e) ->
  exists fuel, query_job getter fuel k = Some ((K + 1)%nat, inr job).
Proof.
  intros k. remember (K - k)%nat as n eqn:Hn. revert k Hn. induction n as [n IH] using lt_wf_ind.
  intros k -> Hk HK Hno Herr. destruct (Herr k ltac:(lia)) as (d & o & Hd & Ho & Hd').
  assert (HdK : (k + d <= K)%nat).
  { destruct (decide (k + d <= K)%nat); [done|]. destruct (Hd' (K - k)%nat ltac:(lia)) as [e He].
    replace (k + (K - k))%nat with K in He by lia. congruence. }
  pose proof (retry_answers 10 k d None o (Ret tt) Hd Hd' Ho) as Hr. destruct o as [j|].
  - assert (k + d = K)%nat as E by (destruct (decide (k + d = K)%nat); [done|]; exfalso; eapply (Hno (k + d)%nat); [lia|exact Ho]).
    exists 1%nat. cbn [query_job]. unfold RetryOnError. rewrite Hr, E. rewrite E in Ho.
    assert (j = job) as -> by congruence. done.
  - assert (k + d <> K)%nat by (intros E; rewrite E in Ho; congruence).
    destruct (IH (K - (k + d + 1))%nat ltac:(lia) (k + d + 1)%nat) as [fuel Hf]; [done|lia|done| | |].
    + intros i Hi. apply Hno. lia.
    + intros i Hi. apply Herr. lia.
    + exists (Datatypes.S fuel). cbn [query_job]. unfold RetryOnError. by rewrite Hr.
Qed.

(** Ten failed queries in a row end the collector. *)
Lemma query_job_fails fuel k : (forall i, (i < 10)%nat -> exists e, getter (k + i) = inl e) -> exists e,
  query_job getter (Datatypes.S fuel) k = Some ((k + 10)%nat, inl e).
Proof.
  intros Hf. cbn [query_job]. unfold RetryOnError.
  assert (H : forall n k j err, (forall i, (i < n)%nat -> exists e, getter (k + i) = inl e) -> (exists e, err = Fail e) \/ (0 < n)%nat ->
    exists e, retry_loop (fun _ => false) (get_job getter) n err (k, j) = ((k + n, if decide (n = 0) then j else None)%nat, Fail e)).
  { clear. induction n as [|n IH]; intros k j err Hf Herr.
    - destruct Herr as [[e ->]|]; [|lia]. exists e. simpl. by rewrite Nat.add_0_r.
    - destruct (Hf 0%nat ltac:(lia)) as [e He]. rewrite Nat.add_0_r in He. cbn [retry_loop get_job]. rewrite He.
      destruct (IH (k + 1)%nat None (Fail e)) as [e' ->]; [|by left; eexists|].
      + intros i Hi. destruct (Hf (Datatypes.S i) ltac:(lia)) as [e' He']. exists e'. by replace (k + 1 + i)%nat with (k + Datatypes.S i)%nat by lia.
      + exists e'. f_equal. f_equal; [lia|]. simpl. by case_decide. }
  destruct (H 10%nat k None (Ret tt) Hf ltac:(right; lia)) as [e ->]. by exists e.
Qed.
End Jobs.
