(* ===== verification/Cluster.v ===== *)
(** * Cluster
    Drainer's input put together: pumps with their binlogs, the goroutines that pull
    from them ([PumpClient]) and the merger ([Merger]) with the sources that the first
    update of the collector ([Collector]) added. *)
From Stdlib Require Import Init.Byte.
From stdpp Require Import base option list gmap strings sorting relations.
From S2P Require Import Prelude Text Binlog Retry Registry MergeStrategy Merger Schema PumpClient Collector.

Section Cluster.
Context {S : Type} `{MS : !MergeStrategy (binlogItem Job) S} `{OK : !MergeStrategyOk (binlogItem Job) S}.
Context `{C : Codec} {HC : CodecOk C}.

(** ** Steps *)

(** The binlogs of the pumps, the connections, the merger with the events of its
    goroutine so far; [chan_of] is the one of the collector. *)
Record world := mkWorld {
  stores : gmap string (list Binlog);
  conns : gmap string Pump;
  mrg : Merger (binlogItem Job) S;
  trace : list (event (binlogItem Job));
}.

Section Steps.
Variable chan_of : gmap string nat.

Inductive world_step : world -> world -> Prop :=
  (** a goroutine or its environment, without sending *)
  | WPull id p st p' st' w : conns w !! id = Some p -> stores w !! id = Some st ->
      pull_step (p, st) (p', st') -> ret p' = ret p ->
      world_step w (mkWorld (<[id := st']> (stores w)) (<[id := p']> (conns w)) (mrg w) (trace w))
  | WSend id p st p' i ch w : conns w !! id = Some p -> stores w !! id = Some st -> chan_of !! id = Some ch ->
      pull_step (p, st) (p', st) -> ret p' = ret p ++ [i] ->
      world_step w (mkWorld (stores w) (<[id := p']> (conns w)) (act (DoSend ch i) (mrg w)) (trace w))
  (** the channel is closed when the goroutine returns *)
  | WClose id p ch w : conns w !! id = Some p -> chan_of !! id = Some ch -> pm_pc p = PExit ->
      world_step w (mkWorld (stores w) (conns w) (act (DoCloseChan ch) (mrg w)) (trace w))
  | WMerge order evs m' w : valid_order order (mrg w) -> run_step order (mrg w) = Some (evs, m') ->
      world_step w (mkWorld (stores w) (conns w) m' (trace w ++ evs)).
End Steps.

(** After the first update of a collector that starts at [ts]. *)
Definition started (ts pd : Z) (nodes : list Status) : Collector S := first_update (inr nodes) (Ret pd) (NewCollector ts).

Definition start_world (ts pd : Z) (nodes : list Status) (sts : gmap string (list Binlog)) : world :=
  mkWorld sts (pumps (started ts pd nodes)) (merger (started ts pd nodes)) [].

(** ** What the first update builds *)

Definition with_chans (cs : gmap nat (chan (binlogItem Job))) (m : Merger (binlogItem Job) S) : Merger (binlogItem Job) S :=
  mkMerger (sources m) (strategy m) (latestTS m) (Merger.closed m) (pause m) (sourceChanged m) (Merger.pc m) (latest m) cs.

(** The collector during the first update. *)
Record starting (ts : Z) (c : Collector S) : Prop := {
  sg_wired : wired c;
  sg_merger : Merger.pc (merger c) = Head /\ strategy (merger c) = NewStrategy /\ latest (merger c) = ts /\ latestTS (merger c) = ts;
  sg_pumps id p : pumps c !! id = Some p -> p = NewPump id ts;
  sg_chans k ch : chans (merger c) !! k = Some ch -> ch = mkChan [] false ts /\ exists id, chan_of c !! id = Some k;
  sg_chan_of id k : chan_of c !! id = Some k -> (k < next_chan c)%nat /\ is_Some (chans (merger c) !! k);
  sg_inj id id' k : chan_of c !! id = Some k -> chan_of c !! id' = Some k -> id = id';
  sg_same id : is_Some (chan_of c !! id) <-> is_Some (pumps c !! id);
}.

(** Its merger is reached by adding the sources, once the channels are there. *)
Definition added_from (ts : Z) (owner : nat -> string) (c : Collector S) : Prop :=
  forall cs, (forall k ch, cs !! k = Some ch -> ch = mkChan [] false ts) ->
    (forall id k, chan_of c !! id = Some k -> owner k = id) ->
    exec (orderly owner) (NewMerger ts [] cs) [] (with_chans cs (merger c)).

Lemma added_act ts owner cs a m : exec (orderly owner) (NewMerger ts [] cs) [] (with_chans cs m) -> orderly owner (with_chans cs m) a ->
  (forall k, a <> DoCloseChan k) -> (forall k i, a <> DoSend k i) ->
  exec (orderly owner) (NewMerger ts [] cs) [] (with_chans cs (act a m)).
Proof.
  intros He Ho Hc Hs. replace (with_chans cs (act a m)) with (act a (with_chans cs m)); [by apply exec_act|].
  destruct a; try done; [by specialize (Hs c i)|by specialize (Hc c)].
Qed.

Lemma starting_handle ts owner c n : starting ts c -> pumps c !! FormatNodeID (NodeID n) = None ->
  starting ts (handlePumpStatusUpdate n c) /\ (added_from ts owner c -> added_from ts owner (handlePumpStatusUpdate n c)).
Proof.
  intros [Hw (Hpc & Hst & Hla & Hlt) Hp Hch Hco Hinj Hsame] Hn. pose proof (wired_handle c n Hw) as Hw'. revert Hw'.
  unfold handlePumpStatusUpdate. rewrite Hn. case_bool_decide as Hoff; [intros; split; [by constructor|done]|].
  set (id := FormatNodeID (NodeID n)) in *. intros Hw'.
  assert (Hid : chan_of c !! id = None).
  { destruct (chan_of c !! id) eqn:E; [|done]. destruct (Hsame id) as [H _]. rewrite E, Hn in H. by destruct H as [? [=]]; eexists. }
  split.
  - constructor; simpl.
    + exact Hw'.
    + done.
    + intros i p. rewrite lookup_insert_Some. intros [[<- <-]|[_ Hi]]; [by rewrite <- Hlt|by apply Hp].
    + intros k ch. rewrite lookup_insert_Some. intros [[<- <-]|[Hk Hi]].
      * split; [by rewrite <- Hlt|]. exists id. by rewrite lookup_insert_eq.
      * destruct (Hch _ _ Hi) as [-> [j Hj]]. split; [done|]. exists j. rewrite lookup_insert_ne; [done|]. intros <-. congruence.
    + intros j k. rewrite lookup_insert_Some. intros [[<- <-]|[_ Hj]]; [split; [lia|rewrite lookup_insert_eq; by eexists]|].
      destruct (Hco _ _ Hj) as [Hlt' Hsome]. split; [lia|]. rewrite lookup_insert_ne by lia. done.
    + intros j j' k. rewrite !lookup_insert_Some. intros [[<- <-]|[? Hj]] [[<- E]|[? Hj']]; try done; [| |by eapply Hinj].
      * apply Hco in Hj' as [? _]. lia.
      * subst k. apply Hco in Hj as [? _]. lia.
    + intros j. destruct (decide (j = id)) as [->|]; [rewrite !lookup_insert_eq; split; intros; by eexists|by rewrite !lookup_insert_ne].
  - intros Had cs Hcs Hown. cbn [merger add_pump].
    assert (He : exec (orderly owner) (NewMerger ts [] cs) [] (with_chans cs (merger c))).
    { apply Had; [done|]. intros j k Hj. apply Hown. cbn. rewrite lookup_insert_ne; [done|]. intros <-. congruence. }
    apply (added_act ts owner cs (DoAdd (mkSource id (Some (next_chan c)))) (merger c)) in He; [exact He| |done|done].
    split; [intros k [= <-]; apply Hown; cbn; by rewrite lookup_insert_eq|]. split.
    + intros k ch [= <-] Hk. apply Hcs in Hk as ->. unfold bound. cbn. rewrite Hst, new_held, lookup_empty, Hpc, Hla.
      split; cbn; [done|]. by intros i ?%not_elem_of_nil.
    + intros todo skip s'. cbn. by rewrite Hpc.
Qed.

Lemma starting_fold ts owner nodes : forall c, starting ts c -> NoDup (FormatNodeID ∘ NodeID <$> nodes) ->
  (forall n, n ∈ nodes -> pumps c !! FormatNodeID (NodeID n) = None) -> added_from ts owner c ->
  let c' := foldl (fun c n => handlePumpStatusUpdate n c) c nodes in starting ts c' /\ added_from ts owner c'.
Proof.
  induction nodes as [|n nodes IH]; intros c Hs Hnd Hno Had; [done|]. cbn [foldl].
  rewrite fmap_cons, list.NoDup_cons in Hnd. destruct Hnd as [Hn Hnd].
  destruct (starting_handle ts owner c n Hs (Hno n ltac:(by left))) as [Hs' Had']. apply IH; [done|done| |by apply Had'].
  intros x Hx. destruct (handle_pumps c n (FormatNodeID (NodeID x))) as [-> _].
  rewrite bool_decide_eq_false_2; [apply Hno; by right|]. intros E. apply Hn. cbn. rewrite E. apply list_elem_of_fmap. by exists x.
Qed.

(** An owner for channels that are not shared. *)
Lemma owner_exists (m : gmap string nat) : (forall id id' k, m !! id = Some k -> m !! id' = Some k -> id = id') ->
  exists owner : nat -> string, forall id k, m !! id = Some k -> owner k = id.
Proof.
  intros Hinj. exists (fun k => match list_find (fun p : string * nat => p.2 = k) (map_to_list m) with Some (_, (id, _)) => id | None => ""%string end).
  intros id k Hk. destruct (list_find (fun p : string * nat => p.2 = k) (map_to_list m)) as [[n [id' k']]|] eqn:E.
  - apply list_find_Some in E as (Hl & Hp & _). cbn in Hp. subst k'. apply (Hinj id' id k); [|done].
    apply elem_of_map_to_list. by eapply list_elem_of_lookup_2.
  - apply list_find_None in E. rewrite list.Forall_forall in E. exfalso. apply (E (id, k)); [by apply elem_of_map_to_list|done].
Qed.

(** The first update: its merger is reached from one with the channels in place by
    orderly actions only. *)
Lemma started_exec ts pd nodes : NoDup (FormatNodeID ∘ NodeID <$> nodes) ->
  let c := started ts pd nodes in starting ts c /\
  exists owner, (forall id k, chan_of c !! id = Some k -> owner k = id) /\
    exec (orderly owner) (NewMerger ts [] (chans (merger c))) [] (merger c).
Proof.
  intros Hnd c. set (c0 := set_latest pd (set_merger (set_pause true (merger (NewCollector ts))) (NewCollector ts)) : Collector S).
  set (c1 := foldl (fun c n => handlePumpStatusUpdate n c) c0 nodes).
  assert (Hc : c = set_merger (set_pause false (merger c1)) (updateCollectStatus false c1)) by done.
  assert (H0 : starting ts c0).
  { constructor; [destruct (wired_new (S:=S) ts); by constructor|..]; simpl; try done; intros *; by rewrite ?lookup_empty. }
  assert (Ha0 : forall owner, added_from ts owner c0).
  { intros owner cs Hcs Hown. apply (added_act ts owner cs (DoPause true) (NewMerger ts [] ∅)); try done. apply exec_start. }
  destruct (starting_fold ts (fun _ => ""%string) nodes c0 H0 Hnd) as [Hs1 _]; [intros; apply lookup_empty|apply Ha0|]. fold c1 in Hs1.
  destruct (owner_exists (chan_of c1) (sg_inj _ _ Hs1)) as [owner Hown].
  destruct (starting_fold ts owner nodes c0 H0 Hnd) as [_ Had]; [intros; apply lookup_empty|apply Ha0|]. fold c1 in Had.
  split.
  - rewrite Hc. destruct Hs1 as [[] ? ? ? ? ? ?]. constructor; try done; by constructor.
  - exists owner. rewrite Hc. split; [exact Hown|]. cbn.
    pose proof (Had (chans (merger c1)) (fun k ch Hk => proj1 (sg_chans _ _ Hs1 k ch Hk)) Hown) as He.
    apply (added_act ts owner _ (DoPause false)) in He; try done.
Qed.

(** ** Steps of the parts *)

Lemma pull_step_ret p st p' st' : pull_step (p, st) (p', st') ->
  (ret p' = ret p /\ pm_last p' = pm_last p) \/ (exists b, pm_pc p = PSend b /\ p' = after_send b p /\ st' = st).
Proof.
  intros Hst. inversion Hst; subst; auto; [right; eauto|left..].
  - unfold Pause. by destruct (pm_isPaused p).
  - unfold Continue. by destruct (pm_isPaused p).
Qed.

Lemma run_sources order (m : Merger (binlogItem Job) S) evs m' : run_step order m = Some (evs, m') -> sources m' = sources m.
Proof. intros H. unfold run_step in H; repeat (case_match; simplify_option_eq); by simplify_eq. Qed.

(** A step of the merger takes at most the head of a channel. *)
Lemma run_chans order (m : Merger (binlogItem Job) S) evs m' : run_step order m = Some (evs, m') ->
  (chans m' = chans m /\ received evs = []) \/
  exists k ch i q, chans m !! k = Some ch /\ queue ch = i :: q /\ received evs = [i] /\
    chans m' = <[k := mkChan q (chan_closed ch) (chan_last ch)]> (chans m).
Proof.
  unfold run_step. destruct (Merger.pc m) as [| |[|[id src] todo] skip| |i|i| |]; intros H;
    try (repeat case_match; simplify_eq; by left).
  destruct (Exist id (strategy m)); [simplify_eq; by left|]. destruct (Source src) as [k|]; [|simplify_eq; by left].
  destruct (chans m !! k) as [ch|] eqn:Ek; [|done]. cbn in H. destruct (queue ch) as [|i q] eqn:Eq.
  - destruct (chan_closed ch); simplify_eq; by left.
  - simplify_eq. right. by exists k, ch, i, q.
Qed.

(** ** The invariant *)

Section Invariant.
Variables (ts : Z) (chan_of : gmap string nat) (cs : gmap nat (chan (binlogItem Job))) (owner : nat -> string).
Hypothesis owned : forall id k, chan_of !! id = Some k -> owner k = id.
Hypothesis ok_cs : start_ok owner ts [] cs.

(** A connection and its channel. *)
Definition linked (w : world) (id : string) (p : Pump) : Prop :=
  exists st k ch, stores w !! id = Some st /\ PInv id ts (p, st) /\ chan_of !! id = Some k /\
    sources (mrg w) !! id = Some (mkSource id (Some k)) /\ chans (mrg w) !! k = Some ch /\ chan_last ch = pm_last p /\
    forall i, i ∈ ret p -> i ∈ received (trace w) \/ i ∈ queue ch.

Record WInv (w : world) : Prop := {
  wi_exec : exec (orderly owner) (NewMerger ts [] cs) (trace w) (mrg w);
  wi_linked id p : conns w !! id = Some p -> linked w id p;
  wi_queued k ch i : chans (mrg w) !! k = Some ch -> i ∈ queue ch -> exists id p, conns w !! id = Some p /\ i ∈ ret p;
  wi_received i : i ∈ received (trace w) -> exists id p, conns w !! id = Some p /\ i ∈ ret p;
}.

Lemma WInv_pull w id p st p' st' : WInv w -> conns w !! id = Some p -> stores w !! id = Some st ->
  pull_step (p, st) (p', st') -> ret p' = ret p ->
  WInv (mkWorld (<[id := st']> (stores w)) (<[id := p']> (conns w)) (mrg w) (trace w)).
Proof.
  intros [He Hl Hq Hr] Hp Hs Hst Hret.
  assert (Hlast : pm_last p' = pm_last p).
  { destruct (pull_step_ret _ _ _ _ Hst) as [[_ ?]|(b & _ & -> & _)]; [done|]. cbn in Hret.
    apply (f_equal length) in Hret. autorewrite with go in Hret. cbn in Hret. lia. }
  assert (Hex : forall i, (exists id p, conns w !! id = Some p /\ i ∈ ret p) -> exists j q, <[id := p']> (conns w) !! j = Some q /\ i ∈ ret q).
  { intros i (j & q & Hj & Hi). destruct (decide (j = id)) as [->|Hne].
    - exists id, p'. rewrite lookup_insert_eq. split; [done|]. rewrite Hret. by simplify_eq.
    - exists j, q. by rewrite lookup_insert_ne. }
  constructor; cbn; [done| |eauto|eauto]. intros j q. rewrite lookup_insert_Some. intros [[<- <-]|[Hne Hj]].
  - destruct (Hl _ _ Hp) as (st0 & k & ch & Hst0 & HI & Hk & Hsrc & Hch & Hcl & Hi). simplify_eq.
    exists st', k, ch. cbn. rewrite lookup_insert_eq. split_and!; try done; [by eapply PInv_step|congruence|by rewrite Hret].
  - destruct (Hl _ _ Hj) as (st0 & k & ch & Hst0 & Hrest). exists st0, k, ch. cbn. by rewrite lookup_insert_ne.
Qed.

Lemma WInv_send w id p st p' i k : WInv w -> conns w !! id = Some p -> stores w !! id = Some st -> chan_of !! id = Some k ->
  pull_step (p, st) (p', st) -> ret p' = ret p ++ [i] ->
  WInv (mkWorld (stores w) (<[id := p']> (conns w)) (act (DoSend k i) (mrg w)) (trace w)).
Proof.
  intros [He Hl Hq Hr] Hp Hs Hk Hst Hret.
  destruct (Hl _ _ Hp) as (st0 & k0 & ch & Hst0 & HI & Hk0 & Hsrc & Hch & Hcl & Hi). assert (k0 = k) as -> by congruence. assert (st0 = st) as -> by congruence.
  destruct (pull_step_ret _ _ _ _ Hst) as [[Hsame _]|(b & Hpc & -> & _)].
  { rewrite Hsame in Hret. apply (f_equal length) in Hret. autorewrite with go in Hret. cbn in Hret. lia. }
  cbn in Hret. apply app_inj_tail in Hret as [_ <-]. set (i := newBinlogItem b (pm_nodeID p)) in *.
  pose proof (pi_pc _ _ _ HI) as Hnext. cbn in Hnext. rewrite Hpc in Hnext. destruct Hnext as [_ Hnext].
  apply next_after_in in Hnext as [_ Hlt]. pose proof (pi_node _ _ _ HI) as [Hnode _]. cbn in Hnode.
  assert (Hact : act (DoSend k i) (mrg w) = set_chan k (mkChan (queue ch ++ [i]) (chan_closed ch) (GetCommitTs i)) (mrg w)).
  { cbn. by rewrite Hch. }
  assert (Hself : i ∈ ret (after_send b p)) by (cbn; apply elem_of_app; right; by apply list_elem_of_singleton).
  assert (Hex : forall x, (exists j q, conns w !! j = Some q /\ x ∈ ret q) -> exists j q, <[id := after_send b p]> (conns w) !! j = Some q /\ x ∈ ret q).
  { intros x (j & q & Hj & Hx). destruct (decide (j = id)) as [->|Hne].
    - exists id, (after_send b p). rewrite lookup_insert_eq. split; [done|]. simplify_eq. cbn. apply elem_of_app. by left.
    - exists j, q. by rewrite lookup_insert_ne. }
  constructor; cbn [conns stores mrg trace].
  - apply exec_act; [done|]. split; [cbn; rewrite Hnode; symmetry; by apply owned|].
    intros ch' Hch'. assert (ch' = ch) as -> by congruence. rewrite Hcl. cbn. lia.
  - intros j q. rewrite lookup_insert_Some. intros [[<- <-]|[Hne Hj]].
    + exists st, k, (mkChan (queue ch ++ [i]) (chan_closed ch) (GetCommitTs i)). rewrite Hact. cbn [stores mrg conns trace set_chan chans sources chan_last queue].
      rewrite lookup_insert_eq. split_and!; try done; [by eapply PInv_step| |].
      * cbn. by rewrite (proj2 (Z.ltb_lt _ _) Hlt).
      * cbn. intros x [Hx|Hx]%elem_of_app; [destruct (Hi x Hx); [by left|right; apply elem_of_app; by left]|right; apply elem_of_app; by right].
    + destruct (Hl _ _ Hj) as (st1 & k0 & ch0 & Hst1 & HI0 & Hk0' & Hsrc0 & Hch0 & Hrest). exists st1, k0, ch0.
      rewrite Hact. cbn [stores mrg conns trace set_chan chans sources]. split_and!; try done; try tauto.
      rewrite lookup_insert_ne; [done|]. intros <-. apply Hne. by rewrite <- (owned _ _ Hk), <- (owned _ _ Hk0').
  - intros k' ch' x. rewrite Hact. cbn [set_chan chans]. rewrite lookup_insert_Some. intros [[<- <-]|[_ Hk']] Hx; [|by eauto].
    apply elem_of_app in Hx as [Hx|Hx%list_elem_of_singleton]; [by eauto|]. subst x. exists id, (after_send b p). by rewrite lookup_insert_eq.
  - intros x Hx. by eauto.
Qed.

Lemma WInv_close w id p k : WInv w -> conns w !! id = Some p -> chan_of !! id = Some k ->
  WInv (mkWorld (stores w) (conns w) (act (DoCloseChan k) (mrg w)) (trace w)).
Proof.
  intros [He Hl Hq Hr] Hp Hk. destruct (Hl _ _ Hp) as (st & k0 & ch & _ & _ & Hk0 & _ & Hch & _). assert (k0 = k) as -> by congruence.
  assert (Hact : act (DoCloseChan k) (mrg w) = set_chan k (mkChan (queue ch) true (chan_last ch)) (mrg w)) by (cbn; by rewrite Hch).
  constructor; cbn [conns stores mrg trace]; [by apply exec_act| | |done].
  - intros j q Hj. destruct (Hl _ _ Hj) as (st0 & k' & ch0 & H1 & H2 & H3 & H4 & H5 & H6). rewrite Hact.
    destruct (decide (k' = k)) as [->|Hne].
    + exists st0, k, (mkChan (queue ch) true (chan_last ch)). cbn. rewrite lookup_insert_eq. by simplify_eq.
    + exists st0, k', ch0. cbn. by rewrite lookup_insert_ne.
  - intros k' ch' x. rewrite Hact. cbn [set_chan chans]. rewrite lookup_insert_Some. intros [[<- <-]|[_ Hk']] Hx; by eauto.
Qed.

Lemma WInv_merge w order evs m' : WInv w -> valid_order order (mrg w) -> run_step order (mrg w) = Some (evs, m') ->
  WInv (mkWorld (stores w) (conns w) m' (trace w ++ evs)).
Proof.
  intros [He Hl Hq Hr] Hv Hst. pose proof (run_sources _ _ _ _ Hst) as Hsrc. pose proof (run_chans _ _ _ _ Hst) as Hch.
  constructor; cbn [conns stores mrg trace]; [by eapply exec_run| | |].
  - intros id p Hp. destruct (Hl _ _ Hp) as (st & k & ch & H1 & H2 & H3 & H4 & H5 & H6 & H7). destruct Hch as [[Hc Hrc]|(k' & ch' & i & q & Hk' & Hq' & Hrc & Hc)].
    + exists st, k, ch. cbn [stores mrg trace]. rewrite Hsrc, Hc, received_app, Hrc, app_nil_r. done.
    + destruct (decide (k = k')) as [->|Hne].
      * assert (ch' = ch) as -> by congruence. exists st, k', (mkChan q (chan_closed ch) (chan_last ch)). cbn [stores mrg trace].
        rewrite Hsrc, Hc, lookup_insert_eq, received_app, Hrc. split_and!; try done. cbn [queue]. intros x Hx. rewrite elem_of_app, list_elem_of_singleton.
        destruct (H7 x Hx) as [?|Hx']; [auto|]. rewrite Hq' in Hx'. apply elem_of_cons in Hx' as [->|?]; auto.
      * exists st, k, ch. cbn [stores mrg trace]. rewrite Hsrc, Hc, lookup_insert_ne by done. split_and!; try done.
        intros x Hx. rewrite received_app, elem_of_app. destruct (H7 x Hx); auto.
  - intros k ch x Hk Hx. destruct Hch as [[Hc _]|(k' & ch' & i & q & Hk' & Hq' & _ & Hc)]; rewrite Hc in Hk; [by eauto|].
    apply lookup_insert_Some in Hk as [[<- <-]|[_ Hk]]; [|by eauto]. eapply Hq; [exact Hk'|]. rewrite Hq'. by right.
  - intros x. rewrite received_app, elem_of_app. intros [Hx|Hx]; [by eauto|].
    destruct Hch as [[_ Hrc]|(k' & ch' & i & q & Hk' & Hq' & Hrc & _)]; rewrite Hrc in Hx; [by apply not_elem_of_nil in Hx|].
    apply list_elem_of_singleton in Hx as ->. eapply Hq; [exact Hk'|]. rewrite Hq'. by left.
Qed.

Lemma WInv_step w w' : world_step chan_of w w' -> WInv w -> WInv w'.
Proof. intros Hst HI. inversion Hst; subst; eauto using WInv_pull, WInv_send, WInv_close, WInv_merge. Qed.
End Invariant.

Lemma latest_le_bound (m : Merger (binlogItem Job) S) id : orderly_inv m -> latest m <= bound m id.
Proof.
  intros Ho. unfold bound. destruct (held (strategy m) !! id) as [j|] eqn:E; [by eapply or_held|].
  destruct (Merger.pc m) eqn:Hpc; try lia.
  - case_decide; [|lia]. apply (or_hand _ Ho). unfold in_hand. by rewrite Hpc.
  - apply (or_hand _ Ho). unfold in_hand. by rewrite Hpc.
Qed.

Lemma start_WInv ts pd nodes sts : NoDup (FormatNodeID ∘ NodeID <$> nodes) ->
  (forall id, is_Some (pumps (started ts pd nodes) !! id) -> exists st, sts !! id = Some st /\ commit_sorted st) ->
  let c := started ts pd nodes in exists owner, (forall id k, chan_of c !! id = Some k -> owner k = id) /\
  start_ok owner ts [] (chans (merger c)) /\
  WInv ts (chan_of c) (chans (merger c)) owner (start_world ts pd nodes sts).
Proof.
  intros Hnd Hsts c. destruct (started_exec ts pd nodes Hnd) as [Hs (owner & Hown & He)]. fold c in Hs, Hown, He.
  exists owner. split_and!; [done| |].
  - split_and!; [by intros s ?%not_elem_of_nil| |].
    + intros k ch i Hk Hi. apply (sg_chans _ _ Hs) in Hk as [-> _]. by apply not_elem_of_nil in Hi.
    + intros k ch Hk. apply (sg_chans _ _ Hs) in Hk as [-> _]. split; (split; cbn; [try constructor; try lia|by intros i ?%not_elem_of_nil]).
  - constructor; cbn; [done| | |].
    + intros id p Hp. fold c in Hp. destruct (Hsts id ltac:(by eexists)) as (st & Hst & Hso).
      destruct (w_dom _ (sg_wired _ _ Hs) id) as [Hd _]. destruct (Hd ltac:(by eexists)) as [src Hsrc].
      destruct (w_source _ (sg_wired _ _ Hs) _ _ Hsrc) as (k & -> & Hk & _ & [ch Hch]).
      pose proof (sg_pumps _ _ Hs _ _ Hp) as ->. pose proof (w_node _ (sg_wired _ _ Hs) _ _ Hp) as Hid. cbn in Hid.
      destruct (sg_chans _ _ Hs _ _ Hch) as [-> _]. exists st, k, (mkChan [] false ts). cbn. fold c.
      split_and!; try done; [|by intros i ?%not_elem_of_nil]. rewrite <- Hid at 1. by apply PInv_start.
    + intros k ch i Hk Hi. apply (sg_chans _ _ Hs) in Hk as [-> _]. by apply not_elem_of_nil in Hi.
    + by intros i ?%not_elem_of_nil.
Qed.

Lemma world_conns chan_of w w' id : world_step chan_of w w' -> is_Some (conns w !! id) -> is_Some (conns w' !! id).
Proof. inversion 1; subst; cbn; intros; rewrite ?lookup_insert_is_Some'; auto. Qed.

(** A binlog of a pump that is not above the last timestamp merged. *)
Lemma merged_up_to ts chan_of cs owner w id p st b :
  start_ok owner ts [] cs -> WInv ts chan_of cs owner w -> conns w !! id = Some p -> stores w !! id = Some st -> b ∈ st ->
  ts < CommitTs b <= latest (mrg w) -> CommitTs b ∈ GetCommitTs <$> outputs (trace w).
Proof.
  intros Hok [He Hl _ _] Hp Hst Hb Hts.
  destruct (orderly_exec owner _ _ _ _ _ Hok He) as (Htg & Hor & _ & Hdr).
  destruct (increasing_exec _ _ _ _ _ _ He) as [Hinc _].
  destruct (Hl _ _ Hp) as (st0 & k & ch & Hst0 & HI & _ & Hsrc & Hch & Hcl & Hi). assert (st0 = st) as -> by congruence.
  destruct (or_sources _ Hor _ _ _ _ Hsrc eq_refl Hch) as [Hbound Hqueue]. pose proof (latest_le_bound (mrg w) id Hor) as Hle.
  assert (Hin : CommitTs b = latest (mrg w) -> CommitTs b ∈ GetCommitTs <$> outputs (trace w)).
  { intros Heq. rewrite (inc_latest _ _ _ Hinc) in *. destruct (last (out_ts (trace w))) as [t|] eqn:E; cbn in *; [|lia].
    rewrite Heq. by apply last_Some_elem_of. }
  assert (Hwin : b ∈ binlog <$> ret p).
  { pose proof (pi_ret _ _ _ HI) as Hr. cbn in Hr. rewrite Hr. apply list_elem_of_filter. split; [lia|done]. }
  apply list_elem_of_fmap in Hwin as (i & -> & Hret). change (CommitTs (binlog i)) with (GetCommitTs i) in *.
  destruct (Hi i Hret) as [Hrec|Hq]; [|apply Hin; specialize (Hqueue i Hq); lia].
  rewrite (tg_items _ _ _ Htg), !elem_of_app in Hrec. destruct Hrec as [Ho|[Hd|[Hh|Hh]]].
  - apply list_elem_of_fmap. by exists i.
  - apply Hdr in Hd. apply elem_of_cons in Hd as [Hd|Hd]; [lia|done].
  - apply Hin. unfold holding in Hh. apply list_elem_of_fmap in Hh as ([j x] & -> & Hx%elem_of_map_to_list).
    pose proof (or_held _ Hor _ _ Hx). cbn in *. lia.
  - apply Hin. unfold hand in Hh. destruct (in_hand (mrg w)) as [x|] eqn:Ex; cbn in Hh; [|by apply not_elem_of_nil in Hh].
    apply list_elem_of_singleton in Hh as ->. destruct (or_hand _ Hor _ Ex) as [? _]. lia.
Qed.

(** C1: Drainer receives every binlog of the cluster exactly once and in order.
    After the first update, whatever the pumps commit, however the connections break
    and the goroutines interleave: the merged binlogs have strictly increasing commit
    timestamps above that of the checkpoint; each one is a binlog of the pump it is
    marked with; and when a binlog has been merged, so has every binlog that any pump
    which is not offline holds with a timestamp between the checkpoint and it. *)
Theorem drainer_complete ts pd nodes sts w :
  NoDup (FormatNodeID ∘ NodeID <$> nodes) ->
  (forall id, is_Some (pumps (started ts pd nodes) !! id) -> exists st, sts !! id = Some st /\ commit_sorted st) ->
  rtc (world_step (chan_of (started ts pd nodes))) (start_world ts pd nodes sts) w ->
  StronglySorted Z.lt (ts :: (GetCommitTs <$> outputs (trace w))) /\
  (forall i, i ∈ outputs (trace w) -> exists st, stores w !! nodeID i = Some st /\ binlog i ∈ st) /\
  (forall i n st b, i ∈ outputs (trace w) -> n ∈ nodes -> State n <> Offline ->
     stores w !! FormatNodeID (NodeID n) = Some st -> b ∈ st ->
     ts < CommitTs b <= GetCommitTs i -> CommitTs b ∈ GetCommitTs <$> outputs (trace w)).
Proof.
  intros Hnd Hsts Hr. destruct (start_WInv ts pd nodes sts Hnd Hsts) as (owner & Hown & Hok & H0).
  assert (HI : WInv ts (chan_of (started ts pd nodes)) (chans (merger (started ts pd nodes))) owner w /\
    forall id, is_Some (pumps (started ts pd nodes) !! id) -> is_Some (conns w !! id)).
  { clear Hsts. revert w Hr. refine (rtc_ind_r (fun w => WInv _ _ _ _ w /\ _) _ _ _); [done|].
    intros w w' _ Hst [IH IHc]. split; [by eapply WInv_step|]. intros id Hid. by eapply world_conns, IHc. }
  destruct HI as [HI Hc]. destruct (increasing_exec _ _ _ _ _ _ (wi_exec _ _ _ _ _ HI)) as [Hinc _]. split_and!.
  - constructor; [apply Hinc|]. apply list.Forall_forall. intros t Ht. apply Hinc in Ht. lia.
  - intros i Hi. destruct (orderly_exec owner _ _ _ _ _ Hok (wi_exec _ _ _ _ _ HI)) as (Htg & _).
    assert (Hrec : i ∈ received (trace w)) by (rewrite (tg_items _ _ _ Htg), elem_of_app; by left).
    destruct (wi_received _ _ _ _ _ HI i Hrec) as (id & p & Hp & Hip).
    destruct (wi_linked _ _ _ _ _ HI _ _ Hp) as (st & k & ch & Hst & HP & _). exists st.
    destruct (pi_node _ _ _ HP) as [_ Hn]. cbn in Hn. rewrite list.Forall_forall in Hn. rewrite (Hn i Hip). split; [done|].
    assert (Hb : binlog i ∈ binlog <$> ret p) by (apply list_elem_of_fmap; by exists i).
    pose proof (pi_ret _ _ _ HP) as Hret. cbn in Hret. rewrite Hret in Hb. by apply list_elem_of_filter in Hb as [_ ?].
  - intros i n st b Hi Hn Hoff Hst Hb Hts.
    assert (Hp : is_Some (pumps (started ts pd nodes) !! FormatNodeID (NodeID n))).
    { destruct (update_loop nodes (set_latest pd (set_merger (set_pause true (merger (NewCollector ts))) (NewCollector ts)) : Collector S)) as (_ & _ & Hin & _);
        [destruct (wired_new (S:=S) ts); by constructor|done|]. specialize (Hin n Hn). unfold started, first_update, updateStatus, updatePumpStatus. cbn.
      cbn in Hin. rewrite Hin. unfold pump_after. rewrite lookup_empty, bool_decide_eq_false_2 by done. by eexists. }
    destruct (Hc _ Hp) as [p Hpw]. eapply merged_up_to; [exact Hok|exact HI|exact Hpw|exact Hst|exact Hb|].
    split; [lia|]. assert (Hin : GetCommitTs i ∈ out_ts (trace w)) by (apply list_elem_of_fmap; by exists i).
    apply (inc_bounds _ _ _ Hinc) in Hin. lia.
Qed.
End Cluster.

Module ClusterExamples.
#[local] Existing Instance SimpleCodec.codec.
#[local] Existing Instance SimpleCodec.codec_ok.

Abbreviation heap := (HeapStrategy (binlogItem Job)).
Abbreviation heap_world := (@world heap).

(** The step of a goroutine when everything works. *)
Definition pull_on (p : Pump) (st : list Binlog) : option Pump :=
  match pm_pc p with
  | PTop =>
    if pm_isClosed p || pm_isPaused p then None
    else Some (set_pull (grpcConn p) (needReCreateConn p) (if bool_decide (grpcConn p = None) || needReCreateConn p then PConnect else PRecv) p)
  | PConnect => Some (set_pull (Some (pm_last p)) false PRecv p)
  | PRecv =>
    pos ← grpcConn p; b ← next_after pos st;
    if decide (SimpleCodec.encodable b) then Some (set_pull (Some (CommitTs b)) (needReCreateConn p) (PSend b) p) else None
  | PSend b => Some (after_send b p)
  | PExit => None
  end.

Lemma pull_on_step p st p' : pull_on p st = Some p' -> pull_step (p, st) (p', st).
Proof.
  unfold pull_on. destruct (pm_pc p) as [| | |b|] eqn:E; [| | | |done].
  - destruct (pm_isClosed p) eqn:Ec, (pm_isPaused p) eqn:Ep; try done. intros [= <-]. by apply PGo.
  - intros [= <-]. by apply (PConnected None None).
  - destruct (grpcConn p) as [pos|] eqn:Eg; [|done]. cbn. destruct (next_after pos st) as [b|] eqn:En; [|done]. cbn.
    case_decide as He; [|done]. intros [= <-]. eapply PReceived; [done|done|done|cbn; by rewrite decide_True|by apply SimpleCodec.dec_enc].
  - intros [= <-]. by apply PSent.
Qed.

(** Which goroutine moves: that of a pump, or the merger. *)
Definition world_on (chan_of : gmap string nat) (who : option string) (w : heap_world) : option heap_world :=
  match who with
  | Some id =>
    p ← conns w !! id; st ← stores w !! id; ch ← chan_of !! id; p' ← pull_on p st;
    match pm_pc p with
    | PSend b => Some (mkWorld (stores w) (<[id := p']> (conns w)) (act (DoSend ch (newBinlogItem b (pm_nodeID p))) (mrg w)) (trace w))
    | _ => Some (mkWorld (<[id := st]> (stores w)) (<[id := p']> (conns w)) (mrg w) (trace w))
    end
  | None =>
    let m := mrg w in
    '(evs, m') ← run_step (match Merger.pc m with Begin => (map_to_list (sources m)).*1 | PopMin => (map_to_list (held (strategy m))).*1 | _ => [] end) m;
    Some (mkWorld (stores w) (conns w) m' (trace w ++ evs))
  end.

Lemma world_on_step chan_of who w w' : world_on chan_of who w = Some w' -> world_step chan_of w w'.
Proof.
  destruct who as [id|]; cbn.
  - destruct (conns w !! id) as [p|] eqn:Ec; [|done]. destruct (stores w !! id) as [st|] eqn:Es; [|done].
    destruct (chan_of !! id) as [ch|] eqn:Eh; [|done]. cbn. destruct (pull_on p st) as [p'|] eqn:Ep; [|done]. cbn.
    pose proof (pull_on_step _ _ _ Ep) as Hst. unfold pull_on in Ep. destruct (pm_pc p) as [| | |b|] eqn:Epc; intros [= <-].
    + eapply WPull; [done|done|done|]. destruct (_ || _); by simplify_eq.
    + eapply WPull; [done|done|done|]. by simplify_eq.
    + eapply WPull; [done|done|done|]. simplify_option_eq. done.
    + eapply WSend; [done|done|done|done|]. by simplify_eq.
    + done.
  - destruct (run_step _ (mrg w)) as [[evs m']|] eqn:E; [|done]. cbn. intros [= <-].
    eapply WMerge; [|exact E]. unfold valid_order. by destruct (Merger.pc (mrg w)).
Qed.

Definition world_run (chan_of : gmap string nat) (moves : list (option string)) (w : heap_world) : option heap_world :=
  foldl (fun o who => o ≫= world_on chan_of who) (Some w) moves.

Lemma world_run_steps chan_of moves w w' : world_run chan_of moves w = Some w' -> rtc (world_step chan_of) w w'.
Proof.
  unfold world_run. revert w. induction moves as [|m ms IH]; intros w H; cbn [foldl] in H; [by injection H as <-|].
  cbn in H. destruct (world_on chan_of m w) as [w1|] eqn:E; [eapply rtc_l; [by eapply world_on_step|by apply IH]|].
  exfalso. revert H. clear. induction ms as [|m ms IH]; [done|]. exact IH.
Qed.

Definition nodes : list Status := [NewStatus "a" "10.0.0.1:8250" Online 0 0 0; NewStatus "b" "10.0.0.2:8250" Paused 0 0 0; NewStatus "c" "" Offline 0 0 0].
Definition binlogs : gmap string (list Binlog) :=
  {["a"%string := [PumpClientExamples.committed 5; PumpClientExamples.committed 15; PumpClientExamples.committed 25];
    "b"%string := [PumpClientExamples.committed 20]]}.

Definition chans0 : gmap string nat := chan_of (started (S:=heap) 10 100 nodes).

(** Both pumps deliver a binlog, then the merger takes the smaller one. *)
Definition moves : list (option string) :=
  replicate 4 (Some "a"%string) ++ replicate 4 (Some "b"%string) ++ replicate 8 None.

Lemma update_follows_registry_witness : wired (NewCollector (S:=heap) 10) /\
  is_Some (pumps (updateStatus (inr nodes) (Ret 100) (NewCollector (S:=heap) 10)).1 !! "a"%string) /\
  pumps (updateStatus (inr nodes) (Ret 100) (NewCollector (S:=heap) 10)).1 !! "c"%string = None.
Proof.
  pose proof (wired_new (S:=heap) 10) as Hw.
  assert (Hnd : NoDup (FormatNodeID ∘ NodeID <$> nodes)) by (apply (bool_decide_unpack _); vm_compute; exact I).
  pose proof (update_follows_registry _ nodes 100 Hw Hnd) as H.
  destruct (updateStatus (inr nodes) (Ret 100) (NewCollector (S:=heap) 10)) as [c' r]. destruct H as (_ & _ & H & _). split_and!; [exact Hw| |].
  - specialize (H (NewStatus "a" "10.0.0.1:8250" Online 0 0 0) ltac:(by left)).
    change (FormatNodeID _) with "a"%string in H. cbn [fst]. rewrite H. by eexists.
  - specialize (H (NewStatus "c" "" Offline 0 0 0) ltac:(by right; right; left)).
    change (FormatNodeID _) with "c"%string in H. cbn [fst]. by rewrite H.
Defined.

Lemma drainer_complete_witness : exists w : heap_world,
  rtc (world_step chans0) (start_world 10 100 nodes binlogs) w /\ (GetCommitTs <$> outputs (trace w)) = [15] /\
  StronglySorted Z.lt (10 :: (GetCommitTs <$> outputs (trace w))) /\
  forall i b, i ∈ outputs (trace w) -> b = PumpClientExamples.committed 15 -> 15 <= GetCommitTs i -> 15 ∈ GetCommitTs <$> outputs (trace w).
Proof.
  assert (Hnd : NoDup (FormatNodeID ∘ NodeID <$> nodes)) by (apply (bool_decide_unpack _); vm_compute; exact I).
  assert (Hst : forall id, is_Some (pumps (started (S:=heap) 10 100 nodes) !! id) -> exists st, binlogs !! id = Some st /\ commit_sorted st).
  { intros id [p Hp]. apply elem_of_map_to_list in Hp. revert id p Hp.
    refine (fun id p Hp => proj1 (list.Forall_forall (fun ip : string * Pump => exists st, binlogs !! ip.1 = Some st /\ commit_sorted st) _) _ (id, p) Hp).
    replace (map_to_list _) with [("a"%string, NewPump "a" 10); ("b"%string, NewPump "b" 10)] by (vm_compute; reflexivity).
    repeat (apply Forall_cons_iff; split; [eexists; split; [vm_compute; reflexivity|repeat constructor]|]). apply List.Forall_nil. }
  destruct (world_run chans0 moves (start_world 10 100 nodes binlogs)) as [w|] eqn:E; [|by vm_compute in E].
  pose proof (world_run_steps _ _ _ _ E) as Hr. exists w.
  destruct (drainer_complete (S:=heap) 10 100 nodes binlogs w Hnd Hst Hr) as (Hs & _ & Hc).
  assert (Ho : (GetCommitTs <$> outputs (trace w)) = [15]) by (vm_compute in E; by injection E as <-).
  assert (Hstore : stores w !! "a"%string = binlogs !! "a"%string) by (vm_compute in E; by injection E as <-).
  split_and!; [exact Hr|exact Ho|exact Hs|]. intros i b Hi -> Hle.
  apply (Hc i (NewStatus "a" "10.0.0.1:8250" Online 0 0 0) [PumpClientExamples.committed 5; PumpClientExamples.committed 15; PumpClientExamples.committed 25]
    (PumpClientExamples.committed 15)); [exact Hi|by left|done|exact Hstore|by right; left|cbn in *; lia].
Defined.
End ClusterExamples.
