(* ===== verification/Datum.v ===== *)
(** * Datum
    What the translation of rows uses of TiDB: data, their encodings, the types of
    columns.  TiDB is a library here, so its operations are the fields of a class;
    what the theorems rely on is stated in classes of laws next to them. *)
From Stdlib Require Import Init.Byte Strings.Byte SpecFloat.
From stdpp Require Import base option list gmap strings.
From S2P Require Import Prelude Schema.

(** ** Constants of the MySQL protocol *)

Definition mysql_TypeTimestamp : Z := 7.
Definition mysql_TypeDate : Z := 10.
Definition mysql_TypeDuration : Z := 11.
Definition mysql_TypeDatetime : Z := 12.
Definition mysql_TypeNewDate : Z := 14.
Definition mysql_TypeVarchar : Z := 15.
Definition mysql_TypeBit : Z := 16.
Definition mysql_TypeJSON : Z := 245.
Definition mysql_TypeNewDecimal : Z := 246.
Definition mysql_TypeEnum : Z := 247.
Definition mysql_TypeSet : Z := 248.
Definition mysql_TypeString : Z := 254.

Definition HasNotNullFlag (flag : Z) : bool := Z.testbit flag 0.
Definition HasPriKeyFlag (flag : Z) : bool := Z.testbit flag 1.
Definition HasUnsignedFlag (flag : Z) : bool := Z.testbit flag 5.

(** An index column that is not a prefix. *)
Definition UnspecifiedLength : Z := -1.

(** ** Operations

    The packages [types], [codec], [tablecodec] and [table] of TiDB.  A nil byte slice
    is [None].  [GetValue] is the value that the driver and the type switches see:
    the data of library types (times, decimals, JSON, ...) are printed by [Sprint],
    which is [fmt.Sprintf("%v", d.GetValue())], before they become arguments. *)
Class Lib := {
  Datum : Type;
  (** [types.Datum] *)
  NewDatum : value -> Datum;
  GetValue : Datum -> value;
  Sprint : Datum -> string;
  IsNull : Datum -> bool;
  GetInt64 : Datum -> Z;
  GetFloat64 : Datum -> spec_float;
  GetString : Datum -> string;
  GetBytes : Datum -> option (list byte);
  GetMysqlEnum_Value : Datum -> Z;
  GetMysqlSet_Value : Datum -> Z;
  GetMysqlJSON_String : Datum -> string;
  GetBinaryLiteral : Datum -> option (list byte);
  ToInt : option (list byte) -> outcome Z;
  (** the zero value [types.Datum{}] *)
  ZeroDatum : Datum;
  (** [types.ParseEnumName] and [ParseSetName], wrapped by [types.NewDatum] *)
  ParseEnumName : list string -> string -> outcome Datum;
  ParseSetName : list string -> string -> outcome Datum;
  (** [table.GetZeroValue] *)
  GetZeroValue : ColumnInfo -> Datum;
  (** [types.TypeToStr] *)
  TypeToStr : Z -> string -> string;
  (** [codec]: the remaining bytes first in [DecodeOne], last in [CutOne] *)
  NilFlag : byte;
  DecodeOne : list byte -> outcome (list byte * Datum);
  CutOne : list byte -> outcome (list byte * list byte);
  EncodeValue : Datum -> outcome (list byte);
  (** [tablecodec] *)
  DecodeColumnValue : list byte -> FieldType -> outcome Datum;
  DecodeRowToDatumMap : list byte -> gmap Z FieldType -> outcome (option (gmap Z Datum));
  Unflatten : Datum -> FieldType -> outcome Datum;
  (** parsing a time in UTC and printing it in the local time zone *)
  utc_to_local : string -> outcome string;
}.

(** ** Laws *)

(** Wrapping a value and reading it. *)
Class DatumLaws (L : Lib) : Prop := {
  GetValue_NewDatum v : GetValue (NewDatum v) = v;
  IsNull_GetValue d : IsNull d = is_nil (GetValue d);
}.

(** [CutOne] splits its input and takes at least a byte. *)
Class CodecLaws (L : Lib) : Prop := {
  CutOne_split b data rest : CutOne b = Ret (data, rest) -> b = data ++ rest /\ data <> [];
}.

(** ** Maps from column identifiers ([ToColumnTypeMap] and [ToColumnMap] of [pkg/util]) *)

Definition ToColumnTypeMap (columns : list ColumnInfo) : gmap Z FieldType :=
  foldl (fun m col => <[col_ID col := col_Field col]> m) ∅ columns.

Definition ToColumnMap (columns : list ColumnInfo) : gmap Z ColumnInfo :=
  foldl (fun m col => <[col_ID col := col]> m) ∅ columns.

Lemma ToColumnMap_acc columns : forall (m : gmap Z ColumnInfo) id,
  NoDup (col_ID <$> columns) ->
  foldl (fun m col => <[col_ID col := col]> m) m columns !! id =
  match list_find (fun c => col_ID c = id) columns with Some (_, c) => Some c | None => m !! id end.
Proof.
  induction columns as [|c cs IH]; intros m id Hn; [done|]. cbn [fmap list_fmap] in Hn.
  apply list.NoDup_cons in Hn as [Hc Hn]. cbn [foldl list_find]. rewrite IH by done.
  case_decide as Hid.
  - subst id. destruct (list_find _ cs) as [[i c']|] eqn:E; simpl.
    + apply list_find_Some in E as (Hi & Heq & _). exfalso. apply Hc. rewrite <- Heq.
      apply list_elem_of_fmap. exists c'. split; [done|]. by eapply list_elem_of_lookup_2.
    + by rewrite lookup_insert_eq.
  - destruct (list_find _ cs) as [[i c']|]; simpl; [done|]. by rewrite lookup_insert_ne.
Qed.

(** The map holds exactly the columns. *)
Lemma ToColumnMap_Some columns id c : NoDup (col_ID <$> columns) ->
  ToColumnMap columns !! id = Some c <-> c ∈ columns /\ col_ID c = id.
Proof.
  intros Hn. unfold ToColumnMap. rewrite ToColumnMap_acc by done. split.
  - destruct (list_find _ columns) as [[i c']|] eqn:E; [|by rewrite lookup_empty]. intros [= ->].
    apply list_find_Some in E as (Hi & Heq & _). split; [by eapply list_elem_of_lookup_2|done].
  - intros [Hin Hid]. destruct (list_find _ columns) as [[i c']|] eqn:E.
    + apply list_find_Some in E as (Hi & Heq & _). f_equal.
      apply list_elem_of_lookup in Hin as [k Hk].
      assert (i = k) as ->; [|congruence].
      eapply (list.NoDup_lookup (col_ID <$> columns)); [done|rewrite list_lookup_fmap, Hi; cbn; by rewrite Heq|].
      rewrite list_lookup_fmap, Hk. cbn. by rewrite Hid.
    + apply list_find_None in E. pose proof (proj1 (list.Forall_forall _ _) E c Hin). done.
Qed.

Lemma ToColumnMap_dom columns : dom (ToColumnMap columns) = list_to_set (col_ID <$> columns).
Proof.
  unfold ToColumnMap. assert (H : forall m : gmap Z ColumnInfo,
    dom (foldl (fun m col => <[col_ID col := col]> m) m columns) = dom m ∪ list_to_set (col_ID <$> columns)).
  { induction columns as [|c cs IH]; intros m; simpl; [set_solver|]. rewrite IH, dom_insert_L. set_solver. }
  rewrite H, dom_empty_L. set_solver.
Qed.
