(* ===== verification/Translator.v ===== *)
(** * Translator
    How drainer decodes the rows of a binlog ([drainer/translator/translator.go]):
    the row of an insert, the old and the new row of an update, and the value of a
    column that the row does not hold. *)
From Stdlib Require Import Init.Byte Strings.Byte SpecFloat.
From stdpp Require Import base option list gmap strings.
From S2P Require Import Prelude Schema Datum.

(** [l[i]] for a Go [int]. *)
Definition at_offset {A} (l : list A) (i : Z) : outcome A :=
  if i <? 0 then Panic else match l !! Z.to_nat i with Some x => Ret x | None => Panic end.

Section Translator.
Context {L : Lib}.

Definition fixType (data : Datum) (col : ColumnInfo) : Datum :=
  if HasUnsignedFlag (ft_Flag (col_Field col)) then
    match GetValue data with
    | VInt64 oldV => NewDatum (VUint64 (wrap_u64 oldV))
    | _ => data
    end
  else data.

(** ** The value of a column that is not in the row *)

Definition getEnumDatum (getCol : ColumnInfo) : outcome Datum :=
  match col_OriginDefault getCol with
  | VString value => ParseEnumName (ft_Elems (col_Field getCol)) value
  | _ => Fail (Err "unknown type")
  end.

Definition getSetDatum (getCol : ColumnInfo) : outcome Datum :=
  match col_OriginDefault getCol with
  | VString value => ParseSetName (ft_Elems (col_Field getCol)) value
  | _ => Fail (Err "unknown type")
  end.

Definition transTimestampToLocal (getCol : ColumnInfo) : outcome string :=
  match col_OriginDefault getCol with
  | VString value => utc_to_local value
  | _ => Fail (Err "not string value")
  end.

(** The last column of the table with the identifier, else the column itself. *)
Definition column_in (tableInfo : option TableInfo) (col : ColumnInfo) : ColumnInfo :=
  match tableInfo with
  | Some t => foldl (fun getCol c => if col_ID c =? col_ID col then c else getCol) col (tb_Columns t)
  | None => col
  end.

(** A conversion that fails is logged, and the default is used as it is. *)
Definition or_default (getCol : ColumnInfo) (r : outcome Datum) : outcome Datum :=
  match r with
  | Ret data => Ret data
  | Fail _ => Ret (NewDatum (col_OriginDefault getCol))
  | Panic => Panic
  end.

Definition getDefaultOrZeroValue (tableInfo : option TableInfo) (col : ColumnInfo) : outcome Datum :=
  let getCol := column_in tableInfo col in
  if negb (is_nil (col_OriginDefault getCol)) then
    let tp := ft_Tp (col_Field getCol) in
    if tp =? mysql_TypeTimestamp then
      or_default getCol (let! value := transTimestampToLocal getCol in Ret (NewDatum (VString value)))
    else if tp =? mysql_TypeEnum then or_default getCol (getEnumDatum getCol)
    else if tp =? mysql_TypeSet then or_default getCol (getSetDatum getCol)
    else Ret (NewDatum (col_OriginDefault getCol))
  else if negb (HasNotNullFlag (ft_Flag (col_Field col))) then Ret (NewDatum VNil)
  else if ft_Tp (col_Field col) =? mysql_TypeEnum then
    let! e := at_offset (ft_Elems (col_Field col)) 0 in Ret (NewDatum (VString e))
  else Ret (GetZeroValue col).

(** ** The row of an insert *)

(** The first primary index. *)
Fixpoint primary_index (indices : list IndexInfo) : option IndexInfo :=
  match indices with
  | [] => None
  | idx :: indices => if idx_Primary idx then Some idx else primary_index indices
  end.

(** The key of a clustered index: a datum for each of its columns, and the bytes
    that follow. *)
Fixpoint decode_common (table : TableInfo) (cols : list IndexColumn) (remain : list byte)
    : outcome (list Datum * list byte) :=
  match cols with
  | [] => Ret ([], remain)
  | idxCol :: cols =>
    let! (remain, aPK) := DecodeOne remain in
    let! col := at_offset (tb_Columns table) (ic_Offset idxCol) in
    let! aPK := Unflatten aPK (col_Field col) in
    let! (pk, remain) := decode_common table cols remain in
    Ret (aPK :: pk, remain)
  end.

(** The columns of the key that the row itself does not hold. *)
Fixpoint fill_common (table : TableInfo) (cols : list IndexColumn) (pk : list Datum) (datums : gmap Z Datum)
    : outcome (gmap Z Datum) :=
  match cols, pk with
  | idxCol :: cols, aPK :: pk =>
    if negb (ic_Length idxCol =? UnspecifiedLength) then fill_common table cols pk datums
    else
      let! tblIdxCol := at_offset (tb_Columns table) (ic_Offset idxCol) in
      match datums !! col_ID tblIdxCol with
      | Some _ => fill_common table cols pk datums
      | None => fill_common table cols pk (<[col_ID tblIdxCol := aPK]> datums)
      end
  | [], _ => Ret datums
  | _ :: _, [] => Panic
  end.

(** Whether the handle of the row is the value of the column. *)
Definition is_handle (table : TableInfo) (col : ColumnInfo) : bool :=
  (tb_PKIsHandle table && HasPriKeyFlag (ft_Flag (col_Field col))) || (col_ID col =? implicitColID).

Definition fill_handle (table : TableInfo) (handle : Datum) (datums : gmap Z Datum) : gmap Z Datum :=
  foldl (fun m col => if is_handle table col then <[col_ID col := fixType handle col]> m else m) datums (tb_Columns table).

Definition insertRowToDatums (table : TableInfo) (row : list byte) : outcome (gmap Z Datum) :=
  let colsTypeMap := ToColumnTypeMap (tb_Columns table) in
  if tb_IsCommonHandle table then
    match primary_index (tb_Indices table) with
    | None => Fail (Err "Unsupported clustered index without primary key")
    | Some commonPKInfo =>
      let! (pk, remain) := decode_common table (idx_Columns commonPKInfo) row in
      let! datums := DecodeRowToDatumMap remain colsTypeMap in
      fill_common table (idx_Columns commonPKInfo) pk (default ∅ datums)
    end
  else
    let! (remain, aPK) := DecodeOne row in
    let! datums := DecodeRowToDatumMap remain colsTypeMap in
    Ret (fill_handle table aPK (default ∅ datums)).

(** ** The rows of an update *)

(** The loop: column identifiers and values alternate; the first value of a column
    is the old one.  [fuel] bounds the iterations; see [decode_loop_fuel]. *)
Fixpoint decode_loop (fuel : nat) (cols : gmap Z ColumnInfo) (b : list byte)
    (oldRow newRow : gmap Z Datum) (cnt : nat) : outcome (gmap Z Datum * gmap Z Datum * nat) :=
  match b with
  | [] => Ret (oldRow, newRow, cnt)
  | _ =>
    match fuel with
    | O => Panic
    | S fuel =>
      let! (data, b) := CutOne b in
      let! (_, cid) := DecodeOne data in
      let! (data, b) := CutOne b in
      let id := GetInt64 cid in
      match cols !! id with
      | None => decode_loop fuel cols b oldRow newRow cnt
      | Some col =>
        let! v := DecodeColumnValue data (col_Field col) in
        let '(oldRow, newRow) :=
          match oldRow !! id with
          | Some _ => (oldRow, <[id := v]> newRow)
          | None => (<[id := v]> oldRow, newRow)
          end in
        if (S cnt =? size cols * 2)%nat then Ret (oldRow, newRow, S cnt)
        else decode_loop fuel cols b oldRow newRow (S cnt)
      end
    end
  end.

(** The columns that neither row holds. *)
Definition missing_cols (cols : gmap Z ColumnInfo) (oldRow newRow : gmap Z Datum) : list ColumnInfo :=
  (map_to_list (filter (fun kc => oldRow !! fst kc = None /\ newRow !! fst kc = None) cols)).*2.

(** Both rows get the default of every missing column. *)
Fixpoint fill_missing (pinfo : option TableInfo) (missing : list ColumnInfo) (oldRow newRow : gmap Z Datum)
    : outcome (gmap Z Datum * gmap Z Datum) :=
  match missing with
  | [] => Ret (oldRow, newRow)
  | col :: missing =>
    let! v := getDefaultOrZeroValue pinfo col in
    fill_missing pinfo missing (<[col_ID col := v]> oldRow) (<[col_ID col := v]> newRow)
  end.

Definition ErrCorrupted : error := Err "row data is corrupted".

Definition DecodeOldAndNewRow (b : option (list byte)) (cols : gmap Z ColumnInfo)
    (canAppendDefaultValue : bool) (pinfo : option TableInfo) : outcome (gmap Z Datum * gmap Z Datum) :=
  match b with
  | None => Ret (∅, ∅)
  | Some [] => Panic
  | Some ((flag :: _) as b) =>
    if bool_decide (flag = NilFlag) then Ret (∅, ∅)
    else
      let! (oldRow, newRow, cnt) := decode_loop (S (length b)) cols b ∅ ∅ 0 in
      let parsedCols := (cnt / 2)%nat in
      if negb (size newRow =? size oldRow)%nat then Fail ErrCorrupted
      else if (parsedCols <? size cols)%nat then
        if negb canAppendDefaultValue then Fail ErrCorrupted
        else
          let missing := missing_cols cols oldRow newRow in
          if negb (length missing =? size cols - parsedCols)%nat then Fail ErrCorrupted
          else fill_missing pinfo missing oldRow newRow
      else Ret (oldRow, newRow)
  end.

(** All columns which can be written: neither generated nor non-public. *)
Definition is_public (col : ColumnInfo) : bool := match col_State col with StatePublic => true | _ => false end.
Definition writableColumns (table : TableInfo) : list ColumnInfo :=
  filter (fun col => is_public col && negb (col_Generated col)) (tb_Columns table).

Record updateDecoder := mkUpdateDecoder {
  ud_columns : gmap Z ColumnInfo;
  ud_canAppendDefaultValue : bool;
  ud_ptable : option TableInfo;
}.

Definition newUpdateDecoder (ptable : option TableInfo) (table : TableInfo) (canAppendDefaultValue : bool) : updateDecoder :=
  mkUpdateDecoder (ToColumnMap (writableColumns table)) canAppendDefaultValue ptable.

Definition decode (ud : updateDecoder) (b : option (list byte)) : outcome (gmap Z Datum * gmap Z Datum) :=
  DecodeOldAndNewRow b (ud_columns ud) (ud_canAppendDefaultValue ud) (ud_ptable ud).

End Translator.
