(* ===== verification/TranslatorProofs.v ===== *)
(** * TranslatorProofs
    The rows that drainer decodes: the bound on the decoding loop, what the old and
    the new row of an update hold, and the round trip with the writer of the row. *)
From Stdlib Require Import Init.Byte Strings.Byte SpecFloat.
From stdpp Require Import base option list gmap strings.
From S2P Require Import Prelude Schema Datum Translator.

Section Decoding.
Context {L : Lib}.

(** ** Termination *)

(** The loop ends within as many iterations as the row has bytes: any larger bound
    gives the same result. *)
Lemma decode_loop_fuel `{!CodecLaws L} cols f1 : forall f2 b old new cnt,
  (length b < f1)%nat -> (length b < f2)%nat ->
  decode_loop f1 cols b old new cnt = decode_loop f2 cols b old new cnt.
Proof.
  induction f1 as [|f1 IH]; intros [|f2] b old new cnt H1 H2; [lia..|].
  destruct b as [|x b]; [done|]. cbn [decode_loop].
  destruct (CutOne (x :: b)) as [[data b1]|?|] eqn:E1; [|done..]. cbn [obind].
  destruct (DecodeOne data) as [[? cid]|?|]; [|done..]. cbn [obind].
  destruct (CutOne b1) as [[data2 b2]|?|] eqn:E2; [|done..]. cbn [obind].
  apply CutOne_split in E1 as [E1 Hd1], E2 as [E2 Hd2].
  assert (Hlen : (length b2 < f1 /\ length b2 < f2)%nat).
  { apply (f_equal length) in E1, E2. rewrite length_app in E1, E2.
    destruct data, data2; [done..|]. simpl in *. lia. }
  destruct Hlen. destruct (cols !! GetInt64 cid) as [col|]; [|by apply IH].
  destruct (DecodeColumnValue data2 (col_Field col)) as [v|?|]; [|done..]. cbn [obind].
  destruct (old !! GetInt64 cid); (destruct (_ =? _)%nat; [done|by apply IH]).
Qed.

(** ** What the loop reads *)

Record read_ok (cols : gmap Z ColumnInfo) (old new : gmap Z Datum) : Prop := {
  rd_old : dom old ⊆ dom cols;
  rd_new : dom new ⊆ dom old;
}.

Lemma decode_loop_read cols fuel : forall b old new cnt old' new' cnt',
  read_ok cols old new -> decode_loop fuel cols b old new cnt = Ret (old', new', cnt') -> read_ok cols old' new'.
Proof.
  induction fuel as [|fuel IH]; intros b old new cnt old' new' cnt' Hok; destruct b as [|x b]; cbn [decode_loop];
    [by intros [= <- <- <-]|done|by intros [= <- <- <-]|].
  intros ([data b1] & _ & H)%obind_Ret_inv. apply obind_Ret_inv in H as ([rest cid] & _ & H).
  apply obind_Ret_inv in H as ([data2 b2] & _ & H). cbn zeta in H.
  destruct (cols !! GetInt64 cid) as [col|] eqn:Ec; [|by eapply IH].
  apply obind_Ret_inv in H as (v & _ & H). destruct Hok as [Ho Hn]. apply elem_of_dom_2 in Ec.
  destruct (old !! GetInt64 cid) as [w|] eqn:Eo.
  - apply elem_of_dom_2 in Eo. assert (Hok' : read_ok cols old (<[GetInt64 cid := v]> new)).
    { split; [done|]. rewrite dom_insert_L. set_solver. }
    destruct (_ =? _)%nat; [by injection H as <- <- <-|by eapply IH].
  - assert (Hok' : read_ok cols (<[GetInt64 cid := v]> old) new).
    { split; rewrite dom_insert_L; set_solver. }
    destruct (_ =? _)%nat; [by injection H as <- <- <-|by eapply IH].
Qed.

Lemma read_ok_empty cols : read_ok cols ∅ ∅.
Proof. split; rewrite ?dom_empty_L; set_solver. Qed.

Lemma fill_missing_dom pinfo ms : forall old new old' new',
  fill_missing pinfo ms old new = Ret (old', new') ->
  dom old' = dom old ∪ list_to_set (col_ID <$> ms) /\ dom new' = dom new ∪ list_to_set (col_ID <$> ms).
Proof.
  induction ms as [|c ms IH]; intros old new old' new'; cbn [fill_missing].
  - intros [= <- <-]. simpl. set_solver.
  - intros (v & _ & H)%obind_Ret_inv. apply IH in H as [-> ->]. rewrite !dom_insert_L. simpl. set_solver.
Qed.

(** Columns are filed under their identifiers. *)
Definition filed (cols : gmap Z ColumnInfo) : Prop := map_Forall (fun id c => col_ID c = id) cols.

Lemma ToColumnMap_filed columns : filed (ToColumnMap columns).
Proof.
  unfold ToColumnMap. assert (H : forall m, filed m -> filed (foldl (fun m col => <[col_ID col := col]> m) m columns)).
  { induction columns as [|c cs IH]; intros m Hm; [done|]. apply IH. by apply map_Forall_insert_2. }
  apply H, map_Forall_empty.
Qed.

Lemma missing_cols_ids cols old new id : filed cols ->
  (id ∈ (col_ID <$> missing_cols cols old new)) <-> (id ∈ dom cols) /\ (id ∉ dom old) /\ (id ∉ dom new).
Proof.
  intros Hf. unfold missing_cols. rewrite list_elem_of_fmap. setoid_rewrite list_elem_of_fmap.
  setoid_rewrite not_elem_of_dom. split.
  - intros (c & -> & [k c'] & -> & Hin%elem_of_map_to_list). apply map_lookup_filter_Some in Hin as [Hk [Ho Hn]].
    cbn in *. rewrite (Hf _ _ Hk). split; [by eapply elem_of_dom_2|done].
  - intros ([c Hc]%elem_of_dom & Ho & Hn). exists c. split; [by rewrite (Hf _ _ Hc)|]. exists (id, c).
    split; [done|]. apply elem_of_map_to_list, map_lookup_filter_Some. done.
Qed.

(** A successful decoding of an update gives an old and a new row with the same
    columns, all of the table; when defaults were filled in, all columns of the table. *)
Lemma DecodeOldAndNewRow_dom b cols can pinfo old new : filed cols ->
  DecodeOldAndNewRow b cols can pinfo = Ret (old, new) ->
  dom old = dom new /\ dom old ⊆ dom cols.
Proof.
  intros Hf. unfold DecodeOldAndNewRow. destruct b as [[|x b]|]; [done| |by intros [= <- <-]].
  case_bool_decide as Hnil; [by intros [= <- <-]|].
  intros ([[old0 new0] cnt] & Hl & H)%obind_Ret_inv.
  apply decode_loop_read in Hl as [Ho Hn]; [|apply read_ok_empty].
  destruct (Nat.eqb_spec (size new0) (size old0)) as [Hsz|]; [|done]. cbn [negb] in H.
  assert (Hd : dom old0 = dom new0).
  { symmetry. apply set_subseteq_size_eq; [done|]. rewrite !size_dom. lia. }
  destruct (_ <? size cols)%nat; [|by injection H as <- <-].
  destruct can; [|done]. cbn [negb] in H. destruct (_ =? _)%nat; [|done]. cbn [negb] in H.
  apply fill_missing_dom in H as [-> ->]. rewrite Hd. split; [done|]. rewrite <- Hd.
  intros id [?|Hid]%elem_of_union; [by apply Ho|]. apply elem_of_list_to_set in Hid.
  by apply missing_cols_ids in Hid as [? _].
Qed.

End Decoding.

(** ** The writer of an update

    TiDB writes the identifier and the encoded value of every column of the old row,
    then of the new row. *)
Section Writer.
Context {L : Lib} (EncodeID : Z -> list byte).

Class WriterLaws : Prop := {
  CutOne_ID id rest : CutOne (EncodeID id ++ rest) = Ret (EncodeID id, rest);
  DecodeOne_ID id : in_i64 id -> exists d rest, DecodeOne (EncodeID id) = Ret (rest, d) /\ GetInt64 d = id;
  EncodeID_head id : exists x rest, EncodeID id = x :: rest /\ x <> NilFlag;
}.

(** A column of the update: its identifier and its encoded values. *)
Record ucell := mkCell { uc_id : Z; uc_old : list byte; uc_new : list byte }.

Definition cells_bytes (cells : list (Z * list byte)) : list byte := concat ((fun c => EncodeID (fst c) ++ snd c) <$> cells).

Definition update_row (us : list ucell) : list byte :=
  cells_bytes ((fun u => (uc_id u, uc_old u)) <$> us) ++ cells_bytes ((fun u => (uc_id u, uc_new u)) <$> us).

Context {WL : WriterLaws}.

(** A value that [CutOne] separates from what follows. *)
Definition value_ok (bs : list byte) : Prop := forall rest, CutOne (bs ++ rest) = Ret (bs, rest).

(** A cell with an identifier of 64 bits and encoded values. *)
Definition cell_ok (u : ucell) : Prop := in_i64 (uc_id u) /\ value_ok (uc_old u) /\ value_ok (uc_new u).

(** The loop on cells instead of bytes. *)
Fixpoint cell_loop (cols : gmap Z ColumnInfo) (cells : list (Z * list byte)) (old new : gmap Z Datum) (cnt : nat)
    : outcome (gmap Z Datum * gmap Z Datum * nat) :=
  match cells with
  | [] => Ret (old, new, cnt)
  | (id, bs) :: cells =>
    match cols !! id with
    | None => cell_loop cols cells old new cnt
    | Some col =>
      let! v := DecodeColumnValue bs (col_Field col) in
      let '(old, new) := match old !! id with Some _ => (old, <[id := v]> new) | None => (<[id := v]> old, new) end in
      if (S cnt =? size cols * 2)%nat then Ret (old, new, S cnt) else cell_loop cols cells old new (S cnt)
    end
  end.

Lemma cells_bytes_cons id bs cells : cells_bytes ((id, bs) :: cells) = EncodeID id ++ bs ++ cells_bytes cells.
Proof. unfold cells_bytes. simpl. by rewrite app_assoc. Qed.

Lemma decode_loop_cells cols cells : forall fuel old new cnt,
  Forall (fun c => in_i64 (fst c) /\ value_ok (snd c)) cells -> (length cells <= fuel)%nat ->
  decode_loop fuel cols (cells_bytes cells) old new cnt = cell_loop cols cells old new cnt.
Proof.
  induction cells as [|[id bs] cells IH]; intros fuel old new cnt Hok Hf.
  { by destruct fuel. }
  apply Forall_cons_iff in Hok as [[Hi64 Hbs] Hok]. cbn [fst snd] in Hi64, Hbs. destruct fuel as [|fuel]; [simpl in Hf; lia|].
  rewrite cells_bytes_cons. destruct (EncodeID_head id) as (x & r & He & _).
  transitivity (obind (CutOne (EncodeID id ++ bs ++ cells_bytes cells)) (fun '(data, b) =>
    let! (_, cid) := DecodeOne data in
    let! (data, b) := CutOne b in
    match cols !! GetInt64 cid with
    | None => decode_loop fuel cols b old new cnt
    | Some col =>
      let! v := DecodeColumnValue data (col_Field col) in
      let '(old, new) := match old !! GetInt64 cid with
        | Some _ => (old, <[GetInt64 cid := v]> new) | None => (<[GetInt64 cid := v]> old, new) end in
      if (S cnt =? size cols * 2)%nat then Ret (old, new, S cnt) else decode_loop fuel cols b old new (S cnt)
    end)).
  { by rewrite He. }
  rewrite CutOne_ID. cbn [obind]. destruct (DecodeOne_ID id Hi64) as (d & r' & -> & Hid). cbn [obind].
  rewrite Hbs. cbn [obind]. rewrite Hid. simpl in Hf. cbn [cell_loop].
  destruct (cols !! id) as [col|]; [|apply IH; [done|lia]].
  destruct (DecodeColumnValue bs (col_Field col)) as [v|?|]; [|done..]. cbn [obind].
  destruct (old !! id); (destruct (_ =? _)%nat; [done|apply IH; [done|lia]]).
Qed.

Context (cols : gmap Z ColumnInfo) (oldv newv : Z -> Datum).

(** The columns of the table among those that were written. *)
Definition known (us : list ucell) : list ucell := filter (fun u => is_Some (cols !! uc_id u)) us.

Definition row_of (val : Z -> Datum) (us : list ucell) : gmap Z Datum :=
  list_to_map ((fun u => (uc_id u, val (uc_id u))) <$> us).

(** The values decode with the types of the columns. *)
Definition decodes (u : ucell) : Prop := forall col, cols !! uc_id u = Some col ->
  DecodeColumnValue (uc_old u) (col_Field col) = Ret (oldv (uc_id u)) /\
  DecodeColumnValue (uc_new u) (col_Field col) = Ret (newv (uc_id u)).

Lemma known_cons u us : known (u :: us) = match cols !! uc_id u with Some _ => u :: known us | None => known us end.
Proof.
  unfold known. rewrite filter_cons. destruct (cols !! uc_id u); [rewrite decide_True by eauto|rewrite decide_False]; [done|done|].
  by intros [? ?].
Qed.

Lemma row_of_cons val u us : row_of val (u :: us) = <[uc_id u := val (uc_id u)]> (row_of val us).
Proof. done. Qed.

Lemma row_of_None val us id : id ∉ (uc_id <$> us) -> row_of val us !! id = None.
Proof.
  intros H. apply not_elem_of_list_to_map_1. rewrite <- list_fmap_compose. done.
Qed.

Lemma known_ids us id : id ∉ (uc_id <$> us) -> id ∉ (uc_id <$> known us).
Proof.
  rewrite !list_elem_of_fmap. intros H (u & -> & [_ Hu]%list_elem_of_filter). apply H. by exists u.
Qed.

(** Reading the old values, with room for more. *)
Lemma cell_loop_old us rest : forall old new cnt,
  NoDup (uc_id <$> us) -> Forall decodes us -> Forall (fun u => old !! uc_id u = None) us ->
  known us = [] \/ (cnt + length (known us) < size cols * 2)%nat ->
  cell_loop cols (((fun u => (uc_id u, uc_old u)) <$> us) ++ rest) old new cnt =
  cell_loop cols rest (row_of oldv (known us) ∪ old) new (cnt + length (known us)).
Proof.
  induction us as [|u us IH]; intros old new cnt Hn Hd Ho Hc.
  { cbn. unfold row_of. simpl. by rewrite (left_id_L ∅ (∪)), Nat.add_0_r. }
  cbn [fmap list_fmap app cell_loop]. cbn [fmap list_fmap] in Hn. apply list.NoDup_cons in Hn as [Hu Hn].
  apply Forall_cons_iff in Hd as [Hdu Hd], Ho as [Hou Ho]. rewrite known_cons in *.
  destruct (cols !! uc_id u) as [col|] eqn:Ec; [|by apply IH].
  destruct (Hdu _ Ec) as [-> _]. cbn [obind]. rewrite Hou. destruct Hc as [?|Hc]; [done|]. simpl in Hc.
  destruct (Nat.eqb_spec (S cnt) (size cols * 2)); [lia|]. rewrite IH; [|done|done| |right; lia].
  - f_equal; [|simpl; lia]. rewrite row_of_cons, <- insert_union_r, insert_union_l; [done|].
    apply row_of_None, known_ids, Hu.
  - apply list.Forall_forall. intros w Hw. rewrite lookup_insert_ne; [by eapply (proj1 (list.Forall_forall _ _) Ho)|].
    intros Heq. apply Hu. apply list_elem_of_fmap. by exists w.
Qed.

(** Reading the new values, with exactly enough room: the loop may stop before the
    end, when only cells of unknown columns are left. *)
Lemma cell_loop_new us : forall old new cnt,
  NoDup (uc_id <$> us) -> Forall decodes us -> Forall (fun u => is_Some (old !! uc_id u)) (known us) ->
  Forall (fun u => new !! uc_id u = None) us ->
  (cnt + length (known us) <= size cols * 2)%nat ->
  cell_loop cols ((fun u => (uc_id u, uc_new u)) <$> us) old new cnt =
  Ret (old, row_of newv (known us) ∪ new, cnt + length (known us))%nat.
Proof.
  induction us as [|u us IH]; intros old new cnt Hn Hd Ho Hw Hc.
  { cbn. unfold row_of. simpl. by rewrite (left_id_L ∅ (∪)), Nat.add_0_r. }
  cbn [fmap list_fmap cell_loop]. cbn [fmap list_fmap] in Hn. apply list.NoDup_cons in Hn as [Hu Hn].
  apply Forall_cons_iff in Hd as [Hdu Hd], Hw as [Hwu Hw]. rewrite known_cons in *.
  destruct (cols !! uc_id u) as [col|] eqn:Ec; [|by apply IH].
  destruct (Hdu _ Ec) as [_ ->]. cbn [obind]. apply Forall_cons_iff in Ho as [[o Ho1] Ho]. rewrite Ho1. simpl in Hc.
  assert (Hins : row_of newv (u :: known us) ∪ new = row_of newv (known us) ∪ <[uc_id u := newv (uc_id u)]> new).
  { rewrite row_of_cons, <- insert_union_r, insert_union_l; [done|]. apply row_of_None, known_ids, Hu. }
  destruct (Nat.eqb_spec (S cnt) (size cols * 2)) as [He|He].
  - assert (known us = []) as -> by (destruct (known us); [done|simpl in Hc; lia]).
    unfold row_of. simpl. rewrite insert_empty, <- insert_union_singleton_l. do 2 f_equal. lia.
  - rewrite IH, Hins; [|done|done|done| |lia].
    + do 2 f_equal. simpl. lia.
    + apply list.Forall_forall. intros w Hin. rewrite lookup_insert_ne; [by eapply (proj1 (list.Forall_forall _ _) Hw)|].
      intros Heq. apply Hu. apply list_elem_of_fmap. by exists w.
Qed.

Lemma row_of_dom val us : dom (row_of val us) = list_to_set (uc_id <$> us).
Proof. unfold row_of. rewrite dom_list_to_map_L, <- list_fmap_compose. done. Qed.

Lemma known_NoDup us : NoDup (uc_id <$> us) -> NoDup (uc_id <$> known us).
Proof.
  induction us as [|u us IH]; intros Hn; [done|]. cbn [fmap list_fmap] in Hn. apply list.NoDup_cons in Hn as [Hu Hn].
  rewrite known_cons. destruct (cols !! uc_id u); [|by apply IH]. cbn [fmap list_fmap]. apply list.NoDup_cons.
  split; [by apply known_ids|by apply IH].
Qed.

Lemma known_dom val us : dom (row_of val (known us)) ⊆ dom cols.
Proof.
  rewrite row_of_dom. intros id Hid. apply elem_of_list_to_set, list_elem_of_fmap in Hid as (u & -> & Hu).
  apply list_elem_of_filter in Hu as [Hs _]. by apply elem_of_dom.
Qed.

Lemma row_of_size val us : NoDup (uc_id <$> us) -> size (row_of val us) = length us.
Proof.
  intros Hn. rewrite <- size_dom, row_of_dom, size_list_to_set by done. by rewrite length_fmap.
Qed.

Lemma missing_cols_length old new : dom old = dom new -> dom old ⊆ dom cols ->
  length (missing_cols cols old new) = (size cols - size old)%nat.
Proof.
  intros Hd Hs. unfold missing_cols. rewrite length_fmap, length_map_to_list.
  rewrite <- !(size_dom (D := gset Z)), <- size_difference by done. f_equal. apply set_eq. intros id.
  rewrite elem_of_difference, !elem_of_dom. split.
  - intros [c [Hc [Ho Hn]]%map_lookup_filter_Some]. cbn in *. rewrite Ho. split; [by eexists|]. by intros [? ?].
  - intros [[c Hc] Ho]. exists c. apply map_lookup_filter_Some. split; [done|]. cbn.
    rewrite <- !not_elem_of_dom, <- Hd, elem_of_dom. done.
Qed.

Lemma cells_bytes_length cells : (length cells <= length (cells_bytes cells))%nat.
Proof.
  induction cells as [|[id bs] cells IH]; [done|]. rewrite cells_bytes_cons.
  destruct (EncodeID_head id) as (x & r & -> & _). rewrite !length_app. simpl. lia.
Qed.

(** Decoding what was written: the old and the new values of the written columns of
    the table; a column of the table that was not written gets its default in both
    rows if that is allowed, and is an error otherwise. *)
Lemma update_decoded us can pinfo : us <> [] -> NoDup (uc_id <$> us) -> Forall decodes us ->
  Forall cell_ok us ->
  let old := row_of oldv (known us) in
  let new := row_of newv (known us) in
  DecodeOldAndNewRow (Some (update_row us)) cols can pinfo =
  if (length (known us) <? size cols)%nat then
    if can then fill_missing pinfo (missing_cols cols old new) old new else Fail ErrCorrupted
  else Ret (old, new).
Proof.
  intros Hne Hn Hd Hv old new.
  assert (Hk : (length (known us) <= size cols)%nat).
  { pose proof (subseteq_size _ _ (known_dom oldv us)) as H. rewrite !size_dom, row_of_size in H; [done|by apply known_NoDup]. }
  set (cells := ((fun u => (uc_id u, uc_old u)) <$> us) ++ ((fun u => (uc_id u, uc_new u)) <$> us)).
  assert (Hrow : update_row us = cells_bytes cells).
  { unfold update_row, cells_bytes, cells. by rewrite fmap_app, concat_app. }
  assert (Hdec : forall fuel, (length cells <= fuel)%nat ->
    decode_loop fuel cols (cells_bytes cells) ∅ ∅ 0 = Ret (old, new, 2 * length (known us))%nat).
  { intros fuel Hf. rewrite decode_loop_cells; [| |done].
    2:{ unfold cells. apply Forall_app. split; apply Forall_fmap; (eapply Forall_impl; [exact Hv|]); by intros u (? & ? & ?). }
    unfold cells. rewrite cell_loop_old; [|done|done| |].
    - rewrite cell_loop_new; [|done|done| | |lia].
      + rewrite !(right_id_L ∅ (∪)). do 2 f_equal. lia.
      + apply list.Forall_forall. intros u Hu. rewrite (right_id_L ∅ (∪)), <- elem_of_dom, row_of_dom.
        apply elem_of_list_to_set, list_elem_of_fmap. by exists u.
      + apply list.Forall_forall. intros u _. apply lookup_empty.
    - apply list.Forall_forall. intros u _. apply lookup_empty.
    - destruct (known us) as [|k ks]; [by left|]. right. simpl in *. lia. }
  rewrite Hrow. pose proof (cells_bytes_length cells) as Hlen. unfold DecodeOldAndNewRow.
  destruct us as [|u us]; [done|]. destruct (EncodeID_head (uc_id u)) as (x & r & Hx & Hnil).
  assert (Hhead : exists r', cells_bytes cells = x :: r') by (unfold cells, cells_bytes; simpl; rewrite Hx; by eexists).
  destruct Hhead as [r' Hr']. rewrite Hr'. rewrite bool_decide_eq_false_2 by done. rewrite <- Hr'.
  rewrite Hdec by lia. cbn [obind].
  assert (Hds : dom old = dom new) by (unfold old, new; by rewrite !row_of_dom).
  rewrite <- !(size_dom (D := gset Z) old), Hds, (size_dom (D := gset Z)), Nat.eqb_refl. cbn [negb].
  replace (2 * length (known (u :: us)))%nat with (length (known (u :: us)) * 2)%nat by lia. rewrite Nat.div_mul by done.
  destruct (_ <? _)%nat; [|done]. destruct can; [|done]. cbn [negb].
  rewrite missing_cols_length; [|done|apply known_dom]. unfold old. rewrite row_of_size by (by apply known_NoDup).
  by rewrite Nat.eqb_refl.
Qed.
End Writer.
