(* ===== verification/TranslateTxn.v ===== *)
(** * TranslateTxn
    The translation of a binlog to a transaction of the loader
    ([drainer/translator/mysql.go]). *)
From Stdlib Require Import Init.Byte Strings.Byte SpecFloat.
From stdpp Require Import base option list gmap strings.
From S2P Require Import Prelude Binlog LoaderModel Schema Datum Translator Mutation.

(** ** Tables by identifier ([TableInfoGetter] of [table_info.go]) *)

Record TableInfoGetter := mkGetter {
  get_TableByID : Z -> option TableInfo;
  get_SchemaAndTableName : Z -> string * string * bool;
  get_CanAppendDefaultValue : Z -> Z -> bool;
  get_TableBySchemaVersion : Z -> Z -> option TableInfo;
}.

(** The schema of drainer is one. *)
Definition schema_getter (s : Schema) : TableInfoGetter :=
  mkGetter (fun id => TableByID id s) (fun id => SchemaAndTableName id s)
    (fun id v => CanAppendDefaultValue id v s) (fun id v => TableBySchemaVersion id v s).

Definition string_of (b : list byte) : string := String.string_of_list_byte b.

Section Txn.
Context {L : Lib}.

(** ** Values *)

(** The types whose values are printed. *)
Definition printed_type (tp : Z) : bool :=
  bool_decide (tp ∈ [mysql_TypeDate; mysql_TypeDatetime; mysql_TypeNewDate; mysql_TypeTimestamp;
                     mysql_TypeDuration; mysql_TypeNewDecimal; mysql_TypeJSON]).

Definition formatData (data : Datum) (ft : FieldType) : outcome Datum :=
  if is_nil (GetValue data) then Ret data
  else
    let tp := ft_Tp ft in
    if printed_type tp then Ret (NewDatum (VString (Sprint data)))
    else if tp =? mysql_TypeEnum then Ret (NewDatum (VUint64 (GetMysqlEnum_Value data)))
    else if tp =? mysql_TypeSet then Ret (NewDatum (VUint64 (GetMysqlSet_Value data)))
    else if tp =? mysql_TypeBit then
      let! val := ToInt (GetBinaryLiteral data) in Ret (NewDatum (VUint64 val))
    else Ret data.

Definition genColumnNameList (columns : list ColumnInfo) : list string := col_Name <$> columns.

(** The columns that have a value, and the values. *)
Fixpoint generateColumnAndValue (columns : list ColumnInfo) (columnValues : gmap Z Datum)
    : outcome (list ColumnInfo * list value) :=
  match columns with
  | [] => Ret ([], [])
  | col :: columns =>
    match columnValues !! col_ID col with
    | None => generateColumnAndValue columns columnValues
    | Some val =>
      let! v := formatData val (col_Field col) in
      let! (newColumn, newColumnsValues) := generateColumnAndValue columns columnValues in
      Ret (col :: newColumn, GetValue v :: newColumnsValues)
    end
  end.

(** The loop of [genMysqlInsert]: a column without a value gets its default. *)
Fixpoint insert_args (ptable : option TableInfo) (columns : list ColumnInfo) (columnValues : gmap Z Datum)
    : outcome (list string * list value) :=
  match columns with
  | [] => Ret ([], [])
  | col :: columns =>
    let! val := match columnValues !! col_ID col with
                | Some val => Ret val
                | None => getDefaultOrZeroValue ptable col
                end in
    let! v := formatData val (col_Field col) in
    let! (names, args) := insert_args ptable columns columnValues in
    Ret (col_Name col :: names, GetValue v :: args)
  end.

Definition genMysqlInsert (ptable : option TableInfo) (table : TableInfo) (row : list byte)
    : outcome (list string * list value) :=
  let! columnValues := insertRowToDatums table row in
  insert_args ptable (writableColumns table) columnValues.

Definition genMysqlUpdate (ptable : option TableInfo) (table : TableInfo) (row : list byte) (canAppendDefaultValue : bool)
    : outcome (list string * list value * list value) :=
  let columns := writableColumns table in
  let updtDecoder := newUpdateDecoder ptable table canAppendDefaultValue in
  let! (oldColumnValues, newColumnValues) := decode updtDecoder (Some row) in
  let! (_, oldValues) := generateColumnAndValue columns oldColumnValues in
  let! (updateColumns, values) := generateColumnAndValue columns newColumnValues in
  Ret (genColumnNameList updateColumns, values, oldValues).

Definition genMysqlDelete (table : TableInfo) (row : list byte) : outcome (list string * list value) :=
  let! columnValues := DecodeRowToDatumMap row (ToColumnTypeMap (tb_Columns table)) in
  let! (columns, values) := generateColumnAndValue (tb_Columns table) (default ∅ columnValues) in
  Ret (genColumnNameList columns, values).

(** ** The transaction *)

(** [for i, name := range names { m[name] = args[i] }]. *)
Fixpoint assign (names : list string) (args : list value) (m : gmap string value) : outcome (gmap string value) :=
  match names, args with
  | [], _ => Ret m
  | name :: names, arg :: args => assign names args (<[name := arg]> m)
  | _ :: _, [] => Panic
  end.

(** The info of a DML before the loader looks it up. *)
Definition no_info : tableInfo := LoaderModel.mkTable [] None [].

(** The DML of a changed row; [schema] and [table] are the names of its table. *)
Definition row_dml (schema table : string) (pinfo : option TableInfo) (info : TableInfo) (canAppendDefaultValue : bool)
    (ev : event) : outcome DML :=
  let (mutType, row) := ev in
  match mutType with
  | MT_Insert =>
    let! (names, args) := genMysqlInsert pinfo info row in
    let! values := assign names args ∅ in
    Ret (mkDML schema table InsertDMLType ∅ values no_info)
  | MT_Update =>
    let! (names, args, oldArgs) := genMysqlUpdate pinfo info row canAppendDefaultValue in
    let! values := assign names args ∅ in
    let! oldValues := assign names oldArgs ∅ in
    Ret (mkDML schema table UpdateDMLType oldValues values no_info)
  | MT_DeleteRow =>
    let! (names, args) := genMysqlDelete info row in
    let! values := assign names args ∅ in
    Ret (mkDML schema table DeleteDMLType ∅ values no_info)
  | _ => Fail ErrUnknownMutation
  end.

(** The loop over the rows of a mutation, which ends at [io.EOF]. *)
Fixpoint each_row {A} (fuel : nat) (si : sequenceIterator) (gen : event -> outcome A) : outcome (list A) :=
  match fuel with
  | O => Panic
  | S fuel =>
    match next si with
    | (_, Fail EOF) => Ret []
    | (_, Fail e) => Fail e
    | (_, Panic) => Panic
    | (si, Ret ev) => let! x := gen ev in let! xs := each_row fuel si gen in Ret (x :: xs)
    end
  end.

Definition rows_of {A} (mut : TableMutation) (gen : event -> outcome A) : outcome (list A) :=
  each_row (S (length (Sequence mut))) (newSequenceIterator mut) gen.

(** What is looked up for a mutation: the table, the table at the version of the
    transaction, whether defaults may be filled in, and the names. *)
Record mut_info := mkMutInfo {
  mi_info : TableInfo;
  mi_pinfo : option TableInfo;
  mi_canAppend : bool;
  mi_schema : string;
  mi_table : string;
}.

Definition lookup_table (g : TableInfoGetter) (schemaVersion : Z) (mut : TableMutation) : outcome mut_info :=
  match get_TableByID g (TableId mut) with
  | None => Fail (Err "TableByID empty table id")
  | Some info =>
    match get_SchemaAndTableName g (TableId mut) with
    | (schema, table, true) =>
      Ret (mkMutInfo info (get_TableBySchemaVersion g (TableId mut) schemaVersion)
             (get_CanAppendDefaultValue g (TableId mut) schemaVersion) schema table)
    | (_, _, false) => Fail (Err "SchemaAndTableName empty table id")
    end
  end.

Fixpoint mutations_dmls (g : TableInfoGetter) (schemaVersion : Z) (muts : list TableMutation) : outcome (list DML) :=
  match muts with
  | [] => Ret []
  | mut :: muts =>
    let! mi := lookup_table g schemaVersion mut in
    let! dmls := rows_of mut (row_dml (mi_schema mi) (mi_table mi) (mi_pinfo mi) (mi_info mi) (mi_canAppend mi)) in
    let! rest := mutations_dmls g schemaVersion muts in
    Ret (dmls ++ rest)
  end.

Definition TiBinlogToTxn {Meta} (g : TableInfoGetter) (schema table : string) (tiBinlog : Binlog)
    (pv : Mutation.PrewriteValue) (shouldSkip : bool) : outcome (Txn Meta) :=
  if 0 <? DdlJobId tiBinlog then
    Ret (mkTxn [] (Some (mkDDL schema table (string_of (DdlQuery tiBinlog)) shouldSkip)) 0 None)
  else
    let! dmls := mutations_dmls g (pv_SchemaVersion pv) (Mutations pv) in
    Ret (mkTxn dmls None 0 None).

End Txn.
