(* ===== verification/TranslateTxnProofs.v ===== *)
(** * TranslateTxnProofs
    The transaction of a binlog has one DML for every changed row, in order, with the
    values of the row by column name; an update that was written by TiDB is
    translated to the values that were written. *)
From Stdlib Require Import Init.Byte Strings.Byte SpecFloat.
From stdpp Require Import base option list gmap strings.
From S2P Require Import Prelude Binlog LoaderModel Schema Datum Translator TranslatorProofs Mutation TranslateTxn.

Section TxnProofs.
Context {L : Lib}.

(** The loop over the rows is a loop over the events. *)
Lemma each_row_drain {A} (gen : event -> outcome A) fuel : forall si evs,
  drain fuel si = Ret evs -> each_row fuel si gen = each gen evs.
Proof.
  induction fuel as [|fuel IH]; intros si evs; [done|]. cbn [drain each_row].
  destruct (next si) as [si' [ev|e|]]; [|destruct e; [by intros [= <-]|done..]|done].
  intros (evs' & Hd & [= <-])%obind_Ret_inv. cbn [each]. by rewrite (IH _ _ Hd).
Qed.

Lemma rows_of_events {A} (gen : event -> outcome A) mut evs :
  events mut = Some evs -> rows_of mut gen = each gen evs.
Proof. intros H. unfold rows_of. by apply each_row_drain, drain_all. Qed.

(** *** Values by column *)

(** The column has the value of the datum, formatted. *)
Definition col_value (vals : gmap string value) (c : ColumnInfo) (d : Datum) : Prop :=
  exists d', formatData d (col_Field c) = Ret d' /\ vals !! col_Name c = Some (GetValue d').

(** The value of a column of an argument list. *)
Definition arg_of (c : ColumnInfo) (d : Datum) (v : value) : Prop :=
  exists d', formatData d (col_Field c) = Ret d' /\ v = GetValue d'.

Lemma assign_total names args m : length names = length args ->
  assign names args m = Ret (foldl (fun m nv => <[fst nv := snd nv]> m) m (zip names args)).
Proof.
  revert args m. induction names as [|n names IH]; intros [|a args] m H; try done. cbn [assign].
  rewrite IH by (simpl in H; lia). done.
Qed.

Lemma assign_fold names : forall args (m : gmap string value), NoDup names -> length names = length args ->
  let r := foldl (fun m nv => <[fst nv := snd nv]> m) m (zip names args) in
  dom r = dom m ∪ list_to_set names /\
  (forall k, k ∉ names -> r !! k = m !! k) /\
  (forall i n a, names !! i = Some n -> args !! i = Some a -> r !! n = Some a).
Proof.
  induction names as [|n names IH]; intros [|a args] m Hn Hl; try done.
  { simpl. split_and!; [set_solver|done|]. intros i ? ? Hi. done. }
  apply list.NoDup_cons in Hn as [Hni Hn]. cbn [zip zip_with foldl fst snd].
  destruct (IH args (<[n := a]> m) Hn) as (Hd & Ho & Hi); [simpl in Hl; lia|]. split_and!.
  - cbn in Hd |- *. rewrite Hd, dom_insert_L. set_solver.
  - intros k Hk. apply not_elem_of_cons in Hk as [Hk1 Hk2]. rewrite Ho by done. by rewrite lookup_insert_ne.
  - intros [|i] n' a' Hn' Ha'.
    + injection Hn' as <-. injection Ha' as <-. rewrite Ho by done. by rewrite lookup_insert_eq.
    + by eapply Hi.
Qed.

(** Assigning the arguments of distinct columns: exactly these columns, each with its
    value. *)
Lemma assign_columns cs ds vs : NoDup (col_Name <$> cs) -> Forall2 (fun cd v => arg_of (fst cd) (snd cd) v) (zip cs ds) vs ->
  length cs = length ds ->
  exists vals, assign (col_Name <$> cs) vs ∅ = Ret vals /\ dom vals = list_to_set (col_Name <$> cs) /\
    forall c d, (c, d) ∈ zip cs ds -> col_value vals c d.
Proof.
  intros Hn HF Hl. assert (Hlv : length (col_Name <$> cs) = length vs).
  { rewrite length_fmap. apply Forall2_length in HF. rewrite length_zip in HF. lia. }
  rewrite assign_total by done. eexists. split; [done|].
  destruct (assign_fold _ vs ∅ Hn Hlv) as (Hd & _ & Hi). split; [cbn in Hd |- *; rewrite Hd; set_solver|].
  intros c d Hcd. apply list_elem_of_lookup in Hcd as [i Hi'].
  destruct (Forall2_lookup_l _ _ _ _ _ HF Hi') as (v & Hv & d' & Hf & ->). exists d'. split; [done|].
  apply (Hi i); [|done]. rewrite list_lookup_fmap. rewrite lookup_zip_with in Hi'.
  destruct (cs !! i) as [c0|]; [|done]. destruct (ds !! i) as [d0|]; [|done]. by injection Hi' as -> ->.
Qed.

(** The columns that have a value. *)
Definition present (vals : gmap Z Datum) (columns : list ColumnInfo) : list ColumnInfo :=
  filter (fun c => is_Some (vals !! col_ID c)) columns.

Definition datums_of (vals : gmap Z Datum) (columns : list ColumnInfo) : list Datum :=
  omap (fun c => vals !! col_ID c) columns.

Lemma generateColumnAndValue_spec columns vals cs vs :
  generateColumnAndValue columns vals = Ret (cs, vs) ->
  cs = present vals columns /\
  Forall2 (fun cd v => arg_of (fst cd) (snd cd) v) (zip (present vals columns) (datums_of vals columns)) vs.
Proof.
  revert cs vs. induction columns as [|c columns IH]; intros cs vs; cbn [generateColumnAndValue].
  { intros [= <- <-]. split; [done|constructor]. }
  unfold present, datums_of. rewrite filter_cons. cbn [omap list_omap].
  destruct (vals !! col_ID c) as [d|] eqn:Ed.
  - intros (d' & Hf & H)%obind_Ret_inv. apply obind_Ret_inv in H as ([cs' vs'] & H & [= <- <-]).
    apply IH in H as [-> HF]. rewrite decide_True by eauto. split; [done|]. constructor; [|exact HF]. by exists d'.
  - intros H. rewrite decide_False by (by intros [? ?]). by apply IH.
Qed.

Lemma present_datums_length vals columns : length (present vals columns) = length (datums_of vals columns).
Proof.
  unfold present, datums_of. induction columns as [|c columns IH]; [done|]. rewrite filter_cons. cbn [omap list_omap].
  destruct (vals !! col_ID c); [rewrite decide_True by eauto; simpl; by rewrite IH|].
  rewrite decide_False by (by intros [? ?]). done.
Qed.

Lemma present_zip vals columns c d : (c, d) ∈ zip (present vals columns) (datums_of vals columns) <->
  c ∈ columns /\ vals !! col_ID c = Some d.
Proof.
  unfold present, datums_of. induction columns as [|c0 columns IH]; [cbn; set_solver|].
  rewrite filter_cons. cbn [omap list_omap]. destruct (vals !! col_ID c0) as [d0|] eqn:E.
  - rewrite decide_True by eauto. cbn [zip zip_with]. rewrite !elem_of_cons, IH. split.
    + intros [[= -> ->]|[? ?]]; [by split; [left|]|by split; [right|]].
    + intros [[->|?] ?]; [left; congruence|by right].
  - rewrite decide_False by (by intros [? ?]). rewrite IH, elem_of_cons. split; [intros [? ?]; by split; [right|]|].
    intros [[->|?] ?]; [congruence|done].
Qed.

Lemma present_names vals columns : NoDup (col_Name <$> columns) -> NoDup (col_Name <$> present vals columns).
Proof.
  unfold present. induction columns as [|c columns IH]; intros Hn; [done|]. cbn [fmap list_fmap] in Hn.
  apply list.NoDup_cons in Hn as [Hc Hn]. rewrite filter_cons. case_decide; [|by apply IH].
  cbn [fmap list_fmap]. apply list.NoDup_cons. split; [|by apply IH].
  intros Hin. apply Hc. apply list_elem_of_fmap in Hin as (x & -> & Hx%list_elem_of_filter).
  apply list_elem_of_fmap. exists x. split; [done|apply Hx].
Qed.

(** The row of a DML built from the values of columns. *)
Lemma generate_assign columns vals cs vs : NoDup (col_Name <$> columns) ->
  generateColumnAndValue columns vals = Ret (cs, vs) ->
  exists row, assign (genColumnNameList cs) vs ∅ = Ret row /\
    dom row = list_to_set (col_Name <$> present vals columns) /\
    forall c d, c ∈ columns -> vals !! col_ID c = Some d -> col_value row c d.
Proof.
  intros Hn [-> HF]%generateColumnAndValue_spec.
  destruct (assign_columns _ _ _ (present_names vals _ Hn) HF (present_datums_length _ _)) as (row & Ha & Hd & Hv).
  exists row. split_and!; [exact Ha|exact Hd|]. intros c d Hc Hcd. apply Hv, present_zip. done.
Qed.

Lemma present_same vals vals' columns : dom vals = dom vals' -> present vals columns = present vals' columns.
Proof.
  intros Hd. unfold present. apply list_filter_iff. intros c. by rewrite <- !elem_of_dom, Hd.
Qed.

(** *** Rows *)

(** The datum of a column of an insert: from the row, or the default. *)
Definition insert_datum (ptable : option TableInfo) (datums : gmap Z Datum) (c : ColumnInfo) (d : Datum) : Prop :=
  datums !! col_ID c = Some d \/ datums !! col_ID c = None /\ getDefaultOrZeroValue ptable c = Ret d.

Lemma insert_args_spec ptable datums columns names args : insert_args ptable columns datums = Ret (names, args) ->
  names = col_Name <$> columns /\
  exists ds, length columns = length ds /\
    Forall2 (fun cd v => arg_of (fst cd) (snd cd) v) (zip columns ds) args /\
    Forall2 (insert_datum ptable datums) columns ds.
Proof.
  revert names args. induction columns as [|c columns IH]; intros names args; cbn [insert_args].
  { intros [= <- <-]. split; [done|]. exists []. split_and!; [done|constructor..]. }
  intros (d & Hd & H)%obind_Ret_inv. apply obind_Ret_inv in H as (d' & Hf & H).
  apply obind_Ret_inv in H as ([names' args'] & H & [= <- <-]).
  apply IH in H as (-> & ds & Hl & HF & HD). split; [done|]. exists (d :: ds). split_and!.
  - simpl. lia.
  - constructor; [|exact HF]. by exists d'.
  - constructor; [|exact HD]. unfold insert_datum. destruct (datums !! col_ID c); [left; congruence|by right].
Qed.

(** What the DML of an event holds. *)
Definition row_translated (mi : mut_info) (ev : event) (dml : DML) : Prop :=
  Database dml = mi_schema mi /\ Table dml = mi_table mi /\
  let info := mi_info mi in
  let columns := writableColumns info in
  match fst ev with
  | MT_Insert =>
    DML_Tp dml = InsertDMLType /\ OldValues dml = ∅ /\
    dom (Values dml) = list_to_set (col_Name <$> columns) /\
    exists datums, insertRowToDatums info (snd ev) = Ret datums /\
      forall c, c ∈ columns -> exists d, insert_datum (mi_pinfo mi) datums c d /\ col_value (Values dml) c d
  | MT_Update =>
    DML_Tp dml = UpdateDMLType /\ dom (OldValues dml) = dom (Values dml) /\
    exists old new, DecodeOldAndNewRow (Some (snd ev)) (ToColumnMap columns) (mi_canAppend mi) (mi_pinfo mi) = Ret (old, new) /\
      dom (Values dml) = list_to_set (col_Name <$> present new columns) /\
      forall c, c ∈ columns ->
        (forall d, old !! col_ID c = Some d -> col_value (OldValues dml) c d) /\
        (forall d, new !! col_ID c = Some d -> col_value (Values dml) c d)
  | MT_DeleteRow =>
    DML_Tp dml = DeleteDMLType /\ OldValues dml = ∅ /\
    exists datums, DecodeRowToDatumMap (snd ev) (ToColumnTypeMap (tb_Columns info)) = Ret datums /\
      dom (Values dml) = list_to_set (col_Name <$> present (default ∅ datums) (tb_Columns info)) /\
      forall c d, c ∈ tb_Columns info -> default ∅ datums !! col_ID c = Some d -> col_value (Values dml) c d
  | _ => False
  end.

Lemma writable_names info : NoDup (col_Name <$> tb_Columns info) -> NoDup (col_Name <$> writableColumns info).
Proof.
  unfold writableColumns. induction (tb_Columns info) as [|c cs IH]; intros Hn; [done|]. cbn [fmap list_fmap] in Hn.
  apply list.NoDup_cons in Hn as [Hc Hn]. rewrite filter_cons. case_decide; [|by apply IH].
  cbn [fmap list_fmap]. apply list.NoDup_cons. split; [|by apply IH].
  intros Hin. apply Hc. apply list_elem_of_fmap in Hin as (x & -> & Hx%list_elem_of_filter).
  apply list_elem_of_fmap. exists x. split; [done|apply Hx].
Qed.

Lemma row_dml_translated mi ev dml : NoDup (col_Name <$> tb_Columns (mi_info mi)) ->
  row_dml (mi_schema mi) (mi_table mi) (mi_pinfo mi) (mi_info mi) (mi_canAppend mi) ev = Ret dml ->
  row_translated mi ev dml.
Proof.
  intros Hn. pose proof (writable_names _ Hn) as Hw. destruct ev as [tp row]. unfold row_translated. cbn [fst snd row_dml].
  destruct tp; [| |done|done|]; intros H.
  - apply obind_Ret_inv in H as ([names args] & Hi & H). apply obind_Ret_inv in Hi as (datums & Hr & Hi).
    apply insert_args_spec in Hi as (-> & ds & Hl & HF & HD).
    destruct (assign_columns _ _ _ Hw HF Hl) as (vals & Ha & Hd & Hv). rewrite Ha in H. injection H as <-. cbn.
    split_and!; try done. exists datums. split; [done|]. intros c Hc. apply list_elem_of_lookup in Hc as [i Hi].
    destruct (Forall2_lookup_l _ _ _ _ _ HD Hi) as (d & Hdi & Hid). exists d. split; [done|]. apply Hv.
    apply (list_elem_of_lookup_2 _ i). by rewrite lookup_zip_with, Hi, Hdi.
  - apply obind_Ret_inv in H as ([[names args] oldArgs] & Hu & H). unfold genMysqlUpdate, decode in Hu. cbn [newUpdateDecoder ud_columns ud_canAppendDefaultValue ud_ptable] in Hu.
    apply obind_Ret_inv in Hu as ([old new] & Hdec & Hu). apply obind_Ret_inv in Hu as ([csO vsO] & HO & Hu).
    apply obind_Ret_inv in Hu as ([csN vsN] & HN & [= <- <- <-]).
    pose proof (DecodeOldAndNewRow_dom _ _ _ _ _ _ (ToColumnMap_filed _) Hdec) as [Hsame _].
    assert (csO = csN) as ->.
    { apply generateColumnAndValue_spec in HO as [-> _], HN as [-> _]. by apply present_same. }
    destruct (generate_assign _ _ _ _ Hw HO) as (rowO & HaO & HdO & HvO).
    destruct (generate_assign _ _ _ _ Hw HN) as (rowN & HaN & HdN & HvN).
    rewrite HaN in H. cbn [obind] in H. rewrite HaO in H. injection H as <-. cbn.
    split_and!; try done; [by rewrite HdO, HdN, (present_same old new)|]. exists old, new. split_and!; [done|done|].
    intros c Hc. split; intros d Hd; [by apply HvO|by apply HvN].
  - apply obind_Ret_inv in H as ([names args] & Hg & H). apply obind_Ret_inv in Hg as (datums & Hr & Hg).
    apply obind_Ret_inv in Hg as ([cs vs] & Hg & [= <- <-]).
    destruct (generate_assign _ _ _ _ Hn Hg) as (vals & Ha & Hd & Hv). rewrite Ha in H. injection H as <-. cbn.
    split_and!; try done. exists datums. split_and!; done.
Qed.

(** *** Transactions *)

(** The changed rows of a transaction in order, with what is known of their tables. *)
Inductive txn_events (g : TableInfoGetter) (v : Z) : list TableMutation -> list (mut_info * event) -> Prop :=
  | te_nil : txn_events g v [] []
  | te_cons mut muts mi evs rest : lookup_table g v mut = Ret mi -> events mut = Some evs -> txn_events g v muts rest ->
      txn_events g v (mut :: muts) (((fun ev => (mi, ev)) <$> evs) ++ rest).

Definition dml_of (me : mut_info * event) : outcome DML :=
  let mi := fst me in row_dml (mi_schema mi) (mi_table mi) (mi_pinfo mi) (mi_info mi) (mi_canAppend mi) (snd me).

Lemma each_app {A B} (f : A -> outcome B) l1 l2 : each f (l1 ++ l2) = let! a := each f l1 in let! b := each f l2 in Ret (a ++ b).
Proof.
  induction l1 as [|x l1 IH]; cbn [each app]; [by destruct (each f l2)|].
  destruct (f x); [|done..]. cbn [obind]. rewrite IH. destruct (each f l1); [|done..]. cbn [obind].
  by destruct (each f l2).
Qed.

Lemma each_fmap {A B C} (f : B -> outcome C) (h : A -> B) l : each f (h <$> l) = each (fun x => f (h x)) l.
Proof. induction l as [|x l IH]; [done|]. cbn [fmap list_fmap each]. destruct (f (h x)); [|done..]. cbn [obind]. by rewrite <- IH. Qed.

(** The DMLs are those of the changed rows, in order; the first error is returned. *)
Lemma mutations_dmls_each g v muts mes : txn_events g v muts mes -> mutations_dmls g v muts = each dml_of mes.
Proof.
  induction 1 as [|mut muts mi evs rest Hl He Ht IH]; [done|]. cbn [mutations_dmls]. rewrite Hl. cbn [obind].
  rewrite (rows_of_events _ _ _ He), IH, each_app, each_fmap. done.
Qed.

(** C18: The transaction of a DML binlog is the list of its changed rows: when
    [TiBinlogToTxn] succeeds it gives one DML for each row change of the mutations, in
    the order of their sequences, with the names of the row's table, the kind of the
    change and the values of the row, formatted, under the names of their columns: all
    writable columns of an insert (with defaults for those the row does not hold), the
    same columns in the old and the new values of an update, the columns a deleted row
    holds. *)
Theorem txn_translates {Meta} g schema table b pv skip mes (txn : Txn Meta) :
  DdlJobId b <= 0 -> txn_events g (pv_SchemaVersion pv) (Mutations pv) mes ->
  Forall (fun me => NoDup (col_Name <$> tb_Columns (mi_info (fst me)))) mes ->
  TiBinlogToTxn g schema table b pv skip = Ret txn ->
  Txn_DDL txn = None /\ Forall2 (fun me dml => row_translated (fst me) (snd me) dml) mes (DMLs txn).
Proof.
  intros Hd Ht Hn. unfold TiBinlogToTxn. destruct (Z.ltb_spec 0 (DdlJobId b)); [lia|].
  rewrite (mutations_dmls_each _ _ _ _ Ht). intros (dmls & He & [= <-])%obind_Ret_inv. split; [done|]. cbn.
  apply each_Ret in He. clear Ht. induction He as [|me dml mes dmls Hme He IH]; [constructor|].
  apply Forall_cons_iff in Hn as [Hn1 Hn]. constructor; [by apply row_dml_translated|by apply IH].
Qed.

End TxnProofs.

(** ** Updates that TiDB writes *)
Section RoundTrip.
Context {L : Lib} (EncodeID : Z -> list byte) {WL : WriterLaws EncodeID}.

Definition formats (c : ColumnInfo) : Prop := forall d, exists d', formatData d (col_Field c) = Ret d'.

Lemma formats_not_bit c : ft_Tp (col_Field c) <> mysql_TypeBit -> formats c.
Proof.
  intros H d. unfold formatData. destruct (is_nil (GetValue d)); [eauto|]. cbn zeta.
  destruct (printed_type _); [eauto|]. destruct (_ =? mysql_TypeEnum); [eauto|]. destruct (_ =? mysql_TypeSet); [eauto|].
  destruct (Z.eqb_spec (ft_Tp (col_Field c)) mysql_TypeBit); [done|eauto].
Qed.

Lemma generate_total columns vals : Forall formats columns -> exists cs vs, generateColumnAndValue columns vals = Ret (cs, vs).
Proof.
  induction 1 as [|c columns Hc HF (cs & vs & IH)]; [by exists [], []|]. cbn [generateColumnAndValue].
  destruct (vals !! col_ID c) as [d|]; [|eauto]. destruct (Hc d) as [d' ->]. cbn [obind]. rewrite IH. cbn [obind]. eauto.
Qed.

Definition has_default (pinfo : option TableInfo) (c : ColumnInfo) : Prop := exists d, getDefaultOrZeroValue pinfo c = Ret d.

Lemma fill_missing_spec pinfo ms : forall old new,
  Forall (has_default pinfo) ms -> NoDup (col_ID <$> ms) ->
  exists old' new', fill_missing pinfo ms old new = Ret (old', new') /\
    (forall id, id ∉ (col_ID <$> ms) -> old' !! id = old !! id /\ new' !! id = new !! id) /\
    (forall c, c ∈ ms -> exists d, getDefaultOrZeroValue pinfo c = Ret d /\ old' !! col_ID c = Some d /\ new' !! col_ID c = Some d).
Proof.
  induction ms as [|c ms IH]; intros old new Hd Hn.
  { exists old, new. split_and!; [done|done|]. intros c Hc. by apply not_elem_of_nil in Hc. }
  apply Forall_cons_iff in Hd as [[d Hcd] Hd]. cbn [fmap list_fmap] in Hn. apply list.NoDup_cons in Hn as [Hc Hn].
  cbn [fill_missing]. rewrite Hcd. cbn [obind].
  destruct (IH (<[col_ID c := d]> old) (<[col_ID c := d]> new) Hd Hn) as (old' & new' & -> & Ho & Hm).
  exists old', new'. split_and!; [done| |].
  - intros id Hid. cbn [fmap list_fmap] in Hid. apply not_elem_of_cons in Hid as [Hne Hid].
    destruct (Ho id Hid) as [-> ->]. by rewrite !lookup_insert_ne.
  - intros c' [->|Hc']%elem_of_cons; [|by apply Hm]. exists d. split; [done|]. destruct (Ho _ Hc) as [-> ->].
    by rewrite !lookup_insert_eq.
Qed.

Lemma missing_cols_NoDup cols old new : filed cols -> NoDup (col_ID <$> missing_cols cols old new).
Proof.
  intros Hf. unfold missing_cols. set (m := filter _ cols).
  assert (H : col_ID <$> (map_to_list m).*2 = (map_to_list m).*1).
  { rewrite <- list_fmap_compose. apply list_fmap_ext. intros i [id c] Hi. cbn.
    apply (list_elem_of_lookup_2 _ i), elem_of_map_to_list in Hi. apply map_lookup_filter_Some in Hi as [Hi _]. by apply Hf. }
  rewrite H. apply NoDup_fst_map_to_list.
Qed.

(** The row holds the column. *)
Definition written (us : list ucell) (c : ColumnInfo) : Prop := col_ID c ∈ (uc_id <$> us).

#[local] Instance written_dec us c : Decision (written us c).
Proof. unfold written. apply _. Defined.

Section Written.
Context (columns : list ColumnInfo) (us : list ucell).
Hypothesis Hid : NoDup (col_ID <$> columns).
Hypothesis Hn : NoDup (uc_id <$> us).
Let cols := ToColumnMap columns.


Lemma written_known c : c ∈ columns -> written us c <-> col_ID c ∈ (uc_id <$> known cols us).
Proof using Hid.
  intros Hc. assert (Hcc : cols !! col_ID c = Some c) by (by apply ToColumnMap_Some).
  unfold written. rewrite !list_elem_of_fmap. split; intros (u & Hu & Hin).
  - exists u. split; [done|]. apply list_elem_of_filter. split; [|done]. rewrite <- Hu, Hcc. by eexists.
  - exists u. split; [done|]. by apply list_elem_of_filter in Hin as [_ ?].
Qed.

Lemma row_of_written val c : c ∈ columns -> written us c -> row_of val (known cols us) !! col_ID c = Some (val (col_ID c)).
Proof using Hid Hn.
  intros Hc Hin. apply written_known in Hin; [|done]. unfold row_of. apply elem_of_list_to_map_1.
  - rewrite <- list_fmap_compose. by apply known_NoDup.
  - apply list_elem_of_fmap in Hin as (u & -> & Hu). apply list_elem_of_fmap. by exists u.
Qed.

Lemma row_of_unwritten val c : c ∈ columns -> ~ written us c -> row_of val (known cols us) !! col_ID c = None.
Proof using Hid. intros Hc Hin. apply row_of_None. by rewrite <- written_known. Qed.

Lemma missing_unwritten oldv newv c :
  c ∈ missing_cols cols (row_of oldv (known cols us)) (row_of newv (known cols us)) <-> c ∈ columns /\ ~ written us c.
Proof using Hid Hn.
  unfold missing_cols. rewrite list_elem_of_fmap. split.
  - intros ([id c'] & -> & Hin%elem_of_map_to_list). apply map_lookup_filter_Some in Hin as [Hk [Ho _]]. cbn [fst snd] in *.
    pose proof (ToColumnMap_filed _ _ _ Hk) as <-. apply ToColumnMap_Some in Hk as [Hc _]; [|done]. split; [done|]. intros Hw.
    by rewrite row_of_written in Ho.
  - intros [Hc Hw]. exists (col_ID c, c). split; [done|]. apply elem_of_map_to_list, map_lookup_filter_Some.
    split; [by apply ToColumnMap_Some|]. cbn [fst]. by rewrite !row_of_unwritten.
Qed.

Lemma missing_count oldv newv :
  length (missing_cols cols (row_of oldv (known cols us)) (row_of newv (known cols us))) = (size cols - length (known cols us))%nat.
Proof using Hn.
  rewrite missing_cols_length; [|by rewrite !row_of_dom|apply known_dom]. by rewrite row_of_size by (by apply known_NoDup).
Qed.

(** The old and the new row that are decoded from a written update. *)
Lemma written_rows can pinfo oldv newv : us <> [] ->
  Forall (decodes cols oldv newv) us -> Forall cell_ok us ->
  (forall c, c ∈ columns -> ~ written us c -> can = true /\ has_default pinfo c) ->
  exists old new, DecodeOldAndNewRow (Some (update_row EncodeID us)) cols can pinfo = Ret (old, new) /\
    forall c, c ∈ columns ->
      (written us c -> old !! col_ID c = Some (oldv (col_ID c)) /\ new !! col_ID c = Some (newv (col_ID c))) /\
      (~ written us c -> exists d, getDefaultOrZeroValue pinfo c = Ret d /\ old !! col_ID c = Some d /\ new !! col_ID c = Some d).
Proof using Hid Hn WL.
  intros Hne Hdec Hv Hdef. rewrite (update_decoded EncodeID cols oldv newv) by done. cbn zeta.
  pose proof (missing_count oldv newv) as Hlen. pose proof (missing_unwritten oldv newv) as Hmiss.
  set (old := row_of oldv (known cols us)) in *. set (new := row_of newv (known cols us)) in *.
  destruct (Nat.ltb_spec (length (known cols us)) (size cols)) as [Hlt|Hge].
  - assert (Hsome : exists c, c ∈ missing_cols cols old new).
    { destruct (missing_cols cols old new) as [|c ms]; [simpl in Hlen; lia|]. exists c. by left. }
    destruct Hsome as [c0 Hc0]. apply Hmiss in Hc0 as [Hc0 Hw0]. destruct (Hdef _ Hc0 Hw0) as [-> _].
    destruct (fill_missing_spec pinfo (missing_cols cols old new) old new) as (old' & new' & -> & Ho & Hm).
    { apply list.Forall_forall. intros c Hc. apply Hmiss in Hc as [Hc Hw]. by apply Hdef. }
    { apply missing_cols_NoDup, ToColumnMap_filed. }
    exists old', new'. split; [done|]. intros c Hc. split; [intros Hw|intros Hw; by apply Hm, Hmiss].
    destruct (Ho (col_ID c)) as [-> ->]; [|by split; apply row_of_written].
    intros (c' & Hid' & Hc')%list_elem_of_fmap. apply Hmiss in Hc' as [_ Hc']. unfold written in *. by rewrite <- Hid' in Hc'.
  - exists old, new. split; [done|]. intros c Hc. split; [intros Hw; by split; apply row_of_written|]. intros Hw. exfalso.
    assert (Hin : c ∈ missing_cols cols old new) by (by apply Hmiss).
    destruct (missing_cols cols old new); [by apply not_elem_of_nil in Hin|simpl in Hlen; lia].
Qed.
End Written.

(** C19: An update that TiDB writes is translated faithfully: for a row that holds an
    old and a new value of some columns, written in any order of the columns,
    [TiBinlogToTxn]'s DML has in its old and its new values exactly the writable columns
    of the table, those of the row with the values that were written, the others
    (added after the row was written) with their default in both. *)
Theorem update_roundtrip mi us oldv newv :
  let columns := writableColumns (mi_info mi) in
  us <> [] -> NoDup (uc_id <$> us) -> NoDup (col_ID <$> columns) -> NoDup (col_Name <$> tb_Columns (mi_info mi)) ->
  Forall formats columns ->
  Forall (decodes (ToColumnMap columns) oldv newv) us -> Forall cell_ok us ->
  (forall c, c ∈ columns -> ~ written us c -> mi_canAppend mi = true /\ has_default (mi_pinfo mi) c) ->
  exists dml, dml_of (mi, (MT_Update, update_row EncodeID us)) = Ret dml /\
    DML_Tp dml = UpdateDMLType /\ Database dml = mi_schema mi /\ Table dml = mi_table mi /\
    dom (Values dml) = list_to_set (col_Name <$> columns) /\ dom (OldValues dml) = list_to_set (col_Name <$> columns) /\
    forall c, c ∈ columns ->
      (written us c ->
        col_value (OldValues dml) c (oldv (col_ID c)) /\ col_value (Values dml) c (newv (col_ID c))) /\
      (~ written us c ->
        exists d, getDefaultOrZeroValue (mi_pinfo mi) c = Ret d /\ col_value (OldValues dml) c d /\ col_value (Values dml) c d).
Proof.
  intros columns Hne Hn Hid Hnm Hfm Hdec Hv Hdef.
  destruct (written_rows columns us Hid Hn (mi_canAppend mi) (mi_pinfo mi) oldv newv Hne Hdec Hv Hdef) as (old & new & Hrd & Hrows).
  assert (Hall : forall c, c ∈ columns -> is_Some (old !! col_ID c) /\ is_Some (new !! col_ID c)).
  { intros c Hc. destruct (Hrows c Hc) as [Hw Hm].
    destruct (decide (written us c)) as [Hin|Hin]; [destruct (Hw Hin) as [-> ->]; eauto|].
    destruct (Hm Hin) as (d & _ & -> & ->). eauto. }
  assert (Hpres : forall vals, (forall c, c ∈ columns -> is_Some (vals !! col_ID c)) -> present vals columns = columns).
  { intros vals Hvs. unfold present. apply filter_all_in. apply list.Forall_forall. exact Hvs. }
  destruct (generate_total columns old Hfm) as (csO & vsO & HO), (generate_total columns new Hfm) as (csN & vsN & HN).
  pose proof (writable_names _ Hnm) as Hwn.
  destruct (generate_assign _ _ _ _ Hwn HO) as (rowO & HaO & HdO & HvO).
  destruct (generate_assign _ _ _ _ Hwn HN) as (rowN & HaN & HdN & HvN).
  assert (csO = csN) as ->.
  { apply generateColumnAndValue_spec in HO as [-> _], HN as [-> _]. rewrite !Hpres; [done|..]; intros c Hc; by apply Hall. }
  exists (mkDML (mi_schema mi) (mi_table mi) UpdateDMLType rowO rowN no_info). split.
  { unfold dml_of. cbn [fst snd row_dml]. unfold genMysqlUpdate, decode.
    cbn [newUpdateDecoder ud_columns ud_canAppendDefaultValue ud_ptable]. fold columns. rewrite Hrd. cbn [obind].
    rewrite HO. cbn [obind]. rewrite HN. cbn [obind]. rewrite HaN. cbn [obind]. by rewrite HaO. }
  rewrite Hpres in HdO, HdN by (intros c Hc; by apply Hall). cbn. split_and!; try done.
  intros c Hc. destruct (Hrows c Hc) as [Hw Hm]. split.
  - intros Hin. destruct (Hw Hin). split; [by apply HvO|by apply HvN].
  - intros Hin. destruct (Hm Hin) as (d & Hd & Ho & Hnw). exists d. split_and!; [done|by apply HvO|by apply HvN].
Qed.

(** A column that was not written and may not be filled in is an error. *)
Lemma update_incomplete mi us oldv newv c :
  let columns := writableColumns (mi_info mi) in
  us <> [] -> NoDup (uc_id <$> us) -> NoDup (col_ID <$> columns) ->
  Forall (decodes (ToColumnMap columns) oldv newv) us -> Forall cell_ok us ->
  c ∈ columns -> ~ written us c -> mi_canAppend mi = false ->
  dml_of (mi, (MT_Update, update_row EncodeID us)) = Fail ErrCorrupted.
Proof.
  intros columns Hne Hn Hid Hdec Hv Hc Hw Hcan. unfold dml_of. cbn [fst snd row_dml]. unfold genMysqlUpdate, decode.
  cbn [newUpdateDecoder ud_columns ud_canAppendDefaultValue ud_ptable]. fold columns.
  rewrite (update_decoded EncodeID (ToColumnMap columns) oldv newv) by done. rewrite Hcan. cbn zeta.
  destruct (Nat.ltb_spec (length (known (ToColumnMap columns) us)) (size (ToColumnMap columns))) as [_|Hge]; [done|].
  exfalso. set (cols := ToColumnMap columns) in *.
  assert (Hd : dom (row_of oldv (known cols us)) = dom cols).
  { apply set_subseteq_size_eq; [apply known_dom|]. rewrite !size_dom, row_of_size by (by apply known_NoDup). lia. }
  assert (Hin : col_ID c ∈ dom cols).
  { apply elem_of_dom. exists c. by apply ToColumnMap_Some. }
  rewrite <- Hd, row_of_dom in Hin. apply elem_of_list_to_set, list_elem_of_fmap in Hin as (u & Hu & Hin).
  apply list_elem_of_filter in Hin as [_ Hin]. apply Hw. unfold written. rewrite Hu. apply list_elem_of_fmap. by exists u.
Qed.
End RoundTrip.
