(* ===== verification/TranslateSecondary.v ===== *)
(** * TranslateSecondary
    The translation of a binlog to the message for Kafka and the relay log
    ([drainer/translator/kafka.go]), and the translation of that message to a
    transaction of the loader ([pkg/loader/translate.go]). *)
From Stdlib Require Import Init.Byte Strings.Byte SpecFloat.
From stdpp Require Import base option list gmap strings.
From S2P Require Import Prelude Binlog LoaderModel Schema Datum Translator Mutation TranslateTxn.

(** ** Messages (the package [obinlog]) *)

Record Column := mkOColumn {
  IsNull_ : option bool;
  Int64Value : option Z;
  Uint64Value : option Z;
  DoubleValue : option spec_float;
  BytesValue : option (list byte);
  StringValue : option string;
}.

Definition empty_column : Column := mkOColumn None None None None None None.
Definition null_column : Column := mkOColumn (Some true) None None None None None.
Definition int64_column (z : Z) : Column := mkOColumn None (Some z) None None None None.
Definition uint64_column (z : Z) : Column := mkOColumn None None (Some z) None None None.
Definition double_column (f : spec_float) : Column := mkOColumn None None None (Some f) None None.
Definition bytes_column (b : option (list byte)) : Column := mkOColumn None None None None b None.
Definition string_column (s : string) : Column := mkOColumn None None None None None (Some s).

Record OColumnInfo := mkOColumnInfo { oc_Name : string; oc_MysqlType : string; oc_IsPrimaryKey : bool }.
Record Key := mkKey { key_Name : string; key_ColumnNames : list string }.

Inductive OMutationType := OM_Insert | OM_Update | OM_Delete.

(** The columns of a row, when there is one. *)
Record OTableMutation := mkOMutation { om_Type : OMutationType; om_Row : option (list Column); om_ChangeRow : option (list Column) }.

Record OTable := mkOTable {
  ot_SchemaName : string;
  ot_TableName : string;
  ot_ColumnInfo : list OColumnInfo;
  ot_UniqueKeys : list Key;
  ot_Mutations : list OTableMutation;
}.

Record ODDLData := mkODDL { od_SchemaName : string; od_TableName : string; od_DdlQuery : list byte }.

Inductive OBinlogType := OB_DML | OB_DDL.

Record OBinlog := mkOBinlog {
  ob_Type : OBinlogType;
  ob_CommitTs : Z;
  ob_DmlData : option (list OTable);
  ob_DdlData : option ODDLData;
}.

Section Secondary.
Context {L : Lib}.

(** [tableInfo.GetPkName] of TiDB's model: the name of the column that is the handle. *)
Context (GetPkName : TableInfo -> string).

(** ** Tables *)

Definition column_info (col : ColumnInfo) : OColumnInfo :=
  let ft := col_Field col in
  mkOColumnInfo (col_Name col) (TypeToStr (ft_Tp ft) (ft_Charset ft)) (HasPriKeyFlag (ft_Flag ft)).

(** The key of an index that is unique or primary. *)
Definition index_key (tableInfo : TableInfo) (index : IndexInfo) : option Key :=
  if negb (idx_Unique index) && negb (idx_Primary index) then None
  else if tb_PKIsHandle tableInfo && bool_decide (idx_Name index = "PRIMARY"%string) then None
  else Some (mkKey (idx_Name index) (ic_Name <$> idx_Columns index)).

Definition genTable (schema : string) (tableInfo : TableInfo) : OTable :=
  mkOTable schema (tb_Name tableInfo) (column_info <$> tb_Columns tableInfo)
    ((if tb_PKIsHandle tableInfo then [mkKey "PRIMARY" [GetPkName tableInfo]] else []) ++
     omap (index_key tableInfo) (tb_Indices tableInfo))
    [].

(** ** Columns *)

Definition mem (s : string) (l : list string) : bool := bool_decide (s ∈ l).

(** [DatumToColumn]; [log.Fatal] is a panic. *)
Definition DatumToColumn (colInfo : ColumnInfo) (datum : Datum) : outcome Column :=
  if IsNull datum then Ret null_column
  else
    let ft := col_Field colInfo in
    let tp := TypeToStr (ft_Tp ft) (ft_Charset ft) in
    if mem tp ["date"; "datetime"; "time"; "timestamp"; "year"] then Ret (string_column (Sprint datum))
    else if mem tp ["int"; "bigint"; "smallint"; "tinyint"; "mediumint"] then
      if HasUnsignedFlag (ft_Flag ft) then
        match parse_uint 64 (Sprint datum) with Ret val => Ret (uint64_column val) | _ => Panic end
      else
        match parse_int64 (Sprint datum) with Ret val => Ret (int64_column val) | _ => Panic end
    else if mem tp ["float"; "double"] then Ret (double_column (GetFloat64 datum))
    else if mem tp ["decimal"] then Ret (string_column (Sprint datum))
    else if mem tp ["bit"] then Ret (bytes_column (GetBytes datum))
    else if mem tp ["text"; "longtext"; "mediumtext"; "char"; "tinytext"; "varchar"; "var_string"] then
      Ret (string_column (GetString datum))
    else if mem tp ["blob"; "longblob"; "mediumblob"; "binary"; "tinyblob"; "varbinary"] then
      Ret (bytes_column (GetBytes datum))
    else if mem tp ["enum"] then Ret (uint64_column (GetMysqlEnum_Value datum))
    else if mem tp ["set"] then Ret (uint64_column (GetMysqlSet_Value datum))
    else if mem tp ["geometry"] then Ret (string_column (Sprint datum))
    else if mem tp ["json"] then Ret (bytes_column (Some (String.list_byte_of_string (GetMysqlJSON_String datum))))
    else Ret (string_column (Sprint datum)).

(** ** Rows *)

(** The loop of [insertRowToRow] and [deleteRowToRow]. *)
Definition full_row (ptableInfo : option TableInfo) (columns : list ColumnInfo) (columnValues : gmap Z Datum)
    : outcome (list Column) :=
  each (fun col =>
    let! val := match columnValues !! col_ID col with
                | Some val => Ret val
                | None => getDefaultOrZeroValue ptableInfo col
                end in
    DatumToColumn col val) columns.

(** [insertRowToRow]: the error of the decoding is returned after the loop. *)
Definition insertRowToRow (ptableInfo : option TableInfo) (tableInfo : TableInfo) (raw : list byte) : outcome (list Column) :=
  match insertRowToDatums tableInfo raw with
  | Ret columnValues => full_row ptableInfo (tb_Columns tableInfo) columnValues
  | Fail e => let! _ := full_row ptableInfo (tb_Columns tableInfo) ∅ in Fail e
  | Panic => Panic
  end.

Definition deleteRowToRow (ptableinfo : option TableInfo) (tableInfo : TableInfo) (raw : list byte) : outcome (list Column) :=
  let! columnValues := DecodeRowToDatumMap raw (ToColumnTypeMap (tb_Columns tableInfo)) in
  full_row ptableinfo (tb_Columns tableInfo) (default ∅ columnValues).

(** The value of a column in [updateRowToRow]: the default is computed and dropped. *)
Definition update_val (ptableinfo : option TableInfo) (col : ColumnInfo) (datums : gmap Z Datum) : outcome Datum :=
  match datums !! col_ID col with
  | Some val => Ret val
  | None => let! _ := getDefaultOrZeroValue ptableinfo col in Ret ZeroDatum
  end.

Definition updateRowToRow (ptableinfo : option TableInfo) (tableInfo : TableInfo) (raw : list byte) (canAppendDefaultValue : bool)
    : outcome (list Column * list Column) :=
  let updtDecoder := newUpdateDecoder ptableinfo tableInfo canAppendDefaultValue in
  let! (oldDatums, newDatums) := decode updtDecoder (Some raw) in
  let! cols := each (fun col =>
    let! val := update_val ptableinfo col newDatums in
    let! column := DatumToColumn col val in
    let! val := update_val ptableinfo col oldDatums in
    let! changed := DatumToColumn col val in
    Ret (column, changed)) (tb_Columns tableInfo) in
  Ret (cols.*1, cols.*2).

Definition createTableMutation (tp : MutationType) (pinfo : option TableInfo) (info : TableInfo)
    (canAppendDefaultValue : bool) (row : list byte) : outcome OTableMutation :=
  match tp with
  | MT_Insert => let! r := insertRowToRow pinfo info row in Ret (mkOMutation OM_Insert (Some r) None)
  | MT_Update => let! (r, c) := updateRowToRow pinfo info row canAppendDefaultValue in Ret (mkOMutation OM_Update (Some r) (Some c))
  | MT_DeleteRow => let! r := deleteRowToRow pinfo info row in Ret (mkOMutation OM_Delete (Some r) None)
  | _ => Fail ErrUnknownMutation
  end.

(** [nextRow]: the iterator after the call, and the mutation or an error. *)
Definition nextRow (pinfo : option TableInfo) (info : TableInfo) (canAppendDefaultValue : bool) (iter : sequenceIterator)
    : sequenceIterator * outcome OTableMutation :=
  let (iter, r) := next iter in
  (iter, let! (mutType, row) := r in createTableMutation mutType pinfo info canAppendDefaultValue row).

(** The loop over the rows: it stops at an error whose cause is [io.EOF]. *)
Fixpoint next_rows (fuel : nat) (pinfo : option TableInfo) (info : TableInfo) (canAppendDefaultValue : bool)
    (iter : sequenceIterator) : outcome (list OTableMutation) :=
  match fuel with
  | O => Panic
  | S fuel =>
    match nextRow pinfo info canAppendDefaultValue iter with
    | (_, Fail EOF) => Ret []
    | (_, Fail e) => Fail e
    | (_, Panic) => Panic
    | (iter, Ret m) => let! ms := next_rows fuel pinfo info canAppendDefaultValue iter in Ret (m :: ms)
    end
  end.

Definition with_mutations (t : OTable) (ms : list OTableMutation) : OTable :=
  mkOTable (ot_SchemaName t) (ot_TableName t) (ot_ColumnInfo t) (ot_UniqueKeys t) ms.

Definition mutation_table (g : TableInfoGetter) (schemaVersion : Z) (mut : TableMutation) : outcome OTable :=
  let! mi := lookup_table g schemaVersion mut in
  let! ms := next_rows (S (length (Sequence mut))) (mi_pinfo mi) (mi_info mi) (mi_canAppend mi) (newSequenceIterator mut) in
  Ret (with_mutations (genTable (mi_schema mi) (mi_info mi)) ms).

Definition TiBinlogToSecondaryBinlog (g : TableInfoGetter) (schema table : string) (tiBinlog : Binlog)
    (pv : Mutation.PrewriteValue) : outcome OBinlog :=
  if 0 <? DdlJobId tiBinlog then
    Ret (mkOBinlog OB_DDL (CommitTs tiBinlog) None (Some (mkODDL schema table (DdlQuery tiBinlog))))
  else
    let! tables := each (mutation_table g (pv_SchemaVersion pv)) (Mutations pv) in
    Ret (mkOBinlog OB_DML (CommitTs tiBinlog) (Some tables) None).

(** ** The loader's side *)

Definition columnToArg (mysqlType : string) (c : Column) : outcome value :=
  if default false (IsNull_ c) then Ret VNil
  else match Int64Value c with
  | Some z => Ret (VInt64 z)
  | None =>
    match Uint64Value c with
    | Some z => Ret (VUint64 z)
    | None =>
      match DoubleValue c with
      | Some f => Ret (VDouble f)
      | None =>
        match BytesValue c with
        | Some b =>
          if bool_decide (mysqlType = "json"%string) then Ret (VString (string_of b))
          else if bool_decide (mysqlType = "bit"%string) then let! val := ToInt (Some b) in Ret (VUint64 val)
          else Ret (VBytes b)
        | None => Ret (VString (default ""%string (StringValue c)))
        end
      end
    end
  end.

(** The loop of [getColVals]; a column without an info panics. *)
Fixpoint col_vals (infos : list OColumnInfo) (cols : list Column) (vals : gmap string value) : outcome (gmap string value) :=
  match cols, infos with
  | [], _ => Ret vals
  | col :: cols, ci :: infos =>
    let! arg := columnToArg (oc_MysqlType ci) col in
    col_vals infos cols (<[oc_Name ci := arg]> vals)
  | _ :: _, [] => Panic
  end.

Definition getColVals (table : OTable) (cols : list Column) : outcome (gmap string value) :=
  col_vals (ot_ColumnInfo table) cols ∅.

Definition getDMLType (mut : OTableMutation) : DMLType :=
  match om_Type mut with OM_Insert => InsertDMLType | OM_Update => UpdateDMLType | OM_Delete => DeleteDMLType end.

Definition mutation_dml (table : OTable) (mut : OTableMutation) : outcome DML :=
  let tp := getDMLType mut in
  let! vals := getColVals table (default [] (om_Row mut)) in
  let! old := if bool_decide (tp = UpdateDMLType) then getColVals table (default [] (om_ChangeRow mut)) else Ret ∅ in
  Ret (mkDML (ot_SchemaName table) (ot_TableName table) tp old vals no_info).

(** [SecondaryBinlogToTxn]; the query of a message without DDL data is empty. *)
Definition SecondaryBinlogToTxn {Meta} (binlog : OBinlog) : outcome (Txn Meta) :=
  match ob_Type binlog with
  | OB_DDL =>
    let data := default (mkODDL "" "" []) (ob_DdlData binlog) in
    Ret (mkTxn [] (Some (mkDDL (od_SchemaName data) (od_TableName data) (string_of (od_DdlQuery data)) false)) 0 None)
  | OB_DML =>
    let! dmls := each (fun table => each (mutation_dml table) (ot_Mutations table)) (default [] (ob_DmlData binlog)) in
    Ret (mkTxn (concat dmls) None 0 None)
  end.

End Secondary.
