(* ===== verification/TranslateSecondaryProofs.v ===== *)
(** * TranslateSecondaryProofs
    The relay log and Kafka carry what the direct path executes: the transaction that
    is read back from the secondary binlog has the DMLs of the transaction of
    [TiBinlogToTxn], with the same values in the writable columns. *)
From Stdlib Require Import Init.Byte Strings.Byte SpecFloat.
From stdpp Require Import base option list gmap strings.
From S2P Require Import Prelude Binlog LoaderModel Schema Datum Translator TranslatorProofs Mutation TranslateTxn TranslateTxnProofs TranslateSecondary.

Section Agreement.
Context {L : Lib} {DL : DatumLaws L} (GetPkName : TableInfo -> string).

(** ** Values *)

Definition type_name (c : ColumnInfo) : string := TypeToStr (ft_Tp (col_Field c)) (ft_Charset (col_Field c)).
Definition type_code (c : ColumnInfo) : Z := ft_Tp (col_Field c).
Definition unsigned (c : ColumnInfo) : bool := HasUnsignedFlag (ft_Flag (col_Field c)).

(** The codes that [formatData] converts. *)
Definition converted (tp : Z) : bool :=
  printed_type tp || (tp =? mysql_TypeEnum) || (tp =? mysql_TypeSet) || (tp =? mysql_TypeBit).

(** The datum is one of the column's type, and [v] the argument for it.  Single
    precision numbers and years are not among them: the message holds a double
    and a text for them. *)
Inductive typed (c : ColumnInfo) (d : Datum) : value -> Prop :=
  | ty_null : GetValue d = VNil -> typed c d VNil
  | ty_printed : GetValue d <> VNil -> printed_type (type_code c) = true ->
      type_name c ∈ ["date"; "datetime"; "time"; "timestamp"; "decimal"] -> typed c d (VString (Sprint d))
  | ty_json : GetValue d <> VNil -> type_code c = mysql_TypeJSON -> type_name c = "json"%string ->
      GetMysqlJSON_String d = Sprint d -> typed c d (VString (Sprint d))
  | ty_int z : GetValue d = VInt64 z -> in_i64 z -> Sprint d = itoa z -> unsigned c = false ->
      converted (type_code c) = false ->
      type_name c ∈ ["int"; "bigint"; "smallint"; "tinyint"; "mediumint"] -> typed c d (VInt64 z)
  | ty_uint z : GetValue d = VUint64 z -> in_u64 z -> Sprint d = dec z -> unsigned c = true ->
      converted (type_code c) = false ->
      type_name c ∈ ["int"; "bigint"; "smallint"; "tinyint"; "mediumint"] -> typed c d (VUint64 z)
  | ty_double f : GetValue d = VDouble f -> GetFloat64 d = f -> converted (type_code c) = false ->
      type_name c = "double"%string -> typed c d (VDouble f)
  | ty_text s : GetValue d = VString s -> GetString d = s -> converted (type_code c) = false ->
      type_name c ∈ ["text"; "longtext"; "mediumtext"; "char"; "tinytext"; "varchar"; "var_string"] -> typed c d (VString s)
  | ty_blob b : GetValue d = VBytes b -> GetBytes d = Some b -> converted (type_code c) = false ->
      type_name c ∈ ["blob"; "longblob"; "mediumblob"; "binary"; "tinyblob"; "varbinary"] -> typed c d (VBytes b)
  | ty_enum : GetValue d <> VNil -> type_code c = mysql_TypeEnum -> type_name c = "enum"%string ->
      typed c d (VUint64 (GetMysqlEnum_Value d))
  | ty_set : GetValue d <> VNil -> type_code c = mysql_TypeSet -> type_name c = "set"%string ->
      typed c d (VUint64 (GetMysqlSet_Value d))
  | ty_bit b n : GetValue d <> VNil -> type_code c = mysql_TypeBit -> type_name c = "bit"%string ->
      GetBytes d = Some b -> GetBinaryLiteral d = Some b -> ToInt (Some b) = Ret n -> typed c d (VUint64 n).

Lemma is_nil_false v : v <> VNil -> is_nil v = false.
Proof. by destruct v. Qed.

Lemma formatData_plain d ft : converted (ft_Tp ft) = false -> formatData d ft = Ret d.
Proof.
  unfold converted, formatData. rewrite !orb_false_iff. intros [[[-> ->] ->] ->]. cbn zeta. by destruct (is_nil _).
Qed.

(** The direct path passes the argument of the datum. *)
Lemma typed_direct c d v : typed c d v -> arg_of c d v.
Proof using DL.
  unfold arg_of. intros [H|H Hp _|H Ht _ _|z H _ _ _ Hc _|z H _ _ _ Hc _|f H _ Hc _|s H _ Hc _|b H _ Hc _|H Ht _|H Ht _|b n H Ht _ _ Hb Hn].
  all: try (rewrite formatData_plain by done; eexists; by rewrite H).
  { exists d. unfold formatData. by rewrite H. }
  all: unfold formatData, type_code in *; rewrite (is_nil_false _ H); cbn zeta.
  { eexists. rewrite Hp. by rewrite GetValue_NewDatum. }
  all: rewrite Ht; cbn; rewrite ?Hb, ?Hn; cbn; eexists; by rewrite GetValue_NewDatum.
Qed.

Lemma string_of_list_byte_of s : string_of (String.list_byte_of_string s) = s.
Proof. apply String.string_of_list_byte_of_string. Qed.

(** A type name among those of a list, by evaluation for each of them. *)
Ltac by_name H :=
  repeat (apply elem_of_cons in H as [->|H]; [eexists; split; [reflexivity|reflexivity]|]);
  by apply not_elem_of_nil in H.

(** The message carries it. *)
Lemma typed_message c d v : typed c d v ->
  exists col, DatumToColumn c d = Ret col /\ columnToArg (type_name c) col = Ret v.
Proof using DL.
  intros H. unfold DatumToColumn. rewrite IsNull_GetValue. fold (type_name c) (unsigned c).
  destruct H as [H|H _ Hin|H _ Hn Hj|z H Hz Hs Hu _ Hin|z H Hz Hs Hu _ Hin|f H Hf _ Hn|s H Hs _ Hin|b H Hb _ Hin|H _ Hn|H _ Hn|b n H _ Hn Hb _ Hi].
  - rewrite H. eexists. split; [done|]. done.
  - rewrite (is_nil_false _ H). cbn zeta.
    by_name Hin.
  - rewrite (is_nil_false _ H), Hn. cbn. eexists. split; [done|]. cbn. by rewrite string_of_list_byte_of, Hj.
  - rewrite H, Hs, Hu, (parse_int64_itoa z Hz). cbn [is_nil]. cbn zeta.
    by_name Hin.
  - assert (Hp : parse_uint 64 (dec z) = Ret z) by (apply (parse_uint_pad0 64 0); [exact Hz|lia]).
    rewrite H, Hs, Hu, Hp. cbn [is_nil]. cbn zeta.
    by_name Hin.
  - rewrite H, Hn, Hf. cbn. eexists. split; done.
  - rewrite H, Hs. cbn [is_nil]. cbn zeta.
    by_name Hin.
  - rewrite H, Hb. cbn [is_nil]. cbn zeta.
    by_name Hin.
  - rewrite (is_nil_false _ H), Hn. cbn. eexists. split; done.
  - rewrite (is_nil_false _ H), Hn. cbn. eexists. split; done.
  - rewrite (is_nil_false _ H), Hn, Hb. cbn. eexists. split; [done|]. cbn. by rewrite Hi.
Qed.

Lemma arg_of_functional c d v w : arg_of c d v -> arg_of c d w -> v = w.
Proof. intros (d1 & H1 & ->) (d2 & H2 & ->). congruence. Qed.

(** ** Rows by column name *)

(** The row holds exactly the columns, each with a value that [R] relates to it. *)
Definition row_spec (R : ColumnInfo -> value -> Prop) (cs : list ColumnInfo) (r : gmap string value) : Prop :=
  dom r = list_to_set (col_Name <$> cs) /\ forall c, c ∈ cs -> exists v, R c v /\ r !! col_Name c = Some v.

Lemma row_spec_subset R cs1 cs2 r1 r2 : (forall c v w, R c v -> R c w -> v = w) ->
  cs1 ⊆ cs2 -> row_spec R cs1 r1 -> row_spec R cs2 r2 -> r1 ⊆ r2.
Proof.
  intros Hf Hsub [Hd1 Hv1] [Hd2 Hv2]. apply map_subseteq_spec. intros n v Hn.
  assert (Hin : n ∈ dom r1) by (by eapply elem_of_dom_2). rewrite Hd1 in Hin.
  apply elem_of_list_to_set, list_elem_of_fmap in Hin as (c & -> & Hc).
  destruct (Hv1 c Hc) as (v1 & HR1 & H1), (Hv2 c (Hsub _ Hc)) as (v2 & HR2 & H2).
  rewrite H1 in Hn. injection Hn as <-. by rewrite H2, (Hf _ _ _ HR1 HR2).
Qed.

Lemma assign_row_spec R cs vs : NoDup (col_Name <$> cs) -> Forall2 R cs vs ->
  exists r, assign (col_Name <$> cs) vs ∅ = Ret r /\ row_spec R cs r.
Proof using.
  clear dependent L. intros Hn HF. assert (Hl : length (col_Name <$> cs) = length vs) by (rewrite length_fmap; by eapply Forall2_length).
  rewrite assign_total by done. destruct (assign_fold _ vs ∅ Hn Hl) as (Hd & _ & Hi). eexists. split; [done|].
  split; [cbn in Hd |- *; rewrite Hd; set_solver|]. intros c Hc. apply list_elem_of_lookup in Hc as [i Hc].
  destruct (Forall2_lookup_l _ _ _ _ _ HF Hc) as (v & Hv & HR). exists v. split; [done|].
  apply (Hi i); [|done]. by rewrite list_lookup_fmap, Hc.
Qed.

Lemma col_vals_assign cs cols vs : Forall2 (fun c cv => columnToArg (type_name c) (fst cv) = Ret (snd cv)) cs (zip cols vs) ->
  length cols = length vs -> forall m, col_vals (column_info <$> cs) cols m = assign (col_Name <$> cs) vs m.
Proof.
  revert cols vs. induction cs as [|c cs IH]; intros [|col cols] [|v vs] HF Hl m; try done; try (by inversion HF).
  inversion HF as [|? ? ? ? Hc HF']; subst. cbn [fmap list_fmap col_vals column_info oc_MysqlType oc_Name assign].
  cbn [fst snd] in Hc. unfold type_name in Hc. rewrite Hc. cbn [obind]. apply IH; [done|]. simpl in Hl. lia.
Qed.

(** Columns that are written by [f] and read by [getColVals]. *)
Lemma message_row R (f : ColumnInfo -> outcome Column) schema info :
  NoDup (col_Name <$> tb_Columns info) ->
  (forall c, c ∈ tb_Columns info -> exists col v, f c = Ret col /\ columnToArg (type_name c) col = Ret v /\ R c v) ->
  exists cols r, each f (tb_Columns info) = Ret cols /\
    getColVals (genTable GetPkName schema info) cols = Ret r /\ row_spec R (tb_Columns info) r.
Proof.
  intros Hn Hf. unfold getColVals, genTable. cbn [ot_ColumnInfo].
  assert (Hex : exists cols vs, Forall2 (fun c col => f c = Ret col) (tb_Columns info) cols /\ length cols = length vs /\
    Forall2 (fun c cv => columnToArg (type_name c) (fst cv) = Ret (snd cv)) (tb_Columns info) (zip cols vs) /\
    Forall2 R (tb_Columns info) vs).
  { clear Hn. induction (tb_Columns info) as [|c cs IH]; [exists [], []; split_and!; constructor|].
    destruct (Hf c) as (col & v & Hc & Hv & HR); [by left|].
    destruct IH as (cols & vs & H1 & H2 & H3 & H4); [intros c' Hc'; apply Hf; by right|].
    exists (col :: cols), (v :: vs). split_and!; [by constructor|simpl; lia|by constructor|by constructor]. }
  destruct Hex as (cols & vs & H1 & H2 & H3 & H4). exists cols.
  destruct (assign_row_spec R _ vs Hn H4) as (r & Ha & Hr). exists r. split_and!; [by apply each_Ret| |done].
  by rewrite (col_vals_assign _ _ vs).
Qed.

Lemma each_pair {A B C} (f : A -> outcome B) (h : A -> outcome C) l bs cs : each f l = Ret bs -> each h l = Ret cs ->
  each (fun x => let! b := f x in let! c := h x in Ret (b, c)) l = Ret (zip bs cs).
Proof.
  rewrite !each_Ret. intros H1. revert cs. induction H1 as [|x b l bs Hb H1 IH]; intros cs H2; inversion H2; subst; [constructor|].
  constructor; [by rewrite Hb; cbn [obind]; match goal with H : h x = _ |- _ => rewrite H end|by apply IH].
Qed.

(** ** Events *)

Context (Hzero : GetValue ZeroDatum = VNil).

(** The data of the row, and the defaults of the columns it does not hold, are of the
    types of the columns. *)
Definition full_typed (pinfo : option TableInfo) (columns : list ColumnInfo) (datums : gmap Z Datum) : Prop :=
  forall c, c ∈ columns -> exists d v, insert_datum pinfo datums c d /\ typed c d v.

Definition held_typed (columns : list ColumnInfo) (datums : gmap Z Datum) : Prop :=
  forall c d, c ∈ columns -> datums !! col_ID c = Some d -> exists v, typed c d v.

Definition event_typed (mi : mut_info) (ev : event) : Prop :=
  let info := mi_info mi in
  match fst ev with
  | MT_Insert => exists datums, insertRowToDatums info (snd ev) = Ret datums /\ full_typed (mi_pinfo mi) (tb_Columns info) datums
  | MT_Update => exists old new,
      DecodeOldAndNewRow (Some (snd ev)) (ToColumnMap (writableColumns info)) (mi_canAppend mi) (mi_pinfo mi) = Ret (old, new) /\
      held_typed (tb_Columns info) old /\ held_typed (tb_Columns info) new /\ Forall (has_default (mi_pinfo mi)) (tb_Columns info)
  | MT_DeleteRow => exists datums, DecodeRowToDatumMap (snd ev) (ToColumnTypeMap (tb_Columns info)) = Ret datums /\
      full_typed (mi_pinfo mi) (tb_Columns info) (default ∅ datums)
  | _ => False
  end.

(** A DML that holds the other one. *)
Record same_dml (d d' : DML) : Prop := {
  sd_Database : Database d = Database d';
  sd_Table : Table d = Table d';
  sd_Tp : DML_Tp d = DML_Tp d';
  sd_Values : Values d ⊆ Values d';
  sd_OldValues : OldValues d ⊆ OldValues d';
}.

(** The argument of a column, with the default when the row does not hold it. *)
Definition full_arg pinfo datums c v : Prop := exists d, insert_datum pinfo datums c d /\ arg_of c d v.

(** The argument of a column, NULL when the row does not hold it. *)
Definition held_arg (datums : gmap Z Datum) c v : Prop :=
  match datums !! col_ID c with Some d => arg_of c d v | None => v = VNil end.

Lemma full_arg_functional pinfo datums c v w : full_arg pinfo datums c v -> full_arg pinfo datums c w -> v = w.
Proof.
  intros (d & Hd & Hv) (d' & Hd' & Hw). assert (d = d') as <- by (destruct Hd as [?|[? ?]], Hd' as [?|[? ?]]; congruence).
  by eapply arg_of_functional.
Qed.

Lemma held_arg_functional datums c v w : held_arg datums c v -> held_arg datums c w -> v = w.
Proof. unfold held_arg. destruct (datums !! col_ID c); [apply arg_of_functional|]. by intros -> ->. Qed.

Lemma writable_subset info : writableColumns info ⊆ tb_Columns info.
Proof. intros c Hc. by apply list_elem_of_filter in Hc as [_ ?]. Qed.

Lemma full_row_message pinfo schema info datums : NoDup (col_Name <$> tb_Columns info) ->
  full_typed pinfo (tb_Columns info) datums ->
  exists cols r, full_row pinfo (tb_Columns info) datums = Ret cols /\
    getColVals (genTable GetPkName schema info) cols = Ret r /\ row_spec (full_arg pinfo datums) (tb_Columns info) r.
Proof using DL.
  intros Hn Ht. apply message_row; [done|]. intros c Hc. destruct (Ht c Hc) as (d & v & Hd & Hty).
  destruct (typed_message _ _ _ Hty) as (col & H1 & H2). exists col, v. split_and!; [|done|exists d; split; [done|by apply typed_direct]].
  destruct Hd as [->|[-> ->]]; done.
Qed.

Lemma held_row_message pinfo schema info datums : NoDup (col_Name <$> tb_Columns info) ->
  held_typed (tb_Columns info) datums -> Forall (has_default pinfo) (tb_Columns info) ->
  exists cols r, each (fun col => let! val := update_val pinfo col datums in DatumToColumn col val) (tb_Columns info) = Ret cols /\
    getColVals (genTable GetPkName schema info) cols = Ret r /\ row_spec (held_arg datums) (tb_Columns info) r.
Proof using DL Hzero.
  intros Hn Ht Hd. apply message_row; [done|]. intros c Hc. unfold update_val, held_arg.
  destruct (datums !! col_ID c) as [d|] eqn:E.
  - destruct (Ht c d Hc E) as (v & Hty). destruct (typed_message _ _ _ Hty) as (col & H1 & H2). exists col, v.
    split_and!; [done|done|by apply typed_direct].
  - destruct (proj1 (list.Forall_forall _ _) Hd c Hc) as [d ->]. cbn [obind].
    destruct (typed_message c ZeroDatum VNil) as (col & H1 & H2); [by constructor|]. exists col, VNil. done.
Qed.

Lemma insert_args_full pinfo columns datums : full_typed pinfo columns datums ->
  exists vs, insert_args pinfo columns datums = Ret (col_Name <$> columns, vs) /\ Forall2 (full_arg pinfo datums) columns vs.
Proof using DL.
  induction columns as [|c cs IH]; intros Ht; [exists []; split; [done|constructor]|].
  destruct IH as (vs & Hi & HF); [intros c' Hc'; apply Ht; by right|]. destruct (Ht c) as (d & v & Hd & Hty); [by left|].
  destruct (typed_direct _ _ _ Hty) as (d' & Hf & ->). exists (GetValue d' :: vs). cbn [insert_args]. split.
  - assert (Hval : (match datums !! col_ID c with Some val => Ret val | None => getDefaultOrZeroValue pinfo c end) = Ret d)
      by (by destruct Hd as [->|[-> ->]]).
    rewrite Hval. cbn [obind]. rewrite Hf. cbn [obind]. rewrite Hi. done.
  - constructor; [|done]. exists d. split; [done|]. by exists d'.
Qed.

Lemma generate_held columns datums : held_typed columns datums ->
  exists vs, generateColumnAndValue columns datums = Ret (present datums columns, vs) /\
    Forall2 (held_arg datums) (present datums columns) vs.
Proof using DL.
  unfold present. induction columns as [|c cs IH]; intros Ht; [exists []; split; [done|constructor]|].
  destruct IH as (vs & Hg & HF); [intros c' d Hc'; apply Ht; by right|]. cbn [generateColumnAndValue]. rewrite filter_cons.
  destruct (datums !! col_ID c) as [d|] eqn:E; [|rewrite decide_False by (by intros [? ?]); by exists vs].
  destruct (Ht c d) as (v & Hty); [by left|done|]. destruct (typed_direct _ _ _ Hty) as (d' & Hf & ->).
  rewrite decide_True by eauto. exists (GetValue d' :: vs). rewrite Hf. cbn [obind]. rewrite Hg. split; [done|].
  constructor; [|done]. unfold held_arg. rewrite E. by exists d'.
Qed.

(** The row of the direct path is in the row of the message. *)
Lemma held_subset columns info datums vs r' : NoDup (col_Name <$> columns) -> columns ⊆ tb_Columns info ->
  Forall2 (held_arg datums) (present datums columns) vs -> row_spec (held_arg datums) (tb_Columns info) r' ->
  exists r, assign (genColumnNameList (present datums columns)) vs ∅ = Ret r /\ r ⊆ r'.
Proof.
  intros Hn Hsub HF Hr'. destruct (assign_row_spec _ _ _ (present_names datums _ Hn) HF) as (r & Ha & Hr). exists r. split; [done|].
  eapply row_spec_subset; [apply held_arg_functional| |exact Hr|exact Hr'].
  intros c Hc. apply list_elem_of_filter in Hc as [_ Hc]. by apply Hsub.
Qed.

Lemma full_held pinfo columns datums : full_typed pinfo columns datums -> held_typed columns datums.
Proof.
  intros Ht c d Hc Hd. destruct (Ht c Hc) as (d' & v & Hd' & Hty). exists v.
  destruct Hd' as [Hd'|[Hd' _]]; [|congruence]. by rewrite Hd in Hd'; injection Hd' as ->.
Qed.

Lemma held_full pinfo columns datums vs : Forall2 (held_arg datums) (present datums columns) vs ->
  Forall2 (full_arg pinfo datums) (present datums columns) vs.
Proof.
  rewrite !Forall2_same_length_lookup. intros [Hl HF]. split; [done|]. intros i c v Hc Hv. pose proof (HF _ _ _ Hc Hv) as Ha.
  apply list_elem_of_lookup_2, list_elem_of_filter in Hc as [[d Hd] _]. clear Hv. rename Ha into Hv. exists d. unfold held_arg in Hv. rewrite Hd in Hv. split; [by left|done].
Qed.

(** The DML that is read back from the message of an event. *)
Definition message_dml (me : mut_info * event) : outcome DML :=
  let mi := fst me in
  let! m := createTableMutation (fst (snd me)) (mi_pinfo mi) (mi_info mi) (mi_canAppend mi) (snd (snd me)) in
  mutation_dml (genTable GetPkName (mi_schema mi) (mi_info mi)) m.

Lemma insert_agrees mi row : NoDup (col_Name <$> tb_Columns (mi_info mi)) -> mi_table mi = tb_Name (mi_info mi) ->
  event_typed mi (MT_Insert, row) ->
  exists d d', dml_of (mi, (MT_Insert, row)) = Ret d /\ message_dml (mi, (MT_Insert, row)) = Ret d' /\ same_dml d d'.
Proof using DL.
  intros Hn Htn (datums & Hr & Ht). cbn [snd fst] in *.
  destruct (full_row_message _ (mi_schema mi) (mi_info mi) datums Hn Ht) as (cols & r' & Hc & Hg & Hs').
  assert (Htw : full_typed (mi_pinfo mi) (writableColumns (mi_info mi)) datums) by (intros c Hcw; apply Ht; by apply writable_subset).
  destruct (insert_args_full _ _ _ Htw) as (vs & Hi & HF).
  destruct (assign_row_spec _ _ _ (writable_names _ Hn) HF) as (r & Ha & Hs).
  exists (mkDML (mi_schema mi) (mi_table mi) InsertDMLType ∅ r no_info), (mkDML (mi_schema mi) (tb_Name (mi_info mi)) InsertDMLType ∅ r' no_info).
  split_and!.
  - unfold dml_of. cbn [fst snd row_dml]. unfold genMysqlInsert. rewrite Hr. cbn [obind]. rewrite Hi. cbn [obind]. by rewrite Ha.
  - unfold message_dml. cbn [fst snd createTableMutation]. unfold insertRowToRow. rewrite Hr, Hc. cbn [obind].
    unfold mutation_dml. cbn [om_Row from_option id]. by rewrite Hg.
  - split; cbn; [done|done|done| |done].
    eapply row_spec_subset; [apply full_arg_functional|apply writable_subset|exact Hs|exact Hs'].
Qed.

Lemma delete_agrees mi row : NoDup (col_Name <$> tb_Columns (mi_info mi)) -> mi_table mi = tb_Name (mi_info mi) ->
  event_typed mi (MT_DeleteRow, row) ->
  exists d d', dml_of (mi, (MT_DeleteRow, row)) = Ret d /\ message_dml (mi, (MT_DeleteRow, row)) = Ret d' /\ same_dml d d'.
Proof using DL.
  intros Hn Htn (datums & Hr & Ht). cbn [snd fst] in *.
  destruct (full_row_message _ (mi_schema mi) (mi_info mi) _ Hn Ht) as (cols & r' & Hc & Hg & Hs').
  destruct (generate_held _ _ (full_held _ _ _ Ht)) as (vs & Hgen & HF).
  destruct (assign_row_spec _ _ _ (present_names _ _ Hn) (held_full (mi_pinfo mi) _ _ _ HF)) as (r & Ha & Hs).
  exists (mkDML (mi_schema mi) (mi_table mi) DeleteDMLType ∅ r no_info), (mkDML (mi_schema mi) (tb_Name (mi_info mi)) DeleteDMLType ∅ r' no_info).
  split_and!.
  - unfold dml_of. cbn [fst snd row_dml]. unfold genMysqlDelete. rewrite Hr. cbn [obind]. rewrite Hgen. cbn [obind].
    unfold genColumnNameList. by rewrite Ha.
  - unfold message_dml. cbn [fst snd createTableMutation]. unfold deleteRowToRow. rewrite Hr. cbn [obind]. rewrite Hc. cbn [obind].
    unfold mutation_dml. cbn [om_Row from_option id]. by rewrite Hg.
  - split; cbn; [done|done|done| |done].
    eapply row_spec_subset; [apply full_arg_functional| |exact Hs|exact Hs'].
    intros c Hin. by apply list_elem_of_filter in Hin as [_ ?].
Qed.

Lemma update_agrees mi row : NoDup (col_Name <$> tb_Columns (mi_info mi)) -> mi_table mi = tb_Name (mi_info mi) ->
  event_typed mi (MT_Update, row) ->
  exists d d', dml_of (mi, (MT_Update, row)) = Ret d /\ message_dml (mi, (MT_Update, row)) = Ret d' /\ same_dml d d'.
Proof using DL Hzero.
  intros Hn Htn (old & new & Hr & Ho & Hw & Hdef). cbn [snd fst] in *.
  destruct (held_row_message _ (mi_schema mi) (mi_info mi) old Hn Ho Hdef) as (chg & rO' & HcO & HgO & HsO).
  destruct (held_row_message _ (mi_schema mi) (mi_info mi) new Hn Hw Hdef) as (cols & rN' & HcN & HgN & HsN).
  assert (Hsub : forall m, held_typed (tb_Columns (mi_info mi)) m -> held_typed (writableColumns (mi_info mi)) m)
    by (intros m Hm c d Hc; apply Hm; by apply writable_subset).
  destruct (generate_held _ _ (Hsub _ Ho)) as (vsO & HgenO & HFO), (generate_held _ _ (Hsub _ Hw)) as (vsN & HgenN & HFN).
  pose proof (writable_names _ Hn) as Hnw.
  destruct (held_subset _ (mi_info mi) _ _ _ Hnw (writable_subset _) HFO HsO) as (rO & HaO & HrO).
  destruct (held_subset _ (mi_info mi) _ _ _ Hnw (writable_subset _) HFN HsN) as (rN & HaN & HrN).
  pose proof (DecodeOldAndNewRow_dom _ _ _ _ _ _ (ToColumnMap_filed _) Hr) as [Hsame _].
  rewrite (present_same old new) in HaO by done.
  exists (mkDML (mi_schema mi) (mi_table mi) UpdateDMLType rO rN no_info), (mkDML (mi_schema mi) (tb_Name (mi_info mi)) UpdateDMLType rO' rN' no_info).
  split_and!; [| |by split].
  - unfold dml_of. cbn [fst snd row_dml]. unfold genMysqlUpdate, decode.
    cbn [newUpdateDecoder ud_columns ud_canAppendDefaultValue ud_ptable]. rewrite Hr. cbn [obind].
    rewrite HgenO. cbn [obind]. rewrite HgenN. cbn [obind]. rewrite HaN. cbn [obind]. by rewrite HaO.
  - unfold message_dml. cbn [fst snd createTableMutation]. unfold updateRowToRow, decode.
    cbn [newUpdateDecoder ud_columns ud_canAppendDefaultValue ud_ptable]. rewrite Hr. cbn [obind].
    assert (Hp : each (fun col => let! val := update_val (mi_pinfo mi) col new in let! column := DatumToColumn col val in
        let! val := update_val (mi_pinfo mi) col old in let! changed := DatumToColumn col val in Ret (column, changed)) (tb_Columns (mi_info mi))
      = Ret (zip cols chg)).
    { rewrite <- (each_pair _ _ _ _ _ HcN HcO). apply each_ext. intros c. destruct (update_val _ c new); [|done..]. cbn [obind].
      destruct (DatumToColumn c a); [|done..]. cbn [obind]. by destruct (update_val _ c old). }
    rewrite Hp. cbn [obind]. apply each_Ret in HcN, HcO.
    pose proof (Forall2_length _ _ _ HcN) as HlN. pose proof (Forall2_length _ _ _ HcO) as HlO.
    rewrite fst_zip, snd_zip by lia. unfold mutation_dml. cbn [om_Row om_ChangeRow from_option id]. rewrite HgN. cbn [obind].
    rewrite bool_decide_eq_true_2 by done. by rewrite HgO.
Qed.

(** ** Transactions *)

Definition event_ok (me : mut_info * event) : Prop :=
  NoDup (col_Name <$> tb_Columns (mi_info (fst me))) /\ mi_table (fst me) = tb_Name (mi_info (fst me)) /\
  event_typed (fst me) (snd me).

Lemma event_agrees me : event_ok me -> exists d d', dml_of me = Ret d /\ message_dml me = Ret d' /\ same_dml d d'.
Proof using DL Hzero.
  destruct me as [mi [tp row]]. intros (Hn & Ht & He). cbn [fst snd] in *.
  destruct tp; [by apply insert_agrees|by apply update_agrees|done|done|by apply delete_agrees].
Qed.

Lemma next_rows_drain pinfo info can fuel : forall si evs ms, drain fuel si = Ret evs ->
  each (fun ev => createTableMutation (fst ev) pinfo info can (snd ev)) evs = Ret ms ->
  next_rows fuel pinfo info can si = Ret ms.
Proof.
  induction fuel as [|fuel IH]; intros si evs ms; [done|]. cbn [drain next_rows]. unfold nextRow.
  destruct (next si) as [si' [[tp row]|e|]]; [|destruct e; [by intros [= <-] [= <-]|done..]|done].
  intros (evs' & Hd & [= <-])%obind_Ret_inv. cbn [each fst snd]. intros (m & Hm & H)%obind_Ret_inv.
  apply obind_Ret_inv in H as (ms' & Hms & [= <-]). cbn [obind]. rewrite Hm. by rewrite (IH _ _ _ Hd Hms).
Qed.

(** The DMLs of the rows of a mutation, on both paths. *)
Lemma rows_agree mi evs : Forall (fun ev => event_ok (mi, ev)) evs ->
  exists ds ms ds', each (fun ev => dml_of (mi, ev)) evs = Ret ds /\
    each (fun ev => createTableMutation (fst ev) (mi_pinfo mi) (mi_info mi) (mi_canAppend mi) (snd ev)) evs = Ret ms /\
    each (mutation_dml (genTable GetPkName (mi_schema mi) (mi_info mi))) ms = Ret ds' /\ Forall2 same_dml ds ds'.
Proof using DL Hzero.
  induction 1 as [|ev evs He _ (ds & ms & ds' & H1 & H2 & H3 & H4)]; [exists [], [], []; split_and!; constructor|].
  destruct (event_agrees _ He) as (d & d' & Hd & Hd' & Hs). unfold message_dml in Hd'. cbn [fst snd] in Hd'.
  apply obind_Ret_inv in Hd' as (m & Hm & Hd'). exists (d :: ds), (m :: ms), (d' :: ds'). cbn [each].
  rewrite Hd, H1, Hm, H2, Hd', H3. split_and!; try done. by constructor.
Qed.

Lemma mutation_dml_with_mutations t ms m : mutation_dml (with_mutations t ms) m = mutation_dml t m.
Proof. done. Qed.

(** C17: The relay log carries the transaction: for a DML binlog whose rows hold data of
    the types of their columns, the direct translation, the translation to the secondary
    binlog and the reading of that message all succeed, and the DMLs read back are
    those of the direct path, one for one: same database, table and kind, and every
    value that the direct path writes, in the new and in the old row. *)
Theorem relay_agrees {Meta} g schema table b pv skip mes :
  DdlJobId b <= 0 -> txn_events g (pv_SchemaVersion pv) (Mutations pv) mes -> Forall event_ok mes ->
  exists (txn : Txn Meta) ob (txn' : Txn Meta),
    TiBinlogToTxn g schema table b pv skip = Ret txn /\
    TiBinlogToSecondaryBinlog GetPkName g schema table b pv = Ret ob /\
    SecondaryBinlogToTxn ob = Ret txn' /\
    ob_CommitTs ob = CommitTs b /\ Txn_DDL txn' = None /\ Forall2 same_dml (DMLs txn) (DMLs txn').
Proof using DL Hzero.
  intros Hd Ht Hok. unfold TiBinlogToTxn, TiBinlogToSecondaryBinlog. destruct (Z.ltb_spec 0 (DdlJobId b)); [lia|].
  assert (Hall : exists ds tables dss, mutations_dmls g (pv_SchemaVersion pv) (Mutations pv) = Ret ds /\
    each (mutation_table GetPkName g (pv_SchemaVersion pv)) (Mutations pv) = Ret tables /\
    each (fun table => each (mutation_dml table) (ot_Mutations table)) tables = Ret dss /\ Forall2 same_dml ds (concat dss)).
  { induction Ht as [|mut muts mi evs rest Hl He Ht IH]; [exists [], [], []; split_and!; constructor|].
    apply Forall_app in Hok as [Hok1 Hok2]. rewrite Forall_fmap in Hok1.
    destruct (IH Hok2) as (ds & tables & dss & H1 & H2 & H3 & H4).
    destruct (rows_agree mi evs Hok1) as (ds1 & ms & ds1' & R1 & R2 & R3 & R4).
    exists (ds1 ++ ds), (with_mutations (genTable GetPkName (mi_schema mi) (mi_info mi)) ms :: tables), (ds1' :: dss).
    split_and!.
    - cbn [mutations_dmls]. rewrite Hl. cbn [obind]. rewrite (rows_of_events _ _ _ He).
      change (each (fun ev => dml_of (mi, ev)) evs) with (each (row_dml (mi_schema mi) (mi_table mi) (mi_pinfo mi) (mi_info mi) (mi_canAppend mi)) evs) in R1.
      by rewrite R1, H1.
    - cbn [each]. unfold mutation_table at 1. rewrite Hl. cbn [obind].
      rewrite (next_rows_drain _ _ _ _ _ _ _ (drain_all _ _ He) R2). cbn [obind]. by rewrite H2.
    - cbn [each ot_Mutations with_mutations]. rewrite (each_ext _ _ ms (mutation_dml_with_mutations _ ms)), R3. cbn [obind]. by rewrite H3.
    - simpl. by apply Forall2_app. }
  destruct Hall as (ds & tables & dss & H1 & H2 & H3 & H4). rewrite H1, H2. cbn [obind].
  do 3 eexists. split_and!; [done|done| |done| |].
  - unfold SecondaryBinlogToTxn. cbn [ob_Type ob_DmlData from_option id]. rewrite H3. done.
  - done.
  - done.
Qed.

End Agreement.

(** ** What the message does not carry *)
Section Differences.
Context {L : Lib} (GetPkName : TableInfo -> string).

(** A DDL that is marked to be skipped is written to the relay log like any other:
    read back, it is a DDL to execute.  Replaying the log after a crash therefore
    executes statements that the direct path skips. *)
Theorem relay_forgets_skip {Meta} g schema table b pv :
  0 < DdlJobId b ->
  let ddl := mkDDL schema table (string_of (DdlQuery b)) in
  TiBinlogToTxn g schema table b pv true = Ret (mkTxn [] (Some (ddl true)) 0 None : Txn Meta) /\
  exists ob, TiBinlogToSecondaryBinlog GetPkName g schema table b pv = Ret ob /\
    SecondaryBinlogToTxn ob = Ret (mkTxn [] (Some (ddl false)) 0 None : Txn Meta).
Proof.
  intros Hd. unfold TiBinlogToTxn, TiBinlogToSecondaryBinlog. destruct (Z.ltb_spec 0 (DdlJobId b)); [|lia].
  split; [done|]. eexists. split; done.
Qed.

(** The default of a column that an update does not hold is dropped: the message of
    an update has NULL in the old and the new row for every column that is not
    writable, whatever its default, where the message of an insert has the default. *)
Theorem update_drops_default `{!DatumLaws L} pinfo info raw can c old new cols chg i :
  GetValue ZeroDatum = VNil -> NoDup (col_ID <$> tb_Columns info) ->
  DecodeOldAndNewRow (Some raw) (ToColumnMap (writableColumns info)) can pinfo = Ret (old, new) ->
  tb_Columns info !! i = Some c -> c ∉ writableColumns info ->
  updateRowToRow pinfo info raw can = Ret (cols, chg) ->
  cols !! i = Some null_column /\ chg !! i = Some null_column.
Proof.
  intros Hz Hn Hdec Hi Hc. unfold updateRowToRow, decode. cbn [newUpdateDecoder ud_columns ud_canAppendDefaultValue ud_ptable].
  rewrite Hdec. cbn [obind]. intros (pairs & Hp & [= <- <-])%obind_Ret_inv. apply each_Ret in Hp.
  destruct (Forall2_lookup_l _ _ _ _ _ Hp Hi) as ([x y] & Hxy & Hrow).
  destruct (DecodeOldAndNewRow_dom _ _ _ _ _ _ (ToColumnMap_filed _) Hdec) as [Hsame Hsub].
  assert (Hnone : new !! col_ID c = None /\ old !! col_ID c = None).
  { assert (Hno : col_ID c ∉ dom old).
    { intros Hin%Hsub. rewrite ToColumnMap_dom in Hin. apply elem_of_list_to_set, list_elem_of_fmap in Hin as (c' & Hid & Hc').
      pose proof (writable_subset _ _ Hc') as Ht. apply list_elem_of_lookup in Ht as [j Hj].
      assert (i = j) as <-; [|congruence]. eapply (list.NoDup_lookup (col_ID <$> tb_Columns info)); [done|..].
      - by rewrite list_lookup_fmap, Hi.
      - rewrite list_lookup_fmap, Hj. cbn. by rewrite <- Hid. }
    split; apply not_elem_of_dom; [by rewrite <- Hsame|done]. }
  destruct Hnone as [Hnn Hno]. unfold update_val in Hrow. rewrite Hnn, Hno in Hrow.
  destruct (getDefaultOrZeroValue pinfo c); [|done..]. cbn [obind] in Hrow.
  assert (Hnull : DatumToColumn c ZeroDatum = Ret null_column) by (unfold DatumToColumn; by rewrite IsNull_GetValue, Hz).
  rewrite Hnull in Hrow. injection Hrow as <- <-. by rewrite !list_lookup_fmap, Hxy.
Qed.
End Differences.
