(* ===== verification/PbCodec.v ===== *)
(** * PbCodec
    The wire format of the binlogs that drainer writes to files and reparo reads:
    [Marshal], [Size] and [Unmarshal] of [proto/binlog/binlog.pb.go], for the messages
    [Column], [Event], [DMLData] and [Binlog]. *)
From Stdlib Require Import Init.Byte Strings.Byte.
From stdpp Require Import base option list strings.
From S2P Require Import Prelude.

(** ** Integers *)

Definition wrap_i32 (z : Z) : Z := (z + 2 ^ 31) mod 2 ^ 32 - 2 ^ 31.
Definition in_i32 (z : Z) : Prop := - 2 ^ 31 <= z < 2 ^ 31.

(** [encodeVarintPbBinlog]; ten bytes are enough for 64 bits. *)
Fixpoint varint_fuel (fuel : nat) (v : Z) : list byte :=
  match fuel with
  | O => []
  | S fuel =>
    if 128 <=? v then byte_of_Z (Z.lor (Z.land v 127) 128) :: varint_fuel fuel (Z.shiftr v 7)
    else [byte_of_Z v]
  end.
Definition varint (v : Z) : list byte := varint_fuel 10 v.

(** [sovPbBinlog]: the size of a varint. *)
Fixpoint sov_fuel (fuel : nat) (x : Z) : Z :=
  match fuel with
  | O => 0
  | S fuel => let x := Z.shiftr x 7 in if x =? 0 then 1 else 1 + sov_fuel fuel x
  end.
Definition sov (x : Z) : Z := sov_fuel 10 x.

Definition ErrIntOverflow : error := Err "proto: integer overflow".
Definition ErrInvalidLength : error := Err "proto: negative length found during unmarshaling".

(** The loop that reads a varint: the number, the index and the bytes after it.  An
    [int], [int64] or [int32] that is read this way is the number wrapped to its width. *)
Fixpoint uvarint (k : nat) (shift acc : Z) (i : Z) (rest : list byte) : outcome (Z * Z * list byte) :=
  match k with
  | O => Fail ErrIntOverflow
  | S k =>
    match rest with
    | [] => Fail ErrUnexpectedEOF
    | b :: rest =>
      let b := byte_to_Z b in
      let acc := wrap_u64 (Z.lor acc (Z.shiftl (Z.land b 127) shift)) in
      if b <? 128 then Ret (acc, i + 1, rest) else uvarint k (shift + 7) acc (i + 1) rest
    end
  end.

(** [shift] runs from 0 below 64 in steps of 7. *)
Definition read_varint (i : Z) (rest : list byte) : outcome (Z * Z * list byte) := uvarint 10 0 0 i rest.

(** A length and as many bytes; the sum of the index and the length may overflow, and
    the slice then panics. *)
Definition read_bytes (i : Z) (rest : list byte) : outcome (list byte * Z * list byte) :=
  let! (n, i, rest) := read_varint i rest in
  let n := wrap_i64 n in
  if n <? 0 then Fail ErrInvalidLength
  else
    let post := wrap_i64 (i + n) in
    if i + len rest <? post then Fail ErrUnexpectedEOF
    else if post <? i then Panic
    else Ret (take (Z.to_nat n) rest, post, drop (Z.to_nat n) rest).

(** ** Unknown fields *)

(** Reading at an index of the slice. *)
Definition varint_at (dAtA : list byte) (i : Z) : outcome (Z * Z * list byte) :=
  if i <? 0 then Panic else read_varint i (drop (Z.to_nat i) dAtA).

(** [skipPbBinlog]: the size of the field at the start; [skip_group] is the loop over
    the fields of a group. *)
Fixpoint skip (fuel : nat) (dAtA : list byte) {struct fuel} : outcome Z :=
  match fuel with
  | O => Panic
  | S fuel =>
    match dAtA with
    | [] => Panic
    | _ =>
      let! (wire, i, _) := varint_at dAtA 0 in
      let wireType := Z.land wire 7 in
      if wireType =? 0 then let! (_, i, _) := varint_at dAtA i in Ret i
      else if wireType =? 1 then Ret (i + 8)
      else if wireType =? 2 then
        let! (n, i, _) := varint_at dAtA i in
        let length := wrap_i64 n in
        if length <? 0 then Fail ErrInvalidLength else Ret (wrap_i64 (i + length))
      else if wireType =? 3 then skip_group fuel dAtA i
      else if wireType =? 4 then Ret i
      else if wireType =? 5 then Ret (i + 4)
      else Fail (Err "proto: illegal wireType")
    end
  end
with skip_group (fuel : nat) (dAtA : list byte) (i : Z) {struct fuel} : outcome Z :=
  match fuel with
  | O => Panic
  | S fuel =>
    let start := i in
    let! (innerWire, i, _) := varint_at dAtA i in
    if Z.land innerWire 7 =? 4 then Ret i
    else
      let! next := skip fuel (drop (Z.to_nat start) dAtA) in
      skip_group fuel dAtA (wrap_i64 (start + next))
  end.

(** The bytes of an unknown field at the cursor, and the cursor after it. *)
Definition skip_field (i : Z) (rest : list byte) : outcome (list byte * Z * list byte) :=
  let! skippy := skip (2 * length rest + 2) rest in
  if skippy <? 0 then Fail ErrInvalidLength
  else
    let post := wrap_i64 (i + skippy) in
    if i + len rest <? post then Fail ErrUnexpectedEOF
    else if post <? i then Panic
    else Ret (take (Z.to_nat skippy) rest, post, drop (Z.to_nat skippy) rest).

(** ** Messages *)

(** What the cases of an [Unmarshal] do with a field: [None] for a field that the
    message does not have. *)
Definition handler (M : Type) : Type := Z -> Z -> Z -> list byte -> M -> option (outcome (M * Z * list byte)).

(** The loop of [Unmarshal] over the fields; [unknown] keeps the bytes of an unknown one.
    A field takes at least a byte. *)
Fixpoint fields {M} (fuel : nat) (h : handler M) (unknown : list byte -> M -> M) (i : Z) (rest : list byte) (m : M)
    : outcome M :=
  match rest with
  | [] => Ret m
  | _ =>
    match fuel with
    | O => Panic
    | S fuel =>
      let! (wire, i', rest') := read_varint i rest in
      let fieldNum := wrap_i32 (Z.shiftr wire 3) in
      let wireType := Z.land wire 7 in
      if wireType =? 4 then Fail (Err "proto: wiretype end group for non-group")
      else if fieldNum <=? 0 then Fail (Err "proto: illegal tag")
      else
        match h fieldNum wireType i' rest' m with
        | Some r => let! (m, i, rest) := r in fields fuel h unknown i rest m
        | None => let! (bs, i, rest) := skip_field i rest in fields fuel h unknown i rest (unknown bs m)
        end
    end
  end.

Definition ErrWrongWireType : error := Err "proto: wrong wireType".

(** A field of bytes. *)
Definition bytes_field {M} (set : list byte -> M) (wireType i : Z) (rest : list byte) : option (outcome (M * Z * list byte)) :=
  Some (if wireType =? 2 then let! (bs, i, rest) := read_bytes i rest in Ret (set bs, i, rest) else Fail ErrWrongWireType).

(** A field that is a number. *)
Definition varint_field {M} (set : Z -> M) (wireType i : Z) (rest : list byte) : option (outcome (M * Z * list byte)) :=
  Some (if wireType =? 0 then let! (n, i, rest) := read_varint i rest in Ret (set n, i, rest) else Fail ErrWrongWireType).

(** A field that is a message. *)
Definition message_field {M} (set : list byte -> outcome M) (wireType i : Z) (rest : list byte) : option (outcome (M * Z * list byte)) :=
  Some (if wireType =? 2 then let! (bs, i, rest) := read_bytes i rest in let! m := set bs in Ret (m, i, rest) else Fail ErrWrongWireType).

(** How the fields are written. *)
Definition put_bytes (tag : byte) (bs : list byte) : list byte := tag :: varint (len bs) ++ bs.
Definition put_opt (tag : byte) (bs : option (list byte)) : list byte := match bs with Some bs => put_bytes tag bs | None => [] end.
Definition put_varint (tag : byte) (v : Z) : list byte := tag :: varint (wrap_u64 v).

Definition size_bytes (bs : list byte) : Z := 1 + len bs + sov (len bs).
Definition size_opt (bs : option (list byte)) : Z := match bs with Some bs => size_bytes bs | None => 0 end.

Definition sbytes (s : string) : list byte := String.list_byte_of_string s.
Definition bstring (b : list byte) : string := String.string_of_list_byte b.

(** *** Column *)

Record PColumn := mkPColumn {
  pc_Name : string;
  pc_Tp : option (list byte);
  pc_MysqlType : string;
  pc_Value : option (list byte);
  pc_ChangedValue : option (list byte);
  pc_unrecognized : list byte;
}.

Definition Column_Marshal (m : PColumn) : list byte :=
  put_bytes x0a (sbytes (pc_Name m)) ++ put_opt x12 (pc_Tp m) ++ put_bytes x1a (sbytes (pc_MysqlType m)) ++
  put_opt x22 (pc_Value m) ++ put_opt x2a (pc_ChangedValue m) ++ pc_unrecognized m.

Definition Column_Size (m : PColumn) : Z :=
  size_bytes (sbytes (pc_Name m)) + size_opt (pc_Tp m) + size_bytes (sbytes (pc_MysqlType m)) +
  size_opt (pc_Value m) + size_opt (pc_ChangedValue m) + len (pc_unrecognized m).

Definition Column_zero : PColumn := mkPColumn "" None "" None None [].

Definition Column_field : handler PColumn := fun fieldNum wireType i rest m =>
  let 'mkPColumn nm tp mt v cv un := m in
  if fieldNum =? 1 then bytes_field (fun b => mkPColumn (bstring b) tp mt v cv un) wireType i rest
  else if fieldNum =? 2 then bytes_field (fun b => mkPColumn nm (Some b) mt v cv un) wireType i rest
  else if fieldNum =? 3 then bytes_field (fun b => mkPColumn nm tp (bstring b) v cv un) wireType i rest
  else if fieldNum =? 4 then bytes_field (fun b => mkPColumn nm tp mt (Some b) cv un) wireType i rest
  else if fieldNum =? 5 then bytes_field (fun b => mkPColumn nm tp mt v (Some b) un) wireType i rest
  else None.

Definition Column_unknown (bs : list byte) (m : PColumn) : PColumn :=
  mkPColumn (pc_Name m) (pc_Tp m) (pc_MysqlType m) (pc_Value m) (pc_ChangedValue m) (pc_unrecognized m ++ bs).

Definition Column_Unmarshal (dAtA : list byte) : outcome PColumn :=
  fields (length dAtA) Column_field Column_unknown 0 dAtA Column_zero.

(** *** Event *)

Record PEvent := mkPEvent {
  pe_SchemaName : option string;
  pe_TableName : option string;
  pe_Tp : Z;
  pe_Row : list (list byte);
  pe_unrecognized : list byte;
}.

Definition EventType_Insert : Z := 0.
Definition EventType_Update : Z := 1.
Definition EventType_Delete : Z := 2.

Definition Event_Marshal (m : PEvent) : list byte :=
  put_opt x0a (sbytes <$> pe_SchemaName m) ++ put_opt x12 (sbytes <$> pe_TableName m) ++ put_varint x18 (pe_Tp m) ++
  concat (put_bytes x22 <$> pe_Row m) ++ pe_unrecognized m.

Definition sum_sizes {A} (size : A -> Z) (l : list A) : Z := foldr (fun x n => size x + n) 0 l.

Definition Event_Size (m : PEvent) : Z :=
  size_opt (sbytes <$> pe_SchemaName m) + size_opt (sbytes <$> pe_TableName m) + (1 + sov (wrap_u64 (pe_Tp m))) +
  sum_sizes size_bytes (pe_Row m) + len (pe_unrecognized m).

Definition Event_zero : PEvent := mkPEvent None None 0 [] [].

Definition Event_field : handler PEvent := fun fieldNum wireType i rest m =>
  let 'mkPEvent sn tn tp row un := m in
  if fieldNum =? 1 then bytes_field (fun b => mkPEvent (Some (bstring b)) tn tp row un) wireType i rest
  else if fieldNum =? 2 then bytes_field (fun b => mkPEvent sn (Some (bstring b)) tp row un) wireType i rest
  else if fieldNum =? 3 then varint_field (fun n => mkPEvent sn tn (wrap_i32 n) row un) wireType i rest
  else if fieldNum =? 4 then bytes_field (fun b => mkPEvent sn tn tp (row ++ [b]) un) wireType i rest
  else None.

Definition Event_unknown (bs : list byte) (m : PEvent) : PEvent :=
  mkPEvent (pe_SchemaName m) (pe_TableName m) (pe_Tp m) (pe_Row m) (pe_unrecognized m ++ bs).

Definition Event_Unmarshal (dAtA : list byte) : outcome PEvent :=
  fields (length dAtA) Event_field Event_unknown 0 dAtA Event_zero.

(** *** DMLData *)

Record PDMLData := mkPDMLData { pd_Events : list PEvent; pd_unrecognized : list byte }.

Definition DMLData_Marshal (m : PDMLData) : list byte :=
  concat ((fun e => x0a :: varint (wrap_u64 (Event_Size e)) ++ Event_Marshal e) <$> pd_Events m) ++ pd_unrecognized m.

Definition DMLData_Size (m : PDMLData) : Z :=
  sum_sizes (fun e => 1 + Event_Size e + sov (wrap_u64 (Event_Size e))) (pd_Events m) + len (pd_unrecognized m).

Definition DMLData_field : handler PDMLData := fun fieldNum wireType i rest m =>
  if fieldNum =? 1 then
    message_field (fun b => let! e := Event_Unmarshal b in Ret (mkPDMLData (pd_Events m ++ [e]) (pd_unrecognized m))) wireType i rest
  else None.

Definition DMLData_Unmarshal (dAtA : list byte) : outcome PDMLData :=
  fields (length dAtA) DMLData_field (fun bs m => mkPDMLData (pd_Events m) (pd_unrecognized m ++ bs)) 0 dAtA (mkPDMLData [] []).

(** *** Binlog *)

Record PBinlog := mkPBinlog {
  pb_Tp : Z;
  pb_CommitTs : Z;
  pb_DmlData : option PDMLData;
  pb_DdlQuery : option (list byte);
  pb_unrecognized : list byte;
}.

Definition BinlogType_DML : Z := 0.
Definition BinlogType_DDL : Z := 1.

Definition Binlog_Marshal (m : PBinlog) : list byte :=
  put_varint x08 (pb_Tp m) ++ put_varint x10 (pb_CommitTs m) ++
  match pb_DmlData m with Some d => x1a :: varint (wrap_u64 (DMLData_Size d)) ++ DMLData_Marshal d | None => [] end ++
  put_opt x22 (pb_DdlQuery m) ++ pb_unrecognized m.

Definition Binlog_Size (m : PBinlog) : Z :=
  (1 + sov (wrap_u64 (pb_Tp m))) + (1 + sov (wrap_u64 (pb_CommitTs m))) +
  match pb_DmlData m with Some d => 1 + DMLData_Size d + sov (wrap_u64 (DMLData_Size d)) | None => 0 end +
  size_opt (pb_DdlQuery m) + len (pb_unrecognized m).

(** A [DMLData] that is there already is read into. *)
Definition Binlog_field : handler PBinlog := fun fieldNum wireType i rest m =>
  let 'mkPBinlog tp ts dml ddl un := m in
  if fieldNum =? 1 then varint_field (fun n => mkPBinlog (wrap_i32 n) ts dml ddl un) wireType i rest
  else if fieldNum =? 2 then varint_field (fun n => mkPBinlog tp (wrap_i64 n) dml ddl un) wireType i rest
  else if fieldNum =? 3 then
    message_field (fun b =>
      let d := default (mkPDMLData [] []) dml in
      let! d := fields (length b) DMLData_field (fun bs m => mkPDMLData (pd_Events m) (pd_unrecognized m ++ bs)) 0 b d in
      Ret (mkPBinlog tp ts (Some d) ddl un)) wireType i rest
  else if fieldNum =? 4 then bytes_field (fun b => mkPBinlog tp ts dml (Some b) un) wireType i rest
  else None.

Definition Binlog_unknown (bs : list byte) (m : PBinlog) : PBinlog :=
  mkPBinlog (pb_Tp m) (pb_CommitTs m) (pb_DmlData m) (pb_DdlQuery m) (pb_unrecognized m ++ bs).

Definition Binlog_zero : PBinlog := mkPBinlog 0 0 None None [].

Definition Binlog_Unmarshal (dAtA : list byte) : outcome PBinlog :=
  fields (length dAtA) Binlog_field Binlog_unknown 0 dAtA Binlog_zero.
