(* ===== verification/PbCodecProofs.v ===== *)
(** * PbCodecProofs
    Reading what was written gives the message back, and the sizes are exact. *)
From Stdlib Require Import Init.Byte Strings.Byte.
From stdpp Require Import base option list strings.
From S2P Require Import Prelude PbCodec.

(** ** Integers *)

Lemma lor_shiftl a x s : 0 <= s -> 0 <= a < 2 ^ s -> Z.lor a (Z.shiftl x s) = a + x * 2 ^ s.
Proof.
  intros Hs Ha. rewrite <- Z.shiftl_mul_pow2 by done. rewrite Z.add_nocarry_lxor.
  - symmetry. apply Z.lxor_lor. apply Z.bits_inj'. intros n Hn. rewrite Z.land_spec, Z.bits_0, Z.shiftl_spec by done.
    destruct (Z.ltb_spec n s) as [H|H]; [rewrite (Z.testbit_neg_r x) by lia; by rewrite andb_false_r|].
    rewrite <- (Z.mod_small a (2 ^ s)) by done. by rewrite Z.mod_pow2_bits_high by lia.
  - apply Z.bits_inj'. intros n Hn. rewrite Z.land_spec, Z.bits_0, Z.shiftl_spec by done.
    destruct (Z.ltb_spec n s) as [H|H]; [rewrite (Z.testbit_neg_r x) by lia; by rewrite andb_false_r|].
    rewrite <- (Z.mod_small a (2 ^ s)) by done. by rewrite Z.mod_pow2_bits_high by lia.
Qed.

Lemma land_127 v : Z.land v 127 = v mod 128.
Proof. change 127 with (Z.ones 7). by rewrite Z.land_ones by lia. Qed.

Lemma more_byte v : 0 <= v -> byte_to_Z (byte_of_Z (Z.lor (Z.land v 127) 128)) = v mod 128 + 128.
Proof.
  intros Hv. rewrite land_127. pose proof (Z.mod_pos_bound v 128 ltac:(lia)).
  change 128 with (Z.shiftl 1 7) at 2. rewrite lor_shiftl by lia. change (1 * 2 ^ 7) with 128.
  rewrite byte_to_of_Z. apply Z.mod_small. lia.
Qed.

Lemma uvarint_varint k : forall v shift acc i rest,
  (0 < k)%nat -> 0 <= v < 2 ^ (7 * Z.of_nat k) -> 0 <= shift -> 0 <= acc < 2 ^ shift -> acc + v * 2 ^ shift < 2 ^ 64 ->
  uvarint k shift acc i (varint_fuel k v ++ rest) = Ret (acc + v * 2 ^ shift, i + len (varint_fuel k v), rest).
Proof.
  induction k as [|k IH]; intros v shift acc i rest Hk Hv Hs Ha Hm; [lia|]. cbn [varint_fuel].
  assert (Hp : 0 < 2 ^ shift) by (apply Z.pow_pos_nonneg; lia).
  destruct (Z.leb_spec 128 v) as [H|H].
  - cbn [app uvarint]. cbv zeta. rewrite more_byte by lia. rewrite land_127.
    assert (Hb : (v mod 128 + 128) mod 128 = v mod 128) by (rewrite <- Z.add_mod_idemp_r by lia; rewrite Z.add_0_r; apply Z.mod_mod; lia).
    rewrite Hb. pose proof (Z.mod_pos_bound v 128 ltac:(lia)) as Hr. pose proof (Z.div_mod v 128 ltac:(lia)) as Hdm.
    assert (Hd : 0 <= v / 128) by (apply Z.div_pos; lia). rewrite lor_shiftl by lia.
    destruct (Z.ltb_spec (v mod 128 + 128) 128); [lia|]. rewrite Z.shiftr_div_pow2 by lia. change (2 ^ 7) with 128.
    assert (Hpow : 2 ^ (shift + 7) = 2 ^ shift * 128) by (rewrite Z.pow_add_r by lia; done).
    assert (Hacc : 0 <= acc + v mod 128 * 2 ^ shift < 2 ^ (shift + 7)) by nia.
    unfold wrap_u64. rewrite Z.mod_small by nia. rewrite IH.
    + f_equal. f_equal. f_equal; [rewrite Hpow; nia|rewrite ?length_cons; lia].
    + destruct k; [|lia]. change (2 ^ (7 * Z.of_nat 1)) with 128 in Hv. lia.
    + split; [done|]. apply Z.div_lt_upper_bound; [lia|]. replace (7 * Z.of_nat (S k)) with (7 + 7 * Z.of_nat k) in Hv by lia.
      rewrite Z.pow_add_r in Hv by lia. lia.
    + lia.
    + done.
    + rewrite Hpow. nia.
  - cbn [app uvarint]. cbv zeta. rewrite byte_to_of_Z, (Z.mod_small v 256) by lia. rewrite land_127, (Z.mod_small v 128) by lia.
    destruct (Z.ltb_spec v 128); [|lia]. rewrite lor_shiftl by lia. unfold wrap_u64. rewrite Z.mod_small by nia. done.
Qed.

(** A number is read back. *)
Lemma read_varint_put v i rest : in_u64 v -> read_varint i (varint v ++ rest) = Ret (v, i + len (varint v), rest).
Proof.
  intros Hv. unfold read_varint, varint. rewrite uvarint_varint; [f_equal; f_equal; f_equal; lia|lia| |lia|lia|].
  - split; [apply Hv|]. eapply Z.lt_le_trans; [apply Hv|]. apply Z.pow_le_mono_r; lia.
  - unfold in_u64 in Hv. lia.
Qed.

Lemma varint_size k v : 0 <= v < 2 ^ (7 * Z.of_nat k) -> (0 < k)%nat -> sov_fuel k v = len (varint_fuel k v).
Proof.
  revert v. induction k as [|k IH]; intros v Hv Hk; [lia|]. cbn [sov_fuel varint_fuel]. cbv zeta.
  rewrite Z.shiftr_div_pow2 by lia. change (2 ^ 7) with 128.
  destruct (Z.leb_spec 128 v) as [H|H].
  - assert (1 <= v / 128) by (apply Z.div_le_lower_bound; lia). destruct (Z.eqb_spec (v / 128) 0); [lia|].
    rewrite IH; [rewrite length_cons; lia| |].
    + split; [lia|]. apply Z.div_lt_upper_bound; [lia|]. replace (7 * Z.of_nat (S k)) with (7 + 7 * Z.of_nat k) in Hv by lia.
      rewrite Z.pow_add_r in Hv by lia. lia.
    + destruct k; [|lia]. change (2 ^ (7 * Z.of_nat 1)) with 128 in Hv. lia.
  - rewrite Z.div_small by lia. done.
Qed.

Lemma sov_varint v : in_u64 v -> sov v = len (varint v).
Proof.
  intros Hv. apply varint_size; [|lia]. split; [apply Hv|]. eapply Z.lt_le_trans; [apply Hv|]. apply Z.pow_le_mono_r; lia.
Qed.

(** Bytes are read back. *)
Lemma read_bytes_put bs i rest : 0 <= i -> i + len (varint (len bs)) + len bs + len rest < 2 ^ 63 ->
  read_bytes i (varint (len bs) ++ bs ++ rest) = Ret (bs, i + len (varint (len bs)) + len bs, rest).
Proof.
  intros Hi Hl. unfold read_bytes. rewrite read_varint_put by in_range. cbn [obind].
  rewrite wrap_i64_id by in_range. destruct (Z.ltb_spec (len bs) 0); [lia|].
  rewrite wrap_i64_id by in_range. rewrite length_app.
  destruct (Z.ltb_spec (i + len (varint (len bs)) + Z.of_nat (length bs + length rest)) (i + len (varint (len bs)) + len bs)); [lia|].
  destruct (Z.ltb_spec (i + len (varint (len bs)) + len bs) (i + len (varint (len bs)))); [lia|].
  by rewrite Nat2Z.id, take_app_length, drop_app_length.
Qed.

(** ** Fields *)

(** A tag: the number of the field and its wire type, in one byte. *)
Definition tag_ok (tag : byte) (num wt : Z) : Prop :=
  byte_to_Z tag < 128 /\ Z.shiftr (byte_to_Z tag) 3 = num /\ Z.land (byte_to_Z tag) 7 = wt /\ wt <> 4 /\ 0 < num < 2 ^ 31.

Section Fields.
Context {M : Type} (h : handler M) (unknown : list byte -> M -> M).

Lemma fields_tag fuel tag num wt i rest m r : tag_ok tag num wt -> h num wt (i + 1) rest m = Some r ->
  fields (S fuel) h unknown i (tag :: rest) m = let! (m, i, rest) := r in fields fuel h unknown i rest m.
Proof.
  intros (Hb & Hn & Hw & Hw4 & Hn0) Hh. cbn [fields]. unfold read_varint. cbn [uvarint]. cbv zeta.
  assert (Hl : Z.land (byte_to_Z tag) 127 = byte_to_Z tag).
  { pose proof (byte_to_Z_range tag). rewrite land_127. apply Z.mod_small. lia. }
  rewrite Hl, Z.shiftl_0_r, Z.lor_0_l. destruct (Z.ltb_spec (byte_to_Z tag) 128); [|lia].
  pose proof (byte_to_Z_range tag) as Hr. unfold wrap_u64. rewrite Z.mod_small by lia. cbn [obind]. rewrite Hn, Hw.
  assert (Hi32 : wrap_i32 num = num) by (unfold wrap_i32; rewrite Z.mod_small; lia). rewrite Hi32.
  destruct (Z.eqb_spec wt 4); [done|]. destruct (Z.leb_spec num 0); [lia|]. by rewrite Hh.
Qed.

(** A bytes field that was written. *)
Lemma fields_put fuel tag num i bs rest m set : tag_ok tag num 2 ->
  (forall i' rest', h num 2 i' rest' m = bytes_field set 2 i' rest') ->
  0 <= i -> i + len (put_bytes tag bs ++ rest) < 2 ^ 63 ->
  fields (S fuel) h unknown i (put_bytes tag bs ++ rest) m = fields fuel h unknown (i + len (put_bytes tag bs)) rest (set bs).
Proof.
  intros Ht Hh Hi Hl. unfold put_bytes in *. cbn [app] in *. rewrite <- app_assoc in *.
  rewrite (fields_tag _ _ _ _ _ _ _ _ Ht (Hh _ _)). cbn [Z.eqb]. rewrite length_cons, !length_app in Hl.
  rewrite read_bytes_put by lia. cbn [obind]. f_equal. rewrite length_cons, length_app. lia.
Qed.

Lemma fields_put_varint fuel tag num i v rest m set : tag_ok tag num 0 ->
  (forall i' rest', h num 0 i' rest' m = varint_field set 0 i' rest') ->
  fields (S fuel) h unknown i (put_varint tag v ++ rest) m =
  fields fuel h unknown (i + len (put_varint tag v)) rest (set (wrap_u64 v)).
Proof.
  intros Ht Hh. unfold put_varint in *. cbn [app] in *.
  rewrite (fields_tag _ _ _ _ _ _ _ _ Ht (Hh _ _)). cbn [Z.eqb].
  rewrite read_varint_put by apply wrap_u64_range. cbn [obind]. f_equal. rewrite length_cons. lia.
Qed.

(** More iterations than bytes do not matter. *)
Lemma fields_nil fuel i m : fields fuel h unknown i [] m = Ret m.
Proof. by destruct fuel. Qed.
End Fields.

(** ** Sizes *)

Lemma size_put_bytes tag bs : len bs < 2 ^ 63 -> size_bytes bs = len (put_bytes tag bs).
Proof. intros H. unfold size_bytes, put_bytes. rewrite sov_varint by in_range. rewrite length_cons, length_app. lia. Qed.

Lemma size_put_opt tag bs : len (put_opt tag bs) < 2 ^ 63 -> size_opt bs = len (put_opt tag bs).
Proof.
  destruct bs as [bs|]; [|done]. cbn [size_opt put_opt]. intros H. apply size_put_bytes.
  unfold put_bytes in H. rewrite length_cons, length_app in H. lia.
Qed.

Lemma size_put_varint tag v : 1 + sov (wrap_u64 v) = len (put_varint tag v).
Proof. rewrite sov_varint by apply wrap_u64_range. unfold put_varint. rewrite length_cons. lia. Qed.

Lemma size_sum {A} (size : A -> Z) (put : A -> list byte) l : len (concat (put <$> l)) < 2 ^ 63 ->
  (forall x, x ∈ l -> len (put x) < 2 ^ 63 -> size x = len (put x)) -> sum_sizes size l = len (concat (put <$> l)).
Proof.
  induction l as [|x l IH]; intros Hl Hs; [done|]. cbn [sum_sizes foldr fmap list_fmap concat] in *. rewrite length_app in *.
  fold (sum_sizes size l). rewrite IH; [rewrite (Hs x); [lia|by left|lia]|lia|]. intros y Hy. apply Hs. by right.
Qed.

(** The buffer that [Marshal] allocates has exactly the size of what is written. *)
Lemma Column_Size_ok m : len (Column_Marshal m) < 2 ^ 63 -> Column_Size m = len (Column_Marshal m).
Proof.
  unfold Column_Size, Column_Marshal. rewrite !length_app. intros H.
  rewrite (size_put_bytes x0a), (size_put_opt x12), (size_put_bytes x1a), (size_put_opt x22), (size_put_opt x2a); try lia;
    unfold put_bytes in H; rewrite ?length_cons, ?length_app in H; lia.
Qed.

Lemma Event_Size_ok m : len (Event_Marshal m) < 2 ^ 63 -> Event_Size m = len (Event_Marshal m).
Proof.
  unfold Event_Size, Event_Marshal. rewrite !length_app. intros H.
  rewrite (size_put_opt x0a), (size_put_opt x12), (size_put_varint x18), (size_sum size_bytes (put_bytes x22)); try lia.
  intros bs _ Hb. apply size_put_bytes. unfold put_bytes in Hb. rewrite length_cons, length_app in Hb. lia.
Qed.

(** How an embedded message is written, with its size. *)
Lemma put_event e : len (Event_Marshal e) < 2 ^ 63 ->
  x0a :: varint (wrap_u64 (Event_Size e)) ++ Event_Marshal e = put_bytes x0a (Event_Marshal e).
Proof. intros H. rewrite Event_Size_ok by done. unfold put_bytes, wrap_u64. by rewrite Z.mod_small by lia. Qed.

Definition events_bytes (es : list PEvent) : list byte :=
  concat ((fun e => x0a :: varint (wrap_u64 (Event_Size e)) ++ Event_Marshal e) <$> es).

Lemma event_le e es : e ∈ es -> len (Event_Marshal e) <= len (events_bytes es).
Proof.
  intros H. unfold events_bytes. induction es as [|e' es IH]; [by apply not_elem_of_nil in H|].
  cbn [fmap list_fmap concat]. rewrite length_app, length_cons, length_app.
  apply elem_of_cons in H as [->|H]; [lia|]. specialize (IH H). cbn in IH |- *. lia.
Qed.

Lemma DMLData_Size_ok m : len (DMLData_Marshal m) < 2 ^ 63 -> DMLData_Size m = len (DMLData_Marshal m).
Proof.
  unfold DMLData_Size, DMLData_Marshal. rewrite length_app. intros H.
  rewrite (size_sum _ (fun e => x0a :: varint (wrap_u64 (Event_Size e)) ++ Event_Marshal e)); [lia|lia|].
  intros e He Hl. rewrite length_cons, length_app in Hl |- *. rewrite (Event_Size_ok e) by lia. rewrite sov_varint by apply wrap_u64_range. lia.
Qed.

Lemma Binlog_Size_ok m : len (Binlog_Marshal m) < 2 ^ 63 -> Binlog_Size m = len (Binlog_Marshal m).
Proof.
  unfold Binlog_Size, Binlog_Marshal. rewrite !length_app. intros H.
  rewrite (size_put_varint x08), (size_put_varint x10), (size_put_opt x22) by lia.
  destruct (pb_DmlData m) as [d|]; [|simpl; lia]. rewrite length_cons, length_app in H |- *.
  rewrite (DMLData_Size_ok d) by lia. rewrite sov_varint by apply wrap_u64_range. lia.
Qed.

(** ** Round trips *)

Ltac tag_ok := unfold tag_ok; split_and!; (lia || reflexivity || discriminate).

Lemma sbytes_bstring s : bstring (sbytes s) = s.
Proof. apply String.string_of_list_byte_of_string. Qed.

Lemma put_bytes_pos tag bs rest : (0 < length (put_bytes tag bs ++ rest))%nat.
Proof. unfold put_bytes. simpl. lia. Qed.

(** Reading the next field that was written, if it was. *)
Lemma fields_opt {M} (h : handler M) unknown tag num set i bs rest m fuel : tag_ok tag num 2 ->
  (forall i' rest', h num 2 i' rest' m = bytes_field set 2 i' rest') ->
  0 <= i -> i + len (put_opt tag bs ++ rest) < 2 ^ 63 -> (length (put_opt tag bs ++ rest) <= fuel)%nat ->
  exists fuel', (length rest <= fuel')%nat /\
    fields fuel h unknown i (put_opt tag bs ++ rest) m =
    fields fuel' h unknown (i + len (put_opt tag bs)) rest (match bs with Some b => set b | None => m end).
Proof.
  intros Ht Hh Hi Hl Hf. destruct bs as [bs|]; cbn [put_opt app] in *.
  - destruct fuel as [|fuel]; [pose proof (put_bytes_pos tag bs rest); lia|]. exists fuel. split.
    + unfold put_bytes in Hf. cbn [app length] in Hf. rewrite !length_app in Hf. lia.
    + by eapply fields_put.
  - exists fuel. split; [done|]. f_equal. simpl. lia.
Qed.

(** Reads the field with number [num] at the front; the bounds follow from the length of
    the whole message. *)
Ltac next_field num :=
  match goal with
  | |- fields ?f ?h ?u ?i (put_opt ?tag ?bs ++ ?rest) ?m = _ =>
    let f' := fresh "f" in let Hf := fresh "Hf" in
    let t := open_constr:(fields_opt h u tag num _ i bs rest m f) in
    edestruct t as (f' & Hf & ->);
      [tag_ok|intros; reflexivity|lia|rewrite ?length_app in *; lia|rewrite ?length_app in *; lia|];
    cbv beta iota
  end.

Lemma Column_roundtrip m : pc_unrecognized m = [] -> len (Column_Marshal m) < 2 ^ 63 ->
  Column_Unmarshal (Column_Marshal m) = Ret m.
Proof.
  destruct m as [nm tp mt v cv un]. intros Hun Hl. cbn in Hun. subst un. unfold Column_Unmarshal, Column_Marshal, Column_zero in *.
  cbn [pc_Name pc_Tp pc_MysqlType pc_Value pc_ChangedValue pc_unrecognized] in *.
  change (put_bytes x0a (sbytes nm)) with (put_opt x0a (Some (sbytes nm))) in *.
  change (put_bytes x1a (sbytes mt)) with (put_opt x1a (Some (sbytes mt))) in *.
  remember (length _) as fuel eqn:Hfuel in |- *. assert (Hf : (length (put_opt x0a (Some (sbytes nm)) ++ put_opt x12 tp ++
    put_opt x1a (Some (sbytes mt)) ++ put_opt x22 v ++ put_opt x2a cv ++ []) <= fuel)%nat) by lia. clear Hfuel.
  next_field 1. destruct tp as [tp|]; next_field 2; next_field 3; (destruct v as [v|]; next_field 4; (destruct cv as [cv|]; next_field 5)).
  all: rewrite fields_nil, !sbytes_bstring; done.
Qed.

Lemma wrap_i32_u64 z : in_i32 z -> wrap_i32 (wrap_u64 z) = z.
Proof.
  unfold in_i32, wrap_i32, wrap_u64. intros H.
  assert (Hd : z mod 2 ^ 64 = if z <? 0 then z + 2 ^ 64 else z).
  { destruct (Z.ltb_spec z 0); [|apply Z.mod_small; lia]. rewrite <- (Z_mod_plus_full z 1 (2 ^ 64)), Z.mul_1_l. apply Z.mod_small. lia. }
  rewrite Hd. destruct (Z.ltb_spec z 0).
  - replace (z + 2 ^ 64 + 2 ^ 31) with (z + 2 ^ 31 + 2 ^ 32 * 2 ^ 32) by lia. rewrite Z_mod_plus_full, Z.mod_small by lia. lia.
  - rewrite Z.mod_small by lia. lia.
Qed.

(** Rows are appended one by one. *)
Lemma fields_rows rows : forall sn tn tp done un i fuel, 0 <= i -> i + len (concat (put_bytes x22 <$> rows)) < 2 ^ 63 ->
  (length (concat (put_bytes x22 <$> rows)) <= fuel)%nat ->
  fields fuel Event_field Event_unknown i (concat (put_bytes x22 <$> rows)) (mkPEvent sn tn tp done un) =
  Ret (mkPEvent sn tn tp (done ++ rows) un).
Proof.
  induction rows as [|r rows IH]; intros sn tn tp done un i fuel Hi Hl Hf; [rewrite fields_nil; by rewrite app_nil_r|].
  cbn [fmap list_fmap concat] in *. change (put_bytes x22 r) with (put_opt x22 (Some r)) in *.
  next_field 4. rewrite IH; [by rewrite <- app_assoc|lia|rewrite ?length_app in *; lia|done].
Qed.

(** The kind and the rows, which are always written. *)
Lemma Event_tail sn tn tp rows i fuel : in_i32 tp -> 0 <= i ->
  i + len (put_varint x18 tp ++ concat (put_bytes x22 <$> rows)) < 2 ^ 63 ->
  (length (put_varint x18 tp ++ concat (put_bytes x22 <$> rows)) <= fuel)%nat ->
  fields fuel Event_field Event_unknown i (put_varint x18 tp ++ concat (put_bytes x22 <$> rows)) (mkPEvent sn tn 0 [] []) =
  Ret (mkPEvent sn tn tp rows []).
Proof.
  intros Htp Hi Hl Hf. assert (Hpos : (0 < length (put_varint x18 tp))%nat) by (unfold put_varint; simpl; lia).
  rewrite length_app in *. destruct fuel as [|fuel]; [lia|].
  erewrite fields_put_varint with (num := 3); [|tag_ok|intros; reflexivity].
  cbv beta. rewrite wrap_i32_u64, fields_rows by (done || lia). done.
Qed.

Lemma Event_roundtrip m : pe_unrecognized m = [] -> in_i32 (pe_Tp m) -> len (Event_Marshal m) < 2 ^ 63 ->
  Event_Unmarshal (Event_Marshal m) = Ret m.
Proof.
  destruct m as [sn tn tp rows un]. intros Hun Htp Hl. cbn in Hun, Htp. subst un. unfold Event_Unmarshal, Event_Marshal, Event_zero in *.
  cbn [pe_SchemaName pe_TableName pe_Tp pe_Row pe_unrecognized] in *. rewrite app_nil_r in *.
  remember (length _) as fuel eqn:Hfuel in |- *. assert (Hf : (length (put_opt x0a (sbytes <$> sn) ++ put_opt x12 (sbytes <$> tn) ++
    put_varint x18 tp ++ concat (put_bytes x22 <$> rows)) <= fuel)%nat) by lia. clear Hfuel.
  destruct sn as [sn|], tn as [tn|]; cbn [fmap option_fmap option_map] in *; next_field 1; next_field 2;
    rewrite Event_tail, ?sbytes_bstring; (done || lia || (rewrite ?length_app in *; lia)).
Qed.

(** An embedded message that was written. *)
Lemma fields_message {M} (h : handler M) unknown fuel tag num i bs rest m m' set : tag_ok tag num 2 ->
  (forall i' rest', h num 2 i' rest' m = message_field set 2 i' rest') -> set bs = Ret m' ->
  0 <= i -> i + len (put_bytes tag bs ++ rest) < 2 ^ 63 ->
  fields (S fuel) h unknown i (put_bytes tag bs ++ rest) m = fields fuel h unknown (i + len (put_bytes tag bs)) rest m'.
Proof.
  intros Ht Hh Hs Hi Hl. unfold put_bytes in *. cbn [app] in *. rewrite <- app_assoc in *.
  rewrite (fields_tag _ _ _ _ _ _ _ _ _ _ Ht (Hh _ _)). cbn [Z.eqb]. rewrite length_cons, !length_app in Hl.
  rewrite read_bytes_put by lia. cbn [obind]. rewrite Hs. cbn [obind]. f_equal. rewrite length_cons, length_app. lia.
Qed.

Definition event_wf (e : PEvent) : Prop := pe_unrecognized e = [] /\ in_i32 (pe_Tp e).
Definition dml_wf (d : PDMLData) : Prop := pd_unrecognized d = [] /\ Forall event_wf (pd_Events d).

Lemma events_roundtrip unknown es : forall acc i fuel, Forall event_wf es -> 0 <= i -> i + len (events_bytes es) < 2 ^ 63 ->
  (length (events_bytes es) <= fuel)%nat ->
  fields fuel DMLData_field unknown i (events_bytes es) (mkPDMLData acc []) = Ret (mkPDMLData (acc ++ es) []).
Proof.
  unfold events_bytes. induction es as [|e es IH]; intros acc i fuel Hw Hi Hl Hf; [rewrite fields_nil; by rewrite app_nil_r|].
  apply Forall_cons_iff in Hw as [[He1 He2] Hw]. cbn [fmap list_fmap concat] in *.
  assert (Hle : len (Event_Marshal e) < 2 ^ 63) by (rewrite length_app, length_cons, length_app in Hl; lia).
  rewrite (put_event e Hle) in *. destruct fuel as [|fuel]; [unfold put_bytes in Hf; simpl in Hf; lia|].
  erewrite (fields_message _ _ fuel x0a 1); [|tag_ok|intros; reflexivity|cbv beta; by rewrite (Event_roundtrip e He1 He2 Hle)|done|done].
  assert (Hpos : (0 < length (put_bytes x0a (Event_Marshal e)))%nat) by (unfold put_bytes; simpl; lia).
  rewrite length_app in Hl, Hf. cbn [pd_Events pd_unrecognized]. rewrite IH; [by rewrite <- app_assoc|done|lia|lia|lia].
Qed.

Lemma DMLData_roundtrip d : dml_wf d -> len (DMLData_Marshal d) < 2 ^ 63 -> DMLData_Unmarshal (DMLData_Marshal d) = Ret d.
Proof.
  destruct d as [es un]. intros [Hun Hw] Hl. cbn in Hun. subst un. unfold DMLData_Unmarshal, DMLData_Marshal in *. cbn [pd_Events pd_unrecognized] in *.
  fold (events_bytes es) in *. rewrite app_nil_r in *. by rewrite events_roundtrip by (done || lia).
Qed.

Lemma put_dml d : len (DMLData_Marshal d) < 2 ^ 63 ->
  x1a :: varint (wrap_u64 (DMLData_Size d)) ++ DMLData_Marshal d = put_bytes x1a (DMLData_Marshal d).
Proof. intros H. rewrite DMLData_Size_ok by done. unfold put_bytes, wrap_u64. by rewrite Z.mod_small by lia. Qed.

Definition binlog_wf (m : PBinlog) : Prop :=
  pb_unrecognized m = [] /\ in_i32 (pb_Tp m) /\ in_i64 (pb_CommitTs m) /\
  match pb_DmlData m with Some d => dml_wf d | None => True end.

Lemma Binlog_roundtrip m : binlog_wf m -> len (Binlog_Marshal m) < 2 ^ 63 -> Binlog_Unmarshal (Binlog_Marshal m) = Ret m.
Proof.
  intros Hw Hl. destruct m as [tp ts dml ddl un]. destruct Hw as (Hun & Htp & Hts & Hd).
  cbn in Hun, Htp, Hts, Hd. subst un. unfold Binlog_Unmarshal, Binlog_Marshal, Binlog_zero in *.
  cbn [pb_Tp pb_CommitTs pb_DmlData pb_DdlQuery pb_unrecognized] in *. rewrite app_nil_r in *.
  remember (length _) as fuel eqn:Hfuel in |- *.
  assert (Hp1 : (0 < length (put_varint x08 tp))%nat) by (unfold put_varint; simpl; lia).
  assert (Hp2 : (0 < length (put_varint x10 ts))%nat) by (unfold put_varint; simpl; lia).
  rewrite !length_app in *. destruct fuel as [|[|fuel]]; [lia..|].
  erewrite fields_put_varint with (num := 1); [|tag_ok|intros; reflexivity]. cbv beta. rewrite wrap_i32_u64 by done.
  erewrite fields_put_varint with (num := 2); [|tag_ok|intros; reflexivity]. cbv beta. rewrite wrap_i64_u64 by done.
  assert (Hend : forall dml' i f, 0 <= i -> i + len (put_opt x22 ddl) < 2 ^ 63 -> (length (put_opt x22 ddl) <= f)%nat ->
    fields f Binlog_field Binlog_unknown i (put_opt x22 ddl) (mkPBinlog tp ts dml' None []) = Ret (mkPBinlog tp ts dml' ddl [])).
  { intros dml' i f Hi Hlen Hf. rewrite <- (app_nil_r (put_opt x22 ddl)) in *. next_field 4. rewrite fields_nil. by destruct ddl. }
  destruct dml as [d|]; [|cbn [app length] in *; apply Hend; lia].
  assert (Hld : len (DMLData_Marshal d) < 2 ^ 63) by (rewrite length_cons, length_app in Hl; lia).
  rewrite (put_dml d Hld) in *. destruct fuel as [|fuel]; [unfold put_bytes in Hfuel; simpl in Hfuel; lia|].
  erewrite (fields_message _ _ fuel x1a 3); [|tag_ok|intros; reflexivity| |lia|rewrite length_app; lia].
  2:{ cbv beta. pose proof (DMLData_roundtrip d Hd Hld) as Hr. unfold DMLData_Unmarshal in Hr. cbn [from_option id]. by rewrite Hr. }
  assert (Hp3 : (0 < length (put_bytes x1a (DMLData_Marshal d)))%nat) by (unfold put_bytes; simpl; lia).
  apply Hend; lia.
Qed.

(** C23: The file format of binlogs is lossless: a binlog without unknown fields, of any
    kind, with any events, rows and byte strings (empty ones and absent ones are
    distinguished), is read back from its encoding exactly; the encoding fills the
    buffer that was allocated for it. *)
Theorem pb_roundtrip m : binlog_wf m -> len (Binlog_Marshal m) < 2 ^ 63 ->
  Binlog_Unmarshal (Binlog_Marshal m) = Ret m /\ Binlog_Size m = len (Binlog_Marshal m).
Proof. intros Hw Hl. split; [by apply Binlog_roundtrip|by apply Binlog_Size_ok]. Qed.

(** A length that overflows the index is not rejected: a message whose first field
    announces [2^63 - 1] bytes makes [Unmarshal] slice with a negative bound, which
    panics instead of returning an error. *)
Theorem pb_length_overflow :
  Binlog_Unmarshal (x22 :: varint (2 ^ 63 - 1)) = Panic /\ Column_Unmarshal (x0a :: varint (2 ^ 63 - 1)) = Panic.
Proof. split; vm_compute; reflexivity. Qed.
