(* ===== verification/TranslatePb.v ===== *)
(** * TranslatePb
    The translation of a binlog to the message that drainer writes to files
    ([drainer/translator/pb.go]), and reparo's translation of that message to a
    transaction of the loader ([reparo/syncer/translate.go], [util.go]). *)
From Stdlib Require Import Init.Byte Strings.Byte SpecFloat Ascii.
From stdpp Require Import base option list gmap strings.
From S2P Require Import Prelude Text Binlog LoaderModel Schema Datum Translator Mutation TranslateTxn PbCodec.

(** ** Drainer's side *)
Section Pb.
Context {L : Lib}.

(** What the parser says of a statement: an error, or whether it creates a database. *)
Context (ParseOneStmt : string -> outcome bool).

(** The name of the type of a column. *)
Definition pb_type_name (col : ColumnInfo) : string := TypeToStr (ft_Tp (col_Field col)) (ft_Charset (col_Field col)).

(** [encodeRow]: a marshalled column for every datum; the names, type codes and type
    names, which the source keeps in parallel slices, are those of its column. *)
Definition encodeRow (row : list (Datum * ColumnInfo)) : outcome (list (list byte)) :=
  each (fun '(c, col) =>
    let! val := EncodeValue c in
    Ret (Column_Marshal (mkPColumn (col_Name col) (Some [byte_of_Z (ft_Tp (col_Field col))]) (pb_type_name col) (Some val) None []))) row.

Definition encodeUpdateRow (row : list (Datum * Datum * ColumnInfo)) : outcome (list (list byte)) :=
  each (fun '(old, new, col) =>
    let! val := EncodeValue old in
    let! changedVal := EncodeValue new in
    Ret (Column_Marshal (mkPColumn (col_Name col) (Some [byte_of_Z (ft_Tp (col_Field col))]) (pb_type_name col) (Some val) (Some changedVal) []))) row.

Definition packEvent (schemaName tableName : string) (tp : Z) (rowData : list (list byte)) : PEvent :=
  mkPEvent (Some schemaName) (Some tableName) tp rowData [].

(** The loop of [genInsert]. *)
Definition insert_vals (ptable : option TableInfo) (columns : list ColumnInfo) (columnValues : gmap Z Datum)
    : outcome (list (Datum * ColumnInfo)) :=
  each (fun col =>
    let! val := match columnValues !! col_ID col with
                | Some val => Ret val
                | None => getDefaultOrZeroValue ptable col
                end in
    let! value := formatData val (col_Field col) in
    Ret (value, col)) columns.

Definition genInsert (schema : string) (ptable : option TableInfo) (table : TableInfo) (row : list byte) : outcome PEvent :=
  let! columnValues := insertRowToDatums table row in
  let! vals := insert_vals ptable (tb_Columns table) columnValues in
  let! rowData := encodeRow vals in
  Ret (packEvent schema (tb_Name table) EventType_Insert rowData).

(** The loop of [genUpdate], over the columns that have a new value; the old value of a
    column that has none is the zero datum. *)
Fixpoint update_vals (columns : list ColumnInfo) (oldColumnValues newColumnValues : gmap Z Datum)
    : outcome (list (Datum * Datum * ColumnInfo)) :=
  match columns with
  | [] => Ret []
  | col :: columns =>
    match newColumnValues !! col_ID col with
    | None => update_vals columns oldColumnValues newColumnValues
    | Some val =>
      let! oldValue := formatData (default ZeroDatum (oldColumnValues !! col_ID col)) (col_Field col) in
      let! newValue := formatData val (col_Field col) in
      let! rest := update_vals columns oldColumnValues newColumnValues in
      Ret ((oldValue, newValue, col) :: rest)
    end
  end.

Definition genUpdate (schema : string) (ptable : option TableInfo) (table : TableInfo) (row : list byte)
    (canAppendDefaultValue : bool) : outcome PEvent :=
  let columns := writableColumns table in
  let! (oldColumnValues, newColumnValues) := DecodeOldAndNewRow (Some row) (ToColumnMap columns) canAppendDefaultValue ptable in
  let! vals := update_vals columns oldColumnValues newColumnValues in
  let! rowData := encodeUpdateRow vals in
  Ret (packEvent schema (tb_Name table) EventType_Update rowData).

Fixpoint delete_vals (columns : list ColumnInfo) (columnValues : gmap Z Datum) : outcome (list (Datum * ColumnInfo)) :=
  match columns with
  | [] => Ret []
  | col :: columns =>
    match columnValues !! col_ID col with
    | None => delete_vals columns columnValues
    | Some val =>
      let! value := formatData val (col_Field col) in
      let! rest := delete_vals columns columnValues in
      Ret ((value, col) :: rest)
    end
  end.

Definition genDelete (schema : string) (table : TableInfo) (row : list byte) : outcome PEvent :=
  let! columnValues := DecodeRowToDatumMap row (ToColumnTypeMap (tb_Columns table)) in
  let! vals := delete_vals (tb_Columns table) (default ∅ columnValues) in
  let! rowData := encodeRow vals in
  Ret (packEvent schema (tb_Name table) EventType_Delete rowData).

(** The event of a changed row. *)
Definition row_event (mi : mut_info) (ev : event) : outcome PEvent :=
  let (mutType, row) := ev in
  match mutType with
  | MT_Insert => genInsert (mi_schema mi) (mi_pinfo mi) (mi_info mi) row
  | MT_Update => genUpdate (mi_schema mi) (mi_pinfo mi) (mi_info mi) row (mi_canAppend mi)
  | MT_DeleteRow => genDelete (mi_schema mi) (mi_info mi) row
  | _ => Fail ErrUnknownMutation
  end.

Fixpoint mutations_events (g : TableInfoGetter) (schemaVersion : Z) (muts : list TableMutation) : outcome (list PEvent) :=
  match muts with
  | [] => Ret []
  | mut :: muts =>
    let! mi := lookup_table g schemaVersion mut in
    let! evs := rows_of mut (row_event mi) in
    let! rest := mutations_events g schemaVersion muts in
    Ret (evs ++ rest)
  end.

(** The text of a DDL: the statement, after a [use] unless it creates a database. *)
Definition ddl_text (schema sql : string) (isCreateDatabase : bool) : string :=
  if isCreateDatabase then sql +:+ ";" else "use " +:+ quoteName schema +:+ "; " +:+ sql +:+ ";".

Definition TiBinlogToPbBinlog (g : TableInfoGetter) (schema table : string) (tiBinlog : Binlog)
    (pv : Mutation.PrewriteValue) : outcome PBinlog :=
  if 0 <? DdlJobId tiBinlog then
    let sql := string_of (DdlQuery tiBinlog) in
    let! isCreateDatabase := ParseOneStmt sql in
    Ret (mkPBinlog BinlogType_DDL (CommitTs tiBinlog) None (Some (sbytes (ddl_text schema sql isCreateDatabase))) [])
  else
    let! evs := mutations_events g (pv_SchemaVersion pv) (Mutations pv) in
    Ret (mkPBinlog BinlogType_DML (CommitTs tiBinlog) (Some (mkPDMLData evs [])) None []).

End Pb.

(** ** Reparo's side *)

(** [trimUse]. *)
Definition trimUse (sql : string) : string :=
  match split_on ";" sql with
  | first :: rest => if has_prefix "use " first then join ";" rest else sql
  | [] => sql
  end.

(** The statements that the parser returns, as far as they are looked at: the schema
    and the table they name. *)
Inductive stmt :=
  | UseStmt (db : string)
  | CreateDatabaseStmt (name : string)
  | DropDatabaseStmt (name : string)
  | TableStmt (schema table : string)  (** the table of any of the DDL statements on a table *)
  | RenameTableStmt (oldSchema oldTable newSchema newTable : string)  (** its first pair of tables *)
  | OtherStmt.

Section Reparo.
Context {L : Lib}.

(** [parser.New().Parse], and the printing of a datum with [%s]. *)
Context (Parse : string -> outcome (list stmt)) (SprintS : Datum -> string).
(** [types.NewDatum(value.GetMysqlBit())]. *)
Context (NewBitDatum : Datum -> Datum).

Fixpoint schema_table_loop (stmts : list stmt) (schema table : string) (haveUseStmt : bool) : outcome (string * string * bool) :=
  match stmts with
  | [] => Ret (schema, table, haveUseStmt)
  | UseStmt db :: stmts => schema_table_loop stmts db table true
  | CreateDatabaseStmt name :: stmts | DropDatabaseStmt name :: stmts => schema_table_loop stmts name table haveUseStmt
  | TableStmt s t :: stmts => schema_table_loop stmts (if bool_decide (s = ""%string) then schema else s) t haveUseStmt
  | RenameTableStmt _ _ s t :: stmts => schema_table_loop stmts (if bool_decide (s = ""%string) then schema else s) t haveUseStmt
  | OtherStmt :: _ => Fail (Err "unknown ddl type")
  end.

Definition parserSchemaTableFromDDL (ddlQuery : string) : outcome (string * string) :=
  let! stmts := Parse ddlQuery in
  let! (schema, table, haveUseStmt) := schema_table_loop stmts "" "" false in
  if (length stmts =? (if haveUseStmt : bool then 2 else 1))%nat then Ret (schema, table) else Fail (Err "invalid ddl").

(** The types that [formatValue] prints. *)
Definition printed_value_type (tp : Z) : bool :=
  bool_decide (tp ∈ [mysql_TypeDate; mysql_TypeDatetime; mysql_TypeNewDate; mysql_TypeTimestamp; mysql_TypeDuration;
                     mysql_TypeNewDecimal; mysql_TypeVarchar; mysql_TypeString; mysql_TypeJSON]).

Definition formatValue (value : Datum) (tp : Z) : Datum :=
  if is_nil (GetValue value) then value
  else if printed_value_type tp then NewDatum (VString (SprintS value))
  else if tp =? mysql_TypeEnum then NewDatum (VUint64 (GetMysqlEnum_Value value))
  else if tp =? mysql_TypeSet then NewDatum (VUint64 (GetMysqlSet_Value value))
  else if tp =? mysql_TypeBit then NewBitDatum value
  else value.

(** [codec.DecodeOne] of an optional byte string. *)
Definition decode_value (b : option (list byte)) : outcome Datum :=
  let! (_, d) := DecodeOne (default [] b) in Ret d.

(** [col.Tp[0]]. *)
Definition column_tp (col : PColumn) : outcome Z :=
  match default [] (pc_Tp col) with tp :: _ => Ret (byte_to_Z tp) | [] => Panic end.

Definition col_arg (c : list byte) : outcome (string * value) :=
  let! col := Column_Unmarshal c in
  let! val := decode_value (pc_Value col) in
  let! tp := column_tp col in
  Ret (pc_Name col, GetValue (formatValue val tp)).

Definition genColsAndArgs (row : list (list byte)) : outcome (list string * list value) :=
  let! cas := each col_arg row in Ret (cas.*1, cas.*2).

(** A column of an update: its name, its new and its old value. *)
Definition update_arg (c : list byte) : outcome (string * value * value) :=
  let! col := Column_Unmarshal c in
  let! oldDatum := decode_value (pc_Value col) in
  let! newDatum := decode_value (pc_ChangedValue col) in
  let! tp := column_tp col in
  Ret (pc_Name col, GetValue (formatValue newDatum tp), GetValue (formatValue oldDatum tp)).

Definition event_dml (ev : PEvent) : outcome DML :=
  let db := default ""%string (pe_SchemaName ev) in
  let tbl := default ""%string (pe_TableName ev) in
  if pe_Tp ev =? EventType_Insert then
    let! (cols, args) := genColsAndArgs (pe_Row ev) in
    let! vals := assign cols args ∅ in
    Ret (mkDML db tbl InsertDMLType ∅ vals no_info)
  else if pe_Tp ev =? EventType_Update then
    let! args := each update_arg (pe_Row ev) in
    let! vals := assign (fst <$> args.*1) (snd <$> args.*1) ∅ in
    let! old := assign (fst <$> args.*1) (args.*2) ∅ in
    Ret (mkDML db tbl UpdateDMLType old vals no_info)
  else if pe_Tp ev =? EventType_Delete then
    let! (cols, args) := genColsAndArgs (pe_Row ev) in
    let! vals := assign cols args ∅ in
    Ret (mkDML db tbl DeleteDMLType ∅ vals no_info)
  else Fail (Err "unknown type").

Definition pbBinlogToTxn {Meta} (binlog : PBinlog) : outcome (Txn Meta) :=
  if pb_Tp binlog =? BinlogType_DDL then
    let query := bstring (default [] (pb_DdlQuery binlog)) in
    let! (db, tbl) := parserSchemaTableFromDDL query in
    if bool_decide (db = ""%string) then Fail (Err "can't parse database name from DDL")
    else Ret (mkTxn [] (Some (mkDDL db tbl (trimUse query) false)) 0 None)
  else if pb_Tp binlog =? BinlogType_DML then
    let evs := match pb_DmlData binlog with Some d => pd_Events d | None => [] end in
    let! dmls := each event_dml evs in
    Ret (mkTxn dmls None 0 None)
  else Fail (Err "unknown type").

End Reparo.
