(* ===== verification/TranslatePbProofs.v ===== *)
(** * TranslatePbProofs
    What drainer writes to files and reparo replays: the statement of a DDL and the
    rows of a DML come out as the direct path has them, with two exceptions. *)
From Stdlib Require Import Init.Byte Strings.Byte SpecFloat Ascii.
From stdpp Require Import base option list gmap strings.
From S2P Require Import Prelude Text Binlog LoaderModel Schema Datum Translator TranslatorProofs Mutation TranslateTxn TranslateTxnProofs TranslateSecondary TranslateSecondaryProofs PbCodec PbCodecProofs TranslatePb.

(** ** Statements *)

Lemma join_cons sep a l : l <> [] -> join sep (a :: l) = a +:+ sep +:+ join sep l.
Proof. by destruct l. Qed.

Lemma join_split sep s : join (String sep "") (split_on sep s) = s.
Proof.
  induction s as [|c s IH]; [done|]. cbn [split_on]. destruct (split_on_cons sep s) as (w & ws & E). rewrite E in *.
  case_bool_decide as Hc.
  - subst c. change (join (String sep "") ("" :: w :: ws)) with (String sep (join (String sep "") (w :: ws))). by rewrite IH.
  - destruct ws as [|w' ws]; cbn [join] in IH |- *; [exact (f_equal (String c) IH)|exact (f_equal (String c) IH)].
Qed.

Lemma absent_append sep a b : absent sep a -> absent sep b -> absent sep (a +:+ b).
Proof.
  induction a as [|c a IH]; intros Ha Hb; [done|]. change (String c a +:+ b) with (String c (a +:+ b)). cbn [absent] in *.
  destruct Ha as [Hc Ha]. split; [done|by apply IH].
Qed.

Lemma absent_escape sep s : sep <> backquote -> absent sep s -> absent sep (escapeName s).
Proof.
  intros Hs. induction s as [|c s IH]; intros Ha; [done|]. cbn [escapeName absent] in *. destruct Ha as [Hc Ha].
  destruct (Ascii.eqb_spec c backquote) as [->|_]; cbn [absent]; [|by split; [|apply IH]]. split_and!; [done|done|by apply IH].
Qed.

(** The statement of a DDL survives the file: reparo's [trimUse] removes exactly the
    [use] that drainer put in front of it, for every name of the database without a
    semicolon (quotes included) and every statement; a statement that creates a database
    is left as it is. *)
Theorem ddl_text_roundtrip schema sql :
  (absent ";" schema -> trimUse (ddl_text schema sql false) = " " +:+ sql +:+ ";") /\
  (has_prefix "use " (sql +:+ ";") = false -> trimUse (ddl_text schema sql true) = sql +:+ ";").
Proof.
  split.
  - intros Ha. unfold trimUse, ddl_text.
    assert (Hq : absent ";" ("use " +:+ quoteName schema)).
    { apply absent_append; [repeat (split; [done|]); done|]. unfold quoteName. apply absent_append; [split; done|].
      apply absent_append; [by apply absent_escape|split; done]. }
    replace ("use " +:+ quoteName schema +:+ "; " +:+ sql +:+ ";") with (("use " +:+ quoteName schema) +:+ String ";" (" " +:+ sql +:+ ";"))
      by (rewrite str_app_assoc; reflexivity).
    rewrite split_on_app by done. rewrite has_prefix_app. apply join_split.
  - intros Hp. unfold trimUse, ddl_text. destruct (split_on_cons ";" (sql +:+ ";")) as (w & ws & E). rewrite E.
    destruct (has_prefix "use " w) eqn:Hw; [|done]. exfalso.
    assert (Hj : exists t, sql +:+ ";" = w +:+ t).
    { rewrite <- (join_split ";" (sql +:+ ";")), E. destruct ws as [|w' ws]; [exists ""%string; by rewrite str_app_nil_r|].
      eexists. by apply join_cons. }
    destruct Hj as [t Ht]. apply has_prefix_spec in Hw as [u ->]. rewrite Ht, str_app_assoc, has_prefix_app in Hp. done.
Qed.

(** A semicolon in the name of a database breaks the statement: reparo cuts the text
    in the middle of the quoted name and executes the rest of it. *)
Theorem trimUse_cuts_name :
  trimUse (ddl_text "a;b" "DROP TABLE t" false) = "b`; DROP TABLE t;"%string.
Proof. vm_compute. reflexivity. Qed.

(** ** Rows *)
Section Replay.
Context {L : Lib} (SprintS : Datum -> string) (NewBitDatum : Datum -> Datum).

Definition type_byte (c : ColumnInfo) : Prop := 0 <= ft_Tp (col_Field c) < 256.

(** The argument survives the file: the formatted datum is encoded, and the datum that
    is decoded is formatted to the same argument. *)
Definition survives (c : ColumnInfo) (d1 : Datum) (v : value) : Prop :=
  exists b d2 rest, EncodeValue d1 = Ret b /\ DecodeOne b = Ret (rest, d2) /\
    GetValue (formatValue SprintS NewBitDatum d2 (ft_Tp (col_Field c))) = v.

Definition cell_bytes (c : ColumnInfo) (b : list byte) (b' : option (list byte)) : list byte :=
  Column_Marshal (mkPColumn (col_Name c) (Some [byte_of_Z (ft_Tp (col_Field c))]) (pb_type_name c) (Some b) b' []).

(** No encoding of the column is too long for a slice. *)
Definition small (c : ColumnInfo) : Prop := type_byte c /\ forall d b d' b',
  (EncodeValue d = Ret b -> len (cell_bytes c b None) < 2 ^ 63) /\
  (EncodeValue d = Ret b -> EncodeValue d' = Ret b' -> len (cell_bytes c b (Some b')) < 2 ^ 63).

Lemma column_tp_put c : type_byte c -> forall nm mt v cv un,
  column_tp (mkPColumn nm (Some [byte_of_Z (ft_Tp (col_Field c))]) mt v cv un) = Ret (ft_Tp (col_Field c)).
Proof. intros Ht nm mt v cv un. unfold column_tp. cbn. rewrite byte_to_of_Z. by rewrite Z.mod_small. Qed.

Lemma col_arg_put c d1 v b : small c -> survives c d1 v -> EncodeValue d1 = Ret b ->
  col_arg SprintS NewBitDatum (cell_bytes c b None) = Ret (col_Name c, v).
Proof.
  intros [Ht Hs] (b0 & d2 & rest & He & Hd & Hv) Hb. rewrite Hb in He. injection He as <-. unfold col_arg, cell_bytes.
  rewrite Column_roundtrip; [|done|by apply (Hs d1 b d1 b)]. cbn [obind pc_Value pc_Name]. unfold decode_value. cbn [from_option id].
  rewrite Hd. cbn [obind]. rewrite column_tp_put by done. cbn [obind]. by rewrite Hv.
Qed.

Lemma update_arg_put c d1 d1' v v' b b' : small c -> survives c d1 v -> survives c d1' v' -> EncodeValue d1 = Ret b -> EncodeValue d1' = Ret b' ->
  update_arg SprintS NewBitDatum (cell_bytes c b (Some b')) = Ret (col_Name c, v', v).
Proof.
  intros [Ht Hs] (b0 & d2 & rest & He & Hd & Hv) (b0' & d2' & rest' & He' & Hd' & Hv') Hb Hb'.
  rewrite Hb in He. injection He as <-. rewrite Hb' in He'. injection He' as <-. unfold update_arg, cell_bytes.
  rewrite Column_roundtrip; [|done|by apply (Hs d1 b d1' b')]. cbn [obind pc_Value pc_ChangedValue pc_Name]. unfold decode_value. cbn [from_option id].
  rewrite Hd. cbn [obind]. rewrite Hd'. cbn [obind]. rewrite column_tp_put by done. cbn [obind]. by rewrite Hv, Hv'.
Qed.

(** Encoding a row and reading its names and arguments. *)
Lemma encodeRow_read cells vs : Forall2 (fun dc v => small (snd dc) /\ survives (snd dc) (fst dc) v) cells vs ->
  exists rowData, encodeRow cells = Ret rowData /\ genColsAndArgs SprintS NewBitDatum rowData = Ret (col_Name <$> cells.*2, vs).
Proof.
  intros HF. assert (H : exists rowData, encodeRow cells = Ret rowData /\ each (col_arg SprintS NewBitDatum) rowData = Ret (zip (col_Name <$> cells.*2) vs)).
  { induction HF as [|[d c] v cells vs [Hs Hv] HF (rd & IH1 & IH2)]; [by exists []|]. cbn [fst snd] in *.
    destruct (Hv) as (b & d2 & rest & He & Hd & Hf). exists (cell_bytes c b None :: rd). unfold encodeRow in *. cbn [each]. rewrite He. cbn [obind].
    rewrite IH1. split; [done|]. rewrite (col_arg_put _ _ _ _ Hs Hv He). cbn [obind]. rewrite IH2. done. }
  destruct H as (rd & H1 & H2). exists rd. split; [done|]. unfold genColsAndArgs. rewrite H2. cbn [obind].
  apply Forall2_length in HF. rewrite fst_zip, snd_zip by (rewrite !length_fmap; lia). done.
Qed.

Lemma encodeUpdateRow_read cells olds news :
  Forall2 (fun c v => small (snd c) /\ survives (snd c) (fst (fst c)) v) cells olds ->
  Forall2 (fun c v => survives (snd c) (snd (fst c)) v) cells news ->
  exists rowData args, encodeUpdateRow cells = Ret rowData /\ each (update_arg SprintS NewBitDatum) rowData = Ret args /\
    (fst <$> args.*1) = (col_Name <$> cells.*2) /\ (snd <$> args.*1) = news /\ args.*2 = olds.
Proof.
  intros HO. revert news. induction HO as [|[[d d'] c] v cells olds [Hs Hv] HO IH]; intros news HN; inversion HN as [|? v' ? news' Hv' HN']; subst.
  { by exists [], []. }
  cbn [fst snd] in *. destruct (IH _ HN') as (rd & args & H1 & H2 & H3 & H4 & H5).
  destruct (Hv) as (b & d2 & rest & He & Hd & Hf), (Hv') as (b' & d2' & rest' & He' & Hd' & Hf').
  exists (cell_bytes c b (Some b') :: rd), ((col_Name c, v', v) :: args). unfold encodeUpdateRow in *. cbn [each]. rewrite He. cbn [obind]. rewrite He'. cbn [obind].
  rewrite H1. split; [done|]. rewrite (update_arg_put _ _ _ _ _ _ _ Hs Hv Hv' He He'). cbn [obind]. rewrite H2. split; [done|].
  cbn. by rewrite <- H3, <- H4, <- H5.
Qed.

(** *** Events *)

(** The datum of the column is formatted to an argument that survives. *)
Definition replayed (c : ColumnInfo) (d : Datum) : Prop :=
  small c /\ exists d1, formatData d (col_Field c) = Ret d1 /\ survives c d1 (GetValue d1).

Lemma insert_vals_replayed pinfo columns datums :
  (forall c, c ∈ columns -> exists d, insert_datum pinfo datums c d /\ replayed c d) ->
  exists cells vs, insert_vals pinfo columns datums = Ret cells /\ cells.*2 = columns /\
    Forall2 (fun dc v => small (snd dc) /\ survives (snd dc) (fst dc) v) cells vs /\ Forall2 (full_arg pinfo datums) columns vs.
Proof.
  unfold insert_vals. induction columns as [|c cs IH]; intros Hc; [exists [], []; split_and!; constructor|].
  destruct (Hc c) as (d & Hd & Hs & d1 & Hf & Hv); [by left|].
  destruct IH as (cells & vs & H1 & H2 & H3 & H4); [intros c' Hc'; apply Hc; by right|].
  exists ((d1, c) :: cells), (GetValue d1 :: vs). cbn [each].
  assert (Hval : (match datums !! col_ID c with Some val => Ret val | None => getDefaultOrZeroValue pinfo c end) = Ret d)
    by (by destruct Hd as [->|[-> ->]]).
  rewrite Hval. cbn [obind]. rewrite Hf. cbn [obind]. rewrite H1. split_and!; [done|cbn; by rewrite H2|by constructor|].
  constructor; [|done]. exists d. split; [done|]. by exists d1.
Qed.

Lemma delete_vals_replayed columns datums :
  (forall c d, c ∈ columns -> datums !! col_ID c = Some d -> replayed c d) ->
  exists cells vs, delete_vals columns datums = Ret cells /\ cells.*2 = present datums columns /\
    Forall2 (fun dc v => small (snd dc) /\ survives (snd dc) (fst dc) v) cells vs /\
    generateColumnAndValue columns datums = Ret (present datums columns, vs).
Proof.
  unfold present. induction columns as [|c cs IH]; intros Hc; [exists [], []; split_and!; constructor|].
  destruct IH as (cells & vs & H1 & H2 & H3 & H4); [intros c' d Hc'; apply Hc; by right|]. cbn [delete_vals generateColumnAndValue].
  rewrite filter_cons. destruct (datums !! col_ID c) as [d|] eqn:E; [|rewrite decide_False by (by intros [? ?]); by exists cells, vs].
  rewrite decide_True by eauto. destruct (Hc c d) as (Hs & d1 & Hf & Hv); [by left|done|].
  exists ((d1, c) :: cells), (GetValue d1 :: vs). rewrite Hf. cbn [obind]. rewrite H1, H4. cbn [obind].
  split_and!; [done|cbn; by rewrite H2|by constructor|done].
Qed.

Lemma update_vals_replayed columns old new : dom old = dom new ->
  (forall c d, c ∈ columns -> old !! col_ID c = Some d \/ new !! col_ID c = Some d -> replayed c d) ->
  exists cells olds news, update_vals columns old new = Ret cells /\ cells.*2 = present new columns /\
    Forall2 (fun c v => small (snd c) /\ survives (snd c) (fst (fst c)) v) cells olds /\
    Forall2 (fun c v => survives (snd c) (snd (fst c)) v) cells news /\
    generateColumnAndValue columns old = Ret (present old columns, olds) /\
    generateColumnAndValue columns new = Ret (present new columns, news).
Proof.
  intros Hdom. unfold present. induction columns as [|c cs IH]; intros Hc; [exists [], [], []; split_and!; constructor|].
  destruct IH as (cells & olds & news & H1 & H2 & H3 & H4 & H5 & H6); [intros c' d Hc'; apply Hc; by right|].
  cbn [update_vals generateColumnAndValue]. rewrite !filter_cons.
  destruct (new !! col_ID c) as [d|] eqn:En.
  - assert (Ho : exists o, old !! col_ID c = Some o).
    { apply (elem_of_dom (D := gset Z)). rewrite Hdom. by eapply elem_of_dom_2. }
    destruct Ho as [o Eo]. rewrite Eo, !decide_True by eauto.
    destruct (Hc c d) as (Hs & d1 & Hf & Hv); [by left|by right|]. destruct (Hc c o) as (_ & o1 & Hfo & Hvo); [by left|by left|].
    exists ((o1, d1, c) :: cells), (GetValue o1 :: olds), (GetValue d1 :: news). cbn [from_option id]. rewrite Hfo, Hf. cbn [obind].
    rewrite H1, H5, H6. cbn [obind]. split_and!; [done|cbn; by rewrite H2|by constructor|by constructor|done|done].
  - assert (Eo : old !! col_ID c = None).
    { apply (not_elem_of_dom (D := gset Z)). rewrite Hdom. by apply not_elem_of_dom. }
    rewrite Eo, !decide_False by (by intros [? ?]). by exists cells, olds, news.
Qed.

Definition event_replayed (mi : mut_info) (ev : event) : Prop :=
  let info := mi_info mi in
  match fst ev with
  | MT_Insert => exists datums, insertRowToDatums info (snd ev) = Ret datums /\
      forall c, c ∈ tb_Columns info -> exists d, insert_datum (mi_pinfo mi) datums c d /\ replayed c d
  | MT_Update => exists old new,
      DecodeOldAndNewRow (Some (snd ev)) (ToColumnMap (writableColumns info)) (mi_canAppend mi) (mi_pinfo mi) = Ret (old, new) /\
      forall c d, c ∈ writableColumns info -> old !! col_ID c = Some d \/ new !! col_ID c = Some d -> replayed c d
  | MT_DeleteRow => exists datums, DecodeRowToDatumMap (snd ev) (ToColumnTypeMap (tb_Columns info)) = Ret datums /\
      forall c d, c ∈ tb_Columns info -> default ∅ datums !! col_ID c = Some d -> replayed c d
  | _ => False
  end.

Definition replay_ok (me : mut_info * event) : Prop :=
  NoDup (col_Name <$> tb_Columns (mi_info (fst me))) /\ mi_table (fst me) = tb_Name (mi_info (fst me)) /\
  event_replayed (fst me) (snd me).

Definition replay_dml (me : mut_info * event) : outcome DML :=
  let! e := row_event (fst me) (snd me) in event_dml SprintS NewBitDatum e.

Lemma replay_insert mi row : replay_ok (mi, (MT_Insert, row)) ->
  exists d d', dml_of (mi, (MT_Insert, row)) = Ret d /\ replay_dml (mi, (MT_Insert, row)) = Ret d' /\ same_dml d d'.
Proof.
  intros (Hn & Ht & datums & Hr & Hd). cbn [fst snd] in *.
  destruct (insert_vals_replayed _ _ _ Hd) as (cells & vs & H1 & H2 & H3 & H4).
  destruct (encodeRow_read _ _ H3) as (rd & He & Hg). rewrite H2 in Hg.
  destruct (assign_row_spec _ _ _ Hn H4) as (r' & Ha' & Hs').
  assert (Hw : exists ws, insert_args (mi_pinfo mi) (writableColumns (mi_info mi)) datums = Ret (col_Name <$> writableColumns (mi_info mi), ws) /\
    Forall2 (full_arg (mi_pinfo mi) datums) (writableColumns (mi_info mi)) ws).
  { assert (Hall : forall c, c ∈ writableColumns (mi_info mi) -> exists d, insert_datum (mi_pinfo mi) datums c d /\ replayed c d)
      by (intros c Hc; apply Hd; by apply writable_subset). clear - Hall.
    induction (writableColumns (mi_info mi)) as [|c cs IH]; [exists []; split; constructor|].
    destruct (Hall c) as (d & Hd & _ & d1 & Hf & _); [by left|]. destruct IH as (ws & Hi & HF); [intros c' Hc'; apply Hall; by right|].
    exists (GetValue d1 :: ws). cbn [insert_args].
    assert (Hval : (match datums !! col_ID c with Some val => Ret val | None => getDefaultOrZeroValue (mi_pinfo mi) c end) = Ret d)
      by (by destruct Hd as [->|[-> ->]]).
    rewrite Hval. cbn [obind]. rewrite Hf. cbn [obind]. rewrite Hi. split; [done|]. constructor; [|done]. exists d. split; [done|]. by exists d1. }
  destruct Hw as (ws & Hi & HF). destruct (assign_row_spec _ _ _ (writable_names _ Hn) HF) as (r & Ha & Hs).
  exists (mkDML (mi_schema mi) (mi_table mi) InsertDMLType ∅ r no_info), (mkDML (mi_schema mi) (tb_Name (mi_info mi)) InsertDMLType ∅ r' no_info).
  split_and!.
  - unfold dml_of. cbn [fst snd row_dml]. unfold genMysqlInsert. rewrite Hr. cbn [obind]. rewrite Hi. cbn [obind]. by rewrite Ha.
  - unfold replay_dml. cbn [fst snd row_event]. unfold genInsert. rewrite Hr. cbn [obind]. rewrite H1. cbn [obind]. rewrite He. cbn [obind].
    unfold event_dml, packEvent. cbn [pe_SchemaName pe_TableName pe_Tp pe_Row from_option id]. rewrite Z.eqb_refl, Hg. cbn [obind]. by rewrite Ha'.
  - split; cbn; [done|done|done| |done]. eapply row_spec_subset; [apply full_arg_functional|apply writable_subset|exact Hs|exact Hs'].
Qed.

Lemma replay_delete mi row : replay_ok (mi, (MT_DeleteRow, row)) ->
  exists d, dml_of (mi, (MT_DeleteRow, row)) = Ret d /\ replay_dml (mi, (MT_DeleteRow, row)) = Ret d.
Proof.
  intros (Hn & Ht & datums & Hr & Hd). cbn [fst snd] in *.
  destruct (delete_vals_replayed _ _ Hd) as (cells & vs & H1 & H2 & H3 & H4).
  destruct (encodeRow_read _ _ H3) as (rd & He & Hg). rewrite H2 in Hg.
  destruct (generate_assign _ _ _ _ Hn H4) as (r & Ha & _). exists (mkDML (mi_schema mi) (mi_table mi) DeleteDMLType ∅ r no_info). split.
  - unfold dml_of. cbn [fst snd row_dml]. unfold genMysqlDelete. rewrite Hr. cbn [obind]. rewrite H4. cbn [obind]. by rewrite Ha.
  - unfold replay_dml. cbn [fst snd row_event]. unfold genDelete. rewrite Hr. cbn [obind]. rewrite H1. cbn [obind]. rewrite He. cbn [obind].
    unfold event_dml, packEvent. cbn [pe_SchemaName pe_TableName pe_Tp pe_Row from_option id]. unfold genColumnNameList in Ha.
    change (EventType_Delete =? EventType_Insert) with false. change (EventType_Delete =? EventType_Update) with false. cbn iota.
    rewrite Z.eqb_refl, Hg. cbn [obind]. rewrite Ha, Ht. done.
Qed.

Lemma replay_update mi row : replay_ok (mi, (MT_Update, row)) ->
  exists d, dml_of (mi, (MT_Update, row)) = Ret d /\ replay_dml (mi, (MT_Update, row)) = Ret d.
Proof.
  intros (Hn & Ht & old & new & Hr & Hd). cbn [fst snd] in *.
  destruct (DecodeOldAndNewRow_dom _ _ _ _ _ _ (ToColumnMap_filed _) Hr) as [Hsame _].
  destruct (update_vals_replayed _ _ _ Hsame Hd) as (cells & olds & news & H1 & H2 & H3 & H4 & H5 & H6).
  destruct (encodeUpdateRow_read _ _ _ H3 H4) as (rd & args & He & Hg & Hnm & Hnew & Hold). rewrite H2 in Hnm.
  destruct (generate_assign _ _ _ _ (writable_names _ Hn) H5) as (rO & HaO & _), (generate_assign _ _ _ _ (writable_names _ Hn) H6) as (rN & HaN & _).
  rewrite (present_same old new) in HaO by done. unfold genColumnNameList in *.
  exists (mkDML (mi_schema mi) (mi_table mi) UpdateDMLType rO rN no_info). split.
  - unfold dml_of. cbn [fst snd row_dml]. unfold genMysqlUpdate, decode.
    cbn [newUpdateDecoder ud_columns ud_canAppendDefaultValue ud_ptable]. rewrite Hr. cbn [obind].
    rewrite H5. cbn [obind]. rewrite H6. cbn [obind]. unfold genColumnNameList. rewrite HaN. cbn [obind]. by rewrite HaO.
  - unfold replay_dml. cbn [fst snd row_event]. unfold genUpdate. rewrite Hr. cbn [obind]. rewrite H1. cbn [obind]. rewrite He. cbn [obind].
    unfold event_dml, packEvent. cbn [pe_SchemaName pe_TableName pe_Tp pe_Row from_option id].
    change (EventType_Update =? EventType_Insert) with false. cbn iota. rewrite Z.eqb_refl, Hg. cbn [obind].
    rewrite Hnm, Hnew, Hold, HaN. cbn [obind]. rewrite HaO, Ht. done.
Qed.

Lemma replay_event me : replay_ok me -> exists d d', dml_of me = Ret d /\ replay_dml me = Ret d' /\ same_dml d d'.
Proof.
  destruct me as [mi [tp row]]. intros Hok. destruct tp; [by apply replay_insert| |by destruct Hok as (_ & _ & [])|by destruct Hok as (_ & _ & [])|].
  - destruct (replay_update _ _ Hok) as (d & H1 & H2). exists d, d. by split_and!.
  - destruct (replay_delete _ _ Hok) as (d & H1 & H2). exists d, d. by split_and!.
Qed.

Lemma mutations_events_each g v muts mes : txn_events g v muts mes ->
  mutations_events g v muts = each (fun me => row_event (fst me) (snd me)) mes.
Proof using.
  induction 1 as [|mut muts mi evs rest Hl He Ht IH]; [done|]. cbn [mutations_events]. rewrite Hl. cbn [obind].
  rewrite (rows_of_events _ _ _ He), IH, each_app, each_fmap. done.
Qed.

Lemma row_event_wf mi ev e : row_event mi ev = Ret e -> event_wf e.
Proof using.
  destruct ev as [tp row]. destruct tp; [| |done|done|]; cbn [row_event]; unfold genInsert, genUpdate, genDelete; intros H.
  all: repeat (apply obind_Ret_inv in H as (? & ? & H)); repeat case_match; repeat (apply obind_Ret_inv in H as (? & ? & H)).
  all: injection H as <-; split; [done|]; unfold in_i32, packEvent, EventType_Insert, EventType_Update, EventType_Delete; cbn; lia.
Qed.


(** The values of BIT columns do not survive the file: drainer writes them as
    unsigned integers, and reparo takes the bytes of the decoded datum, of which an
    integer has none, so every value of such a column is replayed as the same one. *)
Theorem bit_lost (bit_of : option (list byte) -> Datum) c :
  (forall d, NewBitDatum d = bit_of (GetBinaryLiteral d)) ->
  (forall b n, ToInt b = Ret n -> in_u64 n) ->
  (forall n b, in_u64 n -> EncodeValue (NewDatum (VUint64 n)) = Ret b ->
    exists rest d2, DecodeOne b = Ret (rest, d2) /\ GetValue d2 = VUint64 n /\ GetBinaryLiteral d2 = None) ->
  ft_Tp (col_Field c) = mysql_TypeBit -> small c ->
  exists v0, forall d d1 b, GetValue d <> VNil -> formatData d (col_Field c) = Ret d1 -> EncodeValue d1 = Ret b ->
    col_arg SprintS NewBitDatum (cell_bytes c b None) = Ret (col_Name c, v0).
Proof.
  intros Hbit Hint Hcodec Htp Hs. exists (GetValue (bit_of None)). intros d d1 b Hnn Hf He.
  unfold formatData in Hf. rewrite (is_nil_false _ Hnn), Htp in Hf. cbn in Hf. apply obind_Ret_inv in Hf as (n & Hn & [= <-]).
  destruct (Hcodec n b (Hint _ _ Hn) He) as (rest & d2 & Hd & Hv & Hb).
  apply (col_arg_put _ (NewDatum (VUint64 n))); [done| |done]. exists b, d2, rest. split_and!; [done|done|].
  unfold formatValue. rewrite Hv, Htp. cbn. by rewrite Hbit, Hb.
Qed.
End Replay.
