(* ===== verification/TranslateExamples.v ===== *)
(** * TranslateExamples
    A small library of data and encodings, which satisfies the laws, and the
    translation theorems at a transaction on a table with a primary key, a generated
    column and a column that was added later. *)
From Stdlib Require Import Init.Byte Strings.Byte SpecFloat Ascii.
From stdpp Require Import base option list gmap strings.
From S2P Require Import Prelude Text Binlog LoaderModel Schema Datum Translator TranslatorProofs Mutation TranslateTxn TranslateTxnProofs TranslateSecondary TranslateSecondaryProofs PbCodec PbCodecProofs TranslatePb TranslatePbProofs.

Module ToyLib.

Definition sprint (d : value) : string :=
  match d with VInt64 z => itoa z | VUint64 z => dec z | VString s => s | _ => "" end.

(** A flag, and eight bytes for a number or for the length of a text below [2^16]. *)
Definition encode_value (d : value) : outcome (list byte) :=
  match d with
  | VNil => Ret [x00]
  | VInt64 z => Ret (x03 :: le_bytes 8 z)
  | VUint64 z => Ret (x04 :: le_bytes 8 z)
  | VString s => if len (sbytes s) <? 2 ^ 16 then Ret (x02 :: le_bytes 8 (len (sbytes s)) ++ sbytes s) else Fail (Err "too long")
  | _ => Fail (Err "unsupported")
  end.

Definition decode_one (b : list byte) : outcome (list byte * value) :=
  match b with
  | x00 :: r => Ret (r, VNil)
  | x03 :: r => Ret (drop 8 r, VInt64 (wrap_i64 (le_value (take 8 r))))
  | x04 :: r => Ret (drop 8 r, VUint64 (le_value (take 8 r)))
  | x02 :: r => let n := Z.to_nat (le_value (take 8 r)) in Ret (drop n (drop 8 r), VString (bstring (take n (drop 8 r))))
  | _ => Fail (Err "invalid encoded key")
  end.

Definition cut_one (b : list byte) : outcome (list byte * list byte) :=
  let! (rest, _) := decode_one b in Ret (take (length b - length rest) b, rest).

Fixpoint decode_row (fuel : nat) (b : list byte) (types : gmap Z FieldType) (m : gmap Z value) : outcome (option (gmap Z value)) :=
  match b, fuel with
  | [], _ => Ret (Some m)
  | _, O => Fail (Err "row")
  | _, S fuel =>
    let! (b, cid) := decode_one b in
    let! (b, v) := decode_one b in
    match cid with
    | VInt64 id => decode_row fuel b types (match types !! id with Some _ => <[id := v]> m | None => m end)
    | _ => Fail (Err "row")
    end
  end.

Definition type_to_str (tp : Z) (cs : string) : string :=
  if tp =? 3 then "int" else if tp =? 15 then "varchar" else if tp =? 16 then "bit" else "unknown".

Definition bytes_of_value (d : value) : option (list byte) :=
  match d with VString s => Some (sbytes s) | VBytes b => Some b | _ => None end.

Definition uint_of (d : value) : Z := match d with VUint64 n => n | _ => 0 end.

#[export] Instance toy : Lib := {|
  Datum := value;
  NewDatum := id;
  GetValue := id;
  Sprint := sprint;
  IsNull := is_nil;
  GetInt64 := fun d => match d with VInt64 z => z | _ => 0 end;
  GetFloat64 := fun d => match d with VDouble f => f | _ => S754_zero false end;
  GetString := fun d => match d with VString s => s | _ => "" end;
  GetBytes := bytes_of_value;
  GetMysqlEnum_Value := uint_of;
  GetMysqlSet_Value := uint_of;
  GetMysqlJSON_String := sprint;
  GetBinaryLiteral := bytes_of_value;
  ToInt := fun b => Ret (wrap_u64 (be_value (default [] b)));
  ZeroDatum := VNil;
  ParseEnumName := fun _ _ => Ret (VUint64 1);
  ParseSetName := fun _ _ => Ret (VUint64 1);
  GetZeroValue := fun _ => VInt64 0;
  TypeToStr := type_to_str;
  NilFlag := x00;
  DecodeOne := decode_one;
  CutOne := cut_one;
  EncodeValue := encode_value;
  DecodeColumnValue := fun b _ => let! (_, d) := decode_one b in Ret d;
  DecodeRowToDatumMap := fun b types => decode_row (length b) b types ∅;
  Unflatten := fun d _ => Ret d;
  utc_to_local := fun s => Ret s;
|}.

#[export] Instance toy_laws : DatumLaws toy.
Proof. split; done. Qed.

Definition EncodeID (id : Z) : list byte := x03 :: le_bytes 8 id.

Lemma decode_int id rest : in_i64 id -> decode_one (EncodeID id ++ rest) = Ret (rest, VInt64 id).
Proof.
  intros H. unfold EncodeID. cbn [app decode_one]. rewrite take_app_le, drop_app_le by (rewrite length_le_bytes; done).
  rewrite take_ge, drop_ge by (rewrite length_le_bytes; done). by rewrite le_value_wrap64, wrap_i64_u64.
Qed.

Lemma cut_int id rest : cut_one (EncodeID id ++ rest) = Ret (EncodeID id, rest).
Proof.
  unfold cut_one, EncodeID. cbn [app decode_one obind]. rewrite drop_app_le by (rewrite length_le_bytes; done).
  rewrite drop_ge by (rewrite length_le_bytes; done). cbn [app]. do 2 f_equal. cbn [length]. rewrite length_app, length_le_bytes.
  replace (S (8 + length rest) - length rest)%nat with (S (length (le_bytes 8 id))) by (rewrite length_le_bytes; lia).
  cbn [take]. by rewrite take_app_length.
Qed.

#[export] Instance toy_writer : WriterLaws EncodeID.
Proof.
  split.
  - intros id rest. apply cut_int.
  - intros id Hid. exists (VInt64 id), []. split; [|done]. rewrite <- (app_nil_r (EncodeID id)). by apply decode_int.
  - intros id. by eexists _, _.
Qed.

(** ** A table *)

Definition column (id : Z) (name : string) (tp flag : Z) (gen : bool) (dflt : value) : ColumnInfo :=
  mkColumn id name (mkField tp flag "" []) StatePublic gen dflt.

Definition c_id : ColumnInfo := column 1 "id" 3 3 false VNil.
Definition c_name : ColumnInfo := column 2 "name" 15 0 false VNil.
Definition c_gen : ColumnInfo := column 3 "gen" 15 0 true (VString "g").
Definition c_extra : ColumnInfo := column 4 "extra" 15 0 false (VString "x").

Definition tbl : TableInfo := mkTable 10 "t" true false [c_id; c_name; c_gen; c_extra] [].

Definition getter (can : bool) : TableInfoGetter :=
  mkGetter (fun id => if id =? 10 then Some tbl else None) (fun _ => ("d"%string, "t"%string, true)) (fun _ _ => can) (fun _ _ => Some tbl).

(** ** Rows *)

Definition int_bytes (z : Z) : list byte := x03 :: le_bytes 8 z.
Definition text_bytes (s : string) : list byte := x02 :: le_bytes 8 (len (sbytes s)) ++ sbytes s.

(** The handle and the columns. *)
Definition insert_row : list byte := int_bytes 5 ++ int_bytes 2 ++ text_bytes "ann".
Definition delete_row : list byte := int_bytes 1 ++ int_bytes 5 ++ int_bytes 2 ++ text_bytes "bob".
Definition update_cells : list ucell := [mkCell 1 (int_bytes 5) (int_bytes 5); mkCell 2 (text_bytes "ann") (text_bytes "bob")].
Definition upd_row : list byte := update_row EncodeID update_cells.

Definition mut : TableMutation := mkMutation 10 [insert_row] [upd_row] [delete_row] [MT_Insert; MT_Update; MT_DeleteRow].
Definition pv : Mutation.PrewriteValue := mkPrewriteValue 7 [mut].
Definition blg : Binlog := mkBinlog BinlogType_Commit 1 2 [] [] [] 0 0.

Definition mi : mut_info := mkMutInfo tbl (Some tbl) true "d" "t".
Definition mes : list (mut_info * event) := [(mi, (MT_Insert, insert_row)); (mi, (MT_Update, upd_row)); (mi, (MT_DeleteRow, delete_row))].

Lemma mes_events : txn_events (getter true) (pv_SchemaVersion pv) (Mutations pv) mes.
Proof. apply (te_cons _ _ mut [] mi [(MT_Insert, insert_row); (MT_Update, upd_row); (MT_DeleteRow, delete_row)] []); [vm_compute; reflexivity..|constructor]. Qed.

Lemma tbl_names : NoDup (col_Name <$> tb_Columns tbl).
Proof. by_decide. Qed.

Lemma writable_tbl : writableColumns tbl = [c_id; c_name; c_extra].
Proof. reflexivity. Qed.

Definition txn : Txn unit := mkTxn
  [mkDML "d" "t" InsertDMLType ∅ {["id" := VInt64 5; "name" := VString "ann"; "extra" := VString "x"]} no_info;
   mkDML "d" "t" UpdateDMLType {["id" := VInt64 5; "name" := VString "ann"; "extra" := VString "x"]}
     {["id" := VInt64 5; "name" := VString "bob"; "extra" := VString "x"]} no_info;
   mkDML "d" "t" DeleteDMLType ∅ {["id" := VInt64 5; "name" := VString "bob"]} no_info] None 0 None.

Lemma txn_computed : TiBinlogToTxn (getter true) "" "" blg pv false = Ret txn.
Proof. vm_compute. reflexivity. Qed.

Lemma txn_translates_witness :
  TiBinlogToTxn (getter true) "" "" blg pv false = Ret txn /\
  Txn_DDL txn = None /\ Forall2 (fun me dml => row_translated (fst me) (snd me) dml) mes (DMLs txn).
Proof.
  split; [exact txn_computed|].
  apply (txn_translates (getter true) "" "" blg pv false mes txn);
    [vm_compute; discriminate|exact mes_events|repeat (apply Forall_cons_iff; split; [exact tbl_names|]); constructor|exact txn_computed].
Defined.

(** ** Updates *)

Definition oldv (id : Z) : value := if id =? 1 then VInt64 5 else VString "ann".
Definition newv (id : Z) : value := if id =? 1 then VInt64 5 else VString "bob".

Lemma int_ok z : value_ok (int_bytes z).
Proof. intros rest. apply cut_int. Qed.

Lemma decode_toy_text s rest : len (sbytes s) < 2 ^ 64 -> decode_one (text_bytes s ++ rest) = Ret (rest, VString s).
Proof.
  intros Hl. unfold text_bytes. cbn [app decode_one]. rewrite <- app_assoc.
  assert (Ht : forall x : list byte, take 8 (le_bytes 8 (len (sbytes s)) ++ x) = le_bytes 8 (len (sbytes s)))
    by (intros x; by rewrite take_app_le, take_ge by (rewrite length_le_bytes; done)).
  assert (Hd : forall x : list byte, drop 8 (le_bytes 8 (len (sbytes s)) ++ x) = x)
    by (intros x; by rewrite drop_app_le, drop_ge by (rewrite length_le_bytes; done)).
  rewrite Ht, Hd, le_value_u64, Nat2Z.id by in_range. by rewrite take_app_length, drop_app_length, sbytes_bstring.
Qed.

Lemma text_ok s : len (sbytes s) < 2 ^ 64 -> value_ok (text_bytes s).
Proof.
  intros Hl rest. cbv [CutOne toy]. unfold cut_one. rewrite decode_toy_text by done. cbn [obind]. do 2 f_equal.
  rewrite length_app. replace (length (text_bytes s) + length rest - length rest)%nat with (length (text_bytes s)) by lia.
  by rewrite take_app_length.
Qed.

Lemma update_roundtrip_witness :
  update_cells <> [] /\ NoDup (uc_id <$> update_cells) /\
  exists dml, dml_of (mi, (MT_Update, update_row EncodeID update_cells)) = Ret dml /\
    DML_Tp dml = UpdateDMLType /\ Database dml = mi_schema mi /\ Table dml = mi_table mi /\
    dom (Values dml) = list_to_set (col_Name <$> writableColumns tbl) /\ dom (OldValues dml) = list_to_set (col_Name <$> writableColumns tbl) /\
    forall c, c ∈ writableColumns tbl ->
      (written update_cells c ->
        col_value (OldValues dml) c (oldv (col_ID c)) /\ col_value (Values dml) c (newv (col_ID c))) /\
      (~ written update_cells c ->
        exists d, getDefaultOrZeroValue (mi_pinfo mi) c = Ret d /\ col_value (OldValues dml) c d /\ col_value (Values dml) c d).
Proof.
  assert (Hn : NoDup (uc_id <$> update_cells)) by by_decide.
  split; [done|]. split; [exact Hn|]. apply (update_roundtrip (L := toy) EncodeID mi update_cells oldv newv).
  - done.
  - exact Hn.
  - by_decide.
  - exact tbl_names.
  - change (writableColumns (mi_info mi)) with [c_id; c_name; c_extra]. repeat (apply Forall_cons_iff; split; [apply formats_not_bit; done|]). constructor.
  - repeat constructor; intros; reflexivity.
  - apply Forall_cons_iff; split; [split_and!; [unfold in_i64; cbn; lia|exact (int_ok 5)|exact (int_ok 5)]|].
    apply Forall_cons_iff; split; [|constructor].
    split_and!; [unfold in_i64; cbn; lia|apply (text_ok "ann"); reflexivity|apply (text_ok "bob"); reflexivity].
  - intros c Hc _. split; [done|]. revert c Hc. apply list.Forall_forall. change (writableColumns (mi_info mi)) with [c_id; c_name; c_extra].
    repeat (apply Forall_cons_iff; split; [eexists; reflexivity|]). constructor.
Defined.

(** ** The relay log *)

Definition no_pk (t : TableInfo) : string := "id".

Lemma text_typed c s : type_code c = 15 -> typed c (VString s) (VString s).
Proof.
  intros H. apply ty_text; [done|done|by rewrite H|]. unfold type_name. unfold type_code in H. rewrite H.
  cbv [TypeToStr toy type_to_str]. cbn. set_solver.
Qed.

Lemma id_typed : typed c_id (VInt64 5) (VInt64 5).
Proof. apply ty_int; [done|by_decide|reflexivity|reflexivity|reflexivity|]. cbv. set_solver. Qed.

Definition row (name : string) : gmap Z value := {[1 := VInt64 5; 2 := VString name]}.
Definition full (name : string) : gmap Z value := <[4 := VString "x"]> (row name).
Definition row_ann := row "ann".
Definition row_bob := row "bob".
Definition full_ann := full "ann".
Definition full_bob := full "bob".

Lemma insert_decoded : insertRowToDatums tbl insert_row = Ret row_ann.
Proof. vm_compute. reflexivity. Qed.
Lemma delete_decoded : DecodeRowToDatumMap delete_row (ToColumnTypeMap (tb_Columns tbl)) = Ret (Some row_bob).
Proof. vm_compute. reflexivity. Qed.
Lemma upd_decoded : DecodeOldAndNewRow (Some upd_row) (ToColumnMap (writableColumns tbl)) true (Some tbl) = Ret (full_ann, full_bob).
Proof. vm_compute. reflexivity. Qed.

(** The columns of the table, one by one. *)
Lemma each_column (P : ColumnInfo -> Prop) : P c_id -> P c_name -> P c_gen -> P c_extra -> forall c, c ∈ tb_Columns tbl -> P c.
Proof. intros H1 H2 H3 H4. apply list.Forall_forall. cbn. by repeat constructor. Qed.

Lemma row_typed name : full_typed (Some tbl) (tb_Columns tbl) (row name).
Proof.
  refine (each_column (fun c => exists d v, insert_datum (Some tbl) (row name) c d /\ typed c d v) _ _ _ _).
  - exists (VInt64 5), (VInt64 5). split; [by left|apply id_typed].
  - exists (VString name), (VString name). split; [by left|by apply text_typed].
  - exists (VString "g"), (VString "g"). split; [by right|by apply text_typed].
  - exists (VString "x"), (VString "x"). split; [by right|by apply text_typed].
Qed.

Lemma full_row_typed name : held_typed (tb_Columns tbl) (full name).
Proof.
  intros c d Hc. revert c Hc d. refine (each_column (fun c => forall d, full name !! col_ID c = Some d -> exists v, typed c d v) _ _ _ _); intros d [= <-].
  - eexists. apply id_typed.
  - eexists. by apply text_typed.
  - eexists. by apply text_typed.
Qed.

Lemma mes_ok : Forall event_ok mes.
Proof.
  repeat (apply Forall_cons_iff; split; [split_and!; [exact tbl_names|done|]|]); [| | |constructor].
  - exists row_ann. split; [exact insert_decoded|apply row_typed].
  - exists full_ann, full_bob. split_and!; [exact upd_decoded|apply full_row_typed|apply full_row_typed|].
    repeat (apply Forall_cons_iff; split; [eexists; reflexivity|]). constructor.
  - exists (Some row_bob). split; [exact delete_decoded|apply row_typed].
Qed.

Lemma relay_agrees_witness :
  Forall event_ok mes /\
  exists (txn : Txn unit) ob (txn' : Txn unit),
    TiBinlogToTxn (getter true) "" "" blg pv false = Ret txn /\
    TiBinlogToSecondaryBinlog no_pk (getter true) "" "" blg pv = Ret ob /\
    SecondaryBinlogToTxn ob = Ret txn' /\
    ob_CommitTs ob = CommitTs blg /\ Txn_DDL txn' = None /\ Forall2 same_dml (DMLs txn) (DMLs txn').
Proof.
  split; [exact mes_ok|]. apply (relay_agrees (L := toy) no_pk eq_refl (getter true) "" "" blg pv false mes);
    [vm_compute; discriminate|exact mes_events|exact mes_ok].
Defined.

Definition ddl_blg : Binlog := mkBinlog BinlogType_Commit 1 2 [] [] (String.list_byte_of_string "DROP TABLE t") 3 0.

Lemma relay_forgets_skip_witness :
  0 < DdlJobId ddl_blg /\
  let ddl := mkDDL "d" "t" (string_of (DdlQuery ddl_blg)) in
  TiBinlogToTxn (getter true) "d" "t" ddl_blg pv true = Ret (mkTxn [] (Some (ddl true)) 0 None : Txn unit) /\
  exists ob, TiBinlogToSecondaryBinlog no_pk (getter true) "d" "t" ddl_blg pv = Ret ob /\
    SecondaryBinlogToTxn ob = Ret (mkTxn [] (Some (ddl false)) 0 None : Txn unit).
Proof.
  assert (H : 0 < DdlJobId ddl_blg) by reflexivity. split; [exact H|].
  apply (relay_forgets_skip (L := toy) no_pk (getter true) "d" "t" ddl_blg pv). exact H.
Defined.

(** The message of the update: the generated column, whose default is ["g"], is NULL. *)
Definition upd_cols : list Column := [int64_column 5; string_column "bob"; null_column; string_column "x"].
Definition upd_changed : list Column := [int64_column 5; string_column "ann"; null_column; string_column "x"].

Lemma update_drops_default_witness :
  getDefaultOrZeroValue (Some tbl) c_gen = Ret (VString "g") /\
  updateRowToRow (Some tbl) tbl upd_row true = Ret (upd_cols, upd_changed) /\
  upd_cols !! 2%nat = Some null_column /\ upd_changed !! 2%nat = Some null_column.
Proof.
  split; [reflexivity|]. assert (Hu : updateRowToRow (Some tbl) tbl upd_row true = Ret (upd_cols, upd_changed)) by (vm_compute; reflexivity).
  split; [exact Hu|]. apply (update_drops_default (L := toy) (Some tbl) tbl upd_row true c_gen full_ann full_bob upd_cols upd_changed 2);
    [reflexivity|by_decide|exact upd_decoded|reflexivity| |exact Hu].
  change (writableColumns tbl) with [c_id; c_name; c_extra]. intros Hin.
  repeat (apply elem_of_cons in Hin as [Hin|Hin]; [discriminate Hin|]). by apply not_elem_of_nil in Hin.
Defined.

(** ** Files *)

Lemma varint_length v : (length (varint v) <= 10)%nat.
Proof.
  unfold varint. generalize 10%nat. intros k. revert v. induction k as [|k IH]; intros v; [done|]. cbn [varint_fuel].
  destruct (128 <=? v); simpl; [specialize (IH (Z.shiftr v 7)); lia|lia].
Qed.

Lemma put_bytes_length tag bs : (length (put_bytes tag bs) <= 11 + length bs)%nat.
Proof. unfold put_bytes. cbn [length]. rewrite length_app. pose proof (varint_length (len bs)). lia. Qed.

Lemma encoded_length d b : EncodeValue d = Ret b -> len b < 2 ^ 17.
Proof.
  destruct d; cbv [EncodeValue toy encode_value]; try done; [by intros [= <-]|by intros [= <-]|by intros [= <-]|].
  destruct (Z.ltb_spec (len (sbytes s)) (2 ^ 16)) as [Hl|Hl]; [|done]. intros [= <-]. rewrite ?length_cons. lia.
Qed.

Lemma toy_small c : type_byte c -> len (sbytes (col_Name c)) < 2 ^ 16 -> len (sbytes (pb_type_name c)) < 2 ^ 16 -> small c.
Proof.
  intros Ht Hn Hm. split; [done|]. intros d b d' b'. unfold cell_bytes, Column_Marshal.
  cbn [pc_Name pc_Tp pc_MysqlType pc_Value pc_ChangedValue pc_unrecognized put_opt]. rewrite !length_app.
  pose proof (put_bytes_length x0a (sbytes (col_Name c))). pose proof (put_bytes_length x12 [byte_of_Z (ft_Tp (col_Field c))]).
  pose proof (put_bytes_length x1a (sbytes (pb_type_name c))). pose proof (put_bytes_length x22 b). pose proof (put_bytes_length x2a b').
  cbn [length] in *. split; [intros Hb%encoded_length|intros Hb%encoded_length Hb'%encoded_length]; lia.
Qed.

(** The bytes of a datum, as a datum. *)
Definition bit_datum (b : option (list byte)) : value := match b with Some b => VBytes b | None => VBytes [] end.
Definition new_bit (d : value) : value := bit_datum (bytes_of_value d).

Lemma id_replayed : replayed (L := toy) sprint new_bit c_id (VInt64 5).
Proof.
  split; [apply toy_small; by_decide|]. exists (VInt64 5). split; [reflexivity|].
  exists (int_bytes 5), (VInt64 5), []. split_and!; reflexivity.
Qed.

Lemma text_replayed c s : type_code c = 15 -> len (sbytes (col_Name c)) < 2 ^ 16 -> len (sbytes s) < 2 ^ 16 ->
  replayed (L := toy) sprint new_bit c (VString s).
Proof.
  unfold type_code. intros Ht Hn Hs. split.
  - apply toy_small; [unfold type_byte; lia|done|]. unfold pb_type_name. rewrite Ht. by_decide.
  - exists (VString s). split; [unfold formatData; cbn; by rewrite Ht|]. exists (text_bytes s), (VString s), []. split_and!.
    + cbv [EncodeValue toy encode_value]. by destruct (Z.ltb_spec (len (sbytes s)) (2 ^ 16)); [|lia].
    + cbv [DecodeOne toy]. rewrite <- (app_nil_r (text_bytes s)). apply decode_toy_text. lia.
    + unfold formatValue. by rewrite Ht.
Qed.

Lemma row_replayed name : len (sbytes name) < 2 ^ 16 -> forall c, c ∈ tb_Columns tbl -> exists d, insert_datum (Some tbl) (row name) c d /\ replayed (L := toy) sprint new_bit c d.
Proof.
  intros Hl. refine (each_column (fun c => exists d, insert_datum (Some tbl) (row name) c d /\ replayed sprint new_bit c d) _ _ _ _).
  - exists (VInt64 5). split; [by left|apply id_replayed].
  - exists (VString name). split; [by left|by apply text_replayed].
  - exists (VString "g"). split; [by right|by apply text_replayed].
  - exists (VString "x"). split; [by right|by apply text_replayed].
Qed.

Lemma held_replayed name (m : gmap Z value) : m = row name \/ m = full name -> len (sbytes name) < 2 ^ 16 -> forall c d, c ∈ tb_Columns tbl ->
  m !! col_ID c = Some d -> replayed (L := toy) sprint new_bit c d.
Proof.
  intros Hm Hl c d Hc. revert c Hc d.
  refine (each_column (fun c => forall d, m !! col_ID c = Some d -> replayed sprint new_bit c d) _ _ _ _); intros d Hd;
    destruct Hm as [-> | ->]; (discriminate Hd || (injection Hd as <-; (apply id_replayed || by apply text_replayed))).
Qed.

Lemma mes_replay_ok : Forall (replay_ok (L := toy) sprint new_bit) mes.
Proof.
  repeat (apply Forall_cons_iff; split; [split_and!; [exact tbl_names|done|]|]); [| | |constructor].
  - exists row_ann. split; [exact insert_decoded|by apply row_replayed].
  - exists full_ann, full_bob. split; [exact upd_decoded|]. intros c d Hc%writable_subset [Hd|Hd].
    + by apply (held_replayed "ann" full_ann (or_intror eq_refl)).
    + by apply (held_replayed "bob" full_bob (or_intror eq_refl)).
  - exists (Some row_bob). split; [exact delete_decoded|]. intros c d Hc Hd.
    by apply (held_replayed "bob" row_bob (or_introl eq_refl)).
Qed.

Definition not_parsed (s : string) : outcome (list stmt) := Ret [].


Definition c_bit : ColumnInfo := column 7 "b" 16 0 false VNil.

Lemma bit_lost_witness :
  ft_Tp (col_Field c_bit) = mysql_TypeBit /\ small (L := toy) c_bit /\
  exists v0, forall d d1 b, GetValue d <> VNil -> formatData d (col_Field c_bit) = Ret d1 -> EncodeValue d1 = Ret b ->
    col_arg sprint new_bit (cell_bytes c_bit b None) = Ret (col_Name c_bit, v0).
Proof.
  assert (Hs : small (L := toy) c_bit) by (apply toy_small; by_decide).
  split; [reflexivity|]. split; [exact Hs|]. apply (bit_lost (L := toy) sprint new_bit bit_datum c_bit); [done| | |done|exact Hs].
  { intros b n [= <-]. apply wrap_u64_range. }
  intros n b Hn Hb. exists [], (VUint64 n). split_and!; [|done|done].
  assert (b = x04 :: le_bytes 8 n) as -> by (cbv [EncodeValue toy encode_value NewDatum id] in Hb; congruence).
  cbv [DecodeOne toy decode_one]. rewrite take_ge, drop_ge by (rewrite length_le_bytes; done). by rewrite le_value_u64.
Defined.

Lemma ddl_text_roundtrip_witness :
  absent ";" "sho`p" /\ trimUse (ddl_text "sho`p" "DROP TABLE t" false) = " DROP TABLE t;" /\
  trimUse (ddl_text "d" "CREATE DATABASE d" true) = "CREATE DATABASE d;".
Proof.
  assert (Ha : absent ";" "sho`p") by by_decide. split; [exact Ha|].
  split; [apply (proj1 (ddl_text_roundtrip "sho`p" "DROP TABLE t")); exact Ha|].
  apply (proj2 (ddl_text_roundtrip "d" "CREATE DATABASE d")); reflexivity.
Defined.

Definition pb_example : PBinlog :=
  mkPBinlog 0 (-1) (Some (mkPDMLData [mkPEvent (Some "d") None 2 [[x01; xff]; []] []] [])) (Some []) [].

Lemma pb_roundtrip_witness :
  binlog_wf pb_example /\ Binlog_Unmarshal (Binlog_Marshal pb_example) = Ret pb_example /\ Binlog_Size pb_example = len (Binlog_Marshal pb_example).
Proof.
  assert (Hw : binlog_wf pb_example) by (unfold binlog_wf, in_i32, in_i64; cbn; split_and!; try done; [lia..|]; split; [done|]; repeat constructor; unfold in_i32; cbn; lia).
  split; [exact Hw|]. apply (pb_roundtrip pb_example); [exact Hw|vm_compute; reflexivity].
Defined.

End ToyLib.
