(* ===== verification/RelayFeed.v ===== *)
(** * RelayFeed
    Recovery from the relay log: the reader of the log ([drainer/relay/reader.go]) and
    the loop that feeds what it reads to a loader and then marks the checkpoint as
    consistent ([feedByRelayLog] of [drainer/relay.go]), which interleaves with the
    loader. *)
From Stdlib Require Import Init.Byte.
From stdpp Require Import base option list strings relations.
From S2P Require Import Prelude.

(** ** The reader *)
Section Reader.
Context {B : Type} (unmarshal : list byte -> outcome B).

Definition ErrCanceled : error := Err "context canceled".

(** The goroutine of [Run], on the payloads that the binlogger delivers before its channel
    is closed and the error it then has; [cancel] is the number of binlogs after which
    the context is found to be canceled, if it is.  The result is what reaches
    [Binlogs()] before it is closed, and what [Error()] delivers. *)
Fixpoint reader_run (cancel : option nat) (payloads : list (list byte)) (binlogErr : option error) : outcome (list B * option error) :=
  match cancel with
  | Some O => Ret ([], Some ErrCanceled)
  | _ =>
    match payloads with
    | [] => Ret ([], binlogErr)
    | p :: payloads =>
      match unmarshal p with
      | Ret b => let! (bs, err) := reader_run (pred <$> cancel) payloads binlogErr in Ret (b :: bs, err)
      | Fail e => Ret ([], Some e)
      | Panic => Panic
      end
    end
  end.

(** [Close], with what [Error()] delivers if the reader ran and the result of closing the
    binlogger. *)
Definition reader_Close (err : option (option error)) (closeBinloggerErr : option error) : option error :=
  match err with
  | Some (Some e) => Some e
  | _ => closeBinloggerErr
  end.

(** Without an interruption and with payloads that decode, everything is delivered. *)
Lemma reader_run_all payloads bs err : Forall2 (fun p b => unmarshal p = Ret b) payloads bs ->
  reader_run None payloads err = Ret (bs, err).
Proof. induction 1 as [|p b payloads bs Hp HF IH]; [done|]. cbn [reader_run]. rewrite Hp. cbn [fmap option_fmap option_map]. by rewrite IH. Qed.

(** In any case a prefix is delivered; if it is not everything there is an error. *)
Lemma reader_run_prefix cancel payloads err bs rerr : reader_run cancel payloads err = Ret (bs, rerr) ->
  exists n, Forall2 (fun p b => unmarshal p = Ret b) (take n payloads) bs /\ (rerr = None -> (length payloads <= n)%nat).
Proof.
  revert cancel bs rerr. induction payloads as [|p payloads IH]; intros cancel bs rerr.
  - intros H. exists O. cbn [reader_run] in H. destruct cancel as [[|k]|]; injection H as <- <-; split; (constructor || done || (simpl; lia)).
  - intros H. destruct cancel as [[|k]|]; cbn [reader_run] in H.
    { injection H as <- <-. exists O. split; [constructor|done]. }
    all: destruct (unmarshal p) as [b|e|] eqn:Hp; [|injection H as <- <-; exists O; split; [constructor|done]|done].
    all: apply obind_Ret_inv in H as ([bs' err'] & H & [= <- <-]); apply IH in H as (n & HF & Hn); exists (S n); split; [by constructor|].
    all: intros He; specialize (Hn He); simpl; lia.
Qed.
End Reader.

(** ** The loop *)
Section Feed.
Context {B T : Type} (commit_ts : B -> Z) (to_txn : B -> outcome T).

(** The loader: accepting and executing, stopped with the channel of successes closed
    ([Run] closes it before it returns), and after [Run] has returned. *)
Inductive loader_state := LdRunning | LdStopped (err : option error) | LdQuit (err : option error).

#[local] Instance loader_state_eq_dec : EqDecision loader_state.
Proof. solve_decision. Defined.

Inductive feed_result :=
  | FeedRunning
  | FeedFailed (e : error)       (** [feedByRelayLog] returned an error *)
  | FeedSaved (ts : Z)           (** it reached [cp.Save(ts, 0, true, 0)] *)
  | FeedDead.                    (** a panic *)

(** A transaction on its way is its commit timestamp, which is its metadata, and itself. *)
Record feed := mkFeed {
  todo : list B;                 (** what the reader still delivers *)
  reader_err : option error;     (** what it reports after that *)
  readerTxnsC : bool;            (** the channels of the loop that are not nil *)
  readerTxnsCClosed : bool;
  toPush : option (Z * T);       (** [toPushLoaderTxn]; [loaderInputC] is not nil with it *)
  loaderClosed : bool;
  successTxnC : bool;
  lastSuccessTS : Z;
  ld : loader_state;
  queue : list (Z * T);          (** accepted and not executed *)
  reported : list Z;             (** executed and not received from the channel of successes *)
  executed : list (Z * T);       (** everything executed, in order *)
  result : feed_result;
}.

Definition feed_start (checkpointTS : Z) (bs : list B) (err : option error) : feed :=
  mkFeed bs err true false None false true checkpointTS LdRunning [] [] [] FeedRunning.

(** The head of the loop: close the loader when everything was pushed. *)
Definition loop_head (s : feed) : feed :=
  if negb (readerTxnsC s) && bool_decide (toPush s = None) && negb (loaderClosed s)
  then mkFeed (todo s) (reader_err s) (readerTxnsC s) (readerTxnsCClosed s) (toPush s) true (successTxnC s) (lastSuccessTS s)
         (ld s) (queue s) (reported s) (executed s) (result s)
  else s.

Definition with_result (r : feed_result) (s : feed) : feed :=
  mkFeed (todo s) (reader_err s) (readerTxnsC s) (readerTxnsCClosed s) (toPush s) (loaderClosed s) (successTxnC s) (lastSuccessTS s)
    (ld s) (queue s) (reported s) (executed s) r.

(** After the loop. *)
Definition finish (s : feed) : feed :=
  with_result (match reader_err s with Some e => FeedFailed e | None => FeedSaved (lastSuccessTS s) end) s.

(** A binlog is received from the reader. *)
Definition on_binlog (checkpointTS : Z) (b : B) (rest : list B) (s : feed) : feed :=
  let s := mkFeed rest (reader_err s) (readerTxnsC s) (readerTxnsCClosed s) (toPush s) (loaderClosed s) (successTxnC s) (lastSuccessTS s)
             (ld s) (queue s) (reported s) (executed s) (result s) in
  if commit_ts b <=? checkpointTS then s
  else
    match to_txn b with
    | Ret txn =>
      mkFeed rest (reader_err s) false (readerTxnsCClosed s) (Some (commit_ts b, txn)) (loaderClosed s) (successTxnC s) (lastSuccessTS s)
        (ld s) (queue s) (reported s) (executed s) (result s)
    | Fail e => with_result (FeedFailed e) s
    | Panic => with_result FeedDead s
    end.

(** The cases of the [select]. *)
Inductive select_step (checkpointTS : Z) : feed -> feed -> Prop :=
  | sel_binlog s b rest : readerTxnsC s = true -> todo s = b :: rest ->
      select_step checkpointTS s (on_binlog checkpointTS b rest s)
  | sel_reader_closed s : readerTxnsC s = true -> todo s = [] ->
      select_step checkpointTS s
        (mkFeed [] (reader_err s) false true (toPush s) (loaderClosed s) (successTxnC s) (lastSuccessTS s) (ld s) (queue s) (reported s) (executed s) (result s))
  | sel_push s x : toPush s = Some x -> ld s = LdRunning ->
      select_step checkpointTS s
        (mkFeed (todo s) (reader_err s) (if readerTxnsCClosed s then readerTxnsC s else true) (readerTxnsCClosed s) None (loaderClosed s) (successTxnC s) (lastSuccessTS s)
           (ld s) (queue s ++ [x]) (reported s) (executed s) (result s))
  | sel_success s ts rest : successTxnC s = true -> reported s = ts :: rest ->
      select_step checkpointTS s
        (mkFeed (todo s) (reader_err s) (readerTxnsC s) (readerTxnsCClosed s) (toPush s) (loaderClosed s) (successTxnC s) ts
           (ld s) (queue s) rest (executed s) (result s))
  | sel_success_closed s : successTxnC s = true -> reported s = [] -> ld s <> LdRunning ->
      select_step checkpointTS s
        (mkFeed (todo s) (reader_err s) (readerTxnsC s) (readerTxnsCClosed s) (toPush s) (loaderClosed s) false (lastSuccessTS s)
           (ld s) (queue s) (reported s) (executed s) (result s))
  | sel_quit s err : ld s = LdQuit err ->
      select_step checkpointTS s (match err with Some e => with_result (FeedFailed e) s | None => s end).

Definition set_ld (l : loader_state) (q : list (Z * T)) (r : list Z) (e : list (Z * T)) (s : feed) : feed :=
  mkFeed (todo s) (reader_err s) (readerTxnsC s) (readerTxnsCClosed s) (toPush s) (loaderClosed s) (successTxnC s) (lastSuccessTS s)
    l q r e (result s).

(** A step: an iteration of the loop, or of the loader, which executes in order, reports
    what it executed, may fail at any time, and stops when it is closed and empty. *)
Inductive feed_step (checkpointTS : Z) : feed -> feed -> Prop :=
  | fs_select s s' : result s = FeedRunning ->
      (loaderClosed (loop_head s) && negb (successTxnC (loop_head s))) = false ->
      select_step checkpointTS (loop_head s) s' -> feed_step checkpointTS s s'
  | fs_head s : result s = FeedRunning -> feed_step checkpointTS s (loop_head s)
  | fs_finish s : result s = FeedRunning -> loaderClosed (loop_head s) = true -> successTxnC (loop_head s) = false ->
      feed_step checkpointTS s (finish (loop_head s))
  | fs_execute s x q : result s = FeedRunning -> ld s = LdRunning -> queue s = x :: q ->
      feed_step checkpointTS s (set_ld LdRunning q (reported s ++ [fst x]) (executed s ++ [x]) s)
  | fs_fail s e : result s = FeedRunning -> ld s = LdRunning ->
      feed_step checkpointTS s (set_ld (LdStopped (Some e)) (queue s) (reported s) (executed s) s)
  | fs_stop s : result s = FeedRunning -> ld s = LdRunning -> loaderClosed s = true -> queue s = [] ->
      feed_step checkpointTS s (set_ld (LdStopped None) [] (reported s) (executed s) s)
  | fs_quit s err : result s = FeedRunning -> ld s = LdStopped err ->
      feed_step checkpointTS s (set_ld (LdQuit err) (queue s) (reported s) (executed s) s).

(** ** The invariant *)

Context (checkpointTS : Z).

(** The transactions that the log holds above the checkpoint. *)
Definition wanted (bs : list B) : list B := filter (fun b => checkpointTS < commit_ts b) bs.

Definition txn_of (b : B) (x : Z * T) : Prop := fst x = commit_ts b /\ to_txn b = Ret (snd x).

(** The loop has not returned an error. *)
Definition alive (s : feed) : Prop := match result s with FeedRunning | FeedSaved _ => True | _ => False end.

Record feed_inv (bs : list B) (s : feed) : Prop := {
  (** what was read is executed, queued, on its way to the loader or below the checkpoint *)
  fi_split : alive s -> exists seen, bs = seen ++ todo s /\
    Forall2 txn_of (wanted seen) (executed s ++ queue s ++ option_list (toPush s));
  (** the last success is the last that was executed and received *)
  fi_last : exists before, (fst <$> executed s) = before ++ reported s /\
    lastSuccessTS s = default checkpointTS (last before);
  fi_push : toPush s <> None -> readerTxnsC s = false /\ readerTxnsCClosed s = false;
  fi_reader : readerTxnsC s = false -> toPush s = None -> readerTxnsCClosed s = true;
  fi_closed : readerTxnsCClosed s = true -> todo s = [] /\ readerTxnsC s = false;
  fi_ldclosed : loaderClosed s = true -> readerTxnsCClosed s = true;
  fi_success : successTxnC s = false -> ld s <> LdRunning /\ reported s = [];
  fi_stopped : ld s = LdStopped None \/ ld s = LdQuit None -> loaderClosed s = true /\ queue s = [];
  fi_saved : forall ts, result s = FeedSaved ts ->
    ts = lastSuccessTS s /\ loaderClosed s = true /\ successTxnC s = false /\ reader_err s = None;
}.

Lemma feed_inv_start bs err : feed_inv bs (feed_start checkpointTS bs err).
Proof.
  split; cbn; try done; try (intros H; destruct H; discriminate).
  - intros _. exists []. split; [done|constructor].
  - exists []. done.
Qed.

Lemma feed_inv_head bs s : feed_inv bs s -> feed_inv bs (loop_head s).
Proof.
  intros I. unfold loop_head. destruct (readerTxnsC s) eqn:E1; [done|]. case_bool_decide as E2; [|done]. destruct (loaderClosed s) eqn:E3; [done|].
  cbn [negb andb]. destruct I. split; cbn; try done.
  - intros _ _. by apply fi_reader0.
  - intros H. split; [by apply fi_closed0|done].
  - intros _. by apply fi_reader0.
  - intros H. destruct (fi_stopped0 H). congruence.
  - intros ts H. destruct (fi_saved0 ts H) as (? & ? & ?). congruence.
Qed.

Lemma wanted_app bs b : wanted (bs ++ [b]) = wanted bs ++ if decide (checkpointTS < commit_ts b) then [b] else [].
Proof. unfold wanted. by rewrite filter_app. Qed.

Lemma feed_inv_binlog bs s b rest : feed_inv bs s -> result s = FeedRunning -> readerTxnsC s = true -> todo s = b :: rest ->
  feed_inv bs (on_binlog checkpointTS b rest s).
Proof.
  intros I Hrun Hr Ht. destruct (fi_split _ _ I) as (seen & Hseen & HF); [unfold alive; by rewrite Hrun|].
  assert (Hp : toPush s = None) by (destruct (toPush s) eqn:E; [destruct (fi_push _ _ I); congruence|done]).
  assert (Hcl : readerTxnsCClosed s = false) by (destruct (readerTxnsCClosed s) eqn:E; [destruct (fi_closed _ _ I E); congruence|done]).
  assert (Hlc : loaderClosed s = false) by (destruct (loaderClosed s) eqn:E; [pose proof (fi_ldclosed _ _ I E); congruence|done]).
  assert (Hseen' : bs = (seen ++ [b]) ++ rest) by (rewrite <- app_assoc; simpl; by rewrite <- Ht).
  destruct I as [_ I2 I3 I4 I5 I6 I7 I8 I9]. unfold on_binlog. rewrite Hp in *.
  destruct (Z.leb_spec (commit_ts b) checkpointTS) as [Hle|Hgt].
  { split; cbn; try done; try congruence.
    intros _. exists (seen ++ [b]). split; [done|]. rewrite wanted_app, decide_False by lia. rewrite app_nil_r. exact HF. }
  destruct (to_txn b) as [t|e|] eqn:Et.
  - split; cbn; try done; try congruence.
    intros _. exists (seen ++ [b]). split; [done|]. rewrite wanted_app, decide_True by lia. cbn [option_list] in *.
    rewrite app_nil_r in HF. rewrite app_assoc. apply Forall2_app; [done|]. by repeat constructor.
  - split; cbn; try done; try congruence.
  - split; cbn; try done; try congruence.
Qed.

Lemma feed_inv_select bs s s' : feed_inv bs s -> result s = FeedRunning ->
  select_step checkpointTS s s' -> feed_inv bs s'.
Proof.
  intros I Hrun Hst. destruct Hst as [s b rest Hr Ht|s Hr Ht|s x Hp Hl|s ts rest Hs Hrep|s Hs Hrep Hl|s err Hl].
  - by apply feed_inv_binlog.
  - destruct I as [I1 I2 I3 I4 I5 I6 I7 I8 I9]. split; cbn; try done; try congruence.
    + intros H. destruct (I1 H) as (seen & H1 & H2). exists seen. rewrite Ht in H1. done.
    + intros Hp. destruct (I3 Hp). congruence.
  - destruct (fi_push _ _ I) as [H1 H2]; [congruence|]. rewrite H2.
    assert (Hlc : loaderClosed s = false) by (destruct (loaderClosed s) eqn:E; [pose proof (fi_ldclosed _ _ I E); congruence|done]).
    destruct I as [I1 I2 I3 I4 I5 I6 I7 I8 I9]. split; cbn; try done; try congruence.
    + intros H. destruct (I1 H) as (seen & Hs & HF). exists seen. split; [done|]. rewrite Hp in HF. cbn [option_list] in HF.
      by rewrite app_nil_r.
    + rewrite Hl. intros [H|H]; done.
  - destruct (fi_last _ _ I) as (before & Hb & Hlast). destruct I as [I1 I2 I3 I4 I5 I6 I7 I8 I9]. split; cbn; try done; try congruence.
    + exists (before ++ [ts]). rewrite Hb, Hrep, last_snoc, <- app_assoc. done.
  - destruct I as [I1 I2 I3 I4 I5 I6 I7 I8 I9]. split; cbn; try done; try congruence.
  - destruct err as [e|]; [|done]. destruct I as [I1 I2 I3 I4 I5 I6 I7 I8 I9]. split; cbn; try done; try congruence.
Qed.

Lemma head_result s : result (loop_head s) = result s.
Proof. unfold loop_head. by destruct (_ && _ && _). Qed.

Lemma feed_inv_step bs s s' : feed_inv bs s -> feed_step checkpointTS s s' -> feed_inv bs s'.
Proof.
  intros I Hst. destruct Hst as [s s' Hrun Hex Hsel|s Hrun|s Hrun Hc Hs|s x q Hrun Hl Hq|s e Hrun Hl|s Hrun Hl Hc Hq|s err Hrun Hl].
  - eapply feed_inv_select; [by apply feed_inv_head| |done]. by rewrite head_result.
  - by apply feed_inv_head.
  - apply feed_inv_head in I. rewrite <- head_result in Hrun. revert I Hrun Hc Hs. generalize (loop_head s). clear s. intros s I Hrun Hc Hs.
    unfold finish, with_result. destruct I as [I1 I2 I3 I4 I5 I6 I7 I8 I9]. split; cbn; try done; try congruence.
    + intros Ha. apply I1. unfold alive. by rewrite Hrun.
    + intros ts. destruct (reader_err s); [done|]. by intros [= <-].
  - destruct (fi_last _ _ I) as (before & Hb & Hlast). destruct I as [I1 I2 I3 I4 I5 I6 I7 I8 I9]. split; cbn; try done; try congruence.
    + intros Ha. destruct (I1 Ha) as (seen & H1 & H2). exists seen. split; [done|]. rewrite Hq in H2. rewrite <- app_assoc. done.
    + exists before. rewrite fmap_app, Hb, <- app_assoc. done.
    + intros Hs. destruct (I7 Hs). congruence.
    + intros [H|H]; done.
  - destruct I as [I1 I2 I3 I4 I5 I6 I7 I8 I9]. split; cbn; try done; try congruence.
    + intros Hs. destruct (I7 Hs). congruence.
    + intros [H|H]; done.
  - destruct I as [I1 I2 I3 I4 I5 I6 I7 I8 I9]. split; cbn; try done; try congruence.
    + rewrite Hq in I1. exact I1.
    + intros Hs. destruct (I7 Hs). congruence.
  - destruct I as [I1 I2 I3 I4 I5 I6 I7 I8 I9]. split; cbn; try done; try congruence.
    + intros Hs. by destruct (I7 Hs).
    + intros [H|H]; [done|]. injection H as ->. apply I8. by left.
Qed.

Lemma feed_inv_reachable bs err s : rtc (feed_step checkpointTS) (feed_start checkpointTS bs err) s -> feed_inv bs s.
Proof.
  intros Hr. revert s Hr. refine (rtc_ind_r (fun s => feed_inv bs s) _ _ _); [apply feed_inv_start|].
  intros s s' _ Hst IH. by eapply feed_inv_step.
Qed.

(** ** What recovery guarantees *)

(** C21: When the recovery from the relay log saves its checkpoint, the reader had no error,
    the loader has executed the first transactions of the log above the old checkpoint, in
    order and each once, and the checkpoint is the commit timestamp of the last of them (the
    old checkpoint if there is none); if the loader did not fail, these are all
    transactions of the log. *)
Theorem relay_recovery bs err s ts :
  rtc (feed_step checkpointTS) (feed_start checkpointTS bs err) s -> result s = FeedSaved ts ->
  reader_err s = None /\
  ts = default checkpointTS (last (fst <$> executed s)) /\
  (exists n, Forall2 txn_of (take n (wanted bs)) (executed s)) /\
  (ld s = LdStopped None \/ ld s = LdQuit None -> Forall2 txn_of (wanted bs) (executed s)).
Proof.
  intros Hr Hs. pose proof (feed_inv_reachable _ _ _ Hr) as I. destruct (fi_saved _ _ I ts Hs) as (-> & Hc & Hsc & He).
  destruct (fi_success _ _ I Hsc) as [Hl Hrep]. pose proof (fi_ldclosed _ _ I Hc) as Hrc. destruct (fi_closed _ _ I Hrc) as [Htd _].
  assert (Hp : toPush s = None) by (destruct (toPush s) eqn:E; [destruct (fi_push _ _ I); congruence|done]).
  destruct (fi_split _ _ I) as (seen & Hseen & HF); [unfold alive; by rewrite Hs|]. rewrite Htd, app_nil_r in Hseen. subst seen.
  destruct (fi_last _ _ I) as (before & Hb & ->). rewrite Hrep, app_nil_r in Hb. subst before.
  rewrite Hp in HF. cbn [option_list] in HF. rewrite app_nil_r in HF. split_and!; [done|done| |].
  - apply Forall2_app_inv_r in HF as (l1 & l2 & H1 & _ & Heq). exists (length l1). by rewrite Heq, take_app_length.
  - intros Hok. destruct (fi_stopped _ _ I Hok) as [_ Hq]. rewrite Hq, app_nil_r in HF. exact HF.
Qed.

(** *** Progress *)

Definition healthy (s : feed) : Prop := ld s = LdRunning \/ ld s = LdStopped None \/ ld s = LdQuit None.

Definition weight (s : feed) : nat :=
  8 * length (todo s) + (match toPush s with Some _ => 7 | None => 0 end) + 4 * length (queue s) + 2 * length (reported s) +
  (if readerTxnsC s then 1 else 0) + (if loaderClosed s then 0 else 1) + (match ld s with LdRunning => 1 | _ => 0 end) +
  (if successTxnC s then 1 else 0).

Lemma head_idle s : readerTxnsC s = true \/ toPush s <> None \/ loaderClosed s = true -> loop_head s = s.
Proof.
  unfold loop_head. intros [-> | [H | ->]]; [done| |by rewrite andb_false_r]. rewrite bool_decide_eq_false_2 by done. by rewrite andb_false_r.
Qed.

(** While transactions remain to be read or pushed, the loop can go on. *)
Lemma progress_reading bs s : feed_inv bs s -> result s = FeedRunning -> healthy s -> reader_err s = None ->
  Forall (fun b => exists t, to_txn b = Ret t) (todo s) -> readerTxnsCClosed s = false ->
  exists s', feed_step checkpointTS s s' /\ (weight s' < weight s)%nat /\ healthy s' /\ reader_err s' = None /\
    result s' = FeedRunning /\ Forall (fun b => exists t, to_txn b = Ret t) (todo s').
Proof.
  intros I Hrun Hh He Ht Hcl. assert (Hlc : loaderClosed s = false) by (destruct (loaderClosed s) eqn:E; [pose proof (fi_ldclosed _ _ I E); congruence|done]).
  assert (Hld : ld s = LdRunning).
  { destruct Hh as [?|Hst]; [done|]. destruct (fi_stopped _ _ I Hst). congruence. }
  destruct (toPush s) as [x|] eqn:Hp.
  - destruct (fi_push _ _ I) as [Hr _]; [congruence|].
    assert (Hhd : loop_head s = s) by (apply head_idle; right; left; congruence).
    eexists. split; [apply fs_select; [done|rewrite Hhd, Hlc; done|rewrite Hhd; by apply (sel_push _ s x)]|].
    unfold weight, healthy. cbn. rewrite Hp, Hcl, Hr, length_app. simpl. split_and!; [lia|auto|done|done|done].
  - assert (Hr : readerTxnsC s = true) by (destruct (readerTxnsC s) eqn:E; [done|]; pose proof (fi_reader _ _ I E Hp); congruence).
    assert (Hhd : loop_head s = s) by (apply head_idle; by left).
    destruct (todo s) as [|b rest] eqn:Etd.
    + eexists. split; [apply fs_select; [done|rewrite Hhd, Hlc; done|rewrite Hhd; by apply sel_reader_closed]|].
      unfold weight, healthy. cbn. rewrite Hp, Hr, Etd. simpl. split_and!; [lia|auto|done|done|done].
    + apply Forall_cons_iff in Ht as [[t Hb] Ht].
      eexists. split; [apply fs_select; [done|rewrite Hhd, Hlc; done|rewrite Hhd; by apply (sel_binlog _ s b rest)]|].
      unfold on_binlog. destruct (commit_ts b <=? checkpointTS); [|rewrite Hb]; unfold weight, healthy; cbn; rewrite Hp, Hr, Etd; simpl;
        (split_and!; [lia|auto|done|done|done]).
Qed.

(** Once the loader has stopped, the successes are drained and the loop ends. *)
Lemma progress_draining s : result s = FeedRunning -> reader_err s = None -> todo s = [] -> loaderClosed s = true -> toPush s = None ->
  ld s <> LdRunning ->
  exists s', feed_step checkpointTS s s' /\ ld s' = ld s /\ reader_err s' = None /\ todo s' = [] /\
    (result s' = FeedRunning /\ (weight s' < weight s)%nat \/ exists ts, result s' = FeedSaved ts).
Proof.
  intros Hrun He Htd Hlc Hp Hld. assert (Hhd : loop_head s = s) by (apply head_idle; by right; right).
  destruct (successTxnC s) eqn:Hs.
  - destruct (reported s) as [|ts rest] eqn:Hrep.
    + eexists. split; [apply fs_select; [done|rewrite Hhd, Hs; apply andb_false_r|rewrite Hhd; by apply sel_success_closed]|].
      unfold weight. cbn. split_and!; [done|done|done|]. left. rewrite Hp, Hs, Hrep. simpl. split; [done|lia].
    + eexists. split; [apply fs_select; [done|rewrite Hhd, Hs; apply andb_false_r|rewrite Hhd; by eapply sel_success]|].
      unfold weight. cbn. split_and!; [done|done|done|]. left. rewrite Hp, Hs, Hrep. simpl. split; [done|lia].
  - exists (finish (loop_head s)). split; [apply fs_finish; by rewrite ?Hhd|]. rewrite Hhd. unfold finish. cbn. rewrite He.
    split_and!; [done|done|done|]. right. by eexists.
Qed.

(** Once everything was pushed, the loader executes it and the loop ends. *)
Lemma progress_ending bs s : feed_inv bs s -> result s = FeedRunning -> healthy s -> reader_err s = None -> readerTxnsCClosed s = true ->
  exists s', feed_step checkpointTS s s' /\ healthy s' /\ reader_err s' = None /\ todo s' = [] /\
    (result s' = FeedRunning /\ (weight s' < weight s)%nat \/ exists ts, result s' = FeedSaved ts).
Proof.
  intros I Hrun Hh He Hcl. destruct (fi_closed _ _ I Hcl) as [Htd Hr].
  assert (Hp : toPush s = None) by (destruct (toPush s) eqn:E; [destruct (fi_push _ _ I); congruence|done]).
  destruct (loaderClosed s) eqn:Hlc.
  2:{ eexists. split; [by apply fs_head|]. unfold loop_head, healthy, weight. rewrite Hr, Hp, Hlc. cbn. split_and!; [done|done|done|].
      left. split; [done|]. lia. }
  destruct (decide (ld s = LdRunning)) as [Hld|Hld].
  - destruct (queue s) as [|x q] eqn:Hq.
    + eexists. split; [by apply fs_stop|]. unfold healthy, weight. cbn. split_and!; [auto|done|done|]. left. rewrite Hp, Hld, Hq. cbn. split; [done|lia].
    + eexists. split; [by eapply fs_execute|]. unfold healthy, weight. cbn. split_and!; [auto|done|done|]. left.
      rewrite Hp, Hld, Hq, length_app. simpl. split; [done|lia].
  - destruct (progress_draining s Hrun He Htd Hlc Hp Hld) as (s' & Hst & Hl' & He' & Htd' & Hres). exists s'.
    split_and!; try done. unfold healthy in *. by rewrite Hl'.
Qed.

(** Recovery can always be completed: from every state that it reaches in which neither
    the reader nor the loader has failed, and whose remaining binlogs can be translated,
    there is a continuation that ends with saving a checkpoint. *)
Theorem relay_recovery_completes bs s :
  rtc (feed_step checkpointTS) (feed_start checkpointTS bs None) s -> result s = FeedRunning -> healthy s -> reader_err s = None ->
  Forall (fun b => exists t, to_txn b = Ret t) (todo s) ->
  exists s' ts, rtc (feed_step checkpointTS) s s' /\ result s' = FeedSaved ts.
Proof.
  intros Hr%feed_inv_reachable. remember (weight s) as n eqn:Hn. revert s Hn Hr.
  induction (lt_wf n) as [n _ IH]; intros s -> I Hrun Hh He Ht.
  destruct (readerTxnsCClosed s) eqn:Hcl.
  - destruct (progress_ending _ _ I Hrun Hh He Hcl) as (s1 & Hst & Hh1 & He1 & Ht1 & [[Hrun1 Hw]|[ts Hts]]).
    + destruct (IH _ Hw s1 eq_refl) as (s' & ts & Hr' & Hres); [by eapply feed_inv_step|done|done|done|rewrite Ht1; constructor|].
      exists s', ts. split; [by eapply rtc_l|done].
    + exists s1, ts. split; [by apply rtc_once|done].
  - destruct (progress_reading _ _ I Hrun Hh He Ht Hcl) as (s1 & Hst & Hw & Hh1 & He1 & Hrun1 & Ht1).
    destruct (IH _ Hw s1 eq_refl) as (s' & ts & Hr' & Hres); [by eapply feed_inv_step|done|done|done|done|].
    exists s', ts. split; [by eapply rtc_l|done].
Qed.
End Feed.

(** ** Concrete runs *)
Module FeedExamples.

Definition toy_ts (b : Z * nat) : Z := fst b.
Definition toy_txn (b : Z * nat) : outcome nat := Ret (snd b).
Definition toy_log : list (Z * nat) := [(5, 1%nat); (8, 2%nat)].

Definition run : relation (feed (B := Z * nat) (T := nat)) := rtc (feed_step toy_ts toy_txn 5).
Definition start : feed (T := nat) := feed_start 5 toy_log None.

(** A step of the loop, a step of the loader. *)
Tactic Notation "sel" uconstr(c) := eapply rtc_l; [apply fs_select; [reflexivity|reflexivity|apply c; first [reflexivity|discriminate]]|]; cbn.
Tactic Notation "own" uconstr(c) := eapply rtc_l; [eapply c; reflexivity|]; cbn.

(** Both binlogs were read, the second was pushed to the loader and the log is drained. *)
Definition drained : feed :=
  mkFeed (B := Z * nat) [] None false true None true true 5 LdRunning [(8, 2%nat)] [] [] FeedRunning.

Lemma run_drained : run start drained.
Proof.
  unfold run, start, feed_start, toy_log. sel sel_binlog. sel sel_binlog. sel sel_push. sel sel_reader_closed. own fs_head. apply rtc_refl.
Qed.

Definition saved : feed :=
  mkFeed (B := Z * nat) [] None false true None true false 8 (LdStopped None) [] [] [(8, 2%nat)] (FeedSaved 8).

Lemma run_saved : run start saved.
Proof.
  unfold run. etrans; [apply run_drained|]. unfold drained. own fs_execute. own fs_stop. sel sel_success. sel sel_success_closed.
  own fs_finish. apply rtc_refl.
Qed.

Lemma relay_recovery_witness : run start saved /\ Forall2 (txn_of toy_ts toy_txn) (wanted toy_ts 5 toy_log) (executed saved).
Proof.
  split; [exact run_saved|].
  exact (proj2 (proj2 (proj2 (relay_recovery toy_ts toy_txn 5 toy_log None saved 8 run_saved eq_refl))) (or_introl eq_refl)).
Defined.

Lemma relay_recovery_completes_witness : exists s ts, run drained s /\ result s = FeedSaved ts.
Proof.
  exact (relay_recovery_completes toy_ts toy_txn 5 toy_log drained run_drained eq_refl (or_introl eq_refl) eq_refl (Forall_nil_2 _)).
Defined.

(** An error of the loader can go unnoticed: [Run] closes the channel of successes before
    it returns its error, so the loop can find that channel closed and end before it sees the
    error.  The checkpoint is then saved as consistent and [feedByRelayLog] returns no error,
    although a transaction of the log was not executed. *)
Theorem feed_hides_loader_error e : exists s,
  run start s /\ result s = FeedSaved 5 /\ ld s = LdStopped (Some e) /\ queue s = [(8, 2%nat)] /\ executed s = [].
Proof.
  eexists. split.
  - unfold run. etrans; [apply run_drained|]. unfold drained. eapply rtc_l; [apply (fs_fail _ _ _ _ e); reflexivity|]. cbn.
    sel sel_success_closed. own fs_finish. apply rtc_refl.
  - done.
Qed.

End FeedExamples.
