(* ===== verification/Reparo.v ===== *)
(** * Reparo
    The tool that replays the binlog files which drainer writes: reading the files in
    a range of timestamps ([reparo/read.go], [file.go], [decode.go]), the table filter
    ([reparo.go], [ddl.go]), its syncers ([reparo/syncer]), and drainer's side, the
    syncer that writes the files ([drainer/sync/pb.go]). *)
From Stdlib Require Import Init.Byte Strings.Byte Ascii.
From stdpp Require Import base option list gmap strings.
From S2P Require Import Prelude Text Binlog LogFile BinlogFile Filter LoaderModel Schema Datum Mutation TranslateTxn PbCodec TranslatePb.

(** ** Reading *)

(** [Decode] of reparo: the binlog, the length of its entry, what is left to read. *)
Definition reparo_Decode (r : list byte) : outcome (PBinlog * Z * list byte) :=
  let! (payload, length, r) := Decode r in
  let! binlog := Binlog_Unmarshal payload in
  Ret (binlog, length, r).

Section Reading.
(** The data directory; a path in it is given by the name. *)
Context (d : directory).

Definition searchFiles : outcome (list string) := ReadBinlogNames d.

Definition ErrNotExist : error := Err "no such file or directory".

Definition open_file (filename : string) : outcome (list byte) :=
  match d !! filename with Some c => Ret c | None => Fail ErrNotExist end.

Definition getFirstBinlogCommitTS (filename : string) : outcome Z :=
  let! (_, ts) := ParseBinlogName filename in
  if 0 <? ts then Ret ts
  else
    let! fd := open_file filename in
    match reparo_Decode fd with
    | Ret (binlog, _, _) => Ret (pb_CommitTs binlog)
    | Fail EOF => Ret 0
    | Fail e => Fail e
    | Panic => Panic
    end.

Definition appendFile (latestBinlogFile : string) (binlogFiles : list string) : list string :=
  if bool_decide (latestBinlogFile = ""%string) then binlogFiles else binlogFiles ++ [latestBinlogFile].

(** The loop of [filterFiles], with the files chosen so far and the latest candidate. *)
Fixpoint filter_loop (fileNames : list string) (startTS endTS : Z) (latestBinlogFile : string) (binlogFiles : list string)
    : outcome (list string) :=
  match fileNames with
  | [] => Ret (appendFile latestBinlogFile binlogFiles)
  | file :: fileNames =>
    let! ts := getFirstBinlogCommitTS file in
    if ts <=? startTS then filter_loop fileNames startTS endTS file binlogFiles
    else if (endTS <? ts) && negb (endTS =? 0) then Ret (appendFile latestBinlogFile binlogFiles)
    else filter_loop fileNames startTS endTS file (appendFile latestBinlogFile binlogFiles)
  end.

Definition filterFiles (fileNames : list string) (startTS endTS : Z) : outcome (list string) :=
  filter_loop fileNames startTS endTS "" [].

(** [dirPbReader]: [r_rest] is what is left to read of the current file. *)
Record dirPbReader := mkReader {
  r_files : list string;
  r_startTS : Z;
  r_endTS : Z;
  r_rest : list byte;
  r_idx : nat;
}.

Definition nextFile (r : dirPbReader) : outcome dirPbReader :=
  match r_files r !! r_idx r with
  | None => Fail EOF
  | Some bfile =>
    let! c := open_file bfile in
    Ret (mkReader (r_files r) (r_startTS r) (r_endTS r) c (S (r_idx r)))
  end.

Definition newDirPbReader (startTS endTS : Z) : outcome dirPbReader :=
  let! files := searchFiles in
  let! files := filterFiles files startTS endTS in
  let r := mkReader files startTS endTS [] 0 in
  match files with [] => Ret r | _ => nextFile r end.

Definition isAcceptableBinlog (binlog : PBinlog) (startTs endTs : Z) : bool :=
  (startTs <=? pb_CommitTs binlog) && ((endTs =? 0) || (pb_CommitTs binlog <=? endTs)).

(** What a reader can still go through: bytes and files. *)
Definition reader_weight (r : dirPbReader) : nat :=
  length (r_rest r) + foldr (fun f n => S (length (contents d f)) + n)%nat 0%nat (drop (r_idx r) (r_files r)).

(** The loop of [read]; after an error the reader is not used again. *)
Fixpoint read_loop (fuel : nat) (r : dirPbReader) : outcome (dirPbReader * PBinlog) :=
  match fuel with
  | O => Panic
  | S fuel =>
    match reparo_Decode (r_rest r) with
    | Ret (binlog, _, rest) =>
      let r := mkReader (r_files r) (r_startTS r) (r_endTS r) rest (r_idx r) in
      if isAcceptableBinlog binlog (r_startTS r) (r_endTS r) then Ret (r, binlog) else read_loop fuel r
    | Fail EOF => let! r := nextFile r in read_loop fuel r
    | Fail e => Fail e
    | Panic => Panic
    end
  end.

Definition read (r : dirPbReader) : outcome (dirPbReader * PBinlog) :=
  match r_files r with [] => Fail EOF | _ => read_loop (S (reader_weight r)) r end.

(** ** Filtering *)

Definition setSchemaIfExists (table : TableRule) (schemaName tableName : string) : TableRule :=
  mkRule (if bool_decide (schemaName = ""%string) then rule_Schema table else schemaName)
    (if bool_decide (tableName = ""%string) then rule_Table table else tableName).

(** The loop of [parseDDL]. *)
Fixpoint parse_ddl_loop (nodes : list stmt) (table : TableRule) : TableRule :=
  match nodes with
  | [] => table
  | UseStmt db :: nodes => parse_ddl_loop nodes (mkRule db (rule_Table table))
  | CreateDatabaseStmt name :: nodes | DropDatabaseStmt name :: nodes => parse_ddl_loop nodes (setSchemaIfExists table name "")
  | TableStmt s t :: nodes | RenameTableStmt s t _ _ :: nodes => parse_ddl_loop nodes (setSchemaIfExists table s t)
  | OtherStmt :: nodes => parse_ddl_loop nodes table
  end.

Context (Parse : string -> outcome (list stmt)).

Definition parseDDL (sql : string) : outcome TableRule :=
  let! nodes := Parse sql in Ret (parse_ddl_loop nodes (mkRule "" "")).

(** [SkipSchemaAndTable] of the filter. *)
Context (skip : string -> string -> bool).

Definition skip_event (ev : PEvent) : bool :=
  skip (default ""%string (pe_SchemaName ev)) (default ""%string (pe_TableName ev)).

(** [filterBinlog]: the binlog, whose events are replaced, and whether it is ignored. *)
Definition filterBinlog (binlog : PBinlog) : outcome (PBinlog * bool) :=
  if pb_Tp binlog =? BinlogType_DDL then
    let! table := parseDDL (bstring (default [] (pb_DdlQuery binlog))) in
    Ret (binlog, skip (rule_Schema table) (rule_Table table))
  else if pb_Tp binlog =? BinlogType_DML then
    match pb_DmlData binlog with
    | None => Panic
    | Some data =>
      let events := filter (fun ev => skip_event ev = false) (pd_Events data) in
      Ret (mkPBinlog (pb_Tp binlog) (pb_CommitTs binlog) (Some (mkPDMLData events (pd_unrecognized data))) (pb_DdlQuery binlog) (pb_unrecognized binlog),
           bool_decide (events = []))
    end
  else Fail (Err "unknown type").

(** ** Processing *)

Context {S : Type} (Sync : PBinlog -> S -> S * outcome unit).

Fixpoint process_loop (fuel : nat) (r : dirPbReader) (s : S) : S * outcome unit :=
  match fuel with
  | O => (s, Panic)
  | Datatypes.S fuel =>
    match read r with
    | Fail EOF => (s, Ret tt)
    | Fail e => (s, Fail e)
    | Panic => (s, Panic)
    | Ret (r, binlog) =>
      match filterBinlog binlog with
      | Fail e => (s, Fail e)
      | Panic => (s, Panic)
      | Ret (_, true) => process_loop fuel r s
      | Ret (binlog, false) =>
        match Sync binlog s with
        | (s, Ret _) => process_loop fuel r s
        | (s, Fail e) => (s, Fail e)
        | (s, Panic) => (s, Panic)
        end
      end
    end
  end.

Definition Process (startTSO stopTSO : Z) (s : S) : S * outcome unit :=
  match newDirPbReader startTSO stopTSO with
  | Ret r => process_loop (Datatypes.S (reader_weight r)) r s
  | Fail e => (s, Fail e)
  | Panic => (s, Panic)
  end.

End Reading.

(** ** Syncers *)

(** [MemSyncer.Sync] keeps the binlogs. *)
Definition mem_Sync (pbBinlog : PBinlog) (binlogs : list PBinlog) : list PBinlog * outcome unit :=
  (binlogs ++ [pbBinlog], Ret tt).

(** [mysqlSyncer.Sync]: the transaction is sent to the loader, or the loader has quit and
    its error is returned. *)
Definition mysql_Sync {L : Lib} (Parse : string -> outcome (list stmt)) (SprintS : Datum -> string) (NewBitDatum : Datum -> Datum)
    (loaderQuit : option (option error)) (pbBinlog : PBinlog) (input : list (Txn PBinlog)) : list (Txn PBinlog) * outcome unit :=
  match pbBinlogToTxn (Meta := PBinlog) Parse SprintS NewBitDatum pbBinlog with
  | Fail e => (input, Fail e)
  | Panic => (input, Panic)
  | Ret txn =>
    match loaderQuit with
    | Some (Some e) => (input, Fail e)
    | Some None => (input, Ret tt)
    | None => (input ++ [mkTxn (DMLs txn) (Txn_DDL txn) (AppliedTS txn) (Some pbBinlog)], Ret tt)
    end
  end.

(** [printSyncer.Sync]: what it prints, a string per call of [fmt.Printf]. *)
Section Print.
Context {L : Lib}.
(** Printing with [%s] and [%v], and the name of an event type. *)
Context (SprintS : Datum -> string) (type_name : Z -> string).

Definition formatValueToString (data : Datum) (tp : Z) : string :=
  if printed_value_type tp && negb (is_nil (GetValue data)) then SprintS data else Sprint data.

Definition newline : string := String "010"%char EmptyString.

Definition print_column (c : list byte) : outcome string :=
  let! col := Column_Unmarshal c in
  let! val := decode_value (pc_Value col) in
  let! tp := column_tp col in
  Ret (pc_Name col +:+ "(" +:+ pc_MysqlType col +:+ "): " +:+ formatValueToString val tp +:+ newline).

Definition print_update_column (c : list byte) : outcome string :=
  let! col := Column_Unmarshal c in
  let! val := decode_value (pc_Value col) in
  let! changedVal := decode_value (pc_ChangedValue col) in
  let! tp := column_tp col in
  Ret (pc_Name col +:+ "(" +:+ pc_MysqlType col +:+ "): " +:+ formatValueToString val tp +:+ " => " +:+ formatValueToString changedVal tp +:+ newline).

(** A row: the columns before one that fails are printed, its error is logged. *)
Fixpoint print_row (column : list byte -> outcome string) (row : list (list byte)) (out : list string) : outcome (list string) :=
  match row with
  | [] => Ret out
  | c :: row =>
    match column c with
    | Ret line => print_row column row (out ++ [line])
    | Fail _ => Ret out
    | Panic => Panic
    end
  end.

Definition printEvent (event : PEvent) (out : list string) : outcome (list string) :=
  let out := out ++ ["schema: " +:+ default ""%string (pe_SchemaName event) +:+ "; table: " +:+ default ""%string (pe_TableName event) +:+
                     "; type: " +:+ type_name (pe_Tp event) +:+ newline] in
  if pe_Tp event =? EventType_Insert then print_row print_column (pe_Row event) out
  else if pe_Tp event =? EventType_Update then print_row print_update_column (pe_Row event) out
  else if pe_Tp event =? EventType_Delete then print_row print_column (pe_Row event) out
  else Ret out.

Fixpoint print_events (events : list PEvent) (out : list string) : outcome (list string) :=
  match events with
  | [] => Ret out
  | ev :: events => let! out := printEvent ev out in print_events events out
  end.

Definition print_Sync (pbBinlog : PBinlog) (out : list string) : outcome (list string) :=
  if pb_Tp pbBinlog =? BinlogType_DDL then
    Ret (out ++ ["DDL query: " +:+ bstring (default [] (pb_DdlQuery pbBinlog)) +:+ newline])
  else if pb_Tp pbBinlog =? BinlogType_DML then
    print_events (match pb_DmlData pbBinlog with Some data => pd_Events data | None => [] end) out
  else Fail (Err "unknown type").
End Print.

(** ** Drainer's side *)

(** [pbSyncer]: the binlogger and the items that were reported. *)
Record pbSyncer {A : Type} := mkPbSyncer { p_binlogger : binlogger; p_success : list A }.
Arguments pbSyncer : clear implicits.
Arguments mkPbSyncer {A}.

Definition NewPBSyncer {A} (dir : directory) (now : string) (segmentSize : Z) : outcome (pbSyncer A) :=
  let! b := OpenBinlogger dir segmentSize now in Ret (mkPbSyncer b []).

Definition saveBinlog (w : io_write) (lock : option error) (now : string) (binlog : PBinlog) (b : binlogger) : binlogger * outcome unit :=
  let (b, r) := WriteTail w lock now (Binlog_Marshal binlog) b in
  (b, let! _ := r in Ret tt).

(** [pbSyncer.Sync]; [translate] is [TiBinlogToPbBinlog] on the item. *)
Definition pb_Sync {A} (translate : A -> outcome PBinlog) (w : io_write) (lock : option error) (now : string) (item : A) (p : pbSyncer A)
    : pbSyncer A * outcome unit :=
  match translate item with
  | Fail e => (p, Fail e)
  | Panic => (p, Panic)
  | Ret pbBinlog =>
    match saveBinlog w lock now pbBinlog (p_binlogger p) with
    | (b, Ret _) => (mkPbSyncer b (p_success p ++ [item]), Ret tt)
    | (b, Fail e) => (mkPbSyncer b (p_success p), Fail e)
    | (b, Panic) => (mkPbSyncer b (p_success p), Panic)
    end
  end.
