(* ===== verification/ReparoProofs.v ===== *)
(** * ReparoProofs
    Replaying the files of drainer: which binlogs reach the syncer. *)
From Stdlib Require Import Init.Byte Strings.Byte Ascii.
From stdpp Require Import base option list gmap strings sorting.
From S2P Require Import Prelude Text Binlog LogFile BinlogFile BinlogNames BinlogWalk Filter Schema PbCodec PbCodecProofs TranslatePb Reparo.

(** ** What the files hold *)

(** A file is given by its name and its binlogs. *)
Abbreviation pbfiles := (list (string * list PBinlog)).

Definition payloads_of (gs : pbfiles) : files := (fun g : string * list PBinlog => (g.1, Binlog_Marshal <$> g.2)) <$> gs.

Definition all_binlogs (gs : pbfiles) : list PBinlog := concat gs.*2.

Definition binlog_fits (b : PBinlog) : Prop := binlog_wf b /\ len (Binlog_Marshal b) + 4 <= maxAlloc.

Lemma Binlog_Marshal_nonempty b : Binlog_Marshal b <> [].
Proof. unfold Binlog_Marshal, put_varint. by destruct (app _ _) eqn:E. Qed.

Lemma fits_entry b : binlog_fits b -> entry_ok (Binlog_Marshal b).
Proof. intros [_ H]. split; [apply Binlog_Marshal_nonempty|done]. Qed.

Lemma Decode_binlog b rest : binlog_fits b ->
  reparo_Decode (Encode (Binlog_Marshal b) ++ rest) = Ret (b, 16 + len (Binlog_Marshal b), rest).
Proof.
  intros [Hw Hl]. unfold reparo_Decode. rewrite Decode_Encode_app by done. step_bind.
  assert (maxAlloc = 281474976710656) by reflexivity.
  rewrite Binlog_roundtrip; [done|done|lia].
Qed.

Lemma Decode_end : reparo_Decode [] = Fail EOF.
Proof. reflexivity. Qed.

(** ** The choice of files *)

Section Replay.
Context (d : directory) (startTS endTS : Z).

Abbreviation accept := (fun b => isAcceptableBinlog b startTS endTS = true).

(** A file of the directory, under a name without a timestamp. *)
Definition holds (g : string * list PBinlog) : Prop :=
  d !! g.1 = Some (file_bytes (Binlog_Marshal <$> g.2)) /\ Forall binlog_fits g.2 /\
  (exists index, ParseBinlogName g.1 = Ret (index, 0)).

Lemma holds_name g : holds g -> g.1 <> ""%string.
Proof. intros (_ & _ & i & H) Heq. by rewrite Heq in H. Qed.

Lemma first_ts name b bs : holds (name, b :: bs) -> getFirstBinlogCommitTS d name = Ret (pb_CommitTs b).
Proof.
  intros (Hd & Hf & i & Hp). cbn [fst snd] in *. unfold getFirstBinlogCommitTS. rewrite Hp. step_bind. cbn [Z.ltb Z.compare].
  unfold open_file. rewrite Hd. step_bind. apply Forall_cons_iff in Hf as [Hb _]. cbn [fmap list_fmap].
  rewrite file_bytes_cons. by rewrite Decode_binlog.
Qed.

Lemma accept_none bs : (forall b, b ∈ bs -> isAcceptableBinlog b startTS endTS = false) -> filter accept bs = [].
Proof.
  intros H. induction bs as [|b bs IH]; [done|]. rewrite filter_cons.
  rewrite decide_False by (rewrite H; [done|by left]). apply IH. intros x Hx. apply H. by right.
Qed.

Definition latest_name (lat : option (string * list PBinlog)) : string := default ""%string (fst <$> lat).

Lemma appendFile_latest lat acc : (forall g, lat = Some g -> holds g) ->
  appendFile (latest_name lat) acc = acc ++ (option_list lat).*1.
Proof.
  intros Hl. unfold appendFile, latest_name. destruct lat as [g|]; cbn.
  - rewrite bool_decide_eq_false_2; [done|]. apply holds_name. by apply Hl.
  - by rewrite app_nil_r.
Qed.

(** Nothing that is acceptable is left out. *)
Lemma filter_loop_spec gs : forall lat acc, Forall holds (option_list lat ++ gs) -> Forall (fun g => g.2 <> []) gs ->
  StronglySorted Z.lt (pb_CommitTs <$> all_binlogs (option_list lat ++ gs)) ->
  exists mid, filter_loop d gs.*1 startTS endTS (latest_name lat) acc = Ret (acc ++ mid.*1) /\
    mid `sublist_of` (option_list lat ++ gs) /\
    filter accept (all_binlogs mid) = filter accept (all_binlogs (option_list lat ++ gs)).
Proof.
  induction gs as [|[name bs] gs IH]; intros lat acc Hh Hne Hs.
  - exists (option_list lat). cbn. rewrite app_nil_r in *. split_and!; [|done|done].
    rewrite appendFile_latest; [done|]. intros g ->. by apply Forall_cons_iff in Hh as [? _].
  - apply Forall_app in Hh as [Hlat Hg]. apply Forall_cons_iff in Hg as [Hg Hgs]. apply Forall_cons_iff in Hne as [Hn Hne].
    destruct bs as [|b bs]; [done|]. cbn [fmap list_fmap filter_loop fst]. rewrite (first_ts _ _ _ Hg). step_bind.
    unfold all_binlogs in Hs. rewrite fmap_app, concat_app, fmap_app in Hs. apply StronglySorted_app in Hs as (Hlt & Hsl & Hsr).
    assert (Hsr' : StronglySorted Z.lt (pb_CommitTs <$> all_binlogs (option_list (Some (name, b :: bs)) ++ gs))) by exact Hsr.
    assert (Hnext : forall x, x ∈ concat (((name, b :: bs) :: gs).*2) -> pb_CommitTs b <= pb_CommitTs x).
    { intros x Hx. cbn in Hx, Hsr. apply elem_of_cons in Hx as [->|Hx]; [lia|]. apply StronglySorted_cons in Hsr as [Hb _].
      rewrite list.Forall_forall in Hb. apply Z.lt_le_incl, Hb. by apply list_elem_of_fmap_2. }
    assert (Hprev : forall x, x ∈ all_binlogs (option_list lat) -> pb_CommitTs x < pb_CommitTs b).
    { intros x Hx. apply Hlt; [by apply list_elem_of_fmap_2|]. cbn. by left. }
    assert (Happ : appendFile (latest_name lat) acc = acc ++ (option_list lat).*1).
    { apply appendFile_latest. intros g ->. by apply Forall_cons_iff in Hlat as [? _]. }
    destruct (Z.leb_spec (pb_CommitTs b) startTS) as [Hle|Hgt].
    + destruct (IH (Some (name, b :: bs)) acc) as (mid & Hr & Hsub & Hf); [by constructor|done|done|].
      exists mid. split_and!; [exact Hr|by apply sublist_inserts_l|].
      unfold all_binlogs at 2. rewrite fmap_app, concat_app, filter_app, (accept_none (concat (option_list lat).*2)); [exact Hf|].
      intros x Hx. unfold isAcceptableBinlog. specialize (Hprev x Hx). destruct (Z.leb_spec startTS (pb_CommitTs x)); [lia|done].
    + destruct ((endTS <? pb_CommitTs b) && negb (endTS =? 0)) eqn:He.
      * exists (option_list lat). split_and!; [by rewrite Happ|by apply sublist_inserts_r|].
        unfold all_binlogs at 2. rewrite fmap_app, concat_app, filter_app, (accept_none (concat ((name, b :: bs) :: gs).*2)); [by rewrite app_nil_r|].
        intros x Hx. specialize (Hnext x Hx). unfold isAcceptableBinlog. apply andb_true_iff in He as [He1 He2].
        apply Z.ltb_lt in He1. apply negb_true_iff in He2. rewrite He2. destruct (Z.leb_spec (pb_CommitTs x) endTS); [lia|]. apply andb_false_r.
      * destruct (IH (Some (name, b :: bs)) (acc ++ (option_list lat).*1)) as (mid & Hr & Hsub & Hf); [by constructor|done|done|].
        exists (option_list lat ++ mid). split_and!.
        -- rewrite Happ, fmap_app, app_assoc. exact Hr.
        -- by apply sublist_app.
        -- unfold all_binlogs in *. rewrite !fmap_app, !concat_app, !filter_app. f_equal. exact Hf.
Qed.

(** ** Reading the chosen files *)

(** What the reader has before it: the rest of a file, and files. *)
Record rrepr (r : dirPbReader) (cur : list PBinlog) (gs : pbfiles) : Prop := {
  rr_range : r_startTS r = startTS /\ r_endTS r = endTS;
  rr_rest : r_rest r = file_bytes (Binlog_Marshal <$> cur);
  rr_cur : Forall binlog_fits cur;
  rr_files : drop (r_idx r) (r_files r) = gs.*1;
  rr_some : r_files r <> [];
  rr_holds : Forall holds gs;
}.

Lemma nextFile_end r cur : rrepr r cur [] -> nextFile d r = Fail EOF.
Proof. intros [_ _ _ Hf _ _]. unfold nextFile. by rewrite <- (Nat.add_0_r (r_idx r)), <- lookup_drop, Hf. Qed.

Lemma nextFile_next r cur name bs gs : rrepr r cur ((name, bs) :: gs) ->
  exists r', nextFile d r = Ret r' /\ rrepr r' bs gs /\ (reader_weight d r' < reader_weight d r - length (r_rest r))%nat.
Proof.
  intros [Hr _ _ Hf Hs Hh]. apply Forall_cons_iff in Hh as [(Hd & Hb & _) Hh]. cbn [fst snd] in *.
  unfold nextFile. rewrite <- (Nat.add_0_r (r_idx r)), <- lookup_drop, Hf. cbn [fmap list_fmap lookup list_lookup fst].
  unfold open_file. rewrite Hd. step_bind. rewrite Nat.add_0_r. eexists. split; [reflexivity|].
  assert (Hf' : drop (S (r_idx r)) (r_files r) = gs.*1) by (rewrite <- Nat.add_1_r, <- drop_drop, Hf; done). split.
  - split; cbn; try done.
  - unfold reader_weight. cbn [r_rest r_idx r_files]. rewrite Hf, Hf'. cbn [fmap list_fmap foldr fst]. unfold contents. rewrite Hd. cbn [default from_option id]. lia.
Qed.

(** Reading delivers the next acceptable binlog, or the end. *)
Lemma read_loop_spec fuel : forall r cur gs, rrepr r cur gs -> (reader_weight d r < fuel)%nat ->
  match filter accept (cur ++ all_binlogs gs) with
  | [] => read_loop d fuel r = Fail EOF
  | b :: bs => exists r' cur' gs', read_loop d fuel r = Ret (r', b) /\ rrepr r' cur' gs' /\
      filter accept (cur' ++ all_binlogs gs') = bs /\ (reader_weight d r' < reader_weight d r)%nat
  end.
Proof.
  induction fuel as [|fuel IH]; intros r cur gs Hr Hw; [lia|]. cbn [read_loop]. rewrite (rr_rest _ _ _ Hr).
  destruct cur as [|b cur].
  - change (file_bytes _) with (@nil byte). rewrite Decode_end. destruct gs as [|[name bs] gs].
    + by rewrite (nextFile_end _ _ Hr).
    + destruct (nextFile_next _ _ _ _ _ Hr) as (r1 & -> & Hr1 & Hw1). step_bind.
      change ([] ++ all_binlogs ((name, bs) :: gs)) with (bs ++ all_binlogs gs).
      specialize (IH r1 bs gs Hr1 ltac:(lia)). destruct (filter accept _) as [|b l]; [done|].
      destruct IH as (r' & cur' & gs' & H1 & H2 & H3 & H4). exists r', cur', gs'. split_and!; try done. lia.
  - destruct Hr as [[Hst Hen] Hrest Hc Hf Hs Hh]. apply Forall_cons_iff in Hc as [Hb Hc].
    cbn [fmap list_fmap] in *. rewrite file_bytes_cons in *. rewrite Decode_binlog by done. cbn [r_startTS r_endTS]. rewrite Hst, Hen.
    set (r1 := mkReader _ _ _ _ _). assert (Hr1 : rrepr r1 cur gs) by by split.
    assert (Hw1 : (reader_weight d r1 < reader_weight d r)%nat).
    { unfold reader_weight. rewrite Hrest, length_app. pose proof (len_Encode (Binlog_Marshal b)). cbn [r_rest r_idx r_files r1]. lia. }
    cbn [app]. rewrite filter_cons. destruct (isAcceptableBinlog b startTS endTS) eqn:Ha.
    + rewrite decide_True by done. exists r1, cur, gs. done.
    + rewrite decide_False by done. specialize (IH r1 cur gs Hr1 ltac:(lia)). destruct (filter accept _) as [|b' l]; [done|].
      destruct IH as (r' & cur' & gs' & H1 & H2 & H3 & H4). exists r', cur', gs'. split_and!; try done. lia.
Qed.

(** ** Processing *)

Context (Parse : string -> outcome (list stmt)) (skip : string -> string -> bool).
Context {S : Type} (Sync : PBinlog -> S -> S * outcome unit).

(** The reference: filter each binlog and hand it to the syncer, up to the first error. *)
Fixpoint sync_all (bs : list PBinlog) (s : S) : S * outcome unit :=
  match bs with
  | [] => (s, Ret tt)
  | b :: bs =>
    match filterBinlog Parse skip b with
    | Fail e => (s, Fail e)
    | Panic => (s, Panic)
    | Ret (_, true) => sync_all bs s
    | Ret (b, false) =>
      match Sync b s with
      | (s, Ret _) => sync_all bs s
      | (s, Fail e) => (s, Fail e)
      | (s, Panic) => (s, Panic)
      end
    end
  end.

Lemma process_loop_spec fuel : forall r cur gs s, rrepr r cur gs -> (reader_weight d r < fuel)%nat ->
  process_loop d Parse skip Sync fuel r s = sync_all (filter accept (cur ++ all_binlogs gs)) s.
Proof.
  induction fuel as [|fuel IH]; intros r cur gs s Hr Hw; [lia|]. cbn [process_loop]. unfold read.
  destruct (r_files r) as [|f fs] eqn:Hfs; [by destruct (rr_some _ _ _ Hr)|].
  pose proof (read_loop_spec (Datatypes.S (reader_weight d r)) r cur gs Hr ltac:(lia)) as Hrd.
  destruct (filter accept _) as [|b bs]; [by rewrite Hrd|]. destruct Hrd as (r' & cur' & gs' & -> & Hr' & <- & Hw').
  cbn [sync_all]. destruct (filterBinlog Parse skip b) as [[b' [|]]| |]; [|..|done|done].
  - apply IH; [done|lia].
  - destruct (Sync b' s) as [s' [[]| |]]; [|done|done]. apply IH; [done|lia].
Qed.

Lemma holds_all i gs : drepr d i (payloads_of gs) [] -> Forall (Forall binlog_fits) gs.*2 -> Forall holds gs.
Proof.
  intros [_ [Hi Hl] Hn Hs _ _] Hf. revert i Hi Hl Hn Hs Hf. induction gs as [|[name bs] gs IH]; intros i Hi Hl Hn Hs Hf; [constructor|].
  cbn [payloads_of fmap list_fmap] in *. destruct Hn as [(dt & Hdt & Hname) Hn], Hs as [Hd Hs]. apply Forall_cons_iff in Hf as [Hb Hf].
  cbn [length fst] in *. constructor; [|apply (IH (i + 1)); [lia| |done..]; unfold payloads_of; rewrite length_fmap in *; lia]. split_and!; cbn [fst snd] in *; [|done|].
  - rewrite Hd. f_equal. destruct gs; cbn [fmap list_fmap]; by rewrite app_nil_r.
  - exists i. rewrite Hname. apply ParseBinlogName_name; [lia|done].
Qed.

(** Processing is the reference applied to the acceptable binlogs of all files. *)
Lemma Process_spec i gs s : drepr d i (payloads_of gs) [] -> Forall (Forall binlog_fits) gs.*2 -> Forall (fun g => g.2 <> []) gs ->
  StronglySorted Z.lt (pb_CommitTs <$> all_binlogs gs) ->
  Process d Parse skip Sync startTS endTS s = sync_all (filter accept (all_binlogs gs)) s.
Proof.
  intros Hd Hf Hne Hs. pose proof (holds_all _ _ Hd Hf) as Hh. unfold Process, newDirPbReader, searchFiles.
  rewrite (drepr_names _ _ _ _ Hd). step_bind. assert ((payloads_of gs).*1 = gs.*1) as ->.
  { unfold payloads_of. rewrite <- list_fmap_compose. done. }
  destruct (filter_loop_spec gs None []) as (mid & Hr & Hsub & Hm); [done|done|done|].
  unfold filterFiles. change ""%string with (latest_name None). rewrite Hr. step_bind. change (option_list None ++ gs) with gs in *. rewrite <- Hm.
  assert (Hhm : Forall holds mid) by (rewrite list.Forall_forall in *; intros g Hg; apply Hh; by eapply (sublist_subseteq mid)).
  destruct mid as [|[name bs] mid]; [done|]. cbn [fmap list_fmap fst app].
  destruct (nextFile_next (mkReader (name :: mid.*1) startTS endTS [] 0) [] name bs mid) as (r & -> & Hr' & _); [by split|].
  apply process_loop_spec; [done|lia].
Qed.
End Replay.

(** ** From drainer to reparo *)

Section Compose.
Context {A : Type} (translate : A -> outcome PBinlog).

(** Drainer syncs items, each at a time, without I/O errors. *)
Fixpoint sync_items (items : list (string * A)) (p : pbSyncer A) : pbSyncer A * outcome unit :=
  match items with
  | [] => (p, Ret tt)
  | (now, item) :: items =>
    match pb_Sync translate WOk None now item p with
    | (p, Ret _) => sync_items items p
    | r => r
    end
  end.

(** The files hold the binlogs, and only the last can be empty. *)
Record written (b : binlogger) (gs : pbfiles) (bs : list PBinlog) : Prop := {
  wr_repr : brepr b 0 (payloads_of gs);
  wr_all : all_binlogs gs = bs;
  wr_fits : Forall (Forall binlog_fits) gs.*2;
  wr_nonempty : exists gs0 n l, gs = gs0 ++ [(n, l)] /\ Forall (fun g => g.2 <> []) gs0;
}.

Lemma payloads_app gs hs : payloads_of (gs ++ hs) = payloads_of gs ++ payloads_of hs.
Proof. apply fmap_app. Qed.

Lemma written_save b gs bs now pb : written b gs bs -> binlog_fits pb -> datetime_ok now -> len gs + 1 <= 10 ^ 16 ->
  exists b' gs', saveBinlog WOk None now pb b = (b', Ret tt) /\ written b' gs' (bs ++ [pb]) /\ (length gs' <= S (length gs))%nat.
Proof.
  intros [Hb <- Hf (gs0 & n & l & -> & Hne)] Hpb Hnow Hlen.
  assert (Hl : len (payloads_of (gs0 ++ [(n, l)])) = len (gs0 ++ [(n, l)])) by (unfold payloads_of; by rewrite length_fmap).
  destruct (WriteTail_repr b 0 _ now (Binlog_Marshal pb) Hb (fits_entry _ Hpb) Hnow) as (b' & pos & fs' & fs0 & n1 & ps & extra & Hw & Hb' & _ & _ & Hfs & -> & Hx);
    [rewrite Hl; lia|].
  rewrite payloads_app in Hfs. apply app_inj_2 in Hfs as [Hfs0 [= <- <-]]; [|done]. subst fs0.
  rewrite !fmap_app in Hf. apply Forall_app in Hf as [Hf0 Hfl]. apply Forall_cons_iff in Hfl as [Hfl _]. cbn [snd] in Hfl.
  unfold saveBinlog. rewrite Hw. exists b'.
  assert (Hlast : Forall binlog_fits (l ++ [pb])) by (apply Forall_app; split; [done|by constructor]).
  assert (Hcat : forall ex, all_binlogs (gs0 ++ (n, l ++ [pb]) :: ex) = all_binlogs (gs0 ++ [(n, l)]) ++ [pb] ++ all_binlogs ex).
  { intros ex. unfold all_binlogs. rewrite !fmap_app, !concat_app. cbn. by rewrite app_nil_r, <- !app_assoc. }
  destruct Hx as [-> | [n' ->]].
  - exists (gs0 ++ [(n, l ++ [pb])]). split_and!; [done| |rewrite !length_app; cbn; lia]. split.
    + rewrite payloads_app. cbn [payloads_of fmap list_fmap fst snd]. rewrite app_nil_r in Hb'. change (fmap Binlog_Marshal) with (map Binlog_Marshal) in *.
      rewrite map_app. exact Hb'.
    + rewrite Hcat. done.
    + rewrite !fmap_app. apply Forall_app. split; [done|]. by constructor.
    + by exists gs0, n, (l ++ [pb]).
  - exists (gs0 ++ [(n, l ++ [pb]); (n', [])]). split_and!; [done| |rewrite !length_app; cbn; lia]. split.
    + rewrite payloads_app. cbn [payloads_of fmap list_fmap fst snd]. change (fmap Binlog_Marshal) with (map Binlog_Marshal) in *.
      rewrite map_app. exact Hb'.
    + rewrite Hcat. done.
    + rewrite !fmap_app. apply Forall_app. split; [done|]. by repeat constructor.
    + exists (gs0 ++ [(n, l ++ [pb])]), n', []. rewrite <- app_assoc. split; [done|]. apply Forall_app. split; [done|].
      constructor; [|done]. cbn. by destruct l.
Qed.

Lemma sync_items_written items : forall p gs bs pbs, written (p_binlogger p) gs bs ->
  Forall2 (fun x pb => translate x.2 = Ret pb) items pbs -> Forall binlog_fits pbs -> Forall (fun x => datetime_ok x.1) items ->
  len gs + len items <= 10 ^ 16 ->
  exists p' gs', sync_items items p = (p', Ret tt) /\ written (p_binlogger p') gs' (bs ++ pbs) /\ p_success p' = p_success p ++ items.*2.
Proof.
  induction items as [|[now item] items IH]; intros p gs bs pbs Hw Ht Hf Hn Hlen.
  - apply Forall2_nil_inv_l in Ht as ->. exists p, gs. rewrite !app_nil_r. done.
  - apply Forall2_cons_inv_l in Ht as (pb & pbs' & Hpb & Ht & ->). apply Forall_cons_iff in Hf as [Hf1 Hf]. apply Forall_cons_iff in Hn as [Hn1 Hn].
    cbn [fst snd length] in *. destruct (written_save _ _ _ now pb Hw Hf1 Hn1) as (b' & gs' & Hs & Hw' & Hl); [lia|].
    cbn [sync_items]. unfold pb_Sync. rewrite Hpb, Hs.
    destruct (IH (mkPbSyncer b' (p_success p ++ [item])) gs' (bs ++ [pb]) pbs' Hw' Ht Hf Hn) as (p' & gs2 & H1 & H2 & H3); [lia|].
    exists p', gs2. rewrite <- app_assoc in H2. split_and!; [done|done|]. rewrite H3. cbn. by rewrite <- app_assoc.
Qed.

Lemma written_fresh max now : datetime_ok now -> exists p : pbSyncer A, exists n,
  NewPBSyncer ∅ now max = Ret p /\ p_success p = [] /\ written (p_binlogger p) [(n, [])] [].
Proof.
  intros Hnow. destruct (OpenBinlogger_fresh max now Hnow) as (b & Hb & _ & Hr).
  exists (mkPbSyncer b []), (binlogNameWithDateTime 0 now). unfold NewPBSyncer. rewrite Hb. split_and!; [done|done|].
  split; [exact Hr|done|by repeat constructor|]. exists [], (binlogNameWithDateTime 0 now), []. split; [reflexivity|constructor].
Qed.

(** Where the file that is being written is not empty, no file is. *)
Lemma written_all_nonempty b gs bs : written b gs bs -> contents (dir b) (file b) <> [] -> Forall (fun g => g.2 <> []) gs.
Proof.
  intros [[Hd (fs0 & ps & Hfs & _)] _ _ (gs0 & n & l & -> & Hne)] Hc. apply Forall_app. split; [done|]. constructor; [|done]. cbn.
  rewrite payloads_app in Hfs. apply app_inj_2 in Hfs as [<- [= -> <-]]; [|done]. intros ->. apply Hc.
  rewrite payloads_app in Hd. exact (brepr_contents b 0 (payloads_of gs0) [] Hd).
Qed.

End Compose.

(** ** Concrete directories *)
Module ReparoExamples.

Definition now : string := "20190101010101".
Definition no_parse (sql : string) : outcome (list stmt) := Ret [].
Definition skip_none (schema table : string) : bool := false.

Definition insert_event (table : string) : PEvent := mkPEvent (Some "db") (Some table) EventType_Insert [[x01]] [].
Definition dml (ts : Z) (table : string) : PBinlog := mkPBinlog BinlogType_DML ts (Some (mkPDMLData [insert_event table] [])) None [].

Definition pbs : list PBinlog := [dml 5 "t"; dml 8 "t"; dml 9 "u"; dml 12 "u"].
Definition items : list (string * PBinlog) := (fun pb => (now, pb)) <$> pbs.

(** Segments of 60 bytes: two binlogs fill the first one. *)
Definition synced (max : Z) (n : nat) : pbSyncer PBinlog :=
  match NewPBSyncer ∅ now max with
  | Ret p => (sync_items Ret (take n items) p).1
  | _ => mkPbSyncer (mkBinlogger ∅ 0 "" 0 0 0 0) []
  end.

Definition replay_files (max : Z) (n : nat) (startTS endTS : Z) : list PBinlog * outcome unit :=
  Process (dir (p_binlogger (synced max n))) no_parse skip_none mem_Sync startTS endTS [].

Example replay_range : replay_files 60 3 8 9 = ([dml 8 "t"; dml 9 "u"], Ret tt).
Proof. vm_compute. reflexivity. Qed.


(** An empty last file, which drainer leaves whenever it has just filled a segment, makes
    reparo drop the file before it: [getFirstBinlogCommitTS] gives the empty file the
    timestamp 0, which is not above the start, so it replaces the candidate that is not yet
    in the list.  Without a range nothing of the only full segment is replayed; one more
    binlog in the last file and everything is. *)
Theorem empty_file_hides :
  p_success (synced 60 2) = [dml 5 "t"; dml 8 "t"] /\ replay_files 60 2 0 0 = ([], Ret tt) /\
  replay_files 60 3 0 0 = ([dml 5 "t"; dml 8 "t"; dml 9 "u"], Ret tt).
Proof. split; [|split]; vm_compute; reflexivity. Qed.

(** A directory without binlog files is an error, not the end of the data. *)
Example empty_directory : Process ∅ no_parse skip_none mem_Sync 0 0 [] = ([], Fail ErrFileNotFound).
Proof. vm_compute. reflexivity. Qed.

End ReparoExamples.
