(* ===== verification/Arbiter.v ===== *)
(** * Arbiter
    The server that loads binlogs from Kafka into a database ([arbiter/server.go]) with
    its checkpoint ([arbiter/checkpoint.go]): the goroutines of [Run] and the loader as
    steps that interleave. *)
From stdpp Require Import base option list strings gmap relations sorting.
From S2P Require Import Prelude RelayFeed.

Definition StatusNormal : Z := 0.
Definition StatusRunning : Z := 1.

(** ** The checkpoint: a row per topic *)

Abbreviation checkpoint_table := (gmap string (Z * Z)).

Definition cp_Save (topicName : string) (ts status : Z) (t : checkpoint_table) : checkpoint_table :=
  <[topicName := (ts, status)]> t.

Definition ErrNotFound : error := Err "no checkpoint".

Definition cp_Load (topicName : string) (t : checkpoint_table) : outcome (Z * Z) :=
  match t !! topicName with Some row => Ret row | None => Fail ErrNotFound end.

(** [loadStatus] with [finishTS] set to the initial timestamp before: [finishTS] and the
    status, which is 0 when there is no row. *)
Definition loadStatus (topicName : string) (t : checkpoint_table) (initialCommitTS : Z) : Z * Z :=
  match cp_Load topicName t with Ret row => row | _ => (initialCommitTS, 0) end.

(** The part of [NewServer] on the checkpoint: where the reader starts, and whether the
    loader starts in safe mode. *)
Definition NewServer (topicName : string) (t : checkpoint_table) (initialCommitTS : Z) (downSafeMode : bool) : Z * bool :=
  let (finishTS, status) := loadStatus topicName t initialCommitTS in
  (finishTS, downSafeMode || (status =? StatusRunning)).

(** ** The server while it runs *)
Section Arbiter.
Context {B T : Type} (commit_ts : B -> Z) (to_txn : B -> outcome T) (topic : string).

(** [syncBinlogs]. *)
Record sync_part := mkSync {
  source : list B;               (** what the reader of Kafka still delivers *)
  sourceClosed : bool;           (** [kafkaReader.Close] was called *)
  receivedTs : Z;
  pending : option (Z * T);      (** the transaction that is offered to the loader *)
  canceled : bool;               (** [syncCancel] was called *)
  syncDone : option (option error);
}.

(** The loader: its state, what it accepted, what it reports, what it executed. *)
Record load_part := mkLoad {
  a_ld : loader_state;
  inputClosed : bool;            (** [ld.Close] was called *)
  a_queue : list (Z * T);
  a_reported : list Z;
  a_executed : list (Z * T);
}.

(** [trackTS]. *)
Record track_part := mkTrack {
  finishTS : Z;
  trackDone : bool;
  table : checkpoint_table;
}.

(** [Run]: what [load.Run] returned, and its own result. *)
Record run_part := mkRun {
  loadErr : option (option error);
  runResult : option (option error);
}.

Record server := mkServer { sy : sync_part; lo : load_part; tr : track_part; rn : run_part }.

Definition server_start (msgs : list B) (ts : Z) (t : checkpoint_table) : server :=
  mkServer (mkSync msgs false 0 None false None) (mkLoad LdRunning false [] [] []) (mkTrack ts false t) (mkRun None None).

(** The deferred [ld.Close] of [syncBinlogs], and the [Close] of the server when it returns
    an error. *)
Definition sync_return (err : option error) (s : sync_part) (l : load_part) : sync_part * load_part :=
  (mkSync (source s) (sourceClosed s || match err with Some _ => true | None => false end) (receivedTs s) (pending s) (canceled s) (Some err),
   mkLoad (a_ld l) true (a_queue l) (a_reported l) (a_executed l)).

Inductive sync_step : sync_part * load_part -> sync_part * load_part -> Prop :=
  | sy_skip s l b rest : syncDone s = None -> pending s = None -> source s = b :: rest -> commit_ts b <= receivedTs s ->
      sync_step (s, l) (mkSync rest (sourceClosed s) (receivedTs s) None (canceled s) None, l)
  | sy_recv s l b rest t : syncDone s = None -> pending s = None -> source s = b :: rest -> receivedTs s < commit_ts b -> to_txn b = Ret t ->
      sync_step (s, l) (mkSync rest (sourceClosed s) (commit_ts b) (Some (commit_ts b, t)) (canceled s) None, l)
  | sy_bad s l b rest e : syncDone s = None -> pending s = None -> source s = b :: rest -> receivedTs s < commit_ts b -> to_txn b = Fail e ->
      sync_step (s, l) (sync_return (Some e) (mkSync rest (sourceClosed s) (commit_ts b) None (canceled s) None) l)
  | sy_end s l : syncDone s = None -> pending s = None -> sourceClosed s = true ->
      sync_step (s, l) (sync_return None s l)
  | sy_push s l x : syncDone s = None -> pending s = Some x -> a_ld l = LdRunning ->
      sync_step (s, l) (mkSync (source s) (sourceClosed s) (receivedTs s) None (canceled s) None,
                        mkLoad (a_ld l) (inputClosed l) (a_queue l ++ [x]) (a_reported l) (a_executed l))
  | sy_cancel s l x : syncDone s = None -> pending s = Some x -> canceled s = true ->
      sync_step (s, l) (sync_return None s l).

(** The loader executes in order, reports what it executed, may fail at any time, and stops
    when its input is closed and it is empty. *)
Inductive load_step : load_part -> load_part -> Prop :=
  | lo_execute l x q : a_ld l = LdRunning -> a_queue l = x :: q ->
      load_step l (mkLoad LdRunning (inputClosed l) q (a_reported l ++ [fst x]) (a_executed l ++ [x]))
  | lo_fail l e : a_ld l = LdRunning ->
      load_step l (mkLoad (LdStopped (Some e)) (inputClosed l) (a_queue l) (a_reported l) (a_executed l))
  | lo_stop l : a_ld l = LdRunning -> inputClosed l = true -> a_queue l = [] ->
      load_step l (mkLoad (LdStopped None) true [] (a_reported l) (a_executed l))
  | lo_quit l err : a_ld l = LdStopped err ->
      load_step l (mkLoad (LdQuit err) (inputClosed l) (a_queue l) (a_reported l) (a_executed l)).

(** [saveFinishTS], which can fail. *)
Definition saveFinishTS (ok : bool) (status : Z) (t : track_part) : track_part :=
  if ok then mkTrack (finishTS t) (trackDone t) (cp_Save topic (finishTS t) status (table t)) else t.

(** [trackTS]: a success, a tick, the end.  Its context is canceled only after [Run] has
    waited for it. *)
Inductive track_step : load_part * track_part -> load_part * track_part -> Prop :=
  | tr_success l t ts rest : trackDone t = false -> a_reported l = ts :: rest ->
      track_step (l, t) (mkLoad (a_ld l) (inputClosed l) (a_queue l) rest (a_executed l), mkTrack ts false (table t))
  | tr_tick l t ok : trackDone t = false -> track_step (l, t) (l, saveFinishTS ok StatusRunning t)
  | tr_end l t ok : trackDone t = false -> a_reported l = [] -> a_ld l <> LdRunning ->
      track_step (l, t) (l, saveFinishTS ok StatusRunning (mkTrack (finishTS t) true (table t))).

(** The end of [Run], with the error of the last save if it fails. *)
Definition run_end (saveErr : option error) (err serr : option error) (t : track_part) : track_part * option error :=
  match err, serr with
  | Some e, _ => (t, Some e)
  | None, Some e => (t, Some e)
  | None, None =>
    match saveErr with
    | Some e => (t, Some e)
    | None => (saveFinishTS true StatusNormal t, None)
    end
  end.

Inductive server_step : server -> server -> Prop :=
  | ss_sync s sy' lo' : runResult (rn s) = None -> sync_step (sy s, lo s) (sy', lo') -> server_step s (mkServer sy' lo' (tr s) (rn s))
  | ss_load s lo' : runResult (rn s) = None -> load_step (lo s) lo' -> server_step s (mkServer (sy s) lo' (tr s) (rn s))
  | ss_track s lo' tr' : runResult (rn s) = None -> track_step (lo s, tr s) (lo', tr') -> server_step s (mkServer (sy s) lo' tr' (rn s))
  | ss_close s : runResult (rn s) = None ->
      server_step s (mkServer (mkSync (source (sy s)) true (receivedTs (sy s)) (pending (sy s)) (canceled (sy s)) (syncDone (sy s))) (lo s) (tr s) (rn s))
  | ss_returned s err : runResult (rn s) = None -> loadErr (rn s) = None -> a_ld (lo s) = LdQuit err ->
      let failed := match err with Some _ => true | None => false end in
      server_step s (mkServer (mkSync (source (sy s)) (sourceClosed (sy s) || failed) (receivedTs (sy s)) (pending (sy s)) (canceled (sy s) || failed) (syncDone (sy s)))
                       (lo s) (tr s) (mkRun (Some err) None))
  | ss_end s err serr saveErr : runResult (rn s) = None -> loadErr (rn s) = Some err -> syncDone (sy s) = Some serr -> trackDone (tr s) = true ->
      server_step s (mkServer (sy s) (lo s) (fst (run_end saveErr err serr (tr s))) (mkRun (Some err) (Some (snd (run_end saveErr err serr (tr s)))))).

(** ** The invariant *)

(** The messages that are not skipped as repeated. *)
Fixpoint accepted (received : Z) (bs : list B) : list B :=
  match bs with
  | [] => []
  | b :: bs => if commit_ts b <=? received then accepted received bs else b :: accepted (commit_ts b) bs
  end.

Definition txn_of (b : B) (x : Z * T) : Prop := fst x = commit_ts b /\ to_txn b = Ret (snd x).

(** What the loader holds and the syncing goroutine has read. *)
Definition in_order (s : server) : list (Z * T) := a_executed (lo s) ++ a_queue (lo s) ++ option_list (pending (sy s)).

Record seen_inv (msgs : list B) (s : server) (seen : list B) : Prop := {
  se_prefix : exists rest, msgs = seen ++ rest /\ (rest = source (sy s) \/ exists e, syncDone (sy s) = Some (Some e));
  se_txns : Forall2 txn_of (accepted 0 seen) (in_order s);
  se_last : (forall e, syncDone (sy s) <> Some (Some e)) -> receivedTs (sy s) = default 0 (last (commit_ts <$> accepted 0 seen));
}.

(** The timestamps of the transactions executed so far, the first [n] of which were
    received by [trackTS]. *)
Record track_inv (start : Z) (t0 : checkpoint_table) (s : server) : Prop := {
  ti_finish : exists before, (fst <$> a_executed (lo s)) = before ++ a_reported (lo s) /\ finishTS (tr s) = default start (last before);
  ti_done : trackDone (tr s) = true -> a_reported (lo s) = [] /\ a_ld (lo s) <> LdRunning;
  ti_stopped : a_ld (lo s) = LdStopped None \/ a_ld (lo s) = LdQuit None -> inputClosed (lo s) = true /\ a_queue (lo s) = [];
  ti_closed : inputClosed (lo s) = true <-> syncDone (sy s) <> None;
  ti_load : forall err, loadErr (rn s) = Some err -> a_ld (lo s) = LdQuit err;
  ti_pending : pending (sy s) <> None -> syncDone (sy s) = None \/ canceled (sy s) = true;
  ti_canceled : canceled (sy s) = true -> exists e, loadErr (rn s) = Some (Some e);
  ti_table : table (tr s) = t0 \/ exists n status, (n <= length (a_executed (lo s)))%nat /\
    table (tr s) = cp_Save topic (default start (last (take n (fst <$> a_executed (lo s))))) status t0 /\
    (status = StatusRunning \/ status = StatusNormal /\ runResult (rn s) = Some None /\ n = length (a_executed (lo s)) /\
       a_queue (lo s) = [] /\ pending (sy s) = None /\ forall e, syncDone (sy s) <> Some (Some e));
}.
Lemma accepted_snoc bs b : forall r, accepted r (bs ++ [b]) =
  accepted r bs ++ (if commit_ts b <=? default r (last (commit_ts <$> accepted r bs)) then [] else [b]).
Proof.
  induction bs as [|x bs IH]; intros r; cbn [app accepted].
  - cbn. by destruct (commit_ts b <=? r).
  - destruct (commit_ts x <=? r); [apply IH|]. rewrite IH. cbn [app fmap list_fmap]. f_equal. f_equal.
    destruct (accepted (commit_ts x) bs) as [|y l] eqn:E; [done|]. cbn [fmap list_fmap last].
    by destruct (last (commit_ts y :: (commit_ts <$> l))) eqn:El; [|apply last_None in El].
Qed.

Lemma seen_start msgs ts t : seen_inv msgs (server_start msgs ts t) [].
Proof. split; cbn; [exists msgs; auto|constructor|done]. Qed.

Lemma seen_sync msgs s sy' lo' seen : seen_inv msgs s seen -> sync_step (sy s, lo s) (sy', lo') ->
  exists seen', seen_inv msgs (mkServer sy' lo' (tr s) (rn s)) seen'.
Proof.
  destruct s as [y l t r]. intros [(rest & Hm & Hrest) HF Hl] Hst. unfold in_order in HF. cbn [sy lo tr rn] in *.
  assert (Hok : syncDone y = None -> forall e, syncDone y <> Some (Some e)) by (intros ->; done).
  inversion Hst as [? ? b rest' Hd Hp Hs Hle|? ? b rest' x Hd Hp Hs Hlt Ht|? ? b rest' e Hd Hp Hs Hlt Ht|? ? Hd Hp Hc|? ? x Hd Hp Hld|? ? x Hd Hp Hc];
    subst; (destruct Hrest as [-> | [e' He']]; [|congruence]); specialize (Hl (Hok Hd)).
  - exists (seen ++ [b]). rewrite Hs. split; unfold in_order; cbn; rewrite ?accepted_snoc, <- ?Hl.
    + exists rest'. rewrite <- app_assoc. auto.
    + rewrite (proj2 (Z.leb_le _ _) Hle), app_nil_r. by rewrite Hp in HF.
    + intros _. by rewrite (proj2 (Z.leb_le _ _) Hle), app_nil_r.
  - exists (seen ++ [b]). rewrite Hs. split; unfold in_order; cbn; rewrite ?accepted_snoc, <- ?Hl.
    + exists rest'. rewrite <- app_assoc. auto.
    + rewrite (proj2 (Z.leb_gt _ _) Hlt). rewrite Hp in HF. cbn [option_list] in HF. rewrite app_nil_r in HF. rewrite app_assoc.
      apply Forall2_app; [done|]. by repeat constructor.
    + intros _. rewrite (proj2 (Z.leb_gt _ _) Hlt), fmap_app. cbn [fmap list_fmap]. by rewrite last_snoc.
  - exists seen. rewrite Hs. split; unfold in_order; cbn; [|by rewrite Hp in HF|intros H; by destruct (H e)].
    exists (b :: rest'). split; [done|]. right. by eexists.
  - exists seen. split; unfold in_order; cbn; [by exists (source y); auto|done|]. intros _. done.
  - exists seen. split; unfold in_order; cbn; [by exists (source y); auto| |by intros _].
    rewrite Hp in HF. cbn [option_list] in HF. by rewrite app_nil_r.
  - exists seen. split; unfold in_order; cbn; [by exists (source y); auto|done|]. intros _. done.
Qed.

(** The other steps read nothing and keep the transactions. *)
Lemma seen_keep msgs s s' seen : seen_inv msgs s seen -> in_order s' = in_order s -> source (sy s') = source (sy s) ->
  receivedTs (sy s') = receivedTs (sy s) -> syncDone (sy s') = syncDone (sy s) -> seen_inv msgs s' seen.
Proof. intros [H1 H2 H3] Ho Hs Hr Hd. split; rewrite ?Ho, ?Hs, ?Hr, ?Hd; done. Qed.

Lemma seen_step msgs s s' seen : seen_inv msgs s seen -> server_step s s' -> exists seen', seen_inv msgs s' seen'.
Proof.
  intros I Hst. destruct Hst as [s sy' lo' Hr Hs|s lo' Hr Hl|s lo' tr' Hr Ht|s Hr|s err Hr Hn Hq failed|s err serr saveErr Hr Hn Hd Hdone].
  - by eapply seen_sync.
  - exists seen. eapply seen_keep; [done| |done..]. unfold in_order. cbn [lo sy]. inversion Hl; subst; cbn; try done.
    + rewrite <- app_assoc. by rewrite H0.
    + by rewrite H1.
  - exists seen. eapply seen_keep; [done| |done..]. unfold in_order. cbn [lo sy]. inversion Ht; subst; done.
  - exists seen. by eapply seen_keep.
  - exists seen. by eapply seen_keep.
  - exists seen. by eapply seen_keep.
Qed.

(** *** What is saved *)

Context (start : Z) (t0 : checkpoint_table).

Lemma track_start msgs : track_inv start t0 (server_start msgs start t0).
Proof. split; cbn; try done; [by exists []|intros [H|H]; done|by left]. Qed.

(** A step that keeps the table, the result and the executed transactions. *)
Lemma table_keep (s s' : server) : runResult (rn s) = None -> table (tr s') = table (tr s) ->
  (exists more, a_executed (lo s') = a_executed (lo s) ++ more) ->
  (table (tr s) = t0 \/ exists n status, (n <= length (a_executed (lo s)))%nat /\
    table (tr s) = cp_Save topic (default start (last (take n (fst <$> a_executed (lo s))))) status t0 /\
    (status = StatusRunning \/ status = StatusNormal /\ runResult (rn s) = Some None /\ n = length (a_executed (lo s)) /\
       a_queue (lo s) = [] /\ pending (sy s) = None /\ forall e, syncDone (sy s) <> Some (Some e))) ->
  table (tr s') = t0 \/ exists n status, (n <= length (a_executed (lo s')))%nat /\
    table (tr s') = cp_Save topic (default start (last (take n (fst <$> a_executed (lo s'))))) status t0 /\
    (status = StatusRunning \/ status = StatusNormal /\ runResult (rn s') = Some None /\ n = length (a_executed (lo s')) /\
       a_queue (lo s') = [] /\ pending (sy s') = None /\ forall e, syncDone (sy s') <> Some (Some e)).
Proof.
  intros Hr Ht [more Hm] [H0|(n & status & Hn & Hrow & Hst)]; [left; congruence|]. right. exists n, status.
  rewrite Hm, length_app, fmap_app, take_app_le by (rewrite length_fmap; lia). rewrite Ht, Hrow. split_and!; [lia|done|].
  destruct Hst as [?|(_ & Hres & _)]; [by left|congruence].
Qed.

(** Saving what was received so far. *)
Lemma table_save (s : server) status : track_inv start t0 s ->
  exists n, (n <= length (a_executed (lo s)))%nat /\
    cp_Save topic (finishTS (tr s)) status (table (tr s)) = cp_Save topic (default start (last (take n (fst <$> a_executed (lo s))))) status t0 /\
    (a_reported (lo s) = [] -> n = length (a_executed (lo s))).
Proof.
  intros [(before & Hb & Hf) _ _ _ _ _ _ Ht]. exists (length before).
  assert (Hlen : length (a_executed (lo s)) = (length before + length (a_reported (lo s)))%nat) by (rewrite <- length_app, <- Hb; by rewrite length_fmap).
  rewrite Hb, take_app_length, Hf. split_and!; [lia| |intros Hn; rewrite Hn in Hlen; cbn in Hlen; lia].
  destruct Ht as [-> |(n & st & _ & -> & _)]; unfold cp_Save; [done|]. by rewrite insert_insert_eq.
Qed.

Lemma track_sync s sy' lo' : track_inv start t0 s -> runResult (rn s) = None -> sync_step (sy s, lo s) (sy', lo') ->
  track_inv start t0 (mkServer sy' lo' (tr s) (rn s)).
Proof.
  intros I Hr Hst. pose proof (fun s' => table_keep s s' Hr) as Hk. destruct I as [I1 I2 I3 I4 I5 I6 I7 I8].
  destruct s as [y l t r]. cbn [sy lo tr rn] in *.
  assert (Hsame : forall y' l', a_executed l' = a_executed l -> exists more, a_executed (lo (mkServer y' l' t r)) = a_executed l ++ more).
  { intros y' l' Heq. exists []. cbn. by rewrite app_nil_r. }
  inversion Hst as [? ? b rest' Hd Hp Hs Hle|? ? b rest' x Hd Hp Hs Hlt Ht|? ? b rest' e Hd Hp Hs Hlt Ht|? ? Hd Hp Hc|? ? x Hd Hp Hld|? ? x Hd Hp Hc];
    subst; (split; [| | | | | | |apply Hk; [done|by apply Hsame|done]]);
    cbn [sy lo tr rn fst snd sync_return source sourceClosed receivedTs pending canceled syncDone a_ld inputClosed a_queue a_reported a_executed].
  all: first [done | by rewrite I4, Hd | (intros _; by left) | (intros _; by right) | idtac].
  all: intros H; try (by rewrite Hp in H); apply I3 in H as [H _]; apply I4 in H; congruence.
Qed.

Lemma track_load s lo' : track_inv start t0 s -> runResult (rn s) = None -> load_step (lo s) lo' ->
  track_inv start t0 (mkServer (sy s) lo' (tr s) (rn s)).
Proof.
  intros I Hr Hst. pose proof (fun s' => table_keep s s' Hr) as Hk. destruct I as [(before & Hb & Hf) I2 I3 I4 I5 I6 I7 I8].
  destruct s as [y l t r]. cbn [sy lo tr rn] in *.
  inversion Hst as [? x q Hld Hq|? e Hld|? Hld Hc Hq|? err Hld]; subst;
    (split; [| | | | | | |apply Hk; [done| |done]; (by eexists) || (exists []; by rewrite app_nil_r)]);
    cbn [sy lo tr rn a_ld inputClosed a_queue a_reported a_executed].
  all: try done.
  all: try (intros err' H; apply I5 in H; congruence).
  all: try (by exists before).
  all: try (intros H; destruct (I2 H); congruence).
  all: try (by intros [H|H]).
  - exists before. rewrite fmap_app, Hb, <- app_assoc. done.
  - by rewrite <- I4, Hc.
  - intros H. destruct (I2 H). by split.
  - intros [H|[= ->]]; [done|]. apply I3. by left.
Qed.

Lemma track_track s lo' tr' : track_inv start t0 s -> runResult (rn s) = None -> track_step (lo s, tr s) (lo', tr') ->
  track_inv start t0 (mkServer (sy s) lo' tr' (rn s)).
Proof.
  intros I Hr Hst. pose proof (fun s' => table_keep s s' Hr) as Hk. pose proof (table_save s StatusRunning I) as Hsave.
  destruct I as [(before & Hb & Hf) I2 I3 I4 I5 I6 I7 I8].
  assert (Hsaved : forall done' ok, (table (saveFinishTS ok StatusRunning (mkTrack (finishTS (tr s)) done' (table (tr s)))) = t0 \/
    exists n status, (n <= length (a_executed (lo s)))%nat /\
    table (saveFinishTS ok StatusRunning (mkTrack (finishTS (tr s)) done' (table (tr s)))) =
      cp_Save topic (default start (last (take n (fst <$> a_executed (lo s))))) status t0 /\
    (status = StatusRunning \/ status = StatusNormal /\ runResult (rn s) = Some None /\ n = length (a_executed (lo s)) /\
       a_queue (lo s) = [] /\ pending (sy s) = None /\ forall e, syncDone (sy s) <> Some (Some e)))).
  { intros done' [|]; cbn [saveFinishTS table finishTS]; [|done]. destruct Hsave as (n & Hn & Hrow & _). right. exists n, StatusRunning. auto. }
  destruct s as [y l t r]. cbn [sy lo tr rn] in *.
  inversion Hst as [? ? ts rest Hd Hrep|? ? ok Hd|? ? ok Hd Hrep Hld]; subst.
  - split; [| | | | | | |apply Hk; [done|exists []; by rewrite app_nil_r|done]]; cbn [sy lo tr rn a_ld inputClosed a_queue a_reported a_executed finishTS trackDone table]; try done.
    exists (before ++ [ts]). rewrite Hb, Hrep, <- app_assoc, last_snoc. done.
  - specialize (Hsaved (trackDone t) ok). destruct t as [f dn tb]. cbn [finishTS table trackDone] in *. split; cbn [sy lo tr rn]; try done.
    + exists before. by destruct ok.
    + by destruct ok; cbn; rewrite Hd.
  - specialize (Hsaved true ok). split; cbn [sy lo tr rn]; try done.
    + exists before. by destruct ok.
Qed.

Lemma track_step_inv s s' : track_inv start t0 s -> server_step s s' -> track_inv start t0 s'.
Proof.
  intros I Hst. destruct Hst as [s sy' lo' Hr Hs|s lo' Hr Hl|s lo' tr' Hr Ht|s Hr|s err Hr Hn Hq failed|s err serr saveErr Hr Hn Hd Hdone].
  - by apply track_sync.
  - by apply track_load.
  - by apply track_track.
  - destruct I as [I1 I2 I3 I4 I5 I6 I7 I8]. by split.
  - pose proof (fun s' => table_keep s s' Hr) as Hk. destruct I as [I1 I2 I3 I4 I5 I6 I7 I8].
    split; [| | | | | | |apply Hk; [done|exists []; by rewrite app_nil_r|done]]; cbn; try done.
    + by intros ? [= <-].
    + intros H. destruct (I6 H) as [?|H']; [by left|]. right. by rewrite H'.
    + intros H. apply orb_true_iff in H as [H|H]; [apply I7 in H as [e He]; congruence|]. destruct err as [e|]; [|done]. by exists e.
  - pose proof (fun s' => table_keep s s' Hr) as Hk. pose proof (table_save s StatusNormal I) as Hsave. pose proof I as [I1 I2 I3 I4 I5 I6 I7 I8].
    destruct (decide (err = None /\ serr = None /\ saveErr = None)) as [(-> & -> & ->)|Hne].
    + split; cbn; try done; [|intros H; apply I7 in H as [e He]; congruence|].
      * intros e [= <-]. by apply I5.
      * right. destruct Hsave as (n & Hle & Hrow & Hfull). exists n, StatusNormal. destruct (I2 Hdone) as [Hrep _].
        split_and!; [done|done|]. right. destruct (I3 (or_intror (I5 _ Hn))) as [_ Hqueue].
        assert (Hp : pending (sy s) = None).
        { destruct (pending (sy s)) eqn:E; [|done]. destruct I6 as [H|H]; [done|congruence|]. apply I7 in H as [e He]. congruence. }
        split_and!; try done; [by apply Hfull|]. intros e. congruence.
    + assert (Hend : run_end saveErr err serr (tr s) = (tr s, snd (run_end saveErr err serr (tr s)))).
      { destruct err, serr, saveErr; try done. by destruct Hne. }
      rewrite Hend. cbn [fst]. split; [| | | | | | |apply Hk; [done|exists []; by rewrite app_nil_r|done]]; cbn; try done.
      * intros e [= <-]. by apply I5.
      * intros H. apply I7 in H as [e He]. exists e. congruence.
Qed.

Lemma server_reachable_inv msgs s : rtc server_step (server_start msgs start t0) s ->
  track_inv start t0 s /\ exists seen, seen_inv msgs s seen.
Proof.
  intros Hr. revert s Hr. refine (rtc_ind_r (fun s => track_inv start t0 s /\ exists seen, seen_inv msgs s seen) _ _ _).
  - split; [apply track_start|]. exists []. apply seen_start.
  - intros s s' _ Hst [It [seen Is]]. split; [by eapply track_step_inv|by eapply seen_step].
Qed.

(** ** What the checkpoint promises *)

Lemma accepted_app bs cs : exists more, accepted 0 (bs ++ cs) = accepted 0 bs ++ more.
Proof.
  induction cs as [|c cs [more IH]] using rev_ind; [exists []; by rewrite !app_nil_r|]. rewrite app_assoc, accepted_snoc, IH.
  rewrite <- app_assoc. by eexists.
Qed.

Lemma accepted_above bs : forall r b, b ∈ accepted r bs -> r < commit_ts b.
Proof.
  induction bs as [|x bs IH]; intros r b Hb; [by apply elem_of_nil in Hb|]. cbn [accepted] in Hb.
  destruct (Z.leb_spec (commit_ts x) r); [by apply IH|]. apply elem_of_cons in Hb as [->|Hb]; [done|]. apply IH in Hb. lia.
Qed.

Lemma accepted_sorted bs : forall r, StronglySorted Z.lt (commit_ts <$> accepted r bs).
Proof.
  induction bs as [|x bs IH]; intros r; [constructor|]. cbn [accepted]. destruct (Z.leb_spec (commit_ts x) r); [done|].
  cbn [fmap list_fmap]. constructor; [done|]. apply list.Forall_forall. intros y Hy. apply list_elem_of_fmap in Hy as (b & -> & Hb).
  by apply accepted_above in Hb.
Qed.

(** In a sorted list everything up to the last of a prefix is in the prefix. *)
Lemma sorted_prefix (l1 l2 : list B) d b : StronglySorted Z.lt (commit_ts <$> (l1 ++ l2)) -> b ∈ l1 ++ l2 -> d < commit_ts b ->
  commit_ts b <= default d (last (commit_ts <$> l1)) -> b ∈ l1.
Proof.
  intros Hs Hb Hd Hle. apply elem_of_app in Hb as [?|Hb]; [done|]. exfalso. rewrite fmap_app in Hs. apply StronglySorted_app in Hs as (Hlt & _ & _).
  destruct (last (commit_ts <$> l1)) as [m|] eqn:E; cbn in Hle; [|lia].
  assert (m < commit_ts b); [|lia]. apply Hlt; [by apply last_Some_elem_of|by apply list_elem_of_fmap_2].
Qed.

Lemma txn_ts bs xs : Forall2 txn_of bs xs -> fst <$> xs = commit_ts <$> bs.
Proof. induction 1 as [|b x bs xs [H _] _ IH]; [done|]. cbn. by rewrite H, IH. Qed.


Lemma last_sorted_max (l : list Z) x : StronglySorted Z.lt l -> x ∈ l -> x <= default x (last l).
Proof.
  induction l as [|y l IH] using rev_ind; intros Hs Hx; [by apply elem_of_nil in Hx|]. rewrite last_snoc. cbn.
  apply StronglySorted_app in Hs as (Hlt & _ & _). apply elem_of_app in Hx as [Hx|Hx%list_elem_of_singleton]; [|lia].
  apply Z.lt_le_incl, Hlt; [done|by left].
Qed.

(** A restart without safe mode repeats nothing: if the row was saved by the run that
    stopped, at any point, or stood as running before it, then a server that starts from it
    without safe mode reads from a timestamp that no executed message is above. *)
Theorem arbiter_restart msgs s initialTS :
  rtc server_step (server_start msgs start t0) s ->
  table (tr s) <> t0 \/ (exists ts, t0 !! topic = Some (ts, StatusRunning)) ->
  snd (NewServer topic (table (tr s)) initialTS false) = false ->
  forall x, x ∈ a_executed (lo s) -> fst x <= fst (NewServer topic (table (tr s)) initialTS false).
Proof.
  intros Hr Hrow Hsafe x Hx. destruct (server_reachable_inv _ _ Hr) as [It (seen & [_ HF _])]. unfold in_order in HF.
  destruct (proj1 (Forall2_app_inv_r _ _ _ _) HF) as (l1 & l2 & H1 & _ & Hacc). pose proof (txn_ts _ _ H1) as Hts.
  destruct (ti_table _ _ _ It) as [Ht|(n & status & Hn & Ht & Hst)].
  - destruct Hrow as [?|[ts Hrow]]; [done|]. revert Hsafe. unfold NewServer, loadStatus, cp_Load. by rewrite Ht, Hrow.
  - revert Hsafe. unfold NewServer, loadStatus, cp_Load. rewrite Ht. unfold cp_Save. rewrite lookup_insert_eq.
    destruct Hst as [-> |(_ & _ & -> & _)]; [done|]. intros _. cbn [fst]. rewrite take_ge by (rewrite length_fmap; lia).
    assert (Hx' : fst x ∈ (fst <$> a_executed (lo s))) by by apply list_elem_of_fmap_2.
    assert (Hs : StronglySorted Z.lt (fst <$> a_executed (lo s))).
    { rewrite Hts. pose proof (accepted_sorted seen 0) as Hs. rewrite Hacc, fmap_app in Hs. by apply StronglySorted_app in Hs as (_ & ? & _). }
    pose proof (last_sorted_max _ _ Hs Hx') as Hmax. revert Hmax. destruct (last (fst <$> a_executed (lo s))) eqn:E; intros Hmax; [exact Hmax|]. apply last_None in E. rewrite E in Hx'. by apply elem_of_nil in Hx'.
Qed.
End Arbiter.

(** ** Concrete runs *)
Module ArbiterExamples.

Definition toy_ts (b : Z * nat) : Z := fst b.
Definition toy_txn (b : Z * nat) : outcome nat := Ret (snd b).
Definition msgs : list (Z * nat) := [(6, 1%nat); (6, 1%nat); (9, 2%nat)].
Definition before : checkpoint_table := {["t" := (5, StatusNormal)]}.

Definition run : relation (server (B := Z * nat) (T := nat)) := rtc (server_step toy_ts toy_txn "t").
Definition started : server (T := nat) := server_start msgs 5 before.

Tactic Notation "go" uconstr(c) uconstr(d) := eapply rtc_l; [apply c; [reflexivity|apply d; first [reflexivity|discriminate|(vm_compute; congruence)]]|]; cbn.

(** The first message was executed and nothing was saved. *)
Definition unsaved : server :=
  mkServer (mkSync [(6, 1%nat); (9, 2%nat)] false 6 None false None) (mkLoad LdRunning false [] [6] [(6, 1%nat)]) (mkTrack 5 false before) (mkRun None None).

Lemma run_unsaved : run started unsaved.
Proof.
  unfold run, started, server_start, msgs. eapply rtc_l; [apply ss_sync; [reflexivity|eapply sy_recv; [reflexivity..|vm_compute; reflexivity|reflexivity]]|]. cbn.
  go ss_sync sy_push. go ss_load lo_execute. apply rtc_refl.
Qed.

(** A tick saves it. *)
Definition ticked : server :=
  mkServer (sy unsaved) (mkLoad LdRunning false [] [] [(6, 1%nat)]) (mkTrack 6 false (cp_Save "t" 6 StatusRunning before)) (mkRun None None).

Lemma run_ticked : run started ticked.
Proof.
  unfold run. etrans; [apply run_unsaved|]. unfold unsaved. go ss_track tr_success.
  eapply rtc_l; [apply ss_track; [reflexivity|by apply (tr_tick _ _ _ true)]|]. apply rtc_refl.
Qed.


(** The server is closed, everything that was read is executed, and [Run] ends. *)
Definition ended : server :=
  mkServer (mkSync [(6, 1%nat); (9, 2%nat)] true 6 None false (Some None)) (mkLoad (LdQuit None) true [] [] [(6, 1%nat)])
    (mkTrack 6 true (cp_Save "t" 6 StatusNormal (cp_Save "t" 6 StatusRunning (cp_Save "t" 6 StatusRunning before)))) (mkRun (Some None) (Some None)).

Lemma run_ended : run started ended.
Proof.
  unfold run. etrans; [apply run_ticked|]. unfold ticked, unsaved. cbn [sy].
  eapply rtc_l; [by apply ss_close|]. cbn. go ss_sync sy_end. go ss_load lo_stop. go ss_load lo_quit.
  eapply rtc_l; [apply ss_track; [reflexivity|by apply (tr_end _ _ _ true)]|]. cbn. eapply rtc_l; [by eapply ss_returned|]. cbn.
  eapply rtc_l; [by apply (ss_end _ _ _ _ None None None)|]. apply rtc_refl.
Qed.

Lemma arbiter_restart_witness : snd (NewServer "t" (table (tr ended)) 0 false) = false /\
  forall x, x ∈ a_executed (lo ended) -> fst x <= fst (NewServer "t" (table (tr ended)) 0 false).
Proof.
  split; [reflexivity|].
  apply (arbiter_restart toy_ts toy_txn "t" 5 before msgs ended 0 run_ended); [|reflexivity]. left.
  intros H. apply (f_equal (fun t => t !! ("t" : string))) in H. vm_compute in H. discriminate.
Defined.

(** A crash soon after a clean start is not noticed: the server does not mark the row as
    running when it starts, so if the process dies before the first tick the row still says
    that the last run ended normally, and the next server starts without safe mode below a
    message that was already executed. *)
Theorem arbiter_crash_unmarked : exists s, run started s /\ (6, 1%nat) ∈ a_executed (lo s) /\
  NewServer "t" (table (tr s)) 0 false = (5, false).
Proof. exists unsaved. split; [exact run_unsaved|]. split; [by left|reflexivity]. Qed.

End ArbiterExamples.
