(* ===== verification/DrainerServer.v ===== *)
(** * DrainerServer
    The drainer as a node of the cluster ([drainer/server.go]): the heartbeat, the
    requests that pause or close it, and its end, as goroutines that interleave; what
    the registry says of the drainer is what pumps rely on. *)
From stdpp Require Import base option list strings relations.
From S2P Require Import Prelude Text Registry PumpServer.

Definition heartbeatMaxErr : nat := 20.

(** The goroutine of the heartbeat: about to call [updateStatus]; in [UpdateNode] with a
    clone of the status; waiting; ended with the error it reports, if any. *)
Inductive hb_pc := HbLoop | HbSending (st : Status) | HbWait | HbDone (err : option error).

(** [Close]: not called; in [UpdateNode] of [commitStatus]; waiting for the goroutines; done. *)
Inductive close_pc := ClOpen | ClSending (st : Status) | ClWaiting | ClDone.

Record drainer := mkDrainer {
  d_status : Status;             (** [s.status] *)
  d_checkpoint : Z;              (** [syncer.GetLatestCommitTS()], the saved checkpoint *)
  d_registered : option Status;  (** what etcd holds for the node *)
  d_hb : hb_pc;
  d_errCounter : nat;
  d_actions : list string;       (** requests between the check of the state and the change *)
  d_close : close_pc;
  d_canceled : bool;             (** [s.cancel] was called *)
  d_closeAsked : bool;           (** ghost: a request to close changed the state *)
}.

Section Drainer.
(** The time that [NewServer] got from PD, and when. *)
Context (latestTS latestTime : Z).

(** The first half of [updateStatus], under the lock: the status is brought up to date and
    cloned. *)
Definition refreshed (now : Z) (s : drainer) : Status :=
  let t := d_status s in
  mkStatus (NodeID t) (Addr t) (State t) (IsAlive t) (Score t) (d_checkpoint s) (GetApproachTS latestTS latestTime now).

Definition with_status (t : Status) (s : drainer) : drainer :=
  mkDrainer t (d_checkpoint s) (d_registered s) (d_hb s) (d_errCounter s) (d_actions s) (d_close s) (d_canceled s) (d_closeAsked s).
Definition with_registered (r : option Status) (s : drainer) : drainer :=
  mkDrainer (d_status s) (d_checkpoint s) r (d_hb s) (d_errCounter s) (d_actions s) (d_close s) (d_canceled s) (d_closeAsked s).
Definition with_hb (pc : hb_pc) (n : nat) (s : drainer) : drainer :=
  mkDrainer (d_status s) (d_checkpoint s) (d_registered s) pc n (d_actions s) (d_close s) (d_canceled s) (d_closeAsked s).
Definition with_close (pc : close_pc) (c : bool) (s : drainer) : drainer :=
  mkDrainer (d_status s) (d_checkpoint s) (d_registered s) (d_hb s) (d_errCounter s) (d_actions s) pc c (d_closeAsked s).

(** [UpdateNode]: it is applied, or it fails, with or without having been applied. *)
Inductive update_result := UpdOk | UpdErr (e : error) (applied : bool).

Definition after_update (r : update_result) (st : Status) (s : drainer) : drainer :=
  match r with UpdOk | UpdErr _ true => with_registered (Some st) s | UpdErr _ false => s end.

(** The rest of an iteration of [heartbeat]. *)
Definition heartbeat_sent (r : update_result) (st : Status) (s : drainer) : drainer :=
  let s := after_update r st s in
  match r with
  | UpdOk => with_hb HbWait 0 s
  | UpdErr e _ =>
    let errCounter := S (d_errCounter s) in
    if (heartbeatMaxErr <=? errCounter)%nat then with_hb (HbDone (Some e)) errCounter s else with_hb HbWait errCounter s
  end.

(** [ApplyAction]: a request for this node that finds it online goes on; ... *)
Definition action_check (nodeID action : string) (s : drainer) : drainer * option string :=
  if negb (bool_decide (nodeID = NodeID (d_status s)))
  then (s, Some ("invalid nodeID " +:+ nodeID +:+ ", this pump's nodeID is " +:+ NodeID (d_status s)))
  else if negb (bool_decide (State (d_status s) = Online))
  then (s, Some ("this pump's state is " +:+ State (d_status s) +:+ ", apply " +:+ action +:+ " failed!"))
  else (mkDrainer (d_status s) (d_checkpoint s) (d_registered s) (d_hb s) (d_errCounter s) (d_actions s ++ [action]) (d_close s) (d_canceled s) (d_closeAsked s), None).

(** ... and changes the state, after the lock was released and taken again. *)
Definition action_apply (action : string) (s : drainer) : drainer * option string :=
  if bool_decide (action = "pause"%string) then (with_status (set_state Pausing (d_status s)) s, None)
  else if bool_decide (action = "close"%string) then
    (mkDrainer (set_state Closing (d_status s)) (d_checkpoint s) (d_registered s) (d_hb s) (d_errCounter s) (d_actions s) (d_close s) (d_canceled s) true, None)
  else (s, Some ("invalid action " +:+ action)).

Definition drop_actions (l : list string) (s : drainer) : drainer :=
  mkDrainer (d_status s) (d_checkpoint s) (d_registered s) (d_hb s) (d_errCounter s) l (d_close s) (d_canceled s) (d_closeAsked s).

(** The first half of [commitStatus]. *)
Definition commit_begin (now : Z) (s : drainer) : drainer :=
  let s := with_status (set_state (final_state (State (d_status s))) (d_status s)) s in
  let st := refreshed now s in
  with_close (ClSending st) (d_canceled s) (with_status st s).

Inductive drainer_step : drainer -> drainer -> Prop :=
  (** the checkpoint moves *)
  | dr_save s ts : d_checkpoint s <= ts ->
      drainer_step s (mkDrainer (d_status s) ts (d_registered s) (d_hb s) (d_errCounter s) (d_actions s) (d_close s) (d_canceled s) (d_closeAsked s))
  (** the heartbeat *)
  | dr_beat s now : d_hb s = HbLoop ->
      drainer_step s (with_hb (HbSending (refreshed now s)) (d_errCounter s) (with_status (refreshed now s) s))
  | dr_sent s st r : d_hb s = HbSending st -> drainer_step s (heartbeat_sent r st s)
  | dr_tick s : d_hb s = HbWait -> drainer_step s (with_hb HbLoop (d_errCounter s) s)
  | dr_stop s : d_hb s = HbWait -> d_canceled s = true -> drainer_step s (with_hb (HbDone None) (d_errCounter s) s)
  (** requests *)
  | dr_check s nodeID action : drainer_step s (fst (action_check nodeID action s))
  | dr_apply s l1 action l2 : d_actions s = l1 ++ action :: l2 ->
      drainer_step s (fst (action_apply action (drop_actions (l1 ++ l2) s)))
  (** the end, after a request, a signal or the end of a goroutine *)
  | dr_close s now : d_close s = ClOpen -> drainer_step s (commit_begin now s)
  | dr_committed s st r : d_close s = ClSending st -> drainer_step s (with_close ClWaiting true (after_update r st s))
  | dr_closed s err : d_close s = ClWaiting -> d_hb s = HbDone err -> drainer_step s (with_close ClDone true s).

(** After [Start] has registered the node. *)
Definition drainer_start (nodeID addr : string) (cp updateTS : Z) : drainer :=
  let st := NewStatus nodeID addr Online 0 cp updateTS in
  mkDrainer st cp (Some st) HbLoop 0 [] ClOpen false false.

(** ** What the registry may say *)

(** A status that was cloned: not ahead of the checkpoint, and closing only on request. *)
Definition honest (s : drainer) (st : Status) : Prop :=
  MaxCommitTS st <= d_checkpoint s /\ (State st = Closing \/ State st = Offline -> d_closeAsked s = true).

Record drainer_inv (s : drainer) : Prop := {
  di_status : honest s (d_status s);
  di_registered : forall st, d_registered s = Some st -> honest s st;
  di_hb : forall st, d_hb s = HbSending st -> honest s st;
  di_close : forall st, d_close s = ClSending st -> honest s st;
  di_counter : match d_hb s with HbDone (Some _) => d_errCounter s = heartbeatMaxErr | _ => (d_errCounter s < heartbeatMaxErr)%nat end;
}.

Lemma honest_mono s s' st : honest s st -> d_checkpoint s <= d_checkpoint s' -> (d_closeAsked s = true -> d_closeAsked s' = true) -> honest s' st.
Proof. intros [H1 H2] Hc Ha. split; [lia|]. intros H. by apply Ha, H2. Qed.

Lemma honest_refreshed now s : honest s (d_status s) -> honest s (refreshed now s).
Proof. intros [_ H]. split; [cbn; lia|done]. Qed.

Lemma honest_final now s : honest s (d_status s) ->
  honest s (refreshed now (with_status (set_state (final_state (State (d_status s))) (d_status s)) s)).
Proof.
  intros [_ H]. split; [cbn; lia|]. cbn. unfold final_state. case_bool_decide as H1; [by intros [?|?]|].
  case_bool_decide as H2; [intros _; apply H; by left|done].
Qed.

Lemma drainer_inv_start nodeID addr cp updateTS : drainer_inv (drainer_start nodeID addr cp updateTS).
Proof.
  assert (H : honest (drainer_start nodeID addr cp updateTS) (NewStatus nodeID addr Online 0 cp updateTS)).
  { split; [cbn; lia|]. by intros [?|?]. }
  split; cbn; try done; [|unfold heartbeatMaxErr; lia]. by intros st [= <-].
Qed.

Lemma drainer_inv_sent r st s : drainer_inv s -> d_hb s = HbSending st -> drainer_inv (heartbeat_sent r st s).
Proof.
  intros [I1 I2 I3 I4 I5] Hhb. rewrite Hhb in I5. specialize (I3 st Hhb).
  destruct r as [|e [|]]; unfold heartbeat_sent; cbn [after_update d_errCounter with_registered].
  1: split; cbn; try done; [by intros ? [= <-]|unfold heartbeatMaxErr; lia].
  all: destruct (Nat.leb_spec heartbeatMaxErr (S (d_errCounter s))); split; cbn; try done; first [by intros ? [= <-]|lia].
Qed.

Lemma drainer_inv_step s s' : drainer_inv s -> drainer_step s s' -> drainer_inv s'.
Proof.
  intros I Hst. destruct Hst as [s ts Hle|s now Hhb|s st r Hhb|s Hhb|s Hhb Hc|s nodeID action|s l1 action l2 Hl|s now Hcl|s st r Hcl|s err Hcl Hhb].
  - destruct I as [I1 I2 I3 I4 I5]. split; cbn; [|intros st H; apply I2 in H|intros st H; apply I3 in H|intros st H; apply I4 in H|done];
      (eapply honest_mono; [done|done|done]).
  - destruct I as [I1 I2 I3 I4 I5]. pose proof (honest_refreshed now s I1) as Hr. rewrite Hhb in I5.
    split; cbn; try done. by intros st [= <-].
  - by apply drainer_inv_sent.
  - destruct I as [I1 I2 I3 I4 I5]. rewrite Hhb in I5. by split.
  - destruct I as [I1 I2 I3 I4 I5]. rewrite Hhb in I5. by split.
  - unfold action_check. destruct (negb _); [done|]. destruct (negb _); [done|]. destruct I as [I1 I2 I3 I4 I5]. by split.
  - assert (I' : drainer_inv (drop_actions (l1 ++ l2) s)) by (destruct I; by split). clear I. revert I'. generalize (drop_actions (l1 ++ l2) s).
    clear. intros s [I1 I2 I3 I4 I5]. unfold action_apply. case_bool_decide; cbn [fst].
    { split; cbn; try done. destruct I1 as [I1 _]. split; [done|]. by intros [?|?]. }
    case_bool_decide; cbn [fst]; [|done]. destruct I1 as [I1 _].
    split; cbn; [by split|intros st Hx; apply I2 in Hx|intros st Hx; apply I3 in Hx|intros st Hx; apply I4 in Hx|done]; (eapply honest_mono; [done|done|done]).
  - destruct I as [I1 I2 I3 I4 I5]. pose proof (honest_final now s I1) as Hf. split; cbn; try done. by intros st [= <-].
  - destruct I as [I1 I2 I3 I4 I5]. specialize (I4 st Hcl). destruct r as [|e [|]]; split; cbn; try done; by intros ? [= <-].
  - destruct I as [I1 I2 I3 I4 I5]. by split.
Qed.

Lemma drainer_inv_reachable nodeID addr cp updateTS s : rtc drainer_step (drainer_start nodeID addr cp updateTS) s -> drainer_inv s.
Proof.
  intros Hr. revert s Hr. refine (rtc_ind_r drainer_inv _ _ _); [apply drainer_inv_start|]. intros s s' _ Hst I. by eapply drainer_inv_step.
Qed.


(** The heartbeat gives up exactly after twenty errors in a row. *)
Lemma heartbeat_gives_up nodeID addr cp updateTS s e : rtc drainer_step (drainer_start nodeID addr cp updateTS) s ->
  d_hb s = HbDone (Some e) -> d_errCounter s = heartbeatMaxErr.
Proof. intros Hr%drainer_inv_reachable Hhb. pose proof (di_counter _ Hr) as H. by rewrite Hhb in H. Qed.
End Drainer.

(** ** Concrete runs *)
Module DrainerExamples.

Definition started : drainer := drainer_start "d" "h:1" 10 0.
Definition run : relation drainer := rtc (drainer_step 0 0).

(** A request to close is served; the checkpoint has moved on. *)
Definition offline : Status := mkStatus "d" "h:1" Offline false 0 15 0.
Definition closed : drainer := mkDrainer offline 15 (Some offline) HbLoop 0 [] ClWaiting true true.

Lemma run_closed : run started closed.
Proof.
  unfold run, started, drainer_start. eapply rtc_l; [by apply (dr_save _ _ _ 15)|]. cbn. eapply rtc_l; [by apply (dr_check _ _ _ "d" "close")|]. cbn.
  eapply rtc_l; [by apply (dr_apply _ _ _ [] "close" [])|]. cbn. eapply rtc_l; [by apply (dr_close _ _ _ 0)|]. cbn.
  eapply rtc_l; [by apply (dr_committed _ _ _ offline UpdOk)|]. apply rtc_refl.
Qed.


(** A late heartbeat brings a closed drainer back: the heartbeat clones the status and
    calls [UpdateNode] outside of the lock, so the call can reach etcd after that of
    [commitStatus].  The drainer has ended without an error, and the registry says for ever
    that it is online. *)
Theorem late_heartbeat : exists s st, run started s /\ d_close s = ClDone /\ State (d_status s) = Offline /\ d_registered s = Some st /\ State st = Online.
Proof.
  eexists _, _. split.
  - unfold run, started, drainer_start. eapply rtc_l; [by apply (dr_beat _ _ _ 0)|]. cbn.
    eapply rtc_l; [by apply (dr_check _ _ _ "d" "close")|]. cbn. eapply rtc_l; [by apply (dr_apply _ _ _ [] "close" [])|]. cbn.
    eapply rtc_l; [by apply (dr_close _ _ _ 0)|]. cbn. eapply rtc_l; [by eapply (dr_committed _ _ _ _ UpdOk)|]. cbn.
    eapply rtc_l; [by eapply (dr_sent _ _ _ _ UpdOk)|]. cbn. eapply rtc_l; [by apply dr_stop|]. cbn. eapply rtc_l; [by eapply dr_closed|]. apply rtc_refl.
  - done.
Qed.
End DrainerExamples.
