(* ===== verification/DrainerConfig.v ===== *)
(** * DrainerConfig
    The configuration of drainer and pump: the adjustment and validation of what flags and
    file say ([drainer/config.go]), the configuration of the checkpoint and of the event
    filters that drainer derives from it ([drainer/util.go]), durations
    ([pkg/util/duration.go]) and the validation of a pump ([pump/config.go]). *)
From Stdlib Require Import Ascii.
From stdpp Require Import base option list gmap strings.
From S2P Require Import Prelude Text Filter.

(** ** Durations *)

Definition Hour : Z := 3600 * 1000000000.
Definition Minute : Z := 60 * 1000000000.

(** [Duration.ParseDuration]: days, or what [time.ParseDuration] accepts. *)
Definition ParseDuration (time_ParseDuration : string -> outcome Z) (d : string) : outcome Z :=
  match parse_uint 64 d with
  | Ret t => Ret (wrap_i64 (wrap_i64 (wrap_i64 t * 24) * Hour))
  | _ => time_ParseDuration d
  end.

(** ** The configuration *)

Record CheckpointConfig := mkCheckpointConfig {
  cc_Type : string; cc_Schema : string; cc_Host : string; cc_User : string; cc_Password : string;
  cc_EncryptedPassword : string; cc_Port : Z;
}.

(** [dsync.DBConfig], without what is only passed on. *)
Record DBConfig := mkDBConfig {
  to_Host : string; to_User : string; to_Password : string; to_EncryptedPassword : string; to_Port : Z;
  to_Checkpoint : CheckpointConfig;
  to_BinlogFileDir : string;
  to_ReadTimeout : Z; to_ReadTimeoutStr : string;
  to_ZKAddrs : string; to_KafkaAddrs : string; to_KafkaVersion : string; to_KafkaMaxMessages : Z; to_KafkaMaxMessageSize : Z;
}.

Record SyncerConfig := mkSyncerConfig {
  sc_IgnoreSchemas : string;
  sc_IgnoreTables : list TableRule;
  sc_WorkerCount : Z;
  sc_To : option DBConfig;
  sc_DoTables : list TableRule;
  sc_DoDBs : list string;
  sc_DestDBType : string;
  sc_RelayLogDir : string;
  sc_DisableDispatchFlag : option bool; sc_EnableDispatchFlag : option bool;
  sc_DisableDispatchFile : option bool; sc_EnableDispatchFile : option bool;
  sc_DisableCausalityFlag : option bool; sc_EnableCausalityFlag : option bool;
  sc_DisableCausalityFile : option bool; sc_EnableCausalityFile : option bool;
}.

Record Config := mkConfig {
  c_ListenAddr : string; c_AdvertiseAddr : string; c_DataDir : string; c_DetectInterval : Z; c_EtcdURLs : string;
  c_InitialCommitTS : Z; c_SyncerCfg : SyncerConfig; c_Compressor : string;
  c_tls : bool;                  (** [cfg.tls != nil] *)
}.

(** The first of the settings that is given decides; the disabling ones come first. *)
Definition enabled (disableFlag disableFile enableFlag enableFile : option bool) : bool :=
  match disableFlag with Some b => negb b | None =>
  match disableFile with Some b => negb b | None =>
  match enableFlag with Some b => b | None =>
  match enableFile with Some b => b | None => true end end end end.

Definition EnableDispatch (c : SyncerConfig) : bool :=
  enabled (sc_DisableDispatchFlag c) (sc_DisableDispatchFile c) (sc_EnableDispatchFlag c) (sc_EnableDispatchFile c).
Definition EnableCausality (c : SyncerConfig) : bool :=
  enabled (sc_DisableCausalityFlag c) (sc_DisableCausalityFile c) (sc_EnableCausalityFlag c) (sc_EnableCausalityFile c).
Definition IsEnabled (c : SyncerConfig) : bool := negb (bool_decide (sc_RelayLogDir c = ""%string)).

Section Adjust.
(** The environment, decryption, ZooKeeper, [time.ParseDuration], lower case, and the address
    to listen on by default. *)
Context (Getenv : string -> string) (Decrypt : string -> outcome string) (KafkaUrls : string -> outcome string)
  (time_ParseDuration : string -> outcome Z) (ToLower : string -> string) (DefaultListenAddr : Z -> string).

Definition AdjustString (v defValue : string) : string := if bool_decide (v = ""%string) then defValue else v.
Definition AdjustInt (v defValue : Z) : Z := if v =? 0 then defValue else v.

Definition defaultDataDir : string := "data.drainer".
Definition defaultDetectInterval : Z := 5.
Definition maxKafkaMsgSize : Z := Z.shiftl 1 30.
Definition defaultKafkaVersion : string := "0.8.2.0".
Definition defaultKafkaAddrs : string := "127.0.0.1:9092".

(** The value of [strconv.Atoi], whose error is ignored: zero, or the nearest integer when it
    is out of range. *)
Definition Atoi_value (s : string) : Z :=
  let '(neg, t) := match s with
    | String c t => if Ascii.eqb c "-" then (true, t) else if Ascii.eqb c "+" then (false, t) else (false, s)
    | EmptyString => (false, s)
    end in
  if bool_decide (t = ""%string) then 0
  else match parse_dec_acc 0 t with
  | None => 0
  | Some n => if neg : bool then Z.max (- 2 ^ 63) (- n) else Z.min (2 ^ 63 - 1) n
  end.

Definition empty_checkpoint : CheckpointConfig := mkCheckpointConfig "" "" "" "" "" "" 0.
(** [new(dsync.DBConfig)]. *)
Definition empty_DBConfig : DBConfig := mkDBConfig "" "" "" "" 0 empty_checkpoint "" 0 "" "" "" "" 0 0.

Definition adjust_kafka (to : DBConfig) : outcome DBConfig :=
  let size := if to_KafkaMaxMessageSize to <=? 0 then maxKafkaMsgSize else to_KafkaMaxMessageSize to in
  let! addrs := if bool_decide (to_ZKAddrs to = ""%string) then Ret (to_KafkaAddrs to) else KafkaUrls (to_ZKAddrs to) in
  let version := AdjustString (to_KafkaVersion to) defaultKafkaVersion in
  let addrs := AdjustString addrs (AdjustString (Getenv "KAFKA_ADDRS") defaultKafkaAddrs) in
  let messages := if to_KafkaMaxMessages to <=? 0 then 1024 else to_KafkaMaxMessages to in
  Ret (mkDBConfig (to_Host to) (to_User to) (to_Password to) (to_EncryptedPassword to) (to_Port to) (to_Checkpoint to) (to_BinlogFileDir to)
         (to_ReadTimeout to) (to_ReadTimeoutStr to) (to_ZKAddrs to) addrs version messages size).

Definition adjust_file (dataDir : string) (to : DBConfig) : DBConfig :=
  mkDBConfig (to_Host to) (to_User to) (to_Password to) (to_EncryptedPassword to) (to_Port to) (to_Checkpoint to)
    (AdjustString (to_BinlogFileDir to) dataDir)
    (to_ReadTimeout to) (to_ReadTimeoutStr to) (to_ZKAddrs to) (to_KafkaAddrs to) (to_KafkaVersion to) (to_KafkaMaxMessages to) (to_KafkaMaxMessageSize to).

Definition adjust_mysql (to : DBConfig) : outcome DBConfig :=
  let host := AdjustString (to_Host to) (AdjustString (Getenv "MYSQL_HOST") "localhost") in
  let port := AdjustInt (to_Port to) (AdjustInt (Atoi_value (Getenv "MYSQL_PORT")) 3306) in
  let user := AdjustString (to_User to) (AdjustString (Getenv "MYSQL_USER") "root") in
  let! password :=
    if negb (bool_decide (to_EncryptedPassword to = ""%string)) then Decrypt (to_EncryptedPassword to)
    else Ret (AdjustString (to_Password to) (Getenv "MYSQL_PSWD")) in
  let! timeout :=
    if bool_decide (to_ReadTimeoutStr to = ""%string) then Ret Minute
    else ParseDuration time_ParseDuration (to_ReadTimeoutStr to) in
  Ret (mkDBConfig host user password (to_EncryptedPassword to) port (to_Checkpoint to) (to_BinlogFileDir to)
         timeout (to_ReadTimeoutStr to) (to_ZKAddrs to) (to_KafkaAddrs to) (to_KafkaVersion to) (to_KafkaMaxMessages to) (to_KafkaMaxMessageSize to)).

(** The password of the checkpoint. *)
Definition adjust_checkpoint (to : DBConfig) : outcome DBConfig :=
  let c := to_Checkpoint to in
  if bool_decide (cc_EncryptedPassword c = ""%string) then Ret to
  else
    let! decrypt := Decrypt (to_EncryptedPassword to) in
    Ret (mkDBConfig (to_Host to) (to_User to) (to_Password to) (to_EncryptedPassword to) (to_Port to)
           (mkCheckpointConfig (cc_Type c) (cc_Schema c) (cc_Host c) (cc_User c) decrypt (cc_EncryptedPassword c) (cc_Port c))
           (to_BinlogFileDir to) (to_ReadTimeout to) (to_ReadTimeoutStr to) (to_ZKAddrs to) (to_KafkaAddrs to) (to_KafkaVersion to)
           (to_KafkaMaxMessages to) (to_KafkaMaxMessageSize to)).

Definition adjustWorkCount (dest : string) (c : SyncerConfig) : Z :=
  if bool_decide (dest = "file"%string \/ dest = "kafka"%string) then 1
  else if negb (EnableDispatch c) then 1 else sc_WorkerCount c.

Definition lower_rule (r : TableRule) : TableRule := mkRule (ToLower (rule_Schema r)) (ToLower (rule_Table r)).

Definition scheme (tls : bool) : string := if tls then "https://" else "http://".

Definition adjustConfig (cfg : Config) : outcome Config :=
  let listen := AdjustString (c_ListenAddr cfg) (DefaultListenAddr 8249) in
  let advertise := AdjustString (c_AdvertiseAddr cfg) listen in
  let dataDir := AdjustString (c_DataDir cfg) defaultDataDir in
  let sc := c_SyncerCfg cfg in
  let to := default empty_DBConfig (sc_To sc) in
  let dest := if bool_decide (sc_DestDBType sc = "pb"%string) then "file"%string else sc_DestDBType sc in
  let! to :=
    if bool_decide (dest = "kafka"%string) then adjust_kafka to
    else if bool_decide (dest = "file"%string) then Ret (adjust_file dataDir to)
    else if bool_decide (dest = "mysql"%string \/ dest = "tidb"%string) then adjust_mysql to
    else Ret to in
  let! to := adjust_checkpoint to in
  Ret (mkConfig (scheme (c_tls cfg) +:+ listen) (scheme (c_tls cfg) +:+ advertise) dataDir (AdjustInt (c_DetectInterval cfg) defaultDetectInterval)
         (c_EtcdURLs cfg) (c_InitialCommitTS cfg)
         (mkSyncerConfig (sc_IgnoreSchemas sc) (sc_IgnoreTables sc) (adjustWorkCount dest sc) (Some to)
            (lower_rule <$> sc_DoTables sc) (ToLower <$> sc_DoDBs sc) dest (sc_RelayLogDir sc)
            (sc_DisableDispatchFlag sc) (sc_EnableDispatchFlag sc) (sc_DisableDispatchFile sc) (sc_EnableDispatchFile sc)
            (sc_DisableCausalityFlag sc) (sc_EnableCausalityFlag sc) (sc_DisableCausalityFile sc) (sc_EnableCausalityFile sc))
         (c_Compressor cfg) (c_tls cfg)).
End Adjust.

(** ** Validation *)

Definition ErrEmptyName (what : string) : error := Err ("empty name in `" +:+ what +:+ "` config").

Fixpoint nonempty_names (what : string) (names : list string) : outcome unit :=
  match names with
  | [] => Ret tt
  | name :: names => if bool_decide (name = ""%string) then Fail (ErrEmptyName what) else nonempty_names what names
  end.

Fixpoint nonempty_rules (what : string) (rules : list TableRule) : outcome unit :=
  match rules with
  | [] => Ret tt
  | r :: rules =>
    if bool_decide (rule_Schema r = ""%string) then Fail (ErrEmptyName what)
    else if bool_decide (rule_Table r = ""%string) then Fail (ErrEmptyName what)
    else nonempty_rules what rules
  end.

Definition validateFilter (cfg : Config) : outcome unit :=
  let sc := c_SyncerCfg cfg in
  let! _ := nonempty_names "replicate-do-db" (sc_DoDBs sc) in
  let! _ := nonempty_names "ignore-schemas" (split_on "," (sc_IgnoreSchemas sc)) in
  let! _ := nonempty_rules "replicate-do-table" (sc_DoTables sc) in
  nonempty_rules "ignore-table" (sc_IgnoreTables sc).

Definition supportedCompressors : list string := ["gzip"].

Section Validate.
(** [validateAddr] and [flags.NewURLsValue], which parse URLs. *)
Context (validateAddr : string -> outcome unit) (NewURLsValue : string -> outcome unit).

Definition config_validate (cfg : Config) : outcome unit :=
  let! _ := validateAddr (c_ListenAddr cfg) in
  let! _ := validateAddr (c_AdvertiseAddr cfg) in
  let! _ := NewURLsValue (c_EtcdURLs cfg) in
  if negb (bool_decide (c_Compressor cfg = ""%string)) && negb (bool_decide (c_Compressor cfg ∈ supportedCompressors))
  then Fail (Err "Invalid compressor")
  else validateFilter cfg.
End Validate.

(** The check of the retention time in the [validate] of a pump. *)
Definition validate_gc (time_ParseDuration : string -> outcome Z) (gc : string) : outcome unit :=
  match ParseDuration time_ParseDuration gc with
  | Ret duration => if duration <=? 0 then Fail (Err "GC must bigger than 0") else Ret tt
  | _ => Fail (Err "parse GC time failed")
  end.

(** ** The checkpoint *)

Record checkpoint_DB := mkCpDB { cp_Host : string; cp_User : string; cp_Password : string; cp_Port : Z }.
Record checkpoint_Config := mkCpConfig {
  cp_CheckpointType : string; cp_Db : option checkpoint_DB; cp_Schema : string; cp_ClusterID : Z; cp_InitialCommitTS : Z; cp_CheckPointFile : string;
}.

(** [GenCheckPointCfg]; [cfg.SyncerCfg.To] is not nil after the adjustment. *)
Definition GenCheckPointCfg (cfg : Config) (id : Z) : outcome checkpoint_Config :=
  match sc_To (c_SyncerCfg cfg) with
  | None => Panic
  | Some to =>
    let c := to_Checkpoint to in
    let dest := sc_DestDBType (c_SyncerCfg cfg) in
    let mk tp db := Ret (mkCpConfig tp db (cc_Schema c) id (c_InitialCommitTS cfg) (Join [c_DataDir cfg; "savepoint"])) in
    if bool_decide (cc_Type c = "mysql"%string \/ cc_Type c = "tidb"%string) then
      mk (cc_Type c) (Some (mkCpDB (cc_Host c) (cc_User c) (cc_Password c) (cc_Port c)))
    else if bool_decide (cc_Type c = ""%string) then
      if bool_decide (dest = "mysql"%string \/ dest = "tidb"%string) then
        mk dest (Some (mkCpDB (to_Host to) (to_User to) (to_Password to) (to_Port to)))
      else if bool_decide (dest = "pb"%string \/ dest = "file"%string \/ dest = "kafka"%string) then mk "file"%string None
      else if bool_decide (dest = "flash"%string) then Fail (Err "the flash DestDBType is no longer supported")
      else Fail (Err "unknown DestDBType")
    else Fail (Err "unknown checkpoint type")
  end.

(** ** Event filters *)

Record BinlogEventRule := mkEventRule { er_Schema : string; er_Table : string; er_Events : list string; er_SQLPattern : list string }.

(** [TaskBinLogFilterRule] and [TaskTableMigrateRule]. *)
Record FilterTemplate := mkTemplate { ft_IgnoreEvent : option (list string); ft_IgnoreSQL : option (list string) }.
Record MigrateRule := mkMigrate { mr_Schema : string; mr_Table : string; mr_Filters : option (list string); mr_Target : option (string * string) }.

(** The rules of the event filter, from the templates that the migration rules name. *)
Fixpoint named_rules (templates : gmap string FilterTemplate) (schema table : string) (names : list string) : outcome (list BinlogEventRule) :=
  match names with
  | [] => Ret []
  | name :: names =>
    match templates !! name with
    | None => Fail (Err ("event filter rule name " +:+ name +:+ " not found."))
    | Some t =>
      let! rules := named_rules templates schema table names in
      Ret (mkEventRule schema table (default [] (ft_IgnoreEvent t)) (default [] (ft_IgnoreSQL t)) :: rules)
    end
  end.

Fixpoint filter_rules (templates : gmap string FilterTemplate) (rules : list MigrateRule) : outcome (list BinlogEventRule) :=
  match rules with
  | [] => Ret []
  | r :: rules =>
    let! here := named_rules templates (mr_Schema r) (mr_Table r) (default [] (mr_Filters r)) in
    let! rest := filter_rules templates rules in
    Ret (here ++ rest)
  end.

Definition route_rules (rules : list MigrateRule) : list (string * string * (string * string)) :=
  omap (fun r => (fun target => (mr_Schema r, mr_Table r, target)) <$> mr_Target r) rules.

(** [combineFilterRules]: one rule for a pair of patterns, in the order of a map. *)
Definition combine_one (m : gmap (string * string) BinlogEventRule) (rule : BinlogEventRule) : gmap (string * string) BinlogEventRule :=
  let key := (er_Schema rule, er_Table rule) in
  match m !! key with
  | None => <[key := rule]> m
  | Some e => <[key := mkEventRule (er_Schema e) (er_Table e) (er_Events e ++ er_Events rule) (er_SQLPattern e ++ er_SQLPattern rule)]> m
  end.

Definition combine_map (rules : list BinlogEventRule) : gmap (string * string) BinlogEventRule := foldl combine_one ∅ rules.

Definition combineFilterRules (rules : list BinlogEventRule) : list BinlogEventRule := (map_to_list (combine_map rules)).*2.

(** [genRouterAndBinlogEvent]: the rules for the router, which only an Oracle downstream
    has, and for the event filter. *)
Definition genRouterAndBinlogEvent (dest : string) (templates : gmap string FilterTemplate) (rules : list MigrateRule)
    : outcome (list (string * string * (string * string)) * list BinlogEventRule) :=
  let! filterRules := filter_rules templates rules in
  Ret (if bool_decide (dest = "oracle"%string) then route_rules rules else [], combineFilterRules filterRules).

(** ** Theorems *)

(** *** Durations *)

Lemma parse_uint_dec n : 0 <= n < 2 ^ 64 -> parse_uint 64 (dec n) = Ret n.
Proof.
  intros Hn. unfold parse_uint. rewrite bool_decide_eq_false_2 by apply dec_nonempty. rewrite parse_dec by done.
  destruct (Z.ltb_spec n (2 ^ 64)); [done|lia].
Qed.

(** A number of days is that many days as long as it fits into 64 bits of nanoseconds,
    which it does up to 106751 days, about 292 years. *)
Theorem ParseDuration_days pd n : 0 <= n <= 106751 -> ParseDuration pd (dec n) = Ret (n * 24 * Hour).
Proof.
  intros Hn. unfold ParseDuration. rewrite parse_uint_dec by lia. unfold Hour.
  rewrite (wrap_i64_id n), (wrap_i64_id (n * 24)), wrap_i64_id by (unfold in_i64; lia). done.
Qed.

(** Beyond that it wraps around: a retention time of 213504 days is accepted by the
    validation of a pump and becomes less than half an hour, after which binlogs are
    collected. *)
Theorem gc_overflow pd : validate_gc pd "213504" = Ret tt /\ exists d, ParseDuration pd "213504" = Ret d /\ 0 < d < 30 * Minute.
Proof. split; [reflexivity|]. eexists. split; [vm_compute; reflexivity|]. vm_compute. done. Qed.

(** *** Event filters *)

Definition same_key (s t : string) (r : BinlogEventRule) : Prop := er_Schema r = s /\ er_Table r = t.
#[local] Instance same_key_dec s t r : Decision (same_key s t r) := _.

(** The rule for a pair of patterns, from the rules that have it. *)
Definition merged (s t : string) (rules : list BinlogEventRule) : option BinlogEventRule :=
  match filter (same_key s t) rules with
  | [] => None
  | rs => Some (mkEventRule s t (concat (er_Events <$> rs)) (concat (er_SQLPattern <$> rs)))
  end.

Lemma combine_map_merged rules s t : combine_map rules !! (s, t) = merged s t rules.
Proof.
  unfold combine_map, merged. induction rules as [|r rules IH] using rev_ind; [done|]. rewrite foldl_app, filter_app. cbn [foldl].
  set (m := foldl combine_one ∅ rules) in *. rewrite filter_cons, filter_nil. unfold combine_one.
  destruct (decide (same_key s t r)) as [[Hs Ht]|Hne].
  - rewrite Hs, Ht, IH. destruct (filter (same_key s t) rules) as [|r0 rs] eqn:E.
    + rewrite lookup_insert_eq. destruct r as [s' t' ev sq]. cbn in *. subst. by rewrite !app_nil_r.
    + rewrite lookup_insert_eq. cbn [app]. rewrite !app_comm_cons, !fmap_app, !concat_app. cbn. by rewrite !app_nil_r.
  - rewrite app_nil_r. assert (Hk : (er_Schema r, er_Table r) <> (s, t)) by (intros [= H1 H2]; by destruct Hne).
    destruct (m !! (er_Schema r, er_Table r)); rewrite lookup_insert_ne; done.
Qed.

Lemma combined_in rules r : r ∈ combineFilterRules rules <-> exists s t, combine_map rules !! (s, t) = Some r.
Proof.
  unfold combineFilterRules. rewrite list_elem_of_fmap. split.
  - intros ([[s t] r'] & -> & Hin). apply elem_of_map_to_list in Hin. by exists s, t.
  - intros (s & t & H). exists ((s, t), r). split; [done|]. by apply elem_of_map_to_list.
Qed.

Lemma elem_of_concat_fmap {A B} (f : A -> list B) l x : x ∈ concat (f <$> l) <-> exists a, a ∈ l /\ x ∈ f a.
Proof.
  rewrite list_elem_of_In, in_concat. split.
  - intros (y & Hy & Hx). apply list_elem_of_In, list_elem_of_fmap in Hy as (a & -> & Ha). exists a. split; [done|]. by apply list_elem_of_In.
  - intros (a & Ha & Hx). exists (f a). split; [apply list_elem_of_In, list_elem_of_fmap; by exists a|by apply list_elem_of_In].
Qed.

Lemma merged_Some s t rules r : merged s t rules = Some r -> er_Schema r = s /\ er_Table r = t /\
  er_Events r = concat (er_Events <$> filter (same_key s t) rules) /\ er_SQLPattern r = concat (er_SQLPattern <$> filter (same_key s t) rules).
Proof. unfold merged. destruct (filter _ rules); [done|]. by intros [= <-]. Qed.

(** Combining filter rules changes no decision: there is one combined rule for a pair of
    schema and table patterns, exactly where there was one before, and it ignores an event or
    a statement pattern exactly if one of the rules with the same patterns did. *)
Theorem combineFilterRules_spec rules :
  (forall r1 r2, r1 ∈ combineFilterRules rules -> r2 ∈ combineFilterRules rules ->
     er_Schema r1 = er_Schema r2 -> er_Table r1 = er_Table r2 -> r1 = r2) /\
  (forall s t, (exists r, r ∈ combineFilterRules rules /\ same_key s t r) <-> (exists r, r ∈ rules /\ same_key s t r)) /\
  (forall s t e, (exists r, r ∈ combineFilterRules rules /\ same_key s t r /\ e ∈ er_Events r) <->
     (exists r, r ∈ rules /\ same_key s t r /\ e ∈ er_Events r)) /\
  (forall s t q, (exists r, r ∈ combineFilterRules rules /\ same_key s t r /\ q ∈ er_SQLPattern r) <->
     (exists r, r ∈ rules /\ same_key s t r /\ q ∈ er_SQLPattern r)).
Proof.
  assert (Hrule : forall r, r ∈ combineFilterRules rules <-> merged (er_Schema r) (er_Table r) rules = Some r).
  { intros r. rewrite combined_in. split.
    - intros (s & t & H). rewrite combine_map_merged in H. by destruct (merged_Some _ _ _ _ H) as (-> & -> & _).
    - intros H. exists (er_Schema r), (er_Table r). by rewrite combine_map_merged. }
  assert (Hhas : forall s t r, r ∈ rules -> same_key s t r -> exists r', merged s t rules = Some r').
  { intros s t r Hin Hk. unfold merged. destruct (filter _ rules) eqn:E; [|by eexists].
    assert (Hf : r ∈ filter (same_key s t) rules) by by apply list_elem_of_filter. rewrite E in Hf. by apply elem_of_nil in Hf. }
  assert (Hpart : forall (f : BinlogEventRule -> list string) s t x,
    (forall r, merged s t rules = Some r -> f r = concat (f <$> filter (same_key s t) rules)) ->
    (exists r, r ∈ combineFilterRules rules /\ same_key s t r /\ x ∈ f r) <-> (exists r, r ∈ rules /\ same_key s t r /\ x ∈ f r)).
  { intros f s t x Hf. split.
    - intros (r & Hr & [<- <-] & Hx). apply Hrule in Hr. rewrite (Hf r Hr) in Hx. apply elem_of_concat_fmap in Hx as (a & Ha & Hx).
      apply list_elem_of_filter in Ha as [Hk Ha]. by exists a.
    - intros (r & Hin & Hk & Hx). destruct (Hhas s t r Hin Hk) as [r' Hr']. exists r'.
      pose proof (merged_Some _ _ _ _ Hr') as (Hs & Ht & _). split_and!; [apply Hrule; by rewrite Hs, Ht|by split|].
      rewrite (Hf r' Hr'). apply elem_of_concat_fmap. exists r. split; [by apply list_elem_of_filter|done]. }
  split_and!.
  - intros r1 r2 H1%Hrule H2%Hrule Hs Ht. rewrite Hs, Ht in H1. congruence.
  - intros s t. split.
    + intros (r & Hr & [<- <-]). apply Hrule in Hr. unfold merged in Hr. destruct (filter _ rules) as [|a l] eqn:E; [done|].
      assert (Ha : a ∈ filter (same_key (er_Schema r) (er_Table r)) rules) by (rewrite E; by left).
      apply list_elem_of_filter in Ha as [Hk Ha]. by exists a.
    + intros (r & Hin & Hk). destruct (Hhas s t r Hin Hk) as [r' Hr']. exists r'. pose proof (merged_Some _ _ _ _ Hr') as (Hs & Ht & _).
      split; [apply Hrule; by rewrite Hs, Ht|by split].
  - intros s t e. apply Hpart. intros r Hr. by apply merged_Some in Hr as (_ & _ & ? & _).
  - intros s t q. apply Hpart. intros r Hr. by apply merged_Some in Hr as (_ & _ & _ & ?).
Qed.

(** *** The checkpoint *)

(** Decisions on closed strings. *)
Ltac eval_decides :=
  repeat match goal with
  | |- context [bool_decide ?P] => let b := eval vm_compute in (bool_decide P) in
      match b with true => idtac | false => idtac end; change (bool_decide P) with b
  | H : context [bool_decide ?P] |- _ => let b := eval vm_compute in (bool_decide P) in
      match b with true => idtac | false => idtac end; change (bool_decide P) with b in H
  end; cbv iota in *.

Section AdjustProofs.
Context (Getenv : string -> string) (Decrypt : string -> outcome string) (KafkaUrls : string -> outcome string)
  (time_ParseDuration : string -> outcome Z) (ToLower : string -> string) (DefaultListenAddr : Z -> string).

Abbreviation adjust := (adjustConfig Getenv Decrypt KafkaUrls time_ParseDuration ToLower DefaultListenAddr).

Lemma AdjustString_ne v d : d <> ""%string -> AdjustString v d <> ""%string.
Proof. intros H. unfold AdjustString. by case_bool_decide. Qed.

Lemma AdjustInt_ne v d : d <> 0 -> AdjustInt v d <> 0.
Proof. intros H. unfold AdjustInt. by destruct (Z.eqb_spec v 0). Qed.

Definition destination (cfg : Config) : string :=
  if bool_decide (sc_DestDBType (c_SyncerCfg cfg) = "pb"%string) then "file"%string else sc_DestDBType (c_SyncerCfg cfg).

Definition to_of (cfg : Config) : DBConfig := default empty_DBConfig (sc_To (c_SyncerCfg cfg)).

Lemma adjust_checkpoint_keeps to to' : adjust_checkpoint Decrypt to = Ret to' ->
  to_Host to' = to_Host to /\ to_User to' = to_User to /\ to_Port to' = to_Port to /\ to_Password to' = to_Password to /\
  cc_Type (to_Checkpoint to') = cc_Type (to_Checkpoint to).
Proof.
  unfold adjust_checkpoint. case_bool_decide; [by intros [= <-]|]. intros H1. by apply obind_Ret_inv in H1 as (p & _ & [= <-]).
Qed.

Lemma adjust_mysql_connects to to' : adjust_mysql Getenv Decrypt time_ParseDuration to = Ret to' ->
  to_Host to' <> ""%string /\ to_User to' <> ""%string /\ to_Port to' <> 0 /\ to_Checkpoint to' = to_Checkpoint to /\
  (to_EncryptedPassword to <> ""%string -> Decrypt (to_EncryptedPassword to) = Ret (to_Password to')).
Proof.
  unfold adjust_mysql. intros H. apply obind_Ret_inv in H as (pw & Hpw & H). apply obind_Ret_inv in H as (tm & _ & [= <-]). cbn.
  split_and!; [by do 2 apply AdjustString_ne|by do 2 apply AdjustString_ne|by do 2 apply AdjustInt_ne|done|].
  intros He. by rewrite bool_decide_eq_false_2 in Hpw.
Qed.

(** A configuration that was adjusted has a checkpoint for every kind of downstream that
    drainer supports: in the downstream database, with a host, a user, a port and the
    decrypted password if it is encrypted, or else in a file of the data directory; and
    where the order of the output is that of the input there is one worker. *)
Theorem checkpoint_configured cfg cfg' id :
  adjust cfg = Ret cfg' -> cc_Type (to_Checkpoint (to_of cfg)) = ""%string ->
  destination cfg ∈ ["mysql"; "tidb"; "file"; "kafka"]%string ->
  exists cp, GenCheckPointCfg cfg' id = Ret cp /\ cp_ClusterID cp = id /\
    (if bool_decide (destination cfg ∈ ["mysql"; "tidb"]%string)
     then cp_CheckpointType cp = destination cfg /\ exists db, cp_Db cp = Some db /\ cp_Host db <> ""%string /\ cp_User db <> ""%string /\ cp_Port db <> 0 /\
       (to_EncryptedPassword (to_of cfg) <> ""%string -> Decrypt (to_EncryptedPassword (to_of cfg)) = Ret (cp_Password db))
     else cp_CheckpointType cp = "file"%string /\ cp_Db cp = None /\ c_DataDir cfg' <> ""%string /\
       cp_CheckPointFile cp = Join [c_DataDir cfg'; "savepoint"%string] /\ sc_WorkerCount (c_SyncerCfg cfg') = 1).
Proof.
  intros H Htp Hd. unfold adjustConfig in H. fold (destination cfg) (to_of cfg) in H.
  apply obind_Ret_inv in H as (to1 & Hto1 & H). apply obind_Ret_inv in H as (to2 & Hto2 & [= <-]).
  destruct (adjust_checkpoint_keeps _ _ Hto2) as (Hh & Hu & Hp & Hw & Ht). unfold GenCheckPointCfg. cbn [sc_To c_SyncerCfg sc_DestDBType c_DataDir sc_WorkerCount].
  assert (Ht1 : cc_Type (to_Checkpoint to1) = ""%string).
  { rewrite <- Htp. clear -Hto1. destruct (bool_decide (destination cfg = "kafka"%string)).
    { unfold adjust_kafka in Hto1. by apply obind_Ret_inv in Hto1 as (? & _ & [= <-]). }
    destruct (bool_decide (destination cfg = "file"%string)); [by injection Hto1 as <-|].
    destruct (bool_decide (_ \/ _)); [by apply adjust_mysql_connects in Hto1 as (_ & _ & _ & -> & _)|by injection Hto1 as <-]. }
  rewrite Ht, Ht1. repeat (apply elem_of_cons in Hd as [Hd|Hd]); [..|by apply elem_of_nil in Hd]; rewrite Hd in *; eval_decides.
  - apply adjust_mysql_connects in Hto1 as (H1 & H2 & H3 & _ & H5). eexists. split; [reflexivity|]. cbn. split_and!; try done. eexists. split; [reflexivity|]. cbn.
    rewrite Hh, Hu, Hp, Hw. done.
  - apply adjust_mysql_connects in Hto1 as (H1 & H2 & H3 & _ & H5). eexists. split; [reflexivity|]. cbn. split_and!; try done. eexists. split; [reflexivity|]. cbn.
    rewrite Hh, Hu, Hp, Hw. done.
  - eexists. split; [reflexivity|]. cbn. split_and!; try done. by apply AdjustString_ne.
  - eexists. split; [reflexivity|]. cbn. split_and!; try done. by apply AdjustString_ne.
Qed.

(** The encrypted password of the checkpoint is not decrypted: where it is set, the
    password of the checkpoint becomes the decrypted password of the downstream, so no
    adjusted configuration depends on it. *)
Theorem checkpoint_password_ignored to enc to1 to2 :
  cc_EncryptedPassword (to_Checkpoint to) <> ""%string -> enc <> ""%string ->
  let c := to_Checkpoint to in
  let other := mkDBConfig (to_Host to) (to_User to) (to_Password to) (to_EncryptedPassword to) (to_Port to)
    (mkCheckpointConfig (cc_Type c) (cc_Schema c) (cc_Host c) (cc_User c) (cc_Password c) enc (cc_Port c))
    (to_BinlogFileDir to) (to_ReadTimeout to) (to_ReadTimeoutStr to) (to_ZKAddrs to) (to_KafkaAddrs to) (to_KafkaVersion to)
    (to_KafkaMaxMessages to) (to_KafkaMaxMessageSize to) in
  adjust_checkpoint Decrypt to = Ret to1 -> adjust_checkpoint Decrypt other = Ret to2 ->
  cc_Password (to_Checkpoint to1) = cc_Password (to_Checkpoint to2) /\ Decrypt (to_EncryptedPassword to) = Ret (cc_Password (to_Checkpoint to1)).
Proof.
  intros H1 H2 c other Ha Hb. unfold adjust_checkpoint in Ha, Hb. rewrite bool_decide_eq_false_2 in Ha, Hb by done.
  apply obind_Ret_inv in Ha as (p & Hp & [= <-]). apply obind_Ret_inv in Hb as (q & Hq & [= <-]). cbn in *. split; [congruence|done].
Qed.
End AdjustProofs.

(** ** Concrete configurations *)
Module ConfigExamples.

Definition no_env (name : string) : string := ""%string.
(** A toy cipher: the text without its first character. *)
Definition decrypt (s : string) : outcome string := match s with String _ s => Ret s | EmptyString => Fail (Err "ciphertext not valid") end.
Definition no_zk (s : string) : outcome string := Fail (Err "no zookeeper").
Definition no_duration (s : string) : outcome Z := Fail (Err "invalid duration").
Definition listen (port : Z) : string := "10.0.0.1:" +:+ dec port.

Definition adjusted := adjustConfig no_env decrypt no_zk no_duration id listen.

Definition syncer_cfg (dest : string) (to : option DBConfig) : SyncerConfig :=
  mkSyncerConfig "INFORMATION_SCHEMA,mysql" [] 16 to [] [] dest "" None None None None None None None None.
Definition cfg (dest : string) (to : option DBConfig) : Config := mkConfig "" "" "" 0 "http://127.0.0.1:2379" (-1) (syncer_cfg dest to) "" false.

(** A downstream with an encrypted password. *)
Definition to_secret (cp_secret : string) : DBConfig :=
  mkDBConfig "db" "" "" "xsecret" 0 (mkCheckpointConfig "" "" "" "" "" cp_secret 0) "" 0 "" "" "" "" 0 0.

Definition mysql_adjusted : Config :=
  mkConfig "http://10.0.0.1:8249" "http://10.0.0.1:8249" "data.drainer" 5 "http://127.0.0.1:2379" (-1)
    (mkSyncerConfig "INFORMATION_SCHEMA,mysql" [] 16
       (Some (mkDBConfig "db" "root" "secret" "xsecret" 3306 empty_checkpoint "" Minute "" "" "" "" 0 0)) [] [] "mysql" "" None None None None None None None None) "" false.

Example adjust_mysql_example : adjusted (cfg "mysql" (Some (to_secret ""))) = Ret mysql_adjusted.
Proof. vm_compute. reflexivity. Qed.

Lemma checkpoint_configured_witness : exists cp, GenCheckPointCfg mysql_adjusted 7 = Ret cp /\ cp_ClusterID cp = 7 /\
  (cp_CheckpointType cp = "mysql"%string /\ exists db, cp_Db cp = Some db /\ cp_Host db <> ""%string /\ cp_User db <> ""%string /\ cp_Port db <> 0 /\
     ("xsecret"%string <> ""%string -> decrypt "xsecret" = Ret (cp_Password db))).
Proof.
  exact (checkpoint_configured no_env decrypt no_zk no_duration id listen (cfg "mysql" (Some (to_secret ""))) mysql_adjusted 7
    adjust_mysql_example eq_refl (list_elem_of_here _ _)).
Defined.

Lemma ParseDuration_days_witness : ParseDuration no_duration (dec 7) = Ret (7 * 24 * Hour).
Proof. apply (ParseDuration_days no_duration 7). lia. Defined.

Lemma checkpoint_password_ignored_witness : exists to1 to2,
  adjust_checkpoint decrypt (to_secret "xother") = Ret to1 /\ adjust_checkpoint decrypt (to_secret "xthird") = Ret to2 /\
  cc_Password (to_Checkpoint to1) = cc_Password (to_Checkpoint to2) /\ decrypt "xsecret" = Ret (cc_Password (to_Checkpoint to1)).
Proof.
  eexists _, _. split; [vm_compute; reflexivity|]. split; [vm_compute; reflexivity|].
  apply (checkpoint_password_ignored decrypt (to_secret "xother") "xthird"); [discriminate|discriminate|vm_compute; reflexivity|vm_compute; reflexivity].
Defined.

(** An empty list of ignored schemas is rejected: splitting it gives one empty name. *)
Example ignore_nothing_rejected : validateFilter (mkConfig "" "" "" 0 "" 0 (mkSyncerConfig "" [] 1 None [] [] "file" "" None None None None None None None None) "" false)
  = Fail (ErrEmptyName "ignore-schemas").
Proof. vm_compute. reflexivity. Qed.

End ConfigExamples.
