(* ===== verification/LoaderRetry.v ===== *)
(** * LoaderRetry
    The loader against a downstream that fails: the transactions of the executor with
    their marks ([pkg/loader/executor.go], [drainer/loopbacksync/loopbacksync.go]), the
    retries of batches, of single DMLs and of DDLs ([pkg/loader/load.go],
    [pkg/loader/executor.go], [pkg/sql/sql.go]).  A transaction that fails has changed
    nothing, or it was committed and only its answer was lost. *)
From Stdlib Require Import Init.Byte SpecFloat.
From stdpp Require Import base option list gmap strings sorting.
From S2P Require Import Prelude Causality LoaderModel LoaderMerge LoaderBatch LoaderExec Retry Syncer.

(** ** The downstream *)

(** The tables by their quoted name, each as a map from primary key to row, and the mark
    table: the value for an id and a channel. *)
Record db := mkDB { rows : string -> table; marks : gmap (Z * Z) Z }.

Definition on_table (name : string) (f : table -> table) (d : db) : db :=
  mkDB (fun name' => if decide (name' = name) then f (rows d name') else rows d name') (marks d).

(** What happens to a transaction: it works; it fails at one of its calls without an
    effect; it is committed but [Commit] reports an error. *)
Inductive tx_fate := FateOk | FateFail (e : error) | FateLost (e : error).

(** The mark table ([drainer/loopbacksync]). *)
Definition InitMarkTableData (rowNum : nat) (channelID : Z) (d : db) : db :=
  mkDB (rows d) (foldl (fun m id => <[(Z.of_nat id, channelID) := 1]> m) (marks d) (seq 0 rowNum)).

Definition CleanMarkTableData (channelID : Z) (d : db) : db :=
  mkDB (rows d) (filter (fun p => p.1.2 <> channelID) (marks d)).

Definition UpdateMark (id channelID : Z) (d : db) : db :=
  mkDB (rows d) (alter (fun v => v + 1) (id, channelID) (marks d)).

(** ** The executor *)
Section Executor.
Context (fmt_float : Z -> spec_float -> string).
Context (order : gmap string DML -> list string).
(** How the transactions of a round that run concurrently are ordered. *)
Context (schedule : list (list DML) -> list (list DML)).
(** What happens to the n-th transaction, and what the downstream says then about a table. *)
Context (fate : nat -> tx_fate) (fetch : nat -> string -> string -> outcome tableInfo).
(** Whether the context is done after n transactions. *)
Context (canceled : nat -> bool).
(** [pkgsql.GetSQLErrCode]: the code of an error of MySQL; and the code of an unknown column. *)
Context (GetSQLErrCode : error -> option Z) (ErrColumnNotExists : Z).
(** The fields of the executor. *)
Context (e_batchSize : nat) (e_workerCount : Z) (e_info : option LoopBackSync) (e_refresh : bool).

Record st := mkSt {
  s_db : db;
  s_index : Z;       (** the package's [index] *)
  s_infos : infos;   (** the loader's table infos *)
  s_clock : nat;     (** the transactions begun so far *)
}.

Definition set_db (d : db) (s : st) : st := mkSt d (s_index s) (s_infos s) (s_clock s).

(** [addIndex]. *)
Definition addIndex (s : st) : st * Z :=
  let index := wrap_i64 (s_index s + 1) in
  (mkSt (s_db s) index (s_infos s) (s_clock s), Z.rem index e_workerCount).

(** [begin]: what the transaction has done when it returns. *)
Definition begin_ (s : st) : st * db :=
  match e_info with
  | Some info =>
    if LoopbackControl info then let '(s, id) := addIndex s in (s, UpdateMark id (lb_ChannelID info) (s_db s))
    else (s, s_db s)
  | None => (s, s_db s)
  end.

(** A transaction with the statements [body]: [begin], the statements with
    [autoRollbackExec], [commit]. *)
Definition run_tx (body : db -> outcome db) (s : st) : st * outcome unit :=
  let f := fate (s_clock s) in
  let s := mkSt (s_db s) (s_index s) (s_infos s) (S (s_clock s)) in
  let '(s, d) := begin_ s in
  match f with
  | FateFail e => (s, Fail e)
  | FateOk => match body d with Ret d => (set_db d s, Ret tt) | Fail e => (s, Fail e) | Panic => (s, Panic) end
  | FateLost e => match body d with Ret d => (set_db d s, Fail e) | Fail e => (s, Fail e) | Panic => (s, Panic) end
  end.

Definition bulkDelete (deletes : list DML) (s : st) : st * outcome unit :=
  match deletes with
  | [] => (s, Ret tt)
  | _ => run_tx (fun d => Ret (foldl (fun d dml => on_table (TableName dml) (put_row (primaryKeyValues dml) None) d) d deletes)) s
  end.

Definition bulkReplace (inserts : list DML) (s : st) : st * outcome unit :=
  match inserts with
  | [] => (s, Ret tt)
  | insert0 :: _ => run_tx (fun d => Ret (on_table (TableName insert0) (replace_rows inserts) d)) s
  end.

(** Run every part, keep the first error. *)
Fixpoint exec_parts (exec : list DML -> st -> st * outcome unit) (parts : list (list DML)) (s : st) : st * outcome unit :=
  match parts with
  | [] => (s, Ret tt)
  | part :: parts =>
    let '(s, r) := exec part s in
    match r with
    | Ret _ => exec_parts exec parts s
    | _ => (fst (exec_parts exec parts s), r)
    end
  end.

Definition splitExecDML (dmls : list DML) (exec : list DML -> st -> st * outcome unit) (s : st) : st * outcome unit :=
  exec_parts exec (schedule (splitDMLs dmls e_batchSize)) s.

(** [execTableBatch]. *)
Definition try_batch (dmls : list DML) (s : st) : st * outcome unit :=
  match dmls with
  | [] => (s, Ret tt)
  | _ =>
    match mergeByPrimaryKey fmt_float order dmls with
    | Ret types =>
      match splitExecDML (types DeleteDMLType) bulkDelete s with
      | (s, Ret _) =>
        match splitExecDML (types InsertDMLType) bulkReplace s with
        | (s, Ret _) => splitExecDML (types UpdateDMLType) bulkReplace s
        | r => r
        end
      | r => r
      end
    | Fail e => (s, Fail e)
    | Panic => (s, Panic)
    end
  end.

Definition ctx_done (s : st) : bool := canceled (s_clock s).

Definition execTableBatchRetry (retryNum : nat) (dmls : list DML) (s : st) : st * outcome unit :=
  RetryContext ctx_done (try_batch dmls) retryNum s.

(** What a statement does to a table with a primary key. In safe mode it replaces or
    deletes; otherwise INSERT refuses a key that exists, and UPDATE changes the row with
    the old key, if there is one, and refuses to give it the key of another one. *)
Definition ErrDupEntry : error := Err "Duplicate entry".

Definition plain_row (dml : DML) (t : table) : outcome table :=
  match DML_Tp dml with
  | InsertDMLType => match t (primaryKeyValues dml) with Some _ => Fail ErrDupEntry | None => Ret (apply_row dml t) end
  | UpdateDMLType =>
    match t (oldPrimaryKeyValues dml) with
    | None => Ret t
    | Some _ =>
      if bool_decide (primaryKeyValues dml <> oldPrimaryKeyValues dml) && bool_decide (t (primaryKeyValues dml) <> None)
      then Fail ErrDupEntry else Ret (apply_row dml t)
    end
  | DeleteDMLType => Ret (apply_row dml t)
  | UnknownDMLType => Panic
  end.

Definition exec_dml (safeMode : bool) (dml : DML) (d : db) : outcome db :=
  if safeMode && negb (bool_decide (DML_Tp dml = UnknownDMLType)) then Ret (on_table (TableName dml) (apply_row dml) d)
  else let! t := plain_row dml (rows d (TableName dml)) in Ret (on_table (TableName dml) (fun _ => t) d).

Fixpoint exec_dmls (safeMode : bool) (dmls : list DML) (d : db) : outcome db :=
  match dmls with
  | [] => Ret d
  | dml :: dmls => let! d := exec_dml safeMode dml d in exec_dmls safeMode dmls d
  end.

(** [singleExec] of the executor. *)
Definition try_single (safeMode : bool) (dmls : list DML) (s : st) : st * outcome unit :=
  run_tx (exec_dmls safeMode dmls) s.

Definition tryRefreshTableErr (e : error) : bool :=
  match GetSQLErrCode e with Some errCode => errCode =? ErrColumnNotExists | None => false end.

Definition set_info (i : tableInfo) (dml : DML) : DML := mkDML (Database dml) (Table dml) (DML_Tp dml) (OldValues dml) (Values dml) i.

(** The loop that refreshes the table infos of the DMLs: one that cannot be refreshed keeps its own. *)
Fixpoint refresh_dmls (name2info : gmap string tableInfo) (dmls : list DML) (s : st) : st * outcome (list DML) :=
  match dmls with
  | [] => (s, Ret [])
  | dml :: dmls =>
    let use (i : tableInfo) (dml : DML) : DML :=
      set_info i (if (length (columns (info dml)) =? length (columns i))%nat then dml else removeOrphanCols i dml) in
    let next (n2i : gmap string tableInfo) (dml : DML) (s : st) :=
      let '(s, r) := refresh_dmls n2i dmls s in (s, let! rest := r in Ret (dml :: rest)) in
    match name2info !! TableName dml with
    | Some i => next name2info (use i dml) s
    | None =>
      match refreshTableInfo (fetch (s_clock s)) (Database dml) (Table dml) (s_infos s) with
      | Ret (Some i, c) => next (<[TableName dml := i]> name2info) (use i dml) (mkSt (s_db s) (s_index s) c (s_clock s))
      | Ret (None, _) => (s, Panic)
      | Fail _ => next name2info dml s
      | Panic => (s, Panic)
      end
    end
  end.

(** An attempt of [singleExecRetry]; the DMLs are changed in place. *)
Definition single_attempt (safeMode : bool) (p : st * list DML) : (st * list DML) * outcome unit :=
  let '(s, dmls) := p in
  let '(s, r) := try_single safeMode dmls s in
  match r with
  | Fail e =>
    if tryRefreshTableErr e && e_refresh then
      match refresh_dmls ∅ dmls s with
      | (s, Ret dmls) => ((s, dmls), Fail e)
      | (s, _) => ((s, dmls), Panic)
      end
    else ((s, dmls), Fail e)
  | r => ((s, dmls), r)
  end.

Fixpoint single_loop (safeMode : bool) (retryNum : nat) (parts : list (list DML)) (s : st) : st * outcome unit :=
  match parts with
  | [] => (s, Ret tt)
  | dmls :: parts =>
    match RetryContext (fun p => ctx_done (fst p)) (single_attempt safeMode) retryNum (s, dmls) with
    | ((s, _), Ret _) => single_loop safeMode retryNum parts s
    | ((s, _), r) => (s, r)
    end
  end.

Definition singleExecRetry (safeMode : bool) (retryNum : nat) (allDMLs : list DML) (s : st) : st * outcome unit :=
  single_loop safeMode retryNum (splitDMLs allDMLs e_batchSize) s.

End Executor.

(** ** Databases up to their marks *)

#[export] Instance db_equiv : Equiv db := fun d d' => forall name k, rows d name k = rows d' name k.

#[export] Instance db_equivalence : Equivalence (≡@{db}).
Proof.
  split; [by intros d name k|by intros d d' H name k|].
  intros d1 d2 d3 H1 H2 name k. by rewrite H1.
Qed.

(** The effect of DMLs upstream, each on its table. *)
Definition apply_db (dmls : list DML) (d : db) : db :=
  foldl (fun d dml => on_table (TableName dml) (apply_row dml) d) d dmls.

Lemma apply_db_app l l' d : apply_db (l ++ l') d = apply_db l' (apply_db l d).
Proof. apply foldl_app. Qed.

Lemma rows_apply_db dmls d name : rows (apply_db dmls d) name = apply_rows (filter (fun dml => TableName dml = name) dmls) (rows d name).
Proof.
  revert d. induction dmls as [|dml dmls IH]; intros d; [done|]. cbn [apply_db foldl]. fold (apply_db dmls (on_table (TableName dml) (apply_row dml) d)).
  rewrite IH, filter_cons. cbn [rows on_table]. destruct (decide (TableName dml = name)) as [<-|Hne]; [by rewrite decide_True|by rewrite decide_False].
Qed.

#[export] Instance apply_db_proper dmls : Proper ((≡) ==> (≡)) (apply_db dmls).
Proof. intros d d' H name k. rewrite !rows_apply_db. apply apply_rows_agree. by right. Qed.

(** Replaying a part of what was executed changes nothing. *)
Lemma apply_db_replay dmls d : apply_db dmls (apply_db dmls d) ≡ apply_db dmls d.
Proof. intros name k. rewrite !rows_apply_db. by apply safe_mode_replay. Qed.

Lemma exec_dmls_safe dmls d : Forall known dmls -> exec_dmls true dmls d = Ret (apply_db dmls d).
Proof.
  intros Hk. revert d. induction Hk as [|dml dmls Hd Hk IH]; intros d; [done|]. cbn [exec_dmls]. unfold exec_dml.
  rewrite bool_decide_eq_false_2 by done. cbn [andb negb obind]. by rewrite IH.
Qed.

(** ** Transactions *)
Section Transactions.
#[local] Set Default Proof Using "Type*".
Context (fate : nat -> tx_fate) (e_workerCount : Z) (e_info : option LoopBackSync).

Abbreviation run := (run_tx fate e_workerCount e_info).

Lemma begin_rows s s' d : begin_ e_workerCount e_info s = (s', d) ->
  s_db s' = s_db s /\ s_clock s' = s_clock s /\ rows d = rows (s_db s).
Proof.
  unfold begin_, addIndex. destruct e_info as [i|]; [|by intros [= <- <-]].
  destruct (LoopbackControl i); by intros [= <- <-].
Qed.

(** A transaction leaves the database as it was, and then fails, or is executed. *)
Lemma run_tx_cases body s s' r : run body s = (s', r) ->
  (s_db s' = s_db s /\ r <> Ret tt) \/ exists d, rows d = rows (s_db s) /\ body d = Ret (s_db s').
Proof.
  unfold run_tx. destruct (begin_ _ _ _) as [s1 d] eqn:Eb. apply begin_rows in Eb as (H1 & _ & H2). cbn [s_db] in *.
  assert (Hex : forall r', match body d with Ret d => (set_db d s1, r') | Fail e => (s1, Fail e) | Panic => (s1, Panic) end = (s', r) ->
    (s_db s' = s_db s /\ r <> Ret tt) \/ exists d, rows d = rows (s_db s) /\ body d = Ret (s_db s')).
  { intros r'. destruct (body d) as [d'|e|] eqn:E; intros [= <- <-]; [right; exists d; by rewrite E|left..]; by rewrite H1. }
  destruct (fate (s_clock s)) as [|e|e]; [apply Hex| |apply Hex].
  intros [= <- <-]. left. by rewrite H1.
Qed.

(** *** Progress *)

(** A computation that fails only if one of its transactions does. *)
Definition tame (exec : st -> st * outcome unit) : Prop := forall s s' r, exec s = (s', r) ->
  (s_clock s <= s_clock s')%nat /\ r <> Panic /\
  (r <> Ret tt -> (s_clock s < s_clock s')%nat /\ ~ (forall i, (s_clock s <= i)%nat -> fate i = FateOk)).

Lemma run_tx_tame body : (forall d, exists d', body d = Ret d') -> tame (run body).
Proof.
  intros Hb s s' r H. unfold run_tx in H. destruct (begin_ _ _ _) as [s1 d] eqn:Eb. apply begin_rows in Eb as (_ & Hc & _). cbn [s_clock] in Hc.
  destruct (Hb d) as [d' Hd]. rewrite Hd in H.
  assert (Hcl : s_clock s' = S (s_clock s)) by (destruct (fate (s_clock s)); by simplify_eq).
  split; [lia|]. destruct (fate (s_clock s)) eqn:Ef; simplify_eq; (split; [done|]); [done|..];
    (intros _; split; [lia|]; intros Hall; rewrite Hall in Ef; [done|lia]).
Qed.

Lemma tame_seq exec exec' : tame exec -> tame exec' ->
  tame (fun s => match exec s with (s1, Ret _) => exec' s1 | r => r end).
Proof.
  intros H1 H2 s s' r H. destruct (exec s) as [s1 r1] eqn:E. destruct (H1 _ _ _ E) as (Hc & Hp & Hf).
  destruct r1 as [[]|e|]; [|simplify_eq; by split_and!..].
  destruct (H2 _ _ _ H) as (Hc' & Hp' & Hf'). split_and!; [lia|done|]. intros Hr. destruct (Hf' Hr) as [Hl Hn].
  split; [lia|]. intros Hall. apply Hn. intros i Hi. apply Hall. lia.
Qed.

Lemma exec_parts_tame exec parts : (forall part, tame (exec part)) -> tame (exec_parts exec parts).
Proof.
  intros He. induction parts as [|part parts IH]; intros s s' r H; cbn [exec_parts] in H.
  { simplify_eq. by split_and!. }
  destruct (exec part s) as [s1 r1] eqn:E. destruct (He _ _ _ _ E) as (Hc & Hp & Hf).
  destruct (exec_parts exec parts s1) as [s2 r2] eqn:E2. destruct (IH _ _ _ E2) as (Hc2 & Hp2 & Hf2).
  destruct r1 as [[]|e|]; cbn in H; simplify_eq; [|split_and!; [lia|done|]; intros _; by (destruct Hf; [done|split; [lia|done]])].
  split_and!; [lia|done|]. intros Hr. destruct (Hf2 Hr) as [Hl Hn]. split; [lia|]. intros Hall. apply Hn. intros i Hi. apply Hall. lia.
Qed.

Lemma bulk_tame part : tame (bulkDelete fate e_workerCount e_info part) /\ tame (bulkReplace fate e_workerCount e_info part).
Proof.
  destruct part as [|dml part]; [split; intros s s' r [= <- <-]; by split_and!|].
  split; apply run_tx_tame; intros d; by eexists.
Qed.

(** When at most [m] of the transactions to come fail, [m + 1] attempts are enough. *)
Lemma retry_tame (canceled : nat -> bool) fn n m : forall err s, tame fn -> (forall i, canceled i = false) -> (m < n)%nat ->
  (forall i, (s_clock s + m <= i)%nat -> fate i = FateOk) -> exists s', retry_loop (ctx_done canceled) fn n err s = (s', Ret tt).
Proof.
  revert m. induction n as [|n IH]; intros m err s Ht Hcan Hm Hok; [lia|]. cbn [retry_loop].
  destruct (fn s) as [s1 r] eqn:E. destruct (Ht _ _ _ E) as (Hc & Hp & Hf). destruct r as [[]|e|]; [by eexists| |done].
  unfold ctx_done at 1. rewrite Hcan. destruct Hf as [Hl Hn]; [done|]. destruct m as [|m].
  { destruct Hn. intros i Hi. apply Hok. lia. }
  apply (IH m); [done|done|lia|]. intros i Hi. apply Hok. lia.
Qed.

End Transactions.

Section ExecutorProofs.
#[local] Set Default Proof Using "Type*".
Context (fmt_float : Z -> spec_float -> string).
Context (order : gmap string DML -> list string) (Horder : forall m : gmap string DML, order m ≡ₚ (map_to_list m).*1).
Context (schedule : list (list DML) -> list (list DML)) (Hschedule : forall l, schedule l ≡ₚ l).
Context (fate : nat -> tx_fate) (fetch : nat -> string -> string -> outcome tableInfo).
Context (canceled : nat -> bool).
Context (GetSQLErrCode : error -> option Z) (ErrColumnNotExists : Z).
Context (e_batchSize : nat) (e_workerCount : Z) (e_info : option LoopBackSync).
Context (Hbatch : (0 < e_batchSize)%nat).

(** *** Single DMLs *)

Abbreviation single := (single_attempt fate fetch GetSQLErrCode ErrColumnNotExists e_workerCount e_info false true).

(** While a part is retried the database has it executed, or not. *)
Definition maybe_done (dmls : list DML) (d0 : db) (p : st * list DML) : Prop :=
  snd p = dmls /\ (s_db (fst p) ≡ d0 \/ s_db (fst p) ≡ apply_db dmls d0).

Lemma single_step dmls d0 p p' r : Forall known dmls -> maybe_done dmls d0 p -> single p = (p', r) ->
  maybe_done dmls d0 p' /\ (r = Ret tt -> s_db (fst p') ≡ apply_db dmls d0).
Proof.
  intros Hk [Hd Hor] H. destruct p as [s ds]. cbn [fst snd] in *. subst ds. unfold single_attempt in H.
  destruct (try_single _ _ _ _ _ _) as [s1 r1] eqn:E.
  assert (Hc : s_db s1 = s_db s /\ r1 <> Ret tt \/ s_db s1 ≡ apply_db dmls d0).
  { apply run_tx_cases in E as [?|(d & Hr & Hb)]; [by left|right]. rewrite exec_dmls_safe in Hb by done. injection Hb as <-.
    assert (Hd : d ≡ s_db s) by (intros name k; by rewrite Hr). rewrite Hd.
    destruct Hor as [->|Hor]; [done|]. rewrite Hor. apply apply_db_replay. }
  assert (Hout : p' = (s1, dmls) /\ r = r1).
  { destruct r1 as [?|e|]; [by simplify_eq| |by simplify_eq]. rewrite andb_false_r in H. by simplify_eq. }
  destruct Hout as [-> ->]. unfold maybe_done. cbn [fst snd]. destruct Hc as [[Hs Hr]|Hs]; [|by split; [split; [done|right]|]].
  rewrite Hs. split; [split; [done|exact Hor]|done].
Qed.

Lemma single_loop_done retryNum parts : forall s s' r, Forall (Forall known) parts -> (retryNum <> 0)%nat ->
  single_loop fate fetch canceled GetSQLErrCode ErrColumnNotExists e_workerCount e_info false true retryNum parts s = (s', r) ->
  (r = Ret tt -> s_db s' ≡ apply_db (concat parts) (s_db s)) /\
  exists n, s_db s' ≡ apply_db (concat (take n parts)) (s_db s).
Proof.
  induction parts as [|part parts IH]; intros s s' r Hk Hn; cbn [single_loop].
  { intros [= <- <-]. split; [done|]. by exists 0%nat. }
  apply Forall_cons_iff in Hk as [Hp Hk].
  destruct (RetryContext _ _ _ _) as [[s1 ds] r1] eqn:E.
  apply (retry_loop_inv _ _ (maybe_done part (s_db s)) (fun r p => r = Ret tt -> s_db (fst p) ≡ apply_db part (s_db s))) in E;
    [|intros p p' r'; by apply single_step|split; [done|by left]|by left].
  destruct E as [[_ Hor] HQ]. cbn [fst] in *. destruct r1 as [[]|e|].
  - intros H. apply IH in H as [H1 [n H2]]; [|done|done]. split.
    + intros ->. rewrite H1, (HQ eq_refl) by done. cbn [concat]. by rewrite apply_db_app.
    + exists (S n). rewrite H2, (HQ eq_refl). cbn [take concat]. by rewrite apply_db_app.
  - intros [= <- <-]. split; [done|]. destruct Hor as [Ho|Ho]; [by exists 0%nat|exists 1%nat]. cbn [take concat]. by rewrite app_nil_r.
  - intros [= <- <-]. split; [done|]. destruct Hor as [Ho|Ho]; [by exists 0%nat|exists 1%nat]. cbn [take concat]. by rewrite app_nil_r.
Qed.

Lemma concat_take_prefix {A} (ls : list (list A)) n : exists m, concat (take n ls) = take m (concat ls).
Proof.
  exists (length (concat (take n ls))). rewrite <- (take_drop n ls) at 3. by rewrite concat_app, take_app_length.
Qed.

(** In safe mode single DMLs are executed exactly once in effect, whatever fails: when
    [singleExecRetry] returns without an error the database is as if every DML had been
    executed once, in order, also if transactions were committed whose answer was lost;
    otherwise it is as after some of the first DMLs. *)
Theorem single_retry_safe retryNum dmls s s' r : Forall known dmls -> (retryNum <> 0)%nat ->
  singleExecRetry fate fetch canceled GetSQLErrCode ErrColumnNotExists e_batchSize e_workerCount e_info false true retryNum dmls s = (s', r) ->
  (r = Ret tt -> s_db s' ≡ apply_db dmls (s_db s)) /\ exists n, s_db s' ≡ apply_db (take n dmls) (s_db s).
Proof.
  intros Hk Hn H. destruct (splitDMLs_batches dmls e_batchSize Hbatch) as (Hc & _).
  apply single_loop_done in H as [H1 [n H2]]; [|by apply Forall_concat; rewrite Hc|done]. rewrite Hc in H1.
  split; [done|]. destruct (concat_take_prefix (splitDMLs dmls e_batchSize) n) as [m Hm]. exists m. by rewrite H2, Hm, Hc.
Qed.

(** *** Batches *)

(** The rows of table [name] that differ have their keys in [ks]; other tables agree. *)
Definition differ_in (name : string) (ks : list (list value)) (d d' : db) : Prop :=
  forall name' k, rows d' name' k = rows d name' k \/ name' = name /\ k ∈ ks.

(** A part of a batch, all of one type and for one table, is written, or fails without an effect. *)
Definition part_ok (name : string) (exec : list DML -> st -> st * outcome unit) (part : list DML) : Prop :=
  forall s s' r, exec part s = (s', r) ->
    (rows (s_db s') = rows (s_db s) /\ r <> Ret tt) \/
    rows (s_db s') name = write_rows part (rows (s_db s) name) /\ forall name', name' <> name -> rows (s_db s') name' = rows (s_db s) name'.

Lemma bulkDelete_ok name part : Forall (fun d => TableName d = name /\ DML_Tp d = DeleteDMLType) part ->
  part_ok name (bulkDelete fate e_workerCount e_info) part.
Proof.
  intros Hf s s' r H. unfold bulkDelete in H. destruct part as [|dml part]; [simplify_eq; by right|].
  apply run_tx_cases in H as [[-> ?]|(d & Hr & [= Hb])]; [by left|right]. rewrite <- Hb, <- Hr. clear Hb Hr r s'.
  change (on_table (TableName dml) (put_row (primaryKeyValues dml) None) d)
    with ((fun d dml => on_table (TableName dml) (put_row (primaryKeyValues dml) None) d) d dml).
  change (write_rows (dml :: part) (rows d name)) with (foldl (fun t dml => put_row (primaryKeyValues dml) (effect dml) t) (rows d name) (dml :: part)).
  match goal with |- context [foldl ?f (?g d dml) part] => change (foldl f (g d dml) part) with (foldl f d (dml :: part)) end.
  revert d. induction Hf as [|x l [Hn Ht] Hf IH]; intros d; [done|]. cbn [foldl].
  destruct (IH (on_table (TableName x) (put_row (primaryKeyValues x) None) d)) as [H1 H2]. rewrite H1. cbn [rows on_table]. rewrite decide_True by done.
  split; [unfold effect; by rewrite Ht|]. intros name' Hne. rewrite H2 by done. cbn [rows on_table]. by rewrite decide_False by congruence.
Qed.

Lemma bulkReplace_ok name tp part : tp <> UnknownDMLType -> tp <> DeleteDMLType ->
  Forall (fun d => TableName d = name /\ DML_Tp d = tp) part -> part_ok name (bulkReplace fate e_workerCount e_info) part.
Proof.
  intros Hu Hd Hf s s' r H. unfold bulkReplace in H. destruct part as [|dml part]; [simplify_eq; by right|].
  apply run_tx_cases in H as [[-> ?]|(d & Hr & [= Hb])]; [by left|right]. rewrite <- Hb, <- Hr. clear Hb Hr r s'.
  assert (Hw : replace_rows (dml :: part) (rows d name) = write_rows (dml :: part) (rows d name)).
  { rewrite <- (write_rows_typed _ tp) by (done || (eapply Forall_impl; [exact Hf|]; by intros x [_ ?])). by rewrite decide_False. }
  apply Forall_cons_iff in Hf as [[<- _] _]. cbn [rows on_table]. rewrite decide_True by done. split; [exact Hw|].
  intros name' Hne. by rewrite decide_False.
Qed.

Lemma write_rows_app l l' t : write_rows (l ++ l') t = write_rows l' (write_rows l t).
Proof. apply foldl_app. Qed.

(** The parts that were written are some of the parts, and all of them after a success. *)
Lemma exec_parts_ok name exec parts : Forall (part_ok name exec) parts -> forall s s' r, exec_parts exec parts s = (s', r) ->
  exists w, w ⊆ concat parts /\ (r = Ret tt -> w = concat parts) /\
    rows (s_db s') name = write_rows w (rows (s_db s) name) /\ forall name', name' <> name -> rows (s_db s') name' = rows (s_db s) name'.
Proof.
  induction 1 as [|part parts Hp Hf IH]; intros s s' r; cbn [exec_parts].
  { intros [= <- <-]. exists []. by split_and!. }
  destruct (exec part s) as [s1 r1] eqn:E. specialize (Hp _ _ _ E).
  assert (Hrest : (exists r2, exec_parts exec parts s1 = (s', r2) /\ (r = Ret tt -> r1 = Ret tt /\ r2 = Ret tt)) ->
    exists w, w ⊆ concat (part :: parts) /\ (r = Ret tt -> w = concat (part :: parts)) /\
    rows (s_db s') name = write_rows w (rows (s_db s) name) /\ forall name', name' <> name -> rows (s_db s') name' = rows (s_db s) name').
  { intros (r2 & H2 & Hr). destruct (IH _ _ _ H2) as (w & Hw & Hall & Hn & Ho). destruct Hp as [[Hp Hne]|[Hp1 Hp2]].
    - exists w. split_and!; [clear -Hw; set_solver| |by rewrite Hn, Hp|intros name' Hne'; by rewrite Ho, Hp].
      intros Hr'. by destruct (Hr Hr') as [? _].
    - exists (part ++ w). split_and!; [clear -Hw; cbn [concat]; set_solver| | |intros name' Hne'; by rewrite Ho, Hp2].
      + intros Hr'. cbn [concat]. f_equal. by apply Hall, Hr.
      + by rewrite write_rows_app, Hn, Hp1. }
  destruct r1 as [[]|e|]; intros H; apply Hrest.
  - exists r. by split.
  - destruct (exec_parts exec parts s1) as [s2 r2]. exists r2. cbn in H. simplify_eq. by split.
  - destruct (exec_parts exec parts s1) as [s2 r2]. exists r2. cbn in H. simplify_eq. by split.
Qed.

#[local] Instance concat_perm {A} : Proper ((≡ₚ) ==> (≡ₚ)) (@concat A).
Proof. intros l l' H. induction H; cbn [concat]; [done|by f_equiv|solve_Permutation|by etrans]. Qed.

(** A round of the batch. *)
Lemma round_ok name tp dmls exec s s' r :
  (forall part, Forall (fun d => TableName d = name /\ DML_Tp d = tp) part -> part_ok name exec part) ->
  Forall (fun d => TableName d = name /\ DML_Tp d = tp) dmls -> splitExecDML schedule e_batchSize dmls exec s = (s', r) ->
  exists w, w ⊆ dmls /\ (r = Ret tt -> w ≡ₚ dmls) /\
    rows (s_db s') name = write_rows w (rows (s_db s) name) /\ forall name', name' <> name -> rows (s_db s') name' = rows (s_db s) name'.
Proof.
  intros Hok Hf H. destruct (splitDMLs_batches dmls e_batchSize Hbatch) as (Hc & _).
  assert (Hp : concat (schedule (splitDMLs dmls e_batchSize)) ≡ₚ dmls) by (by rewrite Hschedule, Hc).
  apply (exec_parts_ok name) in H as (w & Hw & Hall & Hn & Ho).
  - exists w. split_and!; [|intros Hr; by rewrite (Hall Hr)|done|done]. intros x Hx. rewrite <- Hp. by apply Hw.
  - rewrite Hschedule. rewrite <- Hc in Hf. apply Forall_concat in Hf. eapply Forall_impl; [exact Hf|]. cbn beta. intros part. apply Hok.
Qed.

(** What merging keeps of the DMLs, when changing type and values keeps it. *)
Lemma merge_keeps (P : DML -> Prop) dmls types tp :
  (forall tp old vals d, P d -> P (with_type tp old vals d)) -> Forall P dmls ->
  mergeByPrimaryKey fmt_float order dmls = Ret types -> Forall P (types tp).
Proof.
  intros Hw Hf Hm. unfold mergeByPrimaryKey in Hm. destruct dmls as [|dml0 dmls]; [by simplify_eq|]. destruct (primaryKeys dml0) as [|pk pks]; [done|].
  apply obind_Ret_inv in Hm as (dmls' & Hsp & (res & Hloop & [= <-])%obind_Ret_inv).
  assert (Hf' : Forall P dmls').
  { clear Hloop res. revert Hf Hsp. generalize (dml0 :: dmls). intros all Hf. revert dmls'. induction Hf as [|d l Hd Hf IH]; intros dmls'; cbn [split_updates]; [by intros [= <-]|].
    intros (b & _ & (rest & Hr & [= <-])%obind_Ret_inv)%obind_Ret_inv. apply Forall_app. split; [|by apply IH]. destruct b; repeat constructor; auto. }
  assert (Hres : map_Forall (fun _ => P) res).
  { clear Hsp. assert (H0 : map_Forall (fun _ => P) (∅ : gmap string DML)) by apply map_Forall_empty. revert H0 Hloop. generalize (∅ : gmap string DML).
    induction Hf' as [|d l Hd Hf' IH]; intros m Hm; cbn [merge_loop]; [by intros [= <-]|].
    intros (m1 & H1 & Hloop)%obind_Ret_inv. eapply IH; [|exact Hloop]. unfold merge_one in H1.
    destruct (m !! _) as [old|] eqn:E; [|simplify_eq; by apply map_Forall_insert_2].
    pose proof (Hm _ _ E) as Ho. destruct (DML_Tp d); simplify_eq; apply map_Forall_insert_2; auto.
    destruct (DML_Tp old); auto. }
  apply list.Forall_forall. intros m [_ Hin]%list_elem_of_filter. apply list_elem_of_omap in Hin as (key & _ & Hk). by apply Hres in Hk.
Qed.

Lemma split_updates_written dmls dmls' e : Forall known dmls -> split_updates dmls = Ret dmls' -> e ∈ dmls' ->
  primaryKeyValues e ∈ dmls ≫= written_keys.
Proof.
  intros Hk. revert dmls'. induction Hk as [|d dmls Hd Hk IH]; intros dmls'; cbn [split_updates].
  { intros [= <-] He. by apply not_elem_of_nil in He. }
  intros (b & Hb & (rest & Hr & [= <-])%obind_Ret_inv)%obind_Ret_inv He. rewrite bind_cons. apply elem_of_app.
  apply elem_of_app in He as [He|He]; [left|right; by eapply IH]. unfold written_keys. unfold is_update in Hb. destruct b.
  - case_bool_decide as Hu; [|done]. rewrite Hu. rewrite !elem_of_cons, elem_of_nil in He. destruct He as [->|[->|[]]].
    + rewrite old_key_delete by done. by left.
    + right. by left.
  - apply list_elem_of_singleton in He as ->. unfold known in Hd. destruct (DML_Tp d); [done|by left|right; by left|by left].
Qed.

(** The merged DMLs: one for each row they write, of the written rows, with the effect of all. *)
Lemma merge_writes dmls types : Forall known dmls -> Forall exact_keys dmls -> printed_distinct fmt_float dmls ->
  mergeByPrimaryKey fmt_float order dmls = Ret types ->
  let all := types DeleteDMLType ++ types InsertDMLType ++ types UpdateDMLType in
  NoDup (primaryKeyValues <$> all) /\ (forall m, m ∈ all -> primaryKeyValues m ∈ dmls ≫= written_keys) /\
  (forall tp, Forall (fun d => DML_Tp d = tp) (types tp)) /\ forall t k, write_rows all t k = apply_rows dmls t k.
Proof.
  intros Hkn Hex Hpd Hm. unfold mergeByPrimaryKey in Hm. destruct dmls as [|dml0 dmls].
  { simplify_eq. split_and!; [constructor|by intros m Hin%not_elem_of_nil|by constructor|done]. }
  destruct (primaryKeys dml0) as [|pk pks]; [done|]. apply obind_Ret_inv in Hm as (dmls' & Hsp & (res & Hloop & [= <-])%obind_Ret_inv).
  destruct (split_updates_spec _ _ Hkn Hex Hsp) as [Hset Happ].
  assert (Hdist : distinct_keys fmt_float dmls').
  { intros d d' Hd Hd' Hf. destruct (split_updates_keys _ _ d Hsp Hd) as (d0 & Hd0 & Hk0).
    destruct (split_updates_keys _ _ d' Hsp Hd') as (d1 & Hd1 & Hk1). by apply (Hpd d0 d1). }
  pose proof (merge_loop_merged _ dmls' [] ∅ res (merged_start _) Hset Hdist Hloop) as Hmg. simpl in Hmg.
  split_and!; [by eapply types_nodup| | |].
  - intros m Hin. assert (Hl : exists f, res !! f = Some m).
    { rewrite !elem_of_app in Hin. destruct Hin as [Hin|[Hin|Hin]]; apply list_elem_of_filter in Hin as [_ Hin];
        apply list_elem_of_omap in Hin as (f & _ & Hf); by exists f. }
    destruct Hl as [f Hf]. destruct (mg_key _ _ _ Hmg _ _ Hf) as (_ & _ & d & Hd & <-). by eapply split_updates_written.
  - intros tp. apply list.Forall_forall. by intros d [? _]%list_elem_of_filter.
  - intros t k. rewrite <- Happ, (mg_effect _ _ _ Hmg). by eapply batch_override.
Qed.

Lemma write_rows_perm l l' t k : NoDup (primaryKeyValues <$> l) -> l' ≡ₚ l -> write_rows l' t k = write_rows l t k.
Proof.
  intros Hnd Hp. assert (Hnd' : NoDup (primaryKeyValues <$> l')) by (by rewrite Hp).
  destruct (decide (k ∈ primaryKeyValues <$> l)) as [(m & -> & Hm)%list_elem_of_fmap|Hni].
  - rewrite !write_rows_in; [done|done|done|done|by rewrite Hp].
  - rewrite !write_rows_notin; [done|done|by rewrite Hp].
Qed.

Section Batch.
Context (name : string) (dmls : list DML).
Context (Hkn : Forall known dmls) (Hex : Forall exact_keys dmls) (Hpd : printed_distinct fmt_float dmls).
Context (Hname : Forall (fun d => TableName d = name) dmls).

Abbreviation try := (try_batch fmt_float order schedule fate e_batchSize e_workerCount e_info dmls).

(** An attempt writes some of the merged DMLs, and all of them when it succeeds. *)
Lemma try_batch_writes types s s' r : mergeByPrimaryKey fmt_float order dmls = Ret types -> try s = (s', r) ->
  let all := types DeleteDMLType ++ types InsertDMLType ++ types UpdateDMLType in
  exists w, w ⊆ all /\ (r = Ret tt -> w ≡ₚ all) /\
    rows (s_db s') name = write_rows w (rows (s_db s) name) /\ forall name', name' <> name -> rows (s_db s') name' = rows (s_db s) name'.
Proof.
  intros Hm H all. destruct (merge_writes _ _ Hkn Hex Hpd Hm) as (_ & _ & Hty & _).
  assert (Htt : forall tp, Forall (fun d => TableName d = name /\ DML_Tp d = tp) (types tp)).
  { intros tp. apply Forall_and. split; [|apply Hty]. by eapply merge_keeps. }
  unfold try_batch in H. destruct dmls as [|dml0 l]; [injection Hm as <-; simplify_eq; exists []; by split_and!|]. rewrite Hm in H.
  destruct (splitExecDML _ _ (types DeleteDMLType) _ s) as [s1 r1] eqn:E1.
  apply (round_ok name DeleteDMLType) in E1 as (w1 & Hs1 & Ha1 & Hn1 & Ho1); [|intros part; apply bulkDelete_ok|apply Htt].
  destruct r1 as [[]|e|]; [|simplify_eq; exists w1; split_and!; [clear -Hs1; set_solver|done..]..].
  destruct (splitExecDML _ _ (types InsertDMLType) _ s1) as [s2 r2] eqn:E2.
  apply (round_ok name InsertDMLType) in E2 as (w2 & Hs2 & Ha2 & Hn2 & Ho2); [|intros part; by apply bulkReplace_ok|apply Htt].
  assert (H12 : rows (s_db s2) name = write_rows (w1 ++ w2) (rows (s_db s) name) /\ forall name', name' <> name -> rows (s_db s2) name' = rows (s_db s) name').
  { rewrite write_rows_app, Hn2, Hn1. split; [done|]. intros name' Hne. by rewrite Ho2, Ho1. }
  destruct H12 as [Hn12 Ho12].
  destruct r2 as [[]|e|]; [|simplify_eq; exists (w1 ++ w2); split_and!; [clear -Hs1 Hs2; set_solver|done..]..].
  apply (round_ok name UpdateDMLType) in H as (w3 & Hs3 & Ha3 & Hn3 & Ho3); [|intros part; by apply bulkReplace_ok|apply Htt].
  exists (w1 ++ w2 ++ w3). split_and!; [clear -Hs1 Hs2 Hs3; set_solver| | |].
  - intros Hr. unfold all. by rewrite (Ha1 eq_refl), (Ha2 eq_refl), (Ha3 Hr).
  - by rewrite (assoc_L (++)), write_rows_app, Hn3, Hn12.
  - intros name' Hne. by rewrite Ho3, Ho12.
Qed.

Lemma try_batch_step d0 s s' r : differ_in name (dmls ≫= written_keys) d0 (s_db s) -> try s = (s', r) ->
  differ_in name (dmls ≫= written_keys) d0 (s_db s') /\
  (r = Ret tt -> forall k, rows (s_db s') name k = apply_rows dmls (rows d0 name) k).
Proof.
  intros Hd H. destruct (mergeByPrimaryKey fmt_float order dmls) as [types|e|] eqn:Hm.
  - destruct (try_batch_writes _ _ _ _ Hm H) as (w & Hs & Ha & Hn & Ho).
    destruct (merge_writes _ _ Hkn Hex Hpd Hm) as (Hnd & Hwr & _ & Hap). split.
    + intros name' k. destruct (decide (name' = name)) as [->|Hne]; [|rewrite Ho by done; apply Hd].
      destruct (decide (k ∈ dmls ≫= written_keys)) as [|Hk]; [by right|left]. rewrite Hn, write_rows_notin.
      * by destruct (Hd name k) as [?|[_ ?]].
      * intros (m & -> & Hin)%list_elem_of_fmap. by apply Hk, Hwr, Hs.
    + intros Hr k. rewrite Hn, (write_rows_perm _ _ _ _ Hnd (Ha Hr)), Hap. apply apply_rows_agree.
      destruct (Hd name k) as [?|[_ ?]]; auto.
  - assert (Hs : s' = s /\ r <> Ret tt); [|by destruct Hs as [-> ?]].
    unfold try_batch in H. destruct dmls as [|? ?]; [done|]. rewrite Hm in H. by simplify_eq.
  - assert (Hs : s' = s /\ r <> Ret tt); [|by destruct Hs as [-> ?]].
    unfold try_batch in H. destruct dmls as [|? ?]; [done|]. rewrite Hm in H. by simplify_eq.
Qed.

Lemma try_batch_tame types : mergeByPrimaryKey fmt_float order dmls = Ret types -> tame fate try.
Proof.
  intros Hm. unfold try_batch. destruct dmls as [|? ?]; [intros s s' r [= <- <-]; by split_and!|]. rewrite Hm.
  apply tame_seq; [apply exec_parts_tame; intros part; apply bulk_tame|].
  apply tame_seq; apply exec_parts_tame; intros part; apply bulk_tame.
Qed.

(** Retrying a batch. *)
Lemma batch_retry_spec retryNum s s' r : (retryNum <> 0)%nat ->
  execTableBatchRetry fmt_float order schedule fate canceled e_batchSize e_workerCount e_info retryNum dmls s = (s', r) ->
  (r = Ret tt -> forall k, rows (s_db s') name k = apply_rows dmls (rows (s_db s) name) k) /\
  (forall k, k ∉ dmls ≫= written_keys -> rows (s_db s') name k = rows (s_db s) name k) /\
  (forall name' k, name' <> name -> rows (s_db s') name' k = rows (s_db s) name' k) /\
  (forall types m, mergeByPrimaryKey fmt_float order dmls = Ret types -> (forall i, canceled i = false) -> (m < retryNum)%nat ->
     (forall i, (s_clock s + m <= i)%nat -> fate i = FateOk) -> r = Ret tt).
Proof.
  intros Hn H. assert (Hlive := H). apply (retry_loop_inv _ _ (fun s1 => differ_in name (dmls ≫= written_keys) (s_db s) (s_db s1))
    (fun r s1 => r = Ret tt -> forall k, rows (s_db s1) name k = apply_rows dmls (rows (s_db s) name) k)) in H;
    [|intros s1 s2 r'; apply try_batch_step|intros ? ?; by left|by left].
  destruct H as [Hd HQ]. split_and!; [exact HQ| | |].
  - intros k Hk. by destruct (Hd name k) as [?|[_ ?]].
  - intros name' k Hne. by destruct (Hd name' k) as [?|[? _]].
  - intros types m Hm Hcan Hlt Hok. destruct (retry_tame fate canceled try retryNum m (Ret tt) s) as [s1 H1]; [by eapply try_batch_tame|done..|].
    unfold execTableBatchRetry, RetryContext in Hlive. rewrite H1 in Hlive. by simplify_eq.
Qed.

(** Retrying the batch of a table is safe: whatever transactions of whatever attempts
    fail, are lost after their commit, or run in which order, when
    [execTableBatchRetry] returns without an error the table is as after executing the
    DMLs once and one by one, and no other table has changed; otherwise only rows that
    the DMLs write can have changed. It does return without an error when the DMLs can
    be merged and fewer transactions fail than there are attempts. *)
Theorem batch_retry_safe retryNum s s' r : (retryNum <> 0)%nat ->
  execTableBatchRetry fmt_float order schedule fate canceled e_batchSize e_workerCount e_info retryNum dmls s = (s', r) ->
  (r = Ret tt -> forall k, rows (s_db s') name k = apply_rows dmls (rows (s_db s) name) k) /\
  (forall k, k ∉ dmls ≫= written_keys -> rows (s_db s') name k = rows (s_db s) name k) /\
  (forall name' k, name' <> name -> rows (s_db s') name' k = rows (s_db s) name' k) /\
  (forall types m, mergeByPrimaryKey fmt_float order dmls = Ret types -> (forall i, canceled i = false) -> (m < retryNum)%nat ->
     (forall i, (s_clock s + m <= i)%nat -> fate i = FateOk) -> r = Ret tt).
Proof. apply batch_retry_spec. Qed.

End Batch.

End ExecutorProofs.

(** ** Marks *)

Lemma init_marks n ch m id : 0 <= id < Z.of_nat n ->
  is_Some (foldl (fun (m : gmap (Z * Z) Z) id => <[(Z.of_nat id, ch) := 1]> m) m (seq 0 n) !! (id, ch)).
Proof.
  induction n as [|n IH]; intros Hid; [lia|]. rewrite seq_S, foldl_app. cbn [foldl]. apply lookup_insert_is_Some.
  destruct (decide (id = Z.of_nat n)) as [->|Hne]; [by left|right]. split; [intros [= ?]; done|]. apply IH. lia.
Qed.

Section Marks.
#[local] Set Default Proof Using "Type*".
Context {env : SyncerEnv} (Hfold : forall s, equal_fold s s = true).
Context (fate : nat -> tx_fate) (workerCount : nat) (info : LoopBackSync).
Context (Hcontrol : LoopbackControl info = true) (Hworkers : (0 < workerCount)%nat).

(** The rows that [initMarkTable] creates, one per worker. *)
Definition mark_ready (s : st) : Prop :=
  0 <= s_index s /\ forall id, 0 <= id < Z.of_nat workerCount -> is_Some (marks (s_db s) !! (id, lb_ChannelID info)).

(** The change of a mark, as the binlog of the downstream has it. *)
Definition mark_dml (i : tableInfo) (id v : Z) : DML :=
  let row (v : Z) : gmap string value := {[ "id" := VInt64 id; ChannelID := VInt64 (lb_ChannelID info); "val" := VInt64 v ]} in
  mkDML "retl" "_drainer_repl_mark" UpdateDMLType (row v) (row (v + 1)) i.

(** The channels that DMLs of the mark table hold are integers. *)
Definition typed_marks (dmls : list DML) : Prop := forall d v, d ∈ dmls ->
  equal_fold (Database d +:+ "." +:+ Table d) MarkTableName = true -> Values d !! ChannelID = Some v -> exists c, v = VInt64 c.

Lemma find_mark dmls i id v : typed_marks dmls -> mark_dml i id v ∈ dmls -> findLoopBackMark dmls info = Ret true.
Proof.
  induction dmls as [|d dmls IH]; intros Ht Hin; [by apply not_elem_of_nil in Hin|]. cbn [findLoopBackMark].
  apply elem_of_cons in Hin as [<-|Hin].
  - change (Database _ +:+ "." +:+ Table _) with MarkTableName. rewrite Hfold.
    replace (Values (mark_dml i id v) !! ChannelID) with (Some (VInt64 (lb_ChannelID info))) by (symmetry; apply lookup_insert_Some; right; split; [done|apply lookup_insert_eq]).
    by rewrite Z.eqb_refl.
  - assert (IH' : findLoopBackMark dmls info = Ret true) by (apply IH; [intros d' v' Hd'; apply Ht; by right|done]).
    destruct (equal_fold _ _) eqn:E; [|done]. destruct (Values d !! ChannelID) as [w|] eqn:Ew; [|done].
    destruct (Ht d w) as [c ->]; [by left|done|done|]. by destruct (c =? _).
Qed.

Lemma mark_ready_init d index c clock : 0 <= index -> mark_ready (mkSt (InitMarkTableData workerCount (lb_ChannelID info) d) index c clock).
Proof. intros Hi. split; [done|]. intros id Hid. by apply init_marks. Qed.

(** Loop-back control marks every transaction: when the mark table has its rows, a
    transaction of the executor changes nothing or, besides what its statements do,
    exactly one mark of the loader's channel; the binlog with that change is recognized
    by a drainer of the downstream with the same channel, wherever the change is in the
    binlog; and the next transaction finds the mark table ready again. *)
Theorem transactions_marked body s s' r i :
  mark_ready s -> s_index s + 1 < 2 ^ 63 -> (forall d d', body d = Ret d' -> marks d' = marks d) ->
  run_tx fate (Z.of_nat workerCount) (Some info) body s = (s', r) ->
  mark_ready s' /\
  (s_db s' = s_db s \/
   exists id v, marks (s_db s) !! (id, lb_ChannelID info) = Some v /\
     marks (s_db s') = <[(id, lb_ChannelID info) := v + 1]> (marks (s_db s)) /\
     forall dmls, typed_marks dmls -> mark_dml i id v ∈ dmls -> findLoopBackMark dmls info = Ret true).
Proof.
  intros [Hi Hr] Hmax Hbody H. unfold run_tx, begin_, addIndex in H. rewrite Hcontrol in H. cbn [s_index s_db s_infos s_clock] in H.
  rewrite wrap_i64_id in H by (unfold in_i64; lia). set (id := Z.rem _ _) in H.
  assert (Hid : 0 <= id < Z.of_nat workerCount) by (unfold id; rewrite Z.rem_mod_nonneg by lia; apply Z.mod_pos_bound; lia).
  destruct (Hr id Hid) as [v Hv].
  assert (Hm : alter (fun v => v + 1) (id, lb_ChannelID info) (marks (s_db s)) = <[(id, lb_ChannelID info) := v + 1]> (marks (s_db s))).
  { apply map_eq. intros k. destruct (decide (k = (id, lb_ChannelID info))) as [->|Hne].
    - by rewrite lookup_alter_eq, lookup_insert_eq, Hv.
    - by rewrite lookup_alter_ne, lookup_insert_ne. }
  set (s1 := mkSt (s_db s) (s_index s + 1) (s_infos s) (S (s_clock s))) in H.
  set (d := UpdateMark id (lb_ChannelID info) (s_db s)) in H.
  assert (Hcase : s' = s1 \/ exists d', body d = Ret d' /\ s' = set_db d' s1).
  { destruct (fate (s_clock s)); [|simplify_eq; by left|]; (destruct (body d) eqn:E; simplify_eq; [right; by eexists|by left..]). }
  destruct Hcase as [->|(d' & Hd & ->)].
  - split; [|by left]. split; [cbn; lia|done].
  - apply Hbody in Hd. cbn [marks d UpdateMark] in Hd. rewrite Hm in Hd. split.
    + split; [cbn; lia|]. intros id' Hid'. cbn [s_db set_db]. rewrite Hd. apply lookup_insert_is_Some. destruct (decide ((id, lb_ChannelID info) = (id', lb_ChannelID info))); [by left|right; split; [done|by apply Hr]].
    + right. exists id, v. split_and!; [done|exact Hd|]. intros dmls. apply find_mark.
Qed.

End Marks.

(** ** DDLs *)

(** The statements that the loader tells apart, of those the parser returns. *)
Inductive alter_spec := AlterTableSetTiFlashReplica | OtherSpec.
Inductive ddl_stmt := DropTableStmt | DropDatabaseStmt | TruncateTableStmt | CreateDatabaseStmt | AlterTableStmt (specs : list alter_spec) | OtherStmt.

(** The error codes of TiDB that [IgnoreDDLError] names. *)
Record ddl_codes := mkCodes {
  ErrDatabaseExists : Z; ErrDatabaseNotExists : Z; ErrDatabaseDropExists : Z; ErrTableExists : Z; ErrTableNotExists : Z; ErrTableDropExists : Z;
  ErrColumnExists : Z; c_ErrColumnNotExists : Z; ErrIndexExists : Z; ErrKeyNotExists : Z; ErrCantDropFieldOrKey : Z; ErrDupKeyName : Z;
}.

Definition maxDMLRetryCount : nat := 100.
Definition maxDDLRetryCount : nat := 5.

Section DDLs.
Context (ParseOneStmt : string -> option ddl_stmt).
Context (GetSQLErrCode : error -> option Z) (codes : ddl_codes).
(** The schemas downstream and what a statement does to them in a database; what happens to the n-th transaction. *)
Context {D : Type} (ddl_exec : option string -> string -> D -> outcome D).
Context (fate : nat -> tx_fate) (canceled : nat -> bool).

Definition needRefreshTableInfo (sql : string) : bool :=
  match ParseOneStmt sql with
  | None => true
  | Some (DropTableStmt | DropDatabaseStmt | TruncateTableStmt | CreateDatabaseStmt) => false
  | Some _ => true
  end.

Definition isCreateDatabaseDDL (sql : string) : bool :=
  match ParseOneStmt sql with Some CreateDatabaseStmt => true | _ => false end.

Definition isSetTiFlashReplica (sql : string) : bool :=
  match ParseOneStmt sql with
  | Some (AlterTableStmt specs) =>
    if (1 <? length specs)%nat then false
    else existsb (fun spec => match spec with AlterTableSetTiFlashReplica => true | OtherSpec => false end) specs
  | _ => false
  end.

Definition IgnoreDDLError (e : error) : bool :=
  match GetSQLErrCode e with
  | None => false
  | Some errCode => bool_decide (errCode ∈ [ErrDatabaseExists codes; ErrDatabaseNotExists codes; ErrDatabaseDropExists codes;
      ErrTableExists codes; ErrTableNotExists codes; ErrTableDropExists codes; ErrColumnExists codes; c_ErrColumnNotExists codes;
      ErrIndexExists codes; ErrKeyNotExists codes; ErrCantDropFieldOrKey codes; ErrDupKeyName codes])
  end.

(** The schemas and the number of transactions begun. *)
Definition ddl_state : Type := D * nat.

(** The database that is selected before the statement. *)
Definition used_database (ddl : DDL) : option string :=
  if (0 <? String.length (DDL_Database ddl))%nat && negb (isCreateDatabaseDDL (SQL ddl)) then Some (DDL_Database ddl) else None.

(** An attempt of [execDDL]. *)
Definition ddl_attempt (ddl : DDL) (s : ddl_state) : ddl_state * outcome unit :=
  let '(d, n) := s in
  match fate n with
  | FateFail e => ((d, S n), Fail e)
  | f =>
    match ddl_exec (used_database ddl) (SQL ddl) d with
    | Ret d' => ((d', S n), match f with FateLost e => Fail e | _ => Ret tt end)
    | Fail e => ((d, S n), Fail e)
    | Panic => ((d, S n), Panic)
    end
  end.

Definition loader_execDDL (ddl : DDL) (s : ddl_state) : ddl_state * outcome unit :=
  if ShouldSkip ddl then (s, Ret tt)
  else
    match RetryContext (fun s => canceled (snd s)) (ddl_attempt ddl) maxDDLRetryCount s with
    | (s, Fail e) => if isSetTiFlashReplica (SQL ddl) then (s, Ret tt) else (s, Fail e)
    | r => r
    end.

(** [execDDL] of the batch manager with it: whether the transaction is reported as successful. *)
Definition ddl_succeeds (ddl : DDL) (s : ddl_state) : ddl_state * bool :=
  match loader_execDDL ddl s with
  | (s, Ret _) => (s, true)
  | (s, Fail e) => (s, IgnoreDDLError e)
  | (s, Panic) => (s, false)
  end.

(** [fDDLSuccessCallback], after the report. *)
Definition ddl_callback (ddl : DDL) (c : infos) : infos :=
  if ShouldSkip ddl || needRefreshTableInfo (SQL ddl) then evictTableInfo (DDL_Database ddl) (DDL_Table ddl) c else c.

(** C27: A DDL is executed exactly once in effect: if executing it a second time is refused
    with an error that [IgnoreDDLError] accepts, as for CREATE and DROP, then whatever
    attempts fail or are executed without an answer, a DDL that is reported as
    successful has been executed once, and one that is not has been executed at most once. *)
Theorem ddl_exactly_once ddl d d1 n s' ok :
  ShouldSkip ddl = false -> isSetTiFlashReplica (SQL ddl) = false ->
  ddl_exec (used_database ddl) (SQL ddl) d = Ret d1 ->
  (exists e, ddl_exec (used_database ddl) (SQL ddl) d1 = Fail e /\ IgnoreDDLError e = true) ->
  (forall i e, fate i = FateFail e \/ fate i = FateLost e -> IgnoreDDLError e = false) ->
  ddl_succeeds ddl (d, n) = (s', ok) -> (ok = true -> fst s' = d1) /\ (fst s' = d \/ fst s' = d1).
Proof.
  intros Hs Ht H1 (e1 & H2 & Hi) Hf H. unfold ddl_succeeds, loader_execDDL in H. rewrite Hs in H.
  destruct (RetryContext _ _ _ _) as [s1 r] eqn:E.
  apply (retry_loop_inv _ _ (fun s => fst s = d \/ fst s = d1)
    (fun r s => match r with Ret _ => fst s = d1 | Fail e => IgnoreDDLError e = true -> fst s = d1 | Panic => True end)) in E; [|clear E|by left|left; by unfold maxDDLRetryCount].
  - destruct E as [Hor HQ]. destruct r as [[]|e|]; [|rewrite Ht in H|]; simplify_eq; split; auto; done.
  - intros [d' m] s2 r2 Hor Ha. cbn [fst] in Hor. unfold ddl_attempt in Ha. destruct (fate m) as [|e|e] eqn:Ef.
    + destruct Hor as [->| ->]; [rewrite H1 in Ha|rewrite H2 in Ha]; simplify_eq; cbn; auto.
    + simplify_eq. cbn. split; [done|]. intros Hig. by rewrite (Hf m e) in Hig by auto.
    + destruct Hor as [->| ->]; [rewrite H1 in Ha|rewrite H2 in Ha]; simplify_eq; cbn; auto.
Qed.

End DDLs.

(** ** Concrete runs *)
Module RetryExamples.

Import MergeExamples.

Definition lost : error := Err "invalid connection".

(** The answer of the first transaction is lost, the second one fails. *)
Definition fates (n : nat) : tx_fate := match n with O => FateLost lost | S O => FateFail lost | _ => FateOk end.
Definition no_fetch (_ : nat) (_ _ : string) : outcome tableInfo := Fail lost.
Definition never (_ : nat) : bool := false.
Definition no_code (_ : error) : option Z := None.

Definition two_rows : db :=
  mkDB (fun _ k => if bool_decide (k = [VInt64 1]) then Some (int_row 1 "a") else if bool_decide (k = [VInt64 2]) then Some (int_row 2 "b") else None) ∅.
Definition start : st := mkSt two_rows 0 ∅ 0.

(** Row 1 is deleted and row 2 gets its number. *)
Definition renumber : list DML := [dml DeleteDMLType ∅ (int_row 1 "a"); dml UpdateDMLType (int_row 2 "b") (int_row 1 "b")].

Abbreviation exec safe := (singleExecRetry fates no_fetch never no_code 1054 10 16 None false safe 100 renumber start).

Lemma single_retry_safe_witness : snd (exec true) = Ret tt /\ s_db (fst (exec true)) ≡ apply_db renumber two_rows.
Proof.
  destruct (exec true) as [s' r] eqn:E.
  destruct (single_retry_safe fates no_fetch never no_code 1054 10 16 None ltac:(lia) 100 renumber start s' r) as [H _];
    [repeat constructor; discriminate|lia|exact E|].
  assert (Hr : r = Ret tt) by (change (snd (s', r) = Ret tt); rewrite <- E; vm_compute; reflexivity).
  split; [exact Hr|]. exact (H Hr).
Defined.

(** Without safe mode the same run loses a row and reports a success: the transaction is
    committed, its answer is lost, and the retry deletes the row that was renumbered and
    finds none to renumber. *)
Theorem retry_loses_row : snd (exec false) = Ret tt /\
  rows (s_db (fst (exec false))) (quoteSchema "d" "t") [VInt64 1] = None /\
  rows (apply_db renumber two_rows) (quoteSchema "d" "t") [VInt64 1] = Some (int_row 1 "b").
Proof. split_and!; vm_compute; reflexivity. Qed.

Abbreviation batch := (execTableBatchRetry no_float keys_in_order (fun l => reverse l) fates never 1 16 None 100 dmls start).

Lemma batch_retry_safe_witness : snd batch = Ret tt /\
  forall k, rows (s_db (fst batch)) (quoteSchema "d" "t") k = apply_rows dmls (rows two_rows (quoteSchema "d" "t")) k.
Proof.
  destruct batch as [s' r] eqn:E.
  destruct (batch_retry_safe no_float keys_in_order (fun m => Permutation_refl _) (fun l => reverse l) (fun l => reverse_Permutation l)
    fates never 1 16 None ltac:(lia) (quoteSchema "d" "t") dmls) with (retryNum := 100%nat) (s := start) (s' := s') (r := r) as [H _].
  - repeat constructor; discriminate.
  - repeat constructor; exact I.
  - apply printed_distinct_check. vm_compute. reflexivity.
  - repeat constructor.
  - lia.
  - exact E.
  - assert (Hr : r = Ret tt) by (change (snd (s', r) = Ret tt); rewrite <- E; vm_compute; reflexivity).
    split; [exact Hr|]. exact (H Hr).
Defined.

#[local] Instance fold_env : SyncerEnv := {
  unmarshal_prewrite := fun _ => Fail lost; skip_table := fun _ _ => false; binlog_filter := None; parse_event := fun _ => None;
  to_dmls := fun _ _ _ => Fail lost; equal_fold := fun a b => bool_decide (a = b);
}.

Definition channel : LoopBackSync := mkLoopBack 7 true.
Definition marked_start : st := mkSt (InitMarkTableData 2 7 two_rows) 0 ∅ 5.

Lemma transactions_marked_witness : mark_ready 2 channel marked_start /\
  marks (s_db (fst (run_tx fates 2 (Some channel) Ret marked_start))) !! (1, 7) = Some 2 /\
  mark_ready 2 channel (fst (run_tx fates 2 (Some channel) Ret marked_start)).
Proof.
  assert (H0 : mark_ready 2 channel marked_start) by exact (mark_ready_init 2 channel eq_refl (Nat.lt_0_succ 1) two_rows 0 ∅ 5 (Z.le_refl 0)).
  split; [exact H0|]. split; [vm_compute; reflexivity|].
  destruct (run_tx fates 2 (Some channel) Ret marked_start) as [s' r] eqn:E.
  destruct (transactions_marked (env := fold_env) ltac:(intros s; apply bool_decide_eq_true; reflexivity) fates 2 channel eq_refl ltac:(lia)
    Ret marked_start s' r (tbl ["id"])) as [H _]; [exact H0|cbn; lia|intros d d' [= ->]; reflexivity|exact E|exact H].
Defined.

(** A table is created; the schemas are the list of tables. *)
Definition create (_ : option string) (name : string) (d : list string) : outcome (list string) :=
  if bool_decide (name ∈ d) then Fail (Err "exists") else Ret (name :: d).
Definition code (e : error) : option Z := if bool_decide (e = Err "exists") then Some 1050 else None.
Definition mysql_codes : ddl_codes := mkCodes 1007 1049 1008 1050 1146 1051 1060 1054 1061 1176 1091 1061.

Lemma ddl_exactly_once_witness :
  ddl_succeeds (fun _ => Some OtherStmt) code mysql_codes create fates never (mkDDL "d" "t" "t" false) ([], 0%nat) = ((["t"%string], 5%nat), true) /\
  fst (["t"%string], 5%nat) = ["t"%string].
Proof.
  assert (H : ddl_succeeds (fun _ => Some OtherStmt) code mysql_codes create fates never (mkDDL "d" "t" "t" false) ([], 0%nat) = ((["t"%string], 5%nat), true))
    by (vm_compute; reflexivity).
  split; [exact H|].
  destruct (ddl_exactly_once (fun _ => Some OtherStmt) code mysql_codes create fates never (mkDDL "d" "t" "t" false) [] ["t"%string] 0 (["t"%string], 5%nat) true) as [H1 _].
  - reflexivity.
  - reflexivity.
  - vm_compute; reflexivity.
  - exists (Err "exists"). split; vm_compute; reflexivity.
  - intros i e [Hi|Hi]; destruct i as [|[|i]]; cbn in Hi; simplify_eq; vm_compute; reflexivity.
  - exact H.
  - exact (H1 eq_refl).
Defined.

End RetryExamples.
