(* ===== verification/LoaderRun.v ===== *)
(** * LoaderRun
    How the loader executes the DMLs of a batch as a whole ([pkg/loader/load.go]:
    [execDMLs], [singleExec], [execByHash]): tables with a primary key are merged and
    written in bulk, other DMLs are dispatched to workers by their keys, and both retry
    against a downstream that fails and loses answers.  The parts are those of
    [Causality], [LoaderMerge], [LoaderExec] and [LoaderRetry]; here they are put together. *)
From Stdlib Require Import Init.Byte SpecFloat.
From stdpp Require Import base option list gmap strings sorting.
From S2P Require Import Prelude Causality LoaderModel LoaderMerge LoaderBatch LoaderExec Retry Syncer LoaderRetry.

Section Loader.
Context (fmt_float : Z -> spec_float -> string).
Context (order : gmap string DML -> list string).
Context (schedule : list (list DML) -> list (list DML)).
(** The order of the goroutines of a round of workers, and of the tables. *)
Context (workers_order tables_order : list (list DML) -> list (list DML)).
Context (fate : nat -> tx_fate) (fetch : nat -> string -> string -> outcome tableInfo) (canceled : nat -> bool).
Context (GetSQLErrCode : error -> option Z) (ErrColumnNotExists : Z).
(** The fields of the loader. *)
Context (l_batchSize l_workerCount : nat) (l_info : option LoopBackSync) (l_mode : SyncMode).
Context (l_merge l_enableCausality l_safeMode : bool).

(** [getExecutor]: the executor refreshes table infos for partial columns. *)
Definition l_refresh : bool := bool_decide (l_mode = SyncPartialColumn).

(** [execByHash]: the empty queues are skipped, all others are executed, and the first error is kept. *)
Definition exec_queue (dmls : list DML) (s : st) : st * outcome unit :=
  match dmls with
  | [] => (s, Ret tt)
  | _ => singleExecRetry fate fetch canceled GetSQLErrCode ErrColumnNotExists l_batchSize (Z.of_nat l_workerCount) l_info l_refresh
           l_safeMode maxDMLRetryCount dmls s
  end.

Definition loader_execByHash (byHash : list (list DML)) (s : st) : st * outcome unit := exec_parts exec_queue (workers_order byHash) s.

(** [singleExec] of the loader. *)
Definition loader_singleExec (dmls : list DML) (s : st) : st * outcome unit :=
  Causality.singleExec (LoaderModel.getKeys fmt_float) loader_execByHash l_workerCount l_enableCausality dmls s.

(** The tables and the single DMLs are executed by goroutines of their own; they touch different
    tables, and are run one after the other here. *)
Definition exec_groups (dmls : list DML) (s : st) : st * outcome unit :=
  let '(batchTables, singleDMLs) := groupDMLs l_merge dmls in
  let '(s, r) := exec_parts (execTableBatchRetry fmt_float order schedule fate canceled l_batchSize (Z.of_nat l_workerCount) l_info maxDMLRetryCount)
    (tables_order (map_to_list batchTables).*2) s in
  let '(s, r') := loader_singleExec singleDMLs s in
  (s, match r with Ret _ => r' | _ => r end).

Definition execDMLs (dmls : list DML) (s : st) : st * outcome unit :=
  match dmls with
  | [] => (s, Ret tt)
  | _ =>
    match prepare (fetch (s_clock s)) l_mode dmls (s_infos s) with
    | Ret (dmls, c) => exec_groups dmls (mkSt (s_db s) (s_index s) c (s_clock s))
    | Fail e => (s, Fail e)
    | Panic => (s, Panic)
    end
  end.
End Loader.

(** ** DMLs on different rows commute *)

(** The primary key of a table, by its name. *)
Definition keyed (pk : string -> indexInfo) (dml : DML) : Prop :=
  let cols := index_columns (pk (TableName dml)) in
  known dml /\ primaryKey (info dml) = Some (pk (TableName dml)) /\ pk (TableName dml) ∈ uniqueKeys (info dml) /\ cols <> [] /\
  Forall (fun c => at_key (Values dml) c <> VNil) cols /\
  (OldValues dml <> ∅ -> Forall (fun c => at_key (OldValues dml) c <> VNil) cols).

(** The keys of table [name] that DMLs write. *)
Definition table_keys (name : string) (dmls : list DML) : list (list value) := filter (fun dml => TableName dml = name) dmls ≫= written_keys.

Lemma table_keys_app name l l' : table_keys name (l ++ l') = table_keys name l ++ table_keys name l'.
Proof. unfold table_keys. by rewrite list.filter_app, bind_app. Qed.

Lemma table_keys_sub name l l' : l ⊆ l' -> table_keys name l ⊆ table_keys name l'.
Proof.
  intros Hl k. unfold table_keys. rewrite !list_elem_of_bind. intros (d & Hk & Hd). exists d. split; [done|].
  apply list_elem_of_filter in Hd as [? ?]. apply list_elem_of_filter. auto.
Qed.

(** What is not written is as before. *)
Lemma apply_db_unwritten dmls d name k : k ∉ table_keys name dmls -> rows (apply_db dmls d) name k = rows d name k.
Proof. intros Hk. rewrite rows_apply_db. by apply apply_rows_unwritten. Qed.

Lemma written_touch pk dml k : keyed pk dml -> k ∈ written_keys dml ->
  exists row, touches dml row /\ k = at_key row <$> index_columns (pk (TableName dml)) /\
    Forall (fun c => at_key row c <> VNil) (index_columns (pk (TableName dml))).
Proof.
  intros (Hkn & Hpk & _ & _ & Hv & Ho).
  assert (Hnew : primaryKeyValues dml = at_key (Values dml) <$> index_columns (pk (TableName dml))).
  { unfold primaryKeyValues, primaryKeys. by rewrite Hpk. }
  assert (Hn : forall k, k = primaryKeyValues dml -> exists row, touches dml row /\ k = at_key row <$> index_columns (pk (TableName dml)) /\
    Forall (fun c => at_key row c <> VNil) (index_columns (pk (TableName dml)))).
  { intros k' ->. exists (Values dml). split; [by left|done]. }
  unfold written_keys. destruct (DML_Tp dml) eqn:Et; rewrite ?elem_of_cons, ?elem_of_nil; [tauto|by intros [?|?]; [apply Hn|]| |by intros [?|?]; [apply Hn|]].
  intros [Hk|[Hk|?]]; [|by apply Hn|done]. unfold oldPrimaryKeyValues in Hk. case_bool_decide as Hold; [by apply Hn|].
  exists (OldValues dml). split; [right; split; [unfold is_update; by rewrite bool_decide_eq_true_2|done]|].
  split; [|by apply Ho]. rewrite Hk. unfold primaryKeys. by rewrite Hpk.
Qed.

(** Without a common key two DMLs of a table write different rows. *)
Lemma keyed_disjoint fmt_float pk d d' k : keyed pk d -> keyed pk d' -> TableName d = TableName d' ->
  ~ conflict (LoaderModel.getKeys fmt_float) d d' -> k ∈ written_keys d -> k ∉ written_keys d'.
Proof.
  intros Hd Hd' Ht Hc Hk Hk'. destruct (written_touch _ _ _ Hd Hk) as (row & Htd & Hr & Hnn).
  destruct (written_touch _ _ _ Hd' Hk') as (row' & Htd' & Hr' & _). rewrite <- Ht in Hr'.
  destruct Hd as (_ & _ & Hu & Hne & _). destruct Hd' as (_ & _ & Hu' & _). rewrite <- Ht in Hu'. apply Hc.
  set (ix := pk (TableName d)) in *.
  assert (Heq : forall c, c ∈ index_columns ix -> at_key row c = at_key row' c).
  { rewrite Hr in Hr'. clear -Hr'. induction (index_columns ix) as [|c cols IH]; [by intros c ?%not_elem_of_nil|].
    cbn in Hr'. injection Hr' as H1 H2. intros c' [->|Hc]%elem_of_cons; [done|by apply IH]. }
  destruct (index_columns ix) as [|n cols] eqn:Ei; [done|]. apply Forall_cons_iff in Hnn as [Hn _].
  apply (getKeys_conflict fmt_float d d' ix row row' n); try done; rewrite ?Ei; [by intros; apply Heq|by left].
Qed.

Lemma keyed_commute fmt_float pk d d' db0 : keyed pk d -> keyed pk d' -> ~ conflict (LoaderModel.getKeys fmt_float) d d' ->
  apply_db [d'; d] db0 ≡ apply_db [d; d'] db0.
Proof.
  intros Hd Hd' Hc name k. rewrite !rows_apply_db, !filter_cons, filter_nil.
  destruct (decide (TableName d = name)) as [Ht|Ht], (decide (TableName d' = name)) as [Ht'|Ht']; try done.
  cbn. destruct (decide (k ∈ written_keys d)) as [Hk|Hk].
  - pose proof (keyed_disjoint fmt_float pk d d' k Hd Hd' ltac:(congruence) Hc Hk) as Hk'.
    pose proof (apply_rows_unwritten [d'] (apply_row d (rows db0 name)) k) as Hun. cbn in Hun. rewrite app_nil_r in Hun.
    rewrite Hun by done. apply apply_row_agree. by left.
  - pose proof (apply_rows_unwritten [d] (apply_row d' (rows db0 name)) k) as Hun. cbn in Hun. rewrite app_nil_r in Hun.
    rewrite Hun by done. apply apply_row_agree. right. symmetry.
    pose proof (apply_rows_unwritten [d] (rows db0 name) k) as Hun'. cbn in Hun'. rewrite app_nil_r in Hun'. by apply Hun'.
Qed.

(** ** The states of the loader up to everything but the tables *)
#[export] Instance st_equiv : Equiv st := fun s s' => s_db s ≡ s_db s'.
#[export] Instance st_equivalence : Equivalence (≡@{st}).
Proof. split; unfold equiv, st_equiv; [by intros s|intros s s' Hs; by symmetry|intros s1 s2 s3 ? ?; by etrans]. Qed.

Definition apply_st (dml : DML) (s : st) : st := set_db (apply_db [dml] (s_db s)) s.
#[export] Instance apply_st_proper dml : Proper ((≡) ==> (≡)) (apply_st dml).
Proof. intros s s' Hs. unfold equiv, st_equiv, apply_st in *. cbn [s_db set_db]. by rewrite Hs. Qed.

Lemma apply_all_st dmls : forall s, s_db (apply_all apply_st dmls s) = apply_db dmls (s_db s).
Proof. induction dmls as [|d dmls IH]; intros s; [done|]. unfold apply_all in *. cbn [foldl]. by rewrite IH. Qed.

(** Only rows that the DMLs write differ. *)
Definition touched (dmls : list DML) (d d' : db) : Prop :=
  forall name k, k ∉ table_keys name dmls -> rows d' name k = rows d name k.

Lemma touched_refl dmls d : touched dmls d d.
Proof. done. Qed.
Lemma touched_trans dmls d1 d2 d3 : touched dmls d1 d2 -> touched dmls d2 d3 -> touched dmls d1 d3.
Proof. intros H1 H2 name k Hk. by rewrite H2, H1. Qed.
Lemma touched_apply l dmls d d' : l ⊆ dmls -> d' ≡ apply_db l d -> touched dmls d d'.
Proof. intros Hl Hd name k Hk. rewrite (Hd name k). apply apply_db_unwritten. intros Hin. by apply Hk, (table_keys_sub name l). Qed.

(** Parts that have the effect of their DMLs when they succeed, and touch only their rows. *)
Lemma exec_parts_apply (exec : list DML -> st -> st * outcome unit) dmls parts :
  Forall (fun part => part ⊆ dmls /\ forall s s' r, exec part s = (s', r) ->
    (r = Ret tt -> s_db s' ≡ apply_db part (s_db s)) /\ touched dmls (s_db s) (s_db s')) parts ->
  forall s s' r, exec_parts exec parts s = (s', r) ->
  (r = Ret tt -> s_db s' ≡ apply_db (concat parts) (s_db s)) /\ touched dmls (s_db s) (s_db s').
Proof.
  induction 1 as [|part parts [Hsub Hp] _ IH]; intros s s' r; cbn [exec_parts].
  { by intros [= <- <-]. }
  destruct (exec part s) as [s1 r1] eqn:E. destruct (Hp _ _ _ E) as [Hok Ht].
  destruct (exec_parts exec parts s1) as [s2 r2] eqn:E2. destruct (IH _ _ _ E2) as [Hok2 Ht2].
  destruct r1 as [[]|e|].
  - intros [= <- <-]. split; [|by eapply touched_trans]. intros ->. cbn [concat]. rewrite apply_db_app, Hok2 by done.
    by rewrite Hok.
  - intros [= <- <-]. split; [done|]. by eapply touched_trans.
  - intros [= <- <-]. split; [done|]. by eapply touched_trans.
Qed.

(** *** Groups of tables *)

(** The groups of a batch whose tables have primary keys. *)
Lemma groups_of dmls : Forall has_pk dmls -> snd (groupDMLs true dmls) = [] /\
  forall tbl, default [] (fst (groupDMLs true dmls) !! tbl) = filter (fun d => TableName d = tbl) dmls.
Proof.
  intros Hpk. unfold groupDMLs. destruct (group_loop_spec dmls ∅ []) as [H1 H2]. rewrite H1. split.
  - cbn. clear -Hpk. induction Hpk as [|d dmls Hd Hpk IH]; [done|]. by rewrite filter_cons_False by tauto.
  - intros tbl. rewrite H2, lookup_empty. cbn. clear -Hpk. induction Hpk as [|d dmls Hd Hpk IH]; [done|].
    rewrite !filter_cons, IH. destruct (decide (TableName d = tbl)); [by rewrite decide_True|by rewrite decide_False by tauto].
Qed.

Lemma filter_table name (part : list DML) tbl : Forall (fun d => TableName d = tbl) part ->
  filter (fun d => TableName d = name) part = if decide (tbl = name) then part else [].
Proof.
  induction 1 as [|d part Hd _ IH]; [by case_decide|]. rewrite filter_cons, IH, Hd. by destruct (decide (tbl = name)).
Qed.

(** Groups of different tables, in any order: each table has its group. *)
Lemma filter_groups name (L : list (string * list DML)) : NoDup L.*1 -> Forall (fun g => Forall (fun d => TableName d = g.1) g.2) L ->
  filter (fun d => TableName d = name) (concat L.*2) = default [] ((list_to_map L : gmap string (list DML)) !! name).
Proof.
  induction L as [|[tbl part] L IH]; intros Hnd Hu; [done|]. cbn [fmap list_fmap fst snd concat] in *.
  apply list.NoDup_cons in Hnd as [Hni Hnd]. apply Forall_cons_iff in Hu as [Hp Hu]. cbn [fst snd] in Hp.
  rewrite list.filter_app, (filter_table name part tbl Hp), IH by done. cbn.
  destruct (decide (tbl = name)) as [->|Hne]; [|by rewrite lookup_insert_ne].
  rewrite lookup_insert_eq, (not_elem_of_list_to_map_1 L name) by done. cbn. apply app_nil_r.
Qed.

Lemma apply_groups (m : gmap string (list DML)) gs dmls d : gs ≡ₚ (map_to_list m).*2 ->
  (forall tbl, default [] (m !! tbl) = filter (fun d => TableName d = tbl) dmls) -> apply_db (concat gs) d ≡ apply_db dmls d.
Proof.
  intros Hgs Hm name k. rewrite !rows_apply_db. f_equal. apply Permutation_map_inv in Hgs as (L & -> & HL).
  assert (Hlm : list_to_map L = m) by (rewrite <- (list_to_map_to_list m); symmetry; apply list_to_map_proper; [apply NoDup_fst_map_to_list|done]).
  change (map snd L) with L.*2. rewrite filter_groups, Hlm; [by rewrite Hm| |].
  - rewrite <- HL. apply NoDup_fst_map_to_list.
  - rewrite <- HL. apply list.Forall_forall. intros [tbl part] Hin%elem_of_map_to_list. cbn.
    pose proof (Hm tbl) as Hp. rewrite Hin in Hp. cbn in Hp. subst part. apply list.Forall_forall. by intros x [? _]%list_elem_of_filter.
Qed.

Section Proofs.
Context (fmt_float : Z -> spec_float -> string).
Context (order : gmap string DML -> list string) (Horder : forall m : gmap string DML, order m ≡ₚ (map_to_list m).*1).
Context (schedule : list (list DML) -> list (list DML)) (Hschedule : forall l, schedule l ≡ₚ l).
Context (workers_order tables_order : list (list DML) -> list (list DML)).
Context (Hworkers : forall l, workers_order l ≡ₚ l) (Htables : forall l, tables_order l ≡ₚ l).
Context (fate : nat -> tx_fate) (fetch : nat -> string -> string -> outcome tableInfo) (canceled : nat -> bool).
Context (GetSQLErrCode : error -> option Z) (ErrColumnNotExists : Z).
Context (l_batchSize l_workerCount : nat) (l_info : option LoopBackSync) (l_mode : SyncMode).
Context (Hbatch : (0 < l_batchSize)%nat) (Hcount : (0 < l_workerCount)%nat) (Hmode : l_mode <> SyncPartialColumn).
Context (pk : string -> indexInfo).
#[local] Set Default Proof Using "Type*".

Abbreviation queue := (exec_queue fate fetch canceled GetSQLErrCode ErrColumnNotExists l_batchSize l_workerCount l_info l_mode true).
Abbreviation byhash := (loader_execByHash workers_order fate fetch canceled GetSQLErrCode ErrColumnNotExists l_batchSize l_workerCount l_info l_mode true).

Lemma exec_queue_apply dmls q : q ⊆ dmls -> Forall known q -> forall s s' r, queue q s = (s', r) ->
  (r = Ret tt -> s_db s' ≡ apply_db q (s_db s)) /\ touched dmls (s_db s) (s_db s').
Proof.
  intros Hq Hk s s' r. unfold exec_queue. destruct q as [|d q]; [by intros [= <- <-]|].
  unfold l_refresh. rewrite bool_decide_eq_false_2 by done. intros E.
  apply single_retry_safe in E as [Hok [n Hn]]; [|done|done|by unfold maxDMLRetryCount]. split; [done|].
  eapply touched_apply; [|exact Hn]. etrans; [apply subseteq_take|done].
Qed.

Lemma byhash_apply dmls qs s s' r : Forall (fun q => q ⊆ dmls /\ Forall known q) qs -> byhash qs s = (s', r) ->
  (r = Ret tt -> s_db s' ≡ apply_db (concat (workers_order qs)) (s_db s)) /\ touched dmls (s_db s) (s_db s').
Proof.
  intros Hqs. apply exec_parts_apply. rewrite Hworkers. eapply Forall_impl; [exact Hqs|]. intros q [Hq Hk]. split; [done|].
  by apply exec_queue_apply.
Qed.

(** *** Single DMLs *)

Lemma single_apply dmls s s' r : Forall (keyed pk) dmls ->
  loader_singleExec fmt_float workers_order fate fetch canceled GetSQLErrCode ErrColumnNotExists l_batchSize l_workerCount l_info l_mode true true dmls s
    = (s', r) ->
  (r = Ret tt -> s_db s' ≡ apply_db dmls (s_db s)) /\ touched dmls (s_db s) (s_db s').
Proof.
  intros Hk E. set (good := fun d => keyed pk d /\ d ∈ dmls).
  assert (Hg : Forall good dmls) by (apply list.Forall_forall; intros d Hd; split; [by eapply list.Forall_forall in Hk|done]).
  assert (Hqs : forall qs, Forall (Forall good) qs -> Forall (fun q => q ⊆ dmls /\ Forall known q) qs).
  { intros qs Hq. eapply Forall_impl; [exact Hq|]. intros q Hgq. rewrite list.Forall_forall in Hgq. split; [intros d Hd; by apply Hgq|].
    apply list.Forall_forall. intros d Hd. by apply (Hgq d Hd). }
  split.
  - intros ->. rewrite <- (apply_all_st dmls s). change (s' ≡ apply_all apply_st dmls s).
    eapply (singleExec_spec (LoaderModel.getKeys fmt_float) byhash l_workerCount true apply_st good); [|apply getKeys_nonempty| |done|done|done|exact E].
    + intros d d' x [Hd _] [Hd' _] Hc. unfold equiv, st_equiv, apply_st. cbn [s_db set_db].
      by apply (keyed_commute fmt_float pk d d').
    + intros qs x x' Hq Hex. apply (byhash_apply dmls) in Hex as [Hok _]; [|by apply Hqs].
      exists (concat (workers_order qs)). split.
      * eapply interleave_perm; [apply interleave_concat|apply Hworkers].
      * unfold equiv, st_equiv. rewrite apply_all_st. by apply Hok.
  - change s' with (fst (s', r)). rewrite <- E.
    apply (singleExec_keeps (LoaderModel.getKeys fmt_float) byhash l_workerCount true good (fun x => touched dmls (s_db s) (s_db x)));
      [|done|apply touched_refl].
    intros qs x Hq Hx. destruct (byhash qs x) as [x' r'] eqn:Ex. apply (byhash_apply dmls) in Ex as [_ Ht]; [|by apply Hqs].
    by eapply touched_trans.
Qed.

(** *** Tables *)

Abbreviation batch := (execTableBatchRetry fmt_float order schedule fate canceled l_batchSize (Z.of_nat l_workerCount) l_info maxDMLRetryCount).

(** What merging needs of the DMLs of a table. *)
Definition mergeable (dmls : list DML) : Prop := Forall exact_keys dmls /\ printed_distinct fmt_float dmls.

Lemma table_apply dmls part tbl : part ⊆ dmls -> Forall known part -> mergeable part -> Forall (fun d => TableName d = tbl) part ->
  forall s s' r, batch part s = (s', r) -> (r = Ret tt -> s_db s' ≡ apply_db part (s_db s)) /\ touched dmls (s_db s) (s_db s').
Proof.
  intros Hsub Hk [Hex Hpd] Ht s s' r E.
  apply (batch_retry_spec fmt_float order Horder schedule Hschedule fate canceled l_batchSize (Z.of_nat l_workerCount) l_info Hbatch tbl)
    in E as (Hok & Hun & Hoth & _); [|done..].
  split.
  - intros Hr name k. rewrite rows_apply_db, (filter_table name part tbl Ht). destruct (decide (tbl = name)) as [<-|Hne]; [by apply Hok|].
    by apply Hoth.
  - intros name k Hk'. destruct (decide (name = tbl)) as [->|Hne]; [|by apply Hoth]. apply Hun. intros Hin. apply Hk'.
    apply (table_keys_sub tbl part dmls Hsub). unfold table_keys. rewrite (filter_table tbl part tbl Ht). by rewrite decide_True.
Qed.

Lemma groups_apply dmls s s' r : Forall (keyed pk) dmls -> (forall tbl, mergeable (filter (fun d => TableName d = tbl) dmls)) ->
  exec_parts batch (tables_order (map_to_list (fst (groupDMLs true dmls))).*2) s = (s', r) ->
  (r = Ret tt -> s_db s' ≡ apply_db dmls (s_db s)) /\ touched dmls (s_db s) (s_db s').
Proof.
  intros Hk Hm E. assert (Hpk : Forall has_pk dmls).
  { eapply Forall_impl; [exact Hk|]. intros d (_ & Hp & _). unfold has_pk. rewrite Hp. by eexists. }
  destruct (groups_of dmls Hpk) as [_ Hg]. set (m := fst (groupDMLs true dmls)) in *.
  apply (exec_parts_apply batch dmls) in E as [Hok Ht].
  - split; [|done]. intros Hr. rewrite (Hok Hr). by apply (apply_groups m).
  - rewrite Htables. apply Forall_fmap, list.Forall_forall. intros [tbl part] Hin%elem_of_map_to_list. cbn [snd compose].
    pose proof (Hg tbl) as Hp. rewrite Hin in Hp. cbn [default] in Hp. unfold id in Hp.
    assert (Hsub : part ⊆ dmls) by (rewrite Hp; intros d [_ ?]%list_elem_of_filter; done). split; [done|].
    apply (table_apply dmls part tbl); [done| | |].
    + apply list.Forall_forall. intros d Hd%Hsub. by eapply list.Forall_forall in Hk as [? _].
    + rewrite Hp. apply Hm.
    + rewrite Hp. apply list.Forall_forall. by intros d [? _]%list_elem_of_filter.
Qed.

Context (l_merge : bool).
Abbreviation groups := (exec_groups fmt_float order schedule workers_order tables_order fate fetch canceled GetSQLErrCode ErrColumnNotExists
  l_batchSize l_workerCount l_info l_mode l_merge true true).

Lemma exec_groups_spec dmls s s' r : Forall (keyed pk) dmls ->
  (l_merge = true -> forall tbl, mergeable (filter (fun d => TableName d = tbl) dmls)) -> groups dmls s = (s', r) ->
  (r = Ret tt -> s_db s' ≡ apply_db dmls (s_db s)) /\ touched dmls (s_db s) (s_db s').
Proof.
  intros Hk Hm. assert (Hpk : Forall has_pk dmls).
  { eapply Forall_impl; [exact Hk|]. intros d (_ & Hp & _). unfold has_pk. rewrite Hp. by eexists. }
  unfold exec_groups. destruct l_merge.
  - destruct (groups_of dmls Hpk) as [Hsing _]. destruct (groupDMLs true dmls) as [m single] eqn:Eg. cbn [snd] in Hsing. subst single.
    destruct (exec_parts _ _ s) as [s1 r1] eqn:E1. change m with (fst (m, @nil DML)) in E1. rewrite <- Eg in E1.
    apply groups_apply in E1 as [Hok Ht]; [|done|by apply Hm].
    destruct (loader_singleExec _ _ _ _ _ _ _ _ _ _ _ _ _ [] s1) as [s2 r2] eqn:E2. intros [= <- <-].
    apply single_apply in E2 as [Hok2 Ht2]; [|done]. split.
    + intros Hr. destruct r1 as [[]|e|]; [|done|done]. rewrite (Hok2 Hr). by apply Hok.
    + eapply touched_trans; [exact Ht|]. intros name k _. by apply Ht2, not_elem_of_nil.
  - cbn [groupDMLs]. rewrite map_to_list_empty. cbn [fmap list_fmap].
    assert (Hnil : tables_order [] = []) by (apply Permutation_nil_r; apply Htables). rewrite Hnil. cbn [exec_parts].
    destruct (loader_singleExec _ _ _ _ _ _ _ _ _ _ _ _ _ dmls s) as [s2 r2] eqn:E2. intros [= <- <-]. by apply single_apply in E2.
Qed.

End Proofs.

Module RunExamples.
Import MergeExamples RetryExamples.

Definition pk_id (_ : string) : indexInfo := mkIndex "PRIMARY" ["id"%string].

Lemma int_keyed tp old id v : tp <> UnknownDMLType -> (old = ∅ \/ exists id' v', old = int_row id' v') ->
  keyed pk_id (dml tp old (int_row id v)).
Proof.
  intros Ht Hold. split_and!; [done|done|by left|done|by repeat constructor|].
  destruct Hold as [->|(id' & v' & ->)]; [done|]. intros _. by repeat constructor.
Qed.

Lemma dmls_keyed : Forall (keyed pk_id) dmls.
Proof. repeat (apply List.Forall_cons; [apply int_keyed; [done|eauto]|]). apply List.Forall_nil. Qed.

Definition known_infos : infos := {[quoteSchema "d" "t" := tbl ["id"%string]]}.
Definition begin_st : st := mkSt two_rows 0 known_infos 0.

(** The rows of [MergeExamples], dispatched to four workers with a batch size of one, with an
    answer that is lost and a transaction that fails. *)
Abbreviation dispatched := (execDMLs no_float keys_in_order (fun l => l) (fun l => l) (fun l => l) fates no_fetch never no_code 1054
  1 4 None SyncFullColumn false true true dmls begin_st).

End RunExamples.
