(* ===== verification/MysqlSync.v ===== *)
(** * MysqlSync
    The syncer for MySQL and TiDB ([drainer/sync/mysql.go]): binlogs are written to the
    relay log, handed to the loader, and the relay log is collected as the loader
    reports transactions; [Sync], the loader and the handler of its successes
    interleave. *)
From Stdlib Require Import Init.Byte.
From stdpp Require Import base option list gmap strings sorting relations.
From S2P Require Import Prelude Text LogFile BinlogFile BinlogNames BinlogWalk LoaderModel LoaderBatch DSync.

(** ** Options of the loader *)

(** [CreateLoader]: the options, without metrics; [mode] is [cfg.SyncMode]. *)
Definition CreateLoader (cfg_Merge : bool) (mode worker batch : Z) (destDBType : string) (dispatch causality : bool) : options :=
  NewLoader ([WorkerCount worker; BatchSize batch; SaveAppliedTS (bool_decide (destDBType = "tidb"%string));
              EnableDispatch dispatch; EnableCausality causality; Merge cfg_Merge] ++
             (if mode =? 0 then [] else [SyncModeOption (if mode =? 2 then SyncPartialColumn else SyncFullColumn)])).

(** ** The syncer *)
Section Syncer.
Context {Item T : Type}.
(** The message of an item for the relay log ([TiBinlogToSecondaryBinlog] and [Marshal]),
    and its transaction ([TiBinlogToTxn]). *)
Context (marshal : Item -> outcome (list byte)) (to_txn : Item -> outcome T).

Record msyncer := mkM {
  m_relayer : option relayer;
  m_loading : list (Item * Pos);        (** accepted by the loader, not reported; with [RelayLogPos] *)
  m_handled : option (Item * Pos);      (** taken from [Successes] by the handler ... *)
  m_collected : bool;                   (** ... which has called [GCBinlog] *)
  m_success : list Item;                (** sent on [success] *)
  m_result : option (option error);     (** what [loader.Run] returned *)
  m_base : baseError;
  m_stopped : bool;                     (** a call of [Sync] failed, there is none after it *)
}.

(** The first part of [Sync]: the relay log. *)
Definition sync_relay (now : string) (item : Item) (r : option relayer) : option relayer * outcome Pos :=
  match r with
  | None => (None, Ret (mkPos 0 0))
  | Some r => let '(r, p) := relayer_WriteBinlog WOk None now (marshal item) r in (Some r, p)
  end.

(** [Sync], when the loader receives the transaction if [sent], and when the closed [errCh]
    is seen otherwise. *)
Definition Sync (now : string) (sent : bool) (item : Item) (s : msyncer) : msyncer * option error :=
  let '(r, p) := sync_relay now item (m_relayer s) in
  let failed (e : error) := (mkM r (m_loading s) (m_handled s) (m_collected s) (m_success s) (m_result s) (m_base s) true, Some e) in
  match p with
  | Ret pos =>
    match to_txn item with
    | Ret _ =>
      if sent then (mkM r (m_loading s ++ [(item, pos)]) (m_handled s) (m_collected s) (m_success s) (m_result s) (m_base s) (m_stopped s), None)
      else (mkM r (m_loading s) (m_handled s) (m_collected s) (m_success s) (m_result s) (m_base s) true, be_err (m_base s))
    | Fail e => failed e
    | Panic => failed (Err "panic")
    end
  | Fail e => failed e
  | Panic => failed (Err "panic")
  end.

(** The handler of successes collects the relay log, then reports the item. *)
Definition handle_gc (x : Item * Pos) (s : msyncer) : msyncer :=
  mkM (GCBinlog (snd x) <$> m_relayer s) (m_loading s) (m_handled s) true (m_success s) (m_result s) (m_base s) (m_stopped s).
Definition handle_send (x : Item * Pos) (s : msyncer) : msyncer :=
  mkM (m_relayer s) (m_loading s) None false (m_success s ++ [fst x]) (m_result s) (m_base s) (m_stopped s).

(** What the relay log accepts: entries of a size that can be written, and fewer files than
    their names can number. *)
Definition relayed (item : Item) (s : msyncer) : Prop := forall r, m_relayer s = Some r ->
  lastSuffix (r_binlogger r) + 2 <= 10 ^ 16 /\ forall data, marshal item = Ret data -> entry_ok data.

Inductive msync_step : msyncer -> msyncer -> Prop :=
  | ms_sync now item s : m_stopped s = false -> m_result s = None -> datetime_ok now -> relayed item s ->
      msync_step s (fst (Sync now true item s))
  | ms_refused now item s : m_stopped s = false -> errCh_closed (m_base s) = true -> datetime_ok now -> relayed item s ->
      msync_step s (fst (Sync now false item s))
  (** the loader reports its transactions in order *)
  | ms_report x q s : m_result s = None -> m_loading s = x :: q -> m_handled s = None ->
      msync_step s (mkM (m_relayer s) q (Some x) false (m_success s) (m_result s) (m_base s) (m_stopped s))
  | ms_collect x s : m_handled s = Some x -> m_collected s = false -> msync_step s (handle_gc x s)
  | ms_success x s : m_handled s = Some x -> m_collected s = true -> msync_step s (handle_send x s)
  (** [loader.Run] returns: with an error, or when everything was reported *)
  | ms_run err s : m_result s = None -> (err = None -> m_loading s = []) ->
      msync_step s (mkM (m_relayer s) (m_loading s) (m_handled s) (m_collected s) (m_success s) (Some err) (m_base s) (m_stopped s))
  (** the end of [run] *)
  | ms_end err b s : m_result s = Some err -> m_handled s = None -> setErr err (m_base s) = Ret b ->
      msync_step s (mkM (m_relayer s) (m_loading s) (m_handled s) (m_collected s) (m_success s) (m_result s) b (m_stopped s)).

Definition NewMysqlSyncer (r : option relayer) : msyncer := mkM r [] None false [] None newBaseError false.

(** ** The relay log holds what is not reported *)

(** What was accepted and not reported yet, in order. *)
Definition pending (s : msyncer) : list (Item * Pos) := option_list (m_handled s) ++ m_loading s.

Definition entity_of (x : Item * Pos) : Entity := mkEntity (snd x) (match marshal (fst x) with Ret data => data | _ => [] end).

Definition suffix_le (e e' : Entity) : Prop := Suffix (e_pos e) <= Suffix (e_pos e').

Lemma entities_suffix i ps : forall off e, e ∈ entities i off ps -> Suffix (e_pos e) = i.
Proof.
  induction ps as [|p ps IH]; intros off e; cbn [entities]; [by intros ?%not_elem_of_nil|].
  intros [->|Hin]%elem_of_cons; [done|by eapply IH].
Qed.

Lemma all_entities_suffix fs : forall i e, e ∈ all_entities i fs -> i <= Suffix (e_pos e) < i + len fs.
Proof.
  induction fs as [|[n ps] fs IH]; intros i e; cbn [all_entities length]; [by intros ?%not_elem_of_nil|].
  intros [Hin|Hin]%elem_of_app; [apply entities_suffix in Hin; lia|apply IH in Hin; lia].
Qed.

Lemma all_entities_sorted fs : forall i, StronglySorted suffix_le (all_entities i fs).
Proof.
  induction fs as [|[n ps] fs IH]; intros i; cbn [all_entities]; [constructor|].
  assert (Hs : forall off, StronglySorted suffix_le (entities i off ps ++ all_entities (i + 1) fs)); [|apply Hs].
  induction ps as [|p ps IHp]; intros off; cbn [entities app]; [apply IH|]. constructor; [apply IHp|].
  apply list.Forall_forall. intros e Hin. unfold suffix_le. cbn [e_pos Suffix].
  apply elem_of_app in Hin as [Hin|Hin]; [apply entities_suffix in Hin; lia|apply all_entities_suffix in Hin; lia].
Qed.

(** The directory of the relay log is well formed, and the pending items are in it, in order. *)
Definition kept (s : msyncer) : Prop := forall r, m_relayer s = Some r ->
  exists i fs, brepr (r_binlogger r) i fs /\ (entity_of <$> pending s) `sublist_of` all_entities i fs.

Lemma sublist_not_left {A} (l k1 k2 : list A) : l `sublist_of` k1 ++ k2 -> (forall x, x ∈ l -> x ∉ k1) -> l `sublist_of` k2.
Proof.
  intros (l1 & l2 & -> & H1 & H2)%sublist_app_r Hni. destruct l1 as [|x l1]; [done|]. exfalso.
  apply (Hni x); [by left|]. eapply sublist_subseteq; [exact H1|]. by left.
Qed.

Lemma sorted_sublist {A} (R : relation A) l k : l `sublist_of` k -> StronglySorted R k -> StronglySorted R l.
Proof.
  induction 1 as [|x l k Hs IH|x l k Hs IH]; [done|..]; intros [Hk Hall]%StronglySorted_inv; [|by apply IH].
  constructor; [by apply IH|]. rewrite list.Forall_forall in *. intros y Hy. apply Hall. by eapply sublist_subseteq.
Qed.

(** Collecting up to the position of the first pending item keeps them all. *)
Lemma GCBinlog_keeps r i fs e es : brepr (r_binlogger r) i fs -> (e :: es) `sublist_of` all_entities i fs ->
  exists i' fs', brepr (r_binlogger (GCBinlog (e_pos e) r)) i' fs' /\ (e :: es) `sublist_of` all_entities i' fs'.
Proof.
  intros Hb Hs. unfold GCBinlog. destruct (nextGCFileSuffix r <? Suffix (e_pos e)); [|by exists i, fs]. cbn [r_binlogger].
  pose proof (br_dir _ _ _ Hb) as Hd. pose proof (dr_nonempty _ _ _ _ Hd) as Hne.
  set (k := Z.to_nat (Z.max 0 (Z.min (Suffix (e_pos e) - i) (len fs - 1)))).
  assert (Hlen : (0 < length fs)%nat) by (destruct fs; [done|cbn; lia]).
  assert (Hk : (k < length fs)%nat) by lia.
  exists (i + len (take k fs)), (drop k fs). split.
  - split.
    + apply GCByPos_keeps; rewrite ?take_drop; [done| |rewrite length_take; lia].
      intros H0. apply (f_equal length) in H0. rewrite length_drop in H0. cbn in H0. lia.
    + destruct Hb as [_ (fs0 & ps & Hfs & Hfp & Henc & Hsuf)]. subst fs. rewrite length_app in Hk. cbn [length] in Hk.
      exists (drop k fs0), ps. unfold GCByPos. rewrite (drepr_names _ _ _ _ Hd). cbn [file fpos enc_offset lastSuffix].
      rewrite drop_app_le by lia. split_and!; [done|done|done|].
      rewrite length_take, length_app, length_drop. cbn [length]. lia.
  - pose proof Hs as Hs0. rewrite <- (take_drop k fs), all_entities_app in Hs. apply sublist_not_left in Hs; [done|]. intros x Hx Hin.
    apply all_entities_suffix in Hin. rewrite length_take in Hin.
    assert (Hle : suffix_le e x).
    { apply elem_of_cons in Hx as [->|Hx]; [unfold suffix_le; lia|].
      assert (Hss : StronglySorted suffix_le (e :: es)) by (eapply sorted_sublist; [exact Hs0|apply all_entities_sorted]).
      apply StronglySorted_inv in Hss as [_ Hall]. rewrite list.Forall_forall in Hall. by apply Hall. }
    unfold suffix_le in Hle. lia.
Qed.

(** Writing an item puts it after everything that is pending. *)
Lemma sync_relay_keeps now item r i fs es r' p : brepr (r_binlogger r) i fs -> es `sublist_of` all_entities i fs ->
  datetime_ok now -> lastSuffix (r_binlogger r) + 2 <= 10 ^ 16 -> (forall data, marshal item = Ret data -> entry_ok data) ->
  sync_relay now item (Some r) = (r', p) -> exists r1 fs', r' = Some r1 /\ brepr (r_binlogger r1) i fs' /\
    es `sublist_of` all_entities i fs' /\ forall pos, p = Ret pos -> (es ++ [entity_of (item, pos)]) `sublist_of` all_entities i fs'.
Proof.
  intros Hb Hs Hnow Hsuf Hok H. unfold sync_relay, relayer_WriteBinlog in H. unfold entity_of. cbn [fst snd].
  destruct (marshal item) as [data|e|] eqn:Em; [|simplify_eq; by exists r, fs..].
  assert (Hl : lastSuffix (r_binlogger r) = i + len fs - 1).
  { destruct (br_last _ _ _ Hb) as (fs0 & ps & -> & _ & _ & ->). rewrite length_app. cbn [length]. lia. }
  destruct (WriteTail_repr _ i fs now data Hb (Hok _ eq_refl) Hnow) as (b' & pos & fs' & _ & _ & _ & _ & Hw & Hb' & _ & He & _); [lia|].
  rewrite Hw in H. simplify_eq. eexists _, fs'. split; [done|]. rewrite He. split_and!; [done|by apply sublist_inserts_r|].
  intros pos' [= <-]. by apply sublist_app.
Qed.

Lemma kept_sync now sent item s : kept s -> datetime_ok now -> relayed item s -> kept (fst (Sync now sent item s)).
Proof.
  intros Hk Hnow Hrel r Hr. unfold Sync in Hr |- *. destruct (sync_relay now item (m_relayer s)) as [r' p] eqn:E.
  assert (Hr' : r' = Some r) by (destruct p as [pos|e|]; [destruct (to_txn item); [destruct sent|..]|..]; exact Hr).
  destruct (m_relayer s) as [r0|] eqn:E0; [|unfold sync_relay in E; simplify_eq]. destruct (Hrel r0 E0) as [Hsuf Hok].
  destruct (Hk r0 E0) as (i & fs & Hb & Hs).
  destruct (sync_relay_keeps _ _ _ _ _ _ _ _ Hb Hs Hnow Hsuf Hok E) as (r1 & fs' & -> & Hb' & Hs' & Hp). injection Hr' as ->.
  exists i, fs'. split; [done|].
  destruct p as [pos|e|]; [|exact Hs'..]. destruct (to_txn item); [|exact Hs'..]. destruct sent; [|exact Hs'].
  unfold pending. cbn [fst m_handled m_loading]. rewrite app_assoc, fmap_app. by apply Hp.
Qed.

(** A step that leaves the relay log and does not add to what is pending. *)
Lemma kept_less s s' : kept s -> m_relayer s' = m_relayer s -> pending s' `sublist_of` pending s -> kept s'.
Proof.
  intros Hk Hr Hp r Hr'. rewrite Hr in Hr'. destruct (Hk r Hr') as (i & fs & Hb & Hs). exists i, fs. split; [done|].
  etrans; [|exact Hs]. clear -Hp. induction Hp; cbn; by constructor.
Qed.

Lemma kept_step s s' : kept s -> msync_step s s' -> kept s'.
Proof.
  intros Hk Hstep. destruct Hstep as [now item s Hst Hres Hnow Hrel|now item s Hst Hcl Hnow Hrel|x q s Hres Hl Hh|x s Hh Hc|x s Hh Hc|err s Hres Hl|err b s Hres Hh Hset].
  - by apply kept_sync.
  - by apply kept_sync.
  - apply (kept_less s); [done|done|]. unfold pending. cbn. by rewrite Hl, Hh.
  - intros r Hr. cbn [handle_gc m_relayer] in Hr. destruct (m_relayer s) as [r0|] eqn:E0; [|done]. injection Hr as <-.
    destruct (Hk r0 E0) as (i & fs & Hb & Hs). unfold pending in Hs |- *. cbn [handle_gc m_handled m_loading]. rewrite Hh in Hs |- *.
    cbn [option_list app fmap list_fmap] in Hs |- *. by apply (GCBinlog_keeps r0 i fs (entity_of x)).
  - apply (kept_less s); [done|done|]. unfold pending. cbn [handle_send m_handled m_loading option_list app]. by apply sublist_inserts_l.
  - by apply (kept_less s).
  - by apply (kept_less s).
Qed.

(** C28: The relay log always holds what a crash would lose: whatever [Sync], the loader, the
    handler of successes and the collection of relay files do, the relay log is a
    well-formed directory of binlog files, and every item that the loader has accepted
    and that is not reported yet is in it, at its position and in order; opened again and
    walked it delivers all of them. *)
Theorem relay_holds_pending r i fs s r' :
  brepr (r_binlogger r) i fs -> rtc msync_step (NewMysqlSyncer (Some r)) s -> m_relayer s = Some r' ->
  exists i' fs', drepr (dir (r_binlogger r')) i' fs' [] /\ (entity_of <$> pending s) `sublist_of` all_entities i' fs' /\
    forall max now, exists b, OpenBinlogger (dir (r_binlogger r')) max now = Ret b /\ ReadAll b = (all_entities i' fs', Ret tt).
Proof.
  intros Hb Hr Hs. assert (Hk : kept s).
  { remember (NewMysqlSyncer (Some r)) as s0 eqn:E0.
    assert (H0 : kept s0) by (subst; intros r0 [= <-]; exists i, fs; split; [done|apply sublist_nil_l]).
    clear -H0 Hr. induction Hr as [|s0 s1 s2 Hs Hr IH]; [done|]. by eapply IH, kept_step. }
  destruct (Hk r' Hs) as (i' & fs' & Hb' & Hsub). exists i', fs'. pose proof (br_dir _ _ _ Hb') as Hd. split_and!; [done|done|].
  intros max now. destruct (OpenBinlogger_reopens _ _ _ max now Hd) as (b & Ho & _ & Hbr). exists b. split; [done|].
  apply (ReadAll_everything b i' fs' []); [apply Hbr|apply ends_nil].
Qed.

End Syncer.

(** ** A concrete run *)
Module MysqlSyncExamples.

Import BinlogExamples.

Abbreviation msyncer := (@msyncer (list byte)).
Abbreviation sync := (Sync (fun p : list byte => Ret p) (fun p : list byte => Ret p) now true).
Abbreviation step := (msync_step (fun p : list byte => Ret p) (fun p : list byte => Ret p)).

(** Every file holds one entry. *)
Definition log0 : relayer :=
  mkRelayer (default (mkBinlogger ∅ 0 "" 0 0 0 0) (match OpenBinlogger ∅ 10 now with Ret b => Some b | _ => None end)) 0.

Definition s0 : msyncer := NewMysqlSyncer (Some log0).
Definition s1 : msyncer := fst (sync [x01; x02] s0).
Definition s2 : msyncer := fst (sync [x03] s1).
Definition a : list byte * Pos := ([x01; x02], mkPos 0 18).
Definition b : list byte * Pos := ([x03], mkPos 1 17).
Definition report (x : list byte * Pos) (q : list (list byte * Pos)) (s : msyncer) : msyncer :=
  mkM (m_relayer s) q (Some x) false (m_success s) (m_result s) (m_base s) (m_stopped s).
(** The first item is reported, the second one is about to be. *)
Definition s3 : msyncer := handle_gc b (report b [] (handle_send a (handle_gc a (report a [b] s2)))).

Lemma small_relayed p (s : msyncer) : p <> [] -> len p + 4 <= maxAlloc ->
  match m_relayer s with Some r => lastSuffix (r_binlogger r) + 2 <=? 10 ^ 16 | None => true end = true -> relayed (fun p : list byte => Ret p) p s.
Proof. intros Hp Hl Hs r Hr. rewrite Hr in Hs. split; [lia|]. by intros data [= <-]. Qed.

Lemma run3 : rtc step s0 s3.
Proof.
  apply (rtc_l _ _ s1); [apply ms_sync; [reflexivity|reflexivity|apply now_ok|apply small_relayed; done]|].
  apply (rtc_l _ _ s2); [apply ms_sync; [reflexivity|reflexivity|apply now_ok|apply small_relayed; done]|].
  apply (rtc_l _ _ (report a [b] s2)); [apply (ms_report _ _ a [b]); vm_compute; reflexivity|].
  apply (rtc_l _ _ (handle_gc a (report a [b] s2))); [apply ms_collect; reflexivity|].
  apply (rtc_l _ _ (handle_send a (handle_gc a (report a [b] s2)))); [apply ms_success; reflexivity|].
  apply (rtc_l _ _ (report b [] (handle_send a (handle_gc a (report a [b] s2))))); [apply (ms_report _ _ b []); vm_compute; reflexivity|].
  apply (rtc_l _ _ s3); [apply ms_collect; reflexivity|apply rtc_refl].
Qed.

Definition log3 : relayer := default log0 (m_relayer s3).

Lemma log3_s3 : m_relayer s3 = Some log3.
Proof. vm_compute. reflexivity. Qed.

Lemma relay_holds_pending_witness : dir (r_binlogger log3) !! binlogNameWithDateTime 0 now = None /\
  exists i fs, drepr (dir (r_binlogger log3)) i fs [] /\ [mkEntity (mkPos 1 17) [x03]] `sublist_of` all_entities i fs.
Proof.
  split; [vm_compute; reflexivity|].
  destruct (OpenBinlogger_fresh 10 now now_ok) as (b0 & Ho & _ & Hb).
  assert (Hlog : r_binlogger log0 = b0) by (unfold log0; rewrite Ho; reflexivity). rewrite <- Hlog in Hb.
  destruct (relay_holds_pending (fun p : list byte => Ret p) (fun p : list byte => Ret p) log0 0
    [(binlogNameWithDateTime 0 now, [])] s3 log3 Hb run3 log3_s3) as (i & fs & Hd & Hs & _).
  exists i, fs. split; [exact Hd|exact Hs].
Defined.

End MysqlSyncExamples.
