(* ===== verification/Restart.v ===== *)
(** * Restart
    The start of drainer after an exit of any kind: which parts are created
    ([drainer/checkpoint/checkpoint.go], [drainer/syncer.go]), when the relay log is
    replayed ([drainer/relay.go], [drainer/server.go]), the safe mode of the first
    minutes ([drainer/syncer.go]), and what replaying transactions does to the
    downstream. *)
From Stdlib Require Import Init.Byte SpecFloat.
From stdpp Require Import base option list gmap strings sorting.
From S2P Require Import Prelude Checkpoint LoaderModel LoaderMerge LoaderBatch LoaderExec Syncer LoaderRetry LoaderRun DrainerConfig.

(** ** The parts *)

(** The kinds of checkpoint that [NewCheckPoint] creates. *)
Inductive cp_kind := CpMysql | CpFile.

Definition NewCheckPoint (cfg : checkpoint_Config) : outcome cp_kind :=
  if bool_decide (cp_CheckpointType cfg = "mysql"%string \/ cp_CheckpointType cfg = "tidb"%string) then Ret CpMysql
  else if bool_decide (cp_CheckpointType cfg = "file"%string) then Ret CpFile
  else Fail (Err ("unsupported checkpoint type " +:+ cp_CheckpointType cfg)).

(** [setDefaultConfig] of the checkpoint, and the table. *)
Definition setDefaultConfig (db : option checkpoint_DB) (schema tbl : string) : checkpoint_DB * string * string :=
  let db := default (mkCpDB "" "" "" 0) db in
  (mkCpDB (AdjustString (cp_Host db) "127.0.0.1") (AdjustString (cp_User db) "root") (cp_Password db) (AdjustInt (cp_Port db) 3306),
   AdjustString schema "tidb_binlog", AdjustString tbl "checkpoint").

(** The syncers that [createDSyncer] creates; the one for MySQL with the directory of its relay log. *)
Inductive dsyncer := DKafka | DFile (dir : string) | DMysql (relay : option string) | DIntercept.

Definition createDSyncer (cfg : SyncerConfig) : outcome dsyncer :=
  let dest := sc_DestDBType cfg in
  if bool_decide (dest = "kafka"%string) then Ret DKafka
  else if bool_decide (dest = "file"%string) then
    match sc_To cfg with Some to => Ret (DFile (to_BinlogFileDir to)) | None => Panic end
  else if bool_decide (dest = "mysql"%string \/ dest = "tidb"%string) then
    match sc_To cfg with Some _ => Ret (DMysql (if IsEnabled cfg then Some (sc_RelayLogDir cfg) else None)) | None => Panic end
  else if bool_decide (dest = "_intercept"%string) then Ret DIntercept
  else Fail (Err ("unknown DestDBType: " +:+ dest)).

(** [SetSafeMode] of the syncers: whether it has an effect. *)
Definition has_safe_mode (d : dsyncer) : bool := match d with DMysql _ => true | _ => false end.

(** [enableSafeModeInitializationPhase]: the mode, [elapsed] nanoseconds later, when the syncer was
    shut down at a time, if it was. *)
Definition safe_mode (d : dsyncer) (cfg_SafeMode : bool) (shutdown : option Z) (elapsed : Z) : bool :=
  has_safe_mode d &&
  (if elapsed <? 5 * Minute then true
   else match shutdown with Some t => if t <? 5 * Minute then true else cfg_SafeMode | None => cfg_SafeMode end).

(** ** When the relay log is replayed *)
Section Feed.
(** The checkpoint of a configuration and whether it is consistent; the replay itself. *)
Context (cluster_checkpoint : checkpoint_Config -> outcome bool) (feed : Config -> outcome unit).

Definition feedByRelayLogIfNeed (cfg : Config) : outcome unit :=
  if negb (IsEnabled (c_SyncerCfg cfg)) then Ret tt
  else
    let! cpCfg := GenCheckPointCfg cfg 0 in
    let! _ := NewCheckPoint cpCfg in
    let! consistent := cluster_checkpoint cpCfg in
    if consistent : bool then Ret tt else feed cfg.

(** The first steps of [NewServer], with the result of connecting to PD: without PD the relay
    log is replayed, and there is no server. *)
Definition connect_pd (pd : outcome unit) (cfg : Config) : outcome unit :=
  match pd with
  | Fail err =>
    match feedByRelayLogIfNeed cfg with
    | Fail ferr => if bool_decide (ferr = ErrNoCheckpointItem) then Fail err else Fail ferr
    | Ret _ => Fail err
    | Panic => Panic
    end
  | r => r
  end.
End Feed.

(** ** What a crash may leave *)

(** The DMLs of the transactions up to a timestamp, and after it. *)
Definition dmls_upto (cp : Z) (txns : list (Z * list DML)) : list DML := concat (filter (fun t => t.1 <= cp) txns).*2.
Definition dmls_after (cp : Z) (txns : list (Z * list DML)) : list DML := concat (filter (fun t => cp < t.1) txns).*2.

(** What the downstream may look like that was left with checkpoint [cp]: as after the
    transactions up to it, but for rows that later transactions write. *)
Definition recoverable (d0 : db) (txns : list (Z * list DML)) (cp : Z) (d : db) : Prop :=
  forall name k, rows d name k = rows (apply_db (dmls_upto cp txns) d0) name k \/ k ∈ table_keys name (dmls_after cp txns).

Lemma after_all (txns : list (Z * list DML)) cp ts : Forall (fun t => ts < t) txns.*1 -> cp <= ts ->
  filter (fun t => t.1 <= cp) txns = [] /\ filter (fun t => cp < t.1) txns = txns.
Proof.
  intros Hall Hle. induction txns as [|t txns IH]; [done|]. cbn [fmap list_fmap] in Hall. apply Forall_cons_iff in Hall as [Ht Hall].
  destruct (IH Hall) as [H1 H2]. rewrite filter_cons_False, (filter_cons_True (fun t => cp < t.1)) by lia. by rewrite H1, H2.
Qed.

(** The transactions after a checkpoint are those up to a later one and those after it. *)
Lemma split_after cp cp' txns : StronglySorted Z.lt txns.*1 -> cp <= cp' ->
  exists mid, dmls_upto cp' txns = dmls_upto cp txns ++ mid /\ dmls_after cp txns = mid ++ dmls_after cp' txns.
Proof.
  intros Hs Hle. unfold dmls_upto, dmls_after. induction txns as [|[ts dmls] txns IH]; [by exists []|].
  cbn [fmap list_fmap fst] in Hs. apply StronglySorted_inv in Hs as [Hs Hall]. destruct (IH Hs) as (mid & H1 & H2).
  destruct (decide (ts <= cp)) as [Hc|Hc].
  - exists mid. rewrite !(filter_cons_True (fun t => t.1 <= _)), !filter_cons_False by (cbn; lia). cbn [fmap list_fmap snd concat].
    by rewrite H1, app_assoc.
  - destruct (after_all txns cp ts Hall) as [H3 H4]; [lia|]. rewrite (filter_cons_False (fun t => t.1 <= cp)), (filter_cons_True (fun t => cp < t.1)) by (cbn; lia).
    rewrite H3, H4 in *. cbn [fmap list_fmap snd concat app] in *. destruct (decide (ts <= cp')) as [Hc'|Hc'].
    + exists (dmls ++ mid). rewrite filter_cons_True, filter_cons_False by (cbn; lia). cbn [fmap list_fmap snd concat]. by rewrite H1, H2, app_assoc.
    + destruct (after_all txns cp' ts Hall) as [H5 H6]; [lia|]. exists []. rewrite filter_cons_False, filter_cons_True by (cbn; lia). by rewrite H5, H6.
Qed.

Lemma upto_after cp txns : StronglySorted Z.lt txns.*1 -> concat txns.*2 = dmls_upto cp txns ++ dmls_after cp txns.
Proof.
  unfold dmls_upto, dmls_after. induction txns as [|[ts dmls] txns IH]; [done|]. cbn [fmap list_fmap fst snd concat]. intros [Hs Hall]%StronglySorted_inv.
  destruct (decide (ts <= cp)) as [Hc|Hc].
  - rewrite filter_cons_True, filter_cons_False by (cbn; lia). cbn [fmap list_fmap snd concat]. by rewrite IH, app_assoc.
  - destruct (after_all txns cp ts Hall) as [H3 H4]; [lia|]. rewrite filter_cons_False, filter_cons_True by (cbn; lia). by rewrite H3, H4.
Qed.

(** Executing the transactions up to a later checkpoint and any part of the others. *)
Lemma recoverable_move d0 txns cp cp' mid extra rest d d' :
  dmls_upto cp' txns = dmls_upto cp txns ++ mid -> dmls_after cp txns = mid ++ dmls_after cp' txns -> dmls_after cp' txns = extra ++ rest ->
  recoverable d0 txns cp d -> touched rest (apply_db (mid ++ extra) d) d' -> recoverable d0 txns cp' d'.
Proof.
  intros Hu Ha Hx Hr Ht name k. destruct (decide (k ∈ table_keys name (dmls_after cp' txns))) as [|Hk]; [by right|left].
  pose proof Hk as Hk'. rewrite Hx, table_keys_app, not_elem_of_app in Hk'. destruct Hk' as [Hke Hkr].
  rewrite (Ht name k Hkr), Hu, !apply_db_app, (apply_db_unwritten extra) by done. rewrite !(rows_apply_db mid).
  apply apply_rows_agree. destruct (Hr name k) as [?|Hin]; [by right|]. rewrite Ha, table_keys_app in Hin. apply elem_of_app in Hin as [?|?]; [by left|done].
Qed.

(** ** Replaying *)
Section Replay.
Context (fmt_float : Z -> spec_float -> string).
Context (order : gmap string DML -> list string) (Horder : forall m : gmap string DML, order m ≡ₚ (map_to_list m).*1).
Context (schedule : list (list DML) -> list (list DML)) (Hschedule : forall l, schedule l ≡ₚ l).
Context (workers_order tables_order : list (list DML) -> list (list DML)).
Context (Hworkers : forall l, workers_order l ≡ₚ l) (Htables : forall l, tables_order l ≡ₚ l).
Context (fate : nat -> tx_fate) (fetch : nat -> string -> string -> outcome tableInfo) (canceled : nat -> bool).
Context (GetSQLErrCode : error -> option Z) (ErrColumnNotExists : Z).
Context (l_batchSize l_workerCount : nat) (l_info : option LoopBackSync) (l_mode : SyncMode) (l_merge : bool).
Context (Hbatch : (0 < l_batchSize)%nat) (Hcount : (0 < l_workerCount)%nat) (Hmode : l_mode <> SyncPartialColumn).
Context (pk : string -> indexInfo).
#[local] Set Default Proof Using "Type*".

(** The loader executes batches of prepared DMLs, one after the other, in the safe mode or not, and
    stops at the first error. *)
Fixpoint load_all (safe : bool) (batches : list (list DML)) (s : st) : st * outcome unit :=
  match batches with
  | [] => (s, Ret tt)
  | dmls :: batches =>
    match exec_groups fmt_float order schedule workers_order tables_order fate fetch canceled GetSQLErrCode ErrColumnNotExists
            l_batchSize l_workerCount l_info l_mode l_merge true safe dmls s with
    | (s, Ret _) => load_all safe batches s
    | r => r
    end
  end.

(** What merging needs of the DMLs of a batch. *)
Definition batch_ok (dmls : list DML) : Prop := l_merge = true -> forall tbl, mergeable fmt_float (filter (fun d => TableName d = tbl) dmls).

Lemma load_all_effect batches : forall s s' r, Forall (keyed pk) (concat batches) -> Forall batch_ok batches ->
  load_all true batches s = (s', r) ->
  (r = Ret tt -> s_db s' ≡ apply_db (concat batches) (s_db s)) /\
  exists done rest, batches = done ++ rest /\ touched (concat rest) (apply_db (concat done) (s_db s)) (s_db s').
Proof.
  induction batches as [|dmls batches IH]; intros s s' r Hk Hm Hl; cbn [load_all concat] in *.
  { injection Hl as <- <-. split; [done|]. by exists [], []. }
  apply Forall_app in Hk as [Hd Hk]. apply Forall_cons_iff in Hm as [Hmd Hm].
  destruct (exec_groups _ _ _ _ _ _ _ _ _ _ _ _ _ _ _ _ _ dmls s) as [s1 r1] eqn:E.
  apply (exec_groups_spec fmt_float order Horder schedule Hschedule workers_order tables_order Hworkers Htables fate fetch canceled
    GetSQLErrCode ErrColumnNotExists l_batchSize l_workerCount l_info l_mode Hbatch Hcount Hmode pk l_merge) in E as [H1 Ht]; [|done|done].
  assert (Hpart : r1 <> Ret tt -> s' = s1 -> exists done rest, dmls :: batches = done ++ rest /\
    touched (concat rest) (apply_db (concat done) (s_db s)) (s_db s')).
  { intros _ ->. exists [], (dmls :: batches). split; [done|]. cbn [concat]. intros name k Hk'. apply Ht.
    rewrite table_keys_app, not_elem_of_app in Hk'. by destruct Hk'. }
  destruct r1 as [[]|e|].
  - destruct (IH _ _ _ Hk Hm Hl) as [H2 (don & rest & -> & Htd)]. split.
    + intros Hr. by rewrite (H2 Hr), (H1 eq_refl), apply_db_app.
    + exists (dmls :: don), rest. split; [done|]. cbn [concat]. intros name k Hk'. rewrite (Htd name k Hk'), apply_db_app.
      exact (apply_db_proper (concat don) _ _ (H1 eq_refl) name k).
  - injection Hl as <- <-. split; [done|]. by apply Hpart.
  - injection Hl as <- <-. split; [done|]. by apply Hpart.
Qed.

End Replay.

(** ** The parts of a configuration *)

(** A configuration that was adjusted, for a downstream that drainer supports, gives all
    the parts: the checkpoint and the syncer are created without an error about their
    kind, the checkpoint is kept in the downstream exactly if the syncer writes to a
    database, such a syncer starts in safe mode and no other has one, and the relay log
    is used exactly if it has a directory. *)
Theorem parts_created Getenv Decrypt KafkaUrls time_ParseDuration ToLower DefaultListenAddr cfg cfg' id :
  adjustConfig Getenv Decrypt KafkaUrls time_ParseDuration ToLower DefaultListenAddr cfg = Ret cfg' ->
  cc_Type (to_Checkpoint (to_of cfg)) = ""%string -> destination cfg ∈ ["mysql"; "tidb"; "file"; "kafka"]%string ->
  exists cp kind d, GenCheckPointCfg cfg' id = Ret cp /\ NewCheckPoint cp = Ret kind /\ createDSyncer (c_SyncerCfg cfg') = Ret d /\
    (kind = CpMysql <-> has_safe_mode d = true) /\
    (forall conf_mode shutdown elapsed, elapsed < 5 * Minute -> safe_mode d conf_mode shutdown elapsed = has_safe_mode d) /\
    (forall dir, d = DMysql (Some dir) -> dir <> ""%string /\ sc_RelayLogDir (c_SyncerCfg cfg) = dir).
Proof.
  intros H Htp Hd. destruct (checkpoint_configured _ _ _ _ _ _ _ _ id H Htp Hd) as (cp & Hcp & _ & Hif).
  unfold adjustConfig in H. fold (destination cfg) (to_of cfg) in H.
  apply obind_Ret_inv in H as (to1 & _ & H). apply obind_Ret_inv in H as (to2 & _ & H). injection H as H.
  assert (Hs : sc_DestDBType (c_SyncerCfg cfg') = destination cfg /\ sc_To (c_SyncerCfg cfg') = Some to2 /\ sc_RelayLogDir (c_SyncerCfg cfg') = sc_RelayLogDir (c_SyncerCfg cfg)) by (by subst cfg').
  destruct Hs as (Hdest & Hto & Hlog). clear H. unfold createDSyncer. rewrite Hdest, Hto.
  assert (Hmode : forall d conf_mode shutdown elapsed, elapsed < 5 * Minute -> safe_mode d conf_mode shutdown elapsed = has_safe_mode d).
  { intros d cm sd el Hel. unfold safe_mode. rewrite (proj2 (Z.ltb_lt el (5 * Minute)) Hel). apply andb_true_r. }
  assert (Hrel : forall dir, DMysql (if IsEnabled (c_SyncerCfg cfg') then Some (sc_RelayLogDir (c_SyncerCfg cfg')) else None) = DMysql (Some dir) ->
    dir <> ""%string /\ sc_RelayLogDir (c_SyncerCfg cfg) = dir).
  { intros dir Heq. unfold IsEnabled in Heq. rewrite Hlog in Heq. case_bool_decide as He; [done|]. cbn in Heq. by injection Heq as <-. }
  repeat (apply elem_of_cons in Hd as [Hd|Hd]); [..|by apply elem_of_nil in Hd]; rewrite Hd in *; eval_decides.
  - destruct Hif as [Ht _]. exists cp, CpMysql. eexists. split; [done|]. unfold NewCheckPoint. rewrite Ht. eval_decides. split_and!; [done|done|done|apply Hmode|done].
  - destruct Hif as [Ht _]. exists cp, CpMysql. eexists. split; [done|]. unfold NewCheckPoint. rewrite Ht. eval_decides. split_and!; [done|done|done|apply Hmode|done].
  - destruct Hif as [Ht _]. exists cp, CpFile. eexists. split; [done|]. unfold NewCheckPoint. rewrite Ht. eval_decides. split_and!; [done|done|done|apply Hmode|done].
  - destruct Hif as [Ht _]. exists cp, CpFile. eexists. split; [done|]. unfold NewCheckPoint. rewrite Ht. eval_decides. split_and!; [done|done|done|apply Hmode|done].
Qed.

(** ** A concrete restart *)
Module RestartExamples.

Import MergeExamples RetryExamples RunExamples.

(** Row 1 is inserted at time 5; row 1 is renumbered to 2 at time 7. *)
Definition txns : list (Z * list DML) :=
  [(5, [dml InsertDMLType ∅ (int_row 1 "a")]); (7, [dml UpdateDMLType (int_row 1 "a") (int_row 2 "a")])].

Definition empty_db : db := mkDB (fun _ _ => None) ∅.
(** Both were executed, the checkpoint is before them. *)
Definition crashed : st := mkSt (apply_db (concat txns.*2) empty_db) 0 ∅ 0.

Lemma crashed_recoverable : recoverable empty_db txns 4 (s_db crashed).
Proof.
  intros name k. cbn [s_db crashed]. destruct (decide (k ∈ table_keys name (dmls_after 4 txns))) as [|Hk]; [by right|left].
  rewrite !rows_apply_db. change (dmls_upto 4 txns) with (@nil DML). cbn [filter list_filter apply_rows foldl].
  by apply apply_rows_unwritten.
Qed.

(** The transactions are merged by table; the answer of the first is lost, the second one fails. *)
Abbreviation replay := (load_all no_float keys_in_order (fun l => l) (fun l => l) (fun l => l) fates no_fetch never no_code 1054 10 4 None
  SyncFullColumn true true txns.*2 crashed).

Lemma txns_keyed : Forall (keyed pk_id) (concat txns.*2).
Proof. repeat (apply List.Forall_cons; [apply int_keyed; [done|eauto]|]). apply List.Forall_nil. Qed.

Lemma txns_mergeable : Forall (batch_ok no_float true) txns.*2.
Proof.
  assert (Hb : Forall (fun b => Forall (fun d => TableName d = quoteSchema "d" "t") b /\ mergeable no_float b) txns.*2).
  { repeat (apply List.Forall_cons; [split; [by repeat constructor|split; [by repeat constructor|apply printed_distinct_check; vm_compute; reflexivity]]|]).
    apply List.Forall_nil. }
  eapply Forall_impl; [exact Hb|]. intros b [Ht Hm] _ tbl. rewrite (filter_table tbl b _ Ht). case_decide; [done|].
  split; [constructor|]. by intros d d' k k' ?%not_elem_of_nil.
Qed.


Import ConfigExamples.

Lemma parts_created_witness : exists cp kind d, GenCheckPointCfg mysql_adjusted 7 = Ret cp /\ NewCheckPoint cp = Ret kind /\
  createDSyncer (c_SyncerCfg mysql_adjusted) = Ret d.
Proof.
  destruct (parts_created no_env decrypt no_zk no_duration id listen (cfg "mysql" (Some (to_secret ""))) mysql_adjusted 7
    adjust_mysql_example eq_refl (list_elem_of_here _ _)) as (cp & kind & d & H1 & H2 & H3 & _).
  exists cp, kind, d. split; [exact H1|]. split; [exact H2|exact H3].
Defined.

End RestartExamples.
