(* ===== verification/Encrypt.v ===== *)
(** * Encrypt
    Passwords of the configuration ([pkg/encrypt/encrypt.go]): the secret key, CFB over an
    arbitrary block cipher, the format of the ciphertext and its base64 text. *)
From Stdlib Require Import Init.Byte.
From stdpp Require Import base option list strings.
From S2P Require Import Prelude.

(** ** Text encodings *)

(** [base64.StdEncoding] *)
Definition b64_char (v : Z) : byte :=
  byte_of_Z (if v <? 26 then 65 + v else if v <? 52 then 97 + (v - 26) else if v <? 62 then 48 + (v - 52) else if v =? 62 then 43 else 47).

Definition b64_value (c : byte) : option Z :=
  let z := byte_to_Z c in
  if (65 <=? z) && (z <? 91) then Some (z - 65)
  else if (97 <=? z) && (z <? 123) then Some (z - 97 + 26)
  else if (48 <=? z) && (z <? 58) then Some (z - 48 + 52)
  else if z =? 43 then Some 62 else if z =? 47 then Some 63 else None.

Definition b64_pad : byte := x3d.

Fixpoint EncodeToString (l : list byte) : list byte :=
  match l with
  | [] => []
  | [a] => let x := byte_to_Z a * 65536 in [b64_char (x / 262144); b64_char (x / 4096 mod 64); b64_pad; b64_pad]
  | [a; b] => let x := byte_to_Z a * 65536 + byte_to_Z b * 256 in
    [b64_char (x / 262144); b64_char (x / 4096 mod 64); b64_char (x / 64 mod 64); b64_pad]
  | a :: b :: c :: l => let x := byte_to_Z a * 65536 + byte_to_Z b * 256 + byte_to_Z c in
    [b64_char (x / 262144); b64_char (x / 4096 mod 64); b64_char (x / 64 mod 64); b64_char (x mod 64)] ++ EncodeToString l
  end.

Definition ErrCorrupt : error := Err "illegal base64 data".

(** The quanta of four characters; the last one may be padded. *)
Fixpoint decode_quanta (l : list byte) : outcome (list byte) :=
  match l with
  | [] => Ret []
  | c1 :: c2 :: c3 :: c4 :: l =>
    match b64_value c1, b64_value c2, b64_value c3, b64_value c4 with
    | Some v1, Some v2, Some v3, Some v4 =>
      let x := v1 * 262144 + v2 * 4096 + v3 * 64 + v4 in
      let! rest := decode_quanta l in
      Ret ([byte_of_Z (x / 65536); byte_of_Z (x / 256); byte_of_Z x] ++ rest)
    | Some v1, Some v2, Some v3, None =>
      if bool_decide (c4 = b64_pad /\ l = []) then
        let x := v1 * 262144 + v2 * 4096 + v3 * 64 in Ret [byte_of_Z (x / 65536); byte_of_Z (x / 256)]
      else Fail ErrCorrupt
    | Some v1, Some v2, None, _ =>
      if bool_decide (c3 = b64_pad /\ c4 = b64_pad /\ l = []) then
        let x := v1 * 262144 + v2 * 4096 in Ret [byte_of_Z (x / 65536)]
      else Fail ErrCorrupt
    | _, _, _, _ => Fail ErrCorrupt
    end
  | _ => Fail ErrCorrupt
  end.

(** [DecodeString] skips line breaks. *)
Definition DecodeString (l : list byte) : outcome (list byte) := decode_quanta (filter (fun c => c <> x0a /\ c <> x0d) l).

(** [hex.DecodeString] *)
Definition hex_value (c : byte) : option Z :=
  let z := byte_to_Z c in
  if (48 <=? z) && (z <? 58) then Some (z - 48)
  else if (97 <=? z) && (z <? 103) then Some (z - 97 + 10)
  else if (65 <=? z) && (z <? 71) then Some (z - 65 + 10) else None.

Fixpoint hex_DecodeString (l : list byte) : outcome (list byte) :=
  match l with
  | [] => Ret []
  | [_] => Fail (Err "encoding/hex: odd length hex string")
  | a :: b :: l =>
    match hex_value a, hex_value b with
    | Some x, Some y => let! rest := hex_DecodeString l in Ret (byte_of_Z (16 * x + y) :: rest)
    | _, _ => Fail (Err "encoding/hex: invalid byte")
    end
  end.

(** ** The secret key *)

Definition defaultSecretKey : list byte :=
  match hex_DecodeString (String.list_byte_of_string "a529b7665997f043a30ac8fadcb51d6aa032c226ab5b7750530b12b8c1a16a48") with Ret k => k | _ => [] end.

(** The package: [secretKey], and the result of [initSecretKeyOnce] once it was called. *)
Record package := mkPackage { secretKey : list byte; initSecretKeyErr : option (option error) }.

Definition fresh : package := mkPackage [] None.

Definition SetSecretKey (key : list byte) (p : package) : package * outcome unit :=
  if bool_decide (length key ∈ [16; 24; 32]%nat) then (mkPackage key (initSecretKeyErr p), Ret tt)
  else (p, Fail (Err "secretKey not valid")).

Section Encrypt.
(** The environment variable BINLOG_SECRET_KEY; the block cipher of a key, and the random bytes. *)
Context (hexKey : list byte) (aes : list byte -> list byte -> list byte).

Definition initSecretKey (p : package) : package * outcome unit :=
  match hexKey with
  | [] => (mkPackage defaultSecretKey (initSecretKeyErr p), Ret tt)
  | _ =>
    match hex_DecodeString hexKey with
    | Ret key => SetSecretKey key p
    | Fail e => (p, Fail e)
    | Panic => (p, Panic)
    end
  end.

(** [initSecretKeyOnce.Do]. *)
Definition init_once (p : package) : package :=
  match initSecretKeyErr p with
  | Some _ => p
  | None =>
    let '(p, r) := initSecretKey p in
    mkPackage (secretKey p) (Some (match r with Fail e => Some e | _ => None end))
  end.

(** [aes.NewCipher]: the key has 16, 24 or 32 bytes. *)
Definition NewCipher (key : list byte) : outcome (list byte -> list byte) :=
  if bool_decide (length key ∈ [16; 24; 32]%nat) then Ret (aes key) else Fail (Err "crypto/aes: invalid key size").

Definition BlockSize : nat := 16.
Definition ivSep : list byte := [x40].

Definition xor_bytes (a b : list byte) : list byte := zip_with (fun x y => byte_of_Z (Z.lxor (byte_to_Z x) (byte_to_Z y))) a b.

(** [cipher.NewCFBEncrypter] and [NewCFBDecrypter]: each block is XORed with the encryption of the
    ciphertext block before it; the fuel is the length of the text. *)
Fixpoint cfb_encrypt (fuel : nat) (block : list byte -> list byte) (next src : list byte) : list byte :=
  match fuel with
  | O => []
  | S fuel =>
    match src with
    | [] => []
    | _ => let dst := xor_bytes (take BlockSize src) (block next) in dst ++ cfb_encrypt fuel block dst (drop BlockSize src)
    end
  end.

Fixpoint cfb_decrypt (fuel : nat) (block : list byte -> list byte) (next src : list byte) : list byte :=
  match fuel with
  | O => []
  | S fuel =>
    match src with
    | [] => []
    | _ => xor_bytes (take BlockSize src) (block next) ++ cfb_decrypt fuel block (take BlockSize src) (drop BlockSize src)
    end
  end.

(** [encrypt], with the bytes that [genIV] reads. *)
Definition encrypt (genIV : outcome (list byte)) (plaintext : list byte) (p : package) : package * outcome (list byte) :=
  let p := init_once p in
  (p, match initSecretKeyErr p with
      | Some (Some e) => Fail e
      | _ =>
        let! block := NewCipher (secretKey p) in
        let! iv := genIV in
        Ret (iv ++ ivSep ++ cfb_encrypt (length plaintext) block iv plaintext)
      end).

Definition ErrCiphertext : error := Err "ciphertext not valid".

Definition decrypt (ciphertext : list byte) (p : package) : package * outcome (list byte) :=
  let p := init_once p in
  (p, match initSecretKeyErr p with
      | Some (Some e) => Fail e
      | _ =>
        let! block := NewCipher (secretKey p) in
        if (length ciphertext <? BlockSize + length ivSep)%nat then Fail ErrCiphertext
        else if negb (bool_decide (take (length ivSep) (drop BlockSize ciphertext) = ivSep)) then Fail ErrCiphertext
        else
          let iv := take BlockSize ciphertext in
          let ciphertext := drop (BlockSize + length ivSep) ciphertext in
          Ret (cfb_decrypt (length ciphertext) block iv ciphertext)
      end).

Definition Encrypt (genIV : outcome (list byte)) (plaintext : list byte) (p : package) : package * outcome (list byte) :=
  let '(p, r) := encrypt genIV plaintext p in (p, let! ciphertext := r in Ret (EncodeToString ciphertext)).

Definition Decrypt (ciphertextB64 : list byte) (p : package) : package * outcome (list byte) :=
  match DecodeString ciphertextB64 with
  | Ret ciphertext => decrypt ciphertext p
  | Fail e => (p, Fail e)
  | Panic => (p, Panic)
  end.

End Encrypt.

(** ** Round trips *)

Ltac Zify.zify_post_hook ::= Z.div_mod_to_equations.

Lemma b64_value_char v : 0 <= v < 64 -> b64_value (b64_char v) = Some v /\ b64_char v <> x0a /\ b64_char v <> x0d.
Proof.
  intros Hv. assert (H : forallb (fun n => bool_decide (b64_value (b64_char (Z.of_nat n)) = Some (Z.of_nat n) /\ b64_char (Z.of_nat n) <> x0a /\ b64_char (Z.of_nat n) <> x0d)) (seq 0 64) = true) by (vm_compute; reflexivity).
  rewrite forallb_forall in H. specialize (H (Z.to_nat v)). rewrite Z2Nat.id in H by lia.
  apply bool_decide_eq_true in H; [done|]. apply in_seq. lia.
Qed.

Lemma byte_of_Z_eq z b : z mod 256 = byte_to_Z b -> byte_of_Z z = b.
Proof. intros H. apply byte_to_Z_inj. by rewrite byte_to_of_Z. Qed.

Lemma three_ind {A} (P : list A -> Prop) : P [] -> (forall a, P [a]) -> (forall a b, P [a; b]) -> (forall a b c l, P l -> P (a :: b :: c :: l)) -> forall l, P l.
Proof.
  intros H0 H1 H2 H3 l. remember (length l) as n eqn:E. assert (Hn : (length l <= n)%nat) by lia. clear E. revert l Hn.
  induction n as [|n IH]; intros [|a [|b [|c l]]] Hn; auto; cbn in Hn; try lia. apply H3, IH. lia.
Qed.

(** The groups of six bits of 24 bits, and of fewer. *)
Lemma sextets x : 0 <= x < 16777216 ->
  (0 <= x / 262144 < 64 /\ 0 <= x / 4096 mod 64 < 64 /\ 0 <= x / 64 mod 64 < 64 /\ 0 <= x mod 64 < 64) /\
  x = x / 262144 * 262144 + x / 4096 mod 64 * 4096 + x / 64 mod 64 * 64 + x mod 64.
Proof.
  intros Hx. split.
  - split_and!; try (apply Z.mod_pos_bound; lia); [apply Z.div_pos; lia|apply Z.div_lt_upper_bound; lia|..]; apply Z.mod_pos_bound; lia.
  - replace (x / 262144) with (x / 64 / 64 / 64) by (rewrite !Z.div_div by lia; done).
    replace (x / 4096) with (x / 64 / 64) by (rewrite !Z.div_div by lia; done).
    pose proof (Z.div_mod x 64). pose proof (Z.div_mod (x / 64) 64). pose proof (Z.div_mod (x / 64 / 64) 64). lia.
Qed.

Ltac sextet x := let H := fresh "Hsx" in destruct (sextets x) as [(? & ? & ? & ?) H]; [lia|].

Definition no_break (c : byte) : Prop := c <> x0a /\ c <> x0d.
#[export] Instance no_break_dec c : Decision (no_break c).
Proof. unfold no_break. apply _. Defined.

Lemma char_plain v : 0 <= v < 64 -> no_break (b64_char v).
Proof. intros Hv. by destruct (b64_value_char v Hv) as (_ & ? & ?). Qed.

Lemma b64_plain l : Forall no_break (EncodeToString l).
Proof.
  induction l as [|a|a b|a b c l IH] using three_ind; cbn [EncodeToString app]; [constructor|..];
    pose proof (byte_to_Z_range a); try pose proof (byte_to_Z_range b); try pose proof (byte_to_Z_range c).
  - sextet (byte_to_Z a * 65536). repeat (apply Forall_cons; split); try by apply char_plain. all: done.
  - sextet (byte_to_Z a * 65536 + byte_to_Z b * 256). repeat (apply Forall_cons; split); try by apply char_plain. all: done.
  - sextet (byte_to_Z a * 65536 + byte_to_Z b * 256 + byte_to_Z c). repeat (apply Forall_cons; split); try by apply char_plain. done.
Qed.

(** Decoding takes an encoding apart. *)
Lemma decode_encode l : decode_quanta (EncodeToString l) = Ret l.
Proof.
  induction l as [|a|a b|a b c l IH] using three_ind; [done|..];
    pose proof (byte_to_Z_range a) as Ha; try pose proof (byte_to_Z_range b) as Hb; try pose proof (byte_to_Z_range c) as Hc; cbn [EncodeToString app decode_quanta].
  - sextet (byte_to_Z a * 65536). rewrite !(fun v H => proj1 (b64_value_char v H)) by done.
    change (b64_value b64_pad) with (@None Z). rewrite bool_decide_eq_true_2 by done. do 2 f_equal. apply byte_of_Z_eq.
    set (x := byte_to_Z a * 65536) in *. assert (x / 64 mod 64 = 0 /\ x mod 64 = 0) by (unfold x; lia).
    replace (x / 262144 * 262144 + x / 4096 mod 64 * 4096) with x by lia. unfold x. lia.
  - sextet (byte_to_Z a * 65536 + byte_to_Z b * 256). rewrite !(fun v H => proj1 (b64_value_char v H)) by done.
    change (b64_value b64_pad) with (@None Z). rewrite bool_decide_eq_true_2 by done. 
    set (x := byte_to_Z a * 65536 + byte_to_Z b * 256) in *. assert (x mod 64 = 0) by (unfold x; lia).
    replace (x / 262144 * 262144 + x / 4096 mod 64 * 4096 + x / 64 mod 64 * 64) with x by lia. unfold x. do 2 f_equal; [|f_equal]; apply byte_of_Z_eq; lia.
  - sextet (byte_to_Z a * 65536 + byte_to_Z b * 256 + byte_to_Z c). rewrite !(fun v H => proj1 (b64_value_char v H)) by done.
    rewrite IH, <- Hsx. cbn [obind app]. do 2 f_equal; [|f_equal; [|f_equal]]; apply byte_of_Z_eq; lia.
Qed.

Lemma base64_roundtrip l : DecodeString (EncodeToString l) = Ret l.
Proof.
  unfold DecodeString. rewrite <- (decode_encode l). f_equal. pose proof (b64_plain l) as Hp.
  induction Hp as [|c cs Hc Hp IH]; [done|]. rewrite filter_cons_True by done. by rewrite IH.
Qed.

Lemma lxor_u8 a b : 0 <= a < 256 -> 0 <= b < 256 -> 0 <= Z.lxor a b < 256.
Proof.
  intros Ha Hb. split; [by apply Z.lxor_nonneg; lia|]. destruct (decide (Z.lxor a b = 0)) as [->|Hne]; [lia|].
  assert (Hl : forall x, 0 <= x < 256 -> Z.log2 x < 8).
  { intros x Hx. destruct (decide (x = 0)) as [->|]; [done|]. apply Z.log2_lt_pow2; lia. }
  change 256 with (2 ^ 8). apply Z.log2_lt_pow2; [pose proof (proj2 (Z.lxor_nonneg a b)); lia|].
  pose proof (Z.log2_lxor a b). pose proof (Hl a). pose proof (Hl b). lia.
Qed.

Lemma xor_cancel a b : (length a <= length b)%nat -> xor_bytes (xor_bytes a b) b = a.
Proof.
  revert b. induction a as [|x a IH]; intros [|y b] Hl; [done|done|cbn in Hl; lia|]. cbn [length] in Hl. unfold xor_bytes in *. cbn [zip_with]. rewrite IH by lia. f_equal.
  rewrite byte_to_of_Z, Z.mod_small by (apply lxor_u8; apply byte_to_Z_range). by rewrite Z.lxor_assoc, Z.lxor_nilpotent, Z.lxor_0_r, byte_of_to_Z.
Qed.

Lemma length_xor a b : (length a <= length b)%nat -> length (xor_bytes a b) = length a.
Proof. intros Hl. unfold xor_bytes. rewrite length_zip_with. lia. Qed.

Section RoundTrip.
Context (block : list byte -> list byte) (Hblock : forall x, length (block x) = BlockSize).

Lemma cfb_length fuel : forall next src, (length src <= fuel)%nat -> length (cfb_encrypt fuel block next src) = length src.
Proof using Hblock.
  induction fuel as [|fuel IH]; intros next src Hf; [by destruct src; cbn in *; lia|]. cbn [cfb_encrypt]. destruct src as [|x src]; [done|].
  assert (Ht : (length (take BlockSize (x :: src)) <= length (block next))%nat) by (rewrite length_take, Hblock; lia).
  rewrite length_app, IH, length_xor by (done || rewrite length_drop; cbn in *; lia). by rewrite <- length_app, take_drop.
Qed.

Lemma cfb_roundtrip fuel : forall next src fuel', (length src <= fuel)%nat -> (length src <= fuel')%nat ->
  cfb_decrypt fuel' block next (cfb_encrypt fuel block next src) = src.
Proof using Hblock.
  induction fuel as [|fuel IH]; intros next src fuel' Hf Hf'; [destruct src; cbn in *; [by destruct fuel'|lia]|].
  cbn [cfb_encrypt]. destruct src as [|x src]; [by destruct fuel'|]. set (all := x :: src) in *.
  set (dst := xor_bytes (take BlockSize all) (block next)).
  assert (Hd : length dst = (BlockSize `min` length all)%nat) by (unfold dst; rewrite length_xor, length_take; [done|rewrite length_take, Hblock; lia]).
  destruct fuel' as [|fuel']; [cbn in Hf'; lia|]. cbn [cfb_decrypt].
  assert (Hne : exists y l, dst ++ cfb_encrypt fuel block dst (drop BlockSize all) = y :: l) by (destruct dst; [cbn in Hd; lia|by eexists _, _]).
  destruct Hne as (y & l & Hne). rewrite Hne. rewrite <- Hne. clear y l Hne.
  destruct (decide (length all <= BlockSize)%nat) as [Hle|Hgt].
  - assert (Hdrop : drop BlockSize all = []) by (by apply drop_ge). rewrite Hdrop. assert (Hnil : cfb_encrypt fuel block dst [] = []) by (by destruct fuel).
    rewrite Hnil, app_nil_r, take_ge, drop_ge by lia. replace (cfb_decrypt fuel' block dst []) with (@nil byte) by (by destruct fuel').
    rewrite app_nil_r. unfold dst. rewrite xor_cancel by (rewrite length_take, Hblock; lia). by apply take_ge.
  - rewrite take_app_length', drop_app_length' by lia. rewrite IH by (rewrite length_drop; cbn in *; unfold BlockSize in *; lia).
    unfold dst. rewrite xor_cancel by (rewrite length_take, Hblock; lia). apply take_drop.
Qed.
End RoundTrip.

Lemma init_once_idem hexKey p : init_once hexKey (init_once hexKey p) = init_once hexKey p.
Proof.
  unfold init_once at 2 3. destruct (initSecretKeyErr p) as [e|] eqn:E; [unfold init_once; by rewrite E|].
  by destruct (initSecretKey hexKey p) as [q r].
Qed.

(** The parts of a ciphertext. *)
Lemma ciphertext_parts iv body : length iv = BlockSize ->
  let c := iv ++ ivSep ++ body in
  (length c <? BlockSize + length ivSep)%nat = false /\ take (length ivSep) (drop BlockSize c) = ivSep /\
  take BlockSize c = iv /\ drop (BlockSize + length ivSep) c = body.
Proof.
  intros Hiv c. unfold c. split_and!.
  - apply Nat.ltb_ge. rewrite !length_app, Hiv. lia.
  - by rewrite (drop_app_length' iv), take_app_length'.
  - by rewrite take_app_length'.
  - rewrite (app_assoc iv ivSep), drop_app_length'; [done|]. by rewrite length_app, Hiv.
Qed.

(** C40: A password that was encrypted is decrypted again: for every block cipher, key from the
    environment, initialization vector and text, [Decrypt] of what [Encrypt] returns gives
    the text, and leaves the package as it was. *)
Theorem Decrypt_Encrypt hexKey aes iv plaintext p p1 text :
  (forall key x, length (aes key x) = BlockSize) -> length iv = BlockSize ->
  Encrypt hexKey aes (Ret iv) plaintext p = (p1, Ret text) -> Decrypt hexKey aes text p1 = (p1, Ret plaintext).
Proof.
  intros Haes Hiv H. unfold Encrypt, encrypt in H. injection H as <- H. apply obind_Ret_inv in H as (c & Hc & [= <-]).
  unfold Decrypt. rewrite base64_roundtrip. unfold decrypt. rewrite init_once_idem. f_equal.
  assert (Hc' : exists block, NewCipher aes (secretKey (init_once hexKey p)) = Ret block /\ c = iv ++ ivSep ++ cfb_encrypt (length plaintext) block iv plaintext)
    by (destruct (initSecretKeyErr (init_once hexKey p)) as [[e|]|]; [done|..]; apply obind_Ret_inv in Hc as (block & Hb & [= <-]); by exists block).
  destruct Hc' as (block & Hb & ->).
  assert (Hbl : forall x, length (block x) = BlockSize) by (unfold NewCipher in Hb; case_bool_decide; [by injection Hb as <-|done]).
  destruct (ciphertext_parts iv (cfb_encrypt (length plaintext) block iv plaintext) Hiv) as (H1 & H2 & H3 & H4).
  rewrite Hb. cbn [obind]. rewrite H1, H2, H3, H4, bool_decide_eq_true_2 by done. cbn [negb].
  rewrite cfb_roundtrip by (done || rewrite cfb_length; done).
  by destruct (initSecretKeyErr (init_once hexKey p)) as [[e|]|].
Qed.

(** Without a key in the environment encryption always works. *)
Lemma Encrypt_default aes iv plaintext : exists p text, Encrypt [] aes (Ret iv) plaintext fresh = (p, Ret text).
Proof. unfold Encrypt, encrypt, init_once, initSecretKey. cbn. eexists _, _. reflexivity. Qed.

(** ** Concrete texts *)
Module EncryptExamples.

(** A toy cipher: the key, cut to the size of a block. *)
Definition toy (key x : list byte) : list byte := take BlockSize (key ++ replicate BlockSize x00).
Definition iv : list byte := replicate BlockSize x2a.
Definition secret : list byte := String.list_byte_of_string "a password of more than one block".
Definition encrypted : package * outcome (list byte) := Encrypt [] toy (Ret iv) secret fresh.

Lemma Decrypt_Encrypt_witness : exists p text, encrypted = (p, Ret text) /\ Decrypt [] toy text p = (p, Ret secret).
Proof.
  destruct (Encrypt_default toy iv secret) as (p & text & H). exists p, text. split; [exact H|].
  apply (Decrypt_Encrypt [] toy iv secret fresh p text); [|reflexivity|exact H].
  intros key x. unfold toy. rewrite length_take, length_app, length_replicate. unfold BlockSize. lia.
Defined.

(** A key that is set before the first use does not survive it. *)
Theorem SetSecretKey_forgotten : let p := fst (SetSecretKey (replicate 16 x01) fresh) in
  secretKey p = replicate 16 x01 /\ secretKey (fst (Encrypt [] toy (Ret iv) secret p)) = defaultSecretKey /\ defaultSecretKey <> replicate 16 x01.
Proof. split_and!; [reflexivity|reflexivity|vm_compute; discriminate]. Qed.

End EncryptExamples.
