(* ===== verification/PumpNode.v ===== *)
(** * PumpNode
    The node of a pump ([pump/node.go]) and how it joins the cluster
    ([pump/server.go], [drainer/server.go], [drainer/collector.go]): the id that
    is kept in the data directory, the state that is taken over from the registry, and
    the notification of the drainers, which must know a new pump before it takes
    binlogs. *)
From Stdlib Require Import Init.Byte Ascii.
From stdpp Require Import base option list gmap strings.
From S2P Require Import Prelude Text Binlog Retry Registry Schema MergeStrategy Merger PumpClient Collector PumpServer.

(** ** The id of the node *)

(** The file [.node] of the data directory: missing, a directory, not to be examined or
    to be read, or a text. *)
Inductive node_file := NMissing | NDir | NStatErr (e : error) | NReadErr (e : error) | NText (text : string).

(** How writing the file ends: not at all when it cannot be opened, after some bytes. *)
Inductive write_end := WDone | WNotOpened (e : error) | WCut (e : error) (k : nat).

(** The data directory, with how the next operations on it end; [dd_locked] says that
    another process holds the lock. *)
Record datadir := mkDir {
  dd_locked : bool;
  dd_node : node_file;
  dd_mkdir : option error;
  dd_write : write_end;
}.

(** The errors of [readLocalNodeID]. *)
Inductive local_error := NodeNotFound | NodeUnreadable (e : error).

Definition readLocalNodeID (d : datadir) : local_error + string :=
  match dd_node d with
  | NMissing => inl NodeNotFound
  | NStatErr e => inl (NodeUnreadable e)
  | NDir => inl (NodeUnreadable (Err "Local nodeID path is a directory"))
  | NReadErr e => inl (NodeUnreadable e)
  | NText data => inr (FormatNodeID data)
  end.

Definition mkdirAll (d : datadir) : outcome unit := match dd_mkdir d with Some e => Fail e | None => Ret tt end.

(** [os.WriteFile] of the node id, which is not atomic. *)
Definition write_node (text : string) (d : datadir) : datadir * outcome unit :=
  let put f := mkDir (dd_locked d) f (dd_mkdir d) (dd_write d) in
  match dd_write d with
  | WDone => (put (NText text), Ret tt)
  | WNotOpened e => (d, Fail e)
  | WCut e k => (put (NText (String.substring 0 k text)), Fail e)
  end.

(** [checkExclusive]. *)
Definition checkExclusive (d : datadir) : outcome unit :=
  let! _ := mkdirAll d in
  if dd_locked d then Fail (Err "fail to lock file") else Ret tt.

Section NewNode.
Context `{!StatusCodec}.
(** [url.Parse(addr).Host], the port of [net.SplitHostPort], and [os.Hostname]. *)
Context (url_Host split_port : string -> outcome string) (hostname : outcome string).

Definition generateLocalNodeID (listenAddr : string) (d : datadir) : datadir * outcome string :=
  match (let! _ := mkdirAll d in
         let! host := url_Host listenAddr in
         let! port := split_port host in
         let! name := hostname in Ret (name +:+ ":" +:+ port)) with
  | Ret id =>
    let '(d, r) := write_node (FormatNodeID id) d in
    (d, let! _ := r in Ret id)
  | Fail e => (d, Fail e)
  | Panic => (d, Panic)
  end.

(** The fields of [pump.Config] that are used. *)
Record pump_config := mkPumpConfig { pc_NodeID : string; pc_ListenAddr : string; pc_AdvertiseAddr : string }.

(** The choice of the id in [NewPumpNode]. *)
Definition local_node_id (cfg : pump_config) (d : datadir) : datadir * outcome string :=
  match readLocalNodeID d with
  | inr nodeID => (d, Ret nodeID)
  | inl err =>
    if bool_decide (pc_NodeID cfg <> ""%string) then (d, Ret (pc_NodeID cfg))
    else match err with
    | NodeNotFound => generateLocalNodeID (pc_ListenAddr cfg) d
    | NodeUnreadable e => (d, Fail e)
    end
  end.

(** [NewPumpNode]; [client] is the result of making the client of etcd, and the status
    of the node is its result. The text of an error that is not [NotFoundf] is taken not
    to contain "in etcd not found". *)
Definition NewPumpNode (cfg : pump_config) (client : outcome unit) (d : datadir) (e : etcd) : datadir * etcd * outcome Status :=
  match (let! _ := checkExclusive d in client) with
  | Fail err => (d, e, Fail err)
  | Panic => (d, e, Panic)
  | Ret _ =>
    match local_node_id cfg d with
    | (d, Fail err) => (d, e, Fail err)
    | (d, Panic) => (d, e, Panic)
    | (d, Ret nodeID) =>
      match url_Host (pc_AdvertiseAddr cfg) with
      | Fail err => (d, e, Fail err)
      | Panic => (d, e, Panic)
      | Ret host =>
        let '(e, r) := registry_Node "pumps" nodeID e in
        match r with
        | inl (NotFoundf _) | inr None => (d, e, Ret (mkStatus nodeID host Offline true 0 0 0))
        | inl _ => (d, e, Fail (Err "fail to get previous node status"))
        | inr (Some previous) => (d, e, Ret (mkStatus nodeID host (State previous) true 0 0 0))
        end
      end
    end
  end.

Definition shortIDLen : nat := 8.
Definition ShortID (t : Status) : string :=
  if (String.length (NodeID t) <=? shortIDLen)%nat then NodeID t else String.substring 0 shortIDLen (NodeID t).
End NewNode.

(** ** Notifying the drainers *)

Section Join.
Context `{!StatusCodec}.
Context {S : Type} `{MS : !MergeStrategy (binlogItem Job) S}.
Variable order : gmap string Node -> list (string * Node).

(** What happens to a call of a drainer's [Notify]: it is not delivered, it is handled and
    answered, or it is handled and the answer is lost. The drainer asks PD for a timestamp. *)
Inductive call := CallLost (e : error) | CallAnswered (latest : outcome Z) | CallUnanswered (latest : outcome Z) (e : error).

(** etcd and the collectors of the drainers by address; [w_updated] records every update
    that a call led to. *)
Record world := mkWorld {
  w_etcd : etcd;
  w_drainers : gmap string (Collector S);
  w_time : nat;
  w_updated : list (string * Collector S);
}.

(** The results of connecting and of the calls, the end of the context, and what others do to
    etcd and the drainers in between, by the time. *)
Context (dials : nat -> option error) (calls : nat -> call) (ctx_done : nat -> bool).
Variable env : nat -> etcd * gmap string (Collector S) -> etcd * gmap string (Collector S).

Definition pass_time (w : world) : world :=
  let '(e, ds) := env (w_time w) (w_etcd w, w_drainers w) in mkWorld e ds (w_time w + 1) (w_updated w).

Definition set_etcd (e : etcd) (w : world) : world := mkWorld e (w_drainers w) (w_time w) (w_updated w).

(** [Server.Notify] of the drainer and [Collector.Notify]: the goroutine of
    [keepUpdatingStatus] runs [updateStatus], and its result is the answer. *)
Definition drainer_Notify (addr : string) (latest : outcome Z) (w : world) : world * outcome unit :=
  match w_drainers w !! addr with
  | None => (w, Fail (Err "connection refused"))
  | Some c =>
    let '(e, nodes) := registry_Nodes order "pumps" (w_etcd w) in
    let '(c', r) := Collector.updateStatus nodes latest c in
    (mkWorld e (<[addr := c']> (w_drainers w)) (w_time w)
       (match r with Ret _ => w_updated w ++ [(addr, c')] | _ => w_updated w end), r)
  end.

(** The two functions that [notifyDrainer] retries. *)
Definition dial (addr : string) (w : world) : world * outcome unit :=
  let w' := pass_time w in
  (w', match dials (w_time w), w_drainers w' !! addr with
       | Some e, _ => Fail e
       | None, Some _ => Ret tt
       | None, None => Fail (Err "context deadline exceeded")
       end).

Definition call_drainer (addr : string) (w : world) : world * outcome unit :=
  let w' := pass_time w in
  match calls (w_time w) with
  | CallLost e => (w', Fail e)
  | CallAnswered latest => drainer_Notify addr latest w'
  | CallUnanswered latest e => (fst (drainer_Notify addr latest w'), Fail e)
  end.

Definition retry3 (fn : world -> world * outcome unit) (w : world) : world * outcome unit :=
  RetryContext (fun w => ctx_done (w_time w)) fn 3 w.

Definition notifyDrainer (c : Status) (w : world) : world * outcome unit :=
  match retry3 (dial (Addr c)) w with
  | (w, Ret _) => retry3 (call_drainer (Addr c)) w
  | (w, r) => (w, r)
  end.

Fixpoint notify_loop (drainers : list Status) (w : world) : world * outcome unit :=
  match drainers with
  | [] => (w, Ret tt)
  | c :: drainers =>
    if negb (bool_decide (State c = Online)) then notify_loop drainers w
    else match notifyDrainer c w with
    | (w, Ret _) => notify_loop drainers w
    | (w, r) => (w, r)
    end
  end.

Definition node_Notify (w : world) : world * outcome unit :=
  let '(e, r) := registry_Nodes order "drainers" (w_etcd w) in
  match r with
  | inl _ => (set_etcd e w, Fail (Err "list the drainers"))
  | inr drainers => notify_loop drainers (set_etcd e w)
  end.

(** ** The end of [Start] *)

Context {St : Type} `{PS : PumpStorage St}.
Variable others : gmap string (list byte) -> gmap string (list byte).

(** [registerNode] in the world. *)
Definition register (now : Z) (state : string) (updateTS : Z) (s : Server St) (w : world) : Server St * world * (etcd_error + unit) :=
  let '(s, e, r) := registerNode others now state updateTS s (w_etcd w) in (s, set_etcd e w, r).

(** The node is registered online; a node that was offline notifies the drainers, and goes
    offline again when that fails. *)
Definition start_node (now : Z) (tso : outcome Z) (s : Server St) (w : world) : Server St * world * outcome unit :=
  let previousState := State (status s) in
  match tso with
  | Fail err => (s, w, Fail err)
  | Panic => (s, w, Panic)
  | Ret ts =>
    match register now Online ts s w with
    | (s, w, inl _) => (s, w, Fail (Err "fail to register node to etcd"))
    | (s, w, inr _) =>
      if bool_decide (previousState = Offline) then
        match node_Notify w with
        | (w, Ret _) => (s, w, Ret tt)
        | (w, Fail err) => let '(s, w, _) := register now Offline 0 s w in (s, w, Fail err)
        | (w, Panic) => (s, w, Panic)
        end
      else (s, w, Ret tt)
    end
  end.
End Join.

(** ** A pump that has joined is followed *)

Lemma rep_formatted prefix m kv `{!StatusCodec} : Rep prefix m kv -> map_Forall (fun i _ => FormatNodeID i = i) m ->
  forall l, l ≡ₚ (map_to_list m).*2 -> FormatNodeID ∘ NodeID <$> l ≡ₚ (map_to_list m).*1.
Proof.
  intros HR Hf l ->. rewrite <- list_fmap_compose.
  replace (_ <$> map_to_list m) with (map_to_list m).*1; [done|]. apply list_fmap_ext. intros k [i st] Hk. cbn. symmetry.
  apply list_elem_of_lookup_2, elem_of_map_to_list in Hk. destruct (rep_stored _ _ _ HR _ _ Hk) as (_ & -> & _). by apply (Hf i st).
Qed.

Section JoinProofs.
Context `{!StatusCodec, !StatusCodecLaws}.
Context {S : Type} `{MS : !MergeStrategy (binlogItem Job) S}.
Context (order : gmap string Node -> list (string * Node)) (order_all : forall m, order m ≡ₚ map_to_list m).
Context (dials : nat -> option error) (calls : nat -> call) (ctx_done : nat -> bool).
Context (env : nat -> etcd * gmap string (Collector S) -> etcd * gmap string (Collector S)).
#[local] Set Default Proof Using "Type*".

(** The registry of pumps is well formed and has [id] online, and the collectors are wired. *)
Definition cluster_ok (id : string) (x : etcd * gmap string (Collector S)) : Prop :=
  (exists m st, Rep "pumps" m (kvs x.1) /\ map_Forall (fun i _ => FormatNodeID i = i) m /\ m !! id = Some st /\ State st = Online) /\
  map_Forall (fun _ c => wired c) x.2.

(** The collector pulls from the pump. *)
Definition follows (id : string) (c : Collector S) : Prop := exists p, pumps c !! id = Some p /\ pm_isPaused p = false.

Lemma update_wired nodes latest (c c' : Collector S) r : wired c -> (forall l, nodes = inr l -> NoDup (FormatNodeID ∘ NodeID <$> l)) ->
  Collector.updateStatus nodes latest c = (c', r) -> wired c'.
Proof.
  intros Hw Hnd. destruct nodes as [e|l]; [by intros [= <- <-]|]. destruct latest as [ts|e|].
  - intros E. pose proof (update_follows c l ts Hw (Hnd l eq_refl)) as Hf. rewrite E in Hf. by destruct Hf as (_ & ? & _).
  - intros [= <- <-]. destruct Hw. by constructor.
  - by intros [= <- <-].
Qed.

Lemma updated_follows l ts (c c' : Collector S) r n : wired c -> NoDup (FormatNodeID ∘ NodeID <$> l) -> n ∈ l -> State n = Online ->
  Collector.updateStatus (inr l) (Ret ts) c = (c', r) -> follows (FormatNodeID (NodeID n)) c'.
Proof.
  intros Hw Hnd Hn Hs E. pose proof (update_follows c l ts Hw Hnd) as Hf. rewrite E in Hf.
  destruct Hf as (_ & _ & Hin & _). exists (match pumps c !! FormatNodeID (NodeID n) with
    | None => NewPump (FormatNodeID (NodeID n)) (GetLatestTS (merger c)) | Some p => Continue p end).
  rewrite (Hin _ Hn), Hs. unfold pump_after, Continue. destruct (pumps c !! _) as [p|]; cbn; [|done].
  split; [done|]. by destruct (pm_isPaused p) eqn:E'.
Qed.

Variable id : string.
Hypothesis env_ok : forall k x, cluster_ok id x -> cluster_ok id (env k x).

Abbreviation good w := (cluster_ok id (w_etcd w, w_drainers w)).
(** The drainer at [addr] has been updated and then followed the pump. *)
Definition told (addr : string) (w : world) : Prop := exists c, (addr, c) ∈ w_updated w /\ follows id c.

Lemma pass_time_good w : good w -> good (pass_time env w) /\ w_updated (pass_time env w) = w_updated w.
Proof.
  intros Hg. unfold pass_time. pose proof (env_ok (w_time w) _ Hg) as He. by destruct (env _ _) as [e ds].
Qed.

Lemma drainer_Notify_good addr latest w w' r : good w -> drainer_Notify order addr latest w = (w', r) ->
  good w' /\ w_updated w ⊆ w_updated w' /\ (r = Ret tt -> told addr w').
Proof.
  intros Hg. unfold drainer_Notify. destruct (w_drainers w !! addr) as [c|] eqn:Ec; [|by intros [= <- <-]].
  destruct Hg as [(m & st & HR & Hf & Hst & Hon) Hw]. cbn [fst snd] in *.
  destruct (registry_Nodes order "pumps" (w_etcd w)) as [e nodes] eqn:En.
  apply (registry_Nodes_rep order order_all _ m) in En as [Hk Hn]; [|by_decide|done].
  destruct (Collector.updateStatus nodes latest c) as [c' r'] eqn:Eu. intros [= <- <-].
  assert (Hnd : forall l, nodes = inr l -> NoDup (FormatNodeID ∘ NodeID <$> l)).
  { intros l ->. rewrite (rep_formatted _ _ _ HR Hf _ Hn). apply NoDup_fst_map_to_list. }
  split_and!.
  - split; cbn [fst snd w_etcd w_drainers]; [exists m, st; by rewrite Hk|].
    apply map_Forall_insert_2; [|done]. eapply update_wired; [|exact Hnd|exact Eu]. by apply (Hw addr).
  - cbn [w_updated]. destruct r'; [apply list_subseteq_app_l; done|done|done].
  - intros ->. exists c'. split; [cbn; set_solver|].
    destruct nodes as [er|l]; [done|]. destruct latest as [ts|er|]; [|done|done].
    destruct (rep_stored _ _ _ HR _ _ Hst) as (_ & Hid & _). rewrite <- (Hf id st Hst), <- Hid.
    eapply updated_follows; [by apply (Hw addr)|by apply Hnd| |exact Hon|exact Eu].
    rewrite Hn. apply list_elem_of_fmap. exists (id, st). split; [done|]. by apply elem_of_map_to_list.
Qed.

(** What holds after a step: the cluster is still well formed, no update is forgotten. *)
Definition grown (U : list (string * Collector S)) (w : world) : Prop := good w /\ U ⊆ w_updated w.

Lemma told_grown addr U w : (exists c, (addr, c) ∈ U /\ follows id c) -> grown U w -> told addr w.
Proof. intros (c & Hc & Hf) [_ HU]. exists c. split; [by apply HU|done]. Qed.

Lemma retry3_good (fn : world -> world * outcome unit) Q U w w' r :
  (forall w w' r, grown U w -> fn w = (w', r) -> grown U w' /\ Q r w') -> grown U w ->
  retry3 ctx_done fn w = (w', r) -> grown U w' /\ Q r w'.
Proof. intros Hfn Hg Hr. by apply (retry_loop_inv (fun w => ctx_done (w_time w)) fn (grown U) Q 3 (Ret tt) w); [..|left|]. Qed.

Lemma notifyDrainer_good c U w w' r : grown U w -> notifyDrainer order dials calls ctx_done env c w = (w', r) ->
  grown U w' /\ (r = Ret tt -> told (Addr c) w').
Proof.
  intros Hg. unfold notifyDrainer. destruct (retry3 _ _ w) as [w1 r1] eqn:E.
  apply (retry3_good _ (fun _ _ => True) U) in E as [Hg1 _]; [| |exact Hg].
  2:{ intros u u' ? [Hu HU] [= <- _]. destruct (pass_time_good _ Hu) as [Hp Hq]. split; [split; [done|by rewrite Hq]|done]. }
  destruct r1 as [[]|er|]; [|by intros [= <- <-]..].
  intros E. eapply (retry3_good _ (fun r w => r = Ret tt -> told (Addr c) w) U); [|exact Hg1|exact E].
  intros u u' ru [Hu HU]. unfold call_drainer. destruct (pass_time_good _ Hu) as [Hp Hq]. rewrite <- Hq in HU.
  destruct (calls (w_time u)) as [er|latest|latest er]; [by intros [= <- <-]| |].
  - intros E1. destruct (drainer_Notify_good _ _ _ _ _ Hp E1) as (? & ? & ?). split; [split; [done|by etrans]|done].
  - destruct (drainer_Notify order (Addr c) latest (pass_time env u)) as [u1 r1] eqn:E1. cbn [fst]. intros [= <- <-].
    destruct (drainer_Notify_good _ _ _ _ _ Hp E1) as (? & ? & _). split; [split; [done|by etrans]|done].
Qed.

Lemma notify_loop_good drainers : forall U w w' r, grown U w -> notify_loop order dials calls ctx_done env drainers w = (w', r) ->
  grown U w' /\ (r = Ret tt -> forall c, c ∈ drainers -> State c = Online -> told (Addr c) w').
Proof.
  induction drainers as [|c drainers IH]; intros U w w' r Hg; cbn [notify_loop].
  { intros [= <- <-]. split; [done|]. intros _ c Hc. by apply not_elem_of_nil in Hc. }
  case_bool_decide as Hon; cbn [negb].
  - destruct (notifyDrainer _ _ _ _ _ c w) as [w1 r1] eqn:E. destruct (notifyDrainer_good _ _ _ _ _ Hg E) as [Hg1 Ht].
    destruct r1 as [[]|er|]; [|by intros [= <- <-]..]. intros Hl.
    destruct (IH (w_updated w1) w1 w' r) as [[Hg' HU'] Ht']; [split; [apply Hg1|done]|done|].
    split; [split; [done|]; etrans; [apply Hg1|done]|]. intros Hr d [->|Hd]%elem_of_cons Hdon; [|by apply Ht'].
    eapply (told_grown _ (w_updated w1)); [by apply Ht|done].
  - intros Hl. destruct (IH U w w' r Hg Hl) as [Hg' Ht']. split; [done|]. intros Hr d [->|Hd]%elem_of_cons Hdon; [done|by apply Ht'].
Qed.
End JoinProofs.

(** Registration writes the status of the node. *)
Lemma registerNode_spec `{!StatusCodec} {St : Type} `{PS : PumpStorage St} others now state ts (s s' : Server St) e e' r : registerNode others now state ts s e = (s', e', r) ->
  NodeID (status s') = NodeID (status s) /\ State (status s') = state /\ UpdateNode others "pumps" (status s') e = (e', r).
Proof.
  unfold registerNode, RefreshStatus, NewStatus. cbn [UpdateTS].
  destruct (negb (ts =? 0)); cbn; destruct (UpdateNode _ _ _ e) as [e1 r1] eqn:E; intros [= <- <- <-]; done.
Qed.

(** A store whose keys under a prefix come from stores of the same nodes. *)
Lemma rep_mix `{!StatusCodec} prefix m kv1 kv2 kv : Rep prefix m kv1 -> Rep prefix m kv2 ->
  (forall k, has_prefix (dirKey prefix) k = true -> kv !! k = kv1 !! k \/ kv !! k = kv2 !! k) -> Rep prefix m kv.
Proof.
  intros [Hs1 Ho1] [Hs2 Ho2] Hk. split.
  - intros i st Hst. destruct (Hs1 _ _ Hst) as (? & ? & v & Hv & Hk1), (Hs2 _ _ Hst) as (_ & _ & v2 & Hv2 & Hk2).
    split_and!; [done|done|]. exists v. split; [done|]. rewrite Hv in Hv2. injection Hv2 as ->.
    destruct (Hk (nodeKey prefix i)) as [-> | ->]; [apply has_prefix_app|done..].
  - intros k v Hv Hp. destruct (Hk k Hp) as [Heq|Heq]; rewrite Heq in Hv; [by eapply Ho1|by eapply Ho2].
Qed.

Lemma dir_of_pump id : has_prefix (dirKey "drainers") (nodeKey "pumps" id) = false.
Proof. done. Qed.

Section JoinTheorem.
Context `{!StatusCodec, !StatusCodecLaws}.
Context {S : Type} `{MS : !MergeStrategy (binlogItem Job) S}.
Context (order : gmap string Node -> list (string * Node)) (order_all : forall m, order m ≡ₚ map_to_list m).
Context (dials : nat -> option error) (calls : nat -> call) (ctx_done : nat -> bool).
Context (env : nat -> etcd * gmap string (Collector S) -> etcd * gmap string (Collector S)).
Context {St : Type} `{PS : PumpStorage St}.
Context (others : gmap string (list byte) -> gmap string (list byte)).

(** C11: A pump that joins is followed. When a pump that was offline has started, whatever calls
    failed or were answered late and whatever others did meanwhile, every drainer that is
    registered as online has updated its list of pumps while this pump was
    registered as online, and pulls from it, also when it is one that the drainer knew as
    paused. *)
Theorem pump_joins now tso (s s' : Server St) w w' m m1 md :
  let id := NodeID (status s) in
  start_node order dials calls ctx_done env others now tso s w = (s', w', Ret tt) -> State (status s) = Offline ->
  element id -> FormatNodeID id = id ->
  Rep "pumps" m (kvs (w_etcd w)) -> Rep "pumps" m1 (others (kvs (w_etcd w))) -> map_Forall (fun i _ => FormatNodeID i = i) m1 ->
  Rep "drainers" md (kvs (w_etcd w)) -> Rep "drainers" md (others (kvs (w_etcd w))) ->
  map_Forall (fun _ c => wired c) (w_drainers w) ->
  (forall k x, cluster_ok id x -> cluster_ok id (env k x)) ->
  forall i d, md !! i = Some d -> State d = Online -> exists c, (Addr d, c) ∈ w_updated w' /\ follows id c.
Proof using Type*.
  intros id Hst Hoff Hel Hfmt HR HR1 Hf1 HD HD1 Hwired Henv i d Hd Hon.
  unfold start_node in Hst. destruct tso as [ts|?|]; [|done|done].
  unfold register in Hst. destruct (registerNode others now Online ts s (w_etcd w)) as [[s1 e1] r1] eqn:Er.
  apply registerNode_spec in Er as (Hid & Hs1 & Hup). destruct r1 as [?|[]]; [done|].
  rewrite bool_decide_eq_true_2 in Hst by done.
  assert (Hel1 : element (NodeID (status s1))) by by rewrite Hid.
  destruct (UpdateNode_rep others "pumps" m m1 _ _ _ _ ltac:(by_decide) Hel1 HR HR1 Hup) as (Hrep & _ & Hframe & _).
  specialize (Hrep eq_refl). rewrite Hid in Hrep. fold id in Hrep.
  assert (HD' : Rep "drainers" md (kvs e1)).
  { eapply rep_mix; [exact HD|exact HD1|]. intros k Hk. apply Hframe. intros ->. by rewrite dir_of_pump in Hk. }
  unfold node_Notify in Hst. destruct (registry_Nodes order "drainers" _) as [e2 ds] eqn:En.
  apply (registry_Nodes_rep order order_all _ md) in En as [Hk2 Hds]; [|by_decide|done].
  destruct ds as [?|ds]; [by destruct (registerNode _ _ _ _ _ _) as [[? ?] ?]|].
  destruct (notify_loop order dials calls ctx_done env ds _) as [w2 r2] eqn:El.
  destruct r2 as [[]|?|]; [|by destruct (registerNode _ _ _ _ _ _) as [[? ?] ?]|done]. injection Hst as <- <-.
  eapply (notify_loop_good order order_all dials calls ctx_done env (NodeID (status s)) Henv ds []) in El as [_ Ht].
  - apply Ht; [done| |done]. rewrite Hds. apply list_elem_of_fmap. exists (i, d). split; [done|]. by apply elem_of_map_to_list.
  - split; [|set_solver]. split; [|done]. exists (<[id := status s1]> m1), (status s1). cbn [fst w_etcd set_etcd].
    rewrite Hk2. split_and!; [done|by apply map_Forall_insert_2|by rewrite lookup_insert_eq|done].
Qed.
End JoinTheorem.

(** ** The id and the state survive a restart *)

Section Identity.
Context `{!StatusCodec, !StatusCodecLaws}.

(** A node that was made is not locked out, and has the id that was chosen. *)
Lemma NewPumpNode_inv url_Host split_port hostname cfg client d e d' e' st :
  NewPumpNode url_Host split_port hostname cfg client d e = (d', e', Ret st) ->
  dd_locked d = false /\ local_node_id url_Host split_port hostname cfg d = (d', Ret (NodeID st)) /\
  exists r, registry_Node "pumps" (NodeID st) e = (e', r) /\
    match r with inr (Some t) => State st = State t | inr None | inl (NotFoundf _) => State st = Offline | inl _ => False end.
Proof.
  unfold NewPumpNode, checkExclusive. destruct (mkdirAll d) as [[]|?|]; [|done|done]. cbn.
  destruct (dd_locked d); [done|]. cbn. destruct client as [[]|?|]; [|done|done].
  destruct (local_node_id _ _ _ cfg d) as [d1 [nodeID|?|]]; [|done|done].
  destruct (url_Host _) as [host|?|]; [|done|done].
  destruct (registry_Node "pumps" nodeID e) as [e1 r] eqn:E.
  destruct r as [[k|k|er]|[t|]]; intros Heq; simplify_eq; (split_and!; [done|done|]); eexists; by split.
Qed.

(** An id in the file is taken, whatever the configuration. *)
Lemma local_node_id_file url_Host split_port hostname cfg d nodeID :
  readLocalNodeID d = inr nodeID -> local_node_id url_Host split_port hostname cfg d = (d, Ret nodeID).
Proof. intros Hr. unfold local_node_id. by rewrite Hr. Qed.

(** An id that was made without one in the configuration is in the file. *)
Lemma local_node_id_kept url_Host split_port hostname cfg d d' nodeID : pc_NodeID cfg = ""%string ->
  (forall name host port, hostname = Ret name -> split_port host = Ret port ->
     FormatNodeID (name +:+ ":" +:+ port) = name +:+ ":" +:+ port) ->
  local_node_id url_Host split_port hostname cfg d = (d', Ret nodeID) -> readLocalNodeID d' = inr nodeID.
Proof.
  intros Hc Hfmt. unfold local_node_id. destruct (readLocalNodeID d) as [err|text] eqn:Er; [|by intros [= <- <-]].
  rewrite bool_decide_eq_false_2 by (rewrite Hc; tauto). destruct err as [|er]; [|done].
  unfold generateLocalNodeID. destruct (mkdirAll d) as [[]|?|]; [|done|done]. cbn.
  destruct (url_Host _) as [host|?|]; [|done|done]. cbn. destruct (split_port host) as [port|?|] eqn:Ep; [|done|done]. cbn.
  destruct hostname as [name|?|]; [|done|done]. cbn. unfold write_node.
  destruct (dd_write d); cbn; intros Heq; simplify_eq. unfold readLocalNodeID. cbn.
  f_equal. etrans; [apply TrimSpace_idemp|]. by eapply Hfmt.
Qed.

End Identity.

(** ** Examples *)

Module PumpNodeExamples.
Import RegistryExamples.

(** A pump whose storage is empty, and a drainer that has merged up to 50 and knows no pump. *)
#[local] Instance no_storage : PumpStorage unit := {
  st_WriteBinlog _ st := (st, None); st_GC _ st := st; st_GetGCTS _ := 0; st_MaxCommitTS _ := 0;
  st_AllMatched _ := true; st_PullCommitBinlog _ _ := [];
}.
Definition server : Server unit := mkServer 7 tt (NewStatus "host:8250" "10.0.0.1:8250" Offline 0 0 0) 0 0 100 0 0 false.
Abbreviation Heap := (HeapStrategy (binlogItem Job)).
Definition before : world (S := Heap) := mkWorld store {["10.0.0.2:8249"%string := NewCollector 50]} 0 [].

(** The first connection fails; the first call is handled but its answer is lost; then PD is
    not available; the last call is answered. *)
Definition dials (k : nat) : option error := if decide (k = 0%nat) then Some (Err "connection refused") else None.
Definition calls (k : nat) : call :=
  match k with
  | 2%nat => CallUnanswered (Ret 60) (Err "transport is closing")
  | 3%nat => CallAnswered (Fail (Err "pd"))
  | _ => CallAnswered (Ret 61)
  end.

Definition started : Server unit * world (S := Heap) * outcome unit :=
  start_node map_to_list dials calls (fun _ => false) (fun _ x => x) id 1000 (Ret 60) server before.

Lemma no_pumps : Rep "pumps" ∅ (kvs store).
Proof.
  split; [by intros ? ? ?%lookup_empty_Some|]. cbn [kvs store]. intros k v [<- <-]%lookup_singleton_Some Hp. exfalso. revert Hp. by_decide.
Qed.

Lemma pump_joins_witness : snd started = Ret tt /\
  exists c, ("10.0.0.2:8249"%string, c) ∈ w_updated (snd (fst started)) /\ follows "host:8250" c.
Proof.
  assert (Hs : snd started = Ret tt) by (vm_compute; reflexivity).
  split; [exact Hs|]. destruct started as [[s' w'] r] eqn:E. cbn [fst snd] in *. subst r.
  pose proof (pump_joins map_to_list (fun m => reflexivity (map_to_list m)) dials calls (fun _ => false) (fun _ x => x) id
    1000 (Ret 60) server s' before w' ∅ ∅ {["host:8249"%string := drainer1]} E eq_refl ltac:(by_decide) ltac:(by_decide) no_pumps no_pumps) as Hj.
  cbn zeta in Hj. apply (fun a b c d e => Hj a b c d e "host:8249"%string drainer1);
    [by apply map_Forall_empty|exact store_rep|exact store_rep| |done|by apply lookup_singleton_eq|done].
  apply map_Forall_singleton. apply wired_new.
Defined.

(** Hosts, ports, and an empty data directory that can be used. *)
Definition demo_host (addr : string) : outcome string := Ret "10.0.0.1:8250"%string.
Definition demo_port (host : string) : outcome string := Ret "8250"%string.
Definition new_dir : datadir := mkDir false NMissing None WDone.
Definition plain : pump_config := mkPumpConfig "" "http://10.0.0.1:8250" "http://10.0.0.1:8250".

Definition paused_store : etcd := mkEtcd {[nodeKey "pumps" "host:8250" := bits (encode (to_tuple (set_state Paused pump1)))]} [].

Lemma paused_rep : Rep "pumps" {["host:8250"%string := set_state Paused pump1]} (kvs paused_store).
Proof.
  split.
  - intros i st [<- <-]%lookup_singleton_Some. split_and!; [by_decide|done|]. eexists. split; [done|]. apply lookup_singleton_eq.
  - cbn [kvs paused_store]. intros k v [<- <-]%lookup_singleton_Some _. eexists. split; [done|]. rewrite lookup_singleton_eq. by eexists.
Qed.

(** The second start, on another host with an id in its configuration. *)
Definition first := NewPumpNode demo_host demo_port (Ret "host"%string) plain (Ret tt) new_dir store.
Definition second := NewPumpNode demo_host demo_port (Ret "other"%string) (mkPumpConfig "mine" "" "") (Ret tt) (fst (fst first)) paused_store.


Definition torn := NewPumpNode demo_host demo_port (Ret "host"%string) plain (Ret tt) (mkDir false NMissing None (WCut (Err "killed") 0)) store.
Definition nameless : Status := mkStatus "" "10.0.0.1:8250" Offline true 0 0 0.
Definition registered := UpdateNode id "pumps" (set_state Online nameless) store.

(** The file of the id is not written atomically: when the process dies in between, the file
    may be empty, and the next start has the empty id, without an error. Its status
    is then registered under the key of the directory itself, where no drainer finds
    it: the listing of the pumps stays empty. *)
Theorem node_id_torn :
  snd torn = Fail (Err "killed") /\
  snd (NewPumpNode demo_host demo_port (Ret "host"%string) plain (Ret tt) (fst (fst torn)) store) = Ret nameless /\
  snd registered = inr tt /\ snd (registry_Nodes map_to_list "pumps" (fst registered)) = inr [].
Proof. split_and!; vm_compute; reflexivity. Qed.
End PumpNodeExamples.
