(* ===== verification/Binlogctl.v ===== *)
(** * Binlogctl
    The command line tool ([binlogctl/nodes.go, meta.go, encrypt.go],
    [cmd/binlogctl/main.go]): it lists the nodes, changes their states in the
    registry, asks them to pause or to close, and writes the position at which a
    drainer starts. *)
From Stdlib Require Import Init.Byte Ascii.
From stdpp Require Import base option list gmap strings.
From S2P Require Import Prelude Text Binlog Checkpoint Registry PumpServer Encrypt.

(** ** Nodes *)

(** [node.NodePrefix]; a kind that is not in the map has the empty prefix. *)
Definition NodePrefix (kind : string) : string :=
  if bool_decide (kind = "pump"%string) then "pumps"
  else if bool_decide (kind = "drainer"%string) then "drainers" else "".

Section Nodes.
Context `{!StatusCodec}.
Variable order : gmap string Node -> list (string * Node).

Definition of_etcd {A} (r : etcd_error + A) : outcome A :=
  match r with inr a => Ret a | inl (Other e) => Fail e | inl (NotFoundf k) => Fail (Err ("key " +:+ k +:+ " in etcd not found"))
  | inl (AlreadyExistsf k) => Fail (Err ("key " +:+ k +:+ " in etcd already exists")) end.

(** [QueryNodesByKind]: the nodes that are printed. *)
Definition QueryNodesByKind (kind : string) (showOffline : bool) (e : etcd) : etcd * outcome (list Status) :=
  let '(e, r) := registry_Nodes order (NodePrefix kind) e in
  (e, let! nodes := of_etcd r in
      Ret (filter (fun n => ~ (State n = Offline /\ showOffline = false)) nodes)).

Definition legal (state : string) : Prop := state ∈ [Online; Pausing; Paused; Closing; Offline].
#[global] Instance legal_dec state : Decision (legal state).
Proof. unfold legal. apply _. Defined.

(** [UpdateNodeState]; [between] is what others do after the status was read and [others] what
    they do between the two calls of [UpdateNode]. *)
Definition UpdateNodeState (between others : gmap string (list byte) -> gmap string (list byte)) (kind nodeID state : string) (e : etcd)
    : etcd * outcome unit :=
  match registry_Node (NodePrefix kind) nodeID e with
  | (e, inl er) => (e, of_etcd (inl er))
  | (e, inr n) =>
    let e := mkEtcd (between (kvs e)) (rpcs e) in
    if decide (legal state) then
      match n with
      | None => (e, Panic)
      | Some n => let '(e, r) := UpdateNode others (NodePrefix kind) (set_state state n) e in (e, of_etcd r)
      end
    else (e, Fail (Err ("state " +:+ state +:+ " is illegal")))
  end.

(** ** Requests to a node *)

(** The URL of the request. *)
Definition state_url (tls : bool) (n : Status) (action : string) : string :=
  (if tls then "https" else "http") +:+ "://" +:+ Addr n +:+ "/state/" +:+ NodeID n +:+ "/" +:+ action.

(** The host and the variables of the route "/state/{nodeID}/{action}" in a URL. *)
Definition route (url : string) : option (string * string * string) :=
  match split_on "/" url with
  | [_; ""; host; "state"; nodeID; action]%string => Some (host, nodeID, action)
  | _ => None
  end.

Context {St : Type} `{PS : PumpStorage St}.

(** The answers of a server: no such page, or what [ApplyAction] answers. *)
Inductive answer := PageNotFound | Applied (r : string + string).

(** A PUT request to the pumps by address, with whether closing starts. *)
Definition http_Do (fail : option error) (url : string) (pumps : gmap string (Server St))
    : gmap string (Server St) * outcome (answer * bool) :=
  match fail, route url with
  | Some e, _ => (pumps, Fail e)
  | None, None => (pumps, Ret (PageNotFound, false))
  | None, Some (host, nodeID, action) =>
    match pumps !! host with
    | None => (pumps, Fail (Err "connection refused"))
    | Some s => let '(s, r, closing) := PumpServer.ApplyAction nodeID action s in (<[host := s]> pumps, Ret (Applied r, closing))
    end
  end.

(** [ApplyAction] of the tool; it does not look at the answer. *)
Definition ctl_ApplyAction (fail : option error) (tls : bool) (kind nodeID action : string) (e : etcd) (pumps : gmap string (Server St))
    : etcd * gmap string (Server St) * outcome unit :=
  let '(e, r) := registry_Node (NodePrefix kind) nodeID e in
  match of_etcd r with
  | Fail er => (e, pumps, Fail er)
  | Panic | Ret None => (e, pumps, Panic)
  | Ret (Some n) =>
    let '(pumps, resp) := http_Do fail (state_url tls n action) pumps in
    (e, pumps, let! _ := resp in Ret tt)
  end.
End Nodes.

(** ** The position of a new drainer *)
Section Meta.
(** TOML of [Meta], and the two lines with the time in UTC and in a zone, if the zone is known. *)
Context (meta_Encode : Z -> outcome (list byte)) (times : Z -> string -> option (list byte)).

Definition saveMeta (ts : Z) (timeZone : string) (fs : FS) : list FS * outcome unit :=
  match meta_Encode ts with
  | Ret buf =>
    let buf := if bool_decide (timeZone <> ""%string) then buf ++ default [] (times ts timeZone) else buf in
    WriteFileAtomic buf fs
  | Fail e => ([], Fail e)
  | Panic => ([], Panic)
  end.

Definition GenerateMetaInfo (mkdir : outcome unit) (tso : outcome Z) (timeZone : string) (fs : FS) : list FS * outcome unit :=
  match (let! _ := mkdir in tso) with
  | Ret commitTS => saveMeta commitTS timeZone fs
  | Fail e => ([], Fail e)
  | Panic => ([], Panic)
  end.
End Meta.

(** [EncryptHandler]: the text that is printed. *)
Definition EncryptHandler hexKey aes genIV (text : list byte) (p : package) : package * outcome (list byte) :=
  Encrypt hexKey aes genIV text p.

(** ** What the commands do *)

Lemma NodePrefix_element kind : kind = "pump"%string \/ kind = "drainer"%string -> element (NodePrefix kind).
Proof. intros [-> | ->]; by_decide. Qed.

Lemma of_etcd_Ret {A} (r : etcd_error + A) a : of_etcd r = Ret a -> r = inr a.
Proof. destruct r as [[]|]; cbn; congruence. Qed.

Lemma of_etcd_inl {A} (er : etcd_error) : exists e, of_etcd (A := A) (inl er) = Fail e.
Proof. destruct er; by eexists. Qed.

Section Commands.
Context `{!StatusCodec, !StatusCodecLaws}.
#[local] Set Default Proof Using "Type*".

(** Changing the state of a node: a success means that the state is one of the five, that
    the node was registered, and that it is now registered with this state and otherwise
    with the status that was read, whatever others wrote in between; a node that is not
    registered or a state that does not exist is refused, and the registry is left as the
    others made it. *)
Theorem UpdateNodeState_spec between others kind nodeID state e m m1 m2 :
  let prefix := NodePrefix kind in
  kind = "pump"%string \/ kind = "drainer"%string -> element nodeID -> Rep prefix m (kvs e) ->
  Rep prefix m1 (between (kvs e)) -> Rep prefix m2 (others (between (kvs e))) ->
  let '(e', r) := UpdateNodeState between others kind nodeID state e in
  (r = Ret tt -> legal state /\ exists n, m !! nodeID = Some n /\ Rep prefix (<[nodeID := set_state state n]> m2) (kvs e')) /\
  (m !! nodeID = None \/ ~ legal state -> (exists er, r = Fail er) /\ (kvs e' = kvs e \/ kvs e' = between (kvs e))).
Proof.
  intros prefix Hkind Hel HR HR1 HR2. pose proof (NodePrefix_element _ Hkind) as Hp. unfold UpdateNodeState. fold prefix.
  destruct (registry_Node prefix nodeID e) as [e1 r1] eqn:E. apply (registry_Node_rep _ _ m) in E as [Hk Hr]; [|done..].
  destruct r1 as [er|o].
  { destruct (of_etcd_inl (A := unit) er) as [e0 He0]. rewrite He0. split; [done|]. intros _. rewrite Hk. eauto. }
  destruct Hr as [-> [n Hn]]. rewrite Hn. destruct (decide (legal state)) as [Hlegal|Hlegal].
  - destruct (rep_stored _ _ _ HR _ _ Hn) as (_ & Hid & _).
    set (e2 := mkEtcd (between (kvs e1)) (rpcs e1)). destruct (UpdateNode others prefix (set_state state n) e2) as [e' r] eqn:Eu.
    eapply (UpdateNode_rep others prefix m1 m2) in Eu as (Hok & _); [|done|by rewrite <- Hid in Hel|cbn; by rewrite Hk..].
    split; [|intros [?|?]; congruence]. intros Hr%of_etcd_Ret. split; [done|]. exists n. split; [done|].
    specialize (Hok Hr). cbn [set_state NodeID] in Hok. by rewrite Hid in Hok.
  - split; [done|]. intros _. cbn [kvs]. rewrite Hk. split; [by eexists|by right].
Qed.

(** The URL of a request leads to the node. *)
Lemma route_url tls n action : absent "/" (Addr n) -> absent "/" (NodeID n) -> absent "/" action ->
  route (state_url tls n action) = Some (Addr n, NodeID n, action).
Proof using Type.
  intros Ha Hn Hc. unfold route. replace (state_url tls n action) with
    ((if tls then "https:" else "http:") +:+ String "/" ("" +:+ String "/" (Addr n +:+ String "/" ("state" +:+ String "/"
      (NodeID n +:+ String "/" action))))) by by destruct tls.
  rewrite split_on_app by (destruct tls; by_decide). rewrite !split_on_app by (done || by_decide). by rewrite split_on_absent.
Qed.

Context {St : Type} `{PS : PumpStorage St}.

(** The command to pause or to take a pump offline reaches it: the pump under the address
    that is registered for the id, when it has this id and is online, changes to
    pausing or closing and begins to close; nothing else of it and no other pump is changed. *)
Theorem action_reaches_pump tls nodeID action e (pumps : gmap string (Server St)) m n s :
  Rep "pumps" m (kvs e) -> rpcs e = [] -> element nodeID -> m !! nodeID = Some n -> absent "/" (Addr n) ->
  pumps !! Addr n = Some s -> NodeID (status s) = nodeID -> State (status s) = Online ->
  action = "pause"%string \/ action = "close"%string ->
  let '(e', pumps', r) := ctl_ApplyAction None tls "pump" nodeID action e pumps in
  r = Ret tt /\ kvs e' = kvs e /\
  pumps' = <[Addr n := set_status (set_state (if bool_decide (action = "pause"%string) then Pausing else Closing) (status s)) s]> pumps /\
  snd (http_Do None (state_url tls n action) pumps) = Ret (Applied (inr ("apply action " +:+ action +:+ " success!")), true).
Proof.
  intros HR Hrpc Hel Hn Haddr Hs Hid Hon Hact. unfold ctl_ApplyAction.
  destruct (registry_Node (NodePrefix "pump") nodeID e) as [e1 r1] eqn:E.
  apply (registry_Node_rep _ _ m) in E as [Hk Hr]; [|by_decide|done|done].
  destruct (rep_stored _ _ _ HR _ _ Hn) as (_ & Hid' & _).
  destruct r1 as [er|o].
  { exfalso. destruct er; [congruence|..]; destruct Hr as (? & _ & [Hf|Hf]); by rewrite Hrpc in Hf. }
  destruct Hr as [-> _]. rewrite Hn. cbn [of_etcd]. unfold http_Do.
  assert (Ha : absent "/" action) by (destruct Hact as [-> | ->]; by_decide).
  rewrite route_url, Hs by (done || (rewrite Hid'; apply Hel)).
  unfold PumpServer.ApplyAction. rewrite Hid', Hid, Hon. rewrite !bool_decide_eq_true_2 by done. cbn [negb].
  destruct Hact as [-> | ->]; cbn; done.
Qed.
End Commands.

(** The position that is generated is where a new drainer starts: after a success, and
    without a time zone, a checkpoint file that is opened on the disk stands at the timestamp of
    PD; and in every state of the disk before it the old file or none is there. *)
Theorem generated_position `{!FileCodec} meta_Encode times mkdir ts initial fs states r :
  (forall ts b f0, meta_Encode ts = Ret b -> toml_Decode b f0 = (mkFields (ConsistentSaved f0) ts (Version f0), Ret tt)) ->
  GenerateMetaInfo meta_Encode times mkdir (Ret ts) "" fs = (states, r) -> ts <> 0 ->
  Forall (fun s => fs_target s = fs_target fs \/ r = Ret tt) states /\
  (r = Ret tt -> exists s, last states = Some s /\
     let '(cp, r) := NewFile initial (mkFS (fs_target s) (fs_temps s) []) in
     r = Ret tt /\ CommitTS (fc_fields cp) = ts /\ ConsistentSaved (fc_fields cp) = false).
Proof.
  intros Hlaw. unfold GenerateMetaInfo. destruct mkdir as [[]|?|]; [|by intros [= <- <-]..]. cbn. unfold saveMeta.
  destruct (meta_Encode ts) as [b|?|] eqn:Eb; [|by intros [= <- <-]..]. rewrite bool_decide_eq_false_2 by tauto.
  intros (Hall & Hlast & _)%WriteFileAtomic_target Hts. split.
  - eapply Forall_impl; [exact Hall|]. cbn. naive_solver.
  - intros Hr. destruct (Hlast Hr) as (s & Hl & Ht). exists s. split; [done|].
    unfold NewFile, file_Load, next_io. cbn. rewrite Ht, (Hlaw _ _ _ Eb). cbn. rewrite (proj2 (Z.eqb_neq ts 0)) by done. done.
Qed.

Module CtlExamples.
Import RegistryExamples.

#[local] Instance no_storage : PumpStorage unit := {
  st_WriteBinlog _ st := (st, None); st_GC _ st := st; st_GetGCTS _ := 0; st_MaxCommitTS _ := 0;
  st_AllMatched _ := true; st_PullCommitBinlog _ _ := [];
}.
Definition one_pump : etcd := mkEtcd {[nodeKey "pumps" "host:8250" := bits (encode (to_tuple pump1))]} [].

Lemma one_pump_rep : Rep "pumps" {["host:8250"%string := pump1]} (kvs one_pump).
Proof.
  split.
  - intros i st [<- <-]%lookup_singleton_Some. split_and!; [by_decide|done|]. eexists. split; [done|]. apply lookup_singleton_eq.
  - cbn [kvs one_pump]. intros k v [<- <-]%lookup_singleton_Some _. eexists. split; [done|]. rewrite lookup_singleton_eq. by eexists.
Qed.

Definition running (state : string) : gmap string (Server unit) :=
  {["10.0.0.1:8250"%string := mkServer 7 tt (set_state state pump1) 0 0 100 0 0 false]}.

Definition paused := UpdateNodeState id id "pump" "host:8250" "paused" one_pump.

Lemma UpdateNodeState_spec_witness : snd paused = Ret tt /\ legal Paused /\
  Rep "pumps" {["host:8250"%string := set_state Paused pump1]} (kvs (fst paused)).
Proof.
  assert (Hok : snd paused = Ret tt) by (vm_compute; reflexivity).
  pose proof (UpdateNodeState_spec id id "pump" "host:8250" Paused one_pump _ _ _ (or_introl eq_refl) ltac:(by_decide)
    one_pump_rep one_pump_rep one_pump_rep) as H.
  change (UpdateNodeState id id "pump" "host:8250" Paused one_pump) with paused in H.
  destruct paused as [e' r]. cbn [fst snd] in *. destruct H as [H _]. destruct (H Hok) as (Hl & n & Hn & HR).
  rewrite lookup_singleton_eq in Hn. injection Hn as <-. split_and!; [exact Hok|exact Hl|].
  change (NodePrefix "pump") with "pumps"%string in HR. by rewrite insert_singleton_eq in HR.
Defined.

Lemma action_reaches_pump_witness : snd (ctl_ApplyAction None false "pump" "host:8250" "close" one_pump (running Online)) = Ret tt /\
  exists s, snd (fst (ctl_ApplyAction None false "pump" "host:8250" "close" one_pump (running Online))) !! "10.0.0.1:8250"%string = Some s /\
    State (status s) = Closing.
Proof.
  pose proof (action_reaches_pump false "host:8250" "close" one_pump (running Online) _ pump1 _
    one_pump_rep eq_refl ltac:(by_decide) (lookup_singleton_eq _ _) ltac:(by_decide) (lookup_singleton_eq _ _) eq_refl eq_refl (or_intror eq_refl)) as H.
  destruct (ctl_ApplyAction _ _ _ _ _ _ _) as [[e' ps] r]. destruct H as (-> & _ & -> & _). cbn [fst snd].
  split; [reflexivity|]. eexists. split; [apply lookup_insert_eq|]. reflexivity.
Defined.

(** The tool reports success although the pump refuses: it is paused already. *)
Theorem refusal_unnoticed :
  snd (http_Do None (state_url false pump1 "close") (running Paused)) =
    Ret (Applied (inl "this pump's state is paused, apply close failed!"%string), false) /\
  snd (ctl_ApplyAction None false "pump" "host:8250" "close" one_pump (running Paused)) = Ret tt.
Proof. split; vm_compute; reflexivity. Qed.

(** A text that is the timestamp in as many bytes. *)
#[local] Instance unary_codec : FileCodec := {
  toml_Encode f := Ret (replicate (Z.to_nat (CommitTS f)) x31);
  toml_Decode b f0 := (mkFields (ConsistentSaved f0) (Z.of_nat (length b)) (Version f0), Ret tt);
}.
Definition unary (ts : Z) : outcome (list byte) := if 0 <=? ts then Ret (replicate (Z.to_nat ts) x31) else Fail (Err "negative").
Definition generated := GenerateMetaInfo unary (fun _ _ => None) (Ret tt) (Ret 5) "" (mkFS None [] []).

Lemma generated_position_witness : snd generated = Ret tt /\ exists s, last (fst generated) = Some s /\
  CommitTS (fc_fields (fst (NewFile 0 (mkFS (fs_target s) (fs_temps s) [])))) = 5.
Proof.
  assert (Hok : snd generated = Ret tt) by (vm_compute; reflexivity). split; [exact Hok|].
  destruct generated as [states r] eqn:E. cbn [fst snd] in *.
  assert (Hlaw : forall ts b f0, unary ts = Ret b -> toml_Decode b f0 = (mkFields (ConsistentSaved f0) ts (Version f0), Ret tt)).
  { intros ts b f0. unfold unary. destruct (Z.leb_spec 0 ts); [|done]. intros [= <-]. cbn. rewrite length_replicate. by rewrite Z2Nat.id. }
  destruct (generated_position unary (fun _ _ => None) (Ret tt) 5 0 (mkFS None [] []) states r Hlaw E ltac:(lia)) as [_ H].
  destruct (H Hok) as (s & Hl & Hs). exists s. split; [exact Hl|].
  destruct (NewFile 0 _) as [cp r'] eqn:En. by destruct Hs as (_ & ? & _).
Defined.
End CtlExamples.
